(* ===== verification/_CoqProject ===== *)
-Q . S2P
Prelude.v
JsCollections.v
NodeTypes.v
DirectedGraph.v
Fixtures.v
GraphSearch.v
GraphKeys.v
NodeRemoval.v
RunData.v
StartNodes.v
Components.v
SourceGroups.v
ExecutionStack.v
Connections.v
Subgraph.v
GraphExport.v
GraphUtils.v
Workflow.v
WorkflowRename.v
WorkflowSearch.v
Trigger.v
Waiting.v
Items.v
Requests.v
EngineState.v
PartialPlan.v
Lifecycle.v
Engine.v
EngineFixtures.v
Termination.v
EngineInvariants.v
LinearRun.v
Ordering.v
Failure.v
EngineBehaviour.v
Concurrency.v
ActiveExecutions.v
ExecutionCapacity.v
WaitTracker.v
TaskBroker.v
TaskBrokerSafety.v
TaskMatching.v
WorkflowDiff.v
WorkflowHistory.v
ScheduledTasks.v
AugmentObject.v
AugmentIsolation.v
FromAi.v
FromAiFilter.v
FromAiCalls.v
StructureValidation.v
LeaderElection.v
LegacyElection.v
TextCodec.v
Protocol.v
NodeProperties.v
ParameterOrder.v
NodeParameters.v
NodeParametersSpec.v
ParameterDefaults.v
TaskRunner.v
TaskRunnerSafety.v
TaskProtocol.v
TypeValidation.v
FilterParameter.v
FilterLaws.v
ParameterIssues.v
IssuesSpec.v
DataProxy.v
PairedItems.v
PairedRun.v
Readiness.v
ExecutionRecovery.v
Webhooks.v
WebhookLookup.v
TestWebhooks.v
TestWebhookSafety.v
TestProduction.v
