(* ===== verification/Prelude.v ===== *)
(** * The workflow execution core of n8n

    This library models the part of n8n that decides which nodes of a workflow run,
    in which order and on which data, and the services around it that decide which
    executions run at all: the limit on concurrent executions, the executions that are
    active or wait, the broker that hands tasks to runners and the runners, the cron jobs
    and webhooks of active workflows, the election of a leader among several servers, the
    recovery of executions after a crash.  It also models what the editor and the engine do
    with the parameters of a node (which are displayed, their defaults, their validation,
    the issues that are reported, filters) and how expressions find the data of other
    nodes.  It proves that they do what they are meant to do.  Source paths below are
    relative to [src/n8n/packages].

    ** The program

    A workflow is a graph of nodes.  The class [Workflow] ([workflow/src/workflow.ts])
    holds the nodes by name and the connections, by source and by destination.  The
    class [WorkflowExecute] ([core/src/execution-engine/workflow-execute.ts]) executes
    it: a loop takes an entry from the execution stack, calls the node (with retries,
    or takes its pinned data), records the result in the run data and puts the nodes
    that follow on the stack.  A node with several inputs waits in
    [waitingExecution] until its inputs have arrived.  A node can also return a request
    instead of items ([requests-response.ts]): the engine then runs the requested tool
    nodes and resumes the requesting node with their results.  A partial execution
    ([partial-execution-utils]) first computes, from the data of an earlier run, what
    has to run again: it converts the workflow to a [DirectedGraph], bridges disabled
    nodes, cuts out the part between trigger and destination, finds the start nodes,
    moves them to the entries of their cycles, cleans the run data and recreates the
    stack with which the loop starts.

    Around the engine, the server ([cli/src]) registers every execution with
    [ActiveExecutions], which first reserves capacity with the concurrency control and
    releases it when the promise of the execution settles.  [WaitTracker] resumes
    executions that wait.  [TaskBroker] matches the tasks that nodes request with the
    offers of task runners and forwards their messages; a [TaskRunner] offers to execute
    as many tasks as it has room for, executes them and answers.  Several servers elect
    a leader with a key in Redis ([cli/src/scaling]).  [ActiveWorkflows] starts and
    stops the triggers and pollers of a workflow, the latter as cron jobs of
    [ScheduledTaskManager].  [workflow-diff.ts] compares versions of a workflow and
    decides which versions of a history can be dropped.  [WebhookService] keeps the webhooks
    of active workflows in a table behind a cache and finds the one for a request;
    [TestWebhooks] registers those of a manual execution for a limited time.  After a
    crash [ExecutionRecoveryService] completes the saved data of an execution from the log
    of events.  Expressions see the data of the execution through [workflow-data-proxy.ts],
    which traces items back to the nodes they come from, and the proxies of
    [augment-object.ts]; agents fill in the calls of
    $fromAI that [from-ai-parse-utils.ts] finds in the parameters of their tools.
    [workflow-structure-validation.ts] checks a workflow before it is stored.

    A node type describes its parameters by properties.  [node-helpers.ts] decides by
    display rules which of them are shown, fills in or leaves out defaults, in the order
    of the dependencies of the rules, and reports missing and wrong values;
    [type-validation.ts] converts values to the type of a field, and
    [filter-parameter.ts] evaluates the conditions of filters with it.  The editor and its
    worker exchange documents in the format of [crdt/src/protocol.ts].

    ** The files

    - [Prelude]: outcomes ([res]: a value, an exception, or the fuel of the model ran
      out) with their monad and fold rules, the tactics, the hint database [n8n], and
      generic lemmas on lists, sorting and searches.
    - [JsCollections]: the containers of the language with their iteration order
      ([Map], [Set], plain objects, arrays with holes).  [NodeTypes]: the interfaces of
      [workflow/src/interfaces.ts].  [Fixtures], [EngineFixtures]: concrete workflows
      and executions on which hypotheses are shown to be satisfiable.
    - [DirectedGraph]: every operation of [directed-graph.ts] and its representation
      invariant [wf].  [GraphSearch]: its traversals.  [GraphKeys]: connection keys and
      [clone].  [NodeRemoval]: [removeNode] and [filter-disabled-nodes.ts].
      [Components]: the component search and [handle-cycles.ts].  [GraphExport]:
      [toIConnections] and the imports.
    - [RunData]: [get-incoming-data.ts], [clean-run-data.ts], [run-data-utils.ts].
      [StartNodes]: [find-start-nodes.ts].  [Subgraph]: [find-subgraph.ts].
      [SourceGroups]: [get-source-data-groups.ts].  [ExecutionStack]:
      [recreate-node-execution-stack.ts].  [Trigger]:
      [find-trigger-for-partial-execution.ts] and [rewire-graph.ts].
    - [Connections]: [workflow/src/common].  [Workflow], [WorkflowSearch],
      [WorkflowRename]: [workflow.ts].  [GraphUtils]: [workflow/src/graph/graph-utils.ts].
    - [Waiting]: [addNodeToBeExecuted] and the waiting executions.  [Items]: preparation
      and completion of items.  [Requests]: [requests-response.ts] and
      [handleEngineRequest].
    - [EngineState]: the state of an execution, [run-execution-data-factory.ts], [run]
      and [runPartialWorkflow2].  [PartialPlan]: the steps of a partial execution put
      together.  [Lifecycle]: what happens before and after the loop.  [Engine]: the
      loop of [processRunExecutionData], as the function [iteration], the fuelled
      [executionLoop] and the step relation [step].
    - [Termination], [EngineInvariants], [LinearRun], [Ordering], [Failure],
      [EngineBehaviour]: theorems on the loop.
    - [DataProxy]: [workflow-data-proxy.ts].  [PairedItems]: the items that it traces.
      [PairedRun]: this lookup on the data that the loop of the engine records.
    - [Readiness]: the checks before an execution, with the issues of [ParameterIssues].
    - [Concurrency]: [cli/src/concurrency] (the modules [ConcurrencyQueue],
      [ConcurrencyControl] and [ConcurrencyCapacityReservation]), with the step relation
      of a queue and the semaphore it implements.  [ActiveExecutions]:
      [active-executions.ts].  [ExecutionCapacity]: both together, as a transition
      function on the operations of the service.  [WaitTracker]: [wait-tracker.ts] and
      [ExecutionService.stop].
    - [TaskBroker]: [task-broker.service.ts].  [TaskBrokerSafety]: its invariant over every
      sequence of messages and timers.  [TaskMatching]: [settleTasks].  [TaskRunner]:
      [task-runner.ts] and [task-state.ts] of [@n8n/task-runner].  [TaskRunnerSafety]: its
      capacity and the life of its tasks.  [TaskProtocol]: the messages of the broker over
      a run, and a runner that receives them.
    - [LeaderElection], [LegacyElection]: the two strategies [multi-main-setup-v2.ts] and
      [multi-main-setup-legacy.ts] of [cli/src/scaling], over a model of the key in Redis.
    - [WorkflowDiff]: [workflow-diff.ts] and [connections-diff.ts].  [WorkflowHistory]:
      theorems on them.
    - [ScheduledTasks]: [scheduled-task-manager.ts], [active-workflows.ts] and [cron.ts].
    - [Webhooks]: [webhook.service.ts], [webhook-entity.ts], and what [live-webhooks.ts],
      [webhook-helpers.ts] and [active-workflow-manager.ts] do with them.  [WebhookLookup]:
      the cache and the requests.  [TestWebhooks]: [test-webhooks.ts] and
      [test-webhook-registrations.service.ts].  [TestWebhookSafety]: their invariant over every
      sequence of operations.  [TestProduction]: both lookups compared.
    - [ExecutionRecovery]: [execution-recovery.service.ts] and the updates of the database
      that it makes.
    - [AugmentObject]: [workflow/src/augment-object.ts], over a heap of objects and proxies.
      [AugmentIsolation]: programs that use the proxies, and the data behind them.
    - [FromAi]: [workflow/src/from-ai-parse-utils.ts].  [FromAiFilter]: the grammar of the
      expressions that chat tools may use.  [FromAiCalls]: writing and reading of calls.
    - [StructureValidation]: [workflow/src/workflow-structure-validation.ts], composed with the
      import of a graph.
    - [TextCodec], [Protocol]: [crdt/src/protocol.ts] with the encoding of strings as UTF-8.
    - [NodeProperties], [ParameterOrder], [NodeParameters]: properties, display rules, the
      order of parameters and [getNodeParameters] of [node-helpers.ts].
      [NodeParametersSpec]: termination.  [ParameterDefaults]: filling in and leaving out
      defaults.
    - [TypeValidation]: [type-validation.ts].  [FilterParameter]:
      [node-parameters/filter-parameter.ts].  [FilterLaws]: laws of filters.
    - [ParameterIssues]: the checks of [node-helpers.ts].  [IssuesSpec]: what they report.

    ** How code corresponds to definitions

    A definition has the name of the function it models; a part of a long function has
    a name of its own, with a comment that says which part it is.  Pure
    functions are functions; functions that change objects take and return the objects
    they change.  Where the code writes to an object that others share (nodes marked by
    a request, defaults added by the [Workflow] constructor, pinned items), the model
    changes it wherever it occurs: nodes carry the identity of their object
    ([node_ref]).  Exceptions are values of [res]; inside the [try] of the loop they
    are error objects.  Numbers of nodes, runs and inputs are natural numbers,
    positions are IEEE doubles, and accesses out of range give [undefined] or an
    exception as the code does.

    Code that runs concurrently is a state machine.  A call that awaits is cut at its
    [await]s: the part before stores what the rest needs (a ticket, a call of [add], a
    job of [acceptOffer]), and the rest is an operation of its own that may happen at any
    later time.  Promises, timers and cron jobs are numbers with a state.  Theorems
    quantify over all sequences of operations.

    What is outside the modelled code is a parameter: the lookup of node types
    ([INodeTypes]), the outcome of the [n]-th call into a node ([NodeRunner]), the
    clock, the evaluation of expressions, storage of binary data, the rewriting of an
    expression on rename, [encodeURIComponent],
    [localeCompare], [Number], [JSON.parse] and [JSON.stringify], regular expressions that
    are data, the database, the packages [cron], [luxon] and [esprima], the schemas of
    [zod], and [get] and [isEqual] of lodash.  The models of the [Workflow] class and
    of the engine take the parameter defaults, the issues of a node and the lookup of
    paired items as parameters; the code behind them is modelled on its own, and
    [Readiness] and [PairedItems] put it in their place.

    ** The theorems

    - Executions: every iteration ends after a bounded number of calls; the invariant of
      the execution state holds in every state that is reachable from the start of an
      execution; a row of nodes is executed to
      its end, each node once on the data of the one before; nodes at the top left run
      first; a node that keeps failing stops the execution with its last error and can be
      restarted.
    - Scheduling: data for a node is always delivered, entries that wait have a slot per
      input and miss one; requests schedule each tool call with an entry of its own.
    - Items: failed items are separated from successful ones without loss, pairs are
      completed to point to input items.  An item that an expression refers to is found if
      it exists and is unique, and after a row of nodes has run it always is, with the index
      that the numbers of items tell.
    - Starts: an execution with an unknown node type or a missing parameter is refused,
      any other enters the loop (for parameters whose only check is that they have a value).
    - Partial executions: each step returns exactly what its purpose is (frontier of the
      clean part, the ways from trigger to destination, the run data that stays, the
      partition into groups), and the steps compose.
    - Graphs and workflows: the operations keep the representation invariant; the
      traversals terminate on cyclic graphs and return exactly the reachable nodes; the
      component search is sound, though it can miss components; a graph survives export
      and import; renaming moves a node with its connections; the index by destination
      is the exact inverse of the connections.
    - Concurrency: the queue refines a fair counting semaphore; the active executions of
      a kind stay within its limit (plus the removals from the queue) and capacity is
      neither lost nor given twice.  Executions that wait have a timer that resumes them at
      their time, and only one unless an execution is resumed as a parent while it is tracked.
    - Tasks: a request is served by at most one task, of its type; matching leaves no
      offer that fits a pending request; the broker offers a task once and sends its settings
      once.  It answers a requester at most once, unless an event that may answer the task
      again happens while the handler of the first answer waits, and it does not answer a
      task that was deleted.  A runner never promises more than it
      has room for, and with any part of the broker's messages, in any order, it answers
      every task at most once and loses none.
    - Leaders (version 2): checks of a server do not overlap; it leads only after the key was
      granted to it, and grants do not overlap as long as no host clears the key of another
      one; after a check that nothing disturbs the holder of the key leads and no other
      server that checks does.  On such a check the two strategies agree.
    - Versions: the comparisons are exact; a version is dropped only in favour of one with
      which a rule and no skip rule merges it, and nothing that could be merged remains.
    - Schedules: the jobs that run are the registered ones, and a workflow that was removed
      has stopped.
    - Webhooks: the cache does not change what is found, but where one of its changes failed;
      a request is given to the webhook
      whose path it fills in, with the values of its parameters.  Test webhooks of a single
      server always have a timer that removes them, and test requests reach the webhook that they would reach in
      production.
    - Recovery: the runs that were saved stay, every node that was started according to the
      log has run data, as successful or as crashed, and the execution ends as crashed, or as
      failed if it had failed.
    - Augmented data: whatever a program does through the proxies (other than asking for
      property descriptors and defining properties), the data behind them does not change,
      if it holds no regular expressions, and the proxies behave as objects of their own.
    - Calls of $fromAI: the filter for chat tools accepts exactly the language of a grammar, and
      written calls are read back, their defaults as the values that the texts denote.
    - Parameters: [getNodeParameters] ends for every node; the order of parameters respects
      their dependencies; leaving out defaults of simple properties and filling them in again
      gives the same parameters; for properties that are no collections, locators, mappers
      or filters the report of issues names exactly the required parameters that are
      shown and empty.
    - Values and filters: a converted value (but dates and form fields) is accepted as it is;
      opposite conditions give
      opposite answers (the laws of De Morgan), and what a strict filter decides a loose
      one decides in the same way.
    - Worker messages: encoding and decoding are inverse to each other, for well-formed ids of
      less than 65536 bytes.
    - Structure: a workflow that passes the validation is imported as a graph without errors.
    - Theorems about concrete inputs record where the code departs from its purpose or
      its comments (two-digit run indexes, overwritten waiting entries, retries that are
      not counted, shifted inputs, ...).

    ** Fuel

    Recursions that are not structural take fuel; each caller gives an amount that is
    proved enough: one more than the number of nodes for the graph searches, the number
    of tries for the retry loop, one more than the number of waiting entries for their
    release, the depth of the properties for the recursions over them, and for the order
    of parameters what its bound on iterations allows.  The trace of an item takes the
    depth of the call stack, which is a bound of the machine: the theorem on it says how
    deep it gets.  Only [executionLoop] has a free bound, because a workflow can loop
    forever; the theorem on linear workflows says how much is enough for them.

    ** Not modelled

    The code of nodes and their contexts, lifecycle hooks (the calls of the loop are
    recorded in the state, what they do is not), static data, hints, error reports and
    close functions of the engine, logging and telemetry, the inputs of nodes in
    [node-helpers.ts], the execution of code in a task runner, the answers to requests to
    webhooks, and the rest of the server, the
    editor and the database packages of n8n: these are input and output, or code of other
    programs.  Inside the engine promises are sequential: the loop awaits each call, and a
    cancellation takes effect between iterations. *)

From stdpp Require Export base tactics list option strings numbers.
From stdpp Require Export sets pretty relations sorting.
From Stdlib Require Export Ascii.

#[global] Open Scope string_scope.
#[global] Open Scope list_scope.
#[global] Open Scope nat_scope.

(** ** Outcomes

    A JavaScript call either returns, throws, or (for the functions whose
    recursion is not structural) exhausts the fuel of the model.  The theorems
    that claim a result prove that [OutOfFuel] does not occur. *)

(** What an [ExpressionError] tells about its cause *)
Record ExpressionErrorOptions := {
  opt_causeDetailed : option string;
  opt_description : option string;
  opt_descriptionKey : option string;
  opt_functionality : option string;
  opt_messageTemplate : option string;
  opt_nodeCause : option string;
  opt_type : option string;
}.

#[global] Instance ExpressionErrorOptions_eq_dec : EqDecision ExpressionErrorOptions.
Proof. solve_decision. Defined.

Inductive jserror :=
  | AssertionError
  | TypeError
  | RangeError
  | ApplicationError (msg : string)
  | UnexpectedError (msg : string)
  | OperationalError (msg : string)
  | UserError (msg : string)
  | ParseError (msg : string)
  | WorkflowHasIssuesError
  | NodeError (msg : string)
  | PlainError (msg : string)
  | ExpressionError (msg : string) (options : ExpressionErrorOptions).

#[global] Instance jserror_eq_dec : EqDecision jserror.
Proof. solve_decision. Defined.

Inductive res (A : Type) :=
  | Ok (a : A)
  | Throw (e : jserror)
  | OutOfFuel.
Arguments Ok {_} _.
Arguments Throw {_} _.
Arguments OutOfFuel {_}.

#[global] Instance res_ret : MRet res := λ A a, Ok a.
#[global] Instance res_bind : MBind res := λ A B k m,
  match m with
  | Ok a => k a
  | Throw e => Throw e
  | OutOfFuel => OutOfFuel
  end.
#[global] Instance res_fmap : FMap res := λ A B f m,
  match m with
  | Ok a => Ok (f a)
  | Throw e => Throw e
  | OutOfFuel => OutOfFuel
  end.

(** A name in double quotes *)
Definition doubleQuote : string := String (ascii_of_N 34) EmptyString.

Definition quotedName (s : string) : string := doubleQuote +:+ s +:+ doubleQuote.

(** [a.ok(b)] of node's [assert]. *)
Definition assert_ok (b : bool) : res unit :=
  if b then Ok tt else Throw AssertionError.

(** Reading a property of [undefined] (or [null]) is a [TypeError]. *)
Definition deref {A} (o : option A) : res A :=
  match o with Some a => Ok a | None => Throw TypeError end.

(** The loop [for (const x of l) s = f(s, x)] whose body may throw. *)
Fixpoint foldM {S A} (f : S → A → res S) (s : S) (l : list A) : res S :=
  match l with
  | [] => Ok s
  | x :: l => s' ← f s x; foldM f s' l
  end.

(** The state such a loop leaves behind, also when its body throws. *)
Fixpoint foldM_last {S A} (f : S → A → res S) (s : S) (l : list A) : S :=
  match l with
  | [] => s
  | x :: l => match f s x with Ok s' => foldM_last f s' l | _ => s end
  end.

(** A loop that collects one result per element. *)
Fixpoint mapM_res {A B} (f : A → res B) (l : list A) : res (list B) :=
  match l with
  | [] => Ok []
  | x :: l => y ← f x; ys ← mapM_res f l; Ok (y :: ys)
  end.

Definition is_ok {A} (r : res A) : Prop := ∃ a, r = Ok a.

#[global] Instance is_ok_dec {A} (r : res A) : Decision (is_ok r).
Proof.
  refine (match r with Ok a => left _ | _ => right _ end);
    [by exists a|abstract by intros []|abstract by intros []].
Defined.

Lemma deref_Ok {A} (o : option A) a : deref o = Ok a ↔ o = Some a.
Proof. destruct o; simpl; split; congruence. Qed.

(** ** Tactics *)

(** Splits a successful sequence of calls into its steps. *)
Ltac res_simpl :=
  repeat match goal with
  | H : Ok _ = Ok _ |- _ => injection H as H; try subst
  | H : Throw _ = Ok _ |- _ => discriminate H
  | H : OutOfFuel = Ok _ |- _ => discriminate H
  | H : mret _ = Ok _ |- _ => unfold mret, res_ret in H
  | H : (_ ≫= _) = Ok _ |- _ =>
      let E := fresh "E" in
      unfold mbind, res_bind in H;
      match type of H with
      | match ?m with _ => _ end = _ => destruct m eqn:E; [ | discriminate H | discriminate H ]
      end
  | H : assert_ok ?b = Ok _ |- _ =>
      let E := fresh "E" in destruct b eqn:E; [ clear H | discriminate H ]
  end.

(** Case analysis on the booleans that decide propositions. *)
Ltac case_bools :=
  repeat match goal with
  | H : bool_decide _ = true |- _ => apply bool_decide_eq_true in H
  | H : bool_decide _ = false |- _ => apply bool_decide_eq_false in H
  | |- context [bool_decide ?P] =>
      let H := fresh "H" in destruct (bool_decide P) eqn:H
  | H : context [if bool_decide ?P then _ else _] |- _ =>
      let E := fresh "E" in destruct (bool_decide P) eqn:E
  end.

(** ** Loop rules *)

Section foldM.
Context {S A : Type} (f : S → A → res S).

Lemma foldM_app s l k :
  foldM f s (l ++ k) = (s' ← foldM f s l; foldM f s' k).
Proof.
  revert s; induction l as [|x l IH]; intros s; simpl; [done|].
  destruct (f s x); simpl; auto.
Qed.

(** Partial-correctness rule: an invariant indexed by the processed prefix. *)
Lemma foldM_ind (P : list A → S → Prop) s l s' :
  foldM f s l = Ok s' →
  P [] s →
  (∀ pre x t t', P pre t → x ∈ l → f t x = Ok t' → P (pre ++ [x]) t') →
  P l s'.
Proof.
  intros Hf H0 Hstep.
  assert (∀ pre l2 t, foldM f t l2 = Ok s' → (∀ x, x ∈ l2 → x ∈ l) →
    P pre t → P (pre ++ l2) s') as Hgen.
  { intros pre l2; revert pre; induction l2 as [|x l2 IH]; intros pre t Ht Hin HP; simpl in Ht.
    - res_simpl. by rewrite app_nil_r.
    - res_simpl. rewrite cons_middle, app_assoc. eapply IH; [exact Ht|set_solver|].
      eapply Hstep; eauto. apply Hin; left. }
  by apply (Hgen [] l s).
Qed.

(** Total-correctness rule: a loop whose body succeeds under the invariant
    succeeds and establishes the invariant for the whole list. *)
Lemma foldM_total_split (P : list A → S → Prop) s l :
  P [] s →
  (∀ pre x post t, l = pre ++ x :: post → P pre t → ∃ t', f t x = Ok t' ∧ P (pre ++ [x]) t') →
  ∃ s', foldM f s l = Ok s' ∧ P l s'.
Proof.
  intros H0 Hstep.
  assert (∀ pre l2 t, l = pre ++ l2 → P pre t →
    ∃ s', foldM f t l2 = Ok s' ∧ P (pre ++ l2) s') as Hgen.
  { intros pre l2; revert pre; induction l2 as [|x l2 IH]; intros pre t Hl HP; simpl.
    - exists t. by rewrite app_nil_r.
    - destruct (Hstep pre x l2 t Hl HP) as (t' & Hx & HP').
      destruct (IH (pre ++ [x]) t') as (s' & Hs & HP''); [by rewrite <- app_assoc|done|].
      exists s'. rewrite Hx; simpl. split; [done|].
      by rewrite cons_middle, app_assoc. }
  by apply (Hgen [] l s).
Qed.

Lemma foldM_total (P : list A → S → Prop) s l :
  P [] s →
  (∀ pre x t, P pre t → x ∈ l → ∃ t', f t x = Ok t' ∧ P (pre ++ [x]) t') →
  ∃ s', foldM f s l = Ok s' ∧ P l s'.
Proof.
  intros H0 Hstep. apply foldM_total_split; [done|].
  intros pre x post t -> HP. apply Hstep; [done|]. set_solver.
Qed.

Lemma foldM_ext (g : S → A → res S) s l :
  (∀ t x, x ∈ l → f t x = g t x) → foldM f s l = foldM g s l.
Proof.
  revert s; induction l as [|x l IH]; intros s Hfg; simpl; [done|].
  rewrite Hfg by (by left). destruct (g s x); simpl; auto.
  apply IH. intros; apply Hfg; by right.
Qed.
End foldM.

Lemma foldM_pure {S A} (f : S → A → S) s l :
  foldM (λ s x, Ok (f s x)) s l = Ok (foldl f s l).
Proof. revert s; induction l; intros s; simpl; auto. Qed.

Lemma foldl_ext' {S A} (f g : S → A → S) s l :
  (∀ t x, f t x = g t x) → foldl f s l = foldl g s l.
Proof. intros Hfg. revert s; induction l; intros s; simpl; [done|]. rewrite Hfg. auto. Qed.

(** ** Termination

    [returns r]: the fuel of the model was enough; the call returned or threw. *)

Definition returns {A} (r : res A) : Prop := r ≠ OutOfFuel.

Lemma returns_Ok {A} (a : A) : returns (Ok a).
Proof. done. Qed.

Lemma returns_Throw {A} e : returns (@Throw A e).
Proof. done. Qed.

Lemma returns_deref {A} (o : option A) : returns (deref o).
Proof. by destruct o. Qed.

Lemma returns_is_ok {A} (r : res A) : is_ok r → returns r.
Proof. by intros [a ->]. Qed.

Lemma returns_bind {A B} (m : res A) (k : A → res B) :
  returns m → (∀ a, m = Ok a → returns (k a)) → returns (m ≫= k).
Proof. destruct m; intros Hm Hk; [by apply Hk|done|by destruct Hm]. Qed.

Lemma returns_fmap {A B} (f : A → B) (m : res A) : returns m → returns (f <$> m).
Proof. by destruct m. Qed.

Lemma returns_foldM {S A} (f : S → A → res S) s l :
  (∀ s x, returns (f s x)) → returns (foldM f s l).
Proof. intros Hf. revert s. induction l as [|x l IH]; intros s; simpl; [done|]. by apply returns_bind. Qed.

Lemma returns_mapM_res {A B} (f : A → res B) l : (∀ x, returns (f x)) → returns (mapM_res f l).
Proof. intros Hf. induction l as [|x l IH]; simpl; [done|]. by repeat (apply returns_bind; intros). Qed.

(** ** Lists *)

Section lists.
Context {A : Type}.
Implicit Types l k : list A.

(** A duplicate-free list included in another one is not longer. *)
Lemma NoDup_incl_length l k : NoDup l → l ⊆ k → length l ≤ length k.
Proof. intros ? Hsub. apply submseteq_length, NoDup_submseteq; auto. Qed.

Lemma NoDup_snoc l x : NoDup l → x ∉ l → NoDup (l ++ [x]).
Proof.
  intros. apply NoDup_app; split; [done|]. split; [set_solver|].
  apply NoDup_singleton.
Qed.

Lemma elem_of_snoc l x y : y ∈ l ++ [x] ↔ y ∈ l ∨ y = x.
Proof. set_solver. Qed.

Lemma existsb_elem_of (p : A → bool) l :
  existsb p l = true ↔ ∃ x, x ∈ l ∧ p x = true.
Proof.
  rewrite existsb_exists. setoid_rewrite list_elem_of_In. done.
Qed.
End lists.

Lemma filter_all {A} (P : A → Prop) `{∀ x, Decision (P x)} (l : list A) :
  (∀ x, x ∈ l → P x) → filter P l = l.
Proof.
  induction l as [|x l IH]; intros Hl; [done|].
  rewrite filter_cons_True by (apply Hl; left). rewrite IH; [done|]. intros y ?. apply Hl. by right.
Qed.

(** Predicates that agree on the elements select the same ones. *)
Lemma filter_agree {A} (P Q : A → Prop) `{∀ x, Decision (P x), ∀ x, Decision (Q x)} (l : list A) :
  (∀ x, x ∈ l → P x ↔ Q x) → filter P l = filter Q l.
Proof.
  induction l as [|x l IH]; intros Hl; [done|]. rewrite !filter_cons, IH by (intros y ?; apply Hl; by right).
  specialize (Hl x ltac:(by left)). do 2 case_decide; tauto.
Qed.

(** ** Paths *)

Section paths.
Context {A : Type} (R : relation A).

Lemma nsteps_first k a x : nsteps R (S k) a x → ∃ y, R a y ∧ nsteps R k y x.
Proof. inversion 1; eauto. Qed.

Lemma tc_nsteps a b : tc R a b ↔ ∃ k, nsteps R (S k) a b.
Proof.
  split.
  - induction 1 as [a b H|a c b H _ (k & IH)]; [exists 0; by apply nsteps_once|].
    exists (S k). by eapply nsteps_l.
  - intros (k & Hk). revert a Hk. induction k as [|k IH]; intros a Hk.
    + apply nsteps_once_inv in Hk. by apply tc_once.
    + apply nsteps_first in Hk as (y & ? & ?). eapply tc_l; eauto.
Qed.

Lemma tc_last a b : tc R a b → ∃ m, rtc R a m ∧ R m b.
Proof.
  induction 1 as [a b H|a m b H _ (m' & Ha & Hab)]; [by exists a|].
  exists m'. split; [by eapply rtc_l|done].
Qed.
End paths.

(** ** [Array.prototype.sort]

    An insertion sort that, like the sort of V8, only asks whether a later
    element comes before an earlier one ([compareFn(later, earlier) < 0]); it is
    stable. *)

Section array_sort.
Context {A : Type} (compareFn : A → A → Z).

Fixpoint sort_place (x : A) (l : list A) : list A :=
  match l with
  | [] => [x]
  | y :: l' => if bool_decide (compareFn x y < 0)%Z then x :: l else y :: sort_place x l'
  end.

Definition array_sort (l : list A) : list A := foldl (λ sorted x, sort_place x sorted) [] l.

(** The order of [Array.prototype.sort] without a comparison function *)
Definition compareStrings (a b : string) : Z :=
  match String.compare a b with Lt => -1 | Eq => 0 | Gt => 1 end.

Lemma sort_place_perm x l : sort_place x l ≡ₚ x :: l.
Proof.
  induction l as [|y l IH]; simpl; [done|]. case_bools; [done|].
  rewrite IH. apply Permutation_swap.
Qed.

Lemma array_sort_perm l : array_sort l ≡ₚ l.
Proof.
  unfold array_sort.
  assert (∀ s, foldl (λ sorted x, sort_place x sorted) s l ≡ₚ s ++ l) as Hgen; [|apply Hgen].
  induction l as [|x l IH]; intros s; simpl; [by rewrite app_nil_r|].
  rewrite IH, sort_place_perm. simpl. apply Permutation_middle.
Qed.
End array_sort.

Create HintDb n8n.
#[export] Hint Resolve NoDup_snoc NoDup_nil_2 : n8n.
#[export] Hint Resolve returns_Ok returns_Throw returns_deref returns_bind returns_fmap
  returns_foldM returns_mapM_res : n8n.

(** Shows that a sequence of calls that return returns. *)
Ltac solve_returns :=
  repeat first
    [ progress intros
    | apply returns_Ok | apply returns_Throw | apply returns_deref
    | assumption
    | solve [eauto with n8n nocore]
    | apply returns_bind | apply returns_fmap | apply returns_foldM | apply returns_mapM_res
    | case_match ].
