(* ===== verification/JsCollections.v ===== *)
(** * JavaScript collections

    The three containers the sources use, with their iteration order, which the
    algorithms of the execution engine depend on:

    - [jsmap]: a [Map], iterated in insertion order, re-setting a key keeps its
      place;
    - [jsset]: a [Set], iterated in insertion order;
    - [jsobj]: a plain object used as a dictionary; its own keys are enumerated
      with the array-index keys first, in ascending numeric order, then the
      other keys in insertion order;
    - [slot] arrays: arrays with [null] entries and holes.

    Objects are dictionaries of their own properties: names inherited from
    [Object.prototype] (such as [constructor]) are outside the model. *)

From S2P Require Import Prelude.

(** ** [Map] *)

Abbreviation jsmap K V := (list (K * V)) (only parsing).

Section jsmap.
Context {K V : Type} `{!EqDecision K}.
Implicit Types m : jsmap K V.

(** [m.get(k)] *)
Fixpoint map_get (k : K) m : option V :=
  match m with
  | [] => None
  | (k', v) :: m => if bool_decide (k' = k) then Some v else map_get k m
  end.

(** [m.has(k)] *)
Definition map_has (k : K) m : bool := bool_decide (k ∈ m.*1).

(** In-place update of an existing entry. *)
Fixpoint map_replace (k : K) (v : V) m : jsmap K V :=
  match m with
  | [] => []
  | (k', v') :: m => if bool_decide (k' = k) then (k', v) :: m else (k', v') :: map_replace k v m
  end.

(** [m.set(k, v)] *)
Definition map_set (k : K) (v : V) m : jsmap K V :=
  if map_has k m then map_replace k v m else m ++ [(k, v)].

(** [m.delete(k)] *)
Definition map_delete (k : K) m : jsmap K V :=
  filter (λ kv, kv.1 ≠ k) m.

Lemma map_has_get k m : map_has k m = true ↔ is_Some (map_get k m).
Proof.
  unfold map_has. rewrite bool_decide_eq_true.
  induction m as [|[k' v'] m IH]; simpl.
  - split; [set_solver|by intros []].
  - rewrite elem_of_cons, IH. case_bools; subst; naive_solver.
Qed.

Lemma map_get_None k m : map_get k m = None ↔ k ∉ m.*1.
Proof.
  induction m as [|[k' v'] m IH]; simpl; [set_solver|].
  rewrite not_elem_of_cons. case_bools; naive_solver.
Qed.

Lemma map_get_elem_of k v m : map_get k m = Some v → (k, v) ∈ m.
Proof.
  induction m as [|[k' v'] m IH]; simpl; [done|].
  case_bools; intros; simplify_eq; [by left|right; auto].
Qed.

Lemma map_get_unique k v m : NoDup m.*1 → (k, v) ∈ m → map_get k m = Some v.
Proof.
  induction m as [|[k' v'] m IH]; simpl; [set_solver|].
  rewrite NoDup_cons, elem_of_cons. intros [Hk' Hnd] [?|Hin]; simplify_eq.
  - by rewrite bool_decide_true.
  - rewrite bool_decide_false; [by auto|]. intros ->. apply Hk'.
    apply list_elem_of_fmap. by exists (k, v).
Qed.

Lemma map_replace_keys k v m : (map_replace k v m).*1 = m.*1.
Proof. induction m as [|[k' v'] m IH]; simpl; case_bools; simpl; by f_equal. Qed.

Lemma map_get_replace k v m k' :
  map_get k' (map_replace k v m) =
  if bool_decide (k' = k ∧ k ∈ m.*1) then Some v else map_get k' m.
Proof.
  induction m as [|[k1 v1] m IH]; simpl.
  - rewrite bool_decide_false; [done|set_solver].
  - destruct (bool_decide_reflect (k1 = k)) as [->|Hk1]; simpl.
    + case_bools; set_solver.
    + rewrite IH. case_bools; set_solver.
Qed.

Lemma map_get_app k m1 m2 :
  map_get k (m1 ++ m2) = match map_get k m1 with Some v => Some v | None => map_get k m2 end.
Proof. induction m1 as [|[k' v'] m1 IH]; simpl; [done|]. by case_bools. Qed.

Lemma map_get_set k v m k' :
  map_get k' (map_set k v m) = if bool_decide (k' = k) then Some v else map_get k' m.
Proof.
  unfold map_set. destruct (map_has k m) eqn:Hh; unfold map_has in Hh.
  - apply bool_decide_eq_true in Hh. rewrite map_get_replace. case_bools; naive_solver.
  - apply bool_decide_eq_false in Hh. rewrite map_get_app. simpl.
    destruct (bool_decide_reflect (k' = k)) as [->|].
    + rewrite (proj2 (map_get_None k m)) by done. by rewrite bool_decide_true.
    + rewrite bool_decide_false by congruence. by destruct (map_get k' m).
Qed.

Lemma map_get_set_eq k v m : map_get k (map_set k v m) = Some v.
Proof. by rewrite map_get_set, bool_decide_true. Qed.

Lemma map_get_set_ne k k' v m : k' ≠ k → map_get k' (map_set k v m) = map_get k' m.
Proof. intros. by rewrite map_get_set, bool_decide_false. Qed.

Lemma map_set_keys k v m :
  (map_set k v m).*1 = if map_has k m then m.*1 else m.*1 ++ [k].
Proof.
  unfold map_set. destruct (map_has k m); [apply map_replace_keys|].
  by rewrite fmap_app.
Qed.

Lemma elem_of_map_set_keys k v m k' : k' ∈ (map_set k v m).*1 ↔ k' = k ∨ k' ∈ m.*1.
Proof.
  rewrite map_set_keys. unfold map_has. case_bools; set_solver.
Qed.

Lemma map_set_NoDup k v m : NoDup m.*1 → NoDup (map_set k v m).*1.
Proof.
  rewrite map_set_keys. unfold map_has. case_bools; [done|].
  intros. by apply NoDup_snoc.
Qed.

Lemma map_set_fresh k v m : k ∉ m.*1 → map_set k v m = m ++ [(k, v)].
Proof. intros. unfold map_set, map_has. by rewrite bool_decide_false. Qed.

Lemma elem_of_map_set k v m kv :
  NoDup m.*1 → kv ∈ map_set k v m ↔ kv = (k, v) ∨ (kv ∈ m ∧ kv.1 ≠ k).
Proof.
  intros Hnd. destruct kv as [k' v'].
  assert (NoDup (map_set k v m).*1) as Hnd' by by apply map_set_NoDup.
  split.
  - intros Hin. apply map_get_unique in Hin; [|done].
    rewrite map_get_set in Hin. case_bools; simplify_eq; [by left|].
    right. split; [by apply map_get_elem_of|done].
  - intros [?|[Hin Hne]]; simplify_eq/=; apply map_get_elem_of; rewrite map_get_set.
    + by rewrite bool_decide_true.
    + rewrite bool_decide_false by done. by apply map_get_unique.
Qed.

Lemma elem_of_map_delete k m kv : kv ∈ map_delete k m ↔ kv ∈ m ∧ kv.1 ≠ k.
Proof. unfold map_delete. rewrite list_elem_of_filter. tauto. Qed.

Lemma map_filter_NoDup (P : K * V → Prop) `{∀ kv, Decision (P kv)} m :
  NoDup m.*1 → NoDup (filter P m).*1.
Proof.
  induction m as [|kv m IH]; simpl; [done|].
  rewrite NoDup_cons. intros [Hk Hnd]. rewrite filter_cons. case_decide; [|auto].
  simpl. apply NoDup_cons. split; [|auto].
  rewrite list_elem_of_fmap. intros (kv' & Heq & Hin). apply Hk.
  rewrite Heq. apply list_elem_of_fmap. exists kv'. split; [done|].
  by apply list_elem_of_filter in Hin as [_ ?].
Qed.

Lemma map_delete_NoDup k m : NoDup m.*1 → NoDup (map_delete k m).*1.
Proof. apply map_filter_NoDup. Qed.

Lemma map_get_filter (P : K * V → Prop) `{∀ kv, Decision (P kv)} k m :
  NoDup m.*1 →
  map_get k (filter P m) =
  match map_get k m with Some v => if bool_decide (P (k, v)) then Some v else None | None => None end.
Proof.
  intros Hnd. destruct (map_get k m) as [v|] eqn:Hg.
  - case_bools.
    + apply map_get_unique; [by apply map_filter_NoDup|].
      apply list_elem_of_filter. split; [done|]. by apply map_get_elem_of.
    + apply map_get_None. rewrite list_elem_of_fmap. intros ([k' v'] & -> & Hin).
      apply list_elem_of_filter in Hin as [HP Hin]. simpl in *.
      apply map_get_unique in Hin; [|done]. naive_solver.
  - apply map_get_None in Hg. apply map_get_None. intros Hin. apply Hg.
    apply list_elem_of_fmap in Hin as (kv & -> & Hin).
    apply list_elem_of_filter in Hin as [_ Hin]. apply list_elem_of_fmap. eauto.
Qed.

Lemma map_get_delete k k' m :
  map_get k' (map_delete k m) = if bool_decide (k' = k) then None else map_get k' m.
Proof.
  unfold map_delete. induction m as [|[k1 v1] m IH]; [by simpl; case_bools|].
  rewrite filter_cons. simpl.
  destruct (decide (k1 ≠ k)); simpl; rewrite IH; case_bools; naive_solver.
Qed.

(** The number of values that satisfy [f] *)
Definition map_count (f : V → bool) m : nat := length (filter (λ kv, f kv.2 = true) m).

Definition count_at (f : V → bool) (o : option V) : nat :=
  match o with Some v => if f v then 1 else 0 | None => 0 end.

Lemma map_count_cons f kv m : map_count f (kv :: m) = count_at f (Some kv.2) + map_count f m.
Proof. unfold map_count. rewrite filter_cons. simpl. by destruct (f kv.2). Qed.

Lemma map_count_app f m1 m2 : map_count f (m1 ++ m2) = map_count f m1 + map_count f m2.
Proof. unfold map_count. by rewrite filter_app, length_app. Qed.

Lemma map_count_replace f k v m :
  k ∈ m.*1 → map_count f (map_replace k v m) + count_at f (map_get k m) = map_count f m + count_at f (Some v).
Proof.
  induction m as [|[k' v'] m IH]; [set_solver|]. simpl. case_bools; rewrite !map_count_cons; simpl.
  - lia.
  - rewrite elem_of_cons. intros [?|Hin]; [congruence|]. specialize (IH Hin). simpl in IH. lia.
Qed.

Lemma map_count_set f k v m :
  map_count f (map_set k v m) + count_at f (map_get k m) = map_count f m + count_at f (Some v).
Proof.
  unfold map_set, map_has. case_bools; [by apply map_count_replace|].
  rewrite (proj2 (map_get_None k m)), map_count_app, map_count_cons by done. simpl.
  unfold map_count at 2. simpl. lia.
Qed.

Lemma map_count_delete f k m :
  NoDup m.*1 → map_count f (map_delete k m) + count_at f (map_get k m) = map_count f m.
Proof.
  unfold map_delete. induction m as [|[k' v'] m IH]; [done|]. rewrite fmap_cons, NoDup_cons.
  intros [Hk Hnd]. specialize (IH Hnd). rewrite filter_cons. simpl.
  destruct (decide (k' = k)) as [->|Hne].
  - rewrite decide_False, bool_decide_true by tauto. rewrite map_count_cons. simpl in *.
    rewrite (proj2 (map_get_None k m)) in IH by done. simpl in IH. lia.
  - rewrite decide_True, bool_decide_false, !map_count_cons by done. simpl. lia.
Qed.
End jsmap.

#[export] Hint Resolve map_set_NoDup map_delete_NoDup : n8n.

(** ** [Set] *)

Abbreviation jsset A := (list A) (only parsing).

Section jsset.
Context {A : Type} `{!EqDecision A}.
Implicit Types s : jsset A.

(** [s.has(x)], also [Array.prototype.includes] *)
Definition set_has (x : A) s : bool := bool_decide (x ∈ s).

(** [s.add(x)] *)
Definition set_add (x : A) s : jsset A := if set_has x s then s else s ++ [x].

(** [s.delete(x)] *)
Definition set_delete (x : A) s : jsset A := filter (λ y, y ≠ x) s.

(** [new Set(l)] *)
Definition set_of_list (l : list A) : jsset A := foldl (λ s x, set_add x s) [] l.

Lemma elem_of_set_add x y s : y ∈ set_add x s ↔ y = x ∨ y ∈ s.
Proof. unfold set_add, set_has. case_bools; set_solver. Qed.

Lemma set_add_NoDup x s : NoDup s → NoDup (set_add x s).
Proof. intros. unfold set_add, set_has. case_bools; auto with n8n. Qed.

Lemma elem_of_set_delete x y s : y ∈ set_delete x s ↔ y ∈ s ∧ y ≠ x.
Proof. unfold set_delete. rewrite list_elem_of_filter. tauto. Qed.

Lemma set_delete_NoDup x s : NoDup s → NoDup (set_delete x s).
Proof. apply NoDup_filter. Qed.

Lemma foldl_set_add_elem_of l s x :
  x ∈ foldl (λ s x, set_add x s) s l ↔ x ∈ s ∨ x ∈ l.
Proof.
  revert s; induction l as [|y l IH]; intros s; simpl; [set_solver|].
  rewrite IH, elem_of_set_add. set_solver.
Qed.

Lemma foldl_set_add_NoDup l s : NoDup s → NoDup (foldl (λ s x, set_add x s) s l).
Proof. revert s; induction l; intros; simpl; auto using set_add_NoDup. Qed.

Lemma elem_of_set_of_list l x : x ∈ set_of_list l ↔ x ∈ l.
Proof. unfold set_of_list. rewrite foldl_set_add_elem_of. set_solver. Qed.

Lemma set_of_list_NoDup l : NoDup (set_of_list l).
Proof. apply foldl_set_add_NoDup, NoDup_nil_2. Qed.

Lemma set_of_list_id l : NoDup l → set_of_list l = l.
Proof.
  unfold set_of_list. induction l as [|x l IH] using rev_ind; [done|].
  rewrite foldl_snoc. intros (Hl & Hx & _)%NoDup_app. rewrite IH by done.
  unfold set_add, set_has. rewrite bool_decide_false; [done|]. intros Hin. apply (Hx x Hin). set_solver.
Qed.
End jsset.

#[export] Hint Resolve set_add_NoDup set_delete_NoDup set_of_list_NoDup : n8n.

(** ** Work left in a worklist loop

    The total weight of the entries whose key is not in [seen]: the bound on what
    a search that expands every key once can still push. *)

Section budget.
Context {V : Type} (weight : V → nat).
Implicit Types m : jsmap string V.

Definition budget m (seen : jsset string) : nat :=
  sum_list ((λ kv, if bool_decide (kv.1 ∈ seen) then 0 else weight kv.2) <$> m).

Lemma budget_mono m seen seen' : (∀ x, x ∈ seen → x ∈ seen') → budget m seen' ≤ budget m seen.
Proof.
  intros Hsub. unfold budget. induction m as [|kv l IH]; csimpl; [lia|].
  case_bools; try lia; naive_solver.
Qed.

Lemma budget_step m n seen seen' :
  (∀ x, x ∈ seen → x ∈ seen') → n ∈ seen' → n ∉ seen →
  from_option weight 0 (map_get n m) + budget m seen' ≤ budget m seen.
Proof.
  intros Hsub Hn' Hn. induction m as [|[k v] l IH]; csimpl; [done|].
  destruct (bool_decide_reflect (k = n)) as [->|Hne]; csimpl.
  - unfold budget. csimpl. rewrite (bool_decide_true (n ∈ seen')), (bool_decide_false (n ∈ seen)) by done.
    pose proof (budget_mono l seen seen' Hsub) as Hmono. unfold budget in Hmono. lia.
  - unfold budget in *. csimpl. case_bools; try lia; naive_solver.
Qed.

Lemma budget_total m : budget m [] = sum_list (weight ∘ snd <$> m).
Proof. reflexivity. Qed.
End budget.

(** ** Plain objects as dictionaries *)

Definition digit_of_ascii (c : Ascii.ascii) : option N :=
  let n := Ascii.N_of_ascii c in
  if bool_decide (48 ≤ n ∧ n ≤ 57)%N then Some (n - 48)%N else None.

Fixpoint parse_digits (acc : N) (s : string) : option N :=
  match s with
  | EmptyString => Some acc
  | String c s => d ← digit_of_ascii c; parse_digits (acc * 10 + d)%N s
  end.

(** The array index a property name denotes, if it is the canonical decimal
    form of a number below 2^32 - 1. *)
Definition key_index (s : string) : option N :=
  match s with
  | EmptyString => None
  | String "0"%char EmptyString => Some 0%N
  | String "0"%char _ => None
  | _ => n ← parse_digits 0%N s; if bool_decide (n < 4294967295)%N then Some n else None
  end.

Abbreviation jsobj V := (list (string * V)) (only parsing).

Section jsobj.
Context {V : Type}.
Implicit Types o : jsobj V.

(** A new array-index key goes before the larger indices and before every
    other key. *)
Fixpoint obj_insert_index (i : N) (k : string) (v : V) o : jsobj V :=
  match o with
  | [] => [(k, v)]
  | (k', v') :: o' =>
      match key_index k' with
      | Some j => if bool_decide (j < i)%N then (k', v') :: obj_insert_index i k v o'
                  else (k, v) :: o
      | None => (k, v) :: o
      end
  end.

Definition obj_insert (k : string) (v : V) o : jsobj V :=
  match key_index k with
  | Some i => obj_insert_index i k v o
  | None => o ++ [(k, v)]
  end.

(** [o[k]] for an own property *)
Definition obj_get (k : string) o : option V := map_get k o.

(** [Object.hasOwn(o, k)] *)
Definition obj_has (k : string) o : bool := map_has k o.

(** [o[k] = v] *)
Definition obj_set (k : string) (v : V) o : jsobj V :=
  if map_has k o then map_replace k v o else obj_insert k v o.

(** [delete o[k]] *)
Definition obj_delete (k : string) o : jsobj V := map_delete k o.

Lemma obj_insert_perm k v o : obj_insert k v o ≡ₚ (k, v) :: o.
Proof.
  unfold obj_insert. destruct (key_index k) as [i|].
  - induction o as [|[k' v'] o IH]; simpl; [done|].
    destruct (key_index k') as [j|]; [|done]. case_bools; [|done].
    rewrite IH. apply Permutation_swap.
  - by rewrite Permutation_app_comm.
Qed.

Lemma obj_get_set k v o k' :
  obj_get k' (obj_set k v o) = if bool_decide (k' = k) then Some v else obj_get k' o.
Proof.
  unfold obj_get, obj_set. destruct (map_has k o) eqn:Hh; unfold map_has in Hh.
  - apply bool_decide_eq_true in Hh. rewrite map_get_replace. case_bools; naive_solver.
  - apply bool_decide_eq_false in Hh. apply map_get_None in Hh.
    unfold obj_insert. destruct (key_index k) as [i|].
    + induction o as [|[k1 v1] o IH]; simpl in *; [case_bools; naive_solver|].
      destruct (key_index k1) as [j|]; [|simpl; case_bools; naive_solver].
      destruct (bool_decide (j < i)%N); simpl; case_bools; naive_solver.
    + rewrite map_get_app; simpl. case_bools; subst; rewrite ?Hh; try done.
      by destruct (map_get k' o).
Qed.

Lemma obj_get_set_eq k v o : obj_get k (obj_set k v o) = Some v.
Proof. by rewrite obj_get_set, bool_decide_true. Qed.

Lemma obj_get_set_ne k k' v o : k' ≠ k → obj_get k' (obj_set k v o) = obj_get k' o.
Proof. intros. by rewrite obj_get_set, bool_decide_false. Qed.

Lemma map_replace_twice {V'} (k : string) (v v' : V') (o : jsobj V') :
  map_replace k v' (map_replace k v o) = map_replace k v' o.
Proof.
  induction o as [|[k1 v1] o IH]; simpl; [done|].
  destruct (bool_decide (k1 = k)) eqn:E; simpl; rewrite E; [done|by rewrite IH].
Qed.

Lemma map_replace_insert k v v' o : k ∉ o.*1 → map_replace k v' (obj_insert k v o) = obj_insert k v' o.
Proof.
  unfold obj_insert. destruct (key_index k) as [i|].
  - induction o as [|[k1 v1] o IH]; simpl; intros Hk; [by rewrite bool_decide_true|].
    rewrite not_elem_of_cons in Hk. destruct Hk as [Hne Hk].
    destruct (key_index k1) as [j|]; [destruct (bool_decide (j < i)%N)|]; simpl;
      rewrite ?(bool_decide_true (k = k)), ?(bool_decide_false (k1 = k)) by done; [|done..]. by rewrite IH.
  - induction o as [|[k1 v1] o IH]; simpl; intros Hk; [by rewrite bool_decide_true|].
    rewrite not_elem_of_cons in Hk. destruct Hk as [Hne Hk]. rewrite bool_decide_false by done. by rewrite IH.
Qed.

(** The last assignment counts. *)
Lemma obj_set_set k v v' o : obj_set k v' (obj_set k v o) = obj_set k v' o.
Proof.
  assert (map_has k (obj_set k v o) = true) as Hh.
  { apply map_has_get. exists v. apply obj_get_set_eq. }
  unfold obj_set at 1. rewrite Hh. unfold obj_set. destruct (map_has k o) eqn:E; [apply map_replace_twice|].
  apply map_replace_insert. unfold map_has in E. by apply bool_decide_eq_false in E.
Qed.

Lemma elem_of_obj_set_keys k v o k' : k' ∈ (obj_set k v o).*1 ↔ k' = k ∨ k' ∈ o.*1.
Proof.
  unfold obj_set, map_has. case_bools.
  - rewrite map_replace_keys. set_solver.
  - rewrite obj_insert_perm. set_solver.
Qed.

Lemma obj_set_NoDup k v o : NoDup o.*1 → NoDup (obj_set k v o).*1.
Proof.
  intros Hnd. unfold obj_set, map_has. case_bools; [by rewrite map_replace_keys|].
  rewrite obj_insert_perm. simpl. by apply NoDup_cons.
Qed.

Lemma obj_get_delete k k' o :
  obj_get k' (obj_delete k o) = if bool_decide (k' = k) then None else obj_get k' o.
Proof. apply map_get_delete. Qed.
End jsobj.

#[export] Hint Resolve obj_set_NoDup : n8n.

(** ** Arrays with [null] entries and holes *)

Inductive slot (A : Type) := Undefined | Null | Val (a : A).
Arguments Undefined {_}.
Arguments Null {_}.
Arguments Val {_} _.

#[global] Instance slot_eq_dec `{EqDecision A} : EqDecision (slot A).
Proof. solve_decision. Defined.

Section arrays.
Context {A : Type}.
Implicit Types a : list (slot A).

(** [a[i]] *)
Definition arr_get (i : nat) a : slot A := default Undefined (a !! i).

(** [a[i] = x], which extends a short array with holes *)
Definition arr_set (i : nat) (x : slot A) a : list (slot A) :=
  if bool_decide (i < length a) then <[i := x]> a
  else a ++ replicate (i - length a) Undefined ++ [x].

Lemma arr_get_set i x a j :
  arr_get j (arr_set i x a) = if bool_decide (j = i) then x else arr_get j a.
Proof.
  unfold arr_get, arr_set. destruct (bool_decide_reflect (i < length a)) as [Hi|Hi].
  - rewrite list_lookup_insert. case_bools; repeat case_decide; naive_solver lia.
  - case_bools; subst.
    + rewrite lookup_app_r by lia. rewrite lookup_app_r; rewrite length_replicate; [|lia].
      by rewrite Nat.sub_diag.
    + destruct (decide (j < length a)).
      { by rewrite lookup_app_l. }
      rewrite (lookup_ge_None_2 a j) by lia. rewrite lookup_app_r by lia.
      destruct (decide (j < i)).
      { rewrite lookup_app_l by (rewrite length_replicate; lia).
        by rewrite lookup_replicate_2 by lia. }
      rewrite lookup_app_r; rewrite length_replicate; [|lia].
      rewrite lookup_ge_None_2; [done|]. simpl. lia.
Qed.

Lemma length_arr_set i x a : length (arr_set i x a) = max (length a) (S i).
Proof.
  unfold arr_set. case_bools.
  - rewrite length_insert. lia.
  - rewrite !length_app, length_replicate. simpl. lia.
Qed.
End arrays.

(** ** Objects keyed by numbers

    Such an object is enumerated in ascending key order. *)

Abbreviation idxobj V := (list (nat * V)) (only parsing).

Section idxobj.
Context {V : Type}.
Implicit Types o : idxobj V.

Fixpoint idx_set (i : nat) (v : V) o : idxobj V :=
  match o with
  | [] => [(i, v)]
  | (j, w) :: o' =>
      if bool_decide (j < i) then (j, w) :: idx_set i v o'
      else if bool_decide (j = i) then (i, v) :: o'
      else (i, v) :: o
  end.

Lemma idx_get_set i v o j :
  map_get j (idx_set i v o) = if bool_decide (j = i) then Some v else map_get j o.
Proof.
  induction o as [|[k w] o IH]; simpl; [case_bools; naive_solver|].
  destruct (bool_decide_reflect (k < i)); simpl.
  { rewrite IH. case_bools; try done; lia. }
  destruct (bool_decide_reflect (k = i)) as [->|]; simpl; case_bools; naive_solver.
Qed.

(** The keys are listed in ascending order. *)
Definition idx_sorted o : Prop := StronglySorted lt o.*1.

Lemma elem_of_idx_set_keys i v o j : j ∈ (idx_set i v o).*1 → j = i ∨ j ∈ o.*1.
Proof.
  induction o as [|[k w] o IH]; simpl; [set_solver|]. case_bools; simpl; set_solver.
Qed.

Lemma idx_set_sorted i v o : idx_sorted o → idx_sorted (idx_set i v o).
Proof.
  unfold idx_sorted. induction o as [|[k w] o IH]; simpl; intros Hs; [repeat constructor|].
  apply StronglySorted_inv in Hs as [Hs Hlt]. pose proof Hlt as Hlt'. rewrite Forall_forall in Hlt'.
  case_bools; simpl.
  - constructor; [auto|]. apply Forall_forall. intros j [->|?]%elem_of_idx_set_keys; [done|auto].
  - subst. by constructor.
  - constructor; [by constructor|]. constructor; [lia|]. apply Forall_forall. intros j Hj.
    apply Hlt' in Hj. lia.
Qed.

Lemma idx_delete_sorted i o : idx_sorted o → idx_sorted (map_delete i o).
Proof.
  unfold idx_sorted, map_delete. induction o as [|[k w] o IH]; simpl; intros Hs; [done|].
  apply StronglySorted_inv in Hs as [Hs Hlt]. rewrite filter_cons. case_decide; [|auto]. simpl.
  constructor; [auto|]. rewrite Forall_forall in *. intros j (kv & -> & Hkv)%list_elem_of_fmap.
  apply list_elem_of_filter in Hkv as [_ ?]. apply Hlt. by apply list_elem_of_fmap_2.
Qed.
End idxobj.
