(* ===== verification/NodeTypes.v ===== *)
(** * The data model

    The interfaces of [packages/workflow/src/interfaces.ts] that the execution
    core reads and writes.  Optional properties are [option]s, string-keyed
    dictionaries are [jsobj]s, arrays that may hold [null] or holes are lists of
    [slot]s.

    JavaScript compares nodes with [===], by reference.  [INode] carries the
    identity of the object in [node_ref]; in a snapshot of the heap equal
    references denote equal records, so reference equality of two nodes is
    equality of the records, and two objects with the same contents are
    different nodes. *)

From Stdlib Require Export SpecFloat.
From S2P Require Import Prelude JsCollections.

(** ** JSON values; a number is an IEEE double. *)

#[global] Instance spec_float_eq_dec : EqDecision spec_float.
Proof. solve_decision. Defined.

Inductive json :=
  | JNull
  | JBool (b : bool)
  | JNum (x : spec_float)
  | JStr (s : string)
  | JArr (l : list json)
  | JObj (o : list (string * json)).

#[global] Instance json_eq_dec : EqDecision json.
Proof.
  refine (fix go (x y : json) : Decision (x = y) :=
    let _ : EqDecision json := @go in
    match x, y with
    | JNull, JNull => left eq_refl
    | JBool a, JBool b => cast_if (decide (a = b))
    | JNum a, JNum b => cast_if (decide (a = b))
    | JStr a, JStr b => cast_if (decide (a = b))
    | JArr a, JArr b => cast_if (decide (a = b))
    | JObj a, JObj b => cast_if (decide (a = b))
    | _, _ => right _
    end); congruence.
Defined.

(** Induction over a value, with the hypothesis for its items and properties *)
Lemma json_induction (P : json → Prop) :
  P JNull → (∀ b, P (JBool b)) → (∀ x, P (JNum x)) → (∀ s, P (JStr s)) →
  (∀ l, (∀ v, v ∈ l → P v) → P (JArr l)) →
  (∀ o, (∀ k v, (k, v) ∈ o → P v) → P (JObj o)) → ∀ v, P v.
Proof.
  intros Hnull Hbool Hnum Hstr Harr Hobj.
  refine (fix go (v : json) : P v :=
    match v with
    | JNull => Hnull | JBool b => Hbool b | JNum x => Hnum x | JStr s => Hstr s
    | JArr l => Harr l (proj1 (Forall_forall P l) ((fix items (l : list json) : Forall P l :=
        match l with [] => Forall_nil_2 P | v :: l => Forall_cons_2 P v l (go v) (items l) end) l))
    | JObj o => Hobj o (λ k v, proj1 (Forall_forall (λ kv, P kv.2) o)
        ((fix entries (o : list (string * json)) : Forall (λ kv, P kv.2) o :=
           match o with
           | [] => Forall_nil_2 _
           | (k, v) :: o => Forall_cons_2 (λ kv, P kv.2) (k, v) o (go v) (entries o)
           end) o) (k, v))
    end).
Qed.

(** [Boolean(x)] *)
Definition truthy (x : json) : bool :=
  match x with
  | JNull => false
  | JBool b => b
  | JNum (S754_zero _) | JNum S754_nan => false
  | JNum _ => true
  | JStr s => negb (bool_decide (s = EmptyString))
  | JArr _ | JObj _ => true
  end.

Abbreviation IDataObject := (jsobj json) (only parsing).

(** ** Connections *)

Abbreviation NodeConnectionType := string (only parsing).

Module NodeConnectionTypes.
Definition Main : NodeConnectionType := "main".
Definition AiTool : NodeConnectionType := "ai_tool".
Definition AiLanguageModel : NodeConnectionType := "ai_languageModel".
End NodeConnectionTypes.

Record IConnection := {
  conn_node : string;
  conn_type : NodeConnectionType;
  conn_index : nat;
}.

#[global] Instance IConnection_eq_dec : EqDecision IConnection.
Proof. solve_decision. Defined.

(** One entry per output; [None] is [null] or a hole. *)
Abbreviation NodeInputConnections := (list (option (list IConnection))) (only parsing).
Abbreviation INodeConnections := (jsobj NodeInputConnections) (only parsing).
Abbreviation IConnections := (jsobj INodeConnections) (only parsing).

(** ** Nodes *)

(** [node_rest] holds the properties the execution core only carries along
    ([notes], [credentials], [webhookId], ...), and likewise [item_rest],
    [err_rest] and [task_rest] below. *)
Record INode := {
  node_ref : nat;
  node_id : string;
  node_name : string;
  node_typeVersion : spec_float;
  node_type : string;
  node_position : spec_float * spec_float;
  node_disabled : option bool;
  node_retryOnFail : option bool;
  node_maxTries : option Z;
  node_waitBetweenTries : option Z;
  node_alwaysOutputData : option bool;
  node_executeOnce : option bool;
  node_onError : option string;
  node_continueOnFail : option bool;
  node_parameters : IDataObject;
  node_rewireOutputLogTo : option NodeConnectionType;
  node_rest : IDataObject;
}.

#[global] Instance INode_eq_dec : EqDecision INode.
Proof. solve_decision. Defined.

Abbreviation INodes := (jsobj INode) (only parsing).

(** [node.disabled] in a boolean context *)
Definition is_disabled (n : INode) : bool := default false (node_disabled n).

(** ** Items *)

Record ISourceData := {
  previousNode : string;
  previousNodeOutput : option nat;
  previousNodeRun : option nat;
}.

#[global] Instance ISourceData_eq_dec : EqDecision ISourceData.
Proof. solve_decision. Defined.

Record IPairedItemData := {
  paired_item : nat;
  paired_input : option nat;
  paired_sourceOverwrite : option ISourceData;
}.

#[global] Instance IPairedItemData_eq_dec : EqDecision IPairedItemData.
Proof. solve_decision. Defined.

Inductive pairedItem :=
  | PairedOne (p : IPairedItemData)
  | PairedMany (l : list IPairedItemData)
  | PairedNumber (n : nat).

#[global] Instance pairedItem_eq_dec : EqDecision pairedItem.
Proof. solve_decision. Defined.

Record ExecutionError := {
  err_name : string;
  err_message : string;
  err_description : option string;
  err_rest : IDataObject;
}.

#[global] Instance ExecutionError_eq_dec : EqDecision ExecutionError.
Proof. solve_decision. Defined.

Record INodeExecutionData := {
  item_json : IDataObject;
  item_error : option ExecutionError;
  item_pairedItem : option pairedItem;
  item_rest : IDataObject;
}.

#[global] Instance INodeExecutionData_eq_dec : EqDecision INodeExecutionData.
Proof. solve_decision. Defined.

(** [{ json: {} }] *)
Definition empty_item : INodeExecutionData :=
  {| item_json := []; item_error := None; item_pairedItem := None; item_rest := [] |}.

Abbreviation ITaskDataConnections :=
  (jsobj (list (slot (list INodeExecutionData)))) (only parsing).
Abbreviation ITaskDataConnectionsSource :=
  (jsobj (list (slot ISourceData))) (only parsing).
Abbreviation IPinData := (jsobj (list INodeExecutionData)) (only parsing).

(** ** Engine requests (AI agents asking the engine to run tools) *)

Record EngineRequestAction := {
  action_nodeName : string;
  action_type : NodeConnectionType;
  action_id : string;
  action_input : IDataObject;
  action_parentNodeName : option string;
  action_itemIndex : option nat;
}.

#[global] Instance EngineRequestAction_eq_dec : EqDecision EngineRequestAction.
Proof. solve_decision. Defined.

Record EngineRequest := {
  request_actions : list EngineRequestAction;
  request_metadata : IDataObject;
}.

Record SubNodeExecutionDataAction := {
  sub_nodeName : string;
  sub_runIndex : nat;
  sub_action : EngineRequestAction;
}.

#[global] Instance SubNodeExecutionDataAction_eq_dec : EqDecision SubNodeExecutionDataAction.
Proof. solve_decision. Defined.

(** [ITaskMetadata]; the properties the engine only carries along are in
    [meta_rest]. *)
Record ITaskMetadata := {
  meta_subNodeExecutionData : option (list SubNodeExecutionDataAction * IDataObject);
  meta_preserveSourceOverwrite : option bool;
  meta_preservedSourceOverwrite : option ISourceData;
  meta_nodeWasResumed : option bool;
  meta_rest : IDataObject;
}.

#[global] Instance ITaskMetadata_eq_dec : EqDecision ITaskMetadata.
Proof. solve_decision. Defined.

(** ** Run data *)

Record ITaskData := {
  task_startTime : Z;
  task_executionIndex : option Z;
  task_source : list (slot ISourceData);
  task_executionTime : Z;
  task_executionStatus : option string;
  task_data : option ITaskDataConnections;
  task_inputOverride : option ITaskDataConnections;
  task_error : option ExecutionError;
  task_metadata : option ITaskMetadata;
  task_rest : IDataObject;
}.

#[global] Instance ITaskData_eq_dec : EqDecision ITaskData.
Proof. solve_decision. Defined.

Abbreviation IRunData := (jsobj (list ITaskData)) (only parsing).

Record IExecuteData := {
  exec_data : ITaskDataConnections;
  exec_metadata : option ITaskMetadata;
  exec_node : INode;
  exec_source : option ITaskDataConnectionsSource;
  exec_runIndex : option nat;
}.

#[global] Instance IExecuteData_eq_dec : EqDecision IExecuteData.
Proof. solve_decision. Defined.

Abbreviation IWaitingForExecution :=
  (jsobj (idxobj ITaskDataConnections)) (only parsing).
Abbreviation IWaitingForExecutionSource :=
  (jsobj (idxobj ITaskDataConnectionsSource)) (only parsing).

(** ** Array access *)

(** [a.at(i)]: a negative index counts from the end. *)
Definition at_ {A} (a : list A) (i : Z) : option A :=
  if bool_decide (0 ≤ i)%Z then a !! Z.to_nat i
  else if bool_decide (0 ≤ Z.of_nat (length a) + i)%Z
       then a !! Z.to_nat (Z.of_nat (length a) + i)
       else None.

Lemma at_nat {A} (a : list A) (i : nat) : at_ a (Z.of_nat i) = a !! i.
Proof. unfold at_. rewrite bool_decide_true by lia. by rewrite Nat2Z.id. Qed.

Lemma at_last {A} (a : list A) (x : A) : at_ (a ++ [x]) (-1) = Some x.
Proof.
  unfold at_. rewrite bool_decide_false by lia.
  rewrite length_app; simpl. rewrite bool_decide_true by lia.
  rewrite lookup_app_r by lia.
  replace (Z.to_nat _ - length a) with 0 by lia. done.
Qed.
