(* ===== verification/DirectedGraph.v ===== *)
(** * The directed graph of a workflow

    Model of the class [DirectedGraph] of
    [packages/core/src/execution-engine/partial-execution-utils/directed-graph.ts]:
    its two insertion-ordered maps, every operation on them, the representation
    invariant, and that the operations keep it. *)

From S2P Require Import Prelude JsCollections NodeTypes.

(** ** State *)

Record GraphConnection := {
  gc_from : INode;
  gc_to : INode;
  gc_type : NodeConnectionType;
  gc_outputIndex : nat;
  gc_inputIndex : nat;
}.

#[global] Instance GraphConnection_eq_dec : EqDecision GraphConnection.
Proof. solve_decision. Defined.

(** [fromName-outputType-outputIndex-inputIndex-toName] *)
Definition makeKey (connection : GraphConnection) : string :=
  node_name (gc_from connection) +:+ "-" +:+ gc_type connection +:+ "-" +:+
  pretty (gc_outputIndex connection) +:+ "-" +:+
  pretty (gc_inputIndex connection) +:+ "-" +:+ node_name (gc_to connection).

Record DirectedGraph := {
  nodes : jsmap string INode;
  connections : jsmap string GraphConnection;
}.

Definition empty_graph : DirectedGraph := {| nodes := []; connections := [] |}.

(** ** Queries *)

Definition hasNode (g : DirectedGraph) (nodeName : string) : bool :=
  map_has nodeName (nodes g).

Definition getNodes (g : DirectedGraph) : jsmap string INode := nodes g.

Definition getNodesByNames (g : DirectedGraph) (names : list string) : jsset INode :=
  foldl (λ acc name,
    match map_get name (nodes g) with
    | Some node => set_add node acc
    | None => acc
    end) [] names.

Definition getConnections (g : DirectedGraph) (filter_to : option INode) : list GraphConnection :=
  match filter_to with
  | Some to => filter (λ c, gc_to c = to) ((connections g).*2)
  | None => (connections g).*2
  end.

(** [this.nodes.get(node.name) === node] *)
Definition nodeExists (g : DirectedGraph) (node : INode) : bool :=
  bool_decide (map_get (node_name node) (nodes g) = Some node).

Definition getDirectChildConnections (g : DirectedGraph) (node : INode) : res (list GraphConnection) :=
  _ ← assert_ok (nodeExists g node);
  Ok (filter (λ c, gc_from c = node) ((connections g).*2)).

Definition getDirectParentConnections (g : DirectedGraph) (node : INode) : res (list GraphConnection) :=
  _ ← assert_ok (nodeExists g node);
  Ok (filter (λ c, gc_to c = node) ((connections g).*2)).

Definition getConnection (g : DirectedGraph) (from : INode) (outputIndex : nat)
    (type : NodeConnectionType) (inputIndex : nat) (to : INode) : option GraphConnection :=
  map_get (makeKey {| gc_from := from; gc_to := to; gc_type := type;
                      gc_outputIndex := outputIndex; gc_inputIndex := inputIndex |})
    (connections g).

(** ** Updates *)

Definition addNode (g : DirectedGraph) (node : INode) : DirectedGraph :=
  {| nodes := map_set (node_name node) node (nodes g); connections := connections g |}.

Definition addNodes (g : DirectedGraph) (ns : list INode) : DirectedGraph :=
  foldl addNode g ns.

(** The argument of [addConnection], whose last three properties are optional. *)
Record ConnectionInput := {
  ci_from : INode;
  ci_to : INode;
  ci_type : option NodeConnectionType;
  ci_outputIndex : option nat;
  ci_inputIndex : option nat;
}.

Definition connectionOfInput (i : ConnectionInput) : GraphConnection :=
  {| gc_from := ci_from i; gc_to := ci_to i;
     gc_type := default NodeConnectionTypes.Main (ci_type i);
     gc_outputIndex := default 0 (ci_outputIndex i);
     gc_inputIndex := default 0 (ci_inputIndex i) |}.

Definition inputOfConnection (c : GraphConnection) : ConnectionInput :=
  {| ci_from := gc_from c; ci_to := gc_to c; ci_type := Some (gc_type c);
     ci_outputIndex := Some (gc_outputIndex c); ci_inputIndex := Some (gc_inputIndex c) |}.

Definition setConnection (g : DirectedGraph) (c : GraphConnection) : DirectedGraph :=
  {| nodes := nodes g; connections := map_set (makeKey c) c (connections g) |}.

Definition addConnection (g : DirectedGraph) (connectionInput : ConnectionInput) : res DirectedGraph :=
  _ ← assert_ok (nodeExists g (ci_from connectionInput));
  _ ← assert_ok (nodeExists g (ci_to connectionInput));
  Ok (setConnection g (connectionOfInput connectionInput)).

Definition addConnections (g : DirectedGraph) (inputs : list ConnectionInput) : res DirectedGraph :=
  foldM addConnection g inputs.

(** The entries whose connection uses [node] are deleted while iterating. *)
Definition removeConnectionsOf (g : DirectedGraph) (node : INode) : DirectedGraph :=
  {| nodes := nodes g;
     connections := filter (λ kc, ¬ (gc_to kc.2 = node ∨ gc_from kc.2 = node)) (connections g) |}.

Definition deleteNode (g : DirectedGraph) (nodeName : string) : DirectedGraph :=
  {| nodes := map_delete nodeName (nodes g); connections := connections g |}.

(** The connections that bridge a removed node: every incoming connection that
    is not skipped is redirected to the target of every outgoing one. *)
Definition bridgeConnections (skipConnectionFn : GraphConnection → bool)
    (incoming outgoing : list GraphConnection) : list GraphConnection :=
  mjoin ((λ i, (λ o, {| gc_from := gc_from i; gc_to := gc_to o; gc_type := gc_type i;
                        gc_outputIndex := gc_outputIndex i; gc_inputIndex := gc_inputIndex o |})
                 <$> filter (λ o, skipConnectionFn o = false) outgoing)
         <$> filter (λ i, skipConnectionFn i = false) incoming).

(** [removeNode(node, { reconnectConnections: true, skipConnectionFn })] *)
Definition removeNodeReconnect (g : DirectedGraph) (node : INode)
    (skipConnectionFn : GraphConnection → bool) : res (DirectedGraph * list GraphConnection) :=
  incomingConnections ← getDirectParentConnections g node;
  outgoingConnections ← getDirectChildConnections g node;
  let newConnections := bridgeConnections skipConnectionFn incomingConnections outgoingConnections in
  let g1 := removeConnectionsOf g node in
  let g2 := foldl setConnection g1 newConnections in
  Ok (deleteNode g2 (node_name node), newConnections).

(** [removeNode(node)] *)
Definition removeNode (g : DirectedGraph) (node : INode) : DirectedGraph :=
  deleteNode (removeConnectionsOf g node) (node_name node).

Definition clone (g : DirectedGraph) : res DirectedGraph :=
  addConnections (addNodes empty_graph ((getNodes g).*2))
    (inputOfConnection <$> getConnections g None).

(** ** Traversals *)

Fixpoint getChildrenRecursive (fuel : nat) (g : DirectedGraph) (node : INode)
    (children : jsset INode) : res (jsset INode) :=
  match fuel with
  | 0 => OutOfFuel
  | S fuel =>
      directChildren ← getDirectChildConnections g node;
      foldM (λ children directChild,
        if set_has (gc_to directChild) children then Ok children
        else getChildrenRecursive fuel g (gc_to directChild)
               (set_add (gc_to directChild) children))
        children directChildren
  end.

Definition getChildren (g : DirectedGraph) (node : INode) : res (jsset INode) :=
  getChildrenRecursive (S (length (nodes g))) g node [].

Fixpoint getParentConnectionsRecursive (fuel : nat) (g : DirectedGraph) (node : INode)
    (conns : jsset GraphConnection) : res (jsset GraphConnection) :=
  match fuel with
  | 0 => OutOfFuel
  | S fuel =>
      parentConnections ← getDirectParentConnections g node;
      foldM (λ conns connection,
        if set_has connection conns then Ok conns
        else getParentConnectionsRecursive fuel g (gc_from connection)
               (set_add connection conns))
        conns parentConnections
  end.

Definition getParentConnections (g : DirectedGraph) (node : INode) : res (jsset GraphConnection) :=
  getParentConnectionsRecursive (S (length (connections g))) g node [].

(** The result and the mutated [seen] set. *)
Fixpoint depthFirstSearchRecursive (fuel : nat) (g : DirectedGraph) (from : INode)
    (fn : INode → bool) (seen : jsset INode) : res (option INode * jsset INode) :=
  match fuel with
  | 0 => OutOfFuel
  | S fuel =>
      if set_has from seen then Ok (None, seen) else
      let seen := set_add from seen in
      if fn from then Ok (Some from, seen) else
      childConnections ← getDirectChildConnections g from;
      foldM (λ st childConnection,
        match st with
        | (Some found, seen) => Ok (Some found, seen)
        | (None, seen) => depthFirstSearchRecursive fuel g (gc_to childConnection) fn seen
        end) (None, seen) childConnections
  end.

Definition depthFirstSearch (g : DirectedGraph) (from : INode) (fn : INode → bool) : res (option INode) :=
  fst <$> depthFirstSearchRecursive (S (S (length (nodes g)))) g from fn [].

(** ** Strongly connected components *)

(** The variables [getStronglyConnectedComponents] closes over; the top of
    [scc_stack] is its head. *)
Record SccState := {
  scc_id : nat;
  scc_visited : jsset INode;
  scc_ids : jsmap INode nat;
  scc_lowLinkValues : jsmap INode nat;
  scc_stack : list INode;
  scc_components : list (jsset INode);
}.

Definition initialSccState : SccState :=
  {| scc_id := 0; scc_visited := []; scc_ids := []; scc_lowLinkValues := [];
     scc_stack := []; scc_components := [] |}.

Definition enterNode (s : SccState) (node : INode) : SccState :=
  {| scc_id := S (scc_id s);
     scc_visited := set_add node (scc_visited s);
     scc_ids := map_set node (scc_id s) (scc_ids s);
     scc_lowLinkValues := map_set node (scc_id s) (scc_lowLinkValues s);
     scc_stack := node :: scc_stack s;
     scc_components := scc_components s |}.

(** [lowLinkValues.set(node, Math.min(childLow, ownLow))] for a child on the stack *)
Definition updateLowLink (s : SccState) (node child : INode) : res SccState :=
  if set_has child (scc_stack s) then
    match map_get child (scc_lowLinkValues s), map_get node (scc_lowLinkValues s) with
    | Some childLowLinkValue, Some ownLowLinkValue =>
        Ok {| scc_id := scc_id s; scc_visited := scc_visited s; scc_ids := scc_ids s;
              scc_lowLinkValues :=
                map_set node (min childLowLinkValue ownLowLinkValue) (scc_lowLinkValues s);
              scc_stack := scc_stack s; scc_components := scc_components s |}
    | _, _ => Throw AssertionError
    end
  else Ok s.

(** The loop that pops the stack while the top has the low link [ownId]. *)
Fixpoint popComponent (low : jsmap INode nat) (ownId : nat) (scc : jsset INode) (stack : list INode)
    : jsset INode * list INode :=
  match stack with
  | [] => (scc, [])
  | next :: rest =>
      if bool_decide (map_get next low = Some ownId)
      then popComponent low ownId (set_add next scc) rest
      else (scc, stack)
  end.

Definition closeComponent (s : SccState) (node : INode) : res SccState :=
  match map_get node (scc_ids s), map_get node (scc_lowLinkValues s) with
  | Some ownId, Some ownLowLinkValue =>
      if bool_decide (ownId = ownLowLinkValue) then
        let '(scc, stack) := popComponent (scc_lowLinkValues s) ownId [] (scc_stack s) in
        Ok {| scc_id := scc_id s; scc_visited := scc_visited s; scc_ids := scc_ids s;
              scc_lowLinkValues := scc_lowLinkValues s; scc_stack := stack;
              scc_components :=
                if bool_decide (0 < length scc) then scc_components s ++ [scc]
                else scc_components s |}
      else Ok s
  | _, _ => Throw AssertionError
  end.

Fixpoint followNode (fuel : nat) (g : DirectedGraph) (s : SccState) (node : INode) : res SccState :=
  match fuel with
  | 0 => OutOfFuel
  | S fuel =>
      if set_has node (scc_visited s) then Ok s else
      let s := enterNode s node in
      directChildren ← getDirectChildConnections g node;
      s ← foldM (λ s child,
            s ← followNode fuel g s child;
            updateLowLink s node child) s (gc_to <$> directChildren);
      closeComponent s node
  end.

Definition getStronglyConnectedComponents (g : DirectedGraph) : res (list (jsset INode)) :=
  scc_components <$>
    foldM (λ s node, followNode (S (S (length (nodes g)))) g s node) initialSccState ((nodes g).*2).

(** ** Import and export *)

(** [a[i] = [...(a[i] ?? []), x]] on an array with holes *)
Definition pushAt {A} (i : nat) (x : A) (a : list (option (list A))) : list (option (list A)) :=
  if bool_decide (i < length a) then <[i := Some (default [] (mjoin (a !! i)) ++ [x])]> a
  else a ++ replicate (i - length a) None ++ [Some [x]].

(** One iteration of the loop of [toIConnections]. *)
Definition exportConnection (result : IConnections) (connection : GraphConnection) : res IConnections :=
  let fromName := node_name (gc_from connection) in
  let type := gc_type connection in
  let resultConnection := default [(type, [])] (obj_get fromName result) in
  outputs ← deref (obj_get type resultConnection);
  let c := {| conn_node := node_name (gc_to connection); conn_type := type;
              conn_index := gc_inputIndex connection |} in
  Ok (obj_set fromName
        (obj_set type (pushAt (gc_outputIndex connection) c outputs) resultConnection) result).

Definition toIConnections (g : DirectedGraph) : res IConnections :=
  foldM exportConnection [] ((connections g).*2).

(** The connections of a nested [IConnections], in iteration order, as
    (source, output type, output index, connection). *)
Definition flattenOutputs (fromNodeName outputType : string) (outputs : NodeInputConnections)
    : list (string * string * nat * IConnection) :=
  mjoin (imap (λ outputIndex conns,
    (λ conn, (fromNodeName, outputType, outputIndex, conn)) <$> default [] conns) outputs).

Definition flattenConnections (cs : IConnections) : list (string * string * nat * IConnection) :=
  mjoin ((λ '(fromNodeName, iConnection),
    mjoin ((λ '(outputType, outputs), flattenOutputs fromNodeName outputType outputs)
           <$> iConnection)) <$> cs).

(** The import loop shared by [fromWorkflow] and [fromNodesAndConnections];
    [getNode] is the lookup by name.  The source node is looked up (and asserted)
    once per source, before its connections. *)
Definition importConnections (getNode : string → option INode) (g : DirectedGraph) (cs : IConnections)
    : res DirectedGraph :=
  foldM (λ g '(fromNodeName, iConnection),
    match getNode fromNodeName with
    | None => Throw AssertionError
    | Some from =>
        foldM (λ g '(_, outputType, outputIndex, conn),
          match getNode (conn_node conn) with
          | None => Throw AssertionError
          | Some to =>
              addConnection g
                {| ci_from := from; ci_to := to; ci_type := Some outputType;
                   ci_outputIndex := Some outputIndex; ci_inputIndex := Some (conn_index conn) |}
          end) g
          (mjoin ((λ '(outputType, outputs), flattenOutputs fromNodeName outputType outputs)
                  <$> iConnection))
    end) g cs.

(** [fromWorkflow(workflow)], from the workflow's [nodes] and
    [connectionsBySourceNode] *)
Definition fromWorkflow (wfNodes : INodes) (connectionsBySourceNode : IConnections) : res DirectedGraph :=
  importConnections (λ name, obj_get name wfNodes)
    (addNodes empty_graph (wfNodes.*2)) connectionsBySourceNode.

Definition fromNodesAndConnections (ns : list INode) (cs : IConnections) : res DirectedGraph :=
  let nodeMap := foldl (λ m n, map_set (node_name n) n m) [] ns in
  importConnections (λ name, map_get name nodeMap) (addNodes empty_graph ns) cs.

(** ** The representation invariant *)

Definition inGraph (g : DirectedGraph) (node : INode) : Prop :=
  map_get (node_name node) (nodes g) = Some node.

(** Nodes are filed under their names, connections under their keys, every key
    once, and both ends of a connection are nodes of the graph. *)
Record wf (g : DirectedGraph) : Prop := {
  wf_nodes_nodup : NoDup (nodes g).*1;
  wf_nodes_name : ∀ k n, (k, n) ∈ nodes g → k = node_name n;
  wf_conns_nodup : NoDup (connections g).*1;
  wf_conns_key : ∀ k c, (k, c) ∈ connections g → k = makeKey c;
  wf_conns_from : ∀ k c, (k, c) ∈ connections g → inGraph g (gc_from c);
  wf_conns_to : ∀ k c, (k, c) ∈ connections g → inGraph g (gc_to c);
}.

(** The edge relation the traversals follow. *)
Definition edge (g : DirectedGraph) (a b : INode) : Prop :=
  ∃ c, c ∈ (connections g).*2 ∧ gc_from c = a ∧ gc_to c = b.

Lemma nodeExists_true g n : nodeExists g n = true ↔ inGraph g n.
Proof. apply bool_decide_eq_true. Qed.

Lemma elem_of_values {K V} (m : list (K * V)) v : v ∈ m.*2 ↔ ∃ k, (k, v) ∈ m.
Proof.
  rewrite list_elem_of_fmap. split.
  - intros ([k v'] & -> & ?); eauto.
  - intros (k & ?). by exists (k, v).
Qed.

Lemma inGraph_elem_of g n : wf g → inGraph g n ↔ n ∈ (nodes g).*2.
Proof.
  intros Hwf. unfold inGraph. rewrite elem_of_values. split.
  - intros H%map_get_elem_of; eauto.
  - intros (k & Hk). pose proof (wf_nodes_name g Hwf k n Hk) as ->.
    by apply map_get_unique; [apply Hwf|].
Qed.

Lemma childConnections_ok g n cs :
  getDirectChildConnections g n = Ok cs ↔
  inGraph g n ∧ cs = filter (λ c, gc_from c = n) ((connections g).*2).
Proof.
  unfold getDirectChildConnections. rewrite <- nodeExists_true.
  destruct (nodeExists g n); cbn; split; [intros [=]; done|intros [_ ->]; done|done|by intros []].
Qed.

Lemma parentConnections_ok g n cs :
  getDirectParentConnections g n = Ok cs ↔
  inGraph g n ∧ cs = filter (λ c, gc_to c = n) ((connections g).*2).
Proof.
  unfold getDirectParentConnections. rewrite <- nodeExists_true.
  destruct (nodeExists g n); cbn; split; [intros [=]; done|intros [_ ->]; done|done|by intros []].
Qed.

Lemma wf_conn_from g c : wf g → c ∈ (connections g).*2 → inGraph g (gc_from c).
Proof. intros Hwf (k & ?)%elem_of_values. by eapply wf_conns_from. Qed.

Lemma wf_conn_to g c : wf g → c ∈ (connections g).*2 → inGraph g (gc_to c).
Proof. intros Hwf (k & ?)%elem_of_values. by eapply wf_conns_to. Qed.

#[export] Hint Resolve wf_conn_from wf_conn_to : n8n.

(** ** Operations keep the invariant *)

Lemma empty_graph_wf : wf empty_graph.
Proof. split; simpl; try apply NoDup_nil_2; set_solver. Qed.

Lemma addNode_inGraph g n m :
  inGraph g n ∨ map_get (node_name n) (nodes g) = None →
  inGraph g m → inGraph (addNode g n) m.
Proof.
  unfold inGraph; simpl. rewrite map_get_set. intros Hn Hm.
  destruct (bool_decide_reflect (node_name m = node_name n)) as [Heq|]; [|done].
  destruct Hn; congruence.
Qed.

Lemma addNode_self g n : inGraph (addNode g n) n.
Proof. unfold inGraph; simpl. apply map_get_set_eq. Qed.

Lemma addNode_wf g n :
  wf g → inGraph g n ∨ map_get (node_name n) (nodes g) = None → wf (addNode g n).
Proof.
  intros Hwf Hn. split; simpl.
  - apply map_set_NoDup, Hwf.
  - intros k m. rewrite elem_of_map_set by apply Hwf.
    intros [?|[? _]]; simplify_eq; [done|]. by eapply wf_nodes_name.
  - apply Hwf.
  - intros k c Hc. by eapply wf_conns_key.
  - intros k c Hc. apply addNode_inGraph; [done|]. by eapply wf_conns_from.
  - intros k c Hc. apply addNode_inGraph; [done|]. by eapply wf_conns_to.
Qed.

Lemma setConnection_wf g c :
  wf g → inGraph g (gc_from c) → inGraph g (gc_to c) → wf (setConnection g c).
Proof.
  intros Hwf Hf Ht.
  assert (∀ k c', (k, c') ∈ map_set (makeKey c) c (connections g) →
    (k = makeKey c ∧ c' = c) ∨ (k, c') ∈ connections g) as Hin.
  { intros k c'. rewrite elem_of_map_set by apply Hwf. naive_solver. }
  split; simpl.
  - apply Hwf.
  - intros. by eapply wf_nodes_name.
  - apply map_set_NoDup, Hwf.
  - intros k c' [[-> ->]|?]%Hin; [done|]. by eapply wf_conns_key.
  - intros k c' [[-> ->]|?]%Hin; [done|]. by eapply (wf_conns_from g).
  - intros k c' [[-> ->]|?]%Hin; [done|]. by eapply (wf_conns_to g).
Qed.

Lemma addConnection_ok g i g' :
  addConnection g i = Ok g' ↔
  inGraph g (ci_from i) ∧ inGraph g (ci_to i) ∧ g' = setConnection g (connectionOfInput i).
Proof.
  unfold addConnection. rewrite <- !nodeExists_true.
  destruct (nodeExists g (ci_from i)), (nodeExists g (ci_to i)); cbn; split; try done.
  - by intros [= <-].
  - by intros (_ & _ & ->).
  - by intros (_ & ? & _).
  - by intros (? & _).
  - by intros (? & _).
Qed.

Lemma addConnection_wf g i g' : wf g → addConnection g i = Ok g' → wf g'.
Proof. intros ? (? & ? & ->)%addConnection_ok. by apply setConnection_wf. Qed.

Lemma addConnections_wf g l g' : wf g → addConnections g l = Ok g' → wf g'.
Proof.
  intros Hwf H. eapply (foldM_ind _ (λ _, wf)); [exact H|done|].
  intros. by eapply addConnection_wf.
Qed.

Lemma removeConnectionsOf_wf g n : wf g → wf (removeConnectionsOf g n).
Proof.
  intros Hwf. split; simpl; try apply Hwf.
  - apply map_filter_NoDup, Hwf.
  - intros k c [_ Hc]%list_elem_of_filter. by eapply wf_conns_key.
  - intros k c [_ Hc]%list_elem_of_filter. by eapply (wf_conns_from g).
  - intros k c [_ Hc]%list_elem_of_filter. by eapply (wf_conns_to g).
Qed.

Lemma deleteNode_inGraph g n m :
  inGraph g m → node_name m ≠ n → inGraph (deleteNode g n) m.
Proof.
  intros Hm ?. unfold inGraph; simpl. by rewrite map_get_delete, bool_decide_false.
Qed.

Lemma inGraph_name_inj g n m : inGraph g n → inGraph g m → node_name n = node_name m → n = m.
Proof. unfold inGraph. intros ? ? Heq. congruence. Qed.

(** A node that no connection uses can be deleted. *)
Lemma deleteNode_wf g n :
  wf g → inGraph g n →
  (∀ c, c ∈ (connections g).*2 → gc_from c ≠ n ∧ gc_to c ≠ n) →
  wf (deleteNode g (node_name n)).
Proof.
  intros Hwf Hn Hfree.
  assert (∀ m, inGraph g m → m ≠ n → inGraph (deleteNode g (node_name n)) m) as Hkeep.
  { intros m Hm Hne. apply deleteNode_inGraph; [done|]. intros ?.
    by apply Hne, (inGraph_name_inj g). }
  split; simpl; try apply Hwf.
  - apply map_delete_NoDup, Hwf.
  - intros k m [Hm _]%elem_of_map_delete. by eapply wf_nodes_name.
  - intros k c Hc. apply Hkeep; [by eapply (wf_conns_from g)|].
    apply Hfree. apply elem_of_values; eauto.
  - intros k c Hc. apply Hkeep; [by eapply (wf_conns_to g)|].
    apply Hfree. apply elem_of_values; eauto.
Qed.

Lemma elem_of_removeConnectionsOf g n c :
  c ∈ (connections (removeConnectionsOf g n)).*2 ↔
  c ∈ (connections g).*2 ∧ gc_to c ≠ n ∧ gc_from c ≠ n.
Proof.
  rewrite !elem_of_values. simpl. setoid_rewrite list_elem_of_filter. simpl. naive_solver.
Qed.

Lemma removeNode_preserves_wf g n : wf g → inGraph g n → wf (removeNode g n).
Proof.
  intros Hwf Hn. apply deleteNode_wf; [by apply removeConnectionsOf_wf|done|].
  intros c (_ & ? & ?)%elem_of_removeConnectionsOf. done.
Qed.

Lemma foldl_setConnection_nodes g l : nodes (foldl setConnection g l) = nodes g.
Proof. revert g; induction l as [|c l IH]; intros g; simpl; [done|]. by rewrite IH. Qed.

Lemma foldl_setConnection_wf g l :
  wf g → (∀ c, c ∈ l → inGraph g (gc_from c) ∧ inGraph g (gc_to c)) →
  wf (foldl setConnection g l).
Proof.
  revert g; induction l as [|c l IH]; intros g Hwf Hl; simpl; [done|].
  apply IH; [apply setConnection_wf; auto; apply Hl; left|].
  intros c' ?. apply Hl. by right.
Qed.

(** A connection found after the insertions is new or was there. *)
Lemma elem_of_foldl_setConnection g l c :
  wf g →
  c ∈ (connections (foldl setConnection g l)).*2 →
  c ∈ l ∨ c ∈ (connections g).*2.
Proof.
  intros Hwf. assert (NoDup (connections g).*1) as Hnd by apply Hwf. clear Hwf.
  revert g Hnd; induction l as [|d l IH]; intros g Hnd; simpl; [by right|].
  intros [?|Hc]%IH; [left; by right| |by apply map_set_NoDup].
  simpl in Hc. apply elem_of_values in Hc as (k & Hc).
  rewrite elem_of_map_set in Hc by done. destruct Hc as [?|[Hc _]]; simplify_eq.
  - left; left.
  - right. apply elem_of_values; eauto.
Qed.

Lemma elem_of_bridge skip inc out c :
  c ∈ bridgeConnections skip inc out ↔
  ∃ i o, i ∈ inc ∧ o ∈ out ∧ skip i = false ∧ skip o = false ∧
    c = {| gc_from := gc_from i; gc_to := gc_to o; gc_type := gc_type i;
           gc_outputIndex := gc_outputIndex i; gc_inputIndex := gc_inputIndex o |}.
Proof.
  unfold bridgeConnections. rewrite list_elem_of_join. split.
  - intros (l & Hc & Hl). apply list_elem_of_fmap in Hl as (i & -> & Hi).
    apply list_elem_of_fmap in Hc as (o & -> & Ho).
    apply list_elem_of_filter in Hi as [? ?]. apply list_elem_of_filter in Ho as [? ?].
    eauto 10.
  - intros (i & o & ? & ? & ? & ? & ->). eexists; split; swap 1 2.
    + apply list_elem_of_fmap. exists i. split; [done|]. by apply list_elem_of_filter.
    + apply list_elem_of_fmap. exists o. split; [done|]. by apply list_elem_of_filter.
Qed.
