(* ===== verification/Fixtures.v ===== *)
(** * Concrete workflows for the witnesses *)

From S2P Require Import Prelude JsCollections NodeTypes DirectedGraph.

(** A node with default settings. *)
Definition mkNode (ref : nat) (name type : string) (disabled : option bool) : INode :=
  {| node_ref := ref; node_id := name; node_name := name;
     node_typeVersion := S754_zero false; node_type := type;
     node_position := (S754_zero false, S754_zero false); node_disabled := disabled;
     node_retryOnFail := None; node_maxTries := None; node_waitBetweenTries := None;
     node_alwaysOutputData := None; node_executeOnce := None; node_onError := None;
     node_continueOnFail := None; node_parameters := []; node_rewireOutputLogTo := None; node_rest := [] |}.

Definition nodeA : INode := mkNode 0 "A" "n8n-nodes-base.manualTrigger" None.
Definition nodeB : INode := mkNode 1 "B" "n8n-nodes-base.set" None.
Definition nodeC : INode := mkNode 2 "C" "n8n-nodes-base.set" (Some true).
Definition nodeD : INode := mkNode 3 "D" "n8n-nodes-base.merge" None.
Definition nodeT : INode := mkNode 4 "T" "@n8n/n8n-nodes-langchain.toolCode" None.

Definition mkConn (from to : INode) (type : NodeConnectionType) (output input : nat) : GraphConnection :=
  {| gc_from := from; gc_to := to; gc_type := type;
     gc_outputIndex := output; gc_inputIndex := input |}.

Definition mkGraph (ns : list INode) (cs : list GraphConnection) : DirectedGraph :=
  {| nodes := (λ n, (node_name n, n)) <$> ns; connections := (λ c, (makeKey c, c)) <$> cs |}.

(** A trigger [A] feeding [B] and the disabled [C], both feeding the merge node
    [D]; the tool [T] is attached to [D]. *)
Definition diamond : DirectedGraph :=
  mkGraph [nodeA; nodeB; nodeC; nodeD; nodeT]
    [mkConn nodeA nodeB "main" 0 0; mkConn nodeA nodeC "main" 0 0;
     mkConn nodeB nodeD "main" 0 0; mkConn nodeC nodeD "main" 0 1;
     mkConn nodeT nodeD "ai_tool" 0 0].

(** A trigger [A] into the loop [B -> D -> B]. *)
Definition loop : DirectedGraph :=
  mkGraph [nodeA; nodeB; nodeD]
    [mkConn nodeA nodeB "main" 0 0; mkConn nodeB nodeD "main" 1 0; mkConn nodeD nodeB "main" 0 0].

(** ** Deciding the invariant *)

#[global] Instance wf_dec g : Decision (wf g).
Proof.
  refine (cast_if (decide (
    NoDup (nodes g).*1 ∧ Forall (λ kn, kn.1 = node_name kn.2) (nodes g) ∧
    NoDup (connections g).*1 ∧
    Forall (λ kc, kc.1 = makeKey kc.2 ∧
      map_get (node_name (gc_from kc.2)) (nodes g) = Some (gc_from kc.2) ∧
      map_get (node_name (gc_to kc.2)) (nodes g) = Some (gc_to kc.2)) (connections g)))).
  - abstract (
      destruct_and!; rewrite !Forall_forall in *;
      split; unfold inGraph; [done|naive_solver|done|naive_solver..]).
  - abstract (
      intros [Hn Hk Hc Hck Hcf Hct]; apply n; repeat split_and!; try done;
      rewrite Forall_forall; intros [k x] Hx; simpl; [by eapply Hk|];
      split_and!; [by eapply Hck|by eapply Hcf|by eapply Hct]).
Defined.

(** Proves a decidable closed statement by evaluating its decision. *)
Ltac by_eval := apply (bool_decide_unpack _); vm_compute; exact I.

Lemma diamond_wf : wf diamond.
Proof. by_eval. Qed.

Lemma loop_wf : wf loop.
Proof. by_eval. Qed.
