(* ===== verification/GraphSearch.v ===== *)
(** * Correctness of the graph traversals

    [getChildren], [getParentConnections] and [depthFirstSearch] are recursive
    searches over a mutable set.  The first section proves such a search
    correct once: it terminates with a fuel larger than the number of elements
    not yet in the set, and it returns the closure of the successor relation.
    The later sections instantiate it. *)

From S2P Require Import Prelude JsCollections NodeTypes DirectedGraph Fixtures.

(** ** A generic search *)

Section visit.
Context {N C E : Type} `{!EqDecision E}.
(** [expand] lists the candidates at a node (it may throw), [elem] is what the
    set records of a candidate, [target] the node an element leads to. *)
Context (expand : N → res (list C)) (elem : C → E) (target : E → N).

Fixpoint visit (fuel : nat) (node : N) (seen : jsset E) : res (jsset E) :=
  match fuel with
  | 0 => OutOfFuel
  | S fuel =>
      cs ← expand node;
      foldM (λ seen c,
        if set_has (elem c) seen then Ok seen
        else visit fuel (target (elem c)) (set_add (elem c) seen)) seen cs
  end.

(** The successors of a node. *)
Definition succ (n : N) (e : E) : Prop := ∃ cs c, expand n = Ok cs ∧ c ∈ cs ∧ elem c = e.

(** Elements reachable from a node by one or more steps. *)
Inductive reaches : N → E → Prop :=
  | reaches_one n e : succ n e → reaches n e
  | reaches_more n e e' : succ n e → reaches (target e) e' → reaches n e'.

(** A finite universe in which the search stays. *)
Context (D : N → Prop) (U : list E).

(** What a search from the candidates [es] adds to [seen]. *)
Record explored (es : list E) (seen seen' : list E) : Prop := {
  explored_mono : seen ⊆ seen';
  explored_cands : es ⊆ seen';
  explored_closed : ∀ e, e ∈ seen' → e ∉ seen → ∀ e', succ (target e) e' → e' ∈ seen';
  explored_nodup : NoDup seen → NoDup seen';
  explored_univ : seen ⊆ U → seen' ⊆ U;
}.

Lemma explored_refl seen : explored [] seen seen.
Proof. split; set_solver. Qed.

Lemma explored_snoc es e s t t' :
  explored es s t → explored [e] t t' → explored (es ++ [e]) s t'.
Proof.
  intros [M1 C1 K1 N1 U1] [M2 C2 K2 N2 U2]. split; [set_solver|set_solver| |auto|auto].
  intros x Hx Hns e' Hs. destruct (decide (x ∈ t)); [|by eapply K2].
  apply M2. by eapply K1.
Qed.

Lemma length_add_measure e seen :
  e ∉ seen → NoDup seen → e ∈ U → seen ⊆ U → length seen < length U.
Proof.
  intros. assert (length (seen ++ [e]) ≤ length U) as Hl.
  { apply NoDup_incl_length; [by apply NoDup_snoc|set_solver]. }
  rewrite length_app in Hl. simpl in Hl. lia.
Qed.

Hypothesis expand_total : ∀ n, D n → ∃ cs, expand n = Ok cs.
Hypothesis expand_closed : ∀ n cs c, D n → expand n = Ok cs → c ∈ cs → elem c ∈ U ∧ D (target (elem c)).

(** The search terminates and explores the successors of its node. *)
Lemma visit_spec fuel n seen cs :
  D n → NoDup seen → seen ⊆ U → length U < fuel + length seen →
  expand n = Ok cs →
  ∃ seen', visit fuel n seen = Ok seen' ∧ explored (elem <$> cs) seen seen'.
Proof.
  revert n seen cs. induction fuel as [|fuel IH]; intros n seen cs HD Hnd HU Hfuel Hcs.
  { pose proof (NoDup_incl_length _ _ Hnd HU). lia. }
  cbn [visit]. rewrite Hcs. cbn [mbind res_bind].
  destruct (foldM_total
    (λ seen c, if set_has (elem c) seen then Ok seen
               else visit fuel (target (elem c)) (set_add (elem c) seen))
    (λ pre t, explored (elem <$> pre) seen t) seen cs) as (s' & Hs' & Hex);
    [apply explored_refl| |eauto].
  intros pre c t Hex Hc. rewrite fmap_app.
  destruct (expand_closed n cs c HD Hcs Hc) as [HcU HcD].
  unfold set_has. destruct (bool_decide_reflect (elem c ∈ t)) as [Hin|Hnin].
  { exists t. split; [done|]. eapply explored_snoc; [exact Hex|]. split; set_solver. }
  destruct Hex as [M0 C0 K0 N0 U0].
  unfold set_add, set_has. rewrite bool_decide_false by done.
  destruct (expand_total _ HcD) as (cs2 & Hcs2).
  assert (length seen ≤ length t) by (by apply NoDup_incl_length).
  destruct (IH (target (elem c)) (t ++ [elem c]) cs2) as (t' & Ht' & [M1 C1 K1 N1 U1]);
    [done|by apply NoDup_snoc; auto| |rewrite length_app; simpl; lia|done|].
  { specialize (U0 HU). set_solver. }
  exists t'. split; [done|]. eapply explored_snoc; [by split|].
  assert (NoDup t) by auto. assert (t ⊆ U) by auto.
  split; [set_solver|set_solver| | |].
  - intros e He Hne e' Hs. destruct (decide (e = elem c)) as [->|].
    + destruct Hs as (cs3 & c3 & Hcs3 & ? & <-). rewrite Hcs2 in Hcs3. simplify_eq.
      apply C1. by apply list_elem_of_fmap_2.
    + eapply K1; [done| |done]. set_solver.
  - intros _. apply N1. by apply NoDup_snoc.
  - intros _. apply U1. set_solver.
Qed.

(** Everything a search adds is reachable from its node. *)
Lemma visit_sound fuel n seen seen' e :
  visit fuel n seen = Ok seen' → e ∈ seen' → e ∈ seen ∨ reaches n e.
Proof.
  revert n seen seen' e. induction fuel as [|fuel IH]; intros n seen seen' e; [done|].
  cbn [visit]. intros Hv. res_simpl. revert e. rename E0 into Hcs.
  apply (foldM_ind _ (λ _ t, ∀ e, e ∈ t → e ∈ seen ∨ reaches n e) _ _ _ Hv); [by left|].
  intros pre c t t' Ht Hc Hstep e He. unfold set_has in Hstep.
  assert (succ n (elem c)) as Hsucc by (exists a, c; done).
  destruct (bool_decide_reflect (elem c ∈ t)); [simplify_eq; auto|].
  destruct (IH _ _ _ _ Hstep He) as [Hin|Hr].
  - apply elem_of_set_add in Hin as [->|?]; [right; by constructor|auto].
  - right. by eapply reaches_more.
Qed.

(** The search from an empty set returns exactly the reachable elements. *)
Lemma visit_reaches fuel n :
  D n → length U < fuel →
  ∃ s, visit fuel n [] = Ok s ∧ NoDup s ∧ ∀ e, e ∈ s ↔ reaches n e.
Proof.
  intros HD Hf. destruct (expand_total n HD) as (cs & Hcs).
  destruct (visit_spec fuel n [] cs) as (s & Hs & [M0 C0 K0 N0 U0]);
    [done|constructor|set_solver|simpl; lia|done|].
  exists s. split; [done|]. split; [apply N0; constructor|].
  intros e. split.
  - intros He. destruct (visit_sound _ _ _ _ _ Hs He); [set_solver|done].
  - assert (∀ e, succ n e → e ∈ s) as Hone.
    { intros x (cs' & c & Hcs' & Hc & <-). rewrite Hcs in Hcs'. simplify_eq.
      apply C0. by apply list_elem_of_fmap_2. }
    assert (∀ m e, reaches m e → (∀ x, succ m x → x ∈ s) → e ∈ s) as Hclos.
    { induction 1 as [m x Hx|m x x' Hx Hr IHr]; intros Hm; [auto|].
      apply IHr. intros y Hy. eapply K0; [by apply Hm|set_solver|done]. }
    intros Hr. by eapply Hclos.
Qed.
End visit.

(** ** [getChildren] *)

Lemma getChildrenRecursive_visit fuel g n s :
  getChildrenRecursive fuel g n s = visit (getDirectChildConnections g) gc_to id fuel n s.
Proof.
  revert n s; induction fuel as [|fuel IH]; intros n s; simpl; [done|].
  destruct (getDirectChildConnections g n); simpl; [|done|done].
  apply foldM_ext. intros t c _. by rewrite IH.
Qed.

Lemma child_succ g n m : wf g → succ (getDirectChildConnections g) gc_to n m ↔ edge g n m.
Proof.
  intros Hwf. split.
  - intros (cs & c & [_ ->]%childConnections_ok & Hc & <-).
    apply list_elem_of_filter in Hc as [<- Hc]. by exists c.
  - intros (c & Hc & <- & <-). eexists _, c. split; [apply childConnections_ok; eauto with n8n|].
    split; [|done]. by apply list_elem_of_filter.
Qed.

Lemma child_reaches g n m :
  wf g → reaches (getDirectChildConnections g) gc_to id n m ↔ tc (edge g) n m.
Proof.
  intros Hwf. split.
  - induction 1 as [n m Hs|n m m' Hs _ IH]; apply child_succ in Hs; try done.
    + by apply tc_once.
    + by eapply tc_l.
  - induction 1 as [n m He|n m m' He _ IH].
    + apply reaches_one. by apply child_succ.
    + eapply reaches_more; [by apply child_succ|done].
Qed.

Lemma edge_inGraph g n m : wf g → edge g n m → inGraph g n ∧ inGraph g m.
Proof. intros Hwf (c & Hc & <- & <-). split; eauto with n8n. Qed.

Lemma children_total g n : inGraph g n → ∃ cs, getDirectChildConnections g n = Ok cs.
Proof. intros. eexists. by apply childConnections_ok. Qed.

Lemma getChildren_spec g n :
  wf g → inGraph g n →
  ∃ s, getChildren g n = Ok s ∧ NoDup s ∧ ∀ m, m ∈ s ↔ tc (edge g) n m.
Proof.
  intros Hwf Hn. unfold getChildren.
  destruct (visit_reaches (getDirectChildConnections g) gc_to id (inGraph g) ((nodes g).*2)
    (children_total g)) with (fuel := S (length (nodes g))) (n := n) as (s & Hs & Hnd & He);
    [|done|rewrite length_fmap; lia|].
  { intros k cs c _ [_ ->]%childConnections_ok Hc.
    apply list_elem_of_filter in Hc as [_ Hc]. unfold id.
    rewrite <- inGraph_elem_of by done. split; eauto with n8n. }
  exists s. rewrite getChildrenRecursive_visit. split; [done|]. split; [done|].
  intros m. by rewrite He, child_reaches.
Qed.

(** [getChildren] of a node of a well-formed graph terminates without an
    assertion failure and returns, without duplicates, exactly the nodes
    reachable from it by one or more connections (the node itself only when it
    lies on a cycle). *)
Theorem getChildren_reachable g n :
  wf g → inGraph g n →
  ∃ s, getChildren g n = Ok s ∧ NoDup s ∧ ∀ m, m ∈ s ↔ tc (edge g) n m.
Proof. apply getChildren_spec. Qed.

Lemma getChildren_reachable_witness :
  ∃ s, getChildren loop nodeB = Ok s ∧ NoDup s ∧ ∀ m, m ∈ s ↔ tc (edge loop) nodeB m.
Proof. apply getChildren_reachable; [apply loop_wf|reflexivity]. Defined.

(** ** [getParentConnections] *)

Lemma getParentConnectionsRecursive_visit fuel g n s :
  getParentConnectionsRecursive fuel g n s =
  visit (getDirectParentConnections g) id gc_from fuel n s.
Proof.
  revert n s; induction fuel as [|fuel IH]; intros n s; simpl; [done|].
  destruct (getDirectParentConnections g n); simpl; [|done|done].
  apply foldM_ext. intros t c _. by rewrite IH.
Qed.

Lemma parent_succ g n c :
  wf g → succ (getDirectParentConnections g) id n c ↔ c ∈ (connections g).*2 ∧ gc_to c = n.
Proof.
  intros Hwf. split.
  - intros (cs & c' & [_ ->]%parentConnections_ok & Hc & <-).
    by apply list_elem_of_filter in Hc as [? ?].
  - intros (Hc & <-). eexists _, c. split; [apply parentConnections_ok; eauto with n8n|].
    split; [|done]. by apply list_elem_of_filter.
Qed.

Lemma parent_reaches g n c :
  wf g →
  reaches (getDirectParentConnections g) id gc_from n c ↔
  c ∈ (connections g).*2 ∧ rtc (edge g) (gc_to c) n.
Proof.
  intros Hwf. split.
  - induction 1 as [n c Hs|n c c' Hs _ IH]; apply parent_succ in Hs as [Hc <-]; try done.
    destruct IH as [? Hr]. split; [done|]. eapply rtc_r; [exact Hr|]. by exists c.
  - intros [Hc Hr]. revert n Hr. apply rtc_ind_r.
    + apply reaches_one. by apply parent_succ.
    + intros k n _ (d & Hd & <- & <-) IH. eapply reaches_more; [by apply parent_succ|done].
Qed.

Lemma parents_total g n : inGraph g n → ∃ cs, getDirectParentConnections g n = Ok cs.
Proof. intros. eexists. by apply parentConnections_ok. Qed.

Lemma getParentConnections_spec g n :
  wf g → inGraph g n →
  ∃ s, getParentConnections g n = Ok s ∧ NoDup s ∧
    ∀ c, c ∈ s ↔ c ∈ (connections g).*2 ∧ rtc (edge g) (gc_to c) n.
Proof.
  intros Hwf Hn. unfold getParentConnections.
  destruct (visit_reaches (getDirectParentConnections g) id gc_from (inGraph g) ((connections g).*2)
    (parents_total g)) with (fuel := S (length (connections g))) (n := n) as (s & Hs & Hnd & He);
    [|done|rewrite length_fmap; lia|].
  { intros k cs c _ [_ ->]%parentConnections_ok Hc.
    apply list_elem_of_filter in Hc as [_ Hc]. unfold id. split; eauto with n8n. }
  exists s. rewrite getParentConnectionsRecursive_visit. split; [done|]. split; [done|].
  intros c. by rewrite He, parent_reaches.
Qed.

(** [getParentConnections] terminates and returns, without duplicates,
    exactly the connections from which the node can be reached. *)
Theorem getParentConnections_upstream g n :
  wf g → inGraph g n →
  ∃ s, getParentConnections g n = Ok s ∧ NoDup s ∧
    ∀ c, c ∈ s ↔ c ∈ (connections g).*2 ∧ rtc (edge g) (gc_to c) n.
Proof. apply getParentConnections_spec. Qed.

Lemma getParentConnections_upstream_witness :
  ∃ s, getParentConnections diamond nodeD = Ok s ∧ NoDup s ∧
    ∀ c, c ∈ s ↔ c ∈ (connections diamond).*2 ∧ rtc (edge diamond) (gc_to c) nodeD.
Proof. apply getParentConnections_upstream; [apply diamond_wf|reflexivity]. Defined.

(** ** [depthFirstSearch] *)

Section dfs.
Context (g : DirectedGraph) (Hwf : wf g) (fn : INode → bool).

(** What an unsuccessful search adds to [seen]. *)
Record exhausted (starts seen seen' : list INode) : Prop := {
  ex_mono : seen ⊆ seen';
  ex_starts : starts ⊆ seen';
  ex_closed : ∀ e, e ∈ seen' → e ∉ seen → fn e = false ∧ ∀ e', edge g e e' → e' ∈ seen';
  ex_nodup : NoDup seen → NoDup seen';
  ex_univ : seen ⊆ (nodes g).*2 → seen' ⊆ (nodes g).*2;
}.

Lemma exhausted_refl seen : exhausted [] seen seen.
Proof. clear. split; set_solver. Qed.

Lemma exhausted_snoc es e s t t' :
  exhausted es s t → exhausted [e] t t' → exhausted (es ++ [e]) s t'.
Proof.
  clear. intros [M1 C1 K1 N1 U1] [M2 C2 K2 N2 U2]. split; [set_solver|set_solver| |auto|auto].
  intros x Hx Hns. destruct (decide (x ∈ t)); [|by apply K2].
  destruct (K1 x) as [? Hs]; [done|done|]. split; [done|]. intros e' He'. apply M2. auto.
Qed.

(** A search ends with a match reachable from its start, or exhausts what is
    reachable outside [seen]. *)
Definition dfs_post (starts seen : list INode) (r : option INode * list INode) : Prop :=
  match r with
  | (Some m, _) => fn m = true ∧ ∃ n, n ∈ starts ∧ rtc (edge g) n m
  | (None, seen') => exhausted starts seen seen'
  end.

(** The end of the loop over the children of [n] *)
Lemma dfs_children_post n seen r :
  n ∈ (nodes g).*2 → n ∉ seen → fn n = false →
  dfs_post (gc_to <$> filter (λ c, gc_from c = n) ((connections g).*2)) (seen ++ [n]) r → dfs_post [n] seen r.
Proof.
  intros HnU Hnin Hfn Hpost. destruct r as [[m|] t]; simpl in *.
  - destruct Hpost as (? & k & Hk & ?). split; [done|]. exists n. split; [by left|].
    apply list_elem_of_fmap in Hk as (c & -> & Hc). apply list_elem_of_filter in Hc as [? ?].
    eapply rtc_l; [|done]. by exists c.
  - destruct Hpost as [M1 C1 K1 N1 U1]. split; [set_solver|set_solver| | |].
    + intros e He Hne. destruct (decide (e = n)) as [->|]; [|apply K1; set_solver].
      split; [done|]. intros e' (c & Hc & Hfrom & <-). apply C1.
      apply list_elem_of_fmap_2. by apply list_elem_of_filter.
    + intros Hnd. apply N1. by apply NoDup_snoc.
    + intros HU. apply U1. set_solver.
Qed.

Lemma dfs_spec fuel n seen :
  inGraph g n → NoDup seen → seen ⊆ (nodes g).*2 → length (nodes g) < fuel + length seen →
  ∃ r, depthFirstSearchRecursive (S fuel) g n fn seen = Ok r ∧ dfs_post [n] seen r.
Proof.
  revert n seen. induction fuel as [|fuel IH]; intros n seen Hn Hnd HU Hf.
  { pose proof (NoDup_incl_length _ _ Hnd HU) as Hl. rewrite length_fmap in Hl. lia. }
  remember (S fuel) as fuel' eqn:Hfuel'. cbn [depthFirstSearchRecursive].
  unfold set_has at 1. destruct (bool_decide_reflect (n ∈ seen)) as [Hin|Hnin].
  { exists (None, seen). split; [done|]. split; set_solver. }
  assert (set_add n seen = seen ++ [n]) as Hadd.
  { unfold set_add, set_has. by rewrite bool_decide_false. }
  rewrite Hadd. destruct (fn n) eqn:Hfn.
  { exists (Some n, seen ++ [n]). split; [done|]. split; [done|]. exists n. split; [by left|done]. }
  rewrite (proj2 (childConnections_ok g n _) (conj Hn eq_refl)). cbn [mbind res_bind].
  set (cs := filter (λ c, gc_from c = n) ((connections g).*2)).
  assert (n ∈ (nodes g).*2) as HnU by (by apply inGraph_elem_of).
  destruct (foldM_total (λ (st : option INode * list INode) childConnection,
      match st with
      | (Some found, seen) => Ok (Some found, seen)
      | (None, seen) => depthFirstSearchRecursive fuel' g (gc_to childConnection) fn seen
      end) (λ pre r, dfs_post (gc_to <$> pre) (seen ++ [n]) r) (None, seen ++ [n]) cs)
    as (r & Hr & Hpost); [apply exhausted_refl| |].
  - intros pre c [[m|] t] Hpost Hc; simpl in Hpost; rewrite fmap_app.
    { exists (Some m, t). split; [done|]. destruct Hpost as (? & k & ? & ?).
      split; [done|]. exists k. set_solver. }
    assert (c ∈ (connections g).*2) as Hc' by (by apply list_elem_of_filter in Hc as [_ ?]).
    subst fuel'. destruct (IH (gc_to c) t) as (r & Hr & Hpost'); [eauto with n8n|..].
    { apply (ex_nodup _ _ _ Hpost). by apply NoDup_snoc. }
    { apply (ex_univ _ _ _ Hpost). set_solver. }
    { assert (length (seen ++ [n]) ≤ length t) as Hl.
      { apply NoDup_incl_length; [by apply NoDup_snoc|apply Hpost]. }
      rewrite length_app in Hl. simpl in Hl. lia. }
    exists r. split; [done|]. destruct r as [[m|] t']; simpl in *.
    + destruct Hpost' as (? & k & Hk & ?). split; [done|]. exists k. set_solver.
    + by eapply exhausted_snoc.
  - exists r. split; [done|]. by apply dfs_children_post.
Qed.

Lemma depthFirstSearch_spec n :
  inGraph g n →
  ∃ r, depthFirstSearch g n fn = Ok r ∧
    match r with
    | Some m => fn m = true ∧ rtc (edge g) n m
    | None => ∀ m, rtc (edge g) n m → fn m = false
    end.
Proof.
  intros Hn. unfold depthFirstSearch.
  destruct (dfs_spec (S (length (nodes g))) n []) as (r & Hr & Hpost);
    [done|constructor|set_solver|simpl; lia|].
  rewrite Hr. exists r.1. split; [done|]. destruct r as [[m|] s]; simpl in *.
  - destruct Hpost as (? & k & Hk & ?). split; [done|]. by apply list_elem_of_singleton in Hk as ->.
  - destruct Hpost as [M1 C1 K1 _ _]. intros m Hm. apply K1; [|set_solver].
    assert (∀ a b, rtc (edge g) a b → a ∈ s → b ∈ s) as Hcl.
    { induction 1 as [|a b c' Hab _ IHr]; [done|]. intros Ha. apply IHr.
      eapply K1; [exact Ha|set_solver|done]. }
    eapply Hcl; [done|]. set_solver.
Qed.
End dfs.

(** [depthFirstSearch] from a node of a well-formed graph always returns;
    the node it returns satisfies the predicate and is reachable from the
    start, and it returns nothing only if no reachable node (the start
    included) satisfies the predicate. *)
Theorem depthFirstSearch_finds g fn n :
  wf g → inGraph g n →
  ∃ r, depthFirstSearch g n fn = Ok r ∧
    match r with
    | Some m => fn m = true ∧ rtc (edge g) n m
    | None => ∀ m, rtc (edge g) n m → fn m = false
    end.
Proof. intros ?. by apply depthFirstSearch_spec. Qed.

Lemma depthFirstSearch_finds_witness :
  ∃ r, depthFirstSearch loop nodeA (λ n, bool_decide (n = nodeD)) = Ok r ∧
    match r with
    | Some m => bool_decide (m = nodeD) = true ∧ rtc (edge loop) nodeA m
    | None => ∀ m, rtc (edge loop) nodeA m → bool_decide (m = nodeD) = false
    end.
Proof.
  apply (depthFirstSearch_finds loop (λ n, bool_decide (n = nodeD)) nodeA);
    [apply loop_wf|reflexivity].
Defined.
