(* ===== verification/GraphKeys.v ===== *)
(** * Connection keys and cloning

    A [DirectedGraph] files a connection under the string
    [from-type-output-input-to].  The first section shows when this key
    determines the connection; the second proves [clone] the identity on
    well-formed graphs. *)

From S2P Require Import Prelude JsCollections NodeTypes DirectedGraph Fixtures.

(** ** Keys *)

Fixpoint dashFree (s : string) : bool :=
  match s with
  | EmptyString => true
  | String c s => negb (Ascii.eqb c "-") && dashFree s
  end.

Lemma dash_split s1 s2 r1 r2 :
  dashFree s1 = true → dashFree s2 = true →
  s1 +:+ "-" +:+ r1 = s2 +:+ "-" +:+ r2 → s1 = s2 ∧ r1 = r2.
Proof.
  revert s2; induction s1 as [|c1 s1 IH]; intros [|c2 s2]; simpl; intros H1 H2 Heq.
  - by injection Heq.
  - injection Heq as <- _. discriminate.
  - injection Heq as -> _. discriminate.
  - apply andb_prop in H1 as [_ H1], H2 as [_ H2]. injection Heq as <- Heq.
    destruct (IH s2 H1 H2) as [-> ->]; done.
Qed.

Lemma pretty_N_char_dash n : Ascii.eqb (pretty_N_char n) "-" = false.
Proof. unfold pretty_N_char. by repeat case_match. Qed.

Lemma pretty_N_go_dashFree x s : dashFree s = true → dashFree (pretty_N_go x s) = true.
Proof.
  revert s. induction (N.lt_wf_0 x) as [x _ IH]; intros s Hs.
  destruct (decide (0 < x)%N) as [Hx|Hx].
  - rewrite pretty_N_go_step by done. apply IH.
    + apply N.div_lt; lia.
    + cbn [dashFree]. by rewrite pretty_N_char_dash.
  - assert (x = 0%N) as -> by lia. by rewrite pretty_N_go_0.
Qed.

Lemma pretty_nat_dashFree (n : nat) : dashFree (pretty n) = true.
Proof.
  unfold pretty, pretty_nat, pretty, pretty_N. case_decide; [done|].
  by apply pretty_N_go_dashFree.
Qed.

(** The parts of a connection its key is made of. *)
Definition sameEnds (c d : GraphConnection) : Prop :=
  node_name (gc_from c) = node_name (gc_from d) ∧ node_name (gc_to c) = node_name (gc_to d) ∧
  gc_type c = gc_type d ∧ gc_outputIndex c = gc_outputIndex d ∧ gc_inputIndex c = gc_inputIndex d.

(** A connection whose source name and type contain no dash. *)
Definition keyable (c : GraphConnection) : Prop :=
  dashFree (node_name (gc_from c)) = true ∧ dashFree (gc_type c) = true.

Lemma makeKey_sameEnds c d : keyable c → keyable d → makeKey c = makeKey d → sameEnds c d.
Proof.
  intros [Hc1 Hc2] [Hd1 Hd2] Hk. unfold makeKey in Hk.
  apply dash_split in Hk as [Hf Hk]; [|done|done].
  apply dash_split in Hk as [Ht Hk]; [|done|done].
  apply dash_split in Hk as [Ho Hk]; [|apply pretty_nat_dashFree..].
  apply dash_split in Hk as [Hi Hto]; [|apply pretty_nat_dashFree..].
  apply (inj pretty) in Ho. apply (inj pretty) in Hi. by split_and!.
Qed.

(** two connections whose source names and types contain no dash have the
    same key only if they agree on both names, the type and both indices, so
    that the map of connections never merges two of them. *)
Theorem makeKey_injective c d :
  keyable c → keyable d → makeKey c = makeKey d → sameEnds c d.
Proof. apply makeKey_sameEnds. Qed.

Lemma makeKey_injective_witness :
  sameEnds (mkConn nodeA nodeB "main" 10 2) (mkConn nodeA nodeB "main" 10 2).
Proof. apply makeKey_injective; [split; reflexivity..|reflexivity]. Defined.

(** without that restriction keys collide: connecting [X] to the node
    [Y-main-0-0-Z] and then the node [X-main-0-0-Y] to [Z] leaves one
    connection in the graph, the second one. *)
Theorem makeKey_collision :
  let x := mkNode 0 "X" "t" None in
  let yz := mkNode 1 "Y-main-0-0-Z" "t" None in
  let xy := mkNode 2 "X-main-0-0-Y" "t" None in
  let z := mkNode 3 "Z" "t" None in
  ∃ g, addConnections (addNodes empty_graph [x; yz; xy; z])
         (inputOfConnection <$> [mkConn x yz "main" 0 0; mkConn xy z "main" 0 0]) = Ok g ∧
       (connections g).*2 = [mkConn xy z "main" 0 0].
Proof. eexists. split; [vm_compute; reflexivity|]. vm_compute. reflexivity. Qed.

(** ** Cloning *)

Lemma addNodes_fresh g ns :
  NoDup ((nodes g).*1 ++ (node_name <$> ns)) →
  addNodes g ns = {| nodes := nodes g ++ ((λ n, (node_name n, n)) <$> ns);
                     connections := connections g |}.
Proof.
  unfold addNodes. revert g; induction ns as [|n ns IH]; intros g Hnd; simpl.
  { rewrite app_nil_r. by destruct g. }
  assert (node_name n ∉ (nodes g).*1) as Hn.
  { apply NoDup_app in Hnd as (_ & Hd & _). intros Hin. apply (Hd _ Hin). left. }
  rewrite IH; simpl; rewrite map_set_fresh by done; [by rewrite <- app_assoc|].
  rewrite fmap_app, <- app_assoc. done.
Qed.

Lemma setConnections_fresh g cs :
  NoDup ((connections g).*1 ++ (makeKey <$> cs)) →
  Forall (λ c, inGraph g (gc_from c) ∧ inGraph g (gc_to c)) cs →
  addConnections g (inputOfConnection <$> cs) =
  Ok {| nodes := nodes g; connections := connections g ++ ((λ c, (makeKey c, c)) <$> cs) |}.
Proof.
  unfold addConnections. revert g; induction cs as [|c cs IH]; intros g Hnd Hin; simpl.
  { rewrite app_nil_r. by destruct g. }
  apply Forall_cons in Hin as [[Hf Ht] Hin].
  rewrite (proj2 (addConnection_ok g (inputOfConnection c) _) (conj Hf (conj Ht eq_refl))).
  cbn [mbind res_bind].
  assert (connectionOfInput (inputOfConnection c) = c) as -> by (by destruct c).
  assert (makeKey c ∉ (connections g).*1) as Hc.
  { apply NoDup_app in Hnd as (_ & Hd & _). intros Hi. apply (Hd _ Hi). left. }
  unfold setConnection. rewrite map_set_fresh by done.
  rewrite IH; simpl; [by rewrite <- app_assoc| |].
  - rewrite fmap_app, <- app_assoc. done.
  - eapply Forall_impl; [exact Hin|]. done.
Qed.

Lemma wf_nodes_eq g : wf g → (λ n, (node_name n, n)) <$> (nodes g).*2 = nodes g.
Proof.
  intros Hwf. pose proof (wf_nodes_name g Hwf) as Hn. induction (nodes g) as [|[k n] l IH]; [done|].
  simpl. rewrite <- (Hn k n) by (by left). f_equal. apply IH. intros; apply Hn; by right.
Qed.

Lemma wf_conns_eq g : wf g → (λ c, (makeKey c, c)) <$> (connections g).*2 = connections g.
Proof.
  intros Hwf. pose proof (wf_conns_key g Hwf) as Hn.
  induction (connections g) as [|[k n] l IH]; [done|].
  simpl. rewrite <- (Hn k n) by (by left). f_equal. apply IH. intros; apply Hn; by right.
Qed.

Lemma clone_ok g : wf g → clone g = Ok g.
Proof.
  intros Hwf. pose proof (wf_nodes_eq g Hwf) as Hne. pose proof (wf_conns_eq g Hwf) as Hce.
  unfold clone, getNodes, getConnections.
  assert (node_name <$> (nodes g).*2 = (nodes g).*1) as Hnk
    by (rewrite <- Hne, <- !list_fmap_compose; done).
  assert (makeKey <$> (connections g).*2 = (connections g).*1) as Hck
    by (rewrite <- Hce, <- !list_fmap_compose; done).
  rewrite addNodes_fresh by (simpl; rewrite Hnk; apply Hwf). simpl. rewrite Hne.
  rewrite setConnections_fresh; simpl.
  - rewrite Hce. by destruct g.
  - rewrite Hck. apply Hwf.
  - apply Forall_forall. intros c Hc. split; unfold inGraph; simpl.
    + by apply (wf_conn_from g).
    + by apply (wf_conn_to g).
Qed.

(** cloning a well-formed graph succeeds and returns an equal graph: the
    same nodes and connections in the same iteration order. *)
Theorem clone_identity g : wf g → clone g = Ok g.
Proof. apply clone_ok. Qed.

Lemma clone_identity_witness : clone diamond = Ok diamond.
Proof. apply clone_identity, diamond_wf. Defined.
