(* ===== verification/NodeRemoval.v ===== *)
(** * Removing nodes

    [removeNode] with [reconnectConnections], and [filterDisabledNodes] of
    [partial-execution-utils/filter-disabled-nodes.ts], which applies it to
    every disabled node. *)

From S2P Require Import Prelude JsCollections NodeTypes DirectedGraph Fixtures GraphKeys.

Definition keyableGraph (g : DirectedGraph) : Prop :=
  ∀ c, c ∈ (connections g).*2 → keyable c.

(** No connection that takes part in the bridging leads from [n] to itself. *)
Definition noSelfLoop (skip : GraphConnection → bool) (g : DirectedGraph) (n : INode) : Prop :=
  ∀ c, c ∈ (connections g).*2 → skip c = false → gc_from c = n → gc_to c ≠ n.

(** ** [filterDisabledNodes] *)

Definition skipNonMain (c : GraphConnection) : bool :=
  negb (bool_decide (gc_type c = NodeConnectionTypes.Main)).

Definition filterDisabledNodes (g : DirectedGraph) : res DirectedGraph :=
  filteredGraph ← clone g;
  foldM (λ filteredGraph node,
    if is_disabled node then fst <$> removeNodeReconnect filteredGraph node skipNonMain
    else Ok filteredGraph) filteredGraph ((getNodes filteredGraph).*2).

(** The data-flow edges: connections of type [main]. *)
Definition mainEdge (g : DirectedGraph) (a b : INode) : Prop :=
  ∃ c, c ∈ (connections g).*2 ∧ gc_type c = NodeConnectionTypes.Main ∧
       gc_from c = a ∧ gc_to c = b.

(** ** Removing one node *)

Lemma keyable_conn_eq g c d :
  inGraph g (gc_from c) → inGraph g (gc_to c) → inGraph g (gc_from d) → inGraph g (gc_to d) →
  keyable c → keyable d → makeKey c = makeKey d → c = d.
Proof.
  intros Hcf Hct Hdf Hdt Hc Hd Hk.
  destruct (makeKey_sameEnds c d Hc Hd Hk) as (Hf & Ht & Hty & Ho & Hi).
  pose proof (inGraph_name_inj g _ _ Hcf Hdf Hf). pose proof (inGraph_name_inj g _ _ Hct Hdt Ht).
  destruct c, d; simpl in *; congruence.
Qed.

(** Without colliding keys every inserted connection and every old one stays. *)
Lemma foldl_setConnection_complete g l c :
  wf g → keyableGraph g →
  Forall (λ d, keyable d ∧ inGraph g (gc_from d) ∧ inGraph g (gc_to d)) l →
  c ∈ l ∨ c ∈ (connections g).*2 →
  c ∈ (connections (foldl setConnection g l)).*2.
Proof.
  revert g; induction l as [|d l IH]; intros g Hwf Hk Hl Hc; simpl; [set_solver|].
  apply Forall_cons in Hl as [(Hkd & Hdf & Hdt) Hl].
  assert (∀ x, x ∈ (connections (setConnection g d)).*2 ↔ x = d ∨ x ∈ (connections g).*2) as Hset.
  { intros x. rewrite !elem_of_values. simpl.
    setoid_rewrite elem_of_map_set; [|apply Hwf..]. simpl. split; [naive_solver|].
    intros [->|(k & Hx)]; [eauto|].
    destruct (decide (k = makeKey d)) as [->|]; [|eauto].
    assert (x = d) as ->; [|eauto].
    pose proof (wf_conns_key g Hwf _ _ Hx) as Heq.
    assert (x ∈ (connections g).*2) by (apply elem_of_values; eauto).
    apply (keyable_conn_eq g); auto with n8n. }
  apply IH.
  - by apply setConnection_wf.
  - intros x [->|?]%Hset; auto.
  - exact Hl.
  - rewrite Hset. destruct Hc as [Hc|Hc]; [|auto].
    apply elem_of_cons in Hc as [->|?]; auto.
Qed.

(** The bridging connections of [n]. *)
Definition bridges (g : DirectedGraph) (skip : GraphConnection → bool) (n : INode) : list GraphConnection :=
  bridgeConnections skip (filter (λ c, gc_to c = n) ((connections g).*2))
    (filter (λ c, gc_from c = n) ((connections g).*2)).

Lemma elem_of_bridges g skip n c :
  c ∈ bridges g skip n ↔
  ∃ i o, i ∈ (connections g).*2 ∧ gc_to i = n ∧ skip i = false ∧
         o ∈ (connections g).*2 ∧ gc_from o = n ∧ skip o = false ∧
    c = {| gc_from := gc_from i; gc_to := gc_to o; gc_type := gc_type i;
           gc_outputIndex := gc_outputIndex i; gc_inputIndex := gc_inputIndex o |}.
Proof.
  unfold bridges. rewrite elem_of_bridge. setoid_rewrite list_elem_of_filter. split.
  - intros (i & o & [? ?] & [? ?] & ? & ? & ?). by exists i, o.
  - intros (i & o & ? & ? & ? & ? & ? & ? & ?). by exists i, o.
Qed.

Lemma bridges_ends g skip n c :
  wf g → noSelfLoop skip g n → c ∈ bridges g skip n →
  inGraph g (gc_from c) ∧ inGraph g (gc_to c) ∧ gc_from c ≠ n ∧ gc_to c ≠ n.
Proof.
  intros Hwf Hns (i & o & Hi & Hit & Hsi & Ho & Hof & Hso & ->)%elem_of_bridges; simpl.
  split_and!; [eauto with n8n..| |].
  - intros Hif. by apply (Hns i).
  - by apply (Hns o).
Qed.

Record reconnected (skip : GraphConnection → bool) (g : DirectedGraph) (n : INode)
    (g' : DirectedGraph) : Prop := {
  rc_wf : wf g';
  rc_nodes : nodes g' = map_delete (node_name n) (nodes g);
  rc_sound : ∀ c, c ∈ (connections g').*2 →
    (c ∈ (connections g).*2 ∧ gc_from c ≠ n ∧ gc_to c ≠ n) ∨ c ∈ bridges g skip n;
  rc_complete : keyableGraph g → ∀ c,
    (c ∈ (connections g).*2 ∧ gc_from c ≠ n ∧ gc_to c ≠ n) ∨ c ∈ bridges g skip n →
    c ∈ (connections g').*2;
}.

Lemma removeNodeReconnect_spec skip g n :
  wf g → inGraph g n → noSelfLoop skip g n →
  ∃ g', removeNodeReconnect g n skip = Ok (g', bridges g skip n) ∧ reconnected skip g n g'.
Proof.
  intros Hwf Hn Hns. unfold removeNodeReconnect.
  rewrite (proj2 (parentConnections_ok g n _) (conj Hn eq_refl)). cbn [mbind res_bind].
  rewrite (proj2 (childConnections_ok g n _) (conj Hn eq_refl)). cbn [mbind res_bind].
  fold (bridges g skip n). eexists. split; [done|].
  set (g1 := removeConnectionsOf g n).
  assert (wf g1) as Hwf1 by by apply removeConnectionsOf_wf.
  assert (∀ c, c ∈ bridges g skip n → inGraph g1 (gc_from c) ∧ inGraph g1 (gc_to c)) as Hb1.
  { intros c Hc. by destruct (bridges_ends g skip n c) as (? & ? & _). }
  assert (∀ c, c ∈ (connections (foldl setConnection g1 (bridges g skip n))).*2 →
    (c ∈ (connections g).*2 ∧ gc_from c ≠ n ∧ gc_to c ≠ n) ∨ c ∈ bridges g skip n) as Hsound.
  { intros c [Hc|Hc]%elem_of_foldl_setConnection; [by right| |done].
    apply elem_of_removeConnectionsOf in Hc. left. tauto. }
  split.
  - apply deleteNode_wf; [by apply foldl_setConnection_wf| |].
    + unfold inGraph. by rewrite foldl_setConnection_nodes.
    + intros c [[_ Hc]|Hc]%Hsound; [done|].
      by destruct (bridges_ends g skip n c) as (_ & _ & ?).
  - simpl. by rewrite foldl_setConnection_nodes.
  - exact Hsound.
  - intros Hk c Hc. simpl. apply foldl_setConnection_complete; [done| | |].
    + intros d [Hd _]%elem_of_removeConnectionsOf. by apply Hk.
    + apply Forall_forall. intros d Hd. split; [|by apply Hb1].
      apply elem_of_bridges in Hd as (i & o & Hi & _ & _ & _ & _ & _ & ->). exact (Hk i Hi).
    + destruct Hc as [Hc|Hc]; [right|by left]. apply elem_of_removeConnectionsOf. tauto.
Qed.

Lemma reconnected_keyable skip g n g' :
  reconnected skip g n g' → keyableGraph g → keyableGraph g'.
Proof.
  intros Hr Hk c [[Hc _]|Hc]%(rc_sound _ _ _ _ Hr); [by apply Hk|].
  apply elem_of_bridges in Hc as (i & o & Hi & _ & _ & _ & _ & _ & ->). exact (Hk i Hi).
Qed.

(** *** Data-flow reachability *)

Lemma skipNonMain_false c : skipNonMain c = false ↔ gc_type c = NodeConnectionTypes.Main.
Proof. unfold skipNonMain. rewrite negb_false_iff. apply bool_decide_eq_true. Qed.

Lemma mainEdge_inGraph g a b : wf g → mainEdge g a b → inGraph g a ∧ inGraph g b.
Proof. intros Hwf (c & Hc & _ & <- & <-). split; eauto with n8n. Qed.

Section reconnect_main.
Context (g g' : DirectedGraph) (n : INode).
Context (Hkey : keyableGraph g) (Hr : reconnected skipNonMain g n g').

(** The edges after the removal: the old ones and the two-step paths through
    the removed node. *)
Lemma reconnected_mainEdge a b :
  mainEdge g' a b ↔
  (mainEdge g a b ∧ a ≠ n ∧ b ≠ n) ∨ (mainEdge g a n ∧ mainEdge g n b).
Proof.
  split.
  - intros (c & Hc & Ht & <- & <-).
    destruct (rc_sound _ _ _ _ Hr c Hc) as [(? & ? & ?)|Hb].
    { left. split; [by exists c|done]. }
    apply elem_of_bridges in Hb as (i & o & Hi & Hin & Hsi & Ho & Hof & Hso & ->); simpl in *.
    apply skipNonMain_false in Hsi, Hso. right. split; [by exists i|by exists o].
  - intros [((c & Hc & Ht & <- & <-) & ? & ?)|((i & Hi & Hti & <- & Hin) & (o & Ho & Hto & Hof & <-))].
    { exists c. split_and!; [|done..]. apply (rc_complete _ _ _ _ Hr); auto. }
    eexists. split; [apply (rc_complete _ _ _ _ Hr); [done|]; right|].
    { apply elem_of_bridges. exists i, o. split_and!; [done|done|by apply skipNonMain_false|
        done|done|by apply skipNonMain_false|reflexivity]. }
    done.
Qed.

Lemma reconnected_reach_sound a b : rtc (mainEdge g') a b → rtc (mainEdge g) a b.
Proof.
  induction 1 as [|a c b Hac _ IH]; [done|].
  apply reconnected_mainEdge in Hac as [[? _]|[? ?]].
  - by eapply rtc_l.
  - eapply rtc_l; [done|]. by eapply rtc_l.
Qed.

Lemma reconnected_reach_complete a b :
  ¬ mainEdge g n n → rtc (mainEdge g) a b → a ≠ n → b ≠ n → rtc (mainEdge g') a b.
Proof.
  intros Hloop Hab Ha Hb.
  assert ((a ≠ n → rtc (mainEdge g') a b) ∧
          (a = n → ∀ x, mainEdge g x n → x ≠ n → rtc (mainEdge g') x b)) as [? _]; [|auto].
  clear Ha. induction Hab as [a|a c b Hac _ IH].
  { split; [done|]. intros ->. done. }
  destruct (IH Hb) as [IH1 IH2]. split.
  - intros Ha. destruct (decide (c = n)) as [->|Hc]; [by apply IH2|].
    eapply rtc_l; [|by apply IH1]. apply reconnected_mainEdge. by left.
  - intros -> x Hx Hxn. assert (c ≠ n) by (by intros ->).
    eapply rtc_l; [|by apply IH1]. apply reconnected_mainEdge. by right.
Qed.
End reconnect_main.

(** ** Sequences of operations *)

(** The calls that change a graph, with what their callers guarantee: a name
    is not taken by another node, a removed node is in the graph and the
    bridging does not run through a self-loop. *)
Inductive graph_op : DirectedGraph → DirectedGraph → Prop :=
  | op_addNode g n :
      inGraph g n ∨ map_get (node_name n) (nodes g) = None → graph_op g (addNode g n)
  | op_addConnection g i g' : addConnection g i = Ok g' → graph_op g g'
  | op_removeNode g n : inGraph g n → graph_op g (removeNode g n)
  | op_removeNodeReconnect g n skip g' l :
      noSelfLoop skip g n → removeNodeReconnect g n skip = Ok (g', l) → graph_op g g'.

Lemma graph_op_wf g g' : graph_op g g' → wf g → wf g'.
Proof.
  destruct 1 as [g n Hn|g i g' Hi|g n Hn|g n skip g' l Hns Hr]; intros Hwf.
  - by apply addNode_wf.
  - by eapply addConnection_wf.
  - by apply removeNode_preserves_wf.
  - assert (inGraph g n) as Hn.
    { unfold removeNodeReconnect in Hr. res_simpl.
      match goal with H : getDirectParentConnections _ _ = _ |- _ =>
        by apply parentConnections_ok in H as [? _] end. }
    destruct (removeNodeReconnect_spec skip g n Hwf Hn Hns) as (g2 & Hg2 & Hrc).
    rewrite Hg2 in Hr. simplify_eq. apply Hrc.
Qed.

(** C38: every graph built from the empty one by any sequence of [addNode],
    [addConnection], [removeNode] and reconnecting removals satisfies the
    representation invariant: keys and names agree and no connection has an end
    outside the graph.  A node that is added has a name that no other node of the graph has,
    a node that is removed is in the graph, and one whose connections are bridged has no
    connection to itself among those. *)
Theorem graph_operations_invariant g : rtc graph_op empty_graph g → wf g.
Proof.
  apply (rtc_ind_r wf empty_graph); [apply empty_graph_wf|].
  intros g1 g2 _ Hop Hwf. by eapply graph_op_wf.
Qed.

Lemma graph_operations_invariant_witness :
  ∃ g l, removeNodeReconnect (mkGraph [nodeA; nodeB; nodeC] [mkConn nodeA nodeB "main" 0 0; mkConn nodeB nodeC "main" 0 0])
      nodeB skipNonMain = Ok (g, l) ∧ connections g ≠ [] ∧ wf g.
Proof.
  eexists _, _. split; [vm_compute; reflexivity|]. split; [discriminate|]. apply graph_operations_invariant.
  set (input := λ a b, {| ci_from := a; ci_to := b; ci_type := None; ci_outputIndex := None; ci_inputIndex := None |}).
  apply (rtc_l _ _ (mkGraph [nodeA] [])); [apply (op_addNode empty_graph nodeA); right; reflexivity|].
  apply (rtc_l _ _ (mkGraph [nodeA; nodeB] [])); [apply (op_addNode (mkGraph [nodeA] []) nodeB); right; reflexivity|].
  apply (rtc_l _ _ (mkGraph [nodeA; nodeB; nodeC] []));
    [apply (op_addNode (mkGraph [nodeA; nodeB] []) nodeC); right; reflexivity|].
  apply (rtc_l _ _ (mkGraph [nodeA; nodeB; nodeC] [mkConn nodeA nodeB "main" 0 0]));
    [apply (op_addConnection _ (input nodeA nodeB)); vm_compute; reflexivity|].
  apply (rtc_l _ _ (mkGraph [nodeA; nodeB; nodeC] [mkConn nodeA nodeB "main" 0 0; mkConn nodeB nodeC "main" 0 0]));
    [apply (op_addConnection _ (input nodeB nodeC)); vm_compute; reflexivity|].
  eapply rtc_once, (op_removeNodeReconnect _ nodeB skipNonMain); [|vm_compute; reflexivity].
  intros c Hc _. apply list_elem_of_In in Hc. destruct Hc as [<-|[<-|[]]]; discriminate.
Defined.

(** ** Removing every disabled node *)

(** The data flow among the disabled nodes. *)
Definition disabledEdge (g : DirectedGraph) (a b : INode) : Prop :=
  mainEdge g a b ∧ is_disabled a = true ∧ is_disabled b = true.

Definition noDisabledCycle (g : DirectedGraph) : Prop := ∀ n, ¬ tc (disabledEdge g) n n.

Lemma noDisabledCycle_selfLoop g n :
  noDisabledCycle g → is_disabled n = true → noSelfLoop skipNonMain g n.
Proof.
  intros Hc Hn c Hin Hs Hf Ht. apply (Hc n), tc_once.
  split; [|done]. exists c. by apply skipNonMain_false in Hs.
Qed.

Lemma reconnected_disabledEdge g n g' x y :
  keyableGraph g → reconnected skipNonMain g n g' → is_disabled n = true →
  disabledEdge g' x y → tc (disabledEdge g) x y.
Proof.
  intros Hk Hr Hn [Hxy [Hx Hy]]. eapply reconnected_mainEdge in Hxy; [|done|done].
  destruct Hxy as [[? _]|[? ?]]; [by apply tc_once|].
  eapply tc_l; [|apply tc_once]; by split.
Qed.

Lemma reconnected_noDisabledCycle g n g' :
  keyableGraph g → reconnected skipNonMain g n g' → is_disabled n = true →
  noDisabledCycle g → noDisabledCycle g'.
Proof.
  intros Hk Hr Hn Hc m Hm. apply (Hc m).
  assert (∀ x y, tc (disabledEdge g') x y → tc (disabledEdge g) x y) as Hsub; [|auto].
  induction 1 as [x y Hxy|x y z Hxy _ IH].
  - by eapply reconnected_disabledEdge.
  - eapply tc_transitive; [|exact IH]. by eapply reconnected_disabledEdge.
Qed.

Lemma reconnected_inGraph skip g n g' m :
  inGraph g n → reconnected skip g n g' → inGraph g' m ↔ inGraph g m ∧ m ≠ n.
Proof.
  intros Hn Hr. unfold inGraph. rewrite (rc_nodes _ _ _ _ Hr), map_get_delete.
  destruct (bool_decide_reflect (node_name m = node_name n)) as [Heq|Hne].
  - split; [done|]. intros [Hm Hmn]. destruct Hmn. by apply (inGraph_name_inj g).
  - split; [|by intros [? _]]. intros Hm. split; [done|]. by intros ->.
Qed.

Record enabledPart (g : DirectedGraph) (removed : list INode) (t : DirectedGraph) : Prop := {
  en_wf : wf t;
  en_keyable : keyableGraph t;
  en_acyclic : noDisabledCycle t;
  en_nodes : ∀ m, inGraph t m ↔ inGraph g m ∧ ¬ (m ∈ removed ∧ is_disabled m = true);
  en_reach : ∀ a b, is_disabled a = false → is_disabled b = false →
    rtc (mainEdge t) a b ↔ rtc (mainEdge g) a b;
  en_types : ∀ c, c ∈ (connections t).*2 →
    ∃ c0, c0 ∈ (connections g).*2 ∧ gc_from c0 = gc_from c ∧ gc_type c0 = gc_type c;
}.

Lemma enabledPart_skip g pre n t :
  is_disabled n = false → enabledPart g pre t → enabledPart g (pre ++ [n]) t.
Proof.
  intros Hn [? ? ? Hnodes ? ?]. split; [done..| |done|done].
  intros m. rewrite Hnodes, elem_of_snoc. split; intros [? Hm]; (split; [done|]); [|tauto].
  intros [[?| ->] Hd]; [tauto|congruence].
Qed.

Lemma enabledPart_remove g pre n t :
  inGraph g n → n ∉ pre → is_disabled n = true → enabledPart g pre t →
  ∃ t', fst <$> removeNodeReconnect t n skipNonMain = Ok t' ∧ enabledPart g (pre ++ [n]) t'.
Proof.
  intros Hn Hpre Hd [Hwf Hk Hac Hnodes Hreach Htypes].
  assert (inGraph t n) as Ht by (apply Hnodes; tauto).
  assert (noSelfLoop skipNonMain t n) as Hns by (by apply noDisabledCycle_selfLoop).
  destruct (removeNodeReconnect_spec skipNonMain t n Hwf Ht Hns) as (t' & Heq & Hr).
  exists t'. rewrite Heq. split; [done|]. split.
  - apply Hr.
  - by eapply reconnected_keyable.
  - by eapply reconnected_noDisabledCycle.
  - intros m. rewrite (reconnected_inGraph _ _ _ _ _ Ht Hr), Hnodes, elem_of_snoc.
    split; [intros [[? Hm] ?]|intros [? Hm]].
    + split; [done|]. intros [[?|?] ?]; tauto.
    + split; [split; [done|tauto]|]. intros ->. tauto.
  - intros a b Ha Hb. rewrite <- Hreach by done. split.
    + by eapply reconnected_reach_sound.
    + intros Hab. eapply reconnected_reach_complete; [done|done| |done|congruence..].
      intros (c & Hc & Hty & Hf & Hto). eapply Hns; [done|by apply skipNonMain_false|done|done].
  - intros c [[Hc _]|Hc]%(rc_sound _ _ _ _ Hr); [by apply Htypes|].
    apply elem_of_bridges in Hc as (i & o & Hi & _ & _ & _ & _ & _ & ->). exact (Htypes i Hi).
Qed.

Lemma filterDisabledNodes_spec g :
  wf g → keyableGraph g → noDisabledCycle g →
  ∃ g', filterDisabledNodes g = Ok g' ∧ enabledPart g ((nodes g).*2) g'.
Proof.
  intros Hwf Hk Hac. unfold filterDisabledNodes. rewrite clone_ok by done. cbn [mbind res_bind].
  unfold getNodes. assert (NoDup ((nodes g).*2)) as Hnd.
  { apply (NoDup_fmap_1 (λ n, (node_name n, n))). rewrite wf_nodes_eq by done.
    eapply NoDup_fmap_1. apply Hwf. }
  apply (foldM_total_split _ (enabledPart g)).
  - split; try done.
    + intros m. split; [|by intros [? _]]. intros Hm. split; [done|]. intros [Hin _]. set_solver.
    + intros c Hc. by exists c.
  - intros pre n post t Hl Ht.
    assert (inGraph g n) as Hn by (apply inGraph_elem_of; [done|rewrite Hl; set_solver]).
    assert (n ∉ pre) as Hpre.
    { rewrite Hl in Hnd. apply NoDup_app in Hnd as (_ & Hd & _). intros Hin.
      apply (Hd n Hin). left. }
    destruct (is_disabled n) eqn:Hd; [by apply enabledPart_remove|].
    exists t. split; [done|]. by apply enabledPart_skip.
Qed.

(** if no data-flow cycle consists of disabled nodes only (and source names
    and types contain no dash), [filterDisabledNodes] succeeds; the result is
    well-formed, its nodes are exactly the enabled ones, and two enabled nodes
    are connected by a data-flow path in it exactly if they were before. *)
Theorem filterDisabledNodes_bridges g :
  wf g → keyableGraph g → noDisabledCycle g →
  ∃ g', filterDisabledNodes g = Ok g' ∧ wf g' ∧
    (∀ m, inGraph g' m ↔ inGraph g m ∧ is_disabled m = false) ∧
    (∀ a b, is_disabled a = false → is_disabled b = false →
       rtc (mainEdge g') a b ↔ rtc (mainEdge g) a b).
Proof.
  intros Hwf Hk Hac. destruct (filterDisabledNodes_spec g) as (g' & Hg' & [Hw _ _ Hn Hr _]); [done..|].
  exists g'. split_and!; [done|done| |done].
  intros m. rewrite Hn. split; intros [Hm Hd]; (split; [done|]).
  - destruct (is_disabled m); [|done]. destruct Hd. split; [|done]. by apply inGraph_elem_of.
  - intros [_ ?]. congruence.
Qed.

#[global] Instance keyable_dec c : Decision (keyable c).
Proof. unfold keyable. apply _. Defined.

Lemma keyableGraph_Forall g : Forall keyable ((connections g).*2) → keyableGraph g.
Proof. rewrite Forall_forall. done. Qed.

Lemma diamond_noDisabledCycle : noDisabledCycle diamond.
Proof.
  assert (∀ x y, ¬ disabledEdge diamond x y) as Hno.
  { intros x y [(c & Hc & _ & <- & <-) [Hx Hy]]. revert Hx Hy.
    assert (Forall (λ c, is_disabled (gc_from c) && is_disabled (gc_to c) = false)
      ((connections diamond).*2)) as HF by by_eval.
    rewrite Forall_forall in HF. specialize (HF c Hc). intros Hx Hy. rewrite Hx, Hy in HF. discriminate. }
  intros n Hn. destruct Hn as [? ? He|? ? ? He]; exact (Hno _ _ He).
Qed.

Lemma filterDisabledNodes_bridges_witness :
  ∃ g', filterDisabledNodes diamond = Ok g' ∧ wf g' ∧
    (∀ m, inGraph g' m ↔ inGraph diamond m ∧ is_disabled m = false) ∧
    (∀ a b, is_disabled a = false → is_disabled b = false →
       rtc (mainEdge g') a b ↔ rtc (mainEdge diamond) a b).
Proof.
  apply filterDisabledNodes_bridges.
  - apply diamond_wf.
  - apply keyableGraph_Forall. by_eval.
  - apply diamond_noDisabledCycle.
Defined.

(** the restriction on disabled nodes is needed: if two disabled nodes feed
    each other, [filterDisabledNodes] returns a graph in which a connection
    still leads out of a removed node, so that the next traversal that follows
    it fails an assertion. *)
Theorem filterDisabledNodes_disabled_cycle :
  let a := mkNode 0 "A" "t" None in
  let b := mkNode 1 "B" "t" (Some true) in
  let c := mkNode 2 "C" "t" (Some true) in
  let d := mkNode 3 "D" "t" None in
  let g := mkGraph [a; b; c; d]
    [mkConn a b "main" 0 0; mkConn b c "main" 0 0; mkConn c b "main" 0 0; mkConn c d "main" 0 0] in
  wf g ∧
  ∃ g', filterDisabledNodes g = Ok g' ∧ ¬ wf g' ∧
        getParentConnections g' d = Throw AssertionError.
Proof.
  intros a b c d g. split; [by_eval|]. eexists. split; [vm_compute; reflexivity|].
  split; [by_eval|vm_compute; reflexivity].
Qed.
