(* ===== verification/RunData.v ===== *)
(** * Run data of a partial execution

    [get-incoming-data.ts], [clean-run-data.ts], [run-data-utils.ts] and the
    [isDirty] test of [find-start-nodes.ts], all of
    [packages/core/src/execution-engine/partial-execution-utils]. *)

From S2P Require Import Prelude JsCollections NodeTypes DirectedGraph Fixtures GraphSearch.

(** ** Reading run data *)

(** [runData[nodeName]?.at(runIndex)?.data?.[connectionType].at(outputIndex) ?? null]:
    the last index access is not optional, so a task whose data lacks the
    connection type is a [TypeError]. *)
Definition getIncomingData (runData : IRunData) (nodeName : string) (runIndex : Z)
    (connectionType : NodeConnectionType) (outputIndex : Z) : res (option (list INodeExecutionData)) :=
  match obj_get nodeName runData with
  | None => Ok None
  | Some tasks =>
      match at_ tasks runIndex with
      | None => Ok None
      | Some task =>
          match task_data task with
          | None => Ok None
          | Some data =>
              outputs ← deref (obj_get connectionType data);
              Ok (match at_ outputs outputIndex with
                  | Some (Val items) => Some items
                  | _ => None
                  end)
          end
      end
  end.

Definition getRunIndexLength (runData : IRunData) (nodeName : string) : nat :=
  match obj_get nodeName runData with Some tasks => length tasks | None => 0 end.

(** The [for] loop of [getIncomingDataFromAnyRun], from run [runIndex] on for
    [count] more runs. *)
Fixpoint incomingDataFrom (runData : IRunData) (nodeName : string)
    (connectionType : NodeConnectionType) (outputIndex : Z) (runIndex count : nat)
    : res (option (list INodeExecutionData * nat)) :=
  match count with
  | 0 => Ok None
  | S count =>
      data ← getIncomingData runData nodeName (Z.of_nat runIndex) connectionType outputIndex;
      match data with
      | Some (item :: items) => Ok (Some (item :: items, runIndex))
      | _ => incomingDataFrom runData nodeName connectionType outputIndex (S runIndex) count
      end
  end.

Definition getIncomingDataFromAnyRun (runData : IRunData) (nodeName : string)
    (connectionType : NodeConnectionType) (outputIndex : Z)
    : res (option (list INodeExecutionData * nat)) :=
  incomingDataFrom runData nodeName connectionType outputIndex 0 (getRunIndexLength runData nodeName).

(** A node is dirty if one of its runs failed, or if it has neither pinned nor
    run data. *)
Definition isDirty (node : INode) (runData : IRunData) (pinData : IPinData) : bool :=
  let hasAnError :=
    match obj_get (node_name node) runData with
    | Some tasks => existsb (λ taskData, bool_decide (is_Some (task_error taskData))) tasks
    | None => false
    end in
  if hasAnError then true
  else if obj_has (node_name node) pinData then false
  else if obj_has (node_name node) runData then false
  else true.

(** ** Cleaning run data *)

(** The body of the outer loop: deletes the data of [nodeToClean], of its
    children, and of the sub-nodes found upstream of each of them. *)
Definition cleanSubNodes (graph : DirectedGraph) (runData : IRunData) (node : INode) : res IRunData :=
  let runData := obj_delete (node_name node) runData in
  subNodeConnections ← getParentConnections graph node;
  Ok (foldl (λ runData subNodeConnection,
        if bool_decide (gc_type subNodeConnection = NodeConnectionTypes.Main) then runData
        else obj_delete (node_name (gc_from subNodeConnection)) runData) runData subNodeConnections).

Definition cleanNode (graph : DirectedGraph) (runData : IRunData) (nodeToClean : INode) : res IRunData :=
  let runData := obj_delete (node_name nodeToClean) runData in
  children ← getChildren graph nodeToClean;
  foldM (cleanSubNodes graph) runData (nodeToClean :: children).

Definition cleanRunData (runData : IRunData) (graph : DirectedGraph) (nodesToClean : jsset INode)
    : res IRunData :=
  newRunData ← foldM (cleanNode graph) runData nodesToClean;
  Ok (foldl (λ newRunData nodeName,
        if hasNode graph nodeName then newRunData else obj_delete nodeName newRunData)
        newRunData (newRunData.*1)).

(** ** The next execution index *)

(** [Math.max(...l) + 1], 0 for an empty [l] *)
Definition nextIndex (l : list Z) : Z :=
  match l with
  | [] => 0%Z
  | x :: l => (foldl Z.max x l + 1)%Z
  end.

Definition getNextExecutionIndex (runData : IRunData) : Z :=
  nextIndex (omap task_executionIndex (mjoin (runData.*2))).

(** ** Properties of the readers *)

Lemma incomingDataFrom_first runData name ty out i n r :
  incomingDataFrom runData name ty out i n = Ok r →
  match r with
  | Some (items, k) =>
      i ≤ k < i + n ∧ items ≠ [] ∧
      getIncomingData runData name (Z.of_nat k) ty out = Ok (Some items) ∧
      ∀ j, i ≤ j < k → ∃ d, getIncomingData runData name (Z.of_nat j) ty out = Ok d ∧ default [] d = []
  | None =>
      ∀ j, i ≤ j < i + n → ∃ d, getIncomingData runData name (Z.of_nat j) ty out = Ok d ∧ default [] d = []
  end.
Proof.
  revert i. induction n as [|n IH]; intros i; simpl; intros Hr; res_simpl; [intros; lia|].
  destruct a as [[|x items]|]; res_simpl; [|split_and!; try lia; try done; intros; lia|];
    specialize (IH (S i) Hr); destruct r as [[its k]|].
  1,3: destruct IH as (? & ? & ? & Hj); split_and!; [lia|lia|done|done|];
       intros j ?; destruct (decide (j = i)) as [->|]; [by eexists|apply Hj; lia].
  all: intros j ?; destruct (decide (j = i)) as [->|]; [by eexists|apply IH; lia].
Qed.

(** when [getIncomingDataFromAnyRun] returns data it is the non-empty data
    of the first run that has any at that output, together with that run's
    index; when it returns nothing no run has any. *)
Theorem getIncomingDataFromAnyRun_first_nonempty runData name ty out r :
  getIncomingDataFromAnyRun runData name ty out = Ok r →
  match r with
  | Some (items, k) =>
      k < getRunIndexLength runData name ∧ items ≠ [] ∧
      getIncomingData runData name (Z.of_nat k) ty out = Ok (Some items) ∧
      ∀ j, j < k → ∃ d, getIncomingData runData name (Z.of_nat j) ty out = Ok d ∧ default [] d = []
  | None =>
      ∀ j, j < getRunIndexLength runData name →
        ∃ d, getIncomingData runData name (Z.of_nat j) ty out = Ok d ∧ default [] d = []
  end.
Proof.
  intros H%incomingDataFrom_first. destruct r as [[items k]|].
  - destruct H as (? & ? & ? & Hj). split_and!; [lia|done|done|]. intros; apply Hj; lia.
  - intros; apply H; lia.
Qed.

Lemma foldl_max_le x l : (x ≤ foldl Z.max x l)%Z ∧ ∀ y, y ∈ l → (y ≤ foldl Z.max x l)%Z.
Proof.
  revert x; induction l as [|z l IH]; intros x; simpl; [split; [lia|set_solver]|].
  destruct (IH (Z.max x z)) as [H1 H2]. split; [lia|].
  intros y [->|?]%elem_of_cons; [lia|auto].
Qed.

(** the next execution index is larger than the index of every task in the
    run data. *)
Theorem getNextExecutionIndex_fresh runData name tasks task i :
  (name, tasks) ∈ runData → task ∈ tasks → task_executionIndex task = Some i →
  (i < getNextExecutionIndex runData)%Z.
Proof.
  intros Hn Ht Hi. unfold getNextExecutionIndex.
  assert (i ∈ omap task_executionIndex (mjoin (runData.*2))) as Hin.
  { apply list_elem_of_omap. exists task. split; [|done]. apply list_elem_of_join.
    exists tasks. split; [done|]. apply elem_of_values. eauto. }
  destruct (omap _ _) as [|x l]; [set_solver|]. simpl.
  destruct (foldl_max_le x l) as [? Hl]. apply elem_of_cons in Hin as [->|Hin]; [lia|].
  specialize (Hl i Hin). lia.
Qed.

(** A task with one output carrying [items]. *)
Definition mkTask (index : Z) (items : list INodeExecutionData) : ITaskData :=
  {| task_startTime := 0; task_executionIndex := Some index; task_source := [];
     task_executionTime := 0; task_executionStatus := Some "success";
     task_data := Some [("main", [Val items])]; task_inputOverride := None; task_error := None;
     task_metadata := None; task_rest := [] |}.

Definition sampleRunData : IRunData :=
  [("A", [mkTask 0 []; mkTask 1 [empty_item]]); ("B", [mkTask 2 [empty_item]])].

Lemma getIncomingDataFromAnyRun_first_nonempty_witness :
  1 < getRunIndexLength sampleRunData "A" ∧ [empty_item] ≠ [] ∧
  getIncomingData sampleRunData "A" (Z.of_nat 1) "main" 0 = Ok (Some [empty_item]) ∧
  ∀ j, j < 1 → ∃ d, getIncomingData sampleRunData "A" (Z.of_nat j) "main" 0 = Ok d ∧ default [] d = [].
Proof.
  apply (getIncomingDataFromAnyRun_first_nonempty sampleRunData "A" "main" 0
    (Some ([empty_item], 1))). reflexivity.
Defined.

Lemma getNextExecutionIndex_fresh_witness : (1 < getNextExecutionIndex sampleRunData)%Z.
Proof.
  apply (getNextExecutionIndex_fresh sampleRunData "A" [mkTask 0 []; mkTask 1 [empty_item]]
    (mkTask 1 [empty_item]) 1); [by left|right; by left|reflexivity].
Defined.

(** ** What [cleanRunData] removes *)

(** [r'] is [r] without the entries whose name satisfies [X]. *)
Definition removes (X : string → Prop) (r r' : IRunData) : Prop :=
  ∀ name d, obj_get name r' = Some d ↔ obj_get name r = Some d ∧ ¬ X name.

Lemma removes_refl r : removes (λ _, False) r r.
Proof. intros name d. tauto. Qed.

Lemma removes_trans X Y r r1 r2 :
  removes X r r1 → removes Y r1 r2 → removes (λ n, X n ∨ Y n) r r2.
Proof. intros H1 H2 name d. rewrite (H2 name d), (H1 name d). tauto. Qed.

Lemma removes_iff X Y r r' : (∀ n, X n ↔ Y n) → removes X r r' → removes Y r r'.
Proof. intros HXY H name d. rewrite (H name d), HXY. done. Qed.

Lemma removes_delete k r : removes (λ n, n = k) r (obj_delete k r).
Proof.
  intros name d. rewrite obj_get_delete. case_bools; naive_solver.
Qed.

(** A loop that deletes the entries [f] selects. *)
Lemma removes_foldl {A} (p : A → bool) (f : A → string) r (l : list A) :
  removes (λ n, ∃ x, x ∈ l ∧ p x = true ∧ n = f x) r
    (foldl (λ r x, if p x then obj_delete (f x) r else r) r l).
Proof.
  revert r; induction l as [|x l IH]; intros r; simpl.
  { eapply removes_iff; [|apply removes_refl]. set_solver. }
  eapply removes_iff; [|eapply (removes_trans (λ n, p x = true ∧ n = f x)); [|apply IH]].
  - intros n. split.
    + intros [[? ->]|(y & ? & ? & ->)]; [by exists x; set_solver|exists y; set_solver].
    + intros (y & [->|Hy]%elem_of_cons & ? & ->); [by left|right; eauto].
  - destruct (p x); simpl.
    + eapply removes_iff; [|apply removes_delete]. naive_solver.
    + eapply removes_iff; [|apply removes_refl]. naive_solver.
Qed.

(** The name of [m], or of a sub-node attached at or upstream of [m]. *)
Definition cleanedWith (g : DirectedGraph) (m : INode) (name : string) : Prop :=
  name = node_name m ∨
  ∃ c, c ∈ (connections g).*2 ∧ gc_type c ≠ NodeConnectionTypes.Main ∧
       rtc (edge g) (gc_to c) m ∧ name = node_name (gc_from c).

Lemma cleanSubNodes_spec g r m :
  wf g → inGraph g m →
  ∃ r', cleanSubNodes g r m = Ok r' ∧ removes (cleanedWith g m) r r'.
Proof.
  intros Hwf Hm. destruct (getParentConnections_spec g m Hwf Hm) as (cs & Hcs & _ & Hin).
  unfold cleanSubNodes. rewrite Hcs. cbn [mbind res_bind]. eexists. split; [done|].
  eapply removes_iff; [|eapply removes_trans; [apply removes_delete|]].
  2:{ rewrite (foldl_ext' _ (λ r c, if negb (bool_decide (gc_type c = NodeConnectionTypes.Main))
        then obj_delete (node_name (gc_from c)) r else r)); [apply removes_foldl|].
      intros x y. by case_bools. }
  intros n. unfold cleanedWith. apply or_iff_compat_l. split.
  - intros (c & Hc & Ht & ->). exists c. apply Hin in Hc as [? ?].
    apply negb_true_iff, bool_decide_eq_false in Ht. done.
  - intros (c & Hc & Ht & Hr & ->). exists c. split; [by apply Hin|]. split; [|done].
    by apply negb_true_iff, bool_decide_eq_false.
Qed.

(** A name is cleaned because of [n] if it belongs to a node reachable from [n]
    (possibly [n]) or to a sub-node attached upstream of such a node. *)
Definition cleanedBy (g : DirectedGraph) (n : INode) (name : string) : Prop :=
  ∃ m, rtc (edge g) n m ∧ cleanedWith g m name.

Lemma reachable_inGraph g n m : wf g → inGraph g n → rtc (edge g) n m → inGraph g m.
Proof.
  intros Hwf Hn. apply (rtc_ind_r (inGraph g) n); [done|].
  intros a b _ Hab _. by apply edge_inGraph in Hab as [_ ?].
Qed.

(** A loop whose body removes [X x] for each element [x]. *)
Lemma removes_foldM {A} (f : IRunData → A → res IRunData) (X : A → string → Prop) r l :
  (∀ r x, x ∈ l → ∃ r', f r x = Ok r' ∧ removes (X x) r r') →
  ∃ r', foldM f r l = Ok r' ∧ removes (λ n, ∃ x, x ∈ l ∧ X x n) r r'.
Proof.
  intros Hf. apply (foldM_total f (λ pre r', removes (λ n, ∃ x, x ∈ pre ∧ X x n) r r')).
  - eapply removes_iff; [|apply removes_refl]. set_solver.
  - intros pre x t Ht Hx. destruct (Hf t x Hx) as (t' & Ht' & Hrem). exists t'. split; [done|].
    eapply removes_iff; [|by eapply removes_trans]. intros n. split.
    + intros [(y & ? & ?)|?]; [exists y|exists x]; set_solver.
    + intros (y & [?| ->]%elem_of_snoc & ?); [left; eauto|by right].
Qed.

Lemma cleanNode_spec g r n :
  wf g → inGraph g n → ∃ r', cleanNode g r n = Ok r' ∧ removes (cleanedBy g n) r r'.
Proof.
  intros Hwf Hn. destruct (getChildren_spec g n Hwf Hn) as (cs & Hcs & _ & Hin).
  assert (∀ m, m ∈ n :: cs ↔ rtc (edge g) n m) as Hreach.
  { intros m. rewrite elem_of_cons, Hin, rtc_tc. naive_solver. }
  unfold cleanNode. rewrite Hcs. cbn [mbind res_bind].
  destruct (removes_foldM (cleanSubNodes g) (cleanedWith g) (obj_delete (node_name n) r) (n :: cs))
    as (r' & Hr' & Hrem).
  { intros t m Hm. apply cleanSubNodes_spec; [done|]. apply Hreach in Hm.
    by eapply reachable_inGraph. }
  exists r'. split; [done|].
  eapply removes_iff; [|eapply removes_trans; [apply removes_delete|exact Hrem]].
  intros name. unfold cleanedBy. setoid_rewrite Hreach. split; [|by right].
  intros [->|?]; [|done]. exists n. split; [done|]. by left.
Qed.

Lemma cleanRunData_spec g r ns :
  wf g → (∀ n, n ∈ ns → inGraph g n) →
  ∃ r', cleanRunData r g ns = Ok r' ∧
    removes (λ name, hasNode g name = false ∨ ∃ n, n ∈ ns ∧ cleanedBy g n name) r r'.
Proof.
  intros Hwf Hns. unfold cleanRunData.
  destruct (removes_foldM (cleanNode g) (cleanedBy g) r ns) as (r1 & Hr1 & Hrem);
    [intros; by apply cleanNode_spec; auto|].
  rewrite Hr1. cbn [mbind res_bind]. eexists. split; [done|].
  rewrite (foldl_ext' _ (λ r x, if negb (hasNode g x) then obj_delete x r else r));
    [|intros x y; by destruct (hasNode g y)].
  pose proof (removes_foldl (λ x, negb (hasNode g x)) id r1 (r1.*1)) as Hlast.
  intros name d. rewrite (Hlast name d), (Hrem name d).
  split; [intros [[? Hn] Hno]|intros [? Hn]].
  - split; [done|]. intros [Hh|?]; [|tauto]. apply Hno. exists name.
    split; [|by rewrite Hh].
    assert (obj_get name r1 = Some d) as Hg by (by apply Hrem).
    apply map_get_elem_of in Hg. apply list_elem_of_fmap. by exists (name, d).
  - split; [split; [done|tauto]|]. intros (x & _ & Hx & ->). apply negb_true_iff in Hx. tauto.
Qed.

(** cleaning terminates, and the result has the entry of a name exactly if
    the run data had it, the name is a node of the graph, and the name belongs
    neither to a node reachable from a cleaned node (the node included) nor to a
    sub-node attached at or upstream of such a node. *)
Theorem cleanRunData_removes g r ns :
  wf g → (∀ n, n ∈ ns → inGraph g n) →
  ∃ r', cleanRunData r g ns = Ok r' ∧
    ∀ name d, obj_get name r' = Some d ↔
      obj_get name r = Some d ∧ hasNode g name = true ∧ ¬ ∃ n, n ∈ ns ∧ cleanedBy g n name.
Proof.
  intros Hwf Hns. destruct (cleanRunData_spec g r ns Hwf Hns) as (r' & Hr' & Hrem).
  exists r'. split; [done|]. intros name d. rewrite (Hrem name d).
  destruct (hasNode g name); naive_solver.
Qed.

Lemma cleanRunData_removes_witness :
  ∃ r', cleanRunData sampleRunData loop [nodeD] = Ok r' ∧
    ∀ name d, obj_get name r' = Some d ↔
      obj_get name sampleRunData = Some d ∧ hasNode loop name = true ∧
      ¬ ∃ n, n ∈ [nodeD] ∧ cleanedBy loop n name.
Proof.
  apply cleanRunData_removes; [apply loop_wf|].
  intros n Hn. apply list_elem_of_singleton in Hn as ->. reflexivity.
Defined.

(** the sub-nodes of nodes upstream of a cleaned node lose their data too:
    with the tool [T] attached to [B] and the data flow [A -> B -> D], cleaning
    [D] removes the run data of [T] although neither [T] nor [B] comes after
    [D]. *)
Theorem cleanRunData_upstream_subnode :
  let g := mkGraph [nodeA; nodeB; nodeD; nodeT]
    [mkConn nodeA nodeB "main" 0 0; mkConn nodeB nodeD "main" 0 0; mkConn nodeT nodeB "ai_tool" 0 0] in
  let r : IRunData := [("A", [mkTask 0 [empty_item]]); ("B", [mkTask 1 [empty_item]]);
                       ("T", [mkTask 2 [empty_item]]); ("D", [mkTask 3 [empty_item]])] in
  wf g ∧ ¬ rtc (edge g) nodeD nodeT ∧ ¬ rtc (edge g) nodeD nodeB ∧
  cleanRunData r g [nodeD] = Ok [("A", [mkTask 0 [empty_item]]); ("B", [mkTask 1 [empty_item]])].
Proof.
  intros g r. split; [by_eval|].
  assert (∀ m, ¬ edge g nodeD m) as Hno.
  { intros m (c & Hc & Hf & _).
    assert (Forall (λ c, gc_from c ≠ nodeD) ((connections g).*2)) as HF by by_eval.
    rewrite Forall_forall in HF. by apply (HF c). }
  split_and!; [..|vm_compute; reflexivity].
  - intros H. apply rtc_inv in H as [H|(y & Hy & _)]; [discriminate H|exact (Hno y Hy)].
  - intros H. apply rtc_inv in H as [H|(y & Hy & _)]; [discriminate H|exact (Hno y Hy)].
Qed.
