(* ===== verification/StartNodes.v ===== *)
(** * The start nodes of a partial execution

    Model of [partial-execution-utils/find-start-nodes.ts]: the search from the
    trigger for the earliest nodes that must be (re-)executed, and the proof
    that it computes the frontier of the clean part of the graph. *)

From S2P Require Import Prelude JsCollections NodeTypes DirectedGraph Fixtures GraphSearch RunData.

Definition isALoop (graph : DirectedGraph) (node : INode) : res bool :=
  set_has node <$> getChildren graph node.

(** The loop node test: the [done] output (output 0, or 1 when the node is not
    on a cycle) has no data on the last run. *)
Definition loopNotFinished (graph : DirectedGraph) (runData : IRunData) (current : INode) : res bool :=
  if bool_decide (node_type current = "n8n-nodes-base.splitInBatches") then
    inLoop ← isALoop graph current;
    nodeRunData ← getIncomingData runData (node_name current) (-1) NodeConnectionTypes.Main
                    (if inLoop : bool then 0 else 1)%Z;
    Ok (bool_decide (default [] nodeRunData = []))
  else Ok false.

(** Whether the search follows a connection: its source is pinned, or its
    output has data in some run. *)
Definition followsConnection (runData : IRunData) (pinData : IPinData) (c : GraphConnection) : res bool :=
  nodeRunData ← getIncomingDataFromAnyRun runData (node_name (gc_from c)) (gc_type c)
                  (Z.of_nat (gc_outputIndex c));
  let hasNoRunData := match nodeRunData with Some (data, _) => bool_decide (data = []) | None => true end in
  let hasNoPinnedData := negb (obj_has (node_name (gc_from c)) pinData) in
  Ok (negb (hasNoRunData && hasNoPinnedData)).

Fixpoint findStartNodesRecursive (fuel : nat) (graph : DirectedGraph) (current destination : INode)
    (runData : IRunData) (pinData : IPinData) (startNodes seen : jsset INode) : res (jsset INode) :=
  match fuel with
  | 0 => OutOfFuel
  | S fuel =>
      if isDirty current runData pinData then Ok (set_add current startNodes) else
      if bool_decide (current = destination) then Ok (set_add current startNodes) else
      unfinished ← loopNotFinished graph runData current;
      if unfinished : bool then Ok (set_add current startNodes) else
      if set_has current seen then Ok startNodes else
      outGoingConnections ← getDirectChildConnections graph current;
      foldM (λ startNodes outGoingConnection,
        follow ← followsConnection runData pinData outGoingConnection;
        if follow : bool then
          findStartNodesRecursive fuel graph (gc_to outGoingConnection) destination runData pinData
            startNodes (set_add current seen)
        else Ok startNodes) startNodes outGoingConnections
  end.

Definition findStartNodes (graph : DirectedGraph) (trigger destination : INode) (pinData : IPinData)
    (runData : IRunData) : res (jsset INode) :=
  findStartNodesRecursive (S (S (length (nodes graph)))) graph trigger destination runData pinData [] [].

(** ** The frontier *)

Section frontier.
Context (g : DirectedGraph) (destination : INode) (runData : IRunData) (pinData : IPinData).
Context (Hwf : wf g).

(** A node the search stops at. *)
Definition isStart (n : INode) : Prop :=
  isDirty n runData pinData = true ∨ n = destination ∨ loopNotFinished g runData n = Ok true.

(** A step of the search: from a node it does not stop at along a connection
    it follows. *)
Definition followed (a b : INode) : Prop :=
  ¬ isStart a ∧ ∃ c, c ∈ (connections g).*2 ∧ gc_from c = a ∧ gc_to c = b ∧
    followsConnection runData pinData c = Ok true.

(** Run data is readable if the data of every task has an entry for the types
    of the outgoing connections of its node, and for [main] at loop nodes. *)
Record readable : Prop := {
  readable_follow : ∀ c, c ∈ (connections g).*2 → is_ok (followsConnection runData pinData c);
  readable_loop : ∀ n, inGraph g n → is_ok (loopNotFinished g runData n);
}.
Hypothesis Hread : readable.

Lemma isStart_cases n :
  inGraph g n →
  (isStart n ∧ ∀ fuel starts seen,
     findStartNodesRecursive (S fuel) g n destination runData pinData starts seen =
     Ok (set_add n starts)) ∨
  (¬ isStart n ∧ ∀ fuel starts seen,
     findStartNodesRecursive (S fuel) g n destination runData pinData starts seen =
     if set_has n seen then Ok starts else
     outGoingConnections ← getDirectChildConnections g n;
     foldM (λ startNodes outGoingConnection,
        follow ← followsConnection runData pinData outGoingConnection;
        if follow : bool then
          findStartNodesRecursive fuel g (gc_to outGoingConnection) destination runData pinData
            startNodes (set_add n seen)
        else Ok startNodes) starts outGoingConnections).
Proof.
  intros Hn. unfold isStart. cbn [findStartNodesRecursive].
  destruct (readable_loop Hread n Hn) as [b Hb]. rewrite Hb.
  destruct (isDirty n runData pinData); [left; split; [by left|done]|].
  destruct (bool_decide_reflect (n = destination)) as [->|Hne]; [left; split; [by right; left|done]|].
  destruct b; cbn [mbind res_bind].
  - left. split; [by right; right|done].
  - right. split; [|done]. intros [?|[?|?]]; congruence.
Qed.

(** Steps that avoid given source nodes. *)
Definition followedAvoiding (seen : list INode) (a b : INode) : Prop := followed a b ∧ a ∉ seen.

(** The rest of a path after its last visit to [a]. *)
Lemma last_visit seen a x n :
  rtc (followedAvoiding seen) x n →
  rtc (followedAvoiding (seen ++ [a])) x n ∨
  ∃ b, followed a b ∧ rtc (followedAvoiding (seen ++ [a])) b n.
Proof.
  induction 1 as [x|x y n [Hxy Hx] _ [IH|IH]]; [by left| |by right].
  destruct (decide (x = a)) as [->|Hne]; [by right; eauto|].
  left. eapply rtc_l; [|done]. split; [done|]. set_solver.
Qed.

(** What a call adds: only start nodes reached by followed steps, and all of
    those reachable without passing through [seen]. *)
Record foundFrom (cur : INode) (seen starts starts' : list INode) : Prop := {
  ff_mono : starts ⊆ starts';
  ff_sound : ∀ n, n ∈ starts' → n ∈ starts ∨ (isStart n ∧ rtc followed cur n);
  ff_complete : ∀ n, isStart n → rtc (followedAvoiding seen) cur n → n ∈ starts';
}.

(** What a search with this fuel finds *)
Definition startSpec (fuel : nat) : Prop :=
  ∀ cur seen starts,
  inGraph g cur → NoDup seen → seen ⊆ (nodes g).*2 → length (nodes g) < fuel + length seen →
  ∃ starts',
    findStartNodesRecursive (S fuel) g cur destination runData pinData starts seen = Ok starts' ∧
    foundFrom cur seen starts starts'.

(** The start nodes found through the connections [pre] of [cur] *)
Definition foundThrough (cur : INode) (seen starts : list INode) (pre : list GraphConnection) (t : list INode) : Prop :=
  starts ⊆ t ∧
  (∀ n, n ∈ t → n ∈ starts ∨ (isStart n ∧ rtc followed cur n)) ∧
  (∀ c n, c ∈ pre → followsConnection runData pinData c = Ok true →
     isStart n → rtc (followedAvoiding seen) (gc_to c) n → n ∈ t).

(** The iteration for one connection *)
Lemma outgoing_step fuel cur seen starts pre c t :
  startSpec fuel → ¬ isStart cur → cur ∈ (nodes g).*2 → NoDup seen → seen ⊆ (nodes g).*2 → cur ∉ seen →
  length (nodes g) < S fuel + length seen → foundThrough cur (seen ++ [cur]) starts pre t →
  gc_from c = cur → c ∈ (connections g).*2 →
  ∃ t', (follow ← followsConnection runData pinData c;
         if follow : bool then
           findStartNodesRecursive (S fuel) g (gc_to c) destination runData pinData t (seen ++ [cur])
         else Ok t) = Ok t' ∧
    foundThrough cur (seen ++ [cur]) starts (pre ++ [c]) t'.
Proof.
  intros IH Hs HcurU Hnd HU Hnin Hf (Hm & Hso & Hco) Hcf Hc.
  destruct (readable_follow Hread c Hc) as [b Hb]. rewrite Hb. cbn [mbind res_bind].
  destruct b.
  - destruct (IH (gc_to c) (seen ++ [cur]) t) as (t' & Ht' & [Hm' Hso' Hco']);
      [eauto with n8n|by apply NoDup_snoc|set_solver|rewrite length_app; simpl; lia|].
    exists t'. split; [exact Ht'|]. split_and!; [set_solver| |].
    + intros n [?|[? Hr]]%Hso'; [auto|]. right. split; [done|].
      eapply rtc_l; [|exact Hr]. split; [done|]. by exists c.
    + intros e n [He| ->]%elem_of_snoc Hfd Hn Hr; [apply Hm'; by eapply Hco|by apply Hco'].
  - exists t. split; [done|]. split_and!; [done|done|].
    intros e n [He| ->]%elem_of_snoc Hfd Hn Hr; [by eapply Hco|congruence].
Qed.

Lemma findStartNodesRecursive_spec fuel : startSpec fuel.
Proof.
  induction fuel as [|fuel IH]; intros cur seen starts Hcur Hnd HU Hf.
  { pose proof (NoDup_incl_length _ _ Hnd HU) as Hl. rewrite length_fmap in Hl. lia. }
  destruct (isStart_cases cur Hcur) as [[Hs Heq]|[Hs Heq]]; rewrite Heq; clear Heq.
  { exists (set_add cur starts). split; [done|]. split.
    - intros x ?. apply elem_of_set_add. by right.
    - intros n [->|?]%elem_of_set_add; [right; split; [done|apply rtc_refl]|by left].
    - intros n _ Hr. apply elem_of_set_add. apply rtc_inv in Hr as [->|(y & [[Hns _] _] & _)]; [by left|].
      by destruct Hns. }
  unfold set_has. destruct (bool_decide_reflect (cur ∈ seen)) as [Hin|Hnin].
  { exists starts. split; [done|]. split; [set_solver|by left|].
    intros n Hn Hr. apply rtc_inv in Hr as [->|(y & [_ Hns] & _)]; [by destruct Hs|by destruct Hns]. }
  assert (set_add cur seen = seen ++ [cur]) as Hadd.
  { unfold set_add, set_has. by rewrite bool_decide_false. }
  rewrite Hadd. rewrite (proj2 (childConnections_ok g cur _) (conj Hcur eq_refl)). cbn [mbind res_bind].
  set (cs := filter (λ c, gc_from c = cur) ((connections g).*2)).
  assert (cur ∈ (nodes g).*2) by (by apply inGraph_elem_of).
  match goal with |- context [foldM ?f _ _] =>
    destruct (foldM_total f (foundThrough cur (seen ++ [cur]) starts) starts cs) as (t & Ht & Hm & Hso & Hco) end.
  - split_and!; [done|by left|set_solver].
  - intros pre c t HP Hc. apply list_elem_of_filter in Hc as [Hcf Hc]. by apply outgoing_step.
  - exists t. split; [exact Ht|]. split; [done|done|].
    intros n Hn Hr.
    assert (∃ b, followed cur b ∧ rtc (followedAvoiding (seen ++ [cur])) b n) as (b & Hb & Hbn).
    { destruct (last_visit _ cur _ _ Hr) as [Hr'|?]; [|done].
      apply rtc_inv in Hr' as [->|(y & [_ Hy] & _)]; [by destruct Hs|set_solver]. }
    destruct Hb as [_ (c & Hc & Hcf & <- & Hfc)]. eapply Hco; [|done|done|done].
    by apply list_elem_of_filter.
Qed.

Lemma findStartNodesRecursive_NoDup fuel cur seen starts starts' :
  findStartNodesRecursive fuel g cur destination runData pinData starts seen = Ok starts' →
  NoDup starts → NoDup starts'.
Proof using.
  revert cur seen starts starts'. induction fuel as [|fuel IH]; intros cur seen starts starts' He Hnd; [done|].
  cbn [findStartNodesRecursive] in He.
  destruct (isDirty cur runData pinData); [simplify_eq; by apply set_add_NoDup|].
  destruct (bool_decide (cur = destination)); [simplify_eq; by apply set_add_NoDup|].
  destruct (loopNotFinished g runData cur) as [[]| |]; simplify_eq/=; [by apply set_add_NoDup|].
  destruct (set_has cur seen); [by simplify_eq|].
  destruct (getDirectChildConnections g cur) as [cs| |]; simplify_eq/=.
  apply (foldM_ind _ (λ _ l, NoDup l)) in He; [done|done|]. intros pre c t t' Ht _ Hstep.
  destruct (followsConnection runData pinData c) as [[]| |]; simplify_eq/=; [by eapply IH|done].
Qed.

Lemma findStartNodes_spec trigger :
  inGraph g trigger →
  ∃ s, findStartNodes g trigger destination pinData runData = Ok s ∧
    ∀ n, n ∈ s ↔ isStart n ∧ rtc followed trigger n.
Proof.
  intros Ht. unfold findStartNodes.
  destruct (findStartNodesRecursive_spec (S (length (nodes g))) trigger [] [])
    as (s & Hs & [_ Hso Hco]); [done|constructor|set_solver|simpl; lia|].
  exists s. split; [done|]. intros n. split.
  - intros [?|?]%Hso; [set_solver|done].
  - intros [Hn Hr]. apply Hco; [done|]. eapply rtc_subrel; [|exact Hr].
    intros a b Hab. split; [done|]. apply not_elem_of_nil.
Qed.
End frontier.

(** on readable run data the search for start nodes terminates and returns
    exactly the frontier of the clean part of the graph: the nodes that are
    dirty, the destination, or an unfinished loop, and that the trigger reaches
    through clean nodes along connections that carried data. *)
Theorem findStartNodes_frontier g trigger destination runData pinData :
  wf g → inGraph g trigger → readable g runData pinData →
  ∃ s, findStartNodes g trigger destination pinData runData = Ok s ∧
    ∀ n, n ∈ s ↔ isStart g destination runData pinData n ∧
                 rtc (followed g destination runData pinData) trigger n.
Proof. intros. by apply findStartNodes_spec. Qed.

Lemma readable_Forall g runData pinData :
  wf g →
  Forall (λ c, is_ok (followsConnection runData pinData c)) ((connections g).*2) →
  Forall (λ n, is_ok (loopNotFinished g runData n)) ((nodes g).*2) →
  readable g runData pinData.
Proof.
  rewrite !Forall_forall. intros Hwf Hc Hn. split; [done|].
  intros n Hin. apply Hn. by apply inGraph_elem_of.
Qed.

Lemma findStartNodes_frontier_witness :
  ∃ s, findStartNodes diamond nodeA nodeD [] sampleRunData = Ok s ∧
    ∀ n, n ∈ s ↔ isStart diamond nodeD sampleRunData [] n ∧
                 rtc (followed diamond nodeD sampleRunData []) nodeA n.
Proof.
  apply findStartNodes_frontier; [apply diamond_wf|reflexivity|].
  apply readable_Forall; [apply diamond_wf|by_eval|by_eval].
Defined.
