(* ===== verification/Components.v ===== *)
(** * Strongly connected components and cycles

    Soundness of [getStronglyConnectedComponents] (the modified Tarjan search
    of [directed-graph.ts]) and the model of [handle-cycles.ts], which moves
    start nodes to the entry of their component. *)

From S2P Require Import Prelude JsCollections NodeTypes DirectedGraph Fixtures GraphSearch.

(** ** [handleCycles] *)

(** The body of the loops over the start nodes and the cycles. *)
Definition handleCycle (graph : DirectedGraph) (trigger startNode : INode)
    (newStartNodes : jsset INode) (cycle : jsset INode) : res (jsset INode) :=
  if set_has startNode cycle then
    firstNode ← depthFirstSearch graph trigger (λ node, set_has node cycle);
    match firstNode with
    | None => Throw AssertionError
    | Some firstNode => Ok (set_add firstNode (set_delete startNode newStartNodes))
    end
  else Ok newStartNodes.

Definition handleCycles (graph : DirectedGraph) (startNodes : jsset INode) (trigger : INode)
    : res (jsset INode) :=
  components ← getStronglyConnectedComponents graph;
  let cycles := filter (λ cycle, 1 ≤ length cycle) components in
  if bool_decide (length cycles = 0) then Ok startNodes else
  foldM (λ newStartNodes startNode,
    foldM (handleCycle graph trigger startNode) newStartNodes cycles) startNodes startNodes.

(** ** The invariant of the component search *)

Definition mutual (g : DirectedGraph) (a b : INode) : Prop :=
  rtc (edge g) a b ∧ rtc (edge g) b a.

Section scc.
Context (g : DirectedGraph).

(** - visited nodes, and only they, have an id and a low link, ids are distinct
      and below the counter;
    - a low link is at most the own id and is the id of a node reachable from
      the node;
    - the stack holds visited nodes, each once;
    - components are non-empty, disjoint from the stack and from each other, and
      their members are mutually reachable. *)
Record sccInv (s : SccState) : Prop := {
  si_visited : ∀ n, n ∈ scc_visited s → inGraph g n;
  si_nodup : NoDup (scc_visited s);
  si_ids : ∀ n, n ∈ scc_visited s ↔ is_Some (map_get n (scc_ids s));
  si_ids_lt : ∀ n i, map_get n (scc_ids s) = Some i → i < scc_id s;
  si_ids_inj : ∀ n m i, map_get n (scc_ids s) = Some i → map_get m (scc_ids s) = Some i → n = m;
  si_low : ∀ n, n ∈ scc_visited s → ∃ i l m,
    map_get n (scc_ids s) = Some i ∧ map_get n (scc_lowLinkValues s) = Some l ∧ l ≤ i ∧
    map_get m (scc_ids s) = Some l ∧ rtc (edge g) n m;
  si_stack : ∀ n, n ∈ scc_stack s → n ∈ scc_visited s;
  si_stack_nodup : NoDup (scc_stack s);
  si_disjoint : ∀ i j c d n, scc_components s !! i = Some c → scc_components s !! j = Some d →
    n ∈ c → n ∈ d → i = j;
  si_fresh : ∀ c n, c ∈ scc_components s → n ∈ c → n ∈ scc_visited s ∧ n ∉ scc_stack s;
  si_mutual : ∀ c a b, c ∈ scc_components s → a ∈ c → b ∈ c → mutual g a b;
  si_nonempty : ∀ c, c ∈ scc_components s → c ≠ [] ∧ NoDup c;
}.

Lemma initialSccState_inv : sccInv initialSccState.
Proof.
  clear. split; simpl; try (by constructor); try set_solver; try done.
Qed.

Lemma enterNode_inv s n :
  sccInv s → inGraph g n → n ∉ scc_visited s → sccInv (enterNode s n).
Proof.
  intros [Hv Hnd Hids Hlt Hinj Hlow Hst Hso Hdj Hfr Hmu Hne] Hn Hnv.
  assert (map_get n (scc_ids s) = None) as Hnone.
  { apply eq_None_not_Some. by rewrite <- Hids. }
  split; simpl; try done.
  - intros m [->|?]%elem_of_set_add; auto.
  - by apply set_add_NoDup.
  - intros m. rewrite elem_of_set_add, map_get_set. case_bools; [naive_solver|].
    rewrite Hids. naive_solver.
  - intros m i. rewrite map_get_set. case_bools; [naive_solver|]. intros ?%Hlt. lia.
  - intros m k i. rewrite !map_get_set. case_bools; subst; try done.
    + intros [= <-] ?%Hlt. lia.
    + intros ?%Hlt [= <-]. lia.
    + apply Hinj.
  - intros m Hm. apply elem_of_set_add in Hm as [->|Hm].
    + exists (scc_id s), (scc_id s), n. rewrite !map_get_set_eq. split_and!; [done..|apply rtc_refl].
    + assert (m ≠ n) by congruence.
      destruct (Hlow m Hm) as (i & l & k & Hi & Hl & Hle & Hk & Hr).
      assert (k ≠ n) by congruence.
      exists i, l, k. rewrite !map_get_set_ne by done. done.
  - intros m [->|?]%elem_of_cons; apply elem_of_set_add; [by left|right; auto].
  - apply NoDup_cons. split; [|done]. intros ?%Hst. done.
  - intros c m Hc Hm. destruct (Hfr c m Hc Hm). split; [apply elem_of_set_add; by right|].
    rewrite not_elem_of_cons. split; [congruence|done].
Qed.

(** What a call of [followNode] may change: it keeps ids, extends the visited
    nodes, and leaves on the stack only nodes reachable from [n]. *)
Record sccStep (n : INode) (s s' : SccState) : Prop := {
  ss_inv : sccInv s';
  ss_ids : ∀ m i, map_get m (scc_ids s) = Some i → map_get m (scc_ids s') = Some i;
  ss_visited : scc_visited s ⊆ scc_visited s';
  ss_stack : ∃ ext, scc_stack s' = ext ++ scc_stack s ∧ ∀ x, x ∈ ext → rtc (edge g) n x;
}.

Lemma sccStep_refl n s : sccInv s → sccStep n s s.
Proof. intros. split; [done|done|done|]. exists []. split; [done|set_solver]. Qed.

Lemma sccStep_trans n m s1 s2 s3 :
  rtc (edge g) n m → sccStep n s1 s2 → sccStep m s2 s3 → sccStep n s1 s3.
Proof.
  intros Hnm [_ I1 V1 (e1 & E1 & R1)] [Inv I2 V2 (e2 & E2 & R2)].
  split; [done|by auto|set_solver|]. exists (e2 ++ e1). split; [by rewrite E2, E1, app_assoc|].
  intros x [Hx|Hx]%elem_of_app; [|by apply R1]. etrans; [exact Hnm|by apply R2].
Qed.

Lemma updateLowLink_step s n child :
  sccInv s → n ∈ scc_visited s → edge g n child →
  ∃ s', updateLowLink s n child = Ok s' ∧ sccStep n s s'.
Proof.
  intros Hinv Hn He. unfold updateLowLink, set_has.
  destruct (bool_decide_reflect (child ∈ scc_stack s)) as [Hc|];
    [|exists s; split; [done|by apply sccStep_refl]].
  destruct (si_low s Hinv n Hn) as (i & l & m & Hi & Hl & Hle & Hm & Hr).
  destruct (si_low s Hinv child (si_stack s Hinv child Hc)) as (ic & lc & mc & Hic & Hlc & Hlec & Hmc & Hrc).
  rewrite Hlc, Hl. eexists. split; [done|].
  split; [|done|done|exists []; split; [done|set_solver]].
  destruct Hinv as [Hv Hnd Hids Hlt Hinj Hlow Hst Hso Hdj Hfr Hmu Hne]. split; simpl; try done.
  intros k Hk. rewrite map_get_set. destruct (bool_decide_reflect (k = n)) as [->|]; [|by apply Hlow].
  destruct (decide (lc ≤ l)).
  - exists i, lc, mc. rewrite Nat.min_l by done. split_and!; [done|done|lia|done|]. by eapply rtc_l.
  - exists i, l, m. rewrite Nat.min_r by lia. split_and!; [done|done|lia|done|done].
Qed.

Lemma popComponent_spec low own acc stack scc rest :
  NoDup (acc ++ stack) → popComponent low own acc stack = (scc, rest) →
  ∃ popped, stack = popped ++ rest ∧ scc = acc ++ popped ∧
            ∀ x, x ∈ popped → map_get x low = Some own.
Proof.
  revert acc; induction stack as [|x stack IH]; intros acc Hnd Hp; simpl in Hp.
  { simplify_eq. exists []. rewrite !app_nil_r. split_and!; [done|done|set_solver]. }
  destruct (bool_decide_reflect (map_get x low = Some own)) as [Hx|];
    [|simplify_eq; exists []; rewrite !app_nil_r; split_and!; [done|done|set_solver]].
  assert (set_add x acc = acc ++ [x]) as Hadd.
  { unfold set_add, set_has. rewrite bool_decide_false; [done|].
    apply NoDup_app in Hnd as (_ & Hd & _). intros Hin. apply (Hd x Hin). left. }
  rewrite Hadd in Hp. destruct (IH (acc ++ [x])) as (popped & -> & -> & Hpop); [|done|].
  { by rewrite <- app_assoc. }
  exists (x :: popped). rewrite <- app_assoc. split_and!; [done|done|].
  intros y [->|?]%elem_of_cons; auto.
Qed.

(** Taking a set of nodes that reach each other off the stack and reporting it, if it is not empty *)
Lemma popped_inv s popped rest :
  sccInv s → scc_stack s = popped ++ rest →
  (∀ a b, a ∈ popped → b ∈ popped → rtc (edge g) a b) →
  sccInv {| scc_id := scc_id s; scc_visited := scc_visited s; scc_ids := scc_ids s;
            scc_lowLinkValues := scc_lowLinkValues s; scc_stack := rest;
            scc_components :=
              if bool_decide (0 < length popped) then scc_components s ++ [popped] else scc_components s |}.
Proof.
  intros Hinv Hsp Hmutual. pose proof Hinv as [Hv Hnd Hids Hlt Hinj Hlow Hstv Hsnd Hdj Hfr Hmu Hne].
  rewrite Hsp in Hsnd. apply NoDup_app in Hsnd as (Hpnd & Hpdj & Hrnd).
  assert (∀ e x, e ∈ scc_components s → x ∈ e → (x ∈ scc_visited s) ∧ (x ∉ popped) ∧ (x ∉ rest)) as Hfr'.
  { intros e x He Hx. destruct (Hfr e x He Hx) as [? Hnx]. rewrite Hsp in Hnx. set_solver. }
  assert (∀ x, x ∈ popped → x ∈ scc_visited s) as Hpv by (intros x Hx; apply Hstv; rewrite Hsp; set_solver).
  destruct (bool_decide_reflect (0 < length popped)) as [Hpos|Hzero].
  2: { split; simpl; try done; [intros x Hx; apply Hstv; rewrite Hsp; set_solver|naive_solver]. }
  split; simpl; try done.
  - intros x Hx. apply Hstv. rewrite Hsp. set_solver.
  - intros a b c d x Ha Hb Hc Hd.
    apply lookup_app_Some in Ha as [Ha|[Ha1 Ha]], Hb as [Hb|[Hb1 Hb]]; [by eapply Hdj| | |].
    + apply list_lookup_singleton_Some in Hb as [_ <-].
      destruct (Hfr' c x) as (_ & [] & _); [by eapply list_elem_of_lookup_2|done..].
    + apply list_lookup_singleton_Some in Ha as [_ <-].
      destruct (Hfr' d x) as (_ & [] & _); [by eapply list_elem_of_lookup_2|done..].
    + apply list_lookup_singleton_Some in Ha as [? _], Hb as [? _]. lia.
  - intros c x [Hc| ->]%elem_of_snoc Hx; [naive_solver|auto].
  - intros c a b [Hc| ->]%elem_of_snoc Ha Hb; [by eapply Hmu|split; auto].
  - intros c [Hc| ->]%elem_of_snoc; [by apply Hne|]. split; [by intros ->; simpl in Hpos; lia|done].
Qed.

(** Closing the component of [n], when the stack is [ext], [n] and the nodes
    that were there before [n] was entered. *)
Lemma closeComponent_step s n ext stack0 i :
  sccInv s → scc_stack s = ext ++ n :: stack0 → map_get n (scc_ids s) = Some i →
  (∀ x, x ∈ ext → rtc (edge g) n x) →
  (∀ x, x ∈ stack0 → ∃ j, map_get x (scc_ids s) = Some j ∧ j < i) →
  ∃ s', closeComponent s n = Ok s' ∧ sccInv s' ∧
    scc_ids s' = scc_ids s ∧ scc_visited s' = scc_visited s ∧
    ∃ ext', scc_stack s' = ext' ++ stack0 ∧ ∀ x, x ∈ ext' → rtc (edge g) n x.
Proof.
  intros Hinv Hst Hi Hext H0. pose proof Hinv as [_ _ _ _ Hinj Hlow Hstv Hsnd _ _ _ _].
  assert (∀ x, x ∈ ext ++ [n] → rtc (edge g) n x) as Hext'.
  { intros x [?| ->]%elem_of_snoc; [auto|apply rtc_refl]. }
  assert (scc_stack s = (ext ++ [n]) ++ stack0) as Hst' by (by rewrite <- app_assoc).
  assert (n ∈ scc_visited s) as Hnv by (apply Hstv; rewrite Hst; set_solver).
  destruct (Hlow n Hnv) as (i' & l & m & Hi' & Hl & _). simplify_eq.
  unfold closeComponent. rewrite Hi, Hl.
  destruct (bool_decide_reflect (i = l)) as [<-|]; [|exists s; eauto 10].
  destruct (popComponent (scc_lowLinkValues s) i [] (scc_stack s)) as [scc rest] eqn:Hpop.
  apply popComponent_spec in Hpop as (popped & Hsp & -> & Hpl); [|done]. simpl.
  assert (∀ x, x ∈ popped → (x ∉ stack0) ∧ rtc (edge g) x n) as Hpopped.
  { intros x Hx. assert (x ∈ scc_visited s) as Hxv by (apply Hstv; rewrite Hsp; set_solver).
    destruct (Hlow x Hxv) as (ix & lx & mx & Hix & Hlx & Hle & Hmx & Hr).
    rewrite (Hpl x Hx) in Hlx. simplify_eq. split.
    - intros Hx0. destruct (H0 x Hx0) as (j & Hj & ?). simplify_eq. lia.
    - by rewrite (Hinj _ _ _ Hi Hmx). }
  assert (∃ ext', ext ++ [n] = popped ++ ext' ∧ rest = ext' ++ stack0) as (ext' & Hext1 & ->).
  { rewrite Hst' in Hsp. apply app_eq_inv in Hsp as [(k & H1 & H2)|(k & H1 & H2)].
    - by exists k.
    - destruct k as [|x k]; [exists []; by rewrite app_nil_r in *|].
      exfalso. destruct (Hpopped x) as [Hx _]; [rewrite H1; set_solver|].
      apply Hx. rewrite H2. left. }
  eexists. split; [done|]. split; [|split_and!; [done|done|]].
  - apply popped_inv; [done..|]. intros a b Ha Hb. destruct (Hpopped a Ha) as [_ ?].
    etrans; [done|]. apply Hext'. rewrite Hext1. set_solver.
  - exists ext'. split; [done|]. intros x Hx. apply Hext'. rewrite Hext1. set_solver.
Qed.

Hypothesis Hwf : wf g.

(** What a call with this fuel does *)
Definition followSpec (fuel : nat) : Prop :=
  ∀ s n, sccInv s → inGraph g n → length (nodes g) < fuel + length (scc_visited s) →
  ∃ s', followNode (S fuel) g s n = Ok s' ∧ sccStep n s s' ∧ n ∈ scc_visited s'.

(** The iteration for one child *)
Lemma child_step fuel n s1 t c :
  followSpec fuel → sccInv s1 → n ∈ scc_visited s1 → length (nodes g) < fuel + length (scc_visited s1) →
  sccStep n s1 t → gc_from c = n → c ∈ (connections g).*2 →
  ∃ t', (s ← followNode (S fuel) g t (gc_to c); updateLowLink s n (gc_to c)) = Ok t' ∧ sccStep n s1 t'.
Proof.
  intros IH Hinv1 Hn1 Hf Ht Hcf Hc.
  assert (edge g n (gc_to c)) as He by (by exists c).
  destruct (IH t (gc_to c)) as (t' & Ht' & Hst' & _); [apply Ht|eauto with n8n| |].
  { assert (length (scc_visited s1) ≤ length (scc_visited t)); [|lia].
    apply NoDup_incl_length; [apply Hinv1|apply Ht]. }
  rewrite Ht'. cbn [mbind res_bind].
  assert (sccStep n s1 t') as Hst1 by (eapply sccStep_trans; [by apply rtc_once|done|done]).
  destruct (updateLowLink_step t' n (gc_to c)) as (t'' & Ht'' & Hst'');
    [apply Hst1|by apply (ss_visited _ _ _ Hst1)|done|].
  exists t''. split; [done|]. eapply sccStep_trans; [apply rtc_refl|done|done].
Qed.

(** Closing the component of a node that was entered in [s] *)
Lemma close_entered s n s2 :
  sccInv s → n ∉ scc_visited s → sccStep n (enterNode s n) s2 →
  ∃ s3, closeComponent s2 n = Ok s3 ∧ sccStep n s s3 ∧ n ∈ scc_visited s3.
Proof.
  intros Hinv Hnin [Hinv2 Hids2 Hvis2 (ext & Hst2 & Hext)].
  assert (∀ m i, map_get m (scc_ids s) = Some i → map_get m (scc_ids s2) = Some i) as Hkeep.
  { intros m i Hm. apply Hids2. simpl. rewrite map_get_set_ne; [done|].
    intros ->. apply Hnin, (si_ids s Hinv). eauto. }
  destruct (closeComponent_step s2 n (ext) (scc_stack s) (scc_id s))
    as (s3 & Hs3 & Hinv3 & Hids3 & Hvis3 & ext' & Hst3 & Hext'); [done|done| |done| |].
  { apply Hids2. simpl. apply map_get_set_eq. }
  { intros x Hx. assert (x ∈ scc_visited s) as Hxv by (by apply (si_stack s Hinv)).
    apply (si_ids s Hinv) in Hxv as [j Hj]. exists j. split; [by apply Hkeep|by eapply (si_ids_lt s Hinv)]. }
  assert (∀ x, x = n ∨ x ∈ scc_visited s → x ∈ scc_visited s3) as Hvis.
  { intros x Hx. rewrite Hvis3. apply Hvis2. by apply elem_of_set_add. }
  exists s3. split; [done|]. split; [|by apply Hvis; left].
  split; [done|intros m i Hm; rewrite Hids3; by apply Hkeep|intros x Hx; apply Hvis; by right|by exists ext'].
Qed.

Lemma followNode_spec fuel : followSpec fuel.
Proof.
  induction fuel as [|fuel IH]; intros s n Hinv Hn Hf.
  { assert (length (scc_visited s) ≤ length ((nodes g).*2)) as Hl.
    { apply NoDup_incl_length; [apply Hinv|]. intros x Hx.
      apply inGraph_elem_of; [done|]. by apply Hinv. }
    rewrite length_fmap in Hl. lia. }
  remember (S fuel) as fuel' eqn:Hfuel'. cbn [followNode]. unfold set_has.
  destruct (bool_decide_reflect (n ∈ scc_visited s)) as [Hin|Hnin].
  { exists s. split_and!; [done|by apply sccStep_refl|done]. }
  rewrite (proj2 (childConnections_ok g n _) (conj Hn eq_refl)). cbn [mbind res_bind].
  pose proof (enterNode_inv s n Hinv Hn Hnin) as Hinv1.
  assert (length (scc_visited (enterNode s n)) = S (length (scc_visited s))) as Hlen1.
  { simpl. unfold set_add, set_has. rewrite bool_decide_false by done.
    rewrite length_app. simpl. lia. }
  match goal with |- context [foldM ?f _ ?l] =>
    destruct (foldM_total f (λ _ t, sccStep n (enterNode s n) t) (enterNode s n) l) as (s2 & Hs2 & Hstep2) end.
  - by apply sccStep_refl.
  - intros _ child t Ht Hc. apply list_elem_of_fmap in Hc as (c & -> & Hc).
    apply list_elem_of_filter in Hc as [Hcf Hc]. subst fuel'.
    apply child_step; [done|done|apply elem_of_set_add; by left|lia|done..].
  - rewrite Hs2. by apply close_entered.
Qed.

Lemma getStronglyConnectedComponents_spec :
  ∃ s, getStronglyConnectedComponents g = Ok (scc_components s) ∧ sccInv s.
Proof.
  unfold getStronglyConnectedComponents.
  destruct (foldM_total (λ s node, followNode (S (S (length (nodes g)))) g s node)
    (λ _ s, sccInv s) initialSccState ((nodes g).*2)) as (s & Hs & Hinv).
  - apply initialSccState_inv.
  - intros _ n t Ht Hn. destruct (followNode_spec (S (length (nodes g))) t n) as (t' & Ht' & Hst & _);
      [done|by apply inGraph_elem_of|lia|]. exists t'. split; [done|apply Hst].
  - exists s. by rewrite Hs.
Qed.
End scc.

(** [getStronglyConnectedComponents] terminates without an assertion
    failure on a well-formed graph; every component it reports is a non-empty
    set of nodes of the graph that can all reach each other, and the components
    do not overlap. *)
Theorem getStronglyConnectedComponents_sound g :
  wf g →
  ∃ cs, getStronglyConnectedComponents g = Ok cs ∧
    (∀ c, c ∈ cs → c ≠ [] ∧ NoDup c ∧ ∀ a b, a ∈ c → b ∈ c → inGraph g a ∧ mutual g a b) ∧
    (∀ i j c d n, cs !! i = Some c → cs !! j = Some d → n ∈ c → n ∈ d → i = j).
Proof.
  intros Hwf. destruct (getStronglyConnectedComponents_spec g Hwf) as (s & Hs & Hinv).
  exists (scc_components s). split_and!; [done| |apply Hinv].
  intros c Hc. destruct (si_nonempty _ _ Hinv c Hc). split_and!; [done|done|].
  intros a b Ha Hb. split; [|by eapply (si_mutual _ _ Hinv)].
  apply (si_visited _ _ Hinv). by eapply (si_fresh _ _ Hinv).
Qed.

Lemma getStronglyConnectedComponents_sound_witness :
  ∃ cs, getStronglyConnectedComponents loop = Ok cs ∧
    (∀ c, c ∈ cs → c ≠ [] ∧ NoDup c ∧ ∀ a b, a ∈ c → b ∈ c → inGraph loop a ∧ mutual loop a b) ∧
    (∀ i j c d n, cs !! i = Some c → cs !! j = Some d → n ∈ c → n ∈ d → i = j).
Proof. apply getStronglyConnectedComponents_sound, loop_wf. Defined.

(** the search can miss a component altogether: in the graph
    [A -> B -> D -> B, B -> A] all three nodes reach each other, but no
    component is reported, because the low link of [D] is not updated after [B]
    finds the connection back to [A]. *)
Theorem getStronglyConnectedComponents_incomplete :
  let g := mkGraph [nodeA; nodeB; nodeD]
    [mkConn nodeA nodeB "main" 0 0; mkConn nodeB nodeD "main" 0 0;
     mkConn nodeD nodeB "main" 0 0; mkConn nodeB nodeA "main" 0 0] in
  wf g ∧ mutual g nodeA nodeB ∧ mutual g nodeB nodeD ∧ mutual g nodeA nodeD ∧
  getStronglyConnectedComponents g = Ok [].
Proof.
  intros g. assert (wf g) as Hwf by by_eval. split; [done|].
  assert (∀ n m, set_has (mkConn n m "main" 0 0) ((connections g).*2) = true → edge g n m) as He.
  { intros n m H. apply bool_decide_eq_true in H. by eexists. }
  assert (rtc (edge g) nodeA nodeB) as H1 by (apply rtc_once, He; vm_compute; reflexivity).
  assert (rtc (edge g) nodeB nodeD) as H2 by (apply rtc_once, He; vm_compute; reflexivity).
  assert (rtc (edge g) nodeD nodeB) as H3 by (apply rtc_once, He; vm_compute; reflexivity).
  assert (rtc (edge g) nodeB nodeA) as H4 by (apply rtc_once, He; vm_compute; reflexivity).
  split_and!; [by split..|split; by etrans|vm_compute; reflexivity].
Qed.

(** ** Start nodes moved to the entry of their component *)

Section handle.
Context (g : DirectedGraph) (Hwf : wf g) (trigger : INode) (Htr : inGraph g trigger).

(** [m] may stand in for the start node [s]. *)
Definition standsFor (m s : INode) : Prop := m = s ∨ (mutual g m s ∧ rtc (edge g) trigger m).

Context (cycles : list (list INode)).

Lemma handleCycle_spec s new cyc :
  rtc (edge g) trigger s → cyc ∈ cycles → s ∈ cyc →
  ∃ f, depthFirstSearch g trigger (λ node, set_has node cyc) = Ok (Some f) ∧ f ∈ cyc ∧
    rtc (edge g) trigger f ∧
    handleCycle g trigger s new cyc = Ok (set_add f (set_delete s new)).
Proof using Hwf Htr.
  intros Hs Hc Hsc. unfold handleCycle, set_has at 2. rewrite bool_decide_true by done.
  destruct (depthFirstSearch_spec g Hwf (λ node, set_has node cyc) trigger Htr) as (r & Hr & Hpost).
  rewrite Hr. destruct r as [f|]; cbn [mbind res_bind].
  - destruct Hpost as [Hf ?]. apply bool_decide_eq_true in Hf. by exists f.
  - specialize (Hpost s Hs). simpl in Hpost. unfold set_has in Hpost.
    by apply bool_decide_eq_false in Hpost.
Qed.

(** The node that replaces the start node [s]: itself outside every cycle, the
    first node of its cycle found from the trigger otherwise. *)
Definition entry (s m : INode) : Prop :=
  ((∀ c, c ∈ cycles → s ∉ c) ∧ m = s) ∨
  ∃ c, c ∈ cycles ∧ s ∈ c ∧ m ∈ c ∧ rtc (edge g) trigger m ∧
       depthFirstSearch g trigger (λ node, set_has node c) = Ok (Some m).

Hypothesis cycles_disjoint : ∀ c d n, c ∈ cycles → d ∈ cycles → n ∈ c → n ∈ d → c = d.
Hypothesis cycles_nodup : NoDup cycles.

Lemma entry_standsFor s m :
  (∀ c a b, c ∈ cycles → a ∈ c → b ∈ c → mutual g a b) → entry s m → standsFor m s.
Proof using Type.
  intros Hmut [[_ ->]|(c & Hc & Hs & Hm & Hr & _)]; [by left|]. right. split; [|done].
  by apply (Hmut c).
Qed.

(** The inner loop replaces [s] by its entry. *)
Lemma handleCycles_inner s new :
  rtc (edge g) trigger s →
  ∃ new', foldM (handleCycle g trigger s) new cycles = Ok new' ∧
    (((∀ c, c ∈ cycles → s ∉ c) ∧ new' = new) ∨
     ∃ f c, c ∈ cycles ∧ s ∈ c ∧ f ∈ c ∧ rtc (edge g) trigger f ∧
       depthFirstSearch g trigger (λ node, set_has node c) = Ok (Some f) ∧
       new' = set_add f (set_delete s new)).
Proof using Hwf Htr cycles_disjoint cycles_nodup.
  intros Hs. apply (foldM_total_split _ (λ pre t,
    ((∀ c, c ∈ pre → s ∉ c) ∧ t = new) ∨
     ∃ f c, c ∈ pre ∧ s ∈ c ∧ f ∈ c ∧ rtc (edge g) trigger f ∧
       depthFirstSearch g trigger (λ node, set_has node c) = Ok (Some f) ∧
       t = set_add f (set_delete s new))).
  { left. split; [set_solver|done]. }
  intros pre x post t Hl HP.
  assert (x ∈ cycles) as Hx by (rewrite Hl; set_solver).
  destruct (decide (s ∈ x)) as [Hsx|Hsx].
  - destruct (handleCycle_spec s t x) as (f & Hf & Hfx & Hrf & Heq); [done..|].
    exists (set_add f (set_delete s t)). split; [exact Heq|].
    destruct HP as [[Hno ->]|(f' & c & Hc & Hsc & _)].
    + right. exists f, x. split_and!; [set_solver|done..].
    + exfalso. assert (c = x) as ->.
      { apply (cycles_disjoint c x s); [rewrite Hl; set_solver|done..]. }
      rewrite Hl in cycles_nodup. apply NoDup_app in cycles_nodup as (_ & Hd & _).
      apply (Hd x Hc). left.
  - exists t. split.
    { unfold handleCycle, set_has at 1. by rewrite bool_decide_false. }
    destruct HP as [[Hno ->]|(f & c & Hc & Hrest)].
    + left. split; [|done]. intros c [?| ->]%elem_of_snoc; auto.
    + right. exists f, c. split; [set_solver|done].
Qed.

Lemma handleCycles_outer starts :
  NoDup starts → (∀ s, s ∈ starts → rtc (edge g) trigger s) →
  ∃ r, foldM (λ new s, foldM (handleCycle g trigger s) new cycles) starts starts = Ok r ∧
    ∀ m, m ∈ r ↔ ∃ s, s ∈ starts ∧ entry s m.
Proof using Hwf Htr cycles_disjoint cycles_nodup.
  intros Hnd Hreach.
  destruct (foldM_total_split (λ new s, foldM (handleCycle g trigger s) new cycles)
    (λ pre t, ∀ m, m ∈ t ↔ (∃ s, s ∈ pre ∧ entry s m) ∨ (m ∈ starts ∧ m ∉ pre)) starts starts)
    as (r & Hr & HP).
  - intros m. set_solver.
  - intros pre s post t Hl Ht.
    assert (s ∈ starts ∧ s ∉ pre) as [Hs Hpre].
    { split; [rewrite Hl; set_solver|]. rewrite Hl in Hnd. apply NoDup_app in Hnd as (_ & Hd & _).
      intros Hin. apply (Hd s Hin). left. }
    destruct (handleCycles_inner s t (Hreach s Hs)) as (t' & Ht' & Hcase).
    exists t'. split; [done|]. intros m. setoid_rewrite elem_of_snoc.
    destruct Hcase as [[Hno ->]|(f & c & Hc & Hsc & Hfc & Hrf & Hdfs & ->)].
    + rewrite Ht. split.
      * intros [(s' & ? & ?)|[? ?]]; [left; eauto|].
        destruct (decide (m = s)) as [->|]; [|right; tauto].
        left. exists s. split; [by right|]. by left.
      * intros [(s' & [?| ->] & He)|[? ?]]; [left; eauto| |right; tauto].
        destruct He as [[_ ->]|(d & Hd & Hsd & _)]; [by right|]. by destruct (Hno d Hd).
    + rewrite elem_of_set_add, elem_of_set_delete, Ht. split.
      * intros [->|[[(s' & ? & ?)|[? ?]] ?]]; [|left; eauto|right; tauto].
        left. exists s. split; [by right|]. right. exists c. done.
      * intros [(s' & [Hs'| ->] & He)|[? ?]]; [| |right; tauto].
        -- destruct (decide (m = s)) as [->|]; [|right; split; [left; eauto|done]].
           left. destruct He as [[_ ->]|(d & Hd & Hsd & Hmd & _ & Hdfs')]; [done|].
           rewrite (cycles_disjoint d c s Hd Hc Hmd Hsc) in Hdfs'. congruence.
        -- left. destruct He as [[Hno _]|(d & Hd & Hsd & Hmd & _ & Hdfs')]; [by destruct (Hno c Hc)|].
           rewrite (cycles_disjoint d c s Hd Hc Hsd Hsc) in Hdfs'. congruence.
  - exists r. split; [done|]. intros m. rewrite HP. split; [|by left].
    intros [?|[? ?]]; [done|]. done.
Qed.
End handle.

Lemma handleCycles_spec g starts trigger :
  wf g → inGraph g trigger → NoDup starts → (∀ s, s ∈ starts → rtc (edge g) trigger s) →
  ∃ r, handleCycles g starts trigger = Ok r ∧
    (∀ m, m ∈ r → ∃ s, s ∈ starts ∧ standsFor g trigger m s) ∧
    (∀ s, s ∈ starts → ∃ m, m ∈ r ∧ standsFor g trigger m s).
Proof.
  intros Hwf Htr Hnd Hreach.
  destruct (getStronglyConnectedComponents_spec g Hwf) as (st & Hst & Hinv).
  unfold handleCycles. rewrite Hst. cbn [mbind res_bind].
  set (cycles := filter (λ c : list INode, 1 ≤ length c) (scc_components st)).
  assert (∀ c, c ∈ cycles → c ∈ scc_components st) as Hsub
    by (intros c Hc; by apply list_elem_of_filter in Hc as [_ ?]).
  case_bools.
  { exists starts. split; [done|]. split; intros s Hs; exists s; (split; [done|by left]). }
  assert (NoDup cycles) as Hcn.
  { apply NoDup_filter, NoDup_alt. intros i j c Hi Hj.
    destruct (si_nonempty _ _ Hinv c) as [Hne _]; [by eapply list_elem_of_lookup_2|].
    destruct c as [|n c]; [done|]. eapply (si_disjoint _ _ Hinv i j _ _ n); eauto; left. }
  assert (∀ c d n, c ∈ cycles → d ∈ cycles → n ∈ c → n ∈ d → c = d) as Hcd.
  { intros c d n Hc%Hsub Hd%Hsub Hnc Hnd'.
    apply list_elem_of_lookup in Hc as [i Hi], Hd as [j Hj].
    pose proof (si_disjoint _ _ Hinv i j c d n Hi Hj Hnc Hnd') as ->. congruence. }
  assert (∀ c a b, c ∈ cycles → a ∈ c → b ∈ c → mutual g a b) as Hcm.
  { intros c a b Hc%Hsub. by apply (si_mutual _ _ Hinv). }
  destruct (handleCycles_outer g Hwf trigger Htr cycles Hcd Hcn starts Hnd Hreach) as (r & Hr & Hm).
  exists r. split; [done|]. split.
  - intros m (s & Hs & He)%Hm. exists s. split; [done|]. by eapply entry_standsFor.
  - intros s Hs. destruct (handleCycles_inner g Hwf trigger Htr cycles Hcd Hcn s [] (Hreach s Hs))
      as (_ & _ & [[Hno _]|(f & c & Hc & Hsc & Hfc & Hrf & Hdfs & _)]).
    + exists s. split; [|by left]. apply Hm. exists s. split; [done|]. by left.
    + exists f. assert (entry g trigger cycles s f) as He by (right; by exists c).
      split; [|by eapply entry_standsFor]. apply Hm. by exists s.
Qed.

(** if every start node is reachable from the trigger, [handleCycles]
    succeeds; each node of the result is a start node or a node that the trigger
    reaches and that is mutually reachable with a start node, and each start
    node is kept or has such a stand-in in the result. *)
Theorem handleCycles_stand_in g starts trigger :
  wf g → inGraph g trigger → NoDup starts → (∀ s, s ∈ starts → rtc (edge g) trigger s) →
  ∃ r, handleCycles g starts trigger = Ok r ∧
    (∀ m, m ∈ r → ∃ s, s ∈ starts ∧ standsFor g trigger m s) ∧
    (∀ s, s ∈ starts → ∃ m, m ∈ r ∧ standsFor g trigger m s).
Proof. apply handleCycles_spec. Qed.

Lemma handleCycles_stand_in_witness :
  ∃ r, handleCycles loop [nodeD] nodeA = Ok r ∧
    (∀ m, m ∈ r → ∃ s, s ∈ [nodeD] ∧ standsFor loop nodeA m s) ∧
    (∀ s, s ∈ [nodeD] → ∃ m, m ∈ r ∧ standsFor loop nodeA m s).
Proof.
  apply handleCycles_stand_in; [apply loop_wf|reflexivity|apply NoDup_singleton|].
  intros s Hs. apply list_elem_of_singleton in Hs as ->.
  apply (rtc_l _ _ nodeB); [exists (mkConn nodeA nodeB "main" 0 0)|
    apply rtc_once; exists (mkConn nodeB nodeD "main" 1 0)];
    (split; [by_eval|split; reflexivity]).
Defined.
