(* ===== verification/SourceGroups.v ===== *)
(** * Grouping the incoming connections of a node

    Model of [partial-execution-utils/get-source-data-groups.ts]: the incoming
    connections of a node are split into groups with one connection per input,
    preferring connections whose source has data. *)

From Stdlib Require Import Permutation.
From S2P Require Import Prelude JsCollections NodeTypes DirectedGraph Fixtures.

(** ** The function *)

Section groups.
(** [String.prototype.localeCompare] depends on the locale of the host. *)
Context (localeCompare : string → string → Z).

Definition sortByInputIndexThenByName (connection1 connection2 : GraphConnection) : Z :=
  if bool_decide (gc_inputIndex connection1 = gc_inputIndex connection2)
  then localeCompare (node_name (gc_from connection1)) (node_name (gc_from connection2))
  else (Z.of_nat (gc_inputIndex connection1) - Z.of_nat (gc_inputIndex connection2))%Z.

Record SourceConnectionGroup := {
  complete : bool;
  groupConnections : list GraphConnection;
}.

Definition newGroup : SourceConnectionGroup := {| complete := true; groupConnections := [] |}.

(** [findIndex] followed by [splice]: the first connection at an input, and the
    list without it. *)
Fixpoint takeInput (i : Z) (l : list GraphConnection) : option (GraphConnection * list GraphConnection) :=
  match l with
  | [] => None
  | c :: l =>
      if bool_decide (Z.of_nat (gc_inputIndex c) = i) then Some (c, l)
      else match takeInput i l with
           | Some (d, l) => Some (d, c :: l)
           | None => None
           end
  end.

(** [Math.min(...a.map(c => c.inputIndex), ...b.map(c => c.inputIndex))]; the
    loop asks for it only while one of the lists is non-empty. *)
Definition minInput (a b : list GraphConnection) : Z :=
  match (λ c, Z.of_nat (gc_inputIndex c)) <$> (a ++ b) with
  | [] => 0%Z
  | i :: l => foldl Z.min i l
  end.

Fixpoint groupLoop (fuel : nat) (withData withoutData : list GraphConnection)
    (groups : list SourceConnectionGroup) (currentGroup : SourceConnectionGroup)
    (currentInputIndex : Z) : res (list SourceConnectionGroup) :=
  match fuel with
  | 0 => OutOfFuel
  | S fuel =>
      if bool_decide (withData = [] ∧ withoutData = []) then Ok (groups ++ [currentGroup]) else
      let currentInputIndex := (currentInputIndex + 1)%Z in
      match takeInput currentInputIndex withData with
      | Some (connection, withData) =>
          groupLoop fuel withData withoutData groups
            {| complete := complete currentGroup;
               groupConnections := groupConnections currentGroup ++ [connection] |} currentInputIndex
      | None =>
          match takeInput currentInputIndex withoutData with
          | Some (connection, withoutData) =>
              groupLoop fuel withData withoutData groups
                {| complete := false;
                   groupConnections := groupConnections currentGroup ++ [connection] |} currentInputIndex
          | None =>
              groupLoop fuel withData withoutData (groups ++ [currentGroup]) newGroup
                (minInput withData withoutData - 1)%Z
          end
      end
  end.

(** [runData[from.name] || pinnedData[from.name]] *)
Definition connectionHasData (runData : IRunData) (pinnedData : IPinData) (c : GraphConnection) : bool :=
  obj_has (node_name (gc_from c)) runData || obj_has (node_name (gc_from c)) pinnedData.

Definition getSourceDataGroups (graph : DirectedGraph) (node : INode) (runData : IRunData)
    (pinnedData : IPinData) : res (list SourceConnectionGroup) :=
  let conns := getConnections graph (Some node) in
  let withData := filter (λ c, connectionHasData runData pinnedData c = true) conns in
  let withoutData := filter (λ c, connectionHasData runData pinnedData c = false ∧
                                  gc_type c = NodeConnectionTypes.Main) conns in
  if bool_decide (withData = [] ∧ withoutData = []) then Ok [] else
  let withData := array_sort sortByInputIndexThenByName withData in
  let withoutData := array_sort sortByInputIndexThenByName withoutData in
  groupLoop (S (2 * (length withData + length withoutData))) withData withoutData [] newGroup
    (minInput withData withoutData - 1)%Z.

(** ** Correctness of the loop *)

Lemma takeInput_Some i l c l' :
  takeInput i l = Some (c, l') → l ≡ₚ c :: l' ∧ Z.of_nat (gc_inputIndex c) = i.
Proof.
  revert l'; induction l as [|d l IH]; intros l'; simpl; [done|].
  case_bools; [intros; by simplify_eq|].
  destruct (takeInput i l) as [[e l2]|]; [|done]. intros; simplify_eq.
  destruct (IH l2 eq_refl) as [Hp ?]. split; [|done]. rewrite Hp. apply Permutation_swap.
Qed.

Lemma takeInput_None i l c : takeInput i l = None → c ∈ l → Z.of_nat (gc_inputIndex c) ≠ i.
Proof.
  induction l as [|d l IH]; simpl; [set_solver|].
  case_bools; [done|]. destruct (takeInput i l) as [[e l2]|]; [done|].
  intros _ [->|?]%elem_of_cons; auto.
Qed.

Lemma minInput_attained a b :
  ¬ (a = [] ∧ b = []) → ∃ c, c ∈ a ++ b ∧ Z.of_nat (gc_inputIndex c) = minInput a b.
Proof.
  intros Hne. unfold minInput. destruct (a ++ b) as [|c l] eqn:Hab.
  { apply app_eq_nil in Hab. done. }
  rewrite fmap_cons. cbv beta iota. clear Hab Hne a b.
  assert (∀ i l, foldl Z.min i l = i ∨ foldl Z.min i l ∈ l) as Hmin.
  { clear. intros i l; revert i; induction l as [|j l IH]; intros i; simpl; [by left|].
    destruct (IH (Z.min i j)) as [->|?]; [|by right; right].
    destruct (Z.min_spec i j) as [[_ ->]|[_ ->]]; [by left|right; left]. }
  destruct (Hmin (Z.of_nat (gc_inputIndex c)) ((λ c, Z.of_nat (gc_inputIndex c)) <$> l)) as [->|Hin].
  - exists c. split; [left|done].
  - apply list_elem_of_fmap in Hin as (d & -> & ?). exists d. split; [by right|done].
Qed.

Context (hasData : GraphConnection → bool).

(** A group is well-formed: its connections are at consecutive inputs, and it is
    complete exactly if each of them has data. *)
Record groupOk (grp : SourceConnectionGroup) : Prop := {
  go_consecutive : ∃ base, ∀ k c, groupConnections grp !! k = Some c → gc_inputIndex c = base + k;
  go_complete : complete grp = forallb hasData (groupConnections grp);
}.

(** The open group ends at the current input. *)
Record openGroup (grp : SourceConnectionGroup) (cur : Z) : Prop := {
  og_ok : groupOk grp;
  og_last : groupConnections grp = [] ∨
    ∃ base, cur = (Z.of_nat base + Z.of_nat (length (groupConnections grp)) - 1)%Z ∧
      ∀ k c, groupConnections grp !! k = Some c → gc_inputIndex c = base + k;
}.

Lemma newGroup_open cur : openGroup newGroup cur.
Proof. split; [|by left]. split; [|done]. by exists 0. Qed.

Lemma openGroup_push grp cur c b :
  openGroup grp cur → Z.of_nat (gc_inputIndex c) = (cur + 1)%Z → hasData c = b →
  openGroup {| complete := complete grp && b; groupConnections := groupConnections grp ++ [c] |} (cur + 1).
Proof.
  intros [[_ Hcomp] Hlast] Hc <-.
  assert (∃ base, (cur + 1 = Z.of_nat base + Z.of_nat (length (groupConnections grp ++ [c])) - 1)%Z ∧
    ∀ k d, (groupConnections grp ++ [c]) !! k = Some d → gc_inputIndex d = base + k) as (base & Hb & Hk).
  { destruct Hlast as [->|(base & Hcur & Hk)].
    - exists (gc_inputIndex c). simpl. split; [lia|]. intros [|k] d; simpl; [|by rewrite lookup_nil].
      intros; simplify_eq. lia.
    - exists base. rewrite length_app. simpl. split; [lia|]. intros k d Hd.
      apply lookup_app_Some in Hd as [Hd|[Hle Hd]]; [by apply Hk|].
      apply list_lookup_singleton_Some in Hd as [? ->]. lia. }
  split; [|right; by exists base]. split; simpl; [by exists base|].
  rewrite forallb_app. simpl. by rewrite Hcomp, andb_true_r.
Qed.

(** The fuel suffices: every iteration takes a connection, or opens a new group
    whose first connection the next iteration takes. *)
Definition enoughFuel (fuel : nat) (w wo : list GraphConnection) (cur : Z) : Prop :=
  2 * (length w + length wo) + 1 < fuel ∨
  (2 * (length w + length wo) < fuel ∧ ∃ c, c ∈ w ++ wo ∧ Z.of_nat (gc_inputIndex c) = (cur + 1)%Z).

Lemma groupLoop_spec fuel w wo groups grp cur :
  Forall (λ c, hasData c = true) w → Forall (λ c, hasData c = false) wo →
  Forall groupOk groups → openGroup grp cur → enoughFuel fuel w wo cur →
  ∃ r, groupLoop fuel w wo groups grp cur = Ok r ∧ Forall groupOk r ∧
    mjoin (groupConnections <$> r) ≡ₚ mjoin (groupConnections <$> groups) ++ groupConnections grp ++ w ++ wo.
Proof.
  revert w wo groups grp cur. induction fuel as [|fuel IH];
    intros w wo groups grp cur Hw Hwo Hgs Hg Hfuel; [destruct Hfuel as [|[]]; lia|].
  cbn [groupLoop]. case_bools.
  { match goal with H : _ ∧ _ |- _ => destruct H as [-> ->] end.
    eexists. split; [done|]. split; [apply Forall_app; split; [done|by apply Forall_singleton, Hg]|].
    rewrite fmap_app, join_app. simpl. by rewrite !app_nil_r. }
  destruct (takeInput (cur + 1) w) as [[c w']|] eqn:Htw.
  { apply takeInput_Some in Htw as [Hp Hc].
    rewrite Hp in Hw. apply Forall_cons in Hw as [Hd Hw].
    apply Permutation_length in Hp as Hl. simpl in Hl.
    destruct (IH w' wo groups {| complete := complete grp; groupConnections := groupConnections grp ++ [c] |}
      (cur + 1)%Z) as (r & Hr & Hok & Hperm); [done..| | |].
    - pose proof (openGroup_push grp cur c true Hg Hc Hd) as Ho. by rewrite andb_true_r in Ho.
    - left. destruct Hfuel as [|[? _]]; lia.
    - exists r. split_and!; [done..|]. rewrite Hperm. simpl. by rewrite Hp, <- !app_assoc. }
  destruct (takeInput (cur + 1) wo) as [[c wo']|] eqn:Htwo.
  { apply takeInput_Some in Htwo as [Hp Hc].
    rewrite Hp in Hwo. apply Forall_cons in Hwo as [Hd Hwo].
    apply Permutation_length in Hp as Hl. simpl in Hl.
    destruct (IH w wo' groups {| complete := false; groupConnections := groupConnections grp ++ [c] |}
      (cur + 1)%Z) as (r & Hr & Hok & Hperm); [done..| | |].
    - pose proof (openGroup_push grp cur c false Hg Hc Hd) as Ho. by rewrite andb_false_r in Ho.
    - left. destruct Hfuel as [|[? _]]; lia.
    - exists r. split_and!; [done..|]. rewrite Hperm. simpl. rewrite Hp, <- !app_assoc.
      apply Permutation_app_head, Permutation_app_head. simpl. apply Permutation_middle. }
  destruct (IH w wo (groups ++ [grp]) newGroup (minInput w wo - 1)%Z) as (r & Hr & Hok & Hperm);
    [done|done|apply Forall_app; split; [done|by apply Forall_singleton, Hg]|apply newGroup_open| |].
  - right. split.
    + destruct Hfuel as [|[_ (c & [Hin|Hin]%elem_of_app & Hc)]]; [lia| |]; exfalso.
      * by apply (takeInput_None _ _ c Htw Hin).
      * by apply (takeInput_None _ _ c Htwo Hin).
    + destruct (minInput_attained w wo) as (c & ? & ?); [done|]. exists c. split; [done|lia].
  - exists r. split_and!; [done..|]. rewrite Hperm, fmap_app, join_app. simpl.
    by rewrite app_nil_r, <- app_assoc.
Qed.
End groups.

Lemma getSourceDataGroups_spec localeCompare g node runData pinData :
  ∃ groups, getSourceDataGroups localeCompare g node runData pinData = Ok groups ∧
    mjoin (groupConnections <$> groups) ≡ₚ
      filter (λ c, connectionHasData runData pinData c = true ∨ gc_type c = NodeConnectionTypes.Main)
        (getConnections g (Some node)) ∧
    ∀ grp, grp ∈ groups →
      (∃ base, ∀ k c, groupConnections grp !! k = Some c → gc_inputIndex c = base + k) ∧
      (complete grp = true ↔
       ∀ c, c ∈ groupConnections grp → connectionHasData runData pinData c = true).
Proof.
  unfold getSourceDataGroups. set (conns := getConnections g (Some node)).
  set (w := filter (λ c, connectionHasData runData pinData c = true) conns).
  set (wo := filter (λ c, connectionHasData runData pinData c = false ∧
                          gc_type c = NodeConnectionTypes.Main) conns).
  assert (w ++ wo ≡ₚ filter (λ c, connectionHasData runData pinData c = true ∨
                                  gc_type c = NodeConnectionTypes.Main) conns) as Hsplit.
  { subst w wo. clear. induction conns as [|c l IH]; [done|]. rewrite !filter_cons.
    destruct (connectionHasData runData pinData c); repeat case_decide; try naive_solver;
      first [by apply perm_skip|by rewrite <- Permutation_middle, IH]. }
  case_bools.
  { exists []. split; [done|]. split; [|set_solver].
    match goal with H : _ ∧ _ |- _ => destruct H as [Hw Hwo] end.
    rewrite <- Hsplit, Hw, Hwo. done. }
  set (cmp := sortByInputIndexThenByName localeCompare).
  pose proof (array_sort_perm cmp w) as Hpw. pose proof (array_sort_perm cmp wo) as Hpwo.
  destruct (groupLoop_spec (connectionHasData runData pinData)
    (S (2 * (length (array_sort cmp w) + length (array_sort cmp wo))))
    (array_sort cmp w) (array_sort cmp wo) [] newGroup (minInput (array_sort cmp w) (array_sort cmp wo) - 1)%Z)
    as (r & Hr & Hok & Hperm).
  - rewrite Hpw. apply Forall_forall. intros c Hc. by apply list_elem_of_filter in Hc as [? _].
  - rewrite Hpwo. apply Forall_forall. intros c Hc. by apply list_elem_of_filter in Hc as [[? _] _].
  - done.
  - apply newGroup_open.
  - right. split; [lia|].
    destruct (minInput_attained (array_sort cmp w) (array_sort cmp wo)) as (c & ? & ?).
    + intros [Hn1 Hn2]. rewrite Hn1 in Hpw. rewrite Hn2 in Hpwo.
      apply Permutation_nil in Hpw, Hpwo. tauto.
    + exists c. split; [done|lia].
  - exists r. split; [done|]. split; [by rewrite Hperm, Hpw, Hpwo, <- Hsplit|].
    intros grp Hgrp. rewrite Forall_forall in Hok. destruct (Hok grp Hgrp) as [Hcons Hcomp].
    split; [done|]. rewrite Hcomp, forallb_forall. setoid_rewrite list_elem_of_In. done.
Qed.

(** whatever the locale's string order, grouping terminates; the groups
    partition the incoming connections that have data or are of type [main];
    the connections of a group are at consecutive inputs (so an input occurs at
    most once); and a group is marked complete exactly if the source of each of
    its connections has run data or pinned data. *)
Theorem getSourceDataGroups_partition localeCompare g node runData pinData :
  ∃ groups, getSourceDataGroups localeCompare g node runData pinData = Ok groups ∧
    mjoin (groupConnections <$> groups) ≡ₚ
      filter (λ c, connectionHasData runData pinData c = true ∨ gc_type c = NodeConnectionTypes.Main)
        (getConnections g (Some node)) ∧
    ∀ grp, grp ∈ groups →
      (∃ base, ∀ k c, groupConnections grp !! k = Some c → gc_inputIndex c = base + k) ∧
      (complete grp = true ↔
       ∀ c, c ∈ groupConnections grp → connectionHasData runData pinData c = true).
Proof. apply getSourceDataGroups_spec. Qed.
