(* ===== verification/ExecutionStack.v ===== *)
(** * Recreating the execution stack

    Model of [partial-execution-utils/recreate-node-execution-stack.ts]: from
    the subgraph, the start nodes and the existing run data it rebuilds the
    state from which the engine continues. *)

From S2P Require Import Prelude JsCollections NodeTypes DirectedGraph Fixtures RunData SourceGroups.

(** ** Waiting executions *)

(** [null] or a value *)
Definition slot_of {A} (o : option A) : slot A :=
  match o with Some a => Val a | None => Null end.

(** The nested update both functions below perform; missing levels are
    created. *)
Definition addWaiting {A} (waiting : jsobj (idxobj (jsobj (list (slot A))))) (nodeName : string)
    (runIndex : nat) (inputType : NodeConnectionType) (inputIndex : nat) (x : option A)
    : jsobj (idxobj (jsobj (list (slot A)))) :=
  let waitingObject := default [] (obj_get nodeName waiting) in
  let taskConnections := default [] (map_get runIndex waitingObject) in
  let slots := default [] (obj_get inputType taskConnections) in
  obj_set nodeName
    (idx_set runIndex
      (obj_set inputType (arr_set inputIndex (slot_of x) slots) taskConnections)
      waitingObject) waiting.

Definition addWaitingExecution (waitingExecution : IWaitingForExecution) (nodeName : string)
    (runIndex : nat) (inputType : NodeConnectionType) (inputIndex : nat)
    (executionData : option (list INodeExecutionData)) : IWaitingForExecution :=
  addWaiting waitingExecution nodeName runIndex inputType inputIndex executionData.

Definition addWaitingExecutionSource (waitingExecutionSource : IWaitingForExecutionSource)
    (nodeName : string) (runIndex : nat) (inputType : NodeConnectionType) (inputIndex : nat)
    (sourceData : option ISourceData) : IWaitingForExecutionSource :=
  addWaiting waitingExecutionSource nodeName runIndex inputType inputIndex sourceData.

(** [waiting[nodeName]?.[runIndex]?.[inputType]?.[inputIndex]] *)
Definition waitingAt {A} (waiting : jsobj (idxobj (jsobj (list (slot A))))) (nodeName : string)
    (runIndex : nat) (inputType : NodeConnectionType) (inputIndex : nat) : slot A :=
  arr_get inputIndex
    (default [] (obj_get inputType
      (default [] (map_get runIndex (default [] (obj_get nodeName waiting)))))).

(** ** The recreation *)

Record RecreatedStack := {
  nodeExecutionStack : list IExecuteData;
  waitingExecution : IWaitingForExecution;
  waitingExecutionSource : IWaitingForExecutionSource;
}.

Definition emptyStack : RecreatedStack :=
  {| nodeExecutionStack := []; waitingExecution := []; waitingExecutionSource := [] |}.

Definition pushEntry (st : RecreatedStack) (node : INode) (incomingData : list (list INodeExecutionData))
    (source : option ITaskDataConnectionsSource) : RecreatedStack :=
  {| nodeExecutionStack := nodeExecutionStack st ++
       [{| exec_data := [("main", Val <$> incomingData)]; exec_metadata := None; exec_node := node;
           exec_source := source; exec_runIndex := None |}];
     waitingExecution := waitingExecution st;
     waitingExecutionSource := waitingExecutionSource st |}.

(** The data of one connection of a complete group: pinned data, or the first
    non-empty run of its output (which may not exist). *)
Definition connectionData (runData : IRunData) (pinData : IPinData) (c : GraphConnection)
    : res (option (list INodeExecutionData * nat)) :=
  match obj_get (node_name (gc_from c)) pinData with
  | Some pinned => Ok (Some (pinned, 0))
  | None =>
      _ ← assert_ok (obj_has (node_name (gc_from c)) runData);
      getIncomingDataFromAnyRun runData (node_name (gc_from c)) (gc_type c) (Z.of_nat (gc_outputIndex c))
  end.

(** The loop over the connections of a complete group. *)
Definition completeGroupData (runData : IRunData) (pinData : IPinData) (cs : list GraphConnection)
    : res (list (list INodeExecutionData) * list (slot ISourceData)) :=
  foldM (λ '(incomingData, sources) c,
    d ← connectionData runData pinData c;
    let runIndex := match d with Some (_, runIndex) => runIndex | None => 0 end in
    let incomingData := match d with Some (data, _) => incomingData ++ [data] | None => incomingData end in
    Ok (incomingData,
        sources ++ [Val {| previousNode := node_name (gc_from c);
                           previousNodeOutput := Some (gc_outputIndex c);
                           previousNodeRun := Some runIndex |}])) ([], []) cs.

(** The loop over the connections of an incomplete group. *)
Definition waitForGroup (runData : IRunData) (nodeName : string) (nextRunIndex : nat)
    (st : RecreatedStack) (cs : list GraphConnection) : res RecreatedStack :=
  foldM (λ st c,
    d ← getIncomingDataFromAnyRun runData (node_name (gc_from c)) (gc_type c) (Z.of_nat (gc_outputIndex c));
    match d with
    | None => Ok st
    | Some (data, _) =>
        Ok {| nodeExecutionStack := nodeExecutionStack st;
              waitingExecution :=
                addWaitingExecution (waitingExecution st) nodeName nextRunIndex (gc_type c)
                  (gc_inputIndex c) (Some data);
              waitingExecutionSource :=
                addWaitingExecutionSource (waitingExecutionSource st) nodeName nextRunIndex (gc_type c)
                  (gc_inputIndex c)
                  (Some {| previousNode := node_name (gc_from c);
                           previousNodeOutput := Some (gc_outputIndex c);
                           previousNodeRun := Some nextRunIndex |}) |}
    end) st cs.

Section recreate.
Context (localeCompare : string → string → Z).

Definition recreateGroup (runData : IRunData) (pinData : IPinData) (startNode : INode)
    (st : RecreatedStack) (sourceData : SourceConnectionGroup) : res RecreatedStack :=
  if complete sourceData then
    '(incomingData, sources) ← completeGroupData runData pinData (groupConnections sourceData);
    Ok (pushEntry st startNode incomingData (Some [("main", sources)]))
  else
    let nextRunIndex := length (default [] (obj_get (node_name startNode) (waitingExecution st))) in
    waitForGroup runData (node_name startNode) nextRunIndex st (groupConnections sourceData).

Definition recreateStartNode (graph : DirectedGraph) (runData : IRunData) (pinData : IPinData)
    (st : RecreatedStack) (startNode : INode) : res RecreatedStack :=
  parents ← getDirectParentConnections graph startNode;
  if bool_decide (filter (λ c, gc_type c = NodeConnectionTypes.Main) parents = []) then
    Ok (pushEntry st startNode [[empty_item]] None)
  else
    sourceDataSets ← getSourceDataGroups localeCompare graph startNode runData pinData;
    foldM (recreateGroup runData pinData startNode) st sourceDataSets.

Definition recreateNodeExecutionStack (graph : DirectedGraph) (startNodes : jsset INode)
    (runData : IRunData) (pinData : IPinData) : res RecreatedStack :=
  _ ← foldM (λ _ node, assert_ok (negb (bool_decide (node_disabled node = Some true)))) tt
        ((getNodes graph).*2);
  foldM (recreateStartNode graph runData pinData) emptyStack startNodes.
End recreate.

(** ** Waiting executions: insert and look up *)

Lemma waitingAt_addWaiting {A} (w : jsobj (idxobj (jsobj (list (slot A))))) n r t i x n' r' t' i' :
  waitingAt (addWaiting w n r t i x) n' r' t' i' =
  if bool_decide (n' = n ∧ r' = r ∧ t' = t ∧ i' = i) then slot_of x else waitingAt w n' r' t' i'.
Proof.
  unfold waitingAt, addWaiting. rewrite obj_get_set.
  destruct (bool_decide_reflect (n' = n)) as [->|]; [|by rewrite bool_decide_false by tauto].
  simpl. rewrite idx_get_set.
  destruct (bool_decide_reflect (r' = r)) as [->|]; [|by rewrite bool_decide_false by tauto].
  simpl. rewrite obj_get_set.
  destruct (bool_decide_reflect (t' = t)) as [->|]; [|by rewrite bool_decide_false by tauto].
  simpl. rewrite arr_get_set. repeat case_bools; naive_solver.
Qed.

(** after [addWaitingExecution] the addressed input holds the data (or
    [null]) and every other input of every node, run and connection type is
    unchanged. *)
Theorem addWaitingExecution_lookup w n r t i x n' r' t' i' :
  waitingAt (addWaitingExecution w n r t i x) n' r' t' i' =
  if bool_decide (n' = n ∧ r' = r ∧ t' = t ∧ i' = i) then slot_of x else waitingAt w n' r' t' i'.
Proof. apply waitingAt_addWaiting. Qed.

(** ** No internal assertion fails *)

Section total.
Context (localeCompare : string → string → Z).
Context (g : DirectedGraph) (runData : IRunData) (pinData : IPinData) (Hwf : wf g).

(** Run data can be read at the outgoing connections of its nodes. *)
Hypothesis Hreadable : ∀ c, c ∈ (connections g).*2 →
  is_ok (getIncomingDataFromAnyRun runData (node_name (gc_from c)) (gc_type c)
           (Z.of_nat (gc_outputIndex c))).

Lemma completeGroupData_total cs :
  (∀ c, c ∈ cs → c ∈ (connections g).*2 ∧ connectionHasData runData pinData c = true) →
  ∃ d s, completeGroupData runData pinData cs = Ok (d, s) ∧ length s = length cs ∧ length d ≤ length cs.
Proof.
  intros Hcs. unfold completeGroupData.
  edestruct (foldM_total (λ '(incomingData, sources) c,
    d ← connectionData runData pinData c;
    let runIndex := match d with Some (_, runIndex) => runIndex | None => 0 end in
    let incomingData := match d with Some (data, _) => incomingData ++ [data] | None => incomingData end in
    Ok (incomingData,
        sources ++ [Val {| previousNode := node_name (gc_from c);
                           previousNodeOutput := Some (gc_outputIndex c);
                           previousNodeRun := Some runIndex |}]))
    (λ pre '(d, s), length s = length pre ∧ length d ≤ length pre) ([], []) cs)
    as ([d s] & Hd & ?); [done| |by exists d, s].
  intros pre c [d s] [Hs Hd] Hc. destruct (Hcs c Hc) as [Hin Hdata].
  assert (∃ r, connectionData runData pinData c = Ok r) as [r Hr].
  { unfold connectionData, connectionHasData, obj_has in *.
    destruct (obj_get (node_name (gc_from c)) pinData) as [p|] eqn:Hp; [eauto|].
    apply orb_true_iff in Hdata as [Hh|Hh].
    - rewrite Hh. cbn. by apply Hreadable.
    - apply map_has_get in Hh. unfold obj_get in Hp. rewrite Hp in Hh. by destruct Hh. }
  rewrite Hr. cbn [mbind res_bind]. eexists (_, _). split; [done|].
  rewrite !length_app. simpl. destruct r as [[data k]|]; rewrite ?length_app; simpl; lia.
Qed.

Lemma waitForGroup_total n k st cs :
  (∀ c, c ∈ cs → c ∈ (connections g).*2) →
  ∃ st', waitForGroup runData n k st cs = Ok st' ∧ nodeExecutionStack st' = nodeExecutionStack st.
Proof.
  intros Hcs. unfold waitForGroup.
  apply (foldM_total _ (λ _ st', nodeExecutionStack st' = nodeExecutionStack st)); [done|].
  intros _ c t Ht Hc. destruct (Hreadable c (Hcs c Hc)) as [r Hr]. rewrite Hr. cbn [mbind res_bind].
  destruct r as [[data j]|]; eauto.
Qed.

(** The entries for one start node: only for that node. *)
Definition entriesFor (n : INode) (l l' : list IExecuteData) : Prop :=
  ∃ ext, l' = l ++ ext ∧ ∀ e, e ∈ ext → exec_node e = n.

Lemma recreateStartNode_total st n :
  inGraph g n →
  ∃ st', recreateStartNode localeCompare g runData pinData st n = Ok st' ∧
    entriesFor n (nodeExecutionStack st) (nodeExecutionStack st').
Proof.
  intros Hn. unfold recreateStartNode.
  rewrite (proj2 (parentConnections_ok g n _) (conj Hn eq_refl)). cbn [mbind res_bind].
  case_bools.
  { eexists. split; [done|]. eexists. split; [done|]. intros e He.
    by apply list_elem_of_singleton in He as ->. }
  destruct (getSourceDataGroups_spec localeCompare g n runData pinData) as (groups & Hgs & Hperm & Hok).
  rewrite Hgs. cbn [mbind res_bind].
  apply (foldM_total _ (λ _ st', entriesFor n (nodeExecutionStack st) (nodeExecutionStack st'))).
  { exists []. rewrite app_nil_r. split; [done|set_solver]. }
  intros _ grp t (ext & Hext & Hnode) Hgrp.
  assert (∀ c, c ∈ groupConnections grp → c ∈ (connections g).*2) as Hin.
  { intros c Hc. assert (c ∈ mjoin (groupConnections <$> groups)) as Hj.
    { apply list_elem_of_join. exists (groupConnections grp). split; [done|].
      by apply list_elem_of_fmap_2. }
    rewrite Hperm in Hj. apply list_elem_of_filter in Hj as [_ Hj].
    by apply list_elem_of_filter in Hj as [_ ?]. }
  unfold recreateGroup. destruct (Hok grp Hgrp) as [_ Hcomp]. destruct (complete grp).
  - destruct (completeGroupData_total (groupConnections grp)) as (d & s & Hd & _).
    { intros c Hc. split; [by apply Hin|]. by apply Hcomp. }
    rewrite Hd. cbn [mbind res_bind]. eexists. split; [done|]. simpl.
    eexists. split; [by rewrite Hext, <- app_assoc|].
    intros e [?|He]%elem_of_app; [auto|]. by apply list_elem_of_singleton in He as ->.
  - destruct (waitForGroup_total (node_name n)
      (length (default [] (obj_get (node_name n) (waitingExecution t)))) t (groupConnections grp) Hin)
      as (t' & Ht' & Heq).
    exists t'. split; [done|]. exists ext. by rewrite Heq.
Qed.

Lemma recreateNodeExecutionStack_spec starts :
  (∀ n, inGraph g n → node_disabled n ≠ Some true) → (∀ n, n ∈ starts → inGraph g n) →
  ∃ st, recreateNodeExecutionStack localeCompare g starts runData pinData = Ok st ∧
    ∀ e, e ∈ nodeExecutionStack st → exec_node e ∈ starts.
Proof.
  intros Hdis Hstarts. unfold recreateNodeExecutionStack, getNodes.
  destruct (foldM_total (λ _ node, assert_ok (negb (bool_decide (node_disabled node = Some true))))
    (λ _ _, True) tt ((nodes g).*2)) as ([] & Hck & _); [done| |].
  { intros _ n [] _ Hn. exists tt. rewrite bool_decide_false; [done|].
    by apply Hdis, inGraph_elem_of. }
  rewrite Hck. cbn [mbind res_bind].
  apply (foldM_total _ (λ _ st, ∀ e, e ∈ nodeExecutionStack st → exec_node e ∈ starts)); [set_solver|].
  intros _ n st Hst Hn. destruct (recreateStartNode_total st n) as (st' & Hst' & ext & Hext & Hnode);
    [auto|]. exists st'. split; [done|]. rewrite Hext.
  intros e [?|He]%elem_of_app; [auto|]. by rewrite (Hnode e He).
Qed.
End total.

(** on a well-formed graph without disabled nodes, with start nodes of that
    graph and run data that can be read at its connections, the stack is
    recreated: no internal assertion (in particular the one on missing run data
    of a complete group) fails, and only start nodes are put on the stack. *)
Theorem recreateNodeExecutionStack_total localeCompare g runData pinData starts :
  wf g →
  (∀ c, c ∈ (connections g).*2 →
     is_ok (getIncomingDataFromAnyRun runData (node_name (gc_from c)) (gc_type c)
              (Z.of_nat (gc_outputIndex c)))) →
  (∀ n, inGraph g n → node_disabled n ≠ Some true) → (∀ n, n ∈ starts → inGraph g n) →
  ∃ st, recreateNodeExecutionStack localeCompare g starts runData pinData = Ok st ∧
    ∀ e, e ∈ nodeExecutionStack st → exec_node e ∈ starts.
Proof. intros Hwf Hr. by apply recreateNodeExecutionStack_spec. Qed.

Lemma recreateNodeExecutionStack_total_witness :
  ∃ st, recreateNodeExecutionStack (λ _ _, 0%Z) loop [nodeB] sampleRunData [] = Ok st ∧
    ∀ e, e ∈ nodeExecutionStack st → exec_node e ∈ [nodeB].
Proof.
  apply recreateNodeExecutionStack_total; [apply loop_wf|..].
  - rewrite <- Forall_forall. by_eval.
  - intros n Hn. apply inGraph_elem_of in Hn; [|apply loop_wf]. revert n Hn.
    rewrite <- Forall_forall. by_eval.
  - intros n Hn. apply list_elem_of_singleton in Hn as ->. reflexivity.
Defined.

(** the recreated input data can be shifted: if the source of input 0 has
    run data but no items at that output, nothing is pushed for it, and the data
    of input 1 becomes the data of input 0, while both sources are recorded. *)
Theorem recreateNodeExecutionStack_shifts_inputs :
  let g := mkGraph [nodeA; nodeB; nodeD]
    [mkConn nodeA nodeD "main" 0 0; mkConn nodeB nodeD "main" 0 1] in
  let item := {| item_json := [("from", JStr "B")]; item_error := None; item_pairedItem := None;
                 item_rest := [] |} in
  wf g ∧
  ∃ st e, recreateNodeExecutionStack (λ _ _, 0%Z) g [nodeD]
            [("A", [mkTask 0 []]); ("B", [mkTask 1 [item]])] [] = Ok st ∧
    nodeExecutionStack st = [e] ∧ exec_data e = [("main", [Val [item]])] ∧
    (λ s : ITaskDataConnectionsSource, length <$> obj_get "main" s) <$> exec_source e = Some (Some 2).
Proof.
  split; [by_eval|]. eexists _, _. split; [vm_compute; reflexivity|].
  split; [reflexivity|]. split; reflexivity.
Qed.
