(* ===== verification/Connections.v ===== *)
(** * Connections by node name

    The functions of [packages/workflow/src/common]: the traversal of the
    nested, name-based connection format of a workflow, and its inversion. *)

From S2P Require Import Prelude JsCollections NodeTypes DirectedGraph Fixtures.

(** ** [getNodeByName] *)

Definition getNodeByName (ns : INodes + list INode) (name : string) : option INode :=
  match ns with
  | inr l => head (filter (λ node, node_name node = name) l)
  | inl o => if obj_has name o then obj_get name o else None
  end.

(** ** [getConnectedNodes] *)

(** A connection type, ['ALL'] or ['ALL_NON_MAIN'] *)
Inductive ConnectionSelector :=
  | OfType (type : NodeConnectionType)
  | ALL
  | ALL_NON_MAIN.

Definition selectTypes (connectionType : ConnectionSelector) (nodeConnections : INodeConnections)
    : list NodeConnectionType :=
  match connectionType with
  | ALL => nodeConnections.*1
  | ALL_NON_MAIN => filter (λ type, type ≠ "main") nodeConnections.*1
  | OfType type => [type]
  end.

(** The connections the nested [forEach] loops visit, in order. *)
Definition selectConnections (connectionType : ConnectionSelector) (nodeConnections : INodeConnections)
    : list IConnection :=
  mjoin ((λ type, mjoin (default [] <$> default [] (obj_get type nodeConnections)))
         <$> selectTypes connectionType nodeConnections).

(** [splice(indexOf(x), 1)] *)
Fixpoint removeFirst (x : string) (l : list string) : list string :=
  match l with
  | [] => []
  | y :: l => if bool_decide (y = x) then l else y :: removeFirst x l
  end.

(** The inner [for] loop, which moves [addNodes] to the front of
    [returnNodes], from the last to the first. *)
Definition moveToFront (addNodes returnNodes : list string) : list string :=
  foldr (λ parentNodeName returnNodes, parentNodeName :: removeFirst parentNodeName returnNodes)
    returnNodes addNodes.

Fixpoint getConnectedNodesRec (fuel : nat) (cs : IConnections) (nodeName : string)
    (connectionType : ConnectionSelector) (depth : Z) (checkedNodesIncoming : list string)
    : res (list string) :=
  match fuel with
  | 0 => OutOfFuel
  | S fuel =>
      let newDepth := if bool_decide (depth = -1)%Z then depth else (depth - 1)%Z in
      if bool_decide (depth = 0)%Z then Ok [] else
      match obj_get nodeName cs with
      | None => Ok []
      | Some nodeConnections =>
          if set_has nodeName checkedNodesIncoming then Ok [] else
          let checkedNodes := checkedNodesIncoming ++ [nodeName] in
          foldM (λ returnNodes connection,
            if set_has (conn_node connection) checkedNodes then Ok returnNodes else
            addNodes ← getConnectedNodesRec fuel cs (conn_node connection) connectionType newDepth
                         checkedNodes;
            Ok (moveToFront addNodes (conn_node connection :: returnNodes)))
            [] (selectConnections connectionType nodeConnections)
      end
  end.

Definition getConnectedNodes (cs : IConnections) (nodeName : string)
    (connectionType : ConnectionSelector) (depth : Z) : res (list string) :=
  getConnectedNodesRec (S (S (length cs))) cs nodeName connectionType depth [].

Definition getChildNodes (connectionsBySourceNode : IConnections) (nodeName : string)
    (type : ConnectionSelector) (depth : Z) : res (list string) :=
  getConnectedNodes connectionsBySourceNode nodeName type depth.

Definition getParentNodes (connectionsByDestinationNode : IConnections) (nodeName : string)
    (type : ConnectionSelector) (depth : Z) : res (list string) :=
  getConnectedNodes connectionsByDestinationNode nodeName type depth.

(** ** [mapConnectionsByDestination] *)

(** [while (a.length <= i) a.push([])], then [a[i]?.push(x)] *)
Definition padPush (i : nat) (x : IConnection) (a : NodeInputConnections) : NodeInputConnections :=
  let a := a ++ replicate (S i - length a) (Some []) in
  <[i := (λ l, l ++ [x]) <$> default None (a !! i)]> a.

Definition addByDestination (returnConnection : IConnections)
    (entry : string * string * nat * IConnection) : IConnections :=
  let '(sourceNode, type, inputIndex, connectionInfo) := entry in
  let nodeConns := default [] (obj_get (conn_node connectionInfo) returnConnection) in
  let typeConns := default [] (obj_get (conn_type connectionInfo) nodeConns) in
  obj_set (conn_node connectionInfo)
    (obj_set (conn_type connectionInfo)
      (padPush (conn_index connectionInfo)
        {| conn_node := sourceNode; conn_type := type; conn_index := inputIndex |} typeConns)
      nodeConns) returnConnection.

Definition mapConnectionsByDestination (cs : IConnections) : IConnections :=
  foldl addByDestination [] (flattenConnections cs).

(** ** Reachability of names *)

Section connected.
Context (cs : IConnections) (sel : ConnectionSelector).

(** A connection of a selected type leads from [a] to [b]. *)
Definition linked (a b : string) : Prop :=
  ∃ nc c, obj_get a cs = Some nc ∧ c ∈ selectConnections sel nc ∧ conn_node c = b.

Definition linkedAvoiding (avoid : list string) (a b : string) : Prop := linked a b ∧ b ∉ avoid.

(** [k] steps are allowed at this depth limit. *)
Definition allowed (depth : Z) (k : nat) : Prop := depth = (-1)%Z ∨ (Z.of_nat k ≤ depth)%Z.

Lemma elem_of_removeFirst x y l : y ≠ x → y ∈ removeFirst x l ↔ y ∈ l.
Proof.
  intros Hne. induction l as [|z l IH]; simpl; [done|]. case_bools; [set_solver|].
  rewrite !elem_of_cons, IH. done.
Qed.

Lemma elem_of_moveToFront x add ret : x ∈ moveToFront add ret ↔ x ∈ add ∨ x ∈ ret.
Proof.
  induction add as [|y add IH]; simpl; [set_solver|].
  rewrite elem_of_cons. destruct (decide (x = y)) as [->|Hne]; [set_solver|].
  rewrite elem_of_removeFirst by done. fold (moveToFront add ret). rewrite IH. set_solver.
Qed.

Lemma avoiding_last_visit S b k a x :
  nsteps (linkedAvoiding S) k a x →
  nsteps (linkedAvoiding (S ++ [b])) k a x ∨
  ∃ j, j ≤ k ∧ nsteps (linkedAvoiding (S ++ [b])) j b x.
Proof.
  induction 1 as [a|k a c x [Hac Hc] _ [IH|(j & ? & IH)]].
  - left. apply nsteps_O.
  - destruct (decide (c = b)) as [->|Hne]; [right; exists k; split; [lia|done]|].
    left. eapply nsteps_l; [|done]. split; [done|]. set_solver.
  - right. exists j. split; [lia|done].
Qed.

Lemma avoiding_weaken S T k a x :
  T ⊆ S → nsteps (linkedAvoiding S) k a x → nsteps (linkedAvoiding T) k a x.
Proof.
  intros Hsub. induction 1 as [a|k a c x [Hac Hc] _ IH]; [apply nsteps_O|].
  eapply nsteps_l; [|done]. split; [done|]. set_solver.
Qed.

Lemma avoiding_target S k a x : nsteps (linkedAvoiding S) (Datatypes.S k) a x → x ∉ S.
Proof.
  intros H. apply nsteps_inv_r in H as (y & _ & [_ ?]). done.
Qed.

Lemma allowed_pred depth k :
  (-1 ≤ depth)%Z → allowed depth (S k) ↔
  depth ≠ 0%Z ∧ allowed (if bool_decide (depth = -1)%Z then depth else depth - 1)%Z k.
Proof. intros. unfold allowed. case_bools; lia. Qed.

(** What a search with this fuel returns *)
Definition connectedSpec (fuel : nat) : Prop :=
  ∀ n depth checked,
  (-1 ≤ depth)%Z → NoDup checked → checked ⊆ cs.*1 → n ∉ checked →
  length cs < fuel + length checked →
  ∃ r, getConnectedNodesRec (S fuel) cs n sel depth checked = Ok r ∧
    ∀ x, x ∈ r ↔ ∃ k, allowed depth (S k) ∧ nsteps (linkedAvoiding (checked ++ [n])) (S k) n x.

(** The nodes reached through the connections [pre], outside of [avoid] *)
Definition reachedThrough (avoid : list string) (depth : Z) (pre : list IConnection) (r : list string) : Prop :=
  ∀ x, x ∈ r ↔ ∃ c k, c ∈ pre ∧ allowed depth k ∧ (conn_node c ∉ avoid) ∧ nsteps (linkedAvoiding avoid) k (conn_node c) x.

(** The iteration for one connection *)
Lemma connection_step fuel n depth checked pre c t :
  connectedSpec fuel → (-1 ≤ depth)%Z → NoDup checked → checked ⊆ cs.*1 → n ∉ checked → n ∈ cs.*1 →
  length cs < S fuel + length checked → reachedThrough (checked ++ [n]) depth pre t →
  ∃ t', (if set_has (conn_node c) (checked ++ [n]) then Ok t else
         addNodes ← getConnectedNodesRec (S fuel) cs (conn_node c) sel depth (checked ++ [n]);
         Ok (moveToFront addNodes (conn_node c :: t))) = Ok t' ∧
    reachedThrough (checked ++ [n]) depth (pre ++ [c]) t'.
Proof.
  intros IH Hd Hnd Hsub Hn Hnk Hf Ht. unfold set_has.
  destruct (bool_decide_reflect (conn_node c ∈ checked ++ [n])) as [Hin|Hnin].
  { exists t. split; [done|]. intros x. rewrite (Ht x). split.
    - intros (e & k & He & Hrest). exists e, k. set_solver.
    - intros (e & k & [He| ->]%elem_of_snoc & ? & ? & ?); [by exists e, k|done]. }
  destruct (IH (conn_node c) depth (checked ++ [n])) as (add & Hadd & Hspec);
    [done|by apply NoDup_snoc|set_solver|done|rewrite length_app; simpl; lia|].
  rewrite Hadd. cbn [mbind res_bind]. eexists. split; [done|]. intros x.
  rewrite elem_of_moveToFront, elem_of_cons, Hspec, (Ht x). split.
  - intros [(k & Hk & Hns)|[->|(e & k & He & Hrest)]].
    + exists c, (S k). split_and!; [set_solver|done|done|].
      eapply avoiding_weaken; [|exact Hns]. set_solver.
    + exists c, 0. split_and!; [set_solver| |done|apply nsteps_O].
      unfold allowed. clear -Hd. lia.
    + exists e, k. set_solver.
  - intros (e & k & [He| ->]%elem_of_snoc & Hk & Hav & Hns); [right; right; by exists e, k|].
    destruct (avoiding_last_visit _ (conn_node c) _ _ _ Hns) as [Hns'|(j & Hj & Hns')].
    + destruct k as [|k]; [right; left; by inversion Hns'|]. left. by exists k.
    + destruct j as [|j]; [right; left; by inversion Hns'|]. left. exists j. split; [|done].
      unfold allowed in *. lia.
Qed.

Lemma getConnectedNodesRec_spec fuel : connectedSpec fuel.
Proof.
  induction fuel as [|fuel IH]; intros n depth checked Hd Hnd Hsub Hn Hf.
  { pose proof (NoDup_incl_length _ _ Hnd Hsub) as Hl. rewrite length_fmap in Hl. lia. }
  remember (S fuel) as fuel' eqn:Hfuel'. cbn [getConnectedNodesRec].
  destruct (bool_decide_reflect (depth = 0)%Z) as [->|Hd0].
  { exists []. split; [done|]. intros x. split; [set_solver|].
    intros (k & [?|?] & _); lia. }
  set (d' := if bool_decide (depth = -1)%Z then depth else (depth - 1)%Z).
  assert (-1 ≤ d')%Z as Hd' by (subst d'; case_bools; lia).
  destruct (obj_get n cs) as [nc|] eqn:Hnc; cycle 1.
  { exists []. split; [done|]. intros x. split; [set_solver|]. intros (k & _ & Hk).
    apply nsteps_first in Hk as (y & [(nc & c & Hget & _) _] & _). congruence. }
  unfold set_has at 1. rewrite bool_decide_false by done.
  assert (n ∈ cs.*1) as Hnk.
  { apply map_get_elem_of in Hnc. apply list_elem_of_fmap. by exists (n, nc). }
  match goal with |- context [foldM ?f _ _] => destruct (foldM_total f
    (reachedThrough (checked ++ [n]) d') [] (selectConnections sel nc)) as (r & Hr & HP) end.
  - unfold reachedThrough. set_solver.
  - intros pre c t Ht Hc. subst fuel'. by apply connection_step.
  - exists r. split; [done|]. intros x. rewrite (HP x). split.
    + intros (c & k & Hc & Hk & Hav & Hns). exists k. split; [by apply allowed_pred|].
      eapply nsteps_l; [|exact Hns]. split; [|done]. by exists nc, c.
    + intros (k & Hk & Hns). apply nsteps_first in Hns as (y & [(nc' & c & Hget & Hc & <-) Hav] & Hns).
      rewrite Hnc in Hget. simplify_eq. exists c, k. split_and!; [done| |done|done].
      by apply allowed_pred.
Qed.

Lemma linked_avoiding_start n x k :
  x ≠ n → nsteps linked (S k) n x → ∃ j, j ≤ k ∧ nsteps (linkedAvoiding [n]) (S j) n x.
Proof.
  intros Hx Hns.
  assert (nsteps (linkedAvoiding []) (S k) n x) as Hns'.
  { clear Hx. induction Hns as [|? ? ? ? ? _ IH]; [apply nsteps_O|].
    eapply nsteps_l; [|exact IH]. split; [done|]. apply not_elem_of_nil. }
  destruct (avoiding_last_visit [] n _ _ _ Hns') as [Hl|(j & Hj & Hl)]; simpl in Hl; [by exists k|].
  destruct j as [|j]; [by inversion Hl|]. exists j. split; [lia|done].
Qed.

Lemma getConnectedNodes_spec n depth :
  (-1 ≤ depth)%Z →
  ∃ r, getConnectedNodes cs n sel depth = Ok r ∧
    ∀ x, x ∈ r ↔ x ≠ n ∧ ∃ k, allowed depth (S k) ∧ nsteps linked (S k) n x.
Proof.
  intros Hd. unfold getConnectedNodes.
  destruct (getConnectedNodesRec_spec (S (length cs)) n depth []) as (r & Hr & HP);
    [done|constructor|set_solver|set_solver|simpl; lia|].
  exists r. split; [done|]. intros x. rewrite HP. simpl. split.
  - intros (k & Hk & Hns). split.
    + apply avoiding_target in Hns. set_solver.
    + exists k. split; [done|]. clear Hk HP.
      induction Hns as [|? ? ? ? [? _] _ IH]; [apply nsteps_O|by eapply nsteps_l].
  - intros (Hx & k & Hk & Hns). destruct (linked_avoiding_start n x k Hx Hns) as (j & Hj & Hns').
    exists j. split; [|done]. unfold allowed in *. lia.
Qed.
End connected.

(** [getConnectedNodes] (and so [getChildNodes] and [getParentNodes])
    terminates on every workflow, cyclic ones included, and returns exactly the
    other nodes that can be reached by connections of the selected types in at
    most [depth] steps (in any number of steps for the depth -1). *)
Theorem getConnectedNodes_reachable cs n sel depth :
  (-1 ≤ depth)%Z →
  ∃ r, getConnectedNodes cs n sel depth = Ok r ∧
    ∀ x, x ∈ r ↔ x ≠ n ∧ ∃ k, allowed depth (S k) ∧ nsteps (linked cs sel) (S k) n x.
Proof. apply getConnectedNodes_spec. Qed.

Definition chainConnections : IConnections :=
  [("A", [("main", [Some [ {| conn_node := "B"; conn_type := "main"; conn_index := 0 |} ]])]);
   ("B", [("main", [None; Some [ {| conn_node := "D"; conn_type := "main"; conn_index := 1 |};
                                 {| conn_node := "A"; conn_type := "main"; conn_index := 0 |} ]])]);
   ("T", [("ai_tool", [Some [ {| conn_node := "D"; conn_type := "ai_tool"; conn_index := 0 |} ]])])].

Lemma getConnectedNodes_reachable_witness :
  getConnectedNodes chainConnections "A" (OfType "main") (-1) = Ok ["D"; "B"] ∧
  ∃ r, getConnectedNodes chainConnections "A" (OfType "main") (-1) = Ok r ∧
    ∀ x, x ∈ r ↔ x ≠ "A" ∧ ∃ k, allowed (-1) (S k) ∧
      nsteps (linked chainConnections (OfType "main")) (S k) "A" x.
Proof.
  split; [reflexivity|]. apply (getConnectedNodes_reachable chainConnections "A" (OfType "main") (-1)).
  lia.
Defined.

(** ** Inverting the connections *)

Section inverse.

Lemma flat_obj_set {V A} (F : string * V → list A) k v (o : jsobj V) x :
  F (k, v) ≡ₚ x :: default [] ((λ v', F (k, v')) <$> obj_get k o) →
  mjoin (F <$> obj_set k v o) ≡ₚ x :: mjoin (F <$> o).
Proof.
  intros HF. unfold obj_set, map_has. destruct (bool_decide_reflect (k ∈ o.*1)) as [Hin|Hnin].
  - unfold obj_get in HF. induction o as [|[k' v'] o IH]; simpl in *; [set_solver|].
    case_bools; subst; simpl in *; [by rewrite HF|].
    rewrite IH by set_solver. symmetry. apply Permutation_middle.
  - apply map_get_None in Hnin. unfold obj_get in HF. rewrite Hnin in HF. simpl in HF.
    rewrite obj_insert_perm. simpl. by rewrite HF.
Qed.

Lemma flattenOutputs_pad n t a m : flattenOutputs n t (a ++ replicate m (Some [])) = flattenOutputs n t a.
Proof.
  unfold flattenOutputs. rewrite imap_app, join_app.
  assert (∀ (f : nat → option (list IConnection) → list (string * string * nat * IConnection)),
    (∀ j, f j (Some []) = []) → mjoin (imap f (replicate m (Some []))) = []) as Hz.
  { induction m as [|m IH]; intros f Hf; simpl; [done|]. rewrite Hf. apply IH. intros j. apply Hf. }
  rewrite Hz by done. apply app_nil_r.
Qed.

Lemma padPush_flatten n t i x a :
  None ∉ a → flattenOutputs n t (padPush i x a) ≡ₚ (n, t, i, x) :: flattenOutputs n t a.
Proof.
  intros Ha. unfold padPush. rewrite <- (flattenOutputs_pad n t a (S i - length a)).
  assert (None ∉ a ++ replicate (S i - length a) (Some [])) as Hb.
  { rewrite elem_of_app, elem_of_replicate. naive_solver. }
  assert (i < length (a ++ replicate (S i - length a) (Some [] : option (list IConnection)))) as Hi
    by (rewrite length_app, length_replicate; lia).
  revert Hb Hi. generalize (a ++ replicate (S i - length a) (Some [])) as b. intros b Hb Hi.
  destruct (lookup_lt_is_Some_2 _ _ Hi) as [[e|] He]; cycle 1.
  { destruct Hb. by eapply list_elem_of_lookup_2. }
  rewrite He. simpl. unfold flattenOutputs.
  rewrite insert_take_drop by done. rewrite <- (take_drop_middle b i _ He) at 3.
  rewrite !imap_app, !join_app. simpl.
  rewrite length_take_le by lia. rewrite Nat.add_0_r, fmap_app. simpl.
  rewrite <- app_assoc. simpl. rewrite <- !Permutation_middle. done.
Qed.

Lemma padPush_no_null i x a : None ∉ a → None ∉ padPush i x a.
Proof.
  intros Ha. unfold padPush. set (b := a ++ _).
  assert (None ∉ b) as Hb. { subst b. rewrite elem_of_app, elem_of_replicate. naive_solver. }
  intros (j & Hj)%list_elem_of_lookup. apply list_lookup_insert_Some in Hj as [(-> & He & Hl)|[_ Hj]].
  - destruct (lookup_lt_is_Some_2 b j Hl) as [[e|] Hb']; rewrite Hb' in He; [done|].
    apply Hb. by eapply list_elem_of_lookup_2.
  - apply Hb. by eapply list_elem_of_lookup_2.
Qed.

(** No entry of the arrays built so far is [null]. *)
Definition noNulls (cs : IConnections) : Prop :=
  ∀ n nc t a, obj_get n cs = Some nc → obj_get t nc = Some a → None ∉ a.

(** An entry as the other end of the connection sees it. *)
Definition flipEntry (e : string * string * nat * IConnection) : string * string * nat * IConnection :=
  let '(sourceNode, type, index, c) := e in
  (conn_node c, conn_type c, conn_index c,
    {| conn_node := sourceNode; conn_type := type; conn_index := index |}).

Lemma flipEntry_involutive e : flipEntry (flipEntry e) = e.
Proof. by destruct e as [[[? ?] ?] [? ? ?]]. Qed.

Lemma addByDestination_flatten rc e :
  noNulls rc → flattenConnections (addByDestination rc e) ≡ₚ flipEntry e :: flattenConnections rc.
Proof.
  intros Hn. destruct e as [[[src ty] i] [n t j]]. unfold flattenConnections, addByDestination. simpl.
  apply (flat_obj_set (λ '(n, nc), mjoin ((λ '(t, a), flattenOutputs n t a) <$> nc))).
  rewrite (flat_obj_set (λ '(t, a), flattenOutputs n t a) t _ _
    (n, t, j, {| conn_node := src; conn_type := ty; conn_index := i |})).
  - by destruct (obj_get n rc).
  - rewrite padPush_flatten.
    + by destruct (obj_get t (default [] (obj_get n rc))).
    + destruct (obj_get n rc) as [nc|] eqn:Hnc; simpl; [|apply not_elem_of_nil].
      destruct (obj_get t nc) as [a|] eqn:Ha; simpl; [by eapply Hn|apply not_elem_of_nil].
Qed.

Lemma addByDestination_no_null rc e : noNulls rc → noNulls (addByDestination rc e).
Proof.
  intros Hn. destruct e as [[[src ty] i] [n t j]]. intros n' nc t' a. unfold addByDestination. simpl.
  rewrite obj_get_set. destruct (bool_decide_reflect (n' = n)) as [->|]; [|apply Hn].
  intros [= <-]. rewrite obj_get_set.
  destruct (obj_get n rc) as [nc|] eqn:Hnc; simpl.
  - destruct (bool_decide_reflect (t' = t)) as [->|]; [|intros; by eapply Hn].
    intros [= <-]. apply padPush_no_null.
    destruct (obj_get t nc) as [b|] eqn:Hb; simpl; [by eapply Hn|apply not_elem_of_nil].
  - case_bools; [|done]. intros [= <-]. apply padPush_no_null, not_elem_of_nil.
Qed.

Lemma mapConnectionsByDestination_flatten cs :
  flattenConnections (mapConnectionsByDestination cs) ≡ₚ flipEntry <$> flattenConnections cs.
Proof.
  unfold mapConnectionsByDestination.
  assert (∀ l rc, noNulls rc →
    flattenConnections (foldl addByDestination rc l) ≡ₚ (flipEntry <$> l) ++ flattenConnections rc)
    as Hgen.
  { induction l as [|e l IH]; intros rc Hn; simpl; [done|].
    rewrite IH by by apply addByDestination_no_null.
    rewrite addByDestination_flatten by done. by rewrite <- Permutation_middle. }
  rewrite Hgen by done. by rewrite app_nil_r.
Qed.
End inverse.

(** [mapConnectionsByDestination] is the exact inverse view of a workflow's
    connections: its entries are, with multiplicity, the entries of the input seen
    from their destination, so that applying it twice gives back the
    connections of the input. *)
Theorem mapConnectionsByDestination_inverts cs :
  flattenConnections (mapConnectionsByDestination cs) ≡ₚ flipEntry <$> flattenConnections cs ∧
  flattenConnections (mapConnectionsByDestination (mapConnectionsByDestination cs)) ≡ₚ
    flattenConnections cs.
Proof.
  split; [apply mapConnectionsByDestination_flatten|].
  rewrite !mapConnectionsByDestination_flatten, <- list_fmap_compose.
  rewrite (list_fmap_ext _ id); [by rewrite list_fmap_id|].
  intros ? e ?. apply flipEntry_involutive.
Qed.
