(* ===== verification/Subgraph.v ===== *)
(** * The part of the workflow between the trigger and the destination

    Model of [partial-execution-utils/find-subgraph.ts], and that it keeps every
    way from the trigger to the destination together with the sub-nodes of the
    nodes it keeps. *)

From S2P Require Import Prelude JsCollections NodeTypes DirectedGraph Fixtures GraphSearch.

(** ** The operations *)

(** [newGraph.addNodes(connection.from, connection.to);
    newGraph.addConnection(connection)] *)
Definition addConnected (newGraph : DirectedGraph) (connection : GraphConnection) : res DirectedGraph :=
  addConnection (addNodes newGraph [gc_from connection; gc_to connection])
    (inputOfConnection connection).

Definition keepBranch (newGraph : DirectedGraph) (currentBranch : list GraphConnection) : res DirectedGraph :=
  foldM addConnected newGraph currentBranch.

Fixpoint findSubgraphRecursive (fuel : nat) (graph : DirectedGraph)
    (destinationNode current trigger : INode) (newGraph : DirectedGraph)
    (currentBranch : list GraphConnection) : res DirectedGraph :=
  match fuel with
  | 0 => OutOfFuel
  | S fuel =>
      if bool_decide (current = trigger) then keepBranch (addNode newGraph trigger) currentBranch else
      parentConnections ← getDirectParentConnections graph current;
      if bool_decide (parentConnections = []) then Ok newGraph else
      if bool_decide (current = destinationNode) &&
         existsb (λ c, bool_decide (gc_to c = destinationNode)) currentBranch
      then Ok newGraph else
      if existsb (λ c, bool_decide (gc_to c = current)) currentBranch
      then keepBranch newGraph currentBranch else
      foldM (λ newGraph parentConnection,
        if bool_decide (gc_type parentConnection ≠ NodeConnectionTypes.Main) then Ok newGraph else
        findSubgraphRecursive fuel graph destinationNode (gc_from parentConnection) trigger newGraph
          (currentBranch ++ [parentConnection]))
        newGraph parentConnections
  end.

Definition attachSubNodes (graph subgraph : DirectedGraph) (node : INode) : res DirectedGraph :=
  parentConnections ← getParentConnections graph node;
  foldM (λ subgraph connection,
    if bool_decide (gc_type connection = NodeConnectionTypes.Main) then Ok subgraph
    else addConnected subgraph connection) subgraph parentConnections.

(** The loop over [subgraph.getNodes().values()]: a JavaScript map iterator also
    visits the entries that are added during the iteration; [i] is its position. *)
Fixpoint attachLoop (fuel : nat) (graph subgraph : DirectedGraph) (i : nat) : res DirectedGraph :=
  match fuel with
  | 0 => OutOfFuel
  | S fuel =>
      match (getNodes subgraph).*2 !! i with
      | None => Ok subgraph
      | Some node =>
          subgraph ← attachSubNodes graph subgraph node;
          attachLoop fuel graph subgraph (S i)
      end
  end.

Definition findSubgraph (graph : DirectedGraph) (destination trigger : INode) : res DirectedGraph :=
  subgraph ← findSubgraphRecursive (S (length (nodes graph))) graph destination destination trigger
               empty_graph [];
  attachLoop (S (length (nodes graph))) graph subgraph 0.

(** ** Subgraphs *)

Section subgraph.
Context (g : DirectedGraph) (Hg : wf g).

Record isSub (s : DirectedGraph) : Prop := {
  sub_wf : wf s;
  sub_nodes : ∀ n, inGraph s n → inGraph g n;
  sub_conns : ∀ c, c ∈ (connections s).*2 → c ∈ (connections g).*2;
}.

(** [s] grew to [t]; the map of nodes only gets new entries at its end. *)
Definition grows (s t : DirectedGraph) : Prop :=
  nodes s `prefix_of` nodes t ∧ ∀ c, c ∈ (connections s).*2 → c ∈ (connections t).*2.

#[local] Instance grows_preorder : PreOrder grows.
Proof.
  split; [intros s; split; [done|auto]|].
  intros s t u [? Hc] [? Hd]. split; [by etrans|auto].
Qed.

Lemma empty_isSub : isSub empty_graph.
Proof. split; [apply empty_graph_wf|done|set_solver]. Qed.

Lemma inGraph_grows s t n : isSub t → grows s t → inGraph s n → inGraph t n.
Proof.
  intros Ht [[l Hl] _] Hn. apply inGraph_elem_of; [apply Ht|]. rewrite Hl, fmap_app.
  apply elem_of_app. left. apply map_get_elem_of in Hn. apply elem_of_values. eauto.
Qed.

Lemma map_replace_same {K V} `{!EqDecision K} (k : K) (v : V) m :
  map_get k m = Some v → map_replace k v m = m.
Proof.
  induction m as [|[k' v'] m IH]; simpl; [done|]. case_bools; [naive_solver|].
  intros. by rewrite IH.
Qed.

(** Adding a node of the graph adds it at the end or changes nothing. *)
Lemma addNode_sub s n :
  isSub s → inGraph g n →
  isSub (addNode s n) ∧ grows s (addNode s n) ∧
  ∀ m, inGraph (addNode s n) m → inGraph s m ∨ m = n.
Proof.
  intros Hs Hn.
  assert (inGraph s n ∨ map_get (node_name n) (nodes s) = None) as Hcase.
  { destruct (map_get (node_name n) (nodes s)) as [m|] eqn:Hm; [left|by right].
    pose proof (wf_nodes_name s (sub_wf s Hs) _ _ (map_get_elem_of _ _ _ Hm)) as Heq.
    assert (inGraph s m) as Hsm by (unfold inGraph; by rewrite <- Heq).
    assert (m = n) as -> by (apply (inGraph_name_inj g); [by apply Hs|done|done]). done. }
  assert (∀ m, inGraph (addNode s n) m → inGraph s m ∨ m = n) as Hin.
  { intros m. unfold inGraph; simpl. rewrite map_get_set. case_bools; [right; congruence|by left]. }
  split; [|split; [|done]].
  - split.
    + apply addNode_wf; [apply Hs|done].
    + intros m [?| ->]%Hin; [by apply Hs|done].
    + intros c Hc. by apply Hs.
  - split; [|done]. simpl. destruct Hcase as [Hc|Hc].
    + unfold map_set. replace (map_has (node_name n) (nodes s)) with true.
      * by rewrite map_replace_same.
      * symmetry. apply map_has_get. by exists n.
    + rewrite map_set_fresh by by apply map_get_None. by exists [(node_name n, n)].
Qed.

Lemma conn_key_inj c c' :
  c ∈ (connections g).*2 → c' ∈ (connections g).*2 → makeKey c = makeKey c' → c = c'.
Proof.
  intros (k & Hk)%elem_of_values (k' & Hk')%elem_of_values Heq.
  pose proof (wf_conns_key g Hg _ _ Hk). pose proof (wf_conns_key g Hg _ _ Hk'). subst.
  apply map_get_unique in Hk, Hk'; [|apply Hg|apply Hg]. congruence.
Qed.

Lemma setConnection_sub s c :
  isSub s → c ∈ (connections g).*2 → inGraph s (gc_from c) → inGraph s (gc_to c) →
  isSub (setConnection s c) ∧
  ∀ d, d ∈ (connections (setConnection s c)).*2 ↔ d ∈ (connections s).*2 ∨ d = c.
Proof.
  intros Hs Hc Hf Ht.
  assert (∀ d, d ∈ (connections (setConnection s c)).*2 ↔ d ∈ (connections s).*2 ∨ d = c) as Hd.
  { intros d. simpl. rewrite !elem_of_values. setoid_rewrite elem_of_map_set; [|apply Hs..]. split.
    - intros (k & [?|[? _]]); simplify_eq; [by right|left; eauto].
    - intros [(k & Hk)| ->]; [|exists (makeKey c); by left].
      destruct (decide (k = makeKey c)) as [->|]; [|exists k; by right].
      exists (makeKey c). left. f_equal.
      apply conn_key_inj; [|done|].
      + apply Hs. apply elem_of_values; eauto.
      + symmetry. by eapply wf_conns_key; [apply Hs|]. }
  split; [|done]. split.
  - apply setConnection_wf; [apply Hs|done|done].
  - intros n Hn. by apply Hs.
  - intros d [?| ->]%Hd; [by apply Hs|done].
Qed.

Lemma addConnected_spec s c :
  isSub s → c ∈ (connections g).*2 →
  ∃ t, addConnected s c = Ok t ∧ isSub t ∧ grows s t ∧ c ∈ (connections t).*2 ∧
    (∀ d, d ∈ (connections t).*2 → d ∈ (connections s).*2 ∨ d = c) ∧
    (∀ n, inGraph t n → inGraph s n ∨ n = gc_from c ∨ n = gc_to c).
Proof.
  intros Hs Hc. unfold addConnected, addNodes. simpl.
  destruct (addNode_sub s (gc_from c)) as (Hs1 & Hg1 & Hn1); [done|eauto with n8n|].
  destruct (addNode_sub (addNode s (gc_from c)) (gc_to c)) as (Hs2 & Hg2 & Hn2);
    [done|eauto with n8n|].
  set (s2 := addNode (addNode s (gc_from c)) (gc_to c)) in *.
  assert (connectionOfInput (inputOfConnection c) = c) as Hinp by (by destruct c).
  assert (inGraph s2 (gc_from c)) as Hf.
  { eapply (inGraph_grows (addNode s (gc_from c))); [done|done|]. apply addNode_self. }
  assert (inGraph s2 (gc_to c)) as Ht by apply addNode_self.
  destruct (setConnection_sub s2 c Hs2 Hc Hf Ht) as [Hs3 Hd].
  exists (setConnection s2 c). split.
  { apply addConnection_ok. by rewrite Hinp. }
  split; [done|]. split; [|split; [|split]].
  - etrans; [exact Hg1|]. etrans; [exact Hg2|]. split; [done|]. intros d Hd'. apply Hd. by left.
  - apply Hd. by right.
  - intros d [?| ->]%Hd; [by left|by right].
  - intros n Hn. change (inGraph s2 n) in Hn.
    apply Hn2 in Hn as [Hn| ->]; [apply Hn1 in Hn as [?| ->]|]; auto.
Qed.

Lemma keepBranch_spec s branch :
  isSub s → (∀ c, c ∈ branch → c ∈ (connections g).*2) →
  ∃ t, keepBranch s branch = Ok t ∧ isSub t ∧ grows s t ∧
    (∀ c, c ∈ branch → c ∈ (connections t).*2) ∧
    (∀ d, d ∈ (connections t).*2 → d ∈ (connections s).*2 ∨ d ∈ branch) ∧
    (∀ n, inGraph t n → inGraph s n ∨ ∃ c, c ∈ branch ∧ (n = gc_from c ∨ n = gc_to c)).
Proof.
  intros Hs Hb. unfold keepBranch.
  apply (foldM_total addConnected (λ pre t, isSub t ∧ grows s t ∧
    (∀ c, c ∈ pre → c ∈ (connections t).*2) ∧
    (∀ d, d ∈ (connections t).*2 → d ∈ (connections s).*2 ∨ d ∈ pre) ∧
    (∀ n, inGraph t n → inGraph s n ∨ ∃ c, c ∈ pre ∧ (n = gc_from c ∨ n = gc_to c)))).
  - split_and!; [done|done|set_solver|auto|auto].
  - intros pre c t (Ht & Hgr & Hin & Hout & Hn) Hc.
    destruct (addConnected_spec t c Ht) as (u & Hu & Hsu & Hgu & Hcu & Hdu & Hnu); [auto|].
    exists u. split; [done|]. split_and!; [done|by etrans| | |].
    + intros d [?| ->]%elem_of_snoc; [by apply Hgu, Hin|done].
    + intros d [[?|?]%Hout| ->]%Hdu; [by left|right; set_solver|right; set_solver].
    + intros n [[?|(e & ? & ?)]%Hn|Hn']%Hnu; [by left|right; exists e; set_solver|].
      right. exists c. split; [set_solver|naive_solver].
Qed.

(** ** The backward search *)

(** Main connections followed backwards from [n] to [m]. *)
Inductive backPath : INode → list GraphConnection → INode → Prop :=
  | backPath_nil n : backPath n [] n
  | backPath_cons c l m :
      c ∈ (connections g).*2 → gc_type c = NodeConnectionTypes.Main →
      backPath (gc_from c) l m → backPath (gc_to c) (c :: l) m.

Lemma backPath_snoc n l c :
  backPath n l (gc_to c) → c ∈ (connections g).*2 → gc_type c = NodeConnectionTypes.Main →
  backPath n (l ++ [c]) (gc_from c).
Proof.
  intros Hp Hc Hm. remember (gc_to c) as k eqn:Hk. induction Hp; subst; simpl.
  - apply backPath_cons; [done|done|constructor].
  - apply backPath_cons; auto.
Qed.

Lemma backPath_conns n l m c : backPath n l m → c ∈ l → c ∈ (connections g).*2.
Proof. induction 1; set_solver. Qed.

(** Everything on a backward path leads to its start. *)
Lemma backPath_leads n l m :
  backPath n l m → rtc (edge g) m n ∧
  ∀ c, c ∈ l → rtc (edge g) (gc_from c) n ∧ rtc (edge g) (gc_to c) n.
Proof.
  induction 1 as [n|c l m Hc Hm _ [IHm IHl]]; [split; [done|set_solver]|].
  assert (rtc (edge g) (gc_from c) (gc_to c)) as Hstep by (apply rtc_once; by exists c).
  split; [by etrans|]. intros d [->|Hd]%elem_of_cons; [done|].
  destruct (IHl d Hd). split; by etrans.
Qed.

Context (d t : INode).

(** What one call establishes: the subgraph grows by nodes that lead to the
    destination. *)
Definition extends (s s' : DirectedGraph) : Prop :=
  isSub s' ∧ grows s s' ∧ ∀ n, inGraph s' n → inGraph s n ∨ rtc (edge g) n d.

Lemma extends_trans s s1 s2 : extends s s1 → extends s1 s2 → extends s s2.
Proof.
  intros (? & ? & Hn1) (? & ? & Hn2). split; [done|]. split; [by etrans|].
  intros n [?|?]%Hn2; auto.
Qed.

Lemma keepBranch_extends s branch m :
  isSub s → backPath d branch m →
  ∃ s', keepBranch s branch = Ok s' ∧ extends s s' ∧ ∀ c, c ∈ branch → c ∈ (connections s').*2.
Proof.
  intros Hs Hp. destruct (keepBranch_spec s branch Hs) as (s' & Hok & Hs' & Hgr & Hin & _ & Hn).
  { intros c. by eapply backPath_conns. }
  exists s'. split; [done|]. split; [|done]. split; [done|]. split; [done|].
  destruct (backPath_leads _ _ _ Hp) as [_ Hl].
  intros n [?|(c & Hc & [->| ->])]%Hn; [by left|right; by apply Hl..].
Qed.

(** A simple way back from [current] to the trigger. *)
Definition simpleWay (current : INode) (branch way : list GraphConnection) : Prop :=
  backPath current way t ∧ NoDup (gc_to <$> branch ++ way) ∧ t ∉ gc_to <$> way.

Definition found (branch way : list GraphConnection) (s : DirectedGraph) : Prop :=
  inGraph s t ∧ ∀ c, c ∈ branch ++ way → c ∈ (connections s).*2.

Lemma found_extends branch way s s' : extends s s' → found branch way s → found branch way s'.
Proof.
  intros (? & Hgr & _) [Ht Hc]. split; [by eapply inGraph_grows|].
  intros c Hin. by apply Hgr, Hc.
Qed.

Lemma branch_length branch current :
  backPath d branch current → NoDup (gc_to <$> branch) → length branch ≤ length (nodes g).
Proof.
  intros Hp Hnd. rewrite <- (length_fmap gc_to), <- (length_fmap snd (nodes g)).
  apply NoDup_incl_length; [done|]. intros n (c & -> & Hc)%list_elem_of_fmap.
  apply inGraph_elem_of; [done|]. apply wf_conn_to; [done|]. by eapply backPath_conns.
Qed.

Lemma existsb_to n branch :
  existsb (λ c, bool_decide (gc_to c = n)) branch = true ↔ n ∈ gc_to <$> branch.
Proof.
  rewrite existsb_elem_of, list_elem_of_fmap. setoid_rewrite bool_decide_eq_true. naive_solver.
Qed.

(** A branch that arrives at the trigger is kept. *)
Lemma trigger_found s branch :
  isSub s → inGraph g t → backPath d branch t →
  ∃ s', keepBranch (addNode s t) branch = Ok s' ∧ extends s s' ∧
    ∀ way, simpleWay t branch way → found branch way s'.
Proof.
  intros Hs Ht Hp. destruct (addNode_sub s t Hs Ht) as (Hs1 & Hg1 & Hn1).
  destruct (keepBranch_extends (addNode s t) branch t Hs1 Hp) as (s' & Hok & Hext & Hin).
  exists s'. split; [done|]. split.
  - eapply extends_trans; [|exact Hext]. split; [done|]. split; [done|].
    intros n [?| ->]%Hn1; [by left|right]. by destruct (backPath_leads _ _ _ Hp).
  - intros way (Hw & _ & Hnt). assert (way = []) as ->.
    { inversion Hw; subst; [done|]. simpl in Hnt. set_solver. }
    split; [|by rewrite app_nil_r]. destruct Hext as (? & ? & _).
    eapply inGraph_grows; [done|done|]. apply addNode_self.
Qed.

(** No simple way passes a node twice. *)
Lemma visited_no_way current branch way :
  current ≠ t → current ∈ gc_to <$> branch → ¬ simpleWay current branch way.
Proof.
  intros Hne Hin (Hw & Hnd' & _). inversion Hw; subst; [done|].
  rewrite fmap_app in Hnd'. apply NoDup_app in Hnd' as (_ & Hdisj & _).
  eapply (Hdisj (gc_to c)); [done|]. simpl. left.
Qed.

(** What a search with this fuel finds *)
Definition searchSpec (fuel : nat) : Prop :=
  ∀ current s branch,
  isSub s → inGraph g t → inGraph g current → backPath d branch current →
  NoDup (gc_to <$> branch) → length (nodes g) < fuel + length branch →
  ∃ s', findSubgraphRecursive fuel g d current t s branch = Ok s' ∧ extends s s' ∧
    ∀ way, simpleWay current branch way → found branch way s'.

Lemma extends_refl s : isSub s → extends s s.
Proof. intros Hs. split; [done|split; [done|by left]]. Qed.

(** The iteration for one connection into the current node *)
Lemma parent_step fuel current branch c s :
  searchSpec fuel → isSub s → inGraph g t → backPath d branch current → NoDup (gc_to <$> branch) →
  current ∉ gc_to <$> branch → length (nodes g) < S fuel + length branch →
  gc_to c = current → c ∈ (connections g).*2 →
  ∃ s', (if bool_decide (gc_type c ≠ NodeConnectionTypes.Main) then Ok s else
           findSubgraphRecursive fuel g d (gc_from c) t s (branch ++ [c])) = Ok s' ∧ extends s s' ∧
    ∀ way, simpleWay current branch (c :: way) → found branch (c :: way) s'.
Proof.
  intros IH Hs Ht Hp Hnd Hfresh Hfuel Hto Hc.
  destruct (bool_decide_reflect (gc_type c ≠ NodeConnectionTypes.Main)) as [Hnm|Hm].
  { exists s. split; [done|]. split; [by apply extends_refl|].
    intros way (Hw & _). by inversion Hw. }
  apply dec_stable in Hm. subst current.
  destruct (IH (gc_from c) s (branch ++ [c])) as (s2 & Hs2 & Hext2 & Hfound2); [done|done|..].
  { by apply wf_conn_from. }
  { by apply backPath_snoc. }
  { rewrite fmap_app. by apply NoDup_snoc. }
  { rewrite length_app. simpl. lia. }
  exists s2. split; [done|]. split; [done|].
  intros way (Hw & Hnd' & Hnt). unfold found. rewrite cons_middle, app_assoc.
  apply Hfound2. split; [by inversion Hw|]. split; [by rewrite <- app_assoc|simpl in Hnt; set_solver].
Qed.

Lemma findSubgraphRecursive_spec fuel : searchSpec fuel.
Proof.
  induction fuel as [|fuel IH]; intros current s branch Hs Ht Hcur Hp Hnd Hfuel.
  { pose proof (branch_length _ _ Hp Hnd). lia. }
  cbn [findSubgraphRecursive].
  destruct (bool_decide_reflect (current = t)) as [->|Hne].
  { by apply trigger_found. }
  destruct (parents_total g current Hcur) as (pcs & Hpcs). rewrite Hpcs. cbn [mbind res_bind].
  apply parentConnections_ok in Hpcs as [_ Hpcs].
  assert (∀ c, c ∈ pcs ↔ gc_to c = current ∧ c ∈ (connections g).*2) as Hpc.
  { intros c. by rewrite Hpcs, list_elem_of_filter. }
  pose proof (extends_refl s Hs) as Hrefl.
  destruct (bool_decide_reflect (pcs = [])) as [->|Hpcs'].
  { exists s. split; [done|]. split; [done|]. intros way (Hw & _).
    inversion Hw; subst; [done|]. exfalso. eapply not_elem_of_nil. by apply Hpc. }
  destruct (bool_decide (current = d) && _) eqn:Hcd.
  { apply andb_true_iff in Hcd as [->%bool_decide_eq_true Hcd]. apply existsb_to in Hcd.
    exists s. split; [done|]. split; [done|]. intros way Hway. by destruct (visited_no_way d branch way). }
  destruct (existsb (λ c, bool_decide (gc_to c = current)) branch) eqn:Hcc.
  { apply existsb_to in Hcc.
    destruct (keepBranch_extends s branch current Hs Hp) as (s' & Hok & Hext & _).
    exists s'. split; [done|]. split; [done|]. intros way Hway. by destruct (visited_no_way current branch way). }
  assert (current ∉ gc_to <$> branch) as Hfresh.
  { intros Hin. apply existsb_to in Hin. congruence. }
  match goal with |- context [foldM ?f _ _] => destruct (foldM_total f
    (λ pre s', extends s s' ∧ ∀ c way, c ∈ pre → simpleWay current branch (c :: way) →
       found branch (c :: way) s') s pcs) as (s' & Hok & Hext & Hfound) end.
  - split; [done|]. set_solver.
  - intros pre c s1 (Hext & Hf) [Hto Hc]%Hpc.
    destruct (parent_step fuel current branch c s1) as (s2 & Hs2 & Hext2 & Hfound2); [done|apply Hext|done..|].
    exists s2. split; [done|]. split; [by eapply extends_trans|].
    intros e way [He| ->]%elem_of_snoc Hway; [eapply found_extends; eauto|by apply Hfound2].
  - exists s'. split; [done|]. split; [done|]. intros way Hway.
    pose proof Hway as (Hw & _). inversion Hw; subst; [done|].
    apply Hfound; [by apply Hpc|done].
Qed.

(** ** Attaching the sub-nodes *)

Definition attached (s : DirectedGraph) (n : INode) : Prop :=
  ∀ c, c ∈ (connections g).*2 → gc_type c ≠ NodeConnectionTypes.Main →
    rtc (edge g) (gc_to c) n → c ∈ (connections s).*2.

Lemma addConnected_extends s c n :
  isSub s → c ∈ (connections g).*2 → rtc (edge g) (gc_to c) n → rtc (edge g) n d →
  ∃ s', addConnected s c = Ok s' ∧ extends s s' ∧ c ∈ (connections s').*2.
Proof.
  intros Hs Hc Hcn Hnd. destruct (addConnected_spec s c Hs Hc) as (s' & ? & ? & ? & ? & _ & Hn).
  exists s'. split; [done|]. split; [|done]. split; [done|]. split; [done|].
  assert (rtc (edge g) (gc_to c) d) as Hto by by etrans.
  intros m [?|[->| ->]]%Hn; [by left|right|by right].
  eapply rtc_l; [|exact Hto]. by exists c.
Qed.

Lemma attachSubNodes_spec s n :
  isSub s → inGraph g n → rtc (edge g) n d →
  ∃ s', attachSubNodes g s n = Ok s' ∧ extends s s' ∧ attached s' n.
Proof.
  intros Hs Hn Hnd. unfold attachSubNodes.
  destruct (getParentConnections_spec g n Hg Hn) as (pcs & -> & _ & Hpcs). cbn [mbind res_bind].
  destruct (foldM_total (λ subgraph connection,
      if bool_decide (gc_type connection = NodeConnectionTypes.Main) then Ok subgraph
      else addConnected subgraph connection)
    (λ pre s', extends s s' ∧
       ∀ c, c ∈ pre → gc_type c ≠ NodeConnectionTypes.Main → c ∈ (connections s').*2) s pcs)
    as (s' & Hok & Hext & Hall).
  - split; [|set_solver]. split; [done|]. split; [done|by left].
  - intros pre c s1 (Hext & Hin) [Hc Hcn]%Hpcs. case_bools.
    { exists s1. split; [done|]. split; [done|]. intros e [?| ->]%elem_of_snoc ?; [auto|done]. }
    destruct (addConnected_extends s1 c n) as (s2 & Hs2 & Hext2 & Hc2); [apply Hext|done..|].
    exists s2. split; [done|]. split; [by eapply extends_trans|].
    intros e [?| ->]%elem_of_snoc ?; [apply Hext2; auto|done].
  - exists s'. split; [done|]. split; [done|]. intros c ? ? ?. apply Hall; [|done]. by apply Hpcs.
Qed.

Lemma sub_length s : isSub s → length (nodes s) ≤ length (nodes g).
Proof.
  intros Hs. rewrite <- (length_fmap fst (nodes s)), <- (length_fmap fst (nodes g)).
  apply NoDup_incl_length; [apply Hs|].
  intros k ([k' n] & -> & Hk)%list_elem_of_fmap. simpl.
  rewrite (wf_nodes_name s (sub_wf s Hs) _ _ Hk).
  assert (inGraph g n) as Hn%map_get_elem_of.
  { apply Hs. apply inGraph_elem_of; [apply Hs|]. apply elem_of_values; eauto. }
  apply list_elem_of_fmap. by exists (node_name n, n).
Qed.

Lemma attachLoop_spec fuel s i :
  isSub s → (∀ n, inGraph s n → rtc (edge g) n d) →
  (∀ n, n ∈ take i ((nodes s).*2) → attached s n) →
  i ≤ length (nodes s) → length (nodes g) < fuel + i →
  ∃ s', attachLoop fuel g s i = Ok s' ∧ extends s s' ∧ ∀ n, inGraph s' n → attached s' n.
Proof.
  revert s i. induction fuel as [|fuel IH]; intros s i Hs Hlead Hdone Hi' Hfuel.
  all: cbn [attachLoop]; unfold getNodes.
  all: pose proof (sub_length s Hs) as Hlen.
  all: assert (length ((nodes s).*2) = length (nodes s)) as Hlf by apply length_fmap.
  { lia. }
  destruct ((nodes s).*2 !! i) as [n|] eqn:Hi; cycle 1.
  { exists s. split; [done|]. split; [split; [done|split; [done|by left]]|].
    intros n Hn. apply Hdone. apply lookup_ge_None in Hi.
    rewrite take_ge by done. by apply inGraph_elem_of; [apply Hs|]. }
  assert (inGraph s n) as Hn.
  { apply inGraph_elem_of; [apply Hs|]. by eapply list_elem_of_lookup_2. }
  destruct (attachSubNodes_spec s n) as (s1 & -> & Hext & Hatt); [done|by apply Hs|auto|].
  cbn [mbind res_bind]. pose proof Hext as (Hs1 & [[l Hl] Hcs] & Hn1).
  destruct (IH s1 (S i)) as (s2 & Hs2 & Hext2 & Hall).
  - done.
  - intros m [?|?]%Hn1; auto.
  - intros m. rewrite Hl, fmap_app. rewrite take_app_le by (apply lookup_lt_Some in Hi; lia).
    rewrite (take_S_r _ _ _ Hi). intros [Hm| ->]%elem_of_snoc; [|done].
    intros c ? ? ?. apply Hcs. by eapply Hdone.
  - rewrite Hl, length_app. apply lookup_lt_Some in Hi. lia.
  - lia.
  - exists s2. split; [done|]. split; [by eapply extends_trans|done].
Qed.

Lemma findSubgraph_spec :
  inGraph g d → inGraph g t →
  ∃ s, findSubgraph g d t = Ok s ∧ isSub s ∧
    (∀ n, inGraph s n → rtc (edge g) n d ∧ attached s n) ∧
    ∀ way, simpleWay d [] way → found [] way s.
Proof.
  intros Hd Ht. unfold findSubgraph.
  destruct (findSubgraphRecursive_spec (S (length (nodes g))) d empty_graph [])
    as (s & -> & Hext & Hfound);
    [apply empty_isSub|done|done|constructor|constructor|simpl; lia|].
  cbn [mbind res_bind]. destruct Hext as (Hs & _ & Hlead).
  destruct (attachLoop_spec (S (length (nodes g))) s 0) as (s' & Hs' & Hext & Hatt);
    [done| |set_solver|lia|lia|].
  { intros n [?|?]%Hlead; done. }
  exists s'. split; [done|]. pose proof Hext as (? & _ & Hlead').
  split; [done|]. split; [|intros way Hway; eapply found_extends; eauto].
  intros n Hn. split; [|auto]. destruct (Hlead' n Hn) as [Hn'|]; [|done].
  by destruct (Hlead n Hn').
Qed.
End subgraph.

(** C36: [findSubgraph] terminates without an assertion failure on every graph,
    cyclic ones included.  The result is a well-formed subgraph of the input; all
    its nodes lead to the destination; it contains, connection by connection,
    every simple way along main connections from the trigger to the
    destination; and with a node it contains all sub-node connections (of the
    node and of the nodes before it). *)
Theorem findSubgraph_keeps_ways g d t :
  wf g → inGraph g d → inGraph g t →
  ∃ s, findSubgraph g d t = Ok s ∧ wf s ∧
    (∀ c, c ∈ (connections s).*2 → c ∈ (connections g).*2) ∧
    (∀ n, inGraph s n → inGraph g n ∧ rtc (edge g) n d) ∧
    (∀ way, backPath g d way t → NoDup (gc_to <$> way) → t ∉ gc_to <$> way →
       inGraph s t ∧ ∀ c, c ∈ way → c ∈ (connections s).*2) ∧
    (∀ n c, inGraph s n → c ∈ (connections g).*2 → gc_type c ≠ NodeConnectionTypes.Main →
       rtc (edge g) (gc_to c) n → c ∈ (connections s).*2).
Proof.
  intros Hg Hd Ht. destruct (findSubgraph_spec g Hg d t Hd Ht) as (s & Hs & Hsub & Hn & Hw).
  exists s. split_and!; [done|apply Hsub|apply Hsub| | |].
  - intros n Hin. split; [by apply Hsub|by apply Hn].
  - intros way ? ? ?. by apply Hw.
  - intros n c Hin. by apply Hn.
Qed.

Lemma findSubgraph_keeps_ways_witness :
  ∃ s, findSubgraph diamond nodeD nodeA = Ok s ∧
    mkConn nodeB nodeD "main" 0 0 ∈ (connections s).*2.
Proof.
  destruct (findSubgraph_keeps_ways diamond nodeD nodeA) as (s & Hs & _ & _ & _ & Hway & _);
    [apply diamond_wf|reflexivity|reflexivity|].
  exists s. split; [exact Hs|].
  apply (Hway [mkConn nodeB nodeD "main" 0 0; mkConn nodeA nodeB "main" 0 0]);
    [| |by_eval|left].
  - apply (backPath_cons diamond (mkConn nodeB nodeD "main" 0 0)); [by_eval|reflexivity|].
    apply (backPath_cons diamond (mkConn nodeA nodeB "main" 0 0)); [by_eval|reflexivity|].
    apply backPath_nil.
  - by_eval.
Defined.

(** A trigger [A] into [D], and a loop between [B] and [C] that also feeds [D]
    but that the trigger does not reach. *)
Definition strayLoop : DirectedGraph :=
  mkGraph [nodeA; nodeB; nodeC; nodeD]
    [mkConn nodeA nodeD "main" 0 0; mkConn nodeB nodeC "main" 0 0;
     mkConn nodeC nodeB "main" 0 0; mkConn nodeC nodeD "main" 1 0].

(** the subgraph can hold nodes that the trigger does not lead to: a loop
    before the destination is kept because the search meets one of its nodes
    again (step 4 of the algorithm), whether or not it can be entered from the
    trigger. *)
Theorem findSubgraph_keeps_stray_loop :
  ∃ s, findSubgraph strayLoop nodeD nodeA = Ok s ∧ inGraph s nodeB ∧
    getChildren strayLoop nodeA = Ok [nodeD].
Proof. eexists. split; [vm_compute; reflexivity|]. split; reflexivity. Qed.
