(* ===== verification/GraphExport.v ===== *)
(** * Exporting a graph and importing it again

    [toIConnections] writes the connections of a graph in the nested format of a
    workflow, [fromNodesAndConnections] reads them back. *)

From S2P Require Import Prelude JsCollections NodeTypes DirectedGraph Fixtures GraphKeys Connections Subgraph.

(** The entry of the nested format for a connection. *)
Definition exportedEntry (c : GraphConnection) : string * string * nat * IConnection :=
  (node_name (gc_from c), gc_type c, gc_outputIndex c,
    {| conn_node := node_name (gc_to c); conn_type := gc_type c; conn_index := gc_inputIndex c |}).

(** Every node has outgoing connections of one type only. *)
Definition oneType (cs : list GraphConnection) : Prop :=
  ∀ c d, c ∈ cs → d ∈ cs → node_name (gc_from c) = node_name (gc_from d) → gc_type c = gc_type d.

Lemma pushAt_flatten n t i x (a : NodeInputConnections) :
  flattenOutputs n t (pushAt i x a) ≡ₚ (n, t, i, x) :: flattenOutputs n t a.
Proof.
  unfold pushAt, flattenOutputs. destruct (bool_decide_reflect (i < length a)) as [Hi|Hi].
  - destruct (lookup_lt_is_Some_2 _ _ Hi) as [o Ho]. rewrite Ho. simpl.
    rewrite insert_take_drop by done. rewrite <- (take_drop_middle a i o Ho) at 3.
    rewrite !imap_app, !join_app. simpl. rewrite length_take_le by lia. rewrite Nat.add_0_r, fmap_app.
    simpl. rewrite <- app_assoc. simpl. rewrite <- !Permutation_middle. done.
  - rewrite !imap_app, !join_app.
    assert (∀ (f : nat → option (list IConnection) → list (string * string * nat * IConnection)) m,
      (∀ j, f j None = []) → mjoin (imap f (replicate m None)) = []) as Hz.
    { intros f m. revert f. induction m as [|m IH]; intros f Hf; simpl; [done|].
      rewrite Hf. apply IH. intros j. apply Hf. }
    rewrite Hz by done. csimpl. rewrite length_replicate, Nat.add_0_r.
    replace (length a + (i - length a)) with i by lia.
    by rewrite Permutation_app_comm.
Qed.

(** What has been written for the connections [pre]. *)
Record exported (pre : list GraphConnection) (cs : IConnections) : Prop := {
  ex_entries : flattenConnections cs ≡ₚ exportedEntry <$> pre;
  ex_types : ∀ n nc, obj_get n cs = Some nc →
    ∃ t a, nc = [(t, a)] ∧ ∃ c, c ∈ pre ∧ node_name (gc_from c) = n ∧ gc_type c = t;
  ex_none : ∀ n, obj_get n cs = None → ∀ c, c ∈ pre → node_name (gc_from c) ≠ n;
  ex_nodup : NoDup cs.*1;
}.

Lemma exportConnection_ok pre cs c :
  exported pre cs → oneType (pre ++ [c]) →
  ∃ cs', exportConnection cs c = Ok cs' ∧ exported (pre ++ [c]) cs'.
Proof.
  intros [He Ht Hn Hnd] Hone. unfold exportConnection.
  set (n := node_name (gc_from c)). set (x := {| conn_node := _; conn_type := _; conn_index := _ |}).
  assert (∃ a, default [(gc_type c, [])] (obj_get n cs) = [(gc_type c, a)] ∧
    (obj_get n cs = None → a = [])) as (a & Hdef & Hnew).
  { destruct (obj_get n cs) as [nc|] eqn:Hnc; simpl; [|by exists []].
    destruct (Ht n nc Hnc) as (t & a & -> & d & Hd & Hdn & <-). exists a. split; [|done]. f_equal. f_equal.
    apply Hone; [set_solver|set_solver|done]. }
  rewrite Hdef. assert (obj_get (gc_type c) [(gc_type c, a)] = Some a) as ->.
  { unfold obj_get. simpl. by rewrite bool_decide_true. }
  cbn [deref mbind res_bind]. eexists. split; [done|].
  assert (∀ v : NodeInputConnections, obj_set (gc_type c) v [(gc_type c, a)] = [(gc_type c, v)]) as Hset.
  { intros v. unfold obj_set, map_has. rewrite bool_decide_true by set_solver. simpl.
    by rewrite bool_decide_true. }
  rewrite Hset. split.
  - unfold flattenConnections.
    rewrite (flat_obj_set (λ '(n, nc), mjoin ((λ '(t, a), flattenOutputs n t a) <$> nc)) _ _ _
      (exportedEntry c)).
    + fold (flattenConnections cs). rewrite He, fmap_app. csimpl. by rewrite Permutation_app_comm.
    + csimpl. rewrite app_nil_r, pushAt_flatten. unfold exportedEntry. fold n x. f_equiv.
      destruct (obj_get n cs) as [nc|] eqn:Hnc; simpl in Hdef |- *.
      * subst nc. csimpl. by rewrite app_nil_r.
      * by rewrite Hnew.
  - intros m nc. rewrite obj_get_set. case_bools.
    + intros [= <-]. subst m. eexists _, _. split; [done|]. exists c. split; [set_solver|done].
    + intros Hm. destruct (Ht m nc Hm) as (t & b & -> & d & ? & ? & ?). exists t, b. split; [done|].
      exists d. split; [set_solver|done].
  - intros m. rewrite obj_get_set. case_bools; [done|]. intros Hm d [?| ->]%elem_of_snoc; [by apply Hn|done].
  - by apply obj_set_NoDup.
Qed.

Lemma toIConnections_ok g :
  oneType (connections g).*2 →
  ∃ cs, toIConnections g = Ok cs ∧ exported (connections g).*2 cs.
Proof.
  intros Hone. unfold toIConnections. apply (foldM_total_split exportConnection exported).
  - split; [done|done|set_solver|constructor].
  - intros pre c post cs Hl Hex. apply exportConnection_ok; [done|].
    intros d e Hd He. apply Hone; rewrite Hl; set_solver.
Qed.

(** The export fails at the first connection whose source already has
    connections of another type. *)
Lemma exportConnection_fails pre cs c d :
  exported pre cs → c ∈ pre → node_name (gc_from c) = node_name (gc_from d) → gc_type c ≠ gc_type d →
  oneType pre → exportConnection cs d = Throw TypeError.
Proof.
  intros [He Ht Hn _] Hc Hname Hty Hone. unfold exportConnection.
  destruct (obj_get (node_name (gc_from d)) cs) as [nc|] eqn:Hnc; simpl.
  - destruct (Ht _ nc Hnc) as (t & a & -> & e & He' & Hen & <-).
    assert (gc_type e = gc_type c) as Heq by (apply Hone; [done|done|congruence]).
    unfold obj_get at 1. simpl. rewrite bool_decide_false by congruence. done.
  - by destruct (Hn _ Hnc c Hc).
Qed.

Lemma oneType_dec_split cs :
  oneType cs ∨ ∃ pre d post c, cs = pre ++ d :: post ∧ oneType pre ∧ c ∈ pre ∧
    node_name (gc_from c) = node_name (gc_from d) ∧ gc_type c ≠ gc_type d.
Proof.
  induction cs as [|d cs IH] using rev_ind; [left; intros ? ? ?; set_solver|].
  destruct IH as [Hone|(pre & e & post & c & -> & ?)]; cycle 1.
  { right. exists pre, e, (post ++ [d]), c. split; [by rewrite <- app_assoc|done]. }
  destruct (decide (Forall (λ c, node_name (gc_from c) = node_name (gc_from d) → gc_type c = gc_type d) cs))
    as [HF|HF].
  - left. rewrite Forall_forall in HF.
    intros x y [Hx| ->]%elem_of_snoc [Hy| ->]%elem_of_snoc Hn; [by apply Hone|by apply HF| |done].
    symmetry. by apply HF.
  - right. apply not_Forall_Exists in HF; [|apply _]. apply Exists_exists in HF as (c & Hc & Hno).
    exists cs, d, [], c. split_and!; [done|done|done| |].
    + destruct (decide (node_name (gc_from c) = node_name (gc_from d))); [done|]. exfalso. apply Hno. done.
    + intros ?. by apply Hno.
Qed.

Lemma toIConnections_throws g : ¬ oneType (connections g).*2 → toIConnections g = Throw TypeError.
Proof.
  intros Hno. destruct (oneType_dec_split (connections g).*2) as [?|(pre & d & post & c & Hl & Hone & ?)];
    [done|]. unfold toIConnections. rewrite Hl, foldM_app.
  destruct (foldM_total_split exportConnection exported [] pre) as (cs & -> & Hex).
  - split; [done|done|set_solver|constructor].
  - intros pre' c' post' cs Hl' Hex. apply exportConnection_ok; [done|].
    intros x y Hx Hy. apply Hone; rewrite Hl'; set_solver.
  - cbn [mbind res_bind foldM]. destruct_and!. by erewrite exportConnection_fails.
Qed.

(** ** Importing *)

Section import.
Context (g : DirectedGraph) (Hg : wf g).

Lemma exportedEntry_inj c d :
  c ∈ (connections g).*2 → d ∈ (connections g).*2 → exportedEntry c = exportedEntry d → c = d.
Proof.
  intros Hc Hd [= Hf Hty Ho Hto Hi].
  apply (inGraph_name_inj g) in Hf; [|by apply wf_conn_from..].
  apply (inGraph_name_inj g) in Hto; [|by apply wf_conn_to..].
  destruct c, d; simpl in *; congruence.
Qed.

(** The graph read so far has all nodes and the connections of the entries [es]. *)
Definition imported (es : list (string * string * nat * IConnection)) (s : DirectedGraph) : Prop :=
  isSub g s ∧ nodes s = nodes g ∧
  ∀ c, c ∈ (connections s).*2 ↔ c ∈ (connections g).*2 ∧ exportedEntry c ∈ es.

Lemma import_entry es s c :
  imported es s → c ∈ (connections g).*2 →
  ∃ s', addConnection s {| ci_from := gc_from c; ci_to := gc_to c; ci_type := Some (gc_type c);
                           ci_outputIndex := Some (gc_outputIndex c);
                           ci_inputIndex := Some (gc_inputIndex c) |} = Ok s' ∧
    imported (es ++ [exportedEntry c]) s'.
Proof.
  intros (Hs & Hn & Hc) Hin.
  assert (inGraph s (gc_from c)) as Hf by (unfold inGraph; rewrite Hn; by apply wf_conn_from).
  assert (inGraph s (gc_to c)) as Ht by (unfold inGraph; rewrite Hn; by apply wf_conn_to).
  destruct (setConnection_sub g Hg s c Hs Hin Hf Ht) as [Hs' Hd].
  exists (setConnection s c). split.
  { apply addConnection_ok. split_and!; [done|done|]. by destruct c. }
  split; [done|]. split; [done|]. intros d. rewrite Hd, Hc, elem_of_snoc. split.
  - intros [[? ?]| ->]; [auto|]. split; [done|by right].
  - intros [Hdg [?|Heq]]; [by left|right]. by apply exportedEntry_inj.
Qed.

Lemma elem_of_flatten_source n nc cs e :
  (n, nc) ∈ cs → e ∈ mjoin ((λ '(t, a), flattenOutputs n t a) <$> nc) → e ∈ flattenConnections cs.
Proof.
  intros Hin He. unfold flattenConnections. apply list_elem_of_join. eexists. split; [exact He|].
  apply list_elem_of_fmap. by exists (n, nc).
Qed.

Lemma importConnections_ok cs s0 :
  exported (connections g).*2 cs → imported [] s0 →
  ∃ s, importConnections (λ name, map_get name (nodes g)) s0 cs = Ok s ∧
    imported (flattenConnections cs) s.
Proof.
  intros [He Ht _ Hnd] H0. unfold importConnections.
  apply (foldM_total_split _ (λ pre s, imported (flattenConnections pre) s)); [done|].
  intros pre [n nc] post s Hl Hs.
  assert ((n, nc) ∈ cs) as Hin by (rewrite Hl; set_solver).
  destruct (Ht n nc) as (t & a & _ & c0 & Hc0 & Hn0 & _); [by apply map_get_unique|].
  assert (map_get n (nodes g) = Some (gc_from c0)) as Hfrom.
  { rewrite <- Hn0. by apply wf_conn_from. }
  rewrite Hfrom.
  destruct (foldM_total_split (λ g0 '(_, outputType, outputIndex, conn),
      match map_get (conn_node conn) (nodes g) with
      | None => Throw AssertionError
      | Some to => addConnection g0 {| ci_from := gc_from c0; ci_to := to; ci_type := Some outputType;
          ci_outputIndex := Some outputIndex; ci_inputIndex := Some (conn_index conn) |}
      end)
    (λ es s', imported (flattenConnections pre ++ es) s') s
    (mjoin ((λ '(outputType, outputs), flattenOutputs n outputType outputs) <$> nc)))
    as (s' & Hs' & Himp).
  - by rewrite app_nil_r.
  - intros es e post' s1 Hes Hs1.
    assert (e ∈ flattenConnections cs) as Hecs.
    { eapply elem_of_flatten_source; [exact Hin|]. rewrite Hes. set_solver. }
    rewrite He in Hecs. apply list_elem_of_fmap in Hecs as (c & -> & Hc).
    assert (node_name (gc_from c) = n) as Hcn.
    { assert (exportedEntry c ∈ mjoin ((λ '(t, a), flattenOutputs n t a) <$> nc)) as Hm
        by (rewrite Hes; set_solver).
      apply list_elem_of_join in Hm as (l & Hl1 & ([t' a'] & -> & _)%list_elem_of_fmap).
      unfold flattenOutputs in Hl1. apply list_elem_of_join in Hl1 as (l & Hl1 & Hl2).
      apply elem_of_lookup_imap in Hl2 as (k & o & -> & _).
      by apply list_elem_of_fmap in Hl1 as (? & [= ->] & _). }
    assert (gc_from c0 = gc_from c) as ->.
    { eapply (inGraph_name_inj g); [by apply wf_conn_from..|congruence]. }
    unfold exportedEntry at 1. cbn [conn_node conn_index].
    pose proof (wf_conn_to g c Hg Hc) as Hto. unfold inGraph in Hto. rewrite Hto.
    rewrite app_assoc. by apply import_entry.
  - exists s'. split; [exact Hs'|].
    assert (flattenConnections (pre ++ [(n, nc)]) =
      flattenConnections pre ++ mjoin ((λ '(t, a), flattenOutputs n t a) <$> nc)) as ->; [|exact Himp].
    unfold flattenConnections. rewrite fmap_app, join_app. csimpl. by rewrite app_nil_r.
Qed.
End import.

Lemma nodeMap_eq g :
  wf g → foldl (λ m n, map_set (node_name n) n m) [] (nodes g).*2 = nodes g.
Proof.
  intros Hg. pose proof (wf_nodes_eq g Hg) as Heq.
  assert (node_name <$> (nodes g).*2 = (nodes g).*1) as Hk
    by (rewrite <- Heq, <- !list_fmap_compose; done).
  pose proof (addNodes_fresh empty_graph (nodes g).*2) as Hadd. simpl in Hadd.
  rewrite Hk, Heq in Hadd. specialize (Hadd (wf_nodes_nodup g Hg)).
  transitivity (nodes (addNodes empty_graph (nodes g).*2)); [|by rewrite Hadd].
  unfold addNodes. change (@nil (string * INode)) with (nodes empty_graph) at 1.
  clear. generalize empty_graph as s. induction (nodes g).*2 as [|n l IH]; intros s; simpl; [done|].
  apply (IH (addNode s n)).
Qed.

(** C40: a graph in which every node has outgoing connections of one type can be
    exported, and importing the nodes and the exported connections gives back a
    graph with the same nodes, in the same order, and the same connections. *)
Theorem export_import_roundtrip g :
  wf g → oneType (connections g).*2 →
  ∃ cs g', toIConnections g = Ok cs ∧ fromNodesAndConnections (nodes g).*2 cs = Ok g' ∧ wf g' ∧
    nodes g' = nodes g ∧ ∀ c, c ∈ (connections g').*2 ↔ c ∈ (connections g).*2.
Proof.
  intros Hg Hone. destruct (toIConnections_ok g Hone) as (cs & Hcs & Hex). exists cs.
  unfold fromNodesAndConnections. rewrite nodeMap_eq by done.
  assert (imported g [] (addNodes empty_graph (nodes g).*2)) as H0.
  { pose proof (wf_nodes_eq g Hg) as Heq.
    assert (node_name <$> (nodes g).*2 = (nodes g).*1) as Hk
      by (rewrite <- Heq, <- !list_fmap_compose; done).
    rewrite addNodes_fresh by (simpl; rewrite Hk; apply Hg). simpl. rewrite Heq.
    split; [|split; [done|simpl; set_solver]]. split; [|done|simpl; set_solver].
    split; simpl; [apply Hg|apply Hg|constructor|set_solver..]. }
  destruct (importConnections_ok g Hg cs _ Hex H0) as (g' & Hg' & Hsub & Hn & Hc).
  exists g'. split; [done|]. split; [done|]. split; [apply Hsub|]. split; [done|].
  intros c. rewrite Hc. split; [by intros [? _]|]. intros Hin. split; [done|].
  rewrite (ex_entries _ _ Hex). by apply list_elem_of_fmap_2.
Qed.

Lemma export_import_roundtrip_witness :
  ∃ cs g', toIConnections diamond = Ok cs ∧ fromNodesAndConnections (nodes diamond).*2 cs = Ok g' ∧
    wf g' ∧ nodes g' = nodes diamond ∧
    ∀ c, c ∈ (connections g').*2 ↔ c ∈ (connections diamond).*2.
Proof.
  apply export_import_roundtrip; [apply diamond_wf|].
  assert (Forall (λ c, Forall (λ d, node_name (gc_from c) = node_name (gc_from d) →
    gc_type c = gc_type d) (connections diamond).*2) (connections diamond).*2) as HF by by_eval.
  rewrite Forall_forall in HF. intros c d Hc Hd. specialize (HF c Hc).
  rewrite Forall_forall in HF. by apply HF.
Defined.

(** [toIConnections] (and so [toWorkflow]) fails on a graph exactly if some
    node has outgoing connections of two different types: the entry of the source
    is created with the type of its first connection only, and writing the other
    type then is a [TypeError]. *)
Theorem toIConnections_two_types g :
  ¬ oneType (connections g).*2 → toIConnections g = Throw TypeError.
Proof. apply toIConnections_throws. Qed.

Lemma toIConnections_two_types_witness :
  toIConnections (mkGraph [nodeA; nodeB; nodeT]
    [mkConn nodeA nodeB "main" 0 0; mkConn nodeA nodeT "ai_tool" 0 0]) = Throw TypeError.
Proof.
  apply toIConnections_two_types. intros Hone.
  assert ("main" = "ai_tool") as Heq; [|discriminate Heq].
  apply (Hone (mkConn nodeA nodeB "main" 0 0) (mkConn nodeA nodeT "ai_tool" 0 0));
    [by_eval|by_eval|reflexivity].
Defined.
