(* ===== verification/GraphUtils.v ===== *)
(** * Extractable selections of a workflow graph

    Model of [packages/workflow/src/graph/graph-utils.ts], which decides whether
    a selection of nodes can be moved into a sub-workflow.

    An adjacency list maps a node name to a [Set] of connection objects.  Every
    connection of a workflow is an object of its own, so such a set never merges
    two connections with equal contents: it is a list here. *)

From S2P Require Import Prelude JsCollections NodeTypes DirectedGraph Fixtures Connections.

Abbreviation IConnectionAdjacencyList := (jsmap string (list IConnection)) (only parsing).

(** ** The operations *)

Inductive ExtractableErrorResult :=
  | MultipleInputNodes (names : jsset string)
  | MultipleOutputNodes (names : jsset string)
  | InputEdgeToNonRootNode (node : string)
  | OutputEdgeFromNonLeafNode (node : string)
  | NoContinuousPathFromRootToLeaf (start end_ : string).

#[global] Instance ExtractableErrorResult_eq_dec : EqDecision ExtractableErrorResult.
Proof. solve_decision. Defined.

Definition getInputEdges (graphIds : jsset string) (adjacencyList : IConnectionAdjacencyList)
    : list (string * IConnection) :=
  mjoin ((λ '(from, tos),
    if set_has from graphIds then []
    else pair from <$> filter (λ to, set_has (conn_node to) graphIds = true) tos) <$> adjacencyList).

Definition getOutputEdges (graphIds : jsset string) (adjacencyList : IConnectionAdjacencyList)
    : list (string * IConnection) :=
  mjoin ((λ '(from, tos),
    if set_has from graphIds
    then pair from <$> filter (λ to, set_has (conn_node to) graphIds = false) tos
    else []) <$> adjacencyList).

Definition intersection (a b : jsset string) : jsset string :=
  foldl (λ result x, if set_has x b then set_add x result else result) [] a.

Definition union (a b : jsset string) : jsset string :=
  foldl (λ s x, set_add x s) (foldl (λ s x, set_add x s) [] a) b.

Definition difference (minuend subtrahend : jsset string) : jsset string :=
  foldl (λ result x, set_delete x result) (set_of_list minuend) subtrahend.

(** [(adjacencyList.get(nodeId) ?? []).filter(x => x.type === 'main' && ...).map(x => x.node)] *)
Definition mainTargets (adjacencyList : IConnectionAdjacencyList) (nodeId : string) : list string :=
  conn_node <$> filter (λ x, conn_type x = "main") (default [] (map_get nodeId adjacencyList)).

Definition otherMainTargets (adjacencyList : IConnectionAdjacencyList) (nodeId : string) : list string :=
  conn_node <$> filter (λ x, conn_type x = "main" ∧ conn_node x ≠ nodeId)
    (default [] (map_get nodeId adjacencyList)).

Definition getRootNodes (graphIds : jsset string) (adjacencyList : IConnectionAdjacencyList) : jsset string :=
  let innerNodes := foldl (λ innerNodes nodeId,
    union innerNodes (set_of_list (otherMainTargets adjacencyList nodeId))) [] graphIds in
  difference graphIds innerNodes.

Definition getLeafNodes (graphIds : jsset string) (adjacencyList : IConnectionAdjacencyList) : jsset string :=
  foldl (λ result nodeId,
    if bool_decide (intersection (set_of_list (otherMainTargets adjacencyList nodeId)) graphIds = [])
    then set_add nodeId result else result) [] graphIds.

(** The [while] loop of [hasPath]; the top of the stack [paths] is its head. *)
Fixpoint hasPathLoop (fuel : nat) (end_ : string) (adjacencyList : IConnectionAdjacencyList)
    (seen : jsset string) (paths : list string) : res bool :=
  match fuel with
  | 0 => OutOfFuel
  | S fuel =>
      match paths with
      | [] => Ok false
      | next :: paths =>
          if bool_decide (next = end_) then Ok true else
          let seen := set_add next seen in
          hasPathLoop fuel end_ adjacencyList seen
            (reverse (difference (set_of_list (mainTargets adjacencyList next)) seen) ++ paths)
      end
  end.

Definition adjacencySize (adjacencyList : IConnectionAdjacencyList) : nat :=
  sum_list (length ∘ snd <$> adjacencyList).

Definition hasPath (start end_ : string) (adjacencyList : IConnectionAdjacencyList) : res bool :=
  hasPathLoop (S (S (adjacencySize adjacencyList))) end_ adjacencyList [] [start].

Definition addOrCreate (result : IConnectionAdjacencyList) (k : string) (v : IConnection)
    : IConnectionAdjacencyList :=
  map_set k (default [] (map_get k result) ++ [v]) result.

Definition buildAdjacencyList (connectionsBySourceNode : IConnections) : IConnectionAdjacencyList :=
  foldl (λ result '(sourceNode, _, _, connection), addOrCreate result sourceNode connection) []
    (flattenConnections connectionsBySourceNode).

(** [{ start, end }] *)
Record ExtractableSubgraphData := {
  extract_start : option string;
  extract_end : option string;
}.

#[global] Instance ExtractableSubgraphData_eq_dec : EqDecision ExtractableSubgraphData.
Proof. solve_decision. Defined.

(** A non-empty string is truthy. *)
Definition truthy_name (o : option string) : option string :=
  match o with
  | Some s => if bool_decide (s = "") then None else Some s
  | None => None
  end.

Definition parseExtractableSubgraphSelection (graphIds : jsset string)
    (adjacencyList : IConnectionAdjacencyList)
    : res (ExtractableSubgraphData + list ExtractableErrorResult) :=
  let inputEdges := getInputEdges graphIds adjacencyList in
  let inputNodes := set_of_list ((λ x, conn_node x.2) <$> filter (λ x, conn_type x.2 = "main") inputEdges) in
  let rootNodes := getRootNodes graphIds adjacencyList in
  let rootNodes :=
    if bool_decide (length rootNodes = 0 ∧ length inputNodes = 1) then inputNodes else rootNodes in
  let errors := InputEdgeToNonRootNode <$> difference inputNodes rootNodes in
  let rootInputNodes := intersection rootNodes inputNodes in
  let errors := errors ++
    (if bool_decide (1 < length rootInputNodes) then [MultipleInputNodes rootInputNodes] else []) in
  let outputEdges := getOutputEdges graphIds adjacencyList in
  let outputNodes := set_of_list (fst <$> filter (λ x, conn_type x.2 = "main") outputEdges) in
  let leafNodes := getLeafNodes graphIds adjacencyList in
  let leafNodes :=
    if bool_decide (length leafNodes = 0 ∧ length outputNodes = 1) then outputNodes else leafNodes in
  let errors := errors ++ (OutputEdgeFromNonLeafNode <$> difference outputNodes leafNodes) in
  let leafOutputNodes := intersection leafNodes outputNodes in
  let errors := errors ++
    (if bool_decide (1 < length leafOutputNodes) then [MultipleOutputNodes leafOutputNodes] else []) in
  let start := head rootInputNodes in
  let end_ := head leafOutputNodes in
  pathErrors ←
    match truthy_name start, truthy_name end_ with
    | Some s, Some e =>
        connected ← hasPath s e adjacencyList;
        Ok (if connected : bool then [] else [NoContinuousPathFromRootToLeaf s e])
    | _, _ => Ok []
    end;
  let errors := errors ++ pathErrors in
  Ok (if bool_decide (0 < length errors) then inr errors
      else inl {| extract_start := start; extract_end := end_ |}).

(** ** Sets *)

Lemma elem_of_foldl_add_if (p : string → bool) l s x :
  x ∈ foldl (λ result y, if p y then set_add y result else result) s l ↔
  x ∈ s ∨ (x ∈ l ∧ p x = true).
Proof.
  revert s; induction l as [|y l IH]; intros s; simpl; [set_solver|].
  rewrite IH, elem_of_cons. destruct (p y) eqn:Hy; [rewrite elem_of_set_add|];
    intuition (subst; auto; congruence).
Qed.

Lemma NoDup_foldl_add_if (p : string → bool) l s :
  NoDup s → NoDup (foldl (λ result y, if p y then set_add y result else result) s l).
Proof.
  revert s; induction l as [|y l IH]; intros s Hs; simpl; [done|].
  apply IH. destruct (p y); [by apply set_add_NoDup|done].
Qed.

Lemma elem_of_intersection a b x : x ∈ intersection a b ↔ x ∈ a ∧ x ∈ b.
Proof.
  unfold intersection. rewrite elem_of_foldl_add_if. unfold set_has. rewrite bool_decide_eq_true.
  set_solver.
Qed.

Lemma elem_of_union a b x : x ∈ union a b ↔ x ∈ a ∨ x ∈ b.
Proof. unfold union. rewrite !foldl_set_add_elem_of. set_solver. Qed.

Lemma elem_of_difference a b x : x ∈ difference a b ↔ x ∈ a ∧ x ∉ b.
Proof.
  unfold difference. rewrite <- (elem_of_set_of_list a x). generalize (set_of_list a) as s.
  induction b as [|y b IH]; intros s; simpl; [set_solver|].
  rewrite IH, elem_of_set_delete. set_solver.
Qed.

Lemma elem_of_mainTargets adj n m :
  m ∈ mainTargets adj n ↔
  ∃ c, c ∈ default [] (map_get n adj) ∧ conn_type c = "main" ∧ conn_node c = m.
Proof.
  unfold mainTargets. rewrite list_elem_of_fmap. setoid_rewrite list_elem_of_filter. naive_solver.
Qed.

(** ** [hasPath] decides reachability *)

Section hasPath.
Context (adj : IConnectionAdjacencyList) (end_ : string).

Definition mainEdge (a b : string) : Prop := b ∈ mainTargets adj a.

Lemma length_difference a b : length (difference a b) ≤ length a.
Proof.
  unfold difference. assert (length (set_of_list a) ≤ length a) as Ha.
  { apply NoDup_incl_length; [apply set_of_list_NoDup|]. intros x. by rewrite elem_of_set_of_list. }
  revert Ha. generalize (set_of_list a) as s. induction b as [|y b IH]; intros s Hs; simpl; [done|].
  apply IH. unfold set_delete. etrans; [apply length_filter|done].
Qed.

(** The search below the entry [v] of the stack is complete when [v] is met again. *)
Record searching (start : string) (seen paths : list string) : Prop := {
  srch_end : end_ ∉ seen;
  srch_reach : ∀ v, v ∈ paths → rtc mainEdge start v;
  srch_start : start ∈ seen ∨ start ∈ paths;
  srch_closed : ∀ v w, v ∈ seen → mainEdge v w → w ∈ seen ∨ w ∈ paths;
  srch_above : ∀ above v below, paths = above ++ v :: below → v ∈ seen →
    ∀ w, mainEdge v w → w ∈ seen ∨ w ∈ above;
}.

(** What a step pushes: the targets of [next] that were not seen. *)
Definition pushedBy (next : string) (seen : list string) : list string :=
  difference (set_of_list (mainTargets adj next)) (set_add next seen).

Lemma elem_of_pushedBy next seen x :
  x ∈ reverse (pushedBy next seen) ↔ mainEdge next x ∧ x ∉ set_add next seen.
Proof. unfold pushedBy. by rewrite elem_of_reverse, elem_of_difference, elem_of_set_of_list. Qed.

(** A target of [next] was seen or is pushed. *)
Lemma pushed_or_seen next seen w : mainEdge next w → w ∈ set_add next seen ∨ w ∈ reverse (pushedBy next seen).
Proof. intros Hw. destruct (decide (w ∈ set_add next seen)); [by left|right]. by apply elem_of_pushedBy. Qed.

Lemma searching_above start seen next paths above v below w :
  searching start seen (next :: paths) → reverse (pushedBy next seen) ++ paths = above ++ v :: below →
  v ∈ set_add next seen → mainEdge v w → w ∈ set_add next seen ∨ w ∈ above.
Proof.
  intros [_ _ _ _ Ha] Heq Hv Hvw.
  apply app_eq_inv in Heq as [(l & Hl & Heq)|(l & -> & Heq)].
  - destruct l as [|y l]; simpl in Heq; cycle 1.
    { injection Heq as <- ->. exfalso.
      assert (v ∈ reverse (pushedBy next seen)) as [_ ?]%elem_of_pushedBy by (rewrite Hl; set_solver). done. }
    rewrite app_nil_r in Hl. subst above. apply elem_of_set_add in Hv as [->|Hv]; [by apply pushed_or_seen|].
    left. destruct (Ha [next] v below) with (w := w); [by rewrite Heq|done|done|..];
      apply elem_of_set_add; set_solver.
  - rewrite elem_of_app. destruct (decide (v ∈ seen)) as [Hvs|Hvs].
    + destruct (Ha (next :: l) v below) with (w := w) as [?|Hw]; [by rewrite Heq|done|done|..].
      * left. apply elem_of_set_add. by right.
      * apply elem_of_cons in Hw as [->|?]; [left; apply elem_of_set_add; by left|auto].
    + apply elem_of_set_add in Hv as [->|?]; [|done]. destruct (pushed_or_seen next seen w Hvw); auto.
Qed.

Lemma searching_pushed start seen next paths :
  searching start seen (next :: paths) → next ≠ end_ →
  searching start (set_add next seen) (reverse (pushedBy next seen) ++ paths).
Proof.
  intros Hsearch Hne. pose proof Hsearch as [He Hr Hs Hc _]. split.
  - rewrite elem_of_set_add. set_solver.
  - intros v [Hv|Hv]%elem_of_app; [|apply Hr; by right].
    apply elem_of_pushedBy in Hv as [Hv _]. eapply rtc_r; [apply Hr; left|done].
  - destruct Hs as [?|[->|?]%elem_of_cons]; rewrite elem_of_set_add, elem_of_app; auto.
  - intros v w [->|Hv]%elem_of_set_add Hvw.
    + rewrite elem_of_app. destruct (pushed_or_seen next seen w Hvw); auto.
    + rewrite elem_of_set_add. destruct (Hc v w Hv Hvw) as [?|Hw]; [auto|].
      apply elem_of_cons in Hw as [->|?]; [auto|right; set_solver].
  - intros above v below Heq Hv w Hvw. by eapply searching_above.
Qed.

Lemma length_pushedBy next seen : length (pushedBy next seen) ≤ from_option length 0 (map_get next adj).
Proof.
  etrans; [apply length_difference|]. etrans.
  - apply (NoDup_incl_length _ (mainTargets adj next)); [apply set_of_list_NoDup|].
    intros x. by rewrite elem_of_set_of_list.
  - unfold mainTargets. rewrite length_fmap. etrans; [apply length_filter|]. by destruct (map_get next adj).
Qed.

(** A node that was seen pushes nothing. *)
Lemma pushedBy_seen start seen next paths :
  searching start seen (next :: paths) → next ∈ seen → pushedBy next seen = [].
Proof.
  intros [_ _ _ _ Ha] Hin. apply elem_of_nil_inv. intros x Hx.
  rewrite <- elem_of_reverse in Hx. apply elem_of_pushedBy in Hx as [Hx Hnx].
  destruct (Ha [] next paths eq_refl Hin x Hx) as [?|?]; [|set_solver].
  apply Hnx, elem_of_set_add. by right.
Qed.

Lemma searching_step start seen next paths :
  searching start seen (next :: paths) → next ≠ end_ →
  let seen' := set_add next seen in
  let pushed := difference (set_of_list (mainTargets adj next)) seen' in
  searching start seen' (reverse pushed ++ paths) ∧
  length (reverse pushed ++ paths) + budget length adj seen' < length (next :: paths) + budget length adj seen.
Proof.
  intros Hsearch Hne seen' pushed. split; [by apply searching_pushed|].
  rewrite length_app, length_reverse. change pushed with (pushedBy next seen). simpl.
  destruct (decide (next ∈ seen)) as [Hin|Hnin].
  - rewrite (pushedBy_seen _ _ _ _ Hsearch Hin). simpl.
    enough (budget length adj seen' ≤ budget length adj seen) by lia.
    apply budget_mono. intros x Hx. apply elem_of_set_add. by right.
  - pose proof (length_pushedBy next seen).
    assert (from_option length 0 (map_get next adj) + budget length adj seen' ≤ budget length adj seen); [|lia].
    apply budget_step; [intros x Hx|..|done]; apply elem_of_set_add; auto.
Qed.

Lemma hasPathLoop_spec start fuel seen paths :
  searching start seen paths → length paths + budget length adj seen < fuel →
  ∃ b, hasPathLoop fuel end_ adj seen paths = Ok b ∧ (b = true ↔ rtc mainEdge start end_).
Proof.
  revert seen paths. induction fuel as [|fuel IH]; intros seen paths Hs Hf; [lia|].
  cbn [hasPathLoop]. destruct paths as [|next paths].
  - exists false. split; [done|]. split; [done|]. intros Hr. exfalso.
    destruct Hs as [He _ Hst Hc _]. apply He.
    revert Hr. apply (rtc_ind_r (λ x, x ∈ seen) start); [set_solver|].
    intros y z _ Hyz Hy. destruct (Hc y z Hy Hyz) as [?|?]; [done|set_solver].
  - destruct (bool_decide_reflect (next = end_)) as [->|Hne].
    + exists true. split; [done|]. split; [|done]. intros _. apply (srch_reach _ _ _ Hs). left.
    + destruct (searching_step start seen next paths Hs Hne) as [Hs' Hm].
      apply IH; [exact Hs'|]. lia.
Qed.

Lemma hasPath_spec start :
  ∃ b, hasPath start end_ adj = Ok b ∧ (b = true ↔ rtc mainEdge start end_).
Proof.
  apply hasPathLoop_spec.
  - split; [set_solver| |set_solver|set_solver|set_solver].
    intros v ->%list_elem_of_singleton. done.
  - rewrite budget_total. unfold adjacencySize. simpl. lia.
Qed.
End hasPath.

(** ** Extractable selections *)

(** The argument on one side (inputs with roots, or outputs with leaves). *)
Section side.
Context (ends special : list string) (Hends : NoDup ends).

Definition relaxed : list string :=
  if bool_decide (length special = 0 ∧ length ends = 1) then ends else special.

Definition side_ok : Prop :=
  (∀ x y, x ∈ ends → y ∈ ends → x = y) ∧ (∀ x, x ∈ ends → x ∈ special ∨ ∀ z, z ∉ special).

Lemma NoDup_all_equal (l : list string) :
  NoDup l → (∀ x y, x ∈ l → y ∈ l → x = y) ↔ length l ≤ 1.
Proof.
  intros Hl. split.
  - destruct l as [|x [|y l]]; simpl; [lia|lia|]. intros Heq. exfalso.
    assert (x = y) as -> by (apply Heq; set_solver).
    apply NoDup_cons in Hl as [Hn _]. set_solver.
  - destruct l as [|x [|y l]]; simpl; [set_solver|set_solver|lia].
Qed.

Lemma intersection_NoDup a b : NoDup (intersection a b).
Proof. apply NoDup_foldl_add_if, NoDup_nil_2. Qed.

Lemma side_ok_iff :
  (difference ends relaxed = [] ∧ ¬ 1 < length (intersection relaxed ends)) ↔ side_ok.
Proof.
  assert (difference ends relaxed = [] ↔ ∀ x, x ∈ ends → x ∈ relaxed) as ->.
  { split.
    - intros Hd x Hx. destruct (decide (x ∈ relaxed)); [done|]. exfalso.
      apply (not_elem_of_nil x). rewrite <- Hd. by apply elem_of_difference.
    - intros H. apply elem_of_nil_inv. intros x [? ?]%elem_of_difference. auto. }
  assert ((∀ x, x ∈ ends → x ∈ relaxed) →
    (¬ 1 < length (intersection relaxed ends) ↔ ∀ x y, x ∈ ends → y ∈ ends → x = y)) as Hlen.
  { intros Hsub. transitivity (length (intersection relaxed ends) ≤ 1); [lia|].
    rewrite <- NoDup_all_equal by apply intersection_NoDup.
    setoid_rewrite elem_of_intersection. naive_solver. }
  unfold side_ok. split.
  - intros [Hsub Hl]. split; [by apply Hlen|]. intros x Hx. apply Hsub in Hx. unfold relaxed in Hx.
    destruct (bool_decide_reflect (length special = 0 ∧ length ends = 1)) as [[Hs _]|]; [|by left].
    right. apply length_zero_iff_nil in Hs as ->. set_solver.
  - intros [Heq Hin]. enough (∀ x, x ∈ ends → x ∈ relaxed) as Hsub by (split; [done|by apply Hlen]).
    intros x Hx. unfold relaxed. case_bools; [done|].
    destruct (Hin x Hx) as [?|Hno]; [done|]. exfalso.
    assert (special = []) as -> by by apply elem_of_nil_inv.
    apply NoDup_all_equal in Heq; [|done]. destruct ends; simpl in *; [set_solver|lia].
Qed.

Lemma side_head : side_ok → ∀ x, head (intersection relaxed ends) = Some x ↔ x ∈ ends.
Proof.
  intros Hok. pose proof Hok as [Heq _]. apply side_ok_iff in Hok as [Hd _].
  assert (∀ x, x ∈ intersection relaxed ends ↔ x ∈ ends) as Hint.
  { intros x. rewrite elem_of_intersection. split; [naive_solver|]. intros Hx. split; [|done].
    destruct (decide (x ∈ relaxed)); [done|]. exfalso.
    apply (not_elem_of_nil x). rewrite <- Hd. by apply elem_of_difference. }
  intros x. rewrite <- Hint. destruct (intersection relaxed ends) as [|y l] eqn:Hi; simpl; [set_solver|].
  split; [intros [= ->]; left|]. intros Hx. f_equal. apply Heq; apply Hint; set_solver.
Qed.
End side.

Section extract.
Context (ids : jsset string) (adj : IConnectionAdjacencyList) (Hadj : NoDup adj.*1).

(** A main connection enters the selection at [x]. *)
Definition entersAt (x : string) : Prop := x ∈ ids ∧ ∃ from, (from ∉ ids) ∧ mainEdge adj from x.
(** A main connection leaves the selection from [x]. *)
Definition leavesFrom (x : string) : Prop := x ∈ ids ∧ ∃ to, (to ∉ ids) ∧ mainEdge adj x to.
(** No other selected node leads to [x]. *)
Definition isRoot (x : string) : Prop := x ∈ ids ∧ ∀ y, y ∈ ids → mainEdge adj y x → y = x.
(** [x] leads to no other selected node. *)
Definition isLeaf (x : string) : Prop := x ∈ ids ∧ ∀ y, y ∈ ids → mainEdge adj x y → y = x.

(** The contract of the documentation comment. *)
Definition extractable : Prop :=
  (∀ x y, entersAt x → entersAt y → x = y) ∧
  (∀ x, entersAt x → isRoot x ∨ ∀ z, ¬ isRoot z) ∧
  (∀ x y, leavesFrom x → leavesFrom y → x = y) ∧
  (∀ x, leavesFrom x → isLeaf x ∨ ∀ z, ¬ isLeaf z) ∧
  (∀ x y, entersAt x → leavesFrom y → x ≠ "" → y ≠ "" → rtc (mainEdge adj) x y).

Definition inputNodesOf : jsset string :=
  set_of_list ((λ x, conn_node x.2) <$> filter (λ x, conn_type x.2 = "main") (getInputEdges ids adj)).
Definition outputNodesOf : jsset string :=
  set_of_list (fst <$> filter (λ x, conn_type x.2 = "main") (getOutputEdges ids adj)).

Lemma mainEdge_entry from x :
  mainEdge adj from x ↔
  ∃ tos c, (from, tos) ∈ adj ∧ c ∈ tos ∧ conn_type c = "main" ∧ conn_node c = x.
Proof.
  unfold mainEdge. rewrite elem_of_mainTargets. split.
  - intros (c & Hc & ? & ?). destruct (map_get from adj) as [tos|] eqn:Hf; simpl in Hc; [|set_solver].
    apply map_get_elem_of in Hf. eauto 10.
  - intros (tos & c & Hf & ? & ? & ?). apply map_get_unique in Hf; [|done].
    exists c. by rewrite Hf.
Qed.

Lemma elem_of_inputNodes x : x ∈ inputNodesOf ↔ entersAt x.
Proof.
  unfold inputNodesOf, entersAt, getInputEdges. rewrite elem_of_set_of_list, list_elem_of_fmap.
  setoid_rewrite list_elem_of_filter. setoid_rewrite list_elem_of_join.
  setoid_rewrite mainEdge_entry. split.
  - intros ([from c] & -> & Hm & l & Hl & ([f tos] & -> & Hf)%list_elem_of_fmap). simpl in *.
    unfold set_has in Hl. case_bools; [set_solver|].
    apply list_elem_of_fmap in Hl as (c' & [= -> ->] & Hc).
    apply list_elem_of_filter in Hc as [Hin%bool_decide_eq_true ?]. split; [done|].
    exists f. split; [done|]. eauto 10.
  - intros (Hx & from & Hfrom & tos & c & Hf & Hc & Hm & <-).
    exists (from, c). split; [done|]. split; [done|]. eexists. split; cycle 1.
    { apply list_elem_of_fmap. exists (from, tos). split; [done|exact Hf]. }
    unfold set_has. rewrite bool_decide_false by done. apply list_elem_of_fmap_2.
    apply list_elem_of_filter. by rewrite bool_decide_eq_true.
Qed.

Lemma elem_of_outputNodes x : x ∈ outputNodesOf ↔ leavesFrom x.
Proof.
  unfold outputNodesOf, leavesFrom, getOutputEdges. rewrite elem_of_set_of_list, list_elem_of_fmap.
  setoid_rewrite list_elem_of_filter. setoid_rewrite list_elem_of_join.
  setoid_rewrite mainEdge_entry. split.
  - intros ([from c] & -> & Hm & l & Hl & ([f tos] & -> & Hf)%list_elem_of_fmap). simpl in *.
    unfold set_has in Hl. case_bools; [|set_solver].
    apply list_elem_of_fmap in Hl as (c' & [= -> ->] & Hc).
    apply list_elem_of_filter in Hc as [Hin%bool_decide_eq_false ?]. split; [done|].
    exists (conn_node c'). split; [done|]. eauto 10.
  - intros (Hx & to & Hto & tos & c & Hf & Hc & Hm & <-).
    exists (x, c). split; [done|]. split; [done|]. eexists. split; cycle 1.
    { apply list_elem_of_fmap. exists (x, tos). split; [done|exact Hf]. }
    unfold set_has. rewrite bool_decide_true by done. apply list_elem_of_fmap_2.
    apply list_elem_of_filter. by rewrite bool_decide_eq_false.
Qed.

Lemma elem_of_otherMainTargets n m : m ∈ otherMainTargets adj n ↔ mainEdge adj n m ∧ m ≠ n.
Proof.
  unfold otherMainTargets, mainEdge. rewrite elem_of_mainTargets, list_elem_of_fmap.
  setoid_rewrite list_elem_of_filter. naive_solver.
Qed.

Lemma elem_of_getRootNodes x : x ∈ getRootNodes ids adj ↔ isRoot x.
Proof.
  unfold getRootNodes, isRoot. rewrite elem_of_difference.
  assert (∀ l s, x ∈ foldl (λ innerNodes nodeId,
    union innerNodes (set_of_list (otherMainTargets adj nodeId))) s l ↔
    x ∈ s ∨ ∃ y, y ∈ l ∧ mainEdge adj y x ∧ x ≠ y) as Hfold.
  { induction l as [|y l IH]; intros s; simpl; [set_solver|].
    rewrite IH, elem_of_union, elem_of_set_of_list, elem_of_otherMainTargets. set_solver. }
  rewrite Hfold. split.
  - intros [Hx Hn]. split; [done|]. intros y Hy Hyx. destruct (decide (y = x)); [done|].
    exfalso. apply Hn. right. eauto.
  - intros [Hx Hall]. split; [done|]. intros [?|(y & Hy & Hyx & Hne)]; [set_solver|].
    by apply Hne; symmetry; apply Hall.
Qed.

Lemma elem_of_getLeafNodes x : x ∈ getLeafNodes ids adj ↔ isLeaf x.
Proof.
  unfold getLeafNodes, isLeaf. rewrite elem_of_foldl_add_if, bool_decide_eq_true. split.
  - intros [?|[Hx Hi]]; [set_solver|]. split; [done|]. intros y Hy Hxy.
    destruct (decide (y = x)); [done|]. exfalso. apply (not_elem_of_nil y). rewrite <- Hi.
    by rewrite elem_of_intersection, elem_of_set_of_list, elem_of_otherMainTargets.
  - intros [Hx Hall]. right. split; [done|]. apply elem_of_nil_inv. intros y.
    rewrite elem_of_intersection, elem_of_set_of_list, elem_of_otherMainTargets. naive_solver.
Qed.

(** What the code checks, as a property of its two sides. *)
Lemma extractable_sides :
  extractable ↔
  side_ok inputNodesOf (getRootNodes ids adj) ∧ side_ok outputNodesOf (getLeafNodes ids adj) ∧
  (∀ x y, x ∈ inputNodesOf → y ∈ outputNodesOf → x ≠ "" → y ≠ "" → rtc (mainEdge adj) x y).
Proof.
  unfold extractable, side_ok. setoid_rewrite elem_of_inputNodes. setoid_rewrite elem_of_outputNodes.
  setoid_rewrite elem_of_getRootNodes. setoid_rewrite elem_of_getLeafNodes. tauto.
Qed.

Lemma truthy_name_Some o s : truthy_name o = Some s ↔ o = Some s ∧ s ≠ "".
Proof. destruct o; simpl; [case_bools|]; naive_solver. Qed.

Lemma fmap_eq_nil {A B} (f : A → B) (l : list A) : f <$> l = [] ↔ l = [].
Proof. by destruct l. Qed.

Lemma if_singleton_nil {A} (b : bool) (e : A) : (if b then [e] else []) = [] ↔ b = false.
Proof. destruct b; naive_solver. Qed.

Lemma pathErrors_spec (start end_ : option string) :
  ∃ pe, match truthy_name start, truthy_name end_ with
    | Some s, Some e => connected ← hasPath s e adj;
        Ok (if connected : bool then [] else [NoContinuousPathFromRootToLeaf s e])
    | _, _ => Ok []
    end = Ok pe ∧
    (pe = [] ↔ ∀ x y, start = Some x → end_ = Some y → x ≠ "" → y ≠ "" → rtc (mainEdge adj) x y).
Proof.
  destruct (truthy_name start) as [s|] eqn:Hs; [destruct (truthy_name end_) as [e|] eqn:He|].
  - apply truthy_name_Some in Hs as [-> ?], He as [-> ?].
    destruct (hasPath_spec adj e s) as (b & -> & Hb). cbn [mbind res_bind]. eexists. split; [done|].
    destruct b; naive_solver.
  - eexists; split; [done|]. split; [|done]. intros _ x y _ Hy _ ?.
    assert (truthy_name end_ = Some y) by by apply truthy_name_Some. congruence.
  - eexists; split; [done|]. split; [|done]. intros _ x y Hx _ ? _.
    assert (truthy_name start = Some x) by by apply truthy_name_Some. congruence.
Qed.

Lemma parse_spec :
  ∃ r, parseExtractableSubgraphSelection ids adj = Ok r ∧
    match r with
    | inl d => extractable ∧ (∀ x, extract_start d = Some x ↔ entersAt x) ∧
        (∀ x, extract_end d = Some x ↔ leavesFrom x)
    | inr errors => ¬ extractable ∧ errors ≠ []
    end.
Proof.
  unfold parseExtractableSubgraphSelection. fold inputNodesOf outputNodesOf.
  fold (relaxed inputNodesOf (getRootNodes ids adj)).
  fold (relaxed outputNodesOf (getLeafNodes ids adj)).
  pose proof (side_ok_iff inputNodesOf (getRootNodes ids adj) (set_of_list_NoDup _)) as Hin.
  pose proof (side_ok_iff outputNodesOf (getLeafNodes ids adj) (set_of_list_NoDup _)) as Hout.
  pose proof (side_head inputNodesOf (getRootNodes ids adj) (set_of_list_NoDup _)) as Hhin.
  pose proof (side_head outputNodesOf (getLeafNodes ids adj) (set_of_list_NoDup _)) as Hhout.
  set (ri := intersection (relaxed inputNodesOf _) _) in *.
  set (lo := intersection (relaxed outputNodesOf _) _) in *.
  set (di := difference inputNodesOf _) in *. set (dol := difference outputNodesOf _) in *.
  destruct (pathErrors_spec (head ri) (head lo)) as (pe & -> & Hpe).
  cbn [mbind res_bind]. eexists. split; [done|].
  set (errors := (((_ ++ _) ++ _) ++ _) ++ pe).
  assert (errors = [] ↔ extractable) as Herr.
  { subst errors. rewrite extractable_sides, <- Hin, <- Hout. rewrite !app_nil, !fmap_eq_nil, Hpe.
    rewrite !if_singleton_nil, !bool_decide_eq_false. split.
    - intros ((((Hd & Hl) & Hd') & Hl') & Hp). split_and!; try done. intros x y Hx Hy.
      apply Hp; [apply Hhin; [by apply Hin|done]|apply Hhout; [by apply Hout|done]].
    - intros ((Hd & Hl) & (Hd' & Hl') & Hp). split_and!; try done. intros x y Hx Hy.
      apply Hp; [apply Hhin; [by apply Hin|done]|apply Hhout; [by apply Hout|done]]. }
  destruct (bool_decide_reflect (0 < length errors)) as [Hpos|Hz].
  - split; [|intros Hnil; rewrite Hnil in Hpos; simpl in Hpos; lia].
    rewrite <- Herr. intros Hnil. rewrite Hnil in Hpos. simpl in Hpos. lia.
  - assert (extractable) as Hext. { apply Herr. destruct errors; simpl in *; [done|lia]. }
    split; [done|]. apply extractable_sides in Hext as (Hs1 & Hs2 & _). simpl. split; intros x.
    + rewrite Hhin by done. apply elem_of_inputNodes.
    + rewrite Hhout by done. apply elem_of_outputNodes.
Qed.
End extract.

Lemma buildAdjacencyList_NoDup cs : NoDup (buildAdjacencyList cs).*1.
Proof.
  unfold buildAdjacencyList.
  assert (∀ l (adj : IConnectionAdjacencyList), NoDup adj.*1 →
    NoDup (foldl (λ result '(sourceNode, _, _, connection), addOrCreate result sourceNode connection)
      adj (l : list (string * string * nat * IConnection))).*1) as Hgen.
  { induction l as [|[[[? ?] ?] ?] l IH]; intros adj Hadj; simpl; [done|].
    apply IH. unfold addOrCreate. by apply map_set_NoDup. }
  apply Hgen, NoDup_nil_2.
Qed.

(** The adjacency list holds the connections of the workflow, by source node. *)
Lemma buildAdjacencyList_entries cs n c :
  c ∈ default [] (map_get n (buildAdjacencyList cs)) ↔
  ∃ type i, (n, type, i, c) ∈ flattenConnections cs.
Proof.
  unfold buildAdjacencyList. generalize (flattenConnections cs) as l. intros l.
  assert (∀ adj : IConnectionAdjacencyList,
    c ∈ default [] (map_get n (foldl (λ result '(sourceNode, _, _, connection),
      addOrCreate result sourceNode connection) adj l)) ↔
    c ∈ default [] (map_get n adj) ∨ ∃ type i, (n, type, i, c) ∈ l) as Hgen.
  { induction l as [|[[[src ty] i] d] l IH]; intros adj; simpl; [set_solver|].
    rewrite IH. unfold addOrCreate. rewrite map_get_set. setoid_rewrite elem_of_cons.
    case_bools; subst; simpl; rewrite ?elem_of_app, ?list_elem_of_singleton.
    - split; [intros [[?| ->]|(? & ? & ?)]|intros [?|(? & ? & [[= -> -> ->]|?])]]; eauto 10.
    - split; [intros [?|(? & ? & ?)]|intros [?|(? & ? & [[= -> -> ->]|?])]]; eauto 10; congruence. }
  rewrite Hgen. simpl. set_solver.
Qed.

(** [hasPath] terminates on every adjacency list and decides reachability
    along main connections. *)
Theorem hasPath_decides adj start end_ :
  ∃ b, hasPath start end_ adj = Ok b ∧ (b = true ↔ rtc (mainEdge adj) start end_).
Proof. apply hasPath_spec. Qed.

(** [parseExtractableSubgraphSelection] on the connections of a workflow
    always returns; it accepts exactly the selections its documentation calls
    extractable (at most one entry node, a root unless there is none; at most one
    exit node, a leaf unless there is none; a path from the entry to the exit),
    then [start] is the node where connections enter and [end] the node where
    they leave; otherwise it reports at least one error. *)
Theorem parseExtractableSubgraphSelection_decides ids cs :
  let adj := buildAdjacencyList cs in
  ∃ r, parseExtractableSubgraphSelection ids adj = Ok r ∧
    match r with
    | inl d => extractable ids adj ∧ (∀ x, extract_start d = Some x ↔ entersAt ids adj x) ∧
        (∀ x, extract_end d = Some x ↔ leavesFrom ids adj x)
    | inr errors => ¬ extractable ids adj ∧ errors ≠ []
    end.
Proof. apply parse_spec, buildAdjacencyList_NoDup. Qed.
