(* ===== verification/Workflow.v ===== *)
(** * The workflow

    Model of the class [Workflow] of [packages/workflow/src/workflow.ts]: nodes by
    name, the connections indexed by source and by destination, the graph
    queries the engine uses, and renaming.

    Node types are an interface to the engine: [INodeTypes] is the lookup by name
    and version, [applyAccessPatterns] rewrites the references to a node inside an
    expression ([node-reference-parser-utils.ts]). *)

From S2P Require Import Prelude JsCollections NodeTypes DirectedGraph Fixtures Connections.

(** ** Node types *)

Inductive RequiredInputs :=
  | RequiredExpression (expression : string)
  | RequiredIndexes (indexes : list nat)
  | RequiredCount (count : nat).

#[global] Instance RequiredInputs_eq_dec : EqDecision RequiredInputs.
Proof. solve_decision. Defined.

(** One output of a node type: its type, or a configuration with a type. *)
Inductive NodeOutput :=
  | OutputType (type : NodeConnectionType)
  | OutputConfiguration (type : NodeConnectionType).

#[global] Instance NodeOutput_eq_dec : EqDecision NodeOutput.
Proof. solve_decision. Defined.

(** What the engine reads of an [INodeType]; [nt_inputs] is
    [description.inputs.length], [nt_outputs] is [None] if the outputs are given by
    an expression, the booleans say which methods the type has. *)
Record INodeType := {
  nt_name : string;
  nt_group : list string;
  nt_inputs : nat;
  nt_outputs : option (list NodeOutput);
  nt_requiredInputs : option RequiredInputs;
  nt_execute : bool;
  nt_poll : bool;
  nt_trigger : bool;
  nt_webhook : bool;
  nt_supplyData : bool;
  nt_requestDefaults : bool;
  nt_customOperations : option (jsobj (list string));
}.

Class INodeTypes := getByNameAndVersion : string → spec_float → option INodeType.

Definition nodeTypeOf `{INodeTypes} (node : INode) : option INodeType :=
  getByNameAndVersion (node_type node) (node_typeVersion node).

(** ** State *)

Record Workflow := {
  workflow_id : string;
  workflow_nodes : INodes;
  connectionsBySourceNode : IConnections;
  connectionsByDestinationNode : IConnections;
  workflow_pinData : option IPinData;
  settings_executionOrder : option string;
  workflow_settings : IDataObject;
}.

Definition emptyWorkflow (id : string) : Workflow :=
  {| workflow_id := id; workflow_nodes := []; connectionsBySourceNode := [];
     connectionsByDestinationNode := []; workflow_pinData := None;
     settings_executionOrder := None; workflow_settings := [] |}.

(** ** Updates *)

Definition set_workflow_nodes (ns : INodes) (w : Workflow) : Workflow :=
  {| workflow_id := workflow_id w; workflow_nodes := ns;
     connectionsBySourceNode := connectionsBySourceNode w;
     connectionsByDestinationNode := connectionsByDestinationNode w;
     workflow_pinData := workflow_pinData w; settings_executionOrder := settings_executionOrder w;
     workflow_settings := workflow_settings w |}.

Definition set_connectionsBySourceNode (cs : IConnections) (w : Workflow) : Workflow :=
  {| workflow_id := workflow_id w; workflow_nodes := workflow_nodes w;
     connectionsBySourceNode := cs;
     connectionsByDestinationNode := connectionsByDestinationNode w;
     workflow_pinData := workflow_pinData w; settings_executionOrder := settings_executionOrder w;
     workflow_settings := workflow_settings w |}.

Definition setNodes (ns : list INode) (w : Workflow) : Workflow :=
  set_workflow_nodes (foldl (λ nodes node, obj_set (node_name node) node nodes) [] ns) w.

Definition setConnections (cs : IConnections) (w : Workflow) : Workflow :=
  {| workflow_id := workflow_id w; workflow_nodes := workflow_nodes w;
     connectionsBySourceNode := cs;
     connectionsByDestinationNode := mapConnectionsByDestination cs;
     workflow_pinData := workflow_pinData w; settings_executionOrder := settings_executionOrder w;
     workflow_settings := workflow_settings w |}.

Definition setPinData (pinData : option IPinData) (w : Workflow) : Workflow :=
  {| workflow_id := workflow_id w; workflow_nodes := workflow_nodes w;
     connectionsBySourceNode := connectionsBySourceNode w;
     connectionsByDestinationNode := connectionsByDestinationNode w;
     workflow_pinData := pinData; settings_executionOrder := settings_executionOrder w;
     workflow_settings := workflow_settings w |}.

(** ** Queries *)

Definition getNode (w : Workflow) (nodeName : string) : option INode :=
  obj_get nodeName (workflow_nodes w).

Definition getNodesNamed (w : Workflow) (nodeNames : list string) : list INode :=
  omap (getNode w) nodeNames.

Definition getPinDataOfNode (w : Workflow) (nodeName : string) : option (list INodeExecutionData) :=
  pinData ← workflow_pinData w; obj_get nodeName pinData.

Definition queryNodes `{INodeTypes} (w : Workflow) (checkFunction : INodeType → bool) : list INode :=
  filter (λ node, node_disabled node ≠ Some true ∧
                  from_option checkFunction false (nodeTypeOf node) = true)
    (workflow_nodes w).*2.

Definition getTriggerNodes `{INodeTypes} (w : Workflow) : list INode := queryNodes w nt_trigger.
Definition getPollNodes `{INodeTypes} (w : Workflow) : list INode := queryNodes w nt_poll.

Definition workflowChildNodes (w : Workflow) (nodeName : string) (type : ConnectionSelector)
    (depth : Z) : res (list string) :=
  getChildNodes (connectionsBySourceNode w) nodeName type depth.

Definition workflowParentNodes (w : Workflow) (nodeName : string) (type : ConnectionSelector)
    (depth : Z) : res (list string) :=
  getParentNodes (connectionsByDestinationNode w) nodeName type depth.

(** [connections[name]?.main] *)
Definition mainConnections (cs : IConnections) (name : string) : option NodeInputConnections :=
  nc ← obj_get name cs; obj_get NodeConnectionTypes.Main nc.

(** *** [getHighestNode]

    [checkedNodes] is one array shared by the whole recursion, so it is returned
    with the result. *)
Fixpoint getHighestNodeRec (fuel : nat) (w : Workflow) (nodeName : string)
    (nodeConnectionIndex : option nat) (checkedNodes : list string)
    : res (list string * list string) :=
  match fuel with
  | 0 => OutOfFuel
  | S fuel =>
      node ← deref (getNode w nodeName);
      let currentHighest := if bool_decide (node_disabled node = Some false) then [nodeName] else [] in
      match mainConnections (connectionsByDestinationNode w) nodeName with
      | None => Ok (currentHighest, checkedNodes)
      | Some inputs =>
          if set_has nodeName checkedNodes then Ok (currentHighest, checkedNodes) else
          let checkedNodes := checkedNodes ++ [nodeName] in
          let visible := mjoin (imap (λ connectionIndex connectionsByIndex,
            match nodeConnectionIndex with
            | Some i => if bool_decide (i ≠ connectionIndex) then [] else default [] connectionsByIndex
            | None => default [] connectionsByIndex
            end) inputs) in
          foldM (λ '(returnNodes, checkedNodes) connection,
            if set_has (conn_node connection) checkedNodes then Ok (returnNodes, checkedNodes) else
            match getNode w (conn_node connection) with
            | None => Ok (returnNodes, checkedNodes)
            | Some parent =>
                '(addNodes, checkedNodes) ←
                  getHighestNodeRec fuel w (conn_node connection) None checkedNodes;
                let addNodes :=
                  if bool_decide (addNodes = [] ∧ node_disabled parent ≠ Some true)
                  then [conn_node connection] else addNodes in
                Ok (foldl (λ s x, set_add x s) returnNodes addNodes, checkedNodes)
            end) ([], checkedNodes) visible
      end
  end.

Definition getHighestNode (w : Workflow) (nodeName : string) (nodeConnectionIndex : option nat)
    : res (list string) :=
  fst <$> getHighestNodeRec (S (S (length (workflow_nodes w)))) w nodeName nodeConnectionIndex [].

(** *** [searchNodesBFS] *)

Record IConnectedNode := {
  cn_name : string;
  cn_indicies : list nat;
  cn_depth : nat;
}.

#[global] Instance IConnectedNode_eq_dec : EqDecision IConnectedNode.
Proof. solve_decision. Defined.

(** [visited[name].indicies = dedupe(visited[name].indicies.concat(indicies))];
    the object in [visited] is the one in [returnConns], so that is where the
    update shows.  [visited] also holds the start, which is never returned. *)
Definition mergeIndicies (name : string) (indicies : list nat) (conns : list IConnectedNode)
    : list IConnectedNode :=
  (λ c, if bool_decide (cn_name c = name)
        then {| cn_name := cn_name c; cn_indicies := set_of_list (cn_indicies c ++ indicies);
                cn_depth := cn_depth c |}
        else c) <$> conns.

(** The state of the loop: the names in [visited], [returnConns] and [queue]. *)
Record BfsState := {
  bfs_visited : list string;
  bfs_returnConns : list IConnectedNode;
  bfs_queue : list IConnectedNode;
}.

Definition bfsVisit (cs : IConnections) (sourceNode : string) (depth : nat) (s : BfsState)
    (curr : IConnectedNode) : BfsState :=
  if set_has (cn_name curr) (bfs_visited s) then
    {| bfs_visited := bfs_visited s;
       bfs_returnConns := mergeIndicies (cn_name curr) (cn_indicies curr) (bfs_returnConns s);
       bfs_queue := bfs_queue s |}
  else
    {| bfs_visited := bfs_visited s ++ [cn_name curr];
       bfs_returnConns :=
         if bool_decide (cn_name curr ≠ sourceNode) then bfs_returnConns s ++ [curr]
         else bfs_returnConns s;
       bfs_queue := bfs_queue s ++
         ((λ connection, {| cn_name := conn_node connection; cn_indicies := [conn_index connection];
                            cn_depth := depth |})
          <$> mjoin (default [] <$> default [] (mainConnections cs (cn_name curr)))) |}.

Fixpoint bfsLoop (fuel : nat) (cs : IConnections) (sourceNode : string) (maxDepth : Z) (depth : nat)
    (s : BfsState) : res (list IConnectedNode) :=
  match fuel with
  | 0 => OutOfFuel
  | S fuel =>
      if bool_decide (bfs_queue s = []) then Ok (bfs_returnConns s) else
      if bool_decide (maxDepth ≠ -1 ∧ maxDepth < Z.of_nat depth)%Z then Ok (bfs_returnConns s) else
      let depth := S depth in
      let toAdd := bfs_queue s in
      let s := {| bfs_visited := bfs_visited s; bfs_returnConns := bfs_returnConns s; bfs_queue := [] |} in
      bfsLoop fuel cs sourceNode maxDepth depth (foldl (bfsVisit cs sourceNode depth) s toAdd)
  end.

Definition searchNodesBFS (cs : IConnections) (sourceNode : string) (maxDepth : Z)
    : res (list IConnectedNode) :=
  bfsLoop (S (S (S (length cs)))) cs sourceNode maxDepth 0
    {| bfs_visited := []; bfs_returnConns := [];
       bfs_queue := [{| cn_name := sourceNode; cn_indicies := []; cn_depth := 0 |}] |}.

Definition getParentNodesByDepth (w : Workflow) (nodeName : string) (maxDepth : Z)
    : res (list IConnectedNode) :=
  searchNodesBFS (connectionsByDestinationNode w) nodeName maxDepth.

(** *** [getNodeConnectionIndexes] *)

Record INodeConnection := { nc_sourceIndex : nat; nc_destinationIndex : nat }.

#[global] Instance INodeConnection_eq_dec : EqDecision INodeConnection.
Proof. solve_decision. Defined.

(** The two inner loops: the first connection from the parent, or the names to
    push on the queue. *)
Fixpoint scanConnections (parentNodeName : string) (visitedNodes : list string)
    (l : list (nat * IConnection)) : INodeConnection + list string :=
  match l with
  | [] => inr []
  | (destinationIndex, connection) :: l =>
      if bool_decide (parentNodeName = conn_node connection) then
        inl {| nc_sourceIndex := conn_index connection; nc_destinationIndex := destinationIndex |}
      else
        match scanConnections parentNodeName visitedNodes l with
        | inl found => inl found
        | inr names =>
            inr (if set_has (conn_node connection) visitedNodes then names
                 else conn_node connection :: names)
        end
  end.

Fixpoint connectionIndexesLoop (fuel : nat) (connectionsByDest : IConnections)
    (parentNodeName type : string) (visitedNodes queue : list string) : res (option INodeConnection) :=
  match fuel with
  | 0 => OutOfFuel
  | S fuel =>
      match queue with
      | [] => Ok None
      | currentNodeName :: queue =>
          if set_has currentNodeName visitedNodes
          then connectionIndexesLoop fuel connectionsByDest parentNodeName type visitedNodes queue else
          let visitedNodes := visitedNodes ++ [currentNodeName] in
          match (nc ← obj_get currentNodeName connectionsByDest; obj_get type nc) with
          | None => connectionIndexesLoop fuel connectionsByDest parentNodeName type visitedNodes queue
          | Some typeConnections =>
              match scanConnections parentNodeName visitedNodes
                      (mjoin (imap pair ∘ default [] <$> typeConnections)) with
              | inl found => Ok (Some found)
              | inr names =>
                  connectionIndexesLoop fuel connectionsByDest parentNodeName type visitedNodes
                    (queue ++ names)
              end
          end
      end
  end.

Definition getNodeConnectionIndexes (w : Workflow) (nodeName parentNodeName : string)
    (type : NodeConnectionType) : res (option INodeConnection) :=
  match getNode w parentNodeName with
  | None => Ok None
  | Some _ =>
      connectionIndexesLoop (S (S (length (flattenConnections (connectionsByDestinationNode w)))))
        (connectionsByDestinationNode w) parentNodeName type [] [nodeName]
  end.

(** *** The start node *)

Definition MANUAL_CHAT_TRIGGER_LANGCHAIN_NODE_TYPE : string :=
  "@n8n/n8n-nodes-langchain.manualChatTrigger".

Definition STARTING_NODE_TYPES : list string :=
  ["n8n-nodes-base.manualTrigger"; "n8n-nodes-base.executeWorkflowTrigger";
   "n8n-nodes-base.errorTrigger"; "n8n-nodes-base.evaluationTrigger"; "n8n-nodes-base.formTrigger"].

(** [l.indexOf(x)] *)
Fixpoint indexOf_from (i : Z) (x : string) (l : list string) : Z :=
  match l with
  | [] => -1
  | y :: l => if bool_decide (y = x) then i else indexOf_from (i + 1) x l
  end.
Definition indexOf (x : string) (l : list string) : Z := indexOf_from 0 x l.

(** The loop over [nodeNames]: the first enabled trigger or poll node. *)
Fixpoint firstTrigger `{INodeTypes} (w : Workflow) (nodeNames : list string) : res (option INode) :=
  match nodeNames with
  | [] => Ok None
  | nodeName :: nodeNames =>
      node ← deref (getNode w nodeName);
      nodeType ← deref (nodeTypeOf node);
      if bool_decide (nt_name nodeType = MANUAL_CHAT_TRIGGER_LANGCHAIN_NODE_TYPE)
      then firstTrigger w nodeNames else
      if nt_trigger nodeType || nt_poll nodeType then
        if bool_decide (node_disabled node = Some true) then firstTrigger w nodeNames else Ok (Some node)
      else firstTrigger w nodeNames
  end.

(** The loop over [sortedNodeNames]: the first enabled node of a starting type. *)
Fixpoint firstStarting (w : Workflow) (nodeNames : list string) : res (option INode) :=
  match nodeNames with
  | [] => Ok None
  | nodeName :: nodeNames =>
      node ← deref (getNode w nodeName);
      if bool_decide (node_type node ∈ STARTING_NODE_TYPES) then
        if bool_decide (node_disabled node = Some true) then firstStarting w nodeNames
        else Ok (Some node)
      else firstStarting w nodeNames
  end.

(** [__getStartNode] *)
Definition getStartNodeOf `{INodeTypes} (w : Workflow) (nodeNames : list string) : res (option INode) :=
  let single :=
    match nodeNames with
    | [nodeName] => node ← getNode w nodeName; if is_disabled node then None else Some node
    | _ => None
    end in
  match single with
  | Some node => Ok (Some node)
  | None =>
      trigger ← firstTrigger w nodeNames;
      match trigger with
      | Some node => Ok (Some node)
      | None =>
          let sortedNodeNames := node_name <$>
            array_sort (λ a b, indexOf (node_type a) STARTING_NODE_TYPES -
                               indexOf (node_type b) STARTING_NODE_TYPES)%Z (workflow_nodes w).*2 in
          firstStarting w sortedNodeNames
      end
  end.

Definition getStartNode `{INodeTypes} (w : Workflow) (destinationNode : option string)
    : res (option INode) :=
  match destinationNode with
  | Some destination =>
      if bool_decide (destination = "") then getStartNodeOf w (workflow_nodes w).*1 else
      highest ← getHighestNode w destination None;
      let nodeNames := if bool_decide (highest = []) then [destination] else highest in
      node ← getStartNodeOf w nodeNames;
      match node with
      | Some node => Ok (Some node)
      | None => Ok (name ← head nodeNames; getNode w name)
      end
  | None => getStartNodeOf w (workflow_nodes w).*1
  end.

(** *** [getConnectionsBetweenNodes] *)

Definition getConnectionsBetweenNodes (w : Workflow) (sources targets : list string)
    : list (IConnection * IConnection) :=
  mjoin ((λ source,
    mjoin ((λ '(type, outputs),
      (λ '(_, _, sourceIndex, target),
         ({| conn_node := source; conn_type := type; conn_index := sourceIndex |}, target))
      <$> filter (λ e, conn_node e.2 ∈ targets) (flattenOutputs source type outputs))
      <$> default [] (obj_get source (connectionsBySourceNode w)))) <$> sources).

(** ** Renaming *)

Definition restrictedKeys : list string :=
  ["hasOwnProperty"; "isPrototypeOf"; "propertyIsEnumerable"; "toLocaleString"; "toString"; "valueOf";
   "constructor"; "prototype"; "__proto__"; "__defineGetter__"; "__defineSetter__"; "__lookupGetter__";
   "__lookupSetter__"].

(** [toLowerCase] on the letters A to Z, which is what a comparison with the
    (ASCII) restricted names depends on. *)
Definition lower_ascii (c : ascii) : ascii :=
  let n := N_of_ascii c in
  if bool_decide (65 ≤ n ∧ n ≤ 90)%N then ascii_of_N (n + 32) else c.

Fixpoint toLowerCase (s : string) : string :=
  match s with
  | EmptyString => EmptyString
  | String c s => String (lower_ascii c) (toLowerCase s)
  end.

Definition NODES_WITH_RENAMABLE_CONTENT : list string :=
  ["n8n-nodes-base.code"; "n8n-nodes-base.function"; "n8n-nodes-base.functionItem";
   "n8n-nodes-base.aiTransform"].
Definition NODES_WITH_RENAMABLE_FORM_HTML_CONTENT : list string := ["n8n-nodes-base.form"].
Definition NODES_WITH_RENAMEABLE_TOPLEVEL_HTML_CONTENT : list string :=
  ["n8n-nodes-base.mailgun"; "n8n-nodes-base.html"].

Definition set_node_name (name : string) (n : INode) : INode :=
  {| node_ref := node_ref n; node_id := node_id n; node_name := name;
     node_typeVersion := node_typeVersion n; node_type := node_type n;
     node_position := node_position n; node_disabled := node_disabled n;
     node_retryOnFail := node_retryOnFail n; node_maxTries := node_maxTries n;
     node_waitBetweenTries := node_waitBetweenTries n;
     node_alwaysOutputData := node_alwaysOutputData n; node_executeOnce := node_executeOnce n;
     node_onError := node_onError n; node_continueOnFail := node_continueOnFail n;
     node_parameters := node_parameters n; node_rewireOutputLogTo := node_rewireOutputLogTo n;
     node_rest := node_rest n |}.

Definition set_node_parameters (parameters : IDataObject) (n : INode) : INode :=
  {| node_ref := node_ref n; node_id := node_id n; node_name := node_name n;
     node_typeVersion := node_typeVersion n; node_type := node_type n;
     node_position := node_position n; node_disabled := node_disabled n;
     node_retryOnFail := node_retryOnFail n; node_maxTries := node_maxTries n;
     node_waitBetweenTries := node_waitBetweenTries n;
     node_alwaysOutputData := node_alwaysOutputData n; node_executeOnce := node_executeOnce n;
     node_onError := node_onError n; node_continueOnFail := node_continueOnFail n;
     node_parameters := parameters; node_rewireOutputLogTo := node_rewireOutputLogTo n;
     node_rest := node_rest n |}.

Section rename.
Context (applyAccessPatterns : string → string → string → string) (currentName newName : string).

Definition startsWithEquals (s : string) : bool :=
  match s with String c _ => bool_decide (c = "="%char) | EmptyString => false end.

(** [typeof null] is ['object'], and the keys of [null || {}] are none. *)
Fixpoint renameNodeInParameterValue (hasRenamableContent : bool) (parameterValue : json) : json :=
  match parameterValue with
  | JStr s =>
      if startsWithEquals s || hasRenamableContent
      then JStr (applyAccessPatterns s currentName newName) else JStr s
  | JArr l => JArr (map (renameNodeInParameterValue false) l)
  | JObj o => JObj (map (λ kv, (kv.1, renameNodeInParameterValue hasRenamableContent kv.2)) o)
  | JNull => JObj []
  | JBool _ | JNum _ => parameterValue
  end.

(** [parameters[key] = rename(parameters[key])]; a missing property becomes
    [undefined], which reads the same. *)
Definition renameProperty (key : string) (parameters : IDataObject) : IDataObject :=
  match obj_get key parameters with
  | Some v => obj_set key (renameNodeInParameterValue true v) parameters
  | None => parameters
  end.

Definition renameFormFields (parameters : IDataObject) : IDataObject :=
  match obj_get "formFields" parameters with
  | Some (JObj formFields) =>
      match obj_get "values" formFields with
      | Some (JArr values) =>
          let values := (λ formFieldValue,
            match formFieldValue with
            | JObj field =>
                if bool_decide (obj_get "fieldType" field = Some (JStr "html"))
                then JObj (renameProperty "html" field) else formFieldValue
            | _ => formFieldValue
            end) <$> values in
          obj_set "formFields" (JObj (obj_set "values" (JArr values) formFields)) parameters
      | _ => parameters
      end
  | _ => parameters
  end.

(** The expressions of one node *)
Definition renameInNode (node : INode) : INode :=
  let parameters :=
    map (λ kv, (kv.1, renameNodeInParameterValue false kv.2)) (node_parameters node) in
  let parameters :=
    if set_has (node_type node) NODES_WITH_RENAMABLE_CONTENT
    then renameProperty "jsCode" parameters else parameters in
  let parameters :=
    if set_has (node_type node) NODES_WITH_RENAMEABLE_TOPLEVEL_HTML_CONTENT
    then renameProperty "html" parameters else parameters in
  let parameters :=
    if set_has (node_type node) NODES_WITH_RENAMABLE_FORM_HTML_CONTENT
    then renameFormFields parameters else parameters in
  set_node_parameters parameters node.

Definition renameNodes (ns : INodes) : INodes :=
  match obj_get currentName ns with
  | Some node => obj_delete currentName (obj_set newName (set_node_name newName node) ns)
  | None => ns
  end.

Definition renameSource (cs : IConnections) : IConnections :=
  match obj_get currentName cs with
  | Some nc => obj_delete currentName (obj_set newName nc cs)
  | None => cs
  end.

Definition renameTarget (connectionData : IConnection) : IConnection :=
  if bool_decide (conn_node connectionData = currentName)
  then {| conn_node := newName; conn_type := conn_type connectionData;
          conn_index := conn_index connectionData |}
  else connectionData.

Definition renameOutputs (outputs : NodeInputConnections) : NodeInputConnections :=
  map (option_map (map renameTarget)) outputs.

Definition renameTargets (cs : IConnections) : IConnections :=
  map (λ nc, (nc.1, map (λ to, (to.1, renameOutputs to.2)) nc.2)) cs.

Definition renameNode (w : Workflow) : res Workflow :=
  if set_has (toLowerCase newName) (toLowerCase <$> restrictedKeys)
  then Throw (UserError "restricted name") else
  let ns := renameNodes (workflow_nodes w) in
  let ns := (λ kn, (kn.1, renameInNode kn.2)) <$> ns in
  let cs := renameTargets (renameSource (connectionsBySourceNode w)) in
  Ok (set_connectionsBySourceNode cs (set_workflow_nodes ns w)).
End rename.
