(* ===== verification/WorkflowRename.v ===== *)
(** * Renaming a node

    What [Workflow.renameNode] does to the nodes and the connections, and the
    cases in which it damages the workflow. *)

From S2P Require Import Prelude JsCollections NodeTypes DirectedGraph Fixtures Connections Workflow.

Lemma fmap_mjoin {A B} (f : A → B) (ls : list (list A)) : f <$> mjoin ls = mjoin (fmap f <$> ls).
Proof. induction ls as [|l ls IH]; [done|]. csimpl. by rewrite fmap_app, IH. Qed.

Section rename.
Context (aap : string → string → string → string) (cur new : string).

(** The new name of a node. *)
Definition renamed (name : string) : string := if bool_decide (name = cur) then new else name.

Definition renamedEntry (e : string * string * nat * IConnection) : string * string * nat * IConnection :=
  let '(source, type, index, c) := e in
  (renamed source, type, index,
    {| conn_node := renamed (conn_node c); conn_type := conn_type c; conn_index := conn_index c |}).

Lemma renameTarget_renamed c :
  renameTarget cur new c =
  {| conn_node := renamed (conn_node c); conn_type := conn_type c; conn_index := conn_index c |}.
Proof. unfold renameTarget, renamed. destruct c; simpl. by case_bools. Qed.

Lemma flattenOutputs_rename n t outs :
  flattenOutputs n t (renameOutputs cur new outs) =
  (λ '(n, t, i, c), (n, t, i, renameTarget cur new c)) <$> flattenOutputs n t outs.
Proof.
  unfold flattenOutputs, renameOutputs. rewrite fmap_mjoin, fmap_imap.
  change (map (option_map (map (renameTarget cur new))) outs)
    with (option_map (map (renameTarget cur new)) <$> outs).
  rewrite imap_fmap. f_equal. apply imap_ext. intros i [l|] _; [|done]. unfold compose. simpl.
  change (map (renameTarget cur new) l) with (renameTarget cur new <$> l).
  rewrite <- !list_fmap_compose. done.
Qed.

Lemma renameTargets_flatten cs :
  flattenConnections (renameTargets cur new cs) =
  (λ '(n, t, i, c), (n, t, i, renameTarget cur new c)) <$> flattenConnections cs.
Proof.
  unfold flattenConnections, renameTargets.
  induction cs as [|[n nc] cs IH]; [done|]. csimpl. rewrite fmap_app, IH. f_equal. clear IH.
  induction nc as [|[t outs] nc IH]; [done|]. csimpl. by rewrite fmap_app, IH, flattenOutputs_rename.
Qed.

Lemma flattenOutputs_source n n' t outs :
  flattenOutputs n' t outs = (λ '(_, t, i, c), (n', t, i, c)) <$> flattenOutputs n t outs.
Proof.
  unfold flattenOutputs. rewrite fmap_mjoin, fmap_imap. f_equal. apply imap_ext.
  intros i o _. unfold compose. rewrite <- list_fmap_compose. done.
Qed.

(** The entries of one source. *)
Definition sourceEntries (kv : string * INodeConnections) : list (string * string * nat * IConnection) :=
  mjoin ((λ to, flattenOutputs kv.1 to.1 to.2) <$> kv.2).

Lemma flattenConnections_sources cs : flattenConnections cs = mjoin (sourceEntries <$> cs).
Proof.
  unfold flattenConnections. f_equal. apply list_fmap_ext. intros _ [n nc] _. unfold sourceEntries. simpl.
  f_equal. apply list_fmap_ext. by intros _ [t o] _.
Qed.

Definition moveEntry (e : string * string * nat * IConnection) : string * string * nat * IConnection :=
  let '(source, type, index, c) := e in (renamed source, type, index, c).

Lemma sourceEntries_move n nc : moveEntry <$> sourceEntries (n, nc) = sourceEntries (renamed n, nc).
Proof.
  unfold sourceEntries. rewrite fmap_mjoin, <- list_fmap_compose. f_equal. apply list_fmap_ext.
  intros _ [t outs] _. unfold compose. simpl. rewrite (flattenOutputs_source n (renamed n)).
  apply list_fmap_ext. intros i [[[s t'] j] c] Hin. apply list_elem_of_lookup_2 in Hin.
  unfold flattenOutputs in Hin. apply list_elem_of_join in Hin as (l & Hl & Hin).
  apply elem_of_lookup_imap in Hin as (k & o & -> & _).
  apply list_elem_of_fmap in Hl as (c' & [= -> -> -> ->] & _). done.
Qed.

(** An object without the key of the source, up to the order of its keys. *)
Lemma obj_delete_split {V} (o : jsobj V) k v :
  NoDup o.*1 → obj_get k o = Some v → o ≡ₚ (k, v) :: obj_delete k o.
Proof.
  unfold obj_get, obj_delete, map_delete. induction o as [|[k' v'] o IH]; simpl; [done|].
  rewrite NoDup_cons. intros [Hk' Hnd] Hget. destruct (bool_decide_reflect (k' = k)) as [->|Hne].
  - injection Hget as ->. rewrite filter_cons_False by naive_solver. f_equiv.
    rewrite filter_all; [done|]. intros [k' v''] Hin Heq. simpl in Heq. subst.
    apply Hk'. apply list_elem_of_fmap. by exists (k, v'').
  - rewrite filter_cons_True by done. rewrite (IH Hnd Hget) at 1. apply Permutation_swap.
Qed.

Lemma renameSource_flatten cs :
  NoDup cs.*1 → new ∉ cs.*1 →
  flattenConnections (renameSource cur new cs) ≡ₚ moveEntry <$> flattenConnections cs.
Proof.
  intros Hnd Hnew. rewrite !flattenConnections_sources.
  assert (∀ l : IConnections, cur ∉ l.*1 →
    moveEntry <$> mjoin (sourceEntries <$> l) = mjoin (sourceEntries <$> l)) as Hid.
  { induction l as [|[n nc] l IH]; intros Hl; [done|]. csimpl in *. rewrite fmap_app, IH by set_solver.
    f_equal. rewrite sourceEntries_move. unfold renamed. rewrite bool_decide_false by set_solver. done. }
  unfold renameSource. destruct (obj_get cur cs) as [nc|] eqn:Hcur; cycle 1.
  { rewrite Hid; [done|]. by apply map_get_None. }
  assert (obj_has new cs = false) as Hh by by apply bool_decide_eq_false.
  assert (cur ≠ new) as Hne.
  { intros ->. apply Hnew. apply map_get_elem_of in Hcur. apply list_elem_of_fmap. by exists (new, nc). }
  assert (obj_delete cur (obj_set new nc cs) ≡ₚ (new, nc) :: obj_delete cur cs) as ->.
  { unfold obj_set. unfold obj_has in Hh. rewrite Hh. unfold obj_delete, map_delete.
    rewrite obj_insert_perm. by rewrite filter_cons_True by done. }
  rewrite (obj_delete_split cs cur nc Hnd Hcur) at 2. csimpl. rewrite fmap_app, sourceEntries_move.
  unfold renamed at 1. rewrite bool_decide_true by done. rewrite Hid; [done|].
  intros (kv & Hkv & Hin)%list_elem_of_fmap. apply elem_of_map_delete in Hin as [_ ?]. naive_solver.
Qed.

Lemma renamedEntry_split e :
  renamedEntry e = (λ '(n, t, i, c), (n, t, i, renameTarget cur new c)) (moveEntry e).
Proof. destruct e as [[[n t] i] c]. simpl. by rewrite renameTarget_renamed. Qed.

Lemma rename_flatten cs :
  NoDup cs.*1 → new ∉ cs.*1 →
  flattenConnections (renameTargets cur new (renameSource cur new cs)) ≡ₚ
    renamedEntry <$> flattenConnections cs.
Proof.
  intros Hnd Hnew. rewrite renameTargets_flatten, renameSource_flatten by done.
  rewrite <- list_fmap_compose. erewrite list_fmap_ext; [done|].
  intros _ e _. symmetry. apply renamedEntry_split.
Qed.

(** ** The nodes *)

Lemma renameNodes_get ns n k :
  cur ≠ new → obj_get cur ns = Some n →
  obj_get k (renameNodes cur new ns) =
  if bool_decide (k = cur) then None
  else if bool_decide (k = new) then Some (set_node_name new n) else obj_get k ns.
Proof.
  intros Hne Hn. unfold renameNodes. rewrite Hn, obj_get_delete, obj_get_set. done.
Qed.

Lemma obj_get_map (f : INode → INode) (ns : INodes) k :
  obj_get k ((λ kn, (kn.1, f kn.2)) <$> ns) = f <$> obj_get k ns.
Proof.
  unfold obj_get. induction ns as [|[k' n] ns IH]; csimpl; [done|]. by case_bools.
Qed.

(** A name that may be given to a node: not one of the reserved names. *)
Definition allowedName (name : string) : Prop := toLowerCase name ∉ toLowerCase <$> restrictedKeys.

Lemma renameNode_ok w :
  allowedName new → ∃ w', renameNode aap cur new w = Ok w' ∧
    connectionsBySourceNode w' = renameTargets cur new (renameSource cur new (connectionsBySourceNode w)) ∧
    connectionsByDestinationNode w' = connectionsByDestinationNode w ∧
    ∀ k, getNode w' k = renameInNode aap cur new <$> obj_get k (renameNodes cur new (workflow_nodes w)).
Proof.
  intros Ha. unfold renameNode, set_has. rewrite bool_decide_false by exact Ha. eexists.
  split; [done|]. split; [done|]. split; [done|]. intros k. unfold getNode. simpl. apply obj_get_map.
Qed.
End rename.

(** renaming a node to another, allowed name without outgoing
    connections moves it to the new name (the
    same object, with the new name), frees the old name, keeps every other node
    up to the references in its parameters, and renames both ends of every
    connection: the entries of the new connections are, with multiplicity, the
    renamed entries of the old ones. *)
Theorem renameNode_renames aap cur new w n :
  allowedName new → cur ≠ new → getNode w cur = Some n →
  NoDup (connectionsBySourceNode w).*1 → new ∉ (connectionsBySourceNode w).*1 →
  ∃ w', renameNode aap cur new w = Ok w' ∧
    getNode w' cur = None ∧
    getNode w' new = Some (renameInNode aap cur new (set_node_name new n)) ∧
    (∀ k, k ≠ cur → k ≠ new → getNode w' k = renameInNode aap cur new <$> getNode w k) ∧
    flattenConnections (connectionsBySourceNode w') ≡ₚ
      renamedEntry cur new <$> flattenConnections (connectionsBySourceNode w).
Proof.
  intros Ha Hne Hn Hnd Hnew. destruct (renameNode_ok aap cur new w Ha) as (w' & Hw & Hc & _ & Hg).
  exists w'. split; [done|].
  assert (∀ k, getNode w' k = renameInNode aap cur new <$>
    if bool_decide (k = cur) then None
    else if bool_decide (k = new) then Some (set_node_name new n) else getNode w k) as Hget.
  { intros k. by rewrite Hg, (renameNodes_get _ _ _ n). }
  split_and!.
  - by rewrite Hget, bool_decide_true.
  - rewrite Hget, bool_decide_false, bool_decide_true by done. done.
  - intros k ? ?. by rewrite Hget, !bool_decide_false.
  - rewrite Hc. by apply rename_flatten.
Qed.

(** A trigger [A] feeding [B], with an expression that refers to [A]. *)
Definition renameFixture : Workflow :=
  setConnections [("A", [("main", [Some [{| conn_node := "B"; conn_type := "main"; conn_index := 0 |}]])])]
    (setNodes [nodeA; set_node_parameters [("value", JStr "={{ $('A').item }}"); ("note", JNull)] nodeB]
      (emptyWorkflow "w")).

Lemma renameNode_renames_witness :
  ∃ w', renameNode (λ s _ _, s) "A" "Start" renameFixture = Ok w' ∧ getNode w' "A" = None ∧
    getNode w' "Start" = Some (set_node_name "Start" nodeA).
Proof.
  destruct (renameNode_renames (λ s _ _, s) "A" "Start" renameFixture nodeA)
    as (w' & Hw & Hcur & Hnew & _);
    [unfold allowedName; by_eval|done|reflexivity|by_eval|by_eval|].
  exists w'. split; [exact Hw|]. split; [exact Hcur|exact Hnew].
Defined.

(** [renameNode] does not rebuild the index by destination: after a rename
    [connectionsByDestinationNode] still holds the old name, so that the parents
    of the renamed node's children are looked up under a name that no longer
    exists, and a renamed child loses its parents. *)
Theorem renameNode_stale_destination_index aap cur new w w' :
  renameNode aap cur new w = Ok w' →
  connectionsByDestinationNode w' = connectionsByDestinationNode w.
Proof.
  unfold renameNode. case_match; [done|]. intros [= <-]. done.
Qed.

Lemma renameNode_stale_destination_index_witness :
  workflowParentNodes renameFixture "B" (OfType "main") (-1) = Ok ["A"] ∧
  ∃ w', renameNode (λ s _ _, s) "A" "Start" renameFixture = Ok w' ∧
    connectionsByDestinationNode w' = connectionsByDestinationNode renameFixture ∧
    workflowParentNodes w' "B" (OfType "main") (-1) = Ok ["A"] ∧ getNode w' "A" = None.
Proof.
  split; [reflexivity|]. eexists. split; [reflexivity|]. split; [|split; reflexivity].
  by apply (renameNode_stale_destination_index (λ s _ _, s) "A" "Start" renameFixture).
Defined.

(** renaming a node to the name it already has removes the node and its
    outgoing connections from the workflow. *)
Theorem renameNode_same_name_deletes aap name w :
  allowedName name →
  ∃ w', renameNode aap name name w = Ok w' ∧ getNode w' name = None ∧
    obj_get name (connectionsBySourceNode w') = None.
Proof.
  intros Ha. destruct (renameNode_ok aap name name w Ha) as (w' & Hw & Hc & _ & Hg).
  exists w'. split; [done|]. split.
  - rewrite Hg. unfold renameNodes. destruct (obj_get name (workflow_nodes w)) eqn:Hn; [|by rewrite Hn].
    by rewrite obj_get_delete, bool_decide_true.
  - rewrite Hc. unfold renameTargets, renameSource.
    assert (∀ cs : IConnections, obj_get name cs = None →
      obj_get name (map (λ nc, (nc.1, map (λ to, (to.1, renameOutputs name name to.2)) nc.2)) cs) = None)
      as Hmap.
    { intros cs. unfold obj_get. induction cs as [|[k nc] cs IH]; csimpl; [done|]. by case_bools. }
    apply Hmap. destruct (obj_get name (connectionsBySourceNode w)) eqn:Hn; [|done].
    by rewrite obj_get_delete, bool_decide_true.
Qed.

Lemma renameNode_same_name_deletes_witness :
  is_Some (getNode renameFixture "A") ∧
  ∃ w', renameNode (λ s _ _, s) "A" "A" renameFixture = Ok w' ∧ getNode w' "A" = None ∧
    obj_get "A" (connectionsBySourceNode w') = None.
Proof.
  split; [eexists; reflexivity|].
  apply (renameNode_same_name_deletes (λ s _ _, s) "A" renameFixture). unfold allowedName. by_eval.
Defined.

(** every parameter that is [null] is replaced by an empty object when any
    node is renamed, whether or not the parameter mentions the node. *)
Theorem renameNode_null_parameter aap cur new hasRenamableContent key o :
  obj_get key o = Some JNull →
  ∃ o', renameNodeInParameterValue aap cur new hasRenamableContent (JObj o) = JObj o' ∧
    obj_get key o' = Some (JObj []).
Proof.
  intros Hk. eexists. split; [done|]. unfold obj_get in *.
  induction o as [|[k v] o IH]; csimpl in *; [done|]. case_bools; [|auto]. by injection Hk as ->.
Qed.

Lemma renameNode_null_parameter_witness :
  ∃ o', renameNodeInParameterValue (λ s _ _, s) "A" "Start" false (JObj [("note", JNull)]) = JObj o' ∧
    obj_get "note" o' = Some (JObj []).
Proof. apply renameNode_null_parameter. reflexivity. Defined.
