(* ===== verification/WorkflowSearch.v ===== *)
(** * Graph queries of the workflow

    That [getHighestNode], [searchNodesBFS] and [getNodeConnectionIndexes]
    terminate on every workflow and what they return. *)

From S2P Require Import Prelude JsCollections NodeTypes DirectedGraph Fixtures Connections Workflow.

(** ** [getHighestNode] *)

Section highest.
Context (w : Workflow).

(** [b] exists and feeds a main input of [a]. *)
Definition feeds (a b : string) : Prop :=
  ∃ inputs c, mainConnections (connectionsByDestinationNode w) a = Some inputs ∧
    c ∈ mjoin (default [] <$> inputs) ∧ conn_node c = b ∧ is_Some (getNode w b).

(** [b] exists and feeds the main input [index] of [a] (any input for [None]). *)
Definition feedsAt (index : option nat) (a b : string) : Prop :=
  ∃ inputs i l c, mainConnections (connectionsByDestinationNode w) a = Some inputs ∧
    inputs !! i = Some (Some l) ∧ c ∈ l ∧ conn_node c = b ∧
    (∀ k, index = Some k → k = i) ∧ is_Some (getNode w b).

Definition enabledNode (x : string) : Prop :=
  ∃ node, getNode w x = Some node ∧ node_disabled node ≠ Some true.

Definition disabledNode (x : string) : Prop :=
  ∃ node, getNode w x = Some node ∧ node_disabled node = Some true.

Lemma feedsAt_feeds index a b : feedsAt index a b → feeds a b.
Proof.
  intros (inputs & i & l & c & Hi & Hl & Hc & Hb & _ & Hn). exists inputs, c. split_and!; [done| |done|done].
  apply list_elem_of_join. exists l. split; [done|]. apply list_elem_of_fmap.
  exists (Some l). split; [done|]. by eapply list_elem_of_lookup_2.
Qed.

(** What a call adds to [checkedNodes], relative to its result. *)
Record highestPost (n : string) (index : option nat) (checked checked' : list string)
    (r : list string) : Prop := {
  hp_incl : ∀ v, v ∈ checked → v ∈ checked';
  hp_nodup : NoDup checked';
  hp_exist : ∀ v, v ∈ checked' → v ∈ (workflow_nodes w).*1;
  hp_sound : ∀ x, x ∈ r → enabledNode x ∧ rtc feeds n x;
  hp_first : mainConnections (connectionsByDestinationNode w) n ≠ None → n ∈ checked';
  hp_own : ∀ b, feedsAt index n b → b ∈ checked' ∨ mainConnections (connectionsByDestinationNode w) b = None;
  hp_own_disabled : r = [] → ∀ b, feedsAt index n b → b ∈ checked ∨ b = n ∨ disabledNode b;
  hp_closed : ∀ v b, v ∈ checked' → v ∉ checked → v ≠ n → feeds v b →
    b ∈ checked' ∨ mainConnections (connectionsByDestinationNode w) b = None;
  hp_disabled : r = [] → ∀ v, v ∈ checked' → v ∉ checked → v ≠ n →
    disabledNode v ∧ ∀ b, feeds v b → b ∈ checked ∨ b = n ∨ disabledNode b;
}.

Definition leaf (b : string) : Prop := mainConnections (connectionsByDestinationNode w) b = None.

(** The connections a call looks at. *)
Definition visible (index : option nat) (inputs : NodeInputConnections) : list IConnection :=
  mjoin (imap (λ connectionIndex connectionsByIndex,
    match index with
    | Some i => if bool_decide (i ≠ connectionIndex) then [] else default [] connectionsByIndex
    | None => default [] connectionsByIndex
    end) inputs).

Lemma feedsAt_visible index a b inputs :
  mainConnections (connectionsByDestinationNode w) a = Some inputs →
  feedsAt index a b ↔ is_Some (getNode w b) ∧ ∃ c, c ∈ visible index inputs ∧ conn_node c = b.
Proof.
  intros Hin. unfold feedsAt, visible. setoid_rewrite list_elem_of_join.
  setoid_rewrite elem_of_lookup_imap. split.
  - intros (inputs' & i & l & c & Hin' & Hi & Hc & <- & Hk & Hn). simplify_eq. split; [done|].
    exists c. split; [|done]. eexists. split; [|exists i, (Some l); split; [done|exact Hi]].
    destruct index as [k|]; [|done]. rewrite bool_decide_false; [done|].
    intros Hne. by apply Hne, Hk.
  - intros (Hn & c & (l & Hc & i & o & -> & Hi) & <-). exists inputs, i.
    destruct index as [k|]; [destruct (bool_decide_reflect (k ≠ i)) as [|Hki]; [set_solver|]|].
    all: destruct o as [l|]; simpl in Hc; [|set_solver].
    + apply dec_stable in Hki as ->. exists l, c. split_and!; [done|done|done|done|naive_solver|done].
    + exists l, c. split_and!; [done|done|done|done|naive_solver|done].
Qed.

Lemma feeds_feedsAt a b : feeds a b ↔ feedsAt None a b.
Proof.
  split; [|apply feedsAt_feeds]. intros (inputs & c & Hin & Hc & Hb & Hn).
  apply list_elem_of_join in Hc as (l & Hc & Hl). apply list_elem_of_fmap in Hl as (o & -> & Ho).
  apply list_elem_of_lookup in Ho as (i & Hi). destruct o as [l|]; simpl in Hc; [|set_solver].
  exists inputs, i, l, c. split_and!; [done|done|done|done|naive_solver|done].
Qed.

(** The invariant of the loop over the connections of [n]; [base] is
    [checkedNodes] when the loop starts. *)
Record loopInv (n : string) (base : list string) (pre : list IConnection)
    (st : list string * list string) : Prop := {
  li_incl : ∀ v, v ∈ base → v ∈ st.2;
  li_nodup : NoDup st.2;
  li_exist : ∀ v, v ∈ st.2 → v ∈ (workflow_nodes w).*1;
  li_sound : ∀ x, x ∈ st.1 → enabledNode x ∧ rtc feeds n x;
  li_own : ∀ c, c ∈ pre → is_Some (getNode w (conn_node c)) → conn_node c ∈ st.2 ∨ leaf (conn_node c);
  li_own_disabled : st.1 = [] → ∀ c, c ∈ pre → is_Some (getNode w (conn_node c)) →
    conn_node c ∈ base ∨ disabledNode (conn_node c);
  li_closed : ∀ v b, v ∈ st.2 → v ∉ base → feeds v b → b ∈ st.2 ∨ leaf b;
  li_disabled : st.1 = [] → ∀ v, v ∈ st.2 → v ∉ base →
    disabledNode v ∧ ∀ b, feeds v b → b ∈ base ∨ disabledNode b;
}.

Lemma loopInv_skip n base pre c st :
  loopInv n base pre st →
  conn_node c ∈ st.2 ∨ getNode w (conn_node c) = None → loopInv n base (pre ++ [c]) st.
Proof.
  intros [Hi Hnd He Hs Ho Hod Hc Hd] Hskip. split; try done.
  - intros e [?| ->]%elem_of_snoc Hn; [auto|]. destruct Hskip as [?|Hnone]; [by left|].
    rewrite Hnone in Hn. by destruct Hn.
  - intros Hr e [?| ->]%elem_of_snoc Hn; [auto|]. destruct Hskip as [Hin|Hnone].
    + destruct (decide (conn_node c ∈ base)); [by left|right]. by apply Hd.
    + rewrite Hnone in Hn. by destruct Hn.
Qed.

Lemma foldl_set_add_nil (l s : list string) :
  foldl (λ s x, set_add x s) s l = [] → s = [] ∧ l = [].
Proof.
  intros H. split; apply elem_of_nil_inv; intros x Hx; apply (not_elem_of_nil x); rewrite <- H;
    apply foldl_set_add_elem_of; auto.
Qed.

Lemma loopInv_step n base pre c ret chk chk' r parent :
  loopInv n base pre (ret, chk) → conn_node c ∉ chk → getNode w (conn_node c) = Some parent →
  feeds n (conn_node c) → highestPost (conn_node c) None chk chk' r →
  loopInv n base (pre ++ [c])
    (foldl (λ s x, set_add x s) ret
       (if bool_decide (r = [] ∧ node_disabled parent ≠ Some true) then [conn_node c] else r), chk').
Proof.
  intros [Hi Hnd He Hs Ho Hod Hc Hd] Hfresh Hparent Hfeeds [Pi Pnd Pe Ps Pf Po Pod Pc Pd].
  simpl in *. set (m := conn_node c) in *.
  set (add := if bool_decide _ then _ else _).
  assert (add = [] → r = [] ∧ disabledNode m) as Hadd.
  { subst add. case_bools; [done|]. intros ->. split; [done|]. exists parent. split; [done|].
    destruct (node_disabled parent) as [[]|]; naive_solver. }
  assert (∀ v, v ∈ chk' → v ∉ base → ret = [] → add = [] →
    disabledNode v ∧ ∀ b, feeds v b → b ∈ base ∨ disabledNode b) as Hdis.
  { intros v Hv Hvb -> Ha. apply Hadd in Ha as [Hr Hm]. specialize (Hd eq_refl).
    assert (∀ b, b ∈ chk ∨ b = m ∨ disabledNode b → b ∈ base ∨ disabledNode b) as Hb.
    { intros b [Hb|[->|?]]; [|by right|by right].
      destruct (decide (b ∈ base)); [by left|right]. by apply Hd. }
    destruct (decide (v ∈ chk)) as [Hvc|Hvc]; [by apply Hd|].
    destruct (decide (v = m)) as [->|Hvm].
    - split; [done|]. intros b Hmb. apply Hb. apply Pod; [done|]. by apply feeds_feedsAt.
    - destruct (Pd Hr v Hv Hvc Hvm) as [? Hv']. split; [done|]. intros b Hvb'. by apply Hb, Hv'. }
  split; simpl.
  - intros v ?. auto.
  - done.
  - done.
  - intros x [Hx|Hx]%foldl_set_add_elem_of; [by apply Hs|]. subst add. case_bools.
    + apply list_elem_of_singleton in Hx as ->. split; [exists parent; naive_solver|]. by apply rtc_once.
    + destruct (Ps x Hx). split; [done|]. eapply rtc_l; done.
  - intros e [?| ->]%elem_of_snoc Hn.
    + destruct (Ho e) as [?|?]; auto.
    + fold m. destruct (mainConnections (connectionsByDestinationNode w) m) eqn:Hmc; [|by right].
      left. by apply Pf.
  - intros [Hret Ha]%foldl_set_add_nil e [He'| ->]%elem_of_snoc Hn.
    + by apply Hod.
    + right. by apply Hadd.
  - intros v b Hv Hvb Hf. destruct (decide (v ∈ chk)) as [Hvc|Hvc].
    + destruct (Hc v b Hvc Hvb Hf); auto.
    + destruct (decide (v = m)) as [->|Hvm]; [apply Po; by apply feeds_feedsAt|by eapply Pc].
  - intros [Hret Ha]%foldl_set_add_nil v Hv Hvb. by apply Hdis.
Qed.

(** The end of the loop over the inputs of [n] *)
Lemma loopInv_post n index checked inputs r chk :
  mainConnections (connectionsByDestinationNode w) n = Some inputs →
  loopInv n (checked ++ [n]) (visible index inputs) (r, chk) → highestPost n index checked chk r.
Proof.
  intros Hin [Hi' Hnd' He' Hs Ho Hod Hc Hd]. simpl in *. split; try done.
  - intros v ?. apply Hi'. set_solver.
  - intros _. apply Hi'. set_solver.
  - intros b (Hb & c & Hcv & <-)%(feedsAt_visible index n b inputs Hin). by apply Ho.
  - intros Hr' b (Hb & c & Hcv & <-)%(feedsAt_visible index n b inputs Hin).
    destruct (Hod Hr' c Hcv Hb) as [Hb'|?]; [|by right; right]. apply elem_of_snoc in Hb' as [?|?]; auto.
  - intros v b Hv Hvc Hvn. apply Hc; [done|]. set_solver.
  - intros Hr' v Hv Hvc Hvn. destruct (Hd Hr' v Hv) as [? Hb]; [set_solver|]. split; [done|].
    intros b Hvb. destruct (Hb b Hvb) as [Hb'|?]; [|by right; right].
    apply elem_of_snoc in Hb' as [?|?]; auto.
Qed.

Lemma highest_spec fuel n index checked :
  is_Some (getNode w n) → n ∉ checked → NoDup checked → (∀ v, v ∈ checked → v ∈ (workflow_nodes w).*1) →
  length (workflow_nodes w) < fuel + length checked →
  ∃ r checked', getHighestNodeRec fuel w n index checked = Ok (r, checked') ∧
    highestPost n index checked checked' r.
Proof.
  revert n index checked. induction fuel as [|fuel IH]; intros n index checked [node Hn] Hfresh Hnd He Hf.
  { pose proof (NoDup_incl_length checked (workflow_nodes w).*1 Hnd He) as Hl.
    rewrite length_fmap in Hl. lia. }
  cbn [getHighestNodeRec]. rewrite Hn. cbn [deref mbind res_bind].
  destruct (mainConnections (connectionsByDestinationNode w) n) as [inputs|] eqn:Hin; cycle 1.
  { eexists _, checked. split; [done|]. split; try done.
    - intros x Hx. case_bools; [|set_solver]. apply list_elem_of_singleton in Hx as ->.
      split; [|done]. exists node. split; [done|]. naive_solver.
    - intros b (inputs & i & l & c & Hi & _). congruence.
    - intros _ b (inputs & i & l & c & Hi & _). congruence. }
  unfold set_has at 1. rewrite bool_decide_false by done.
  fold (visible index inputs).
  assert (n ∈ (workflow_nodes w).*1) as Hnk.
  { apply map_get_elem_of in Hn. apply list_elem_of_fmap. by exists (n, node). }
  match goal with |- context [foldM ?f _ _] =>
    destruct (foldM_total_split f (loopInv n (checked ++ [n])) ([], checked ++ [n]) (visible index inputs))
      as ([r chk] & Hr & Hinv)
  end.
  - split; simpl; try done; try set_solver.
    by apply NoDup_snoc.
  - intros pre c post [ret chk] Hvis Hinv. unfold set_has.
    destruct (bool_decide_reflect (conn_node c ∈ chk)) as [Hin'|Hnin].
    { eexists. split; [done|]. apply loopInv_skip; [done|by left]. }
    destruct (getNode w (conn_node c)) as [parent|] eqn:Hp; cycle 1.
    { eexists. split; [done|]. apply loopInv_skip; [done|by right]. }
    assert (feeds n (conn_node c)) as Hfc.
    { eapply feedsAt_feeds. apply (feedsAt_visible index n _ inputs Hin). split; [by eexists|].
      exists c. split; [|done]. rewrite Hvis. set_solver. }
    pose proof Hinv as [Hi' Hnd' He' _ _ _ _ _]. simpl in *.
    destruct (IH (conn_node c) None chk) as (r & chk' & -> & Hpost); [by eexists|done|done|done| |].
    { assert (length (checked ++ [n]) ≤ length chk) as Hl.
      { apply NoDup_incl_length; [by apply NoDup_snoc|]. intros v Hv. by apply Hi'. }
      rewrite length_app in Hl. simpl in Hl. lia. }
    cbn [mbind res_bind]. eexists. split; [done|]. by eapply loopInv_step.
  - exists r, chk. split; [exact Hr|]. by eapply loopInv_post.
Qed.

Lemma getHighestNode_spec n index :
  is_Some (getNode w n) →
  ∃ r, getHighestNode w n index = Ok r ∧
    (∀ x, x ∈ r → enabledNode x ∧ rtc feeds n x) ∧
    (r = [] → ∀ a b, feedsAt index n a → a ≠ n → rtc (λ x y, feeds x y ∧ y ≠ n) a b → disabledNode b).
Proof.
  intros Hn. unfold getHighestNode.
  destruct (highest_spec (S (S (length (workflow_nodes w)))) n index []) as (r & chk & -> & Hp);
    [done|set_solver|constructor|set_solver|simpl; lia|].
  exists r. split; [done|]. destruct Hp as [_ _ _ Hs _ Ho Hod Hc Hd].
  split; [done|]. intros -> a b Ha Hna Hab. specialize (Hod eq_refl). specialize (Hd eq_refl).
  assert (disabledNode a ∧ (a ∈ chk ∨ leaf a)) as Hstart.
  { split; [|by apply Ho]. destruct (Hod a Ha) as [?|[?|?]]; [set_solver|done|done]. }
  clear Ha. revert Hna Hstart. induction Hab as [a|a c b [Hac Hcn] _ IH]; intros Hna [Hda Hvis]; [done|].
  apply IH; [done|]. destruct Hvis as [Hvis|Hleaf].
  - destruct (Hd a Hvis) as [_ Hb]; [set_solver|done|]. split.
    + destruct (Hb c Hac) as [?|[?|?]]; [set_solver|done|done].
    + eapply Hc; [exact Hvis|set_solver|done|done].
  - destruct Hac as (inputs & e & Hi & _). unfold leaf in Hleaf. congruence.
Qed.
End highest.

(** [getHighestNode] terminates for every node of every workflow.  It only
    returns existing nodes that are not disabled and that feed the given node
    through main connections (or the node itself); if it returns none, then every
    node that feeds the given one through the selected input is disabled. *)
Theorem getHighestNode_enabled_sources w n index :
  is_Some (getNode w n) →
  ∃ r, getHighestNode w n index = Ok r ∧
    (∀ x, x ∈ r → enabledNode w x ∧ rtc (feeds w) n x) ∧
    (r = [] → ∀ a b, feedsAt w index n a → a ≠ n → rtc (λ x y, feeds w x y ∧ y ≠ n) a b →
       disabledNode w b).
Proof. apply getHighestNode_spec. Qed.

(** A workflow with the nodes and connections of the diamond. *)
Definition diamondWorkflow : Workflow :=
  setConnections
    [("A", [("main", [Some [{| conn_node := "B"; conn_type := "main"; conn_index := 0 |};
                            {| conn_node := "C"; conn_type := "main"; conn_index := 0 |}]])]);
     ("B", [("main", [Some [{| conn_node := "D"; conn_type := "main"; conn_index := 0 |}]])]);
     ("C", [("main", [Some [{| conn_node := "D"; conn_type := "main"; conn_index := 1 |}]])]);
     ("T", [("ai_tool", [Some [{| conn_node := "D"; conn_type := "ai_tool"; conn_index := 0 |}]])])]
    (setNodes [nodeA; nodeB; nodeC; nodeD; nodeT] (emptyWorkflow "diamond")).

Lemma getHighestNode_enabled_sources_witness :
  getHighestNode diamondWorkflow "D" (Some 1) = Ok ["A"] ∧
  ∃ r, getHighestNode diamondWorkflow "D" (Some 1) = Ok r ∧
    (∀ x, x ∈ r → enabledNode diamondWorkflow x ∧ rtc (feeds diamondWorkflow) "D" x).
Proof.
  split; [reflexivity|].
  destruct (getHighestNode_enabled_sources diamondWorkflow "D" (Some 1)) as (r & Hr & Hs & _);
    [eexists; reflexivity|].
  exists r. split; [exact Hr|exact Hs].
Defined.

(** ** [searchNodesBFS] *)

Section bfs.
Context (cs : IConnections) (src : string).

Abbreviation step := (linked cs (OfType NodeConnectionTypes.Main)) (only parsing).

Lemma step_main a b :
  step a b ↔ ∃ c, c ∈ mjoin (default [] <$> default [] (mainConnections cs a)) ∧ conn_node c = b.
Proof.
  unfold linked, mainConnections.
  assert (∀ nc, selectConnections (OfType NodeConnectionTypes.Main) nc =
    mjoin (default [] <$> default [] (obj_get NodeConnectionTypes.Main nc))) as Hsel.
  { intros nc. unfold selectConnections. csimpl. apply app_nil_r. }
  setoid_rewrite Hsel. destruct (obj_get a cs) as [nc|] eqn:Ha; simpl.
  - split; [intros (nc' & c & [= <-] & ? & ?); eauto|intros (c & ? & ?); eauto].
  - split; [naive_solver|intros (c & Hc & _); set_solver].
Qed.

Lemma step_key a b : step a b → a ∈ cs.*1.
Proof.
  intros (nc & c & Ha & _). apply map_get_elem_of in Ha. apply list_elem_of_fmap. by exists (a, nc).
Qed.

(** Same node, with merged indexes. *)
Definition sameNode (c c' : IConnectedNode) : Prop := cn_name c = cn_name c' ∧ cn_depth c = cn_depth c'.

Lemma mergeIndicies_names name ind conns : cn_name <$> mergeIndicies name ind conns = cn_name <$> conns.
Proof.
  unfold mergeIndicies. rewrite <- list_fmap_compose. apply list_fmap_ext.
  intros _ c _. unfold compose. by case_bools.
Qed.

Lemma elem_of_mergeIndicies name ind conns c :
  c ∈ mergeIndicies name ind conns → ∃ c', c' ∈ conns ∧ sameNode c c'.
Proof.
  unfold mergeIndicies. intros (c' & -> & Hc)%list_elem_of_fmap. exists c'. split; [done|].
  unfold sameNode. by case_bools.
Qed.

Lemma elem_of_names_snoc x pre e :
  x ∈ cn_name <$> (pre ++ [e]) ↔ x ∈ cn_name <$> pre ∨ x = cn_name e.
Proof. rewrite fmap_app. apply elem_of_snoc. Qed.

(** The state after the entries [pre] of a level, which started with the names
    [V] visited and the nodes [R] returned; [d] is the distance of the level. *)
Record levelInv (V : list string) (R : list IConnectedNode) (d : nat) (pre : list IConnectedNode)
    (s : BfsState) : Prop := {
  lv_visited : ∀ x, x ∈ bfs_visited s ↔ x ∈ V ∨ x ∈ cn_name <$> pre;
  lv_names : ∀ x, x ∈ cn_name <$> bfs_returnConns s ↔ x ∈ bfs_visited s ∧ x ≠ src;
  lv_nodup : NoDup (cn_name <$> bfs_returnConns s);
  lv_returned : ∀ c, c ∈ bfs_returnConns s →
    (∃ c', c' ∈ R ∧ sameNode c c') ∨ ((cn_name c ∉ V) ∧ cn_depth c = d);
  lv_depth : ∀ e, e ∈ bfs_queue s → cn_depth e = S d;
  lv_queue : ∀ x, x ∈ cn_name <$> bfs_queue s ↔ ∃ y, y ∈ bfs_visited s ∧ (y ∉ V) ∧ step y x;
}.

Lemma levelInv_step V R d pre s e :
  levelInv V R d pre s → cn_depth e = d → levelInv V R d (pre ++ [e]) (bfsVisit cs src (S d) s e).
Proof.
  intros [Hv Hn Hnd Hr Hd Hq] He. unfold bfsVisit, set_has.
  destruct (bool_decide_reflect (cn_name e ∈ bfs_visited s)) as [Hin|Hnin].
  - split; simpl; rewrite ?mergeIndicies_names; try done.
    + intros x. rewrite Hv, elem_of_names_snoc. apply Hv in Hin. naive_solver.
    + intros c (c' & Hc' & [Hn' Hd'])%elem_of_mergeIndicies.
      destruct (Hr c' Hc') as [(c'' & ? & [? ?])|[? ?]]; [left; exists c''; split; [done|split; congruence]|].
      right. by rewrite Hn', Hd'.
  - assert (cn_name e ∉ V) as HeV by (intros ?; apply Hnin, Hv; by left).
    assert (∀ x, x ∈ bfs_visited s ++ [cn_name e] ↔ x ∈ bfs_visited s ∨ x = cn_name e) as Hvis
      by (intros; apply elem_of_snoc).
    split; simpl.
    + intros x. rewrite Hvis, Hv, elem_of_names_snoc. tauto.
    + intros x. rewrite Hvis. case_bools.
      * rewrite elem_of_names_snoc, Hn. naive_solver.
      * rewrite Hn. apply dec_stable in H. naive_solver.
    + case_bools; [|done]. rewrite fmap_app. apply NoDup_snoc; [done|]. rewrite Hn. naive_solver.
    + intros c Hc. assert (c ∈ bfs_returnConns s ∨ c = e) as [Hc'| ->].
      { case_bools; [by apply elem_of_snoc|by left]. }
      * by apply Hr.
      * by right.
    + intros c [Hc|Hc]%elem_of_app; [auto|]. by apply list_elem_of_fmap in Hc as (? & -> & _).
    + intros x. rewrite fmap_app, elem_of_app, Hq, <- list_fmap_compose, list_elem_of_fmap.
      setoid_rewrite Hvis. split.
      * intros [(y & ? & ? & ?)|(c & -> & Hc)]; [eauto 10|]. exists (cn_name e).
        split; [by right|]. split; [done|]. apply step_main. by exists c.
      * intros (y & [Hy| ->] & HyV & Hyx); [left; eauto|right].
        apply step_main in Hyx as (c & ? & <-). by exists c.
Qed.

Lemma level_spec V R d q s :
  levelInv V R d [] s → (∀ e, e ∈ q → cn_depth e = d) →
  levelInv V R d q (foldl (bfsVisit cs src (S d)) s q).
Proof.
  assert (∀ pre q s, levelInv V R d pre s → (∀ e, e ∈ q → cn_depth e = d) →
    levelInv V R d (pre ++ q) (foldl (bfsVisit cs src (S d)) s q)) as Hgen.
  { intros pre q'. revert pre. induction q' as [|e q' IH]; intros pre s' Hs Hq; simpl.
    - by rewrite app_nil_r.
    - rewrite cons_middle, app_assoc. apply IH; [|intros; apply Hq; by right].
      apply levelInv_step; [done|]. apply Hq. left. }
  apply (Hgen [] q s).
Qed.

(** The names at distance less than [d]. *)
Definition within (d : nat) (x : string) : Prop := ∃ k, k < d ∧ nsteps step k src x.

(** The invariant between two levels. *)
Record bfsInv (d : nat) (s : BfsState) : Prop := {
  bi_visited : ∀ x, x ∈ bfs_visited s ↔ within d x;
  bi_names : ∀ x, x ∈ cn_name <$> bfs_returnConns s ↔ x ∈ bfs_visited s ∧ x ≠ src;
  bi_nodup : NoDup (cn_name <$> bfs_returnConns s);
  bi_depth : ∀ c, c ∈ bfs_returnConns s →
    nsteps step (cn_depth c) src (cn_name c) ∧ ¬ within (cn_depth c) (cn_name c);
  bi_queue_depth : ∀ e, e ∈ bfs_queue s → cn_depth e = d;
  bi_queue_sound : ∀ x, x ∈ cn_name <$> bfs_queue s → nsteps step d src x;
  bi_queue : ∀ x, nsteps step d src x → x ∈ bfs_visited s ∨ x ∈ cn_name <$> bfs_queue s;
}.

Lemma within_S d x : within (S d) x ↔ within d x ∨ nsteps step d src x.
Proof.
  unfold within. split.
  - intros (k & Hk & Hx). destruct (decide (k = d)) as [->|]; [by right|left]. exists k. split; [lia|done].
  - intros [(k & ? & ?)|?]; [exists k|exists d]; (split; [lia|done]).
Qed.

(** One iteration of the loop *)
Definition nextLevel (d : nat) (s : BfsState) : BfsState :=
  foldl (bfsVisit cs src (S d))
    {| bfs_visited := bfs_visited s; bfs_returnConns := bfs_returnConns s; bfs_queue := [] |}
    (bfs_queue s).

Lemma nextLevel_spec d s :
  bfsInv d s → levelInv (bfs_visited s) (bfs_returnConns s) d (bfs_queue s) (nextLevel d s).
Proof.
  intros Hs. apply level_spec; [|apply Hs].
  split; simpl; [set_solver|apply Hs|apply Hs|intros c ?; left; by exists c|set_solver|].
  intros x. split; [set_solver|]. naive_solver.
Qed.

Lemma bfsInv_level d s : bfsInv d s → bfsInv (S d) (nextLevel d s).
Proof.
  intros Hinv. pose proof Hinv as [Hv Hn Hnd Hd Hqd Hqs Hq].
  destruct (nextLevel_spec d s Hinv) as [Lv Ln Lnd Lr Ld Lq].
  assert (∀ x, x ∈ bfs_visited (nextLevel d s) ↔ within (S d) x) as HV.
  { intros x. rewrite Lv, within_S, Hv. split; [naive_solver|]. intros [?|Hx]; [by left|].
    destruct (Hq x Hx) as [?%Hv|?]; auto. }
  split.
  - exact HV.
  - exact Ln.
  - exact Lnd.
  - intros c Hc. destruct (Lr c Hc) as [(c' & Hc' & [-> ->])|[Hnew ->]]; [by apply Hd|].
    rewrite Hv in Hnew. split; [|done].
    assert (cn_name c ∈ cn_name <$> bfs_returnConns (nextLevel d s)) as [Hin _]%Ln
      by by apply list_elem_of_fmap_2.
    apply HV, within_S in Hin as [?|?]; done.
  - exact Ld.
  - intros x (y & Hy & Hnew & Hstep)%Lq. rewrite Hv in Hnew.
    apply HV, within_S in Hy as [?|Hy]; [done|]. by eapply nsteps_r.
  - intros x Hx. apply nsteps_inv_r in Hx as (y & Hy & Hyx).
    destruct (decide (y ∈ bfs_visited s)) as [Hin|Hnin].
    + left. apply HV. apply Hv in Hin as (k & Hk & Hsrc). exists (S k). split; [lia|].
      by eapply nsteps_r.
    + right. apply Lq. exists y. split_and!; [|done|done]. apply HV, within_S. by right.
Qed.

(** The keys that are not visited yet bound the number of levels. *)
Definition unvisited (V : list string) : nat := length (filter (λ k, k ∉ V) cs.*1).

Lemma unvisited_lt V V' k :
  (∀ x, x ∈ V → x ∈ V') → k ∈ V' → k ∉ V → k ∈ cs.*1 → unvisited V' < unvisited V.
Proof.
  intros Hsub HkV' HkV. unfold unvisited. induction cs.*1 as [|x l IH]; [set_solver|].
  intros [->|Hk]%elem_of_cons.
  - rewrite filter_cons_False by naive_solver. rewrite filter_cons_True by done. simpl.
    enough (length (filter (λ k, k ∉ V') l) ≤ length (filter (λ k, k ∉ V) l)) by lia.
    clear IH. induction l as [|y l IH]; [done|]. rewrite !filter_cons.
    repeat case_decide; simpl; try lia. naive_solver.
  - specialize (IH Hk). rewrite !filter_cons. repeat case_decide; simpl; try lia. naive_solver.
Qed.

Definition allowedDepth (maxDepth : Z) (k : nat) : Prop := maxDepth = (-1)%Z ∨ (Z.of_nat k ≤ maxDepth)%Z.

Lemma bfsLoop_spec maxDepth fuel d s :
  bfsInv d s → (∀ k, k < d → allowedDepth maxDepth k) →
  (bfs_queue s = [] ∧ 1 ≤ fuel) ∨ unvisited (bfs_visited s) + 2 ≤ fuel →
  ∃ r, bfsLoop fuel cs src maxDepth d s = Ok r ∧ NoDup (cn_name <$> r) ∧
    (∀ c, c ∈ r → nsteps step (cn_depth c) src (cn_name c) ∧ ¬ within (cn_depth c) (cn_name c)) ∧
    (∀ x, x ∈ cn_name <$> r ↔ x ≠ src ∧ ∃ k, allowedDepth maxDepth k ∧ nsteps step k src x).
Proof.
  revert d s. induction fuel as [|fuel IH]; intros d s Hinv Hall Hfuel; [lia|].
  cbn [bfsLoop]. pose proof Hinv as [Hv Hn Hnd Hd Hqd Hqs Hq].
  assert (∀ x, within d x → ∃ k, allowedDepth maxDepth k ∧ nsteps step k src x) as Hw.
  { intros x (k & Hk & Hx). exists k. split; [by apply Hall|done]. }
  destruct (bool_decide_reflect (bfs_queue s = [])) as [Hempty|Hne].
  { eexists. split; [done|]. split; [done|]. split; [done|]. intros x. rewrite Hn, Hv. split.
    - intros [? ?]. split; [done|]. by apply Hw.
    - intros (Hx & k & _ & Hk). split; [|done].
      assert (∀ j y, nsteps step j src y → within d y) as Hclosed; [|by eapply Hclosed].
      intros j. induction j as [|j IHj]; intros y Hy.
      + destruct (decide (d = 0)) as [->|]; [|exists 0; split; [lia|done]].
        destruct (Hq y Hy) as [?%Hv|Hin]; [done|]. rewrite Hempty in Hin. set_solver.
      + apply nsteps_inv_r in Hy as (z & Hz & Hzy). apply IHj in Hz as (i & Hi & Hz).
        destruct (decide (S i < d)) as [?|?]; [exists (S i); split; [done|by eapply nsteps_r]|].
        assert (d = S i) as -> by lia. destruct (Hq y) as [?%Hv|Hin]; [by eapply nsteps_r|done|].
        rewrite Hempty in Hin. set_solver. }
  destruct (bool_decide_reflect (maxDepth ≠ -1 ∧ maxDepth < Z.of_nat d)%Z) as [[Hm1 Hm2]|Hm].
  { eexists. split; [done|]. split; [done|]. split; [done|]. intros x. rewrite Hn, Hv. split.
    - intros [? ?]. split; [done|]. by apply Hw.
    - intros (Hx & k & [?|Hk] & Hs); [done|]. split; [|done]. exists k. split; [lia|done]. }
  apply IH.
  - by apply bfsInv_level.
  - intros k Hk. destruct (decide (k = d)) as [->|]; [|apply Hall; lia].
    unfold allowedDepth. destruct (decide (maxDepth = -1)%Z); [by left|right]. lia.
  - destruct (nextLevel_spec d s Hinv) as [Lv _ _ _ _ Lq].
    fold (nextLevel d s). set (s' := nextLevel d s) in *. destruct Hfuel as [[? _]|Hfuel]; [done|].
    destruct (bfs_queue s') as [|e q] eqn:Hq'; [left; split; [done|lia]|right].
    assert (cn_name e ∈ cn_name <$> e :: q) as (y & Hy & HyV & Hye%step_key)%Lq by set_solver.
    enough (unvisited (bfs_visited s') < unvisited (bfs_visited s)) by lia.
    eapply unvisited_lt; [|exact Hy|exact HyV|exact Hye]. intros x ?. apply Lv. by left.
Qed.

Lemma searchNodesBFS_spec maxDepth :
  (-1 ≤ maxDepth)%Z →
  ∃ r, searchNodesBFS cs src maxDepth = Ok r ∧ NoDup (cn_name <$> r) ∧
    (∀ c, c ∈ r → nsteps step (cn_depth c) src (cn_name c) ∧ ¬ within (cn_depth c) (cn_name c)) ∧
    (∀ x, x ∈ cn_name <$> r ↔ x ≠ src ∧ ∃ k, allowedDepth maxDepth k ∧ nsteps step k src x).
Proof.
  intros Hm. apply bfsLoop_spec.
  - split; simpl.
    + intros x. split; [set_solver|]. intros (k & Hk & _). lia.
    + set_solver.
    + constructor.
    + set_solver.
    + intros e ->%list_elem_of_singleton. done.
    + intros x ->%list_elem_of_singleton. apply nsteps_O.
    + intros x Hx. inversion Hx; subst. right. by left.
  - lia.
  - right. simpl. unfold unvisited. pose proof (length_filter (λ k, k ∉ []) cs.*1) as Hl.
    rewrite length_fmap in Hl. lia.
Qed.
End bfs.

(** [searchNodesBFS] terminates on every workflow and returns every other
    node reachable through main connections within the depth limit exactly once,
    with its distance (the length of a shortest path) as [depth]. *)
Theorem searchNodesBFS_distance cs src maxDepth :
  (-1 ≤ maxDepth)%Z →
  ∃ r, searchNodesBFS cs src maxDepth = Ok r ∧ NoDup (cn_name <$> r) ∧
    (∀ c, c ∈ r → nsteps (linked cs (OfType NodeConnectionTypes.Main)) (cn_depth c) src (cn_name c) ∧
       ¬ within cs src (cn_depth c) (cn_name c)) ∧
    (∀ x, x ∈ cn_name <$> r ↔ x ≠ src ∧ ∃ k, allowedDepth maxDepth k ∧
       nsteps (linked cs (OfType NodeConnectionTypes.Main)) k src x).
Proof. apply searchNodesBFS_spec. Qed.

Lemma searchNodesBFS_distance_witness :
  searchNodesBFS chainConnections "A" (-1) =
    Ok [{| cn_name := "B"; cn_indicies := [0]; cn_depth := 1 |};
        {| cn_name := "D"; cn_indicies := [1]; cn_depth := 2 |}] ∧
  ∃ r, searchNodesBFS chainConnections "A" (-1) = Ok r ∧ NoDup (cn_name <$> r).
Proof.
  split; [reflexivity|].
  destruct (searchNodesBFS_distance chainConnections "A" (-1)) as (r & Hr & Hnd & _); [lia|].
  exists r. split; [exact Hr|exact Hnd].
Defined.

(** ** [getNodeConnectionIndexes] *)

Section indexes.
Context (cs : IConnections) (parent type : string).

Abbreviation up := (linked cs (OfType type)) (only parsing).

(** The incoming connections of a node with their position at their input. *)
Definition positioned (a : string) : list (nat * IConnection) :=
  match (nc ← obj_get a cs; obj_get type nc) with
  | Some tc => mjoin (imap pair ∘ default [] <$> tc)
  | None => []
  end.

Lemma up_positioned a b : up a b ↔ ∃ i c, (i, c) ∈ positioned a ∧ conn_node c = b.
Proof.
  unfold linked, positioned, selectConnections. cbn [selectTypes].
  assert (∀ tc : NodeInputConnections, ∀ c,
    c ∈ mjoin (default [] <$> tc) ↔ ∃ i, (i, c) ∈ mjoin (imap pair ∘ default [] <$> tc)) as Htc.
  { intros tc c. setoid_rewrite list_elem_of_join. setoid_rewrite list_elem_of_fmap. split.
    - intros (l & Hc & o & -> & Ho). apply list_elem_of_lookup in Hc as (i & Hi). exists i.
      exists (imap pair (default [] o)). split; [|by exists o]. apply elem_of_lookup_imap. eauto.
    - intros (i & l & Hc & o & -> & Ho). unfold compose in Hc.
      apply elem_of_lookup_imap in Hc as (j & c' & [= -> ->] & Hj).
      exists (default [] o). split; [by eapply list_elem_of_lookup_2|]. by exists o. }
  destruct (obj_get a cs) as [nc|] eqn:Ha; csimpl; cycle 1.
  { split; [naive_solver|]. intros (i & c & Hc & _). set_solver. }
  destruct (obj_get type nc) as [tc|] eqn:Ht; csimpl.
  - split.
    + intros (nc' & c & [= <-] & Hc & <-). rewrite Ht, app_nil_r in Hc. apply Htc in Hc as (i & ?). eauto.
    + intros (i & c & Hc & <-). exists nc, c. split; [done|]. split; [|done].
      rewrite Ht, app_nil_r. apply Htc. eauto.
  - split; [|intros (i & c & Hc & _); set_solver].
    intros (nc' & c & [= <-] & Hc & _). rewrite Ht in Hc. set_solver.
Qed.

Lemma scan_found V l found :
  scanConnections parent V l = inl found →
  ∃ i c, (i, c) ∈ l ∧ conn_node c = parent ∧
    found = {| nc_sourceIndex := conn_index c; nc_destinationIndex := i |}.
Proof.
  induction l as [|[i c] l IH]; simpl; [done|]. case_bools.
  - intros [= <-]. exists i, c. split; [left|done].
  - destruct (scanConnections parent V l); [|done]. intros Heq. destruct (IH Heq) as (j & d & ? & ?).
    exists j, d. split; [by right|done].
Qed.

Lemma scan_names V l names :
  scanConnections parent V l = inr names →
  length names ≤ length l ∧ (∀ i c, (i, c) ∈ l → conn_node c ≠ parent) ∧
  ∀ x, x ∈ names ↔ (x ∉ V) ∧ ∃ i c, (i, c) ∈ l ∧ conn_node c = x.
Proof.
  revert names. induction l as [|[i c] l IH]; intros names; simpl.
  { intros [= <-]. split; [done|]. split; [set_solver|]. set_solver. }
  case_bools; [done|]. destruct (scanConnections parent V l) as [|names']; [done|].
  destruct (IH names' eq_refl) as (Hl & Hp & Hx). unfold set_has. intros [= <-]. split_and!.
  - case_bools; simpl; lia.
  - intros j d [[= -> ->]|?]%elem_of_cons; [done|by eapply Hp].
  - intros x. setoid_rewrite elem_of_cons. case_bools; rewrite ?elem_of_cons, Hx.
    + split; [naive_solver|]. intros (? & j & d & [[= -> ->]|?] & <-); [done|naive_solver].
    + split.
      * intros [->|(? & j & d & ? & ?)]; [split; [done|]; exists i, c; naive_solver|naive_solver].
      * intros (? & j & d & [[= -> ->]|?] & <-); [by left|naive_solver].
Qed.

Definition answers (n : string) (r : option INodeConnection) : Prop :=
  match r with
  | Some found => ∃ a i c, rtc up n a ∧ (i, c) ∈ positioned a ∧ conn_node c = parent ∧
      found = {| nc_sourceIndex := conn_index c; nc_destinationIndex := i |}
  | None => ¬ tc up n parent
  end.

Definition entryWeight (nc : INodeConnections) : nat :=
  length (mjoin ((λ '(_, outputs), mjoin (default [] <$> outputs)) <$> nc)).

Lemma positioned_weight a : length (positioned a) ≤ from_option entryWeight 0 (map_get a cs).
Proof.
  assert (∀ outs : NodeInputConnections,
    length (mjoin (imap pair ∘ default [] <$> outs)) = length (mjoin (default [] <$> outs))) as Hlen.
  { induction outs as [|o outs IH]; [done|]. csimpl. rewrite !length_app, IH. unfold compose.
    by rewrite length_imap. }
  unfold positioned, obj_get. destruct (map_get a cs) as [nc|]; csimpl; [|done].
  unfold entryWeight. induction nc as [|[t outs] nc IH]; csimpl; [done|].
  rewrite length_app. case_bools; csimpl; [|lia]. rewrite Hlen. lia.
Qed.

Record indexInv (n : string) (V Q : list string) : Prop := {
  ix_reach : ∀ x, x ∈ Q → rtc up n x;
  ix_start : n ∈ V ∨ n ∈ Q;
  ix_closed : ∀ a b, a ∈ V → up a b → (b ∈ V ∨ b ∈ Q) ∧ b ≠ parent;
}.

Lemma indexesLoop_spec fuel n V Q :
  indexInv n V Q → length Q + budget entryWeight cs V < fuel →
  ∃ r, connectionIndexesLoop fuel cs parent type V Q = Ok r ∧ answers n r.
Proof.
  revert V Q. induction fuel as [|fuel IH]; intros V Q [Hr Hs Hc] Hf; [lia|].
  cbn [connectionIndexesLoop]. destruct Q as [|x Q].
  { exists None. split; [done|]. simpl. intros Htc.
    assert (∀ a, rtc up n a → a ∈ V) as Hall.
    { apply rtc_ind_r; [set_solver|]. intros a b _ Hab Ha.
      destruct (Hc a b Ha Hab) as [[?|?] _]; [done|set_solver]. }
    apply tc_last in Htc as (a & Ha%Hall & Hap). by destruct (Hc a parent Ha Hap). }
  unfold set_has. destruct (bool_decide_reflect (x ∈ V)) as [Hin|Hnin].
  { apply IH; [|simpl in Hf; lia]. split; [set_solver|set_solver|]. intros a b Ha Hab.
    destruct (Hc a b Ha Hab) as [? ?]. set_solver. }
  assert (from_option entryWeight 0 (map_get x cs) + budget entryWeight cs (V ++ [x]) ≤
    budget entryWeight cs V) as Hb by (apply budget_step; set_solver).
  pose proof (positioned_weight x) as Hw. pose proof (up_positioned x) as Hup. unfold positioned in Hw, Hup.
  assert (rtc up n x) as Hnx by (apply Hr; left).
  destruct (nc ← obj_get x cs; obj_get type nc) as [tc|] eqn:Htc; cycle 1.
  { apply IH; [|simpl in Hf; lia]. split; [set_solver|set_solver|].
    intros a b [Ha| ->]%elem_of_snoc Hab; [destruct (Hc a b Ha Hab) as [? ?]; set_solver|].
    apply Hup in Hab as (i & c & Hic & _). set_solver. }
  destruct (scanConnections parent (V ++ [x]) _) as [found|names] eqn:Hscan.
  { exists (Some found). split; [done|]. apply scan_found in Hscan as (i & c & Hic & Hcp & ->).
    exists x, i, c. split; [done|]. split; [|done]. unfold positioned. by rewrite Htc. }
  apply scan_names in Hscan as (Hl & Hp & Hx). apply IH.
  - split.
    + intros y [Hy|Hy]%elem_of_app; [apply Hr; by right|]. apply Hx in Hy as (_ & i & c & Hic & <-).
      eapply rtc_r; [exact Hnx|]. apply Hup. eauto.
    + set_solver.
    + intros a b [Ha| ->]%elem_of_snoc Hab; [destruct (Hc a b Ha Hab) as [? ?]; set_solver|].
      apply Hup in Hab as (i & c & Hic & <-). split; [|by eapply Hp].
      destruct (decide (conn_node c ∈ V ++ [x])); [by left|right].
      apply elem_of_app. right. apply Hx. eauto.
  - rewrite length_app. simpl in Hf. lia.
Qed.

Lemma length_flattenOutputs n t outs :
  length (flattenOutputs n t outs) = length (mjoin (default [] <$> outs)).
Proof.
  unfold flattenOutputs.
  assert (∀ (f : nat → IConnection → string * string * nat * IConnection),
    length (mjoin (imap (λ i conns, f i <$> default [] conns) outs)) =
    length (mjoin (default [] <$> outs))) as Hgen; [|apply (Hgen (λ i c, (n, t, i, c)))].
  induction outs as [|o outs IH]; intros f; [done|]. csimpl. rewrite !length_app, length_fmap.
  f_equal. apply (IH (λ i, f (S i))).
Qed.

Lemma entryWeight_flatten : sum_list (entryWeight ∘ snd <$> cs) = length (flattenConnections cs).
Proof.
  unfold flattenConnections. induction cs as [|[n nc] l IH]; csimpl; [done|].
  rewrite length_app, <- IH. f_equal. unfold compose, entryWeight. simpl. clear IH.
  induction nc as [|[t outs] nc IH]; csimpl; [done|]. by rewrite !length_app, IH, length_flattenOutputs.
Qed.

Lemma connectionIndexes_spec n :
  ∃ r, connectionIndexesLoop (S (S (length (flattenConnections cs)))) cs parent type [] [n] = Ok r ∧
    answers n r.
Proof.
  apply indexesLoop_spec.
  - split; [|set_solver|set_solver]. intros x ->%list_elem_of_singleton. done.
  - rewrite budget_total, entryWeight_flatten. simpl. lia.
Qed.
End indexes.

(** [getNodeConnectionIndexes] terminates on every workflow.  It returns
    indexes exactly when the parent is a node of the workflow that the node can be
    traced back to through connections of the given type, and then they are those
    of a connection from the parent to a node on the way. *)
Theorem getNodeConnectionIndexes_traces w n parent type :
  ∃ r, getNodeConnectionIndexes w n parent type = Ok r ∧
    (is_Some r ↔ is_Some (getNode w parent) ∧
       tc (linked (connectionsByDestinationNode w) (OfType type)) n parent) ∧
    ∀ found, r = Some found → ∃ a i c,
      rtc (linked (connectionsByDestinationNode w) (OfType type)) n a ∧
      (i, c) ∈ positioned (connectionsByDestinationNode w) type a ∧ conn_node c = parent ∧
      found = {| nc_sourceIndex := conn_index c; nc_destinationIndex := i |}.
Proof.
  unfold getNodeConnectionIndexes. destruct (getNode w parent) as [p|]; cycle 1.
  { exists None. split; [done|]. split; [|done]. split; [intros []; done|intros [[] _]; done]. }
  destruct (connectionIndexes_spec (connectionsByDestinationNode w) parent type n) as (r & -> & Hans).
  exists r. split; [done|]. destruct r as [found|]; simpl in Hans.
  - split; [|by intros ? [= <-]]. split; [|by eexists]. intros _. split; [by eexists|].
    destruct Hans as (a & i & c & Hna & Hic & Hc & _). eapply tc_rtc_l; [exact Hna|]. apply tc_once.
    apply up_positioned. eauto.
  - split; [|done]. split; [intros []; done|]. by intros [_ ?].
Qed.
