(* ===== verification/Trigger.v ===== *)
(** * The trigger of a partial execution

    Models of [partial-execution-utils/find-trigger-for-partial-execution.ts] and
    [partial-execution-utils/rewire-graph.ts]. *)

From S2P Require Import Prelude JsCollections NodeTypes DirectedGraph Fixtures GraphSearch.
From S2P Require Import GraphKeys Connections Workflow.

(** ** Strings *)

(** [s.endsWith(suffix)] *)
Definition endsWith (suffix s : string) : bool :=
  bool_decide (String.length suffix ≤ String.length s ∧
    String.substring (String.length s - String.length suffix) (String.length suffix) s = suffix).

(** [s.includes(part)] *)
Fixpoint includes (part s : string) : bool :=
  String.prefix part s ||
  match s with
  | EmptyString => false
  | String _ s => includes part s
  end.

(** ** Finding the trigger *)

Definition isTriggerNode (nodeType : INodeType) : bool := bool_decide ("trigger" ∈ nt_group nodeType).

(** [.filter(({ nodeType }) => isTriggerNode(nodeType))]; an unknown type is a
    [TypeError]. *)
Fixpoint filterTriggers `{INodeTypes} (ns : list INode) : res (list INode) :=
  match ns with
  | [] => Ok []
  | node :: ns =>
      nodeType ← deref (nodeTypeOf node);
      rest ← filterTriggers ns;
      Ok (if isTriggerNode nodeType then node :: rest else rest)
  end.

Definition findAllParentTriggers `{INodeTypes} (w : Workflow) (destinationNodeName : string)
    : res (list INode) :=
  names ← workflowParentNodes w destinationNodeName (OfType NodeConnectionTypes.Main) (-1);
  ns ← mapM_res (λ name, match getNode w name with
                         | Some node => Ok node
                         | None => Throw AssertionError
                         end) names;
  filterTriggers ns.

Definition anyReachableRootHasRunData (g : DirectedGraph) (destinationNodeName : string)
    (runData : IRunData) : res bool :=
  match map_get destinationNodeName (getNodes g) with
  | None => Ok false
  | Some destinationNode =>
      parentConnections ← getParentConnections g destinationNode;
      let parentNodes := set_of_list (gc_from <$> parentConnections) in
      rootNodes ← foldM (λ rootNodes parentNode,
        conns ← getDirectParentConnections g parentNode;
        let hasMainParents :=
          existsb (λ c, bool_decide (gc_type c = NodeConnectionTypes.Main)) conns in
        Ok (if hasMainParents then rootNodes else set_add parentNode rootNodes)) [] parentNodes;
      Ok (existsb (λ rootNode, obj_has (node_name rootNode) runData) rootNodes)
  end.

(** [(a, b) => a.type.endsWith('webhook') ? -1 : b.type.endsWith('webhook') ? 1 : 0] *)
Definition compareWebhook (a b : INode) : Z :=
  if endsWith "webhook" (node_type a) then -1
  else if endsWith "webhook" (node_type b) then 1 else 0.

Definition findTriggerForPartialExecution `{INodeTypes} (w : Workflow) (destinationNodeName : string)
    (runData : IRunData) : res (option INode) :=
  match getNode w destinationNodeName with
  | None => Ok None
  | Some destinationNode =>
      destinationNodeType ← deref (nodeTypeOf destinationNode);
      if isTriggerNode destinationNodeType && negb (is_disabled destinationNode)
      then Ok (Some destinationNode) else
      allTriggers ← findAllParentTriggers w destinationNodeName;
      let parentTriggers := filter (λ trigger, is_disabled trigger = false) allTriggers in
      match head (filter (λ trigger, obj_has (node_name trigger) runData = true) parentTriggers) with
      | Some trigger => Ok (Some trigger)
      | None =>
          let pinnedTriggers := array_sort compareWebhook
            (filter (λ trigger, is_Some (getPinDataOfNode w (node_name trigger))) parentTriggers) in
          match head pinnedTriggers with
          | Some trigger => Ok (Some trigger)
          | None =>
              let webhookTriggers :=
                filter (λ trigger, endsWith "webhook" (node_type trigger) = true) parentTriggers in
              Ok (match head webhookTriggers with
                  | Some trigger => Some trigger
                  | None => head parentTriggers
                  end)
          end
      end
  end.

(** ** Tools *)

(** The loop over static outputs returns at the first plain type. *)
Fixpoint outputsTool (outputs : list NodeOutput) : bool :=
  match outputs with
  | [] => false
  | OutputType type :: _ => bool_decide (type = NodeConnectionTypes.AiTool)
  | OutputConfiguration type :: outputs =>
      bool_decide (type = NodeConnectionTypes.AiTool) || outputsTool outputs
  end.

Definition isTool (nodeTypeDescription : INodeType) (parameters : IDataObject) : bool :=
  if includes "vectorStore" (nt_name nodeTypeDescription)
  then bool_decide (obj_get "mode" parameters = Some (JStr "retrieve-as-tool"))
  else outputsTool (default [] (nt_outputs nodeTypeDescription)).

Definition TOOL_EXECUTOR_NODE_NAME : string := "PartialExecutionToolExecutor".

Record AiAgentRequest := {
  request_query : json;
  request_toolName : option string;
}.

Section rewire.
(** [JSON.stringify] *)
Context (stringify : json → string).

(** The virtual agent; [ref] is the identity of the new object. *)
Definition toolExecutor (ref : nat) (tool rootNode : INode) (agentRequest : option AiAgentRequest) : INode :=
  {| node_ref := ref; node_id := node_id rootNode; node_name := TOOL_EXECUTOR_NODE_NAME;
     node_typeVersion := S754_zero false; node_type := "@n8n/n8n-nodes-langchain.toolExecutor";
     node_position := (S754_zero false, S754_zero false); node_disabled := Some false;
     node_retryOnFail := None; node_maxTries := None; node_waitBetweenTries := None;
     node_alwaysOutputData := None; node_executeOnce := None; node_onError := None;
     node_continueOnFail := None;
     node_parameters :=
       [("query", JStr (stringify (from_option request_query (JObj []) agentRequest)));
        ("toolName", JStr (default "" (agentRequest ≫= request_toolName)));
        ("node", JStr (node_name tool))];
     node_rewireOutputLogTo := None; node_rest := [] |}.

Definition set_rewireOutputLogTo (type : NodeConnectionType) (n : INode) : INode :=
  {| node_ref := node_ref n; node_id := node_id n; node_name := node_name n;
     node_typeVersion := node_typeVersion n; node_type := node_type n;
     node_position := node_position n; node_disabled := node_disabled n;
     node_retryOnFail := node_retryOnFail n; node_maxTries := node_maxTries n;
     node_waitBetweenTries := node_waitBetweenTries n;
     node_alwaysOutputData := node_alwaysOutputData n; node_executeOnce := node_executeOnce n;
     node_onError := node_onError n; node_continueOnFail := node_continueOnFail n;
     node_parameters := node_parameters n; node_rewireOutputLogTo := Some type;
     node_rest := node_rest n |}.

(** An assignment to a property of the node object [n] shows wherever the object
    occurs. *)
Definition assignIn (n : INode) (f : INode → INode) (m : INode) : INode :=
  if bool_decide (m = n) then f m else m.

Definition assignInGraph (n : INode) (f : INode → INode) (g : DirectedGraph) : DirectedGraph :=
  {| nodes := map (λ kn, (kn.1, assignIn n f kn.2)) (nodes g);
     connections := map (λ kc, (kc.1,
       {| gc_from := assignIn n f (gc_from kc.2); gc_to := assignIn n f (gc_to kc.2);
          gc_type := gc_type kc.2; gc_outputIndex := gc_outputIndex kc.2;
          gc_inputIndex := gc_inputIndex kc.2 |})) (connections g) |}.

Definition rewireGraph (ref : nat) (tool : INode) (graph : DirectedGraph)
    (agentRequest : option AiAgentRequest) : res DirectedGraph :=
  modifiedGraph ← clone graph;
  children ← getChildren modifiedGraph tool;
  match last children with
  | None => Ok graph
  | Some rootNode =>
      parents ← getDirectParentConnections modifiedGraph rootNode;
      let allIncomingConnection := filter (λ cn, gc_type cn = NodeConnectionTypes.Main) parents in
      let executor := toolExecutor ref tool rootNode agentRequest in
      let modifiedGraph := addNode modifiedGraph executor in
      (* tool.rewireOutputLogTo = NodeConnectionTypes.AiTool *)
      let assign := assignIn tool (set_rewireOutputLogTo NodeConnectionTypes.AiTool) in
      let modifiedGraph :=
        assignInGraph tool (set_rewireOutputLogTo NodeConnectionTypes.AiTool) modifiedGraph in
      modifiedGraph ← addConnection modifiedGraph
        {| ci_from := assign tool; ci_to := executor; ci_type := Some NodeConnectionTypes.AiTool;
           ci_outputIndex := None; ci_inputIndex := None |};
      modifiedGraph ← foldM (λ g cn, addConnection g
          {| ci_from := assign (gc_from cn); ci_to := executor; ci_type := Some (gc_type cn);
             ci_outputIndex := None; ci_inputIndex := None |})
        modifiedGraph allIncomingConnection;
      Ok (removeNode modifiedGraph (assign rootNode))
  end.
End rewire.

(** ** Which trigger is found *)

Lemma filterTriggers_ok `{!INodeTypes} ns :
  (∀ n, n ∈ ns → is_Some (nodeTypeOf n)) →
  ∃ r, filterTriggers ns = Ok r ∧ ∀ t, t ∈ r ↔ t ∈ ns ∧ ∃ nt, nodeTypeOf t = Some nt ∧ isTriggerNode nt = true.
Proof.
  induction ns as [|n ns IH]; intros Hk; simpl; [exists []; set_solver|].
  destruct (Hk n) as [nt Hnt]; [left|]. rewrite Hnt. cbn [deref mbind res_bind].
  destruct IH as (r & -> & Hr); [intros; apply Hk; by right|]. eexists. split; [done|].
  intros t. rewrite elem_of_cons. destruct (isTriggerNode nt) eqn:Ht; rewrite ?elem_of_cons, Hr.
  - split; [intros [->|[? ?]]; eauto 10|intros [[->|?] ?]; auto].
  - split; [intros [? ?]; auto|]. intros [[->|?] (nt' & Hnt' & Ht')]; [|eauto].
    rewrite Hnt in Hnt'. simplify_eq. congruence.
Qed.

Lemma head_filter_Some {A} (P : A → Prop) `{∀ x, Decision (P x)} (l : list A) x :
  head (filter P l) = Some x → x ∈ l ∧ P x.
Proof.
  intros Hh. assert (x ∈ filter P l) as [? ?]%list_elem_of_filter; [|done].
  destruct (filter P l); simplify_eq/=. left.
Qed.

Lemma head_filter_None {A} (P : A → Prop) `{∀ x, Decision (P x)} (l : list A) x :
  head (filter P l) = None → x ∈ l → ¬ P x.
Proof.
  intros Hh Hx HP. assert (x ∈ filter P l) as Hin by by apply list_elem_of_filter.
  destruct (filter P l); [set_solver|done].
Qed.

Section found.
Context `{!INodeTypes} (w : Workflow).

(** The connections only name nodes of the workflow, and all node types are known. *)
Definition parentsExist : Prop := ∀ a b,
  linked (connectionsByDestinationNode w) (OfType NodeConnectionTypes.Main) a b → is_Some (getNode w b).
Definition typesKnown : Prop := ∀ name node, getNode w name = Some node → is_Some (nodeTypeOf node).

Definition enabledTrigger (t : INode) : Prop :=
  is_disabled t = false ∧ ∃ nodeType, nodeTypeOf t = Some nodeType ∧ isTriggerNode nodeType = true.

(** [t] is an enabled trigger that feeds the destination. *)
Definition parentTrigger (destination : string) (t : INode) : Prop :=
  enabledTrigger t ∧ ∃ name, name ≠ destination ∧ getNode w name = Some t ∧
    tc (linked (connectionsByDestinationNode w) (OfType NodeConnectionTypes.Main)) destination name.

Context (Hparents : parentsExist) (Htypes : typesKnown).

Lemma findAllParentTriggers_ok d :
  ∃ r, findAllParentTriggers w d = Ok r ∧
    ∀ t, t ∈ filter (λ trigger, is_disabled trigger = false) r ↔ parentTrigger d t.
Proof.
  unfold findAllParentTriggers, workflowParentNodes, getParentNodes.
  destruct (getConnectedNodes_spec (connectionsByDestinationNode w) (OfType NodeConnectionTypes.Main) d (-1))
    as (names & -> & Hnames); [lia|]. cbn [mbind res_bind].
  assert (∀ x, x ∈ names ↔ x ≠ d ∧ tc (linked (connectionsByDestinationNode w)
    (OfType NodeConnectionTypes.Main)) d x) as Hn.
  { intros x. rewrite Hnames, tc_nsteps. unfold allowed. naive_solver. }
  assert (∀ x, x ∈ names → is_Some (getNode w x)) as Hex.
  { intros x [_ Hx]%Hn. apply tc_last in Hx as (a & _ & Ha). by eapply Hparents. }
  assert (∃ ns, mapM_res (λ name, match getNode w name with
      | Some node => Ok node | None => Throw AssertionError end) names = Ok ns ∧
    ∀ n, n ∈ ns ↔ ∃ x, x ∈ names ∧ getNode w x = Some n) as (ns & -> & Hns).
  { clear Hnames Hn. induction names as [|x names IH]; simpl; [exists []; set_solver|].
    destruct (Hex x) as [n Hx]; [left|]. rewrite Hx. cbn [mbind res_bind].
    destruct IH as (ns & -> & Hns); [intros; apply Hex; by right|]. eexists. split; [done|].
    intros m. rewrite elem_of_cons, Hns. split.
    - intros [->|(y & ? & ?)]; [exists x|exists y]; set_solver.
    - intros (y & [->|?]%elem_of_cons & ?); [left; congruence|right; eauto]. }
  cbn [mbind res_bind]. destruct (filterTriggers_ok ns) as (r & -> & Hr).
  { intros n (x & _ & Hx)%Hns. by eapply Htypes. }
  exists r. split; [done|]. intros t. rewrite list_elem_of_filter, Hr, Hns. unfold parentTrigger, enabledTrigger.
  setoid_rewrite Hn. naive_solver.
Qed.

Lemma findTrigger_spec d runData :
  is_Some (getNode w d) →
  ∃ r, findTriggerForPartialExecution w d runData = Ok r ∧
    (∀ t, r = Some t → (getNode w d = Some t ∧ enabledTrigger t) ∨ parentTrigger d t) ∧
    (r = None → (∀ t, ¬ parentTrigger d t) ∧ ∀ t, getNode w d = Some t → ¬ enabledTrigger t) ∧
    (∀ t t', (∀ n, getNode w d = Some n → ¬ enabledTrigger n) → parentTrigger d t' →
       obj_has (node_name t') runData = true → r = Some t → obj_has (node_name t) runData = true).
Proof.
  intros [dn Hd]. unfold findTriggerForPartialExecution. rewrite Hd.
  destruct (Htypes d dn Hd) as [dnt Hdnt]. rewrite Hdnt. cbn [deref mbind res_bind].
  destruct (isTriggerNode dnt && negb (is_disabled dn)) eqn:Hdt.
  { apply andb_prop in Hdt as [Htrig Hdis%negb_true_iff]. exists (Some dn). split; [done|].
    assert (enabledTrigger dn) as Hen by (split; [done|eauto]).
    split; [intros t [= <-]; by left|]. split; [done|]. intros t t' Hno. by destruct (Hno dn). }
  assert (¬ enabledTrigger dn) as Hnot.
  { intros [Hdis (nt & Hnt & Ht)]. rewrite Hdnt in Hnt. simplify_eq. by rewrite Ht, Hdis in Hdt. }
  destruct (findAllParentTriggers_ok d) as (all & -> & Hall). cbn [mbind res_bind].
  set (pts := filter _ all) in *.
  destruct (head (filter (λ trigger, obj_has (node_name trigger) runData = true) pts)) as [t|] eqn:Hrun.
  { apply head_filter_Some in Hrun as [Hin Hrd]. eexists. split; [done|].
    split; [intros ? [= <-]; right; by apply Hall|]. split; [done|]. by intros ? ? _ _ _ [= <-]. }
  assert (∀ t', parentTrigger d t' → obj_has (node_name t') runData ≠ true) as Hnorun.
  { intros t' Ht'%Hall. by apply (head_filter_None _ _ _ Hrun). }
  enough (∃ r, (∀ t, r = Some t → t ∈ pts) ∧ (r = None → ∀ t, t ∉ pts) ∧
    match head (array_sort compareWebhook
      (filter (λ trigger, is_Some (getPinDataOfNode w (node_name trigger))) pts)) with
    | Some trigger => Ok (Some trigger)
    | None => Ok (match head (filter (λ trigger, endsWith "webhook" (node_type trigger) = true) pts) with
                  | Some trigger => Some trigger | None => head pts end)
    end = Ok r) as (r & Hin & Hno & ->).
  { exists r. split; [done|]. split; [intros t Ht; right; apply Hall; by apply Hin|].
    split; [|intros t t' _ Ht' Hrd; by destruct (Hnorun t')].
    intros Hr. split; [intros t Ht%Hall; by destruct (Hno Hr t)|]. intros t [= <-]. done. }
  destruct (head (array_sort _ _)) as [t|] eqn:Hpin.
  { exists (Some t). split; [|done]. intros ? [= <-].
    assert (t ∈ array_sort compareWebhook
      (filter (λ trigger, is_Some (getPinDataOfNode w (node_name trigger))) pts)) as Hin
      by (destruct (array_sort _ _); simplify_eq/=; left).
    rewrite array_sort_perm in Hin. by apply list_elem_of_filter in Hin as [_ ?]. }
  destruct (head (filter (λ trigger, endsWith "webhook" (node_type trigger) = true) pts)) as [t|] eqn:Hw.
  { exists (Some t). split; [|done]. intros ? [= <-]. by apply head_filter_Some in Hw as [? _]. }
  exists (head pts). split_and!; [| |done].
  - intros t Ht. destruct pts; simplify_eq/=. left.
  - intros Hp t Ht. destruct pts; [set_solver|done].
Qed.
End found.

(** on a workflow whose connections name existing nodes of known types,
    [findTriggerForPartialExecution] returns.  What it returns is an enabled
    trigger, either the destination itself or one that feeds it; it returns
    nothing only if there is none; and a trigger with run data is preferred. *)
Theorem findTriggerForPartialExecution_finds `{!INodeTypes} w d runData :
  parentsExist w → typesKnown w → is_Some (getNode w d) →
  ∃ r, findTriggerForPartialExecution w d runData = Ok r ∧
    (∀ t, r = Some t → (getNode w d = Some t ∧ enabledTrigger t) ∨ parentTrigger w d t) ∧
    (r = None → (∀ t, ¬ parentTrigger w d t) ∧ ∀ t, getNode w d = Some t → ¬ enabledTrigger t) ∧
    (∀ t t', (∀ n, getNode w d = Some n → ¬ enabledTrigger n) → parentTrigger w d t' →
       obj_has (node_name t') runData = true → r = Some t → obj_has (node_name t) runData = true).
Proof. intros. by apply findTrigger_spec. Qed.

(** Node types in which only the manual trigger is a trigger. *)
Definition plainType (name : string) (group : list string) : INodeType :=
  {| nt_name := name; nt_group := group; nt_inputs := 1; nt_outputs := Some [OutputType "main"];
     nt_requiredInputs := None; nt_execute := true; nt_poll := false; nt_trigger := false;
     nt_webhook := false; nt_supplyData := false; nt_requestDefaults := false;
     nt_customOperations := None |}.

Definition sampleTypes : INodeTypes := λ name _,
  Some (plainType name
    (if bool_decide (name = "n8n-nodes-base.manualTrigger") then ["trigger"] else ["transform"])).

(** [A -> B] *)
Definition pairWorkflow : Workflow :=
  setConnections [("A", [("main", [Some [{| conn_node := "B"; conn_type := "main"; conn_index := 0 |}]])])]
    (setNodes [nodeA; nodeB] (emptyWorkflow "pair")).

Lemma pairWorkflow_parents : parentsExist pairWorkflow.
Proof.
  intros a b (nc & c & Ha & Hc & <-). unfold obj_get in Ha. simpl in Ha.
  case_bools; [|done]. injection Ha as <-. simpl in Hc.
  apply list_elem_of_singleton in Hc as ->. by eexists.
Qed.

Lemma findTriggerForPartialExecution_finds_witness :
  @findTriggerForPartialExecution sampleTypes pairWorkflow "B" [] = Ok (Some nodeA) ∧
  ∃ r, @findTriggerForPartialExecution sampleTypes pairWorkflow "B" [] = Ok r ∧
    (∀ t, r = Some t → (getNode pairWorkflow "B" = Some t ∧ @enabledTrigger sampleTypes t) ∨
       @parentTrigger sampleTypes pairWorkflow "B" t).
Proof.
  split; [reflexivity|].
  destruct (@findTriggerForPartialExecution_finds sampleTypes pairWorkflow "B" []) as (r & Hr & Hs & _);
    [exact pairWorkflow_parents|intros name node _; eexists; reflexivity|eexists; reflexivity|].
  exists r. split; [exact Hr|exact Hs].
Defined.

(** The trigger [A] feeds the agent [D] from its second output; the tool [T] is
    attached to the agent. *)
Definition agentGraph : DirectedGraph :=
  mkGraph [nodeA; nodeD; nodeT] [mkConn nodeA nodeD "main" 1 0; mkConn nodeT nodeD "ai_tool" 0 0].

(** [rewireGraph] replaces the agent of a tool by the virtual tool executor,
    but the connections into the agent lose their output index: data that came
    from the second output of a node is taken from its first output in the
    rewired graph. *)
Theorem rewireGraph_drops_output_index :
  let stringify := λ _, "{}" in
  let executor := toolExecutor stringify 9 nodeT nodeD None in
  let tool := set_rewireOutputLogTo NodeConnectionTypes.AiTool nodeT in
  ∃ g, rewireGraph stringify 9 nodeT agentGraph None = Ok g ∧ wf g ∧
    (nodes g).*2 = [nodeA; tool; executor] ∧
    (connections g).*2 = [mkConn tool executor "ai_tool" 0 0; mkConn nodeA executor "main" 0 0].
Proof.
  intros stringify executor tool. eexists. split; [vm_compute; reflexivity|]. split; [by_eval|].
  split; reflexivity.
Qed.
