(* ===== verification/Waiting.v ===== *)
(** * Scheduling the next node

    Model of the part of [packages/core/src/execution-engine/workflow-execute.ts]
    that puts nodes on the execution stack or, when a node has several inputs,
    lets them wait for the data of the other inputs: [incomingConnectionIsEmpty],
    [prepareWaitingToExecution] and [addNodeToBeExecuted].

    The state is the triple of the execution stack and the two maps of waiting
    executions ([RecreatedStack]).  Node outputs are a [slot] of arrays: the code
    tells [null] from arrays, and reading an element of [undefined] throws. *)

From S2P Require Import Prelude JsCollections NodeTypes DirectedGraph Fixtures.
From S2P Require Import RunData SourceGroups ExecutionStack Connections Workflow.

Abbreviation NodeOutputData := (list (slot (list INodeExecutionData))) (only parsing).

(** ** The operations *)

Definition isLegacyExecutionOrder (w : Workflow) : bool :=
  bool_decide (settings_executionOrder w ≠ Some "v1").

(** [nodeExecutionStack[enqueueFn](entry)] *)
Definition enqueue (w : Workflow) (entry : IExecuteData) (st : RecreatedStack) : RecreatedStack :=
  {| nodeExecutionStack :=
       if bool_decide (settings_executionOrder w = Some "v1")
       then entry :: nodeExecutionStack st else nodeExecutionStack st ++ [entry];
     waitingExecution := waitingExecution st;
     waitingExecutionSource := waitingExecutionSource st |}.

(** The items at one output of one run: [runData[node]?.[runIndex]?.data?.main?.[index]] *)
Definition runDataAt (runData : IRunData) (node : string) (runIndex index : nat)
    : slot (list INodeExecutionData) :=
  match (runs ← obj_get node runData; task ← runs !! runIndex;
         data ← task_data task; obj_get NodeConnectionTypes.Main data) with
  | Some outputs => arr_get index outputs
  | None => Undefined
  end.

(** A [null] output is not [undefined], and has no [length]. *)
Fixpoint incomingConnectionIsEmpty (runData : IRunData) (inputConnections : list IConnection)
    (runIndex : nat) : res bool :=
  match inputConnections with
  | [] => Ok true
  | inputConnection :: rest =>
      match runDataAt runData (conn_node inputConnection) runIndex (conn_index inputConnection) with
      | Undefined => incomingConnectionIsEmpty runData rest runIndex
      | Null => Throw TypeError
      | Val items =>
          if bool_decide (length items ≠ 0) then Ok false
          else incomingConnectionIsEmpty runData rest runIndex
      end
  end.

Definition set_waiting (we : IWaitingForExecution) (ws : IWaitingForExecutionSource) (st : RecreatedStack)
    : RecreatedStack :=
  {| nodeExecutionStack := nodeExecutionStack st; waitingExecution := we; waitingExecutionSource := ws |}.

Definition nullSlots {A} (n : nat) : list (slot A) := replicate n Null.

Definition prepareWaitingToExecution (nodeName : string) (numberOfConnections runIndex : nat)
    (st : RecreatedStack) : RecreatedStack :=
  set_waiting
    (obj_set nodeName
      (idx_set runIndex [(NodeConnectionTypes.Main, nullSlots numberOfConnections)]
        (default [] (obj_get nodeName (waitingExecution st)))) (waitingExecution st))
    (obj_set nodeName
      (idx_set runIndex [(NodeConnectionTypes.Main, nullSlots numberOfConnections)]
        (default [] (obj_get nodeName (waitingExecutionSource st)))) (waitingExecutionSource st))
    st.

(** [waiting[node][index].main] *)
Definition waitingMain {A} (waiting : jsobj (idxobj (jsobj (list (slot A))))) (node : string) (index : nat)
    : res (list (slot A)) :=
  entries ← deref (obj_get node waiting);
  entry ← deref (map_get index entries);
  deref (obj_get NodeConnectionTypes.Main entry).

(** [waiting[node][index].main = slots]; the intermediate objects exist. *)
Definition setWaitingMain {A} (waiting : jsobj (idxobj (jsobj (list (slot A))))) (node : string) (index : nat)
    (slots : list (slot A)) : jsobj (idxobj (jsobj (list (slot A)))) :=
  let entries := default [] (obj_get node waiting) in
  let entry := default [] (map_get index entries) in
  obj_set node (idx_set index (obj_set NodeConnectionTypes.Main slots entry) entries) waiting.

(** [delete waiting[node][index]], and of [waiting[node]] if nothing is left *)
Definition removeWaiting {A} (waiting : jsobj (idxobj A)) (node : string) (index : nat) : jsobj (idxobj A) :=
  obj_set node (map_delete index (default [] (obj_get node waiting))) waiting.

Definition truthySlot {A} (s : slot A) : bool := match s with Val _ => true | _ => false end.

(** The first waiting entry without data at the input. *)
Fixpoint findWaitingEntry (input : nat) (entries : idxobj ITaskDataConnections) : res (option nat) :=
  match entries with
  | [] => Ok None
  | (index, entry) :: entries =>
      slots ← deref (obj_get NodeConnectionTypes.Main entry);
      if truthySlot (arr_get input slots) then findWaitingEntry input entries else Ok (Some index)
  end.

(** [nodeSuccessData[outputIndex]] where [null] stays [null] *)
Definition outputAt (nodeSuccessData : slot NodeOutputData) (outputIndex : nat)
    : res (slot (list INodeExecutionData)) :=
  match nodeSuccessData with
  | Undefined => Throw TypeError
  | Null => Ok Null
  | Val outputs => Ok (arr_get outputIndex outputs)
  end.

(** [connections[node].main[0] ?? []] *)
Definition firstMainInput (w : Workflow) (node : string) : res (list IConnection) :=
  nc ← deref (obj_get node (connectionsByDestinationNode w));
  inputs ← deref (obj_get NodeConnectionTypes.Main nc);
  Ok (default [] (mjoin (inputs !! 0))).

(** The loop over the parents of a missing input. *)
Fixpoint parentToAdd (inputNode : string) (checkOutputNodes executionStackNodes : list string)
    (runData : IRunData) (nodeToAdd : string) (parentNodes : list string) : option string :=
  match parentNodes with
  | [] => Some nodeToAdd
  | parentNode :: rest =>
      if bool_decide (inputNode ≠ parentNode) && set_has parentNode checkOutputNodes then None else
      if set_has parentNode executionStackNodes then None else
      if obj_has parentNode runData then Some nodeToAdd else
      parentToAdd inputNode checkOutputNodes executionStackNodes runData parentNode rest
  end.

Section add.
Context (w : Workflow) (runData : IRunData) (parentNodeName : string) (outputIndex runIndex : nat)
  (nodeSuccessData : slot NodeOutputData).

Definition sourceData : ISourceData :=
  {| previousNode := parentNodeName; previousNodeOutput := Some outputIndex;
     previousNodeRun := Some runIndex |}.

(** One input of a node that starts to wait: force its source to run. *)
Definition forceInput (checkOutputNodes : list string) (st : RecreatedStack) (inputData : IConnection)
    : res RecreatedStack :=
  if bool_decide (conn_node inputData = parentNodeName) then Ok st else
  let executionStackNodes := (λ stackData, node_name (exec_node stackData)) <$> nodeExecutionStack st in
  willRun ←
    (if set_has (conn_node inputData) checkOutputNodes then
       conns ← firstMainInput w (conn_node inputData);
       negb <$> incomingConnectionIsEmpty runData conns runIndex
     else Ok false);
  if willRun : bool then Ok st else
  if set_has (conn_node inputData) executionStackNodes then Ok st else
  if obj_has (conn_node inputData) runData then Ok st else
  if negb (isLegacyExecutionOrder w) then Ok st else
  parentNodes ← workflowParentNodes w (conn_node inputData) (OfType NodeConnectionTypes.Main) (-1);
  let parentNodes := reverse (parentNodes ++ [conn_node inputData]) in
  let nodeToAdd :=
    parentToAdd (conn_node inputData) checkOutputNodes executionStackNodes runData (conn_node inputData)
      parentNodes in
  parentNodesNodeToAdd ←
    workflowParentNodes w (default "undefined" nodeToAdd) (OfType NodeConnectionTypes.Main) (-1);
  isEmpty ←
    (if set_has parentNodeName parentNodesNodeToAdd then
       output ← match nodeSuccessData with
                | Val outputs => Ok (arr_get outputIndex outputs)
                | _ => Throw TypeError
                end;
       match output with
       | Val items => Ok (bool_decide (length items = 0))
       | _ => Throw TypeError
       end
     else Ok false);
  match nodeToAdd with
  | None => Ok st
  | Some nodeToAdd =>
      if isEmpty : bool then Ok st else
      addEmptyItem ←
        match obj_get nodeToAdd (connectionsByDestinationNode w) with
        | None => Ok true
        | Some _ =>
            conns ← firstMainInput w nodeToAdd;
            incomingConnectionIsEmpty runData conns runIndex
        end;
      if addEmptyItem : bool then
        node ← deref (getNode w nodeToAdd);
        Ok (enqueue w
              {| exec_data := [(NodeConnectionTypes.Main, [Val [empty_item]])]; exec_metadata := None;
                 exec_node := node; exec_source := Some [(NodeConnectionTypes.Main, [Val sourceData])];
                 exec_runIndex := None |} st)
      else Ok st
  end.

(** The case that the node did not wait before: all its inputs are checked. *)
Definition forceInputs (node : string) (st : RecreatedStack) : res RecreatedStack :=
  parentConnections ← deref (obj_get parentNodeName (connectionsBySourceNode w));
  let checkOutputNodes :=
    conn_node <$> mjoin (default [] <$> default [] (obj_get NodeConnectionTypes.Main parentConnections)) in
  let inputs := default [] (mainConnections (connectionsByDestinationNode w) node) in
  foldM (forceInput checkOutputNodes) st (mjoin (default [] <$> inputs)).

(** The entry of a node with several inputs the data belongs to: an existing one
    without data at this input, or a new one. *)
Definition chooseWaitingEntry (connectionData : IConnection) (numberOfInputs : nat) (st : RecreatedStack)
    : res (nat * RecreatedStack) :=
  let node := conn_node connectionData in
  let entries := default [] (obj_get node (waitingExecution st)) in
  found ← findWaitingEntry (conn_index connectionData) entries;
  match found with
  | Some index => Ok (index, st)
  | None =>
      let index := length entries in
      Ok (index, prepareWaitingToExecution node numberOfInputs index st)
  end.

(** Writes the data and its source into the entry. *)
Definition fillWaitingEntry (connectionData : IConnection) (index : nat) (st : RecreatedStack)
    : res RecreatedStack :=
  let node := conn_node connectionData in
  output ← outputAt nodeSuccessData outputIndex;
  data ← waitingMain (waitingExecution st) node index;
  sources ← waitingMain (waitingExecutionSource st) node index;
  let source := match nodeSuccessData with Null => Null | _ => Val sourceData end in
  Ok (set_waiting
        (setWaitingMain (waitingExecution st) node index (arr_set (conn_index connectionData) output data))
        (setWaitingMain (waitingExecutionSource st) node index
          (arr_set (conn_index connectionData) source sources)) st).

(** Removes an entry, and the node if it was its last one. *)
Definition removeEntry (node : string) (index : nat) (st : RecreatedStack) : RecreatedStack :=
  let we := removeWaiting (waitingExecution st) node index in
  let ws := removeWaiting (waitingExecutionSource st) node index in
  if bool_decide (obj_get node we = Some [])
  then set_waiting (obj_delete node we) (obj_delete node ws) st
  else set_waiting we ws st.

(** A complete entry goes to the stack and is removed from the waiting ones.  The caller has
    checked that the node is one of the workflow; for another one the code would push an entry
    without a node, on which the next iteration fails, and the model fails at once. *)
Definition releaseWaitingEntry (node : string) (index : nat) (st : RecreatedStack) : res RecreatedStack :=
  workflowNode ← deref (getNode w node);
  data ← deref (map_get index (default [] (obj_get node (waitingExecution st))));
  sources ← deref (map_get index (default [] (obj_get node (waitingExecutionSource st))));
  Ok (removeEntry node index (enqueue w
    {| exec_data := data; exec_metadata := None; exec_node := workflowNode;
       exec_source := Some sources; exec_runIndex := None |} st)).

(** The end of the function when data is still missing: the entry is written
    again with the data at its input. *)
Definition keepWaitingEntry (connectionData : IConnection) (numberOfInputs index : nat)
    (st : RecreatedStack) : res RecreatedStack :=
  let node := conn_node connectionData in
  output ← outputAt nodeSuccessData outputIndex;
  connectionDataArray ← waitingMain (waitingExecution st) node index;
  sources ← waitingMain (waitingExecutionSource st) node index;
  let st := prepareWaitingToExecution node numberOfInputs index st in
  Ok (set_waiting
        (setWaitingMain (waitingExecution st) node index
          (arr_set (conn_index connectionData) output connectionDataArray))
        (setWaitingMain (waitingExecutionSource st) node index sources) st).

Definition addNodeToBeExecuted (connectionData : IConnection) (newRunIndex : option nat)
    (metadata : option ITaskMetadata) (st : RecreatedStack) : res RecreatedStack :=
  let node := conn_node connectionData in
  let numberOfInputs := length (default [] (mainConnections (connectionsByDestinationNode w) node)) in
  if bool_decide (1 < numberOfInputs) then
    let nodeWasWaiting := obj_has node (waitingExecution st) in
    let st := if nodeWasWaiting then st
              else set_waiting (obj_set node [] (waitingExecution st))
                     (obj_set node [] (waitingExecutionSource st)) st in
    '(index, st) ← chooseWaitingEntry connectionData numberOfInputs st;
    st ← fillWaitingEntry connectionData index st;
    slots ← waitingMain (waitingExecution st) node index;
    if bool_decide (Null ∉ slots) then releaseWaitingEntry node index st else
    st ← (if nodeWasWaiting then Ok st else forceInputs node st);
    keepWaitingEntry connectionData numberOfInputs index st
  else
    output ← outputAt nodeSuccessData outputIndex;
    match getNode w node with
    | None => Ok st
    | Some workflowNode =>
        Ok (enqueue w
              {| exec_data := [(NodeConnectionTypes.Main,
                   arr_set (conn_index connectionData) output (nullSlots (S (conn_index connectionData))))];
                 exec_metadata := metadata; exec_node := workflowNode;
                 exec_source := Some [(NodeConnectionTypes.Main, [Val sourceData])];
                 exec_runIndex := newRunIndex |} st)
    end.
End add.

(** ** The waiting entries *)

Definition numberOfInputs (w : Workflow) (node : string) : nat :=
  length (default [] (mainConnections (connectionsByDestinationNode w) node)).

Definition waitingEntries (st : RecreatedStack) (node : string) : idxobj ITaskDataConnections :=
  default [] (obj_get node (waitingExecution st)).

Definition waitingSources (st : RecreatedStack) (node : string) : idxobj ITaskDataConnectionsSource :=
  default [] (obj_get node (waitingExecutionSource st)).

(** The entries of a node: in the order of their indexes, with one slot per input
    and the recorded sources, each missing the data of at least one input. *)
Definition entriesOk (w : Workflow) (st : RecreatedStack) (node : string) : Prop :=
  idx_sorted (waitingEntries st node) ∧
  ∀ index entry, map_get index (waitingEntries st node) = Some entry →
    ∃ slots sources, entry = [(NodeConnectionTypes.Main, slots)] ∧
      length slots = numberOfInputs w node ∧ Null ∈ slots ∧
      map_get index (waitingSources st node) = Some [(NodeConnectionTypes.Main, sources)].

(** No node is listed as waiting without an entry. *)
Definition waitingWf (w : Workflow) (st : RecreatedStack) : Prop :=
  (∀ node, entriesOk w st node) ∧ ∀ node, obj_get node (waitingExecution st) ≠ Some [].

Lemma idx_set_nil {V} i (v : V) o : idx_set i v o ≠ [].
Proof. destruct o as [|[j x] o]; simpl; [done|]. by repeat case_bools. Qed.

Lemma idx_get_delete {V} i j (o : idxobj V) :
  map_get j (map_delete i o) = if bool_decide (j = i) then None else map_get j o.
Proof. apply map_get_delete. Qed.

(** The waiting executions of [st'] differ from those of [st] only in the entry
    [index] of [node]. *)
Record agrees (st st' : RecreatedStack) (node : string) (index : nat) : Prop := {
  ag_other : ∀ m, m ≠ node → obj_get m (waitingExecution st') = obj_get m (waitingExecution st) ∧
    obj_get m (waitingExecutionSource st') = obj_get m (waitingExecutionSource st);
  ag_entries : ∀ i, i ≠ index → map_get i (waitingEntries st' node) = map_get i (waitingEntries st node);
  ag_sources : ∀ i, i ≠ index → is_Some (map_get i (waitingEntries st' node)) →
    map_get i (waitingSources st' node) = map_get i (waitingSources st node);
  ag_sorted : idx_sorted (waitingEntries st' node);
}.

Definition entryIs (st : RecreatedStack) (node : string) (index : nat)
    (slots : list (slot (list INodeExecutionData))) (sources : list (slot ISourceData)) : Prop :=
  map_get index (waitingEntries st node) = Some [(NodeConnectionTypes.Main, slots)] ∧
  map_get index (waitingSources st node) = Some [(NodeConnectionTypes.Main, sources)].

Lemma agrees_refl st node index : idx_sorted (waitingEntries st node) → agrees st st node index.
Proof. by split. Qed.

Lemma agrees_trans st1 st2 st3 node index :
  agrees st1 st2 node index → agrees st2 st3 node index → agrees st1 st3 node index.
Proof.
  intros [Ho1 He1 Hr1 _] [Ho2 He2 Hr2 ?]. split; [| | |done].
  - intros m Hm. destruct (Ho1 m Hm), (Ho2 m Hm). split; congruence.
  - intros i Hi. by rewrite He2, He1.
  - intros i Hi Hsome. rewrite Hr2, Hr1; [done|done| |done|done]. by rewrite <- He2.
Qed.

(** Writing both maps at an entry. *)
Lemma set_entry_agrees st node index e r :
  idx_sorted (waitingEntries st node) →
  let st' := set_waiting (obj_set node (idx_set index e (waitingEntries st node)) (waitingExecution st))
    (obj_set node (idx_set index r (waitingSources st node)) (waitingExecutionSource st)) st in
  agrees st st' node index ∧ map_get index (waitingEntries st' node) = Some e ∧
    map_get index (waitingSources st' node) = Some r.
Proof.
  intros Hs st'.
  assert (waitingEntries st' node = idx_set index e (waitingEntries st node)) as He.
  { unfold waitingEntries at 1. simpl. by rewrite obj_get_set_eq. }
  assert (waitingSources st' node = idx_set index r (waitingSources st node)) as Hr.
  { unfold waitingSources at 1. simpl. by rewrite obj_get_set_eq. }
  rewrite He, Hr, !idx_get_set, !bool_decide_true by done. split; [|done]. split.
  - intros m Hm. simpl. by rewrite !obj_get_set_ne.
  - intros i Hi. by rewrite He, idx_get_set, bool_decide_false.
  - intros i Hi. by rewrite Hr, idx_get_set, bool_decide_false.
  - rewrite He. by apply idx_set_sorted.
Qed.

Lemma waitingMain_entry {A} (waiting : jsobj (idxobj (jsobj (list (slot A))))) node index slots :
  map_get index (default [] (obj_get node waiting)) = Some [(NodeConnectionTypes.Main, slots)] →
  waitingMain waiting node index = Ok slots.
Proof.
  unfold waitingMain. destruct (obj_get node waiting) as [es|]; simpl; [|done]. intros ->. done.
Qed.

Lemma setWaitingMain_entry {A} (waiting : jsobj (idxobj (jsobj (list (slot A))))) node index slots slots' :
  map_get index (default [] (obj_get node waiting)) = Some [(NodeConnectionTypes.Main, slots)] →
  setWaitingMain waiting node index slots' =
  obj_set node (idx_set index [(NodeConnectionTypes.Main, slots')] (default [] (obj_get node waiting))) waiting.
Proof. unfold setWaitingMain. intros ->. done. Qed.

Lemma removeEntry_spec st node index :
  idx_sorted (waitingEntries st node) →
  agrees st (removeEntry node index st) node index ∧
  nodeExecutionStack (removeEntry node index st) = nodeExecutionStack st ∧
  map_get index (waitingEntries (removeEntry node index st) node) = None ∧
  obj_get node (waitingExecution (removeEntry node index st)) ≠ Some [].
Proof.
  intros Hs. unfold removeEntry.
  assert (obj_get node (removeWaiting (waitingExecution st) node index) =
    Some (map_delete index (waitingEntries st node))) as Hrem.
  { unfold removeWaiting. by rewrite obj_get_set_eq. }
  assert (∀ i, map_get i (map_delete index (waitingEntries st node)) =
    if bool_decide (i = index) then None else map_get i (waitingEntries st node)) as Hdel.
  { intros i. apply map_get_delete. }
  destruct (bool_decide_reflect (obj_get node (removeWaiting (waitingExecution st) node index) = Some []))
    as [Hempty|Hne].
  - rewrite Hrem in Hempty. injection Hempty as Hempty. rewrite Hempty in Hdel. simpl in Hdel.
    assert (∀ {A} (o : jsobj (idxobj A)), default [] (obj_get node (obj_delete node o)) = []) as Hgone.
    { intros A o. by rewrite obj_get_delete, bool_decide_true. }
    split; [|split; [done|split]].
    + split; simpl.
      * intros m Hm. rewrite !obj_get_delete, !bool_decide_false by done.
        unfold removeWaiting. by rewrite !obj_get_set_ne.
      * intros i Hi. unfold waitingEntries at 1. simpl. rewrite Hgone. simpl.
        specialize (Hdel i). by rewrite bool_decide_false in Hdel by done.
      * intros i Hi. unfold waitingEntries at 1. simpl. rewrite Hgone. intros [? [=]].
      * unfold waitingEntries. simpl. rewrite Hgone. constructor.
    + unfold waitingEntries. simpl. by rewrite Hgone.
    + simpl. by rewrite obj_get_delete, bool_decide_true.
  - split; [|split; [done|split]].
    + split; simpl.
      * intros m Hm. unfold removeWaiting. by rewrite !obj_get_set_ne.
      * intros i Hi. unfold waitingEntries at 1. simpl. rewrite Hrem. simpl.
        by rewrite Hdel, bool_decide_false.
      * intros i Hi _. unfold waitingSources at 1. simpl. unfold removeWaiting. rewrite obj_get_set_eq. simpl.
        by rewrite map_get_delete, bool_decide_false.
      * unfold waitingEntries at 1. simpl. rewrite Hrem. simpl. by apply idx_delete_sorted.
    + unfold waitingEntries. simpl. rewrite Hrem. simpl. by rewrite Hdel, bool_decide_true.
    + done.
Qed.

Lemma findWaitingEntry_spec input entries :
  (∀ i e, map_get i entries = Some e → ∃ slots, e = [(NodeConnectionTypes.Main, slots)]) →
  idx_sorted entries →
  ∃ r, findWaitingEntry input entries = Ok r ∧
    match r with
    | Some index => ∃ slots, map_get index entries = Some [(NodeConnectionTypes.Main, slots)] ∧
        truthySlot (arr_get input slots) = false ∧
        ∀ j slots, j < index → map_get j entries = Some [(NodeConnectionTypes.Main, slots)] →
          truthySlot (arr_get input slots) = true
    | None => ∀ j slots, map_get j entries = Some [(NodeConnectionTypes.Main, slots)] →
        truthySlot (arr_get input slots) = true
    end.
Proof.
  intros Hok. induction entries as [|[i e] entries IH]; intros Hs; simpl; [by exists None|].
  apply StronglySorted_inv in Hs as [Hs Hlt]. rewrite Forall_forall in Hlt.
  destruct (Hok i e) as [slots ->]; [simpl; by rewrite bool_decide_true|]. cbn [deref mbind res_bind].
  assert (∀ j e, map_get j entries = Some e → i < j) as Hgt.
  { intros j e Hj. apply Hlt. apply map_get_elem_of in Hj. apply list_elem_of_fmap. by exists (j, e). }
  change (obj_get NodeConnectionTypes.Main [(NodeConnectionTypes.Main, slots)]) with (Some slots).
  cbn [deref mbind res_bind].
  destruct (truthySlot (arr_get input slots)) eqn:Ht; cycle 1.
  { exists (Some i). split; [done|]. exists slots. rewrite bool_decide_true by done. split; [done|].
    split; [done|]. intros j slots' Hj. rewrite bool_decide_false by lia. intros Hget. apply Hgt in Hget. lia. }
  destruct IH as (r & -> & Hr); [|done|].
  { intros j e Hj. apply (Hok j). simpl. rewrite bool_decide_false; [done|]. apply Hgt in Hj. lia. }
  exists r. split; [done|]. destruct r as [index|].
  - destruct Hr as (slots' & Hget & Hf & Hall). exists slots'.
    rewrite bool_decide_false by (apply Hgt in Hget; lia). split; [done|]. split; [done|].
    intros j slots'' Hj. case_bools; [by intros [= <-]|by apply Hall].
  - intros j slots'. case_bools; [by intros [= <-]|apply Hr].
Qed.

Section spec.
Context (w : Workflow) (runData : IRunData) (parentNodeName : string) (outputIndex runIndex : nat)
  (nodeSuccessData : slot NodeOutputData).

Abbreviation forceInput' := (forceInput w runData parentNodeName outputIndex runIndex nodeSuccessData)
  (only parsing).

(** Forcing inputs only touches the stack. *)
Lemma forceInput_waiting outs st c st' :
  forceInput' outs st c = Ok st' →
  waitingExecution st' = waitingExecution st ∧ waitingExecutionSource st' = waitingExecutionSource st.
Proof.
  unfold forceInput. intros H.
  repeat (first [progress res_simpl | case_match]; try (by simplify_eq/=)).
Qed.

Lemma forceInputs_waiting node st st' :
  forceInputs w runData parentNodeName outputIndex runIndex nodeSuccessData node st = Ok st' →
  waitingExecution st' = waitingExecution st ∧ waitingExecutionSource st' = waitingExecutionSource st.
Proof.
  unfold forceInputs. intros H. res_simpl.
  match type of H with foldM ?f _ ?l = _ =>
    apply (foldM_ind f (λ _ t, waitingExecution t = waitingExecution st ∧
      waitingExecutionSource t = waitingExecutionSource st) st l st' H) end; [done|].
  intros pre c t t' [Ht1 Ht2] _ Hf. apply forceInput_waiting in Hf as [-> ->]. done.
Qed.

(** *** Nodes with several inputs *)

Section several.
Context (connectionData : IConnection).
Abbreviation node := (conn_node connectionData) (only parsing).
Abbreviation input := (conn_index connectionData) (only parsing).
Abbreviation n := (numberOfInputs w node) (only parsing).

(** Which entry the data goes to: the first one without data at the input or,
    when there is none, a new one whose index is the number of entries. *)
Definition chosen (st : RecreatedStack) (index : nat) (slots : list (slot (list INodeExecutionData))) : Prop :=
  (map_get index (waitingEntries st node) = Some [(NodeConnectionTypes.Main, slots)] ∧
   truthySlot (arr_get input slots) = false ∧
   ∀ j slots', j < index → map_get j (waitingEntries st node) = Some [(NodeConnectionTypes.Main, slots')] →
     truthySlot (arr_get input slots') = true) ∨
  (index = length (waitingEntries st node) ∧ slots = nullSlots n ∧
   ∀ j slots', map_get j (waitingEntries st node) = Some [(NodeConnectionTypes.Main, slots')] →
     truthySlot (arr_get input slots') = true).

Lemma chooseWaitingEntry_spec st :
  entriesOk w st node →
  ∃ index st1 slots sources, chooseWaitingEntry connectionData n st = Ok (index, st1) ∧
    agrees st st1 node index ∧ nodeExecutionStack st1 = nodeExecutionStack st ∧
    entryIs st1 node index slots sources ∧ length slots = n ∧ chosen st index slots.
Proof.
  intros [Hs Hok]. unfold chooseWaitingEntry. fold (waitingEntries st node).
  destruct (findWaitingEntry_spec input (waitingEntries st node)) as (r & -> & Hr); [|done|].
  { intros i e Hi. destruct (Hok i e Hi) as (slots & sources & -> & _). eauto. }
  cbn [mbind res_bind]. destruct r as [index|].
  - destruct Hr as (slots & Hget & Hf & Hall). destruct (Hok index _ Hget) as (slots' & sources & [= <-] & Hl & _ & Hsrc).
    exists index, st, slots, sources. split; [done|]. split; [by apply agrees_refl|]. split; [done|].
    split; [done|]. split; [done|]. left. done.
  - eexists (length (waitingEntries st node)), _, (nullSlots n), (nullSlots n). split; [done|].
    destruct (set_entry_agrees st node (length (waitingEntries st node))
      [(NodeConnectionTypes.Main, nullSlots n)] [(NodeConnectionTypes.Main, nullSlots n)] Hs) as (Ha & He & Hsrc).
    split; [exact Ha|]. split; [done|]. split; [done|]. split; [apply length_replicate|]. right. done.
Qed.

Definition sourceSlot : slot ISourceData :=
  match nodeSuccessData with Null => Null | _ => Val (sourceData parentNodeName outputIndex runIndex) end.

Lemma fillWaitingEntry_spec st index slots sources output :
  idx_sorted (waitingEntries st node) → entryIs st node index slots sources →
  outputAt nodeSuccessData outputIndex = Ok output →
  ∃ st', fillWaitingEntry parentNodeName outputIndex runIndex nodeSuccessData connectionData index st = Ok st' ∧
    agrees st st' node index ∧ nodeExecutionStack st' = nodeExecutionStack st ∧
    entryIs st' node index (arr_set input output slots) (arr_set input sourceSlot sources).
Proof.
  intros Hs [He Hr] Hout. unfold fillWaitingEntry. rewrite Hout. cbn [mbind res_bind].
  rewrite (waitingMain_entry _ _ _ slots He), (waitingMain_entry _ _ _ sources Hr). cbn [mbind res_bind].
  rewrite (setWaitingMain_entry _ _ _ slots _ He), (setWaitingMain_entry _ _ _ sources _ Hr).
  eexists. split; [done|]. destruct (set_entry_agrees st node index
    [(NodeConnectionTypes.Main, arr_set input output slots)]
    [(NodeConnectionTypes.Main, arr_set input sourceSlot sources)] Hs) as (Ha & He' & Hr').
  split; [exact Ha|done].
Qed.

Lemma keepWaitingEntry_spec st index slots sources output :
  idx_sorted (waitingEntries st node) → entryIs st node index slots sources →
  outputAt nodeSuccessData outputIndex = Ok output →
  ∃ st', keepWaitingEntry outputIndex nodeSuccessData connectionData n index st = Ok st' ∧
    agrees st st' node index ∧ nodeExecutionStack st' = nodeExecutionStack st ∧
    entryIs st' node index (arr_set input output slots) sources.
Proof.
  intros Hs [He Hr] Hout. unfold keepWaitingEntry. rewrite Hout. cbn [mbind res_bind].
  rewrite (waitingMain_entry _ _ _ slots He), (waitingMain_entry _ _ _ sources Hr). cbn [mbind res_bind].
  set (st1 := prepareWaitingToExecution node n index st).
  destruct (set_entry_agrees st node index [(NodeConnectionTypes.Main, nullSlots n)]
    [(NodeConnectionTypes.Main, nullSlots n)] Hs) as (Ha1 & He1 & Hr1).
  change (agrees st st1 node index) in Ha1. change (map_get index (waitingEntries st1 node) =
    Some [(NodeConnectionTypes.Main, nullSlots n)]) in He1.
  change (map_get index (waitingSources st1 node) = Some [(NodeConnectionTypes.Main, nullSlots n)]) in Hr1.
  rewrite (setWaitingMain_entry _ _ _ _ _ He1), (setWaitingMain_entry _ _ _ _ _ Hr1).
  eexists. split; [done|]. destruct (set_entry_agrees st1 node index
    [(NodeConnectionTypes.Main, arr_set input output slots)] [(NodeConnectionTypes.Main, sources)]
    (ag_sorted _ _ _ _ Ha1)) as (Ha2 & He2 & Hr2).
  split; [by eapply agrees_trans|done].
Qed.

Definition stackEntry (workflowNode : INode) (slots : list (slot (list INodeExecutionData)))
    (sources : list (slot ISourceData)) : IExecuteData :=
  {| exec_data := [(NodeConnectionTypes.Main, slots)]; exec_metadata := None; exec_node := workflowNode;
     exec_source := Some [(NodeConnectionTypes.Main, sources)]; exec_runIndex := None |}.

Lemma releaseWaitingEntry_spec st index slots sources workflowNode :
  idx_sorted (waitingEntries st node) → entryIs st node index slots sources →
  getNode w node = Some workflowNode →
  ∃ st', releaseWaitingEntry w node index st = Ok st' ∧
    agrees st st' node index ∧
    nodeExecutionStack st' = nodeExecutionStack (enqueue w (stackEntry workflowNode slots sources) st) ∧
    map_get index (waitingEntries st' node) = None ∧ obj_get node (waitingExecution st') ≠ Some [].
Proof.
  intros Hs [He Hr] Hnode. unfold releaseWaitingEntry. rewrite Hnode. cbn [deref mbind res_bind].
  fold (waitingEntries st node). fold (waitingSources st node). rewrite He, Hr. cbn [deref mbind res_bind].
  eexists. split; [done|].
  destruct (removeEntry_spec (enqueue w (stackEntry workflowNode slots sources) st) node index Hs)
    as (Hag & Hstack & Hrest). split; [by destruct Hag|]. by split.
Qed.

(** The state in which the node is listed as waiting. *)
Definition listed (st : RecreatedStack) : RecreatedStack :=
  if obj_has node (waitingExecution st) then st
  else set_waiting (obj_set node [] (waitingExecution st)) (obj_set node [] (waitingExecutionSource st)) st.

Lemma listed_agrees st index :
  entriesOk w st node → entriesOk w (listed st) node ∧ waitingEntries (listed st) node = waitingEntries st node ∧
    agrees st (listed st) node index ∧ nodeExecutionStack (listed st) = nodeExecutionStack st.
Proof.
  intros Hok. unfold listed. destruct (obj_has node (waitingExecution st)) eqn:Hh.
  { split; [done|]. split; [done|]. split; [|done]. by apply agrees_refl, Hok. }
  apply bool_decide_eq_false, map_get_None in Hh.
  assert (waitingEntries st node = []) as Hnone by (unfold waitingEntries, obj_get; by rewrite Hh).
  set (st0 := set_waiting _ _ st).
  assert (waitingEntries st0 node = []) as Hnone0.
  { unfold waitingEntries. simpl. by rewrite obj_get_set_eq. }
  rewrite Hnone, Hnone0. split; [|split; [done|split; [|done]]].
  - split; rewrite Hnone0; [constructor|done].
  - split; rewrite ?Hnone, ?Hnone0; [|done| |constructor].
    + intros m Hm. simpl. by rewrite !obj_get_set_ne.
    + intros i _ [? [=]].
Qed.

(** What a successful call did to the entry of the node. *)
Definition delivered (st st' : RecreatedStack) (index : nat) (slots : list (slot (list INodeExecutionData)))
    (sources : list (slot ISourceData)) (output : slot (list INodeExecutionData)) : Prop :=
  let slots' := arr_set input output slots in
  let sources' := arr_set input sourceSlot sources in
  if bool_decide (Null ∈ slots')
  then map_get index (waitingEntries st' node) = Some [(NodeConnectionTypes.Main, slots')]
  else map_get index (waitingEntries st' node) = None ∧
    ∃ workflowNode, getNode w node = Some workflowNode ∧
      nodeExecutionStack st' =
        nodeExecutionStack (enqueue w (stackEntry workflowNode slots' sources') st).

(** Everything else is as before. *)
Definition otherwiseSame (st st' : RecreatedStack) (index : nat) : Prop :=
  (∀ m, m ≠ node → obj_get m (waitingExecution st') = obj_get m (waitingExecution st) ∧
     obj_get m (waitingExecutionSource st') = obj_get m (waitingExecutionSource st)) ∧
  ∀ i, i ≠ index → map_get i (waitingEntries st' node) = map_get i (waitingEntries st node).

Lemma arr_set_twice {A} i (x : slot A) a : arr_set i x (arr_set i x a) = arr_set i x a.
Proof.
  unfold arr_set at 1. rewrite length_arr_set, bool_decide_true by lia.
  apply list_insert_id. pose proof (arr_get_set i x a i) as Hg. rewrite bool_decide_true in Hg by done.
  unfold arr_get in Hg. destruct (arr_set i x a !! i) eqn:Hl; simpl in Hg; [by subst|].
  apply lookup_ge_None in Hl. rewrite length_arr_set in Hl. lia.
Qed.

(** The state reached before the entry is released or kept. *)
Lemma filled_spec st output :
  entriesOk w st node → outputAt nodeSuccessData outputIndex = Ok output →
  ∃ index slots sources st1 st2,
    chosen st index slots ∧ length slots = n ∧
    chooseWaitingEntry connectionData n (listed st) = Ok (index, st1) ∧
    fillWaitingEntry parentNodeName outputIndex runIndex nodeSuccessData connectionData index st1 = Ok st2 ∧
    agrees st st2 node index ∧ nodeExecutionStack st2 = nodeExecutionStack st ∧
    entryIs st2 node index (arr_set input output slots) (arr_set input sourceSlot sources).
Proof.
  intros Hok Hout.
  destruct (chooseWaitingEntry_spec (listed st))
    as (index & st1 & slots & sources & Hch & Hag & Hst1 & Hent & Hl & Hc).
  { by apply (listed_agrees st 0). }
  destruct (listed_agrees st index Hok) as (_ & Heq & Hag0 & Hst0).
  destruct (fillWaitingEntry_spec st1 index slots sources output (ag_sorted _ _ _ _ Hag) Hent Hout)
    as (st2 & Hfill & Hag2 & Hst2 & Hent2).
  exists index, slots, sources, st1, st2. split; [unfold chosen in *; by rewrite Heq in Hc|].
  split; [done|]. split; [done|]. split; [done|].
  split; [|split; [congruence|done]]. eapply agrees_trans; [exact Hag0|]. by eapply agrees_trans.
Qed.

Lemma waitingWf_agrees st st' index :
  waitingWf w st → agrees st st' node index →
  (∀ e, map_get index (waitingEntries st' node) = Some e →
     ∃ slots sources, e = [(NodeConnectionTypes.Main, slots)] ∧ length slots = n ∧ Null ∈ slots ∧
       map_get index (waitingSources st' node) = Some [(NodeConnectionTypes.Main, sources)]) →
  obj_get node (waitingExecution st') ≠ Some [] → waitingWf w st'.
Proof.
  intros [Hok Hne] [Hother He Hr Hs] Hidx Hnode. split.
  - intros m. destruct (decide (m = node)) as [->|Hm].
    + split; [done|]. intros i e Hi. destruct (decide (i = index)) as [->|Hii]; [by apply Hidx|].
      rewrite Hr by (done || by eexists). rewrite He in Hi by done. by apply Hok.
    + destruct (Hother m Hm) as [H1 H2]. unfold entriesOk, waitingEntries, waitingSources.
      rewrite H1, H2. apply Hok.
  - intros m. destruct (decide (m = node)) as [->|Hm]; [done|]. by rewrite (proj1 (Hother m Hm)).
Qed.

(** The rest of the call after the entry has been filled. *)
Definition finish (st : RecreatedStack) (index : nat) (st2 : RecreatedStack) : res RecreatedStack :=
  slots ← waitingMain (waitingExecution st2) node index;
  if bool_decide (Null ∉ slots) then releaseWaitingEntry w node index st2 else
  st ← (if obj_has node (waitingExecution st) then Ok st2
        else forceInputs w runData parentNodeName outputIndex runIndex nodeSuccessData node st2);
  keepWaitingEntry outputIndex nodeSuccessData connectionData n index st.

Lemma finish_spec st st2 st' index slots sources output :
  waitingWf w st → input < n → length slots = n → agrees st st2 node index →
  nodeExecutionStack st2 = nodeExecutionStack st →
  outputAt nodeSuccessData outputIndex = Ok output →
  entryIs st2 node index (arr_set input output slots) (arr_set input sourceSlot sources) →
  finish st index st2 = Ok st' →
  delivered st st' index slots sources output ∧ agrees st st' node index ∧ waitingWf w st'.
Proof.
  intros Hwf Hin Hlen Hag Hstack Hout Hent Hfin. pose proof Hag as [_ _ _ Hs]. unfold finish in Hfin.
  rewrite (waitingMain_entry _ _ _ _ (proj1 Hent)) in Hfin. cbn [mbind res_bind] in Hfin.
  unfold delivered. destruct (bool_decide_reflect (Null ∈ arr_set input output slots)) as [Hnull|Hfull].
  - rewrite bool_decide_false in Hfin by auto. res_simpl.
    match goal with E : (if _ then _ else _) = Ok ?x |- _ => rename x into st3; rename E into Hforce end.
    assert (waitingExecution st3 = waitingExecution st2 ∧
      waitingExecutionSource st3 = waitingExecutionSource st2) as [Hw3 Hs3].
    { destruct (obj_has node (waitingExecution st)); [by simplify_eq/=|].
      by eapply forceInputs_waiting. }
    assert (waitingEntries st3 node = waitingEntries st2 node) as Hwe3 by (unfold waitingEntries; by rewrite Hw3).
    assert (waitingSources st3 node = waitingSources st2 node) as Hws3 by (unfold waitingSources; by rewrite Hs3).
    assert (agrees st2 st3 node index) as Hag3.
    { split; rewrite ?Hwe3, ?Hws3; try done. intros m _. by rewrite Hw3, Hs3. }
    destruct (keepWaitingEntry_spec st3 index (arr_set input output slots) (arr_set input sourceSlot sources)
      output) as (st4 & Hkeep & Hag4 & _ & Hent4); [by rewrite Hwe3|by unfold entryIs; rewrite Hwe3, Hws3|done|].
    rewrite Hkeep in Hfin. simplify_eq/=. rewrite arr_set_twice in Hent4.
    assert (agrees st st' node index) as Hag'.
    { eapply agrees_trans; [exact Hag|]. by eapply agrees_trans. }
    split; [apply Hent4|]. split; [done|]. apply (waitingWf_agrees st st' index); [done|done| |].
    + intros e He. rewrite (proj1 Hent4) in He. injection He as <-. eexists _, _. split; [done|].
      split; [rewrite length_arr_set; lia|]. split; [done|apply Hent4].
    + intros Hnil. destruct Hent4 as [He _]. unfold waitingEntries in He. by rewrite Hnil in He.
  - rewrite bool_decide_true in Hfin by done.
    destruct (getNode w node) as [wn|] eqn:Hnode; cycle 1.
    { unfold releaseWaitingEntry in Hfin. rewrite Hnode in Hfin. by res_simpl. }
    destruct (releaseWaitingEntry_spec st2 index _ _ wn Hs Hent Hnode) as (st3 & Hrel & Hag3 & Hst3 & Hgone & Hne).
    rewrite Hrel in Hfin. simplify_eq/=.
    assert (agrees st st' node index) as Hag' by by eapply agrees_trans.
    split; [|split; [done|]].
    + split; [done|]. exists wn. split; [done|]. rewrite Hst3. simpl. by rewrite Hstack.
    + apply (waitingWf_agrees st st' index); [done|done| |done]. intros e He. congruence.
Qed.

Lemma addNode_finish newRunIndex metadata st output :
  1 < n → entriesOk w st node → outputAt nodeSuccessData outputIndex = Ok output →
  ∃ index slots sources st2, chosen st index slots ∧ length slots = n ∧ agrees st st2 node index ∧
    nodeExecutionStack st2 = nodeExecutionStack st ∧
    entryIs st2 node index (arr_set input output slots) (arr_set input sourceSlot sources) ∧
    addNodeToBeExecuted w runData parentNodeName outputIndex runIndex nodeSuccessData connectionData
      newRunIndex metadata st = finish st index st2.
Proof.
  intros Hn Hok Hout.
  destruct (filled_spec st output Hok Hout) as (index & slots & sources & st1 & st2 & ? & ? & Hch & Hfill & ? & ? & ?).
  exists index, slots, sources, st2. split_and!; try done.
  unfold addNodeToBeExecuted. fold n. rewrite bool_decide_true by done. fold (listed st). rewrite Hch.
  cbn [mbind res_bind]. rewrite Hfill. done.
Qed.
End several.

Lemma addNode_no_output connectionData newRunIndex metadata st st' :
  1 < numberOfInputs w (conn_node connectionData) → entriesOk w st (conn_node connectionData) →
  (∀ output, outputAt nodeSuccessData outputIndex ≠ Ok output) →
  addNodeToBeExecuted w runData parentNodeName outputIndex runIndex nodeSuccessData connectionData
    newRunIndex metadata st ≠ Ok st'.
Proof.
  intros Hn Hok Hout Hadd. unfold addNodeToBeExecuted in Hadd.
  fold (numberOfInputs w (conn_node connectionData)) in Hadd. rewrite bool_decide_true in Hadd by done.
  fold (listed connectionData st) in Hadd.
  destruct (chooseWaitingEntry_spec connectionData (listed connectionData st)) as (index & st1 & ? & ? & Hch & _);
    [by apply (listed_agrees connectionData st 0)|].
  rewrite Hch in Hadd. cbn [mbind res_bind] in Hadd. unfold fillWaitingEntry in Hadd.
  destruct (outputAt nodeSuccessData outputIndex) as [output| |] eqn:E; [|done|done].
  by apply (Hout output).
Qed.

Lemma addNode_several connectionData newRunIndex metadata st st' :
  waitingWf w st → 1 < numberOfInputs w (conn_node connectionData) →
  conn_index connectionData < numberOfInputs w (conn_node connectionData) →
  addNodeToBeExecuted w runData parentNodeName outputIndex runIndex nodeSuccessData connectionData
    newRunIndex metadata st = Ok st' →
  ∃ index slots sources output, outputAt nodeSuccessData outputIndex = Ok output ∧
    chosen connectionData st index slots ∧
    delivered connectionData st st' index slots sources output ∧
    agrees st st' (conn_node connectionData) index ∧ waitingWf w st'.
Proof.
  intros Hwf Hn Hin Hadd.
  destruct (outputAt nodeSuccessData outputIndex) as [output|e|] eqn:Hout.
  - destruct (addNode_finish connectionData newRunIndex metadata st output Hn)
      as (index & slots & sources & st2 & Hch & Hl & Hag & Hst & Hent & Heq); [by apply Hwf|done|].
    rewrite Heq in Hadd. exists index, slots, sources, output. split; [done|]. split; [done|].
    by eapply finish_spec.
  - by destruct (addNode_no_output connectionData newRunIndex metadata st st' Hn); [apply Hwf|rewrite Hout|].
  - by destruct (addNode_no_output connectionData newRunIndex metadata st st' Hn); [apply Hwf|rewrite Hout|].
Qed.

(** *** Version 1 order: no node is forced to run *)

Section v1.
Context (Hv1 : settings_executionOrder w = Some "v1").

(** The inputs of the nodes after the parent can be inspected, and no run stored a
    [null] output. *)
Definition inspectable : Prop :=
  (∃ parentConnections, obj_get parentNodeName (connectionsBySourceNode w) = Some parentConnections ∧
     ∀ c, c ∈ mjoin (default [] <$> default [] (obj_get NodeConnectionTypes.Main parentConnections)) →
       ∃ conns, firstMainInput w (conn_node c) = Ok conns) ∧
  ∀ m r i, runDataAt runData m r i ≠ Null.

Lemma incomingConnectionIsEmpty_total conns r :
  (∀ m r i, runDataAt runData m r i ≠ Null) → ∃ b, incomingConnectionIsEmpty runData conns r = Ok b.
Proof.
  intros Hn. induction conns as [|c conns [b IH]]; simpl; [by eexists|].
  destruct (runDataAt runData (conn_node c) r (conn_index c)) eqn:Hd; [eauto|by apply Hn in Hd|].
  case_bools; eauto.
Qed.

Lemma forceInput_v1 outs st c :
  (∀ m, m ∈ outs → ∃ conns, firstMainInput w m = Ok conns) → (∀ m r i, runDataAt runData m r i ≠ Null) →
  forceInput' outs st c = Ok st.
Proof using Hv1.
  intros Houts Hrun. unfold forceInput. case_bools; [done|].
  assert (isLegacyExecutionOrder w = false) as ->.
  { unfold isLegacyExecutionOrder. rewrite Hv1. by rewrite bool_decide_false by auto. }
  destruct (set_has (conn_node c) outs) eqn:Hs.
  - apply bool_decide_eq_true in Hs. destruct (Houts (conn_node c) Hs) as [conns ->]. cbn [mbind res_bind].
    destruct (incomingConnectionIsEmpty_total conns runIndex Hrun) as [b ->].
    cbn [fmap res_fmap mbind res_bind]. destruct (negb b); [done|]. repeat case_match; done.
  - cbn [mbind res_bind]. repeat case_match; done.
Qed.

Lemma forceInputs_v1 node st :
  inspectable → forceInputs w runData parentNodeName outputIndex runIndex nodeSuccessData node st = Ok st.
Proof using Hv1.
  intros [(pc & Hpc & Hc) Hrun]. unfold forceInputs. rewrite Hpc. cbn [deref mbind res_bind].
  generalize (mjoin (default [] <$> default [] (mainConnections (connectionsByDestinationNode w) node))).
  intros l. induction l as [|c l IH]; cbn [foldM]; [done|].
  rewrite forceInput_v1; [exact IH| |exact Hrun]. intros m (c' & -> & Hin)%list_elem_of_fmap. by apply Hc.
Qed.

Lemma addNode_v1 connectionData newRunIndex metadata st workflowNode output :
  waitingWf w st → inspectable → 1 < numberOfInputs w (conn_node connectionData) →
  conn_index connectionData < numberOfInputs w (conn_node connectionData) →
  getNode w (conn_node connectionData) = Some workflowNode →
  outputAt nodeSuccessData outputIndex = Ok output →
  ∃ st' index slots sources,
    addNodeToBeExecuted w runData parentNodeName outputIndex runIndex nodeSuccessData connectionData
      newRunIndex metadata st = Ok st' ∧
    chosen connectionData st index slots ∧
    delivered connectionData st st' index slots sources output ∧
    (Null ∈ arr_set (conn_index connectionData) output slots →
       nodeExecutionStack st' = nodeExecutionStack st) ∧
    agrees st st' (conn_node connectionData) index ∧ waitingWf w st'.
Proof using Hv1.
  intros Hwf Hins Hn Hin Hnode Hout.
  destruct (addNode_finish connectionData newRunIndex metadata st output Hn)
    as (index & slots & sources & st2 & Hch & Hl & Hag & Hst & Hent & Heq); [by apply Hwf|done|].
  assert (∃ st', finish connectionData st index st2 = Ok st' ∧
    (Null ∈ arr_set (conn_index connectionData) output slots →
       nodeExecutionStack st' = nodeExecutionStack st)) as (st' & Hfin & Hstack).
  { unfold finish. rewrite (waitingMain_entry _ _ _ _ (proj1 Hent)). cbn [mbind res_bind].
    destruct (bool_decide_reflect (Null ∉ arr_set (conn_index connectionData) output slots)) as [Hnn|Hnull].
    - destruct (releaseWaitingEntry_spec connectionData st2 index _ _ workflowNode (ag_sorted _ _ _ _ Hag)
        Hent Hnode) as (st' & Hrel & _). exists st'. split; [done|]. intros ?. done.
    - rewrite forceInputs_v1 by done.
      replace (if obj_has (conn_node connectionData) (waitingExecution st) then Ok st2 else Ok st2)
        with (Ok st2) by by case_match.
      cbn [mbind res_bind].
      destruct (keepWaitingEntry_spec connectionData st2 index _ _ output (ag_sorted _ _ _ _ Hag) Hent Hout)
        as (st' & Hk & _ & Hst' & _). exists st'. split; [done|]. congruence. }
  destruct (finish_spec connectionData st st2 st' index slots sources output) as (Hd & Hag' & Hwf'); try done.
  exists st', index, slots, sources. by rewrite Heq.
Qed.
End v1.
End spec.

Lemma addNode_waitingWf w runData parentNodeName outputIndex runIndex nodeSuccessData
    connectionData newRunIndex metadata st st' :
  waitingWf w st →
  (1 < numberOfInputs w (conn_node connectionData) →
     conn_index connectionData < numberOfInputs w (conn_node connectionData)) →
  addNodeToBeExecuted w runData parentNodeName outputIndex runIndex nodeSuccessData connectionData
    newRunIndex metadata st = Ok st' →
  waitingWf w st'.
Proof.
  intros Hwf Hin Hadd.
  destruct (decide (1 < numberOfInputs w (conn_node connectionData))) as [Hn|Hn].
  - by destruct (addNode_several w runData parentNodeName outputIndex runIndex nodeSuccessData connectionData
      newRunIndex metadata st st' Hwf Hn (Hin Hn) Hadd) as (? & ? & ? & ? & _ & _ & _ & _ & ?).
  - unfold addNodeToBeExecuted in Hadd. fold (numberOfInputs w (conn_node connectionData)) in Hadd.
    rewrite bool_decide_false in Hadd by done. res_simpl. case_match; by simplify_eq/=.
Qed.

Lemma removeEntry_waitingWf w node index st : waitingWf w st → waitingWf w (removeEntry node index st).
Proof.
  intros Hwf. destruct (removeEntry_spec st node index) as (Hag & _ & Hnone & Hne); [apply Hwf|].
  apply (waitingWf_agrees w {| conn_node := node; conn_type := "main"; conn_index := 0 |} st _ index); try done.
  simpl. intros e He. congruence.
Qed.

(** scheduling never leaves the waiting executions in a bad state: every
    waiting entry keeps one slot per input, the record of its sources, and at
    least one input without data; no node is listed without an entry.  This holds
    in both execution orders, for every outcome of the call. *)
Theorem addNodeToBeExecuted_waiting_invariant w runData parentNodeName outputIndex runIndex nodeSuccessData
    connectionData newRunIndex metadata st st' :
  waitingWf w st →
  (1 < numberOfInputs w (conn_node connectionData) →
     conn_index connectionData < numberOfInputs w (conn_node connectionData)) →
  addNodeToBeExecuted w runData parentNodeName outputIndex runIndex nodeSuccessData connectionData
    newRunIndex metadata st = Ok st' →
  waitingWf w st'.
Proof. apply addNode_waitingWf. Qed.

(** A merge node [D] fed by [A] at its first and by [B] at its second input. *)
Definition mergeWorkflow : Workflow :=
  let w := setConnections
    [("A", [("main", [Some [{| conn_node := "D"; conn_type := "main"; conn_index := 0 |}]])]);
     ("B", [("main", [Some [{| conn_node := "D"; conn_type := "main"; conn_index := 1 |}]])])]
    (setNodes [nodeA; nodeB; nodeD] (emptyWorkflow "merge")) in
  {| workflow_id := workflow_id w; workflow_nodes := workflow_nodes w;
     connectionsBySourceNode := connectionsBySourceNode w;
     connectionsByDestinationNode := connectionsByDestinationNode w;
     workflow_pinData := None; settings_executionOrder := Some "v1"; workflow_settings := [] |}.

(** An item with a recognisable value. *)
Definition itemOf (name : string) : INodeExecutionData :=
  {| item_json := [("name", JStr name)]; item_error := None; item_pairedItem := None; item_rest := [] |}.

(** Node [from] produced one item in run [run], for input [input] of [D]. *)
Definition deliver (st : RecreatedStack) (step : string * nat * nat * string) : res RecreatedStack :=
  let '(from, input, run, name) := step in
  addNodeToBeExecuted mergeWorkflow [] from 0 run (Val [Val [itemOf name]])
    {| conn_node := "D"; conn_type := "main"; conn_index := input |} None None st.

Lemma emptyStack_wf w : waitingWf w emptyStack.
Proof.
  split; [|done]. intros node. split; [constructor|done].
Qed.

Lemma addNodeToBeExecuted_waiting_invariant_witness :
  ∃ st', deliver emptyStack ("A", 0, 0, "a1") = Ok st' ∧ waitingWf mergeWorkflow st' ∧
    waitingEntries st' "D" = [(0, [("main", [Val [itemOf "a1"]; Null])])].
Proof.
  eexists. split; [vm_compute; reflexivity|]. split; [|reflexivity].
  apply (addNodeToBeExecuted_waiting_invariant mergeWorkflow [] "A" 0 0 (Val [Val [itemOf "a1"]])
    {| conn_node := "D"; conn_type := "main"; conn_index := 0 |} None None emptyStack);
    [apply emptyStack_wf|vm_compute; lia|vm_compute; reflexivity].
Defined.


Lemma mergeWorkflow_inspectable parent :
  parent = "A" ∨ parent = "B" → inspectable mergeWorkflow [] parent.
Proof.
  intros [->| ->]; (split; [|done]); eexists; (split; [reflexivity|]);
    intros c ->%list_elem_of_singleton; eexists; reflexivity.
Qed.


(** The stack entry of a node with at most one input. *)
Definition singleEntry (parentNodeName : string) (outputIndex runIndex : nat)
    (output : slot (list INodeExecutionData)) (connectionData : IConnection) (newRunIndex : option nat)
    (metadata : option ITaskMetadata) (workflowNode : INode) : IExecuteData :=
  {| exec_data := [(NodeConnectionTypes.Main,
       arr_set (conn_index connectionData) output (nullSlots (S (conn_index connectionData))))];
     exec_metadata := metadata; exec_node := workflowNode;
     exec_source := Some [(NodeConnectionTypes.Main, [Val (sourceData parentNodeName outputIndex runIndex)])];
     exec_runIndex := newRunIndex |}.

Lemma addNodeToBeExecuted_one w runData parentNodeName outputIndex runIndex outputs connectionData
    newRunIndex metadata st workflowNode :
  numberOfInputs w (conn_node connectionData) ≤ 1 →
  getNode w (conn_node connectionData) = Some workflowNode →
  addNodeToBeExecuted w runData parentNodeName outputIndex runIndex (Val outputs) connectionData
      newRunIndex metadata st =
    Ok (enqueue w (singleEntry parentNodeName outputIndex runIndex (arr_get outputIndex outputs)
          connectionData newRunIndex metadata workflowNode) st).
Proof.
  intros Hn Hnode. unfold addNodeToBeExecuted. fold (numberOfInputs w (conn_node connectionData)).
  rewrite bool_decide_false by lia. cbn [outputAt mbind res_bind]. by rewrite Hnode.
Qed.

(** a node with at most one input is put on the stack at once (at the front
    in the version 1 order, at the end in the legacy order), with the items at
    its input and [null] at the inputs before it; nothing else changes. *)
Theorem addNodeToBeExecuted_single w runData parentNodeName outputIndex runIndex outputs connectionData
    newRunIndex metadata st workflowNode :
  numberOfInputs w (conn_node connectionData) ≤ 1 →
  getNode w (conn_node connectionData) = Some workflowNode →
  ∃ slots, addNodeToBeExecuted w runData parentNodeName outputIndex runIndex (Val outputs) connectionData
      newRunIndex metadata st =
    Ok (enqueue w
      {| exec_data := [(NodeConnectionTypes.Main, slots)]; exec_metadata := metadata;
         exec_node := workflowNode;
         exec_source := Some [(NodeConnectionTypes.Main,
           [Val (sourceData parentNodeName outputIndex runIndex)])];
         exec_runIndex := newRunIndex |} st) ∧
    length slots = S (conn_index connectionData) ∧
    arr_get (conn_index connectionData) slots = arr_get outputIndex outputs ∧
    ∀ i, i < conn_index connectionData → arr_get i slots = Null.
Proof.
  intros Hn Hnode. eexists. split; [by apply addNodeToBeExecuted_one|]. split_and!.
  - rewrite length_arr_set. unfold nullSlots. rewrite length_replicate. lia.
  - by rewrite arr_get_set, bool_decide_true.
  - intros i Hi. rewrite arr_get_set, bool_decide_false by lia. unfold arr_get, nullSlots.
    by rewrite lookup_replicate_2 by lia.
Qed.

Lemma addNodeToBeExecuted_single_witness :
  ∃ slots st', addNodeToBeExecuted mergeWorkflow [] "A" 0 0 (Val [Val [itemOf "a1"]])
      {| conn_node := "B"; conn_type := "main"; conn_index := 0 |} None None emptyStack = Ok st' ∧
    length slots = 1 ∧ arr_get 0 slots = Val [itemOf "a1"].
Proof.
  destruct (addNodeToBeExecuted_single mergeWorkflow [] "A" 0 0 [Val [itemOf "a1"]]
    {| conn_node := "B"; conn_type := "main"; conn_index := 0 |} None None emptyStack nodeB)
    as (slots & Hst & Hlen & Hget & _); [vm_compute; lia|reflexivity|].
  exists slots. eexists. split; [exact Hst|]. split; [exact Hlen|exact Hget].
Defined.

(** a new waiting entry can overwrite an existing one.  The index of a new
    entry is the number of entries, which is in use when an entry with a lower
    index has been completed and removed before: after [A] delivered [a1] and
    [a2], and [B] completed the first entry, a third delivery by [A] replaces the
    entry that holds [a2], whose data is then neither waiting nor on the stack. *)
Theorem addNodeToBeExecuted_overwrites_waiting :
  ∃ st1 st2, foldM deliver emptyStack [("A", 0, 0, "a1"); ("A", 0, 1, "a2"); ("B", 1, 0, "b1")] = Ok st1 ∧
    waitingEntries st1 "D" = [(1, [("main", [Val [itemOf "a2"]; Null])])] ∧
    deliver st1 ("A", 0, 2, "a3") = Ok st2 ∧
    waitingEntries st2 "D" = [(1, [("main", [Val [itemOf "a3"]; Null])])] ∧
    (exec_data <$> nodeExecutionStack st2) = [[("main", [Val [itemOf "a1"]; Val [itemOf "b1"]])]].
Proof.
  eexists _, _. split; [vm_compute; reflexivity|]. split; [reflexivity|].
  split; [vm_compute; reflexivity|]. split; reflexivity.
Qed.
