(* ===== verification/Items.v ===== *)
(** * Items on their way through a node

    Model of the functions of [workflow-execute.ts] that prepare the input items
    of a node and complete its output items: disabled nodes, the choice of the
    input data, [executeOnce], paired items, and the separation of failed items
    ([handleNodeErrorOutput]).

    A node output is an array of outputs ([slot]s of item lists); the result of a
    node as a whole can be [undefined], [null] or such an array. *)

From S2P Require Import Prelude JsCollections NodeTypes DirectedGraph Fixtures.
From S2P Require Import RunData SourceGroups ExecutionStack Connections Workflow Waiting.

(** ** Input items *)

(** [data.main], [undefined] if missing *)
Definition mainInputs (inputData : ITaskDataConnections) : option (list (slot (list INodeExecutionData))) :=
  obj_get NodeConnectionTypes.Main inputData.

(** The data of the response to running a disabled node. *)
Definition handleDisabledNode (inputData : ITaskDataConnections) : slot NodeOutputData :=
  match mainInputs inputData with
  | Some (Null :: _) => Undefined
  | Some (input :: _) => Val [input]
  | _ => Undefined
  end.

(** The first input with items; [mainData?.length] is truthy *)
Definition firstNonEmpty (inputs : list (slot (list INodeExecutionData))) : option (list INodeExecutionData) :=
  head (omap (λ s, match s with Val ((_ :: _) as l) => Some l | _ => None end) inputs).

(** [null] if the node has nothing to run on *)
Definition prepareConnectionInputData (w : Workflow) (nodeType : INodeType) (customOperation : bool)
    (inputData : ITaskDataConnections) : option (list INodeExecutionData) :=
  if nt_execute nodeType || customOperation ||
     (negb (nt_poll nodeType) && negb (nt_trigger nodeType) && negb (nt_webhook nodeType)) then
    match mainInputs inputData with
    | None | Some [] => None
    | Some inputs =>
        let forceInputNodeExecution := isLegacyExecutionOrder w in
        let connectionInputData :=
          match (if forceInputNodeExecution then None else firstNonEmpty inputs) with
          | Some l => Val l
          | None => arr_get 0 inputs
          end in
        match connectionInputData with
        | Val ((_ :: _) as l) => Some l
        | _ => None
        end
    end
  else Some [].

(** [input && input.slice(0, 1)] *)
Definition firstItem (input : slot (list INodeExecutionData)) : slot (list INodeExecutionData) :=
  match input with Val l => Val (take 1 l) | other => other end.

Definition handleExecuteOnce (node : INode) (inputData : ITaskDataConnections) : ITaskDataConnections :=
  if bool_decide (node_executeOnce node = Some true)
  then map (λ kv, (kv.1, map firstItem kv.2)) inputData
  else inputData.

(** ** Paired items *)

Definition set_pairedItem (p : pairedItem) (item : INodeExecutionData) : INodeExecutionData :=
  {| item_json := item_json item; item_error := item_error item; item_pairedItem := Some p;
     item_rest := item_rest item |}.

(** [node-execution-context/utils/resolve-source-overwrite.ts] *)
Definition resolveSourceOverwrite (item : INodeExecutionData) (metadata : option ITaskMetadata)
    : option ISourceData :=
  match metadata with
  | Some m =>
      if default false (meta_preserveSourceOverwrite m) then
        match meta_preservedSourceOverwrite m with
        | Some s => Some s
        | None =>
            match item_pairedItem item with
            | Some (PairedOne p) => paired_sourceOverwrite p
            | _ => None
            end
        end
      else None
  | None => None
  end.

(** [inputIndex || undefined] *)
Definition orUndefined (i : nat) : option nat := if bool_decide (i = 0) then None else Some i.

Definition updatePairedItem (metadata : option ITaskMetadata) (inputIndex itemIndex : nat)
    (item : INodeExecutionData) : INodeExecutionData :=
  set_pairedItem
    (PairedOne {| paired_item := itemIndex; paired_input := orUndefined inputIndex;
                  paired_sourceOverwrite := resolveSourceOverwrite item metadata |}) item.

(** Every input is [null] or an array; [undefined] has no [map]. *)
Definition mappable (data : ITaskDataConnections) : bool :=
  forallb (λ kv, forallb (λ input, match input with Undefined => false | _ => true end) kv.2) data.

(** The data a node is run with: every item points to its place in the input. *)
Definition updatePairedItems (metadata : option ITaskMetadata) (data : ITaskDataConnections)
    : ITaskDataConnections :=
  map (λ kv, (kv.1, imap (λ inputIndex input,
    match input with
    | Val items => Val (imap (updatePairedItem metadata inputIndex) items)
    | other => other
    end) kv.2)) data.

(** How a missing [pairedItem] can be completed. *)
Inductive PairingRule := SingleInput | SameNumber | SingleOutput | NoRule.

#[global] Instance PairingRule_eq_dec : EqDecision PairingRule.
Proof. solve_decision. Defined.

Definition slotLength {A} (s : slot (list A)) : option nat :=
  match s with Val l => Some (length l) | _ => None end.

Definition pairingRule (inputs outputs : list (slot (list INodeExecutionData))) : res PairingRule :=
  let inputLength := slotLength (arr_get 0 inputs) in
  let isSingleInputAndOutput := bool_decide (length inputs = 1 ∧ inputLength = Some 1) in
  isSameNumberOfItems ←
    (if bool_decide (length outputs = 1 ∧ length inputs = 1) then
       outputLength ← deref (slotLength (arr_get 0 outputs));
       Ok (bool_decide (inputLength = Some outputLength))
     else Ok false);
  let isSingleOutput :=
    bool_decide (length outputs = 1 ∧ slotLength (arr_get 0 outputs) = Some 1 ∧ length inputs = 1 ∧
      1 < default 0 inputLength) in
  Ok (if isSingleInputAndOutput then SingleInput
      else if isSameNumberOfItems : bool then SameNumber
      else if isSingleOutput then SingleOutput else NoRule).

Definition pairWith (index : nat) : pairedItem :=
  PairedOne {| paired_item := index; paired_input := None; paired_sourceOverwrite := None |}.

(** The items of one output from position [index] on, and whether the loop goes on. *)
Fixpoint pairItems (rule : PairingRule) (index : nat) (items : list INodeExecutionData)
    : list INodeExecutionData * bool :=
  match items with
  | [] => ([], true)
  | item :: rest =>
      let continue (item : INodeExecutionData) :=
        let '(rest, goOn) := pairItems rule (S index) rest in (item :: rest, goOn) in
      match item_pairedItem item with
      | Some _ => continue item
      | None =>
          match rule with
          | SingleInput | SingleOutput => continue (set_pairedItem (pairWith 0) item)
          | SameNumber => continue (set_pairedItem (pairWith index) item)
          | NoRule => (item :: rest, false)
          end
      end
  end.

(** [null] outputs are skipped, [undefined] ones cannot be iterated. *)
Fixpoint pairOutputs (rule : PairingRule) (outputs : list (slot (list INodeExecutionData)))
    : res (list (slot (list INodeExecutionData))) :=
  match outputs with
  | [] => Ok []
  | Null :: rest => rest ← pairOutputs rule rest; Ok (Null :: rest)
  | Undefined :: _ => Throw TypeError
  | Val items :: rest =>
      let '(items, goOn) := pairItems rule 0 items in
      if goOn then rest ← pairOutputs rule rest; Ok (Val items :: rest) else Ok (Val items :: rest)
  end.

Definition assignPairedItems (nodeSuccessData : slot NodeOutputData) (executionData : IExecuteData)
    : res (slot NodeOutputData) :=
  match nodeSuccessData with
  | Val ((_ :: _) as outputs) =>
      inputs ← deref (mainInputs (exec_data executionData));
      rule ← pairingRule inputs outputs;
      outputs ← pairOutputs rule outputs;
      Ok (Val outputs)
  | Val [] => Ok (Val [])
  | Undefined | Null => Ok Null
  end.

(** The item that [alwaysOutputData] adds: paired with all input items. *)
Definition allInputPairs (inputs : list (slot (list INodeExecutionData))) : list IPairedItemData :=
  mjoin (imap (λ inputIndex inputData,
    match inputData with
    | Val items => imap (λ itemIndex _,
        {| paired_item := itemIndex; paired_input := Some inputIndex; paired_sourceOverwrite := None |}) items
    | _ => []
    end) inputs).

(** ** Failed items *)

(** [{ ...a, ...b }] *)
Definition mergeObjects (a b : IDataObject) : IDataObject := foldl (λ o kv, obj_set kv.1 kv.2 o) a b.

Definition set_json (j : IDataObject) (item : INodeExecutionData) : INodeExecutionData :=
  {| item_json := j; item_error := item_error item; item_pairedItem := item_pairedItem item;
     item_rest := item_rest item |}.

Definition truthyProperty (key : string) (o : IDataObject) : bool := from_option truthy false (obj_get key o).

(** An error object, an [error] property alone or with a [message] *)
Definition isErrorItem (item : INodeExecutionData) : bool :=
  bool_decide (is_Some (item_error item)) ||
  (truthyProperty "error" (item_json item) &&
   (bool_decide (length (item_json item) = 1) ||
    (truthyProperty "message" (item_json item) && bool_decide (length (item_json item) = 2)))).

Definition pairedItemData (item : INodeExecutionData) : option IPairedItemData :=
  match item_pairedItem item with
  | Some (PairedOne p) => Some p
  | Some (PairedMany l) => head l
  | _ => None
  end.

(** [NodeHelpers.getNodeOutputs]: [evaluateOutputs] is the evaluation of the
    expression that gives the outputs ([getSimpleParameterValue]); an error there
    leaves the node without outputs.  Only the type of an output is modelled. *)
Definition getNodeOutputs (evaluateOutputs : INode → res (list NodeOutput)) (node : INode)
    (nodeTypeData : INodeType) : list NodeOutput :=
  let outputs :=
    match nt_outputs nodeTypeData with
    | Some outputs => outputs
    | None => match evaluateOutputs node with Ok outputs => outputs | _ => [] end
    end in
  if bool_decide (node_onError node = Some "continueErrorOutput") then
    match outputs with
    | [OutputType type] => [OutputConfiguration type]
    | outputs => outputs
    end ++ [OutputConfiguration NodeConnectionTypes.Main]
  else outputs.

Definition getConnectionTypes (connections : list NodeOutput) : list NodeConnectionType :=
  map (λ connection, match connection with OutputType type | OutputConfiguration type => type end) connections.

Section errorOutput.
Context `{INodeTypes}.
Context (evaluateOutputs : INode → res (list NodeOutput)).
(** [WorkflowDataProxy.$getPairedItem]: the item another item descends from. *)
Context (getPairedItem : string → ISourceData → IPairedItemData → res (option INodeExecutionData)).

(** The item to put on the error output: with the data of its origin. *)
Definition errorItemFor (executionData : IExecuteData) (item : INodeExecutionData) : res INodeExecutionData :=
  match exec_source executionData, pairedItemData item with
  | Some source, Some paired =>
      sources ← deref (obj_get NodeConnectionTypes.Main source);
      match arr_get (default 0 (paired_input paired)) sources with
      | Val sourceData =>
          origin ← getPairedItem (previousNode sourceData) sourceData paired;
          Ok (match origin with
              | None => item
              | Some origin => set_json (mergeObjects (item_json origin) (item_json item)) item
              end)
      | _ => Throw TypeError
      end
  | _, _ => Ok item
  end.

(** The [while] loop over the items of one output. *)
Fixpoint splitItems (executionData : IExecuteData) (items : list INodeExecutionData)
    : res (list INodeExecutionData * list INodeExecutionData) :=
  match items with
  | [] => Ok ([], [])
  | item :: rest =>
      if isErrorItem item then
        errorItem ← errorItemFor executionData item;
        '(success, errors) ← splitItems executionData rest;
        Ok (success, errorItem :: errors)
      else
        '(success, errors) ← splitItems executionData rest;
        Ok (item :: success, errors)
  end.

(** The outputs from [outputIndex] on, as long as [count] outputs remain. *)
Fixpoint splitOutputs (executionData : IExecuteData) (count outputIndex : nat)
    (nodeSuccessData : NodeOutputData) (errorItems : list INodeExecutionData)
    : res (NodeOutputData * list INodeExecutionData) :=
  match count with
  | 0 => Ok (nodeSuccessData, errorItems)
  | S count =>
      let items := match arr_get outputIndex nodeSuccessData with Val l => l | _ => [] end in
      '(success, errors) ← splitItems executionData items;
      splitOutputs executionData count (S outputIndex)
        (arr_set outputIndex (Val success) nodeSuccessData) (errorItems ++ errors)
  end.

(** The main outputs of the node; the last one is the error output. *)
Definition mainOutputTypes (node : INode) (nodeType : INodeType) : list NodeConnectionType :=
  filter (λ output, output = NodeConnectionTypes.Main)
    (getConnectionTypes (getNodeOutputs evaluateOutputs node nodeType)).

(** Assigning to index [-1] sets a property that is not an element. *)
Definition handleNodeErrorOutput (executionData : IExecuteData) (nodeSuccessData : NodeOutputData)
    : res NodeOutputData :=
  nodeType ← deref (nodeTypeOf (exec_node executionData));
  let mainOutputs := length (mainOutputTypes (exec_node executionData) nodeType) in
  '(outputs, errorItems) ←
    splitOutputs executionData (mainOutputs - 1) 0 nodeSuccessData [];
  Ok (if bool_decide (mainOutputs = 0) then outputs
      else arr_set (mainOutputs - 1) (Val errorItems) outputs).
End errorOutput.

(** ** Errors reported in the output *)

(** A JSON value used as an error *)
Definition jsonMessage (e : json) : option json :=
  match e with JObj o => obj_get "message" o | _ => None end.

Definition jsonString (o : option json) : string := match o with Some (JStr s) => s | _ => "" end.

Definition errorOfJson (e : json) : ExecutionError :=
  match e with
  | JObj o => {| err_name := jsonString (obj_get "name" o); err_message := jsonString (obj_get "message" o);
                 err_description := match obj_get "description" o with Some (JStr s) => Some s | _ => None end;
                 err_rest := o |}
  | _ => {| err_name := ""; err_message := ""; err_description := None; err_rest := [] |}
  end.

Definition mergeItemError (lineResult : INodeExecutionData) : res INodeExecutionData :=
  match obj_get "$error" (item_json lineResult), obj_get "$json" (item_json lineResult) with
  | Some JNull, Some _ => Throw TypeError
  | Some e, Some _ =>
      Ok {| item_json := match jsonMessage e with Some m => [("error", m)] | None => [] end;
            item_error := Some (errorOfJson e); item_pairedItem := item_pairedItem lineResult;
            item_rest := item_rest lineResult |}
  | _, _ =>
      Ok (match item_error lineResult with
          | Some e => set_json [("error", JStr (err_message e))] lineResult
          | None => lineResult
          end)
  end.

(** Iterating over [null], [undefined] or a [null] output is a [TypeError]. *)
Definition mergeErrors (nodeSuccessData : slot NodeOutputData) : res NodeOutputData :=
  match nodeSuccessData with
  | Val outputs =>
      mapM_res (λ execution,
        match execution with
        | Val items => Val <$> mapM_res mergeItemError items
        | _ => Throw TypeError
        end) outputs
  | _ => Throw TypeError
  end.

(** ** What happens to failed items *)

Lemma mergeObjects_own (a b : IDataObject) (k : string) (v : json) :
  NoDup b.*1 → obj_get k b = Some v → obj_get k (mergeObjects a b) = Some v.
Proof.
  unfold mergeObjects. induction b as [|[k' v'] b IH] using rev_ind; [done|].
  rewrite foldl_app, fmap_app; simpl. intros (Hb & Hk & _)%NoDup_app Hget.
  unfold obj_get in Hget. rewrite map_get_app in Hget.
  destruct (map_get k b) eqn:E; simpl in Hget.
  - simplify_eq. rewrite obj_get_set_ne; [by apply IH|]. intros ->. apply (Hk k').
    + apply map_get_elem_of in E. apply list_elem_of_fmap. by exists (k', v).
    + set_solver.
  - simpl in Hget. case_bools; simplify_eq. apply obj_get_set_eq.
Qed.

(** An item and its copy on the error output: the copy has all the item's own data. *)
Record errorCopy (item copy : INodeExecutionData) : Prop := {
  copy_error : item_error copy = item_error item;
  copy_pairedItem : item_pairedItem copy = item_pairedItem item;
  copy_rest : item_rest copy = item_rest item;
  copy_json : ∀ k v, obj_get k (item_json item) = Some v → obj_get k (item_json copy) = Some v;
}.

Definition slotItems (s : slot (list INodeExecutionData)) : list INodeExecutionData :=
  match s with Val l => l | _ => [] end.

Definition succeeded (items : list INodeExecutionData) : list INodeExecutionData :=
  filter (λ item, isErrorItem item = false) items.
Definition failed (items : list INodeExecutionData) : list INodeExecutionData :=
  filter (λ item, isErrorItem item = true) items.

Section splitting.
Context (getPairedItem : string → ISourceData → IPairedItemData → res (option INodeExecutionData)).
Context (executionData : IExecuteData).

(** The origin of a failed item can be looked up (or the item has none). *)
Definition traceable (item : INodeExecutionData) : Prop :=
  NoDup (item_json item).*1 ∧ is_ok (errorItemFor getPairedItem executionData item).

Lemma errorItemFor_copy item :
  traceable item →
  ∃ copy, errorItemFor getPairedItem executionData item = Ok copy ∧ errorCopy item copy.
Proof.
  intros (Hnd & copy & Hcopy). exists copy. split; [done|]. unfold errorItemFor in Hcopy.
  destruct (exec_source _) as [source|]; [|by res_simpl].
  destruct (pairedItemData item); [|by res_simpl].
  res_simpl. destruct (arr_get _ _); [done|done|]. res_simpl.
  destruct (getPairedItem _ _ _) as [[origin|]| |]; simplify_eq; [|done].
  split; try done; simpl. intros. by apply mergeObjects_own.
Qed.

Lemma splitItems_spec items :
  Forall traceable (failed items) →
  ∃ errors, splitItems getPairedItem executionData items = Ok (succeeded items, errors) ∧
    Forall2 errorCopy (failed items) errors.
Proof.
  unfold failed, succeeded. induction items as [|item items IH]; simpl; [eauto|].
  rewrite !filter_cons. destruct (isErrorItem item); simpl.
  - intros [Hitem Hitems]%Forall_cons.
    destruct (errorItemFor_copy _ Hitem) as (copy & -> & ?).
    destruct (IH Hitems) as (errors & -> & ?). simpl. eauto.
  - intros Hitems.
    destruct (IH Hitems) as (errors & -> & ?). simpl. eauto.
Qed.

(** The outputs [from], ..., [from + count - 1] *)
Definition itemsOf (outputs : NodeOutputData) (from count : nat) : list INodeExecutionData :=
  mjoin ((λ i, slotItems (arr_get i outputs)) <$> seq from count).

Lemma splitOutputs_spec count from outputs errorItems :
  Forall traceable (failed (itemsOf outputs from count)) →
  ∃ outputs' errors,
    splitOutputs getPairedItem executionData count from outputs errorItems =
      Ok (outputs', errorItems ++ errors) ∧
    Forall2 errorCopy (failed (itemsOf outputs from count)) errors ∧
    ∀ i, arr_get i outputs' =
      if bool_decide (from ≤ i < from + count) then Val (succeeded (slotItems (arr_get i outputs)))
      else arr_get i outputs.
Proof.
  revert from outputs errorItems. induction count as [|count IH]; intros from outputs errorItems; simpl.
  { intros _. exists outputs, []. rewrite app_nil_r. split; [done|]. split; [constructor|].
    intros i. rewrite bool_decide_false by lia. done. }
  unfold itemsOf at 1, failed. simpl. rewrite filter_app. intros [Hfirst Hrest]%Forall_app.
  destruct (splitItems_spec _ Hfirst) as (errors1 & Hsplit & Herrors1).
  fold (slotItems (arr_get from outputs)). rewrite Hsplit; simpl.
  set (outputs1 := arr_set from _ outputs).
  assert (itemsOf outputs1 (S from) count = itemsOf outputs (S from) count) as Hsame.
  { unfold itemsOf. f_equal. apply list_fmap_ext. intros ? i [-> ?]%lookup_seq.
    unfold outputs1. rewrite arr_get_set. by rewrite bool_decide_false by lia. }
  destruct (IH (S from) outputs1 (errorItems ++ errors1)) as (outputs' & errors2 & -> & Herrors2 & Hget).
  { by rewrite Hsame. }
  exists outputs', (errors1 ++ errors2). rewrite app_assoc. split; [done|]. split.
  - unfold itemsOf at 1, failed; simpl. rewrite filter_app.
    apply Forall2_app; [done|]. by rewrite Hsame in Herrors2.
  - intros i. rewrite Hget. unfold outputs1. rewrite arr_get_set.
    case_bools; subst; try lia; done.
Qed.
End splitting.

Section errorOutput_spec.
Context `{INodeTypes}.
Context (evaluateOutputs : INode → res (list NodeOutput)).
Context (getPairedItem : string → ISourceData → IPairedItemData → res (option INodeExecutionData)).

(** A node that continues on its error output has one. *)
Lemma mainOutputTypes_positive node nodeType :
  node_onError node = Some "continueErrorOutput" →
  0 < length (mainOutputTypes evaluateOutputs node nodeType).
Proof.
  intros Hon. unfold mainOutputTypes, getNodeOutputs. rewrite bool_decide_true by done.
  unfold getConnectionTypes. rewrite map_app, filter_app, length_app. simpl. lia.
Qed.

(** On a node that continues on its error output, [handleNodeErrorOutput]
    returns whenever the origins of the failed items can be looked up.  Every
    regular output keeps exactly its successful items, in order; the failed items
    of all regular outputs arrive in order on the error output, each with all its
    own data; outputs beyond the error output are untouched. *)
Theorem handleNodeErrorOutput_partitions (executionData : IExecuteData) (outputs : NodeOutputData)
    (nodeType : INodeType) :
  nodeTypeOf (exec_node executionData) = Some nodeType →
  node_onError (exec_node executionData) = Some "continueErrorOutput" →
  let errorOutput := length (mainOutputTypes evaluateOutputs (exec_node executionData) nodeType) - 1 in
  Forall (traceable getPairedItem executionData) (failed (itemsOf outputs 0 errorOutput)) →
  ∃ outputs' errors,
    handleNodeErrorOutput evaluateOutputs getPairedItem executionData outputs = Ok outputs' ∧
    arr_get errorOutput outputs' = Val errors ∧
    Forall2 errorCopy (failed (itemsOf outputs 0 errorOutput)) errors ∧
    (∀ i, i < errorOutput →
       arr_get i outputs' = Val (succeeded (slotItems (arr_get i outputs)))) ∧
    (∀ i, errorOutput < i → arr_get i outputs' = arr_get i outputs).
Proof.
  intros Htype Hon errorOutput Htrace.
  pose proof (mainOutputTypes_positive (exec_node executionData) nodeType Hon).
  destruct (splitOutputs_spec getPairedItem executionData errorOutput 0 outputs [] Htrace)
    as (outputs1 & errors & Hsplit & Herrors & Hget).
  exists (arr_set errorOutput (Val errors) outputs1), errors.
  unfold handleNodeErrorOutput. rewrite Htype; simpl. fold errorOutput. rewrite Hsplit; simpl.
  rewrite bool_decide_false by lia. split; [done|]. split_and!; [|done|..].
  - rewrite arr_get_set. by rewrite bool_decide_true.
  - intros i Hi. rewrite arr_get_set, Hget. rewrite bool_decide_false, bool_decide_true by lia. done.
  - intros i Hi. rewrite arr_get_set, Hget. by rewrite !bool_decide_false by lia.
Qed.
End errorOutput_spec.

(** ** Completed pairs *)

(** An item after completion: unchanged, or paired with one of [n] input items. *)
Definition completed (n : nat) (item item' : INodeExecutionData) : Prop :=
  item' = item ∨
  (item_pairedItem item = None ∧ ∃ i, i < n ∧ item' = set_pairedItem (pairWith i) item).

Definition isPaired (item : INodeExecutionData) : Prop := is_Some (item_pairedItem item).

(** The rule needs [count] items of this output to point into [n] input items. *)
Definition ruleFits (rule : PairingRule) (n count : nat) : Prop :=
  match rule with
  | SingleInput | SingleOutput => 0 < n
  | SameNumber => count ≤ n
  | NoRule => True
  end.

Lemma pairItems_spec rule n index items :
  ruleFits rule n (index + length items) →
  Forall2 (completed n) items (pairItems rule index items).1 ∧
  (rule ≠ NoRule → (pairItems rule index items).2 = true ∧ Forall isPaired (pairItems rule index items).1) ∧
  (rule = NoRule → (pairItems rule index items).1 = items).
Proof.
  revert index. induction items as [|item items IH]; intros index Hfits; simpl; [done|].
  destruct (IH (S index)) as (H1 & H2 & H3).
  { simpl in *. by replace (S (index + length items)) with (index + S (length items)) by lia. }
  destruct (pairItems rule (S index) items) as [items' goOn]; simpl in *.
  assert (Forall2 (completed n) items items) by (apply Forall_Forall2_diag, Forall_true; by left).
  unfold completed, isPaired in *.
  destruct (item_pairedItem item) as [p|] eqn:E; [|destruct rule]; simpl in *; split_and!;
    try (intros; split; [by apply H2|]; constructor; [|by apply H2]; simpl; eauto; done);
    try (constructor; [|done]; eauto 6 with lia; done); try done.
  - intros ?. f_equal. by apply H3.
  - constructor; [|done]. right. split; [done|]. exists index. split; [lia|done].
Qed.

(** Completion of one output *)
Definition outputCompleted (n : nat) (output output' : slot (list INodeExecutionData)) : Prop :=
  ∃ items items', output = Val items ∧ output' = Val items' ∧ Forall2 (completed n) items items'.

Definition isVal {A} (s : slot A) : Prop := ∃ x, s = Val x.

Lemma outputs_unchanged n outputs : Forall isVal outputs → Forall2 (outputCompleted n) outputs outputs.
Proof.
  intros Hval. apply Forall_Forall2_diag. eapply Forall_impl; [exact Hval|]. intros s [items ->].
  exists items, items. split_and!; try done. apply Forall_Forall2_diag, Forall_true. by left.
Qed.

Lemma pairOutputs_spec rule n outputs :
  Forall isVal outputs →
  Forall (λ s, ruleFits rule n (length (slotItems s))) outputs →
  ∃ outputs', pairOutputs rule outputs = Ok outputs' ∧ Forall2 (outputCompleted n) outputs outputs' ∧
    (rule ≠ NoRule → Forall (λ s, Forall isPaired (slotItems s)) outputs') ∧
    (rule = NoRule → outputs' = outputs).
Proof.
  induction outputs as [|output outputs IH]; simpl; [intros _ _; by exists []|].
  intros [[items ->] Hval]%Forall_cons [Hfit Hfits]%Forall_cons. simpl in Hfit.
  destruct (IH Hval Hfits) as (outputs' & Houtputs & H1 & H2 & H3).
  destruct (pairItems_spec rule n 0 items Hfit) as (I1 & I2 & I3).
  destruct (pairItems rule 0 items) as [items' goOn]; simpl in *.
  assert (outputCompleted n (Val items) (Val items')) by (exists items, items'; done).
  destruct goOn.
  - rewrite Houtputs; simpl. exists (Val items' :: outputs'). split; [done|]. split; [by constructor|].
    split; [intros Hr; constructor; [by apply I2|auto]|intros Hr; by rewrite I3, H3].
  - destruct (decide (rule = NoRule)) as [->|Hr]; [|by destruct (I2 Hr)].
    exists (Val items' :: outputs). split; [done|].
    split; [constructor; [done|by apply outputs_unchanged]|]. split; [done|intros _; by rewrite I3].
Qed.

(** The node ran on one input with [items]; its pairs can be completed. *)
Definition pairable (items : list INodeExecutionData) (outputs : NodeOutputData) : Prop :=
  length items = 1 ∨
  ∃ output, outputs = [Val output] ∧
    (length output = length items ∨ (length output = 1 ∧ 1 < length items)).

#[global] Instance pairable_dec items outputs : Decision (pairable items outputs).
Proof.
  unfold pairable. apply or_dec; [apply _|].
  destruct outputs as [|[| |output] [|]]; try (right; intros (? & ? & _); discriminate).
  destruct (decide (length output = length items ∨ (length output = 1 ∧ 1 < length items))).
  - left. by exists output.
  - right. intros (o & ? & ?). by simplify_eq.
Defined.

Lemma pairingRule_spec inputs outputs :
  Forall isVal outputs →
  ∃ rule, pairingRule inputs outputs = Ok rule ∧
    (rule ≠ NoRule ↔ ∃ items, inputs = [Val items] ∧ pairable items outputs) ∧
    Forall (λ s, ruleFits rule (length (slotItems (arr_get 0 inputs))) (length (slotItems s))) outputs.
Proof.
  intros Hval. unfold pairingRule.
  assert (∀ (P : Prop), (¬ P) → (NoRule ≠ NoRule ↔ P)) as Hno by tauto.
  destruct inputs as [|[| |items] [|]]; simpl;
    destruct outputs as [|output [|]]; try (apply Forall_cons in Hval as [[out ->] Hval]); simpl;
    case_bools; simpl; eexists; (split; [reflexivity|]).
  all: split; [split; [intros Hr|intros (items' & Hin & Hp) ?]|].
  all: try (by destruct Hr; fail).
  all: try (by repeat constructor).
  all: try (destruct_and?; simplify_eq; lia).
  all: destruct_and?; simplify_eq/=.
  all: try (apply Forall_forall; intros ? Hx; try (apply list_elem_of_singleton in Hx as ->); simpl; lia).
  all: try (exists items; split; [done|]; solve [left; lia | right; exists out; split; [done|lia]]).
  all: destruct Hp as [Hp|(out' & ? & Hp)]; simplify_eq; destruct_or?; destruct_and?;
    match goal with H : ¬ _ |- False => solve [apply H; split_and?; first [lia | congruence]] end.
Qed.

Lemma assignPairedItems_spec (executionData : IExecuteData)
    (inputs : list (slot (list INodeExecutionData))) (outputs : NodeOutputData) :
  mainInputs (exec_data executionData) = Some inputs →
  Forall isVal outputs → outputs ≠ [] →
  ∃ outputs', assignPairedItems (Val outputs) executionData = Ok (Val outputs') ∧
    Forall2 (outputCompleted (length (slotItems (arr_get 0 inputs)))) outputs outputs' ∧
    ((∃ items, inputs = [Val items] ∧ pairable items outputs) →
       Forall (λ s, Forall isPaired (slotItems s)) outputs') ∧
    (¬ (∃ items, inputs = [Val items] ∧ pairable items outputs) → outputs' = outputs).
Proof.
  intros Hinputs Hval Hne.
  destruct (pairingRule_spec inputs outputs Hval) as (rule & Hrule & Hiff & Hfits).
  destruct (pairOutputs_spec rule _ outputs Hval Hfits) as (outputs' & Hpair & H1 & H2 & H3).
  exists outputs'. destruct outputs as [|output outputs]; [done|]. unfold assignPairedItems.
  rewrite Hinputs. unfold deref, mbind, res_bind. rewrite Hrule, Hpair.
  split; [done|]. split; [done|]. split; [by intros ?%Hiff; auto|].
  intros Hn. apply H3. destruct (decide (rule = NoRule)); [done|]. by destruct Hn; apply Hiff.
Qed.

(** The pair that completion gives to the [k]-th item of an output, for a node with [n]
    input items: the only input item, or the one at the same position *)
Definition pairedAt (n k : nat) (item : INodeExecutionData) : INodeExecutionData :=
  match item_pairedItem item with
  | None => set_pairedItem (pairWith (if bool_decide (n = 1) then 0 else k)) item
  | Some _ => item
  end.

Lemma pairItems_paired rule n index items :
  match rule with
  | SingleInput => n = 1
  | SameNumber => n ≠ 1
  | SingleOutput => n ≠ 1 ∧ index = 0 ∧ length items ≤ 1
  | NoRule => False
  end → pairItems rule index items = (imap (λ k, pairedAt n (index + k)) items, true).
Proof.
  revert index. induction items as [|item items IH]; intros index Hrule; [done|]. cbn [pairItems imap].
  assert (pairItems rule (S index) items = (imap (λ k, pairedAt n (S index + k)) items, true)) as ->.
  { destruct rule; [by apply IH..| |done]. by destruct items; simpl in *; [|lia]. }
  assert (imap (λ k, pairedAt n (S index + k)) items = imap ((λ k, pairedAt n (index + k)) ∘ S) items) as ->.
  { apply imap_ext. intros k x _. simpl. by rewrite Nat.add_succ_r. }
  assert (∀ x, match rule with SingleInput | SingleOutput => 0 | _ => index end = x →
    x = if bool_decide (n = 1) then 0 else index) as Hx.
  { intros x <-. destruct rule; case_bools; try done; try lia. }
  rewrite Nat.add_0_r.
  assert (pairedAt n index item = match item_pairedItem item with
    | None => set_pairedItem (pairWith (match rule with SingleInput | SingleOutput => 0 | _ => index end)) item
    | Some _ => item end) as -> by (unfold pairedAt; by rewrite <- (Hx _ eq_refl)).
  by destruct (item_pairedItem item), rule.
Qed.

(** With one input, and one output whose items can be paired, completion gives every item
    its pair by position. *)
Lemma assignPairedItems_paired (executionData : IExecuteData) (input items : list INodeExecutionData) :
  mainInputs (exec_data executionData) = Some [Val input] → pairable input [Val items] →
  assignPairedItems (Val [Val items]) executionData = Ok (Val [Val (imap (pairedAt (length input)) items)]).
Proof.
  intros Hin Hp. unfold assignPairedItems. rewrite Hin. cbn [deref mbind res_bind].
  unfold pairingRule. cbn [length arr_get lookup slotLength]. simpl.
  assert (length items = length input ∨ length items = 1 ∧ 1 < length input ∨ length input = 1) as Hp'.
  { destruct Hp as [Hp|(o & [= <-] & Hp)]; tauto. }
  case_bools; destruct_and?; simpl; try (exfalso; simplify_eq; tauto).
  all: (rewrite (pairItems_paired _ (length input)); [done|]).
  all: simplify_eq; try lia; try (intros Hn; rewrite Hn in *; tauto).
  all: destruct Hp' as [Hp'|[[Hp' Hp'']|Hp']]; rewrite ?Hp' in *; tauto.
Qed.

(** If a node ran on one input and returned proper outputs, completing the
    pairs returns; no item changes but for a missing pair, and every pair that is
    added points to an item of the input.  If the node had one input item, or one
    output with as many items as the input, or one output with a single item made
    of several, then afterwards every item has a pair; in all other cases nothing
    changes. *)
Theorem assignPairedItems_completes (executionData : IExecuteData)
    (inputs : list (slot (list INodeExecutionData))) (outputs : NodeOutputData) :
  mainInputs (exec_data executionData) = Some inputs →
  Forall isVal outputs → outputs ≠ [] →
  ∃ outputs', assignPairedItems (Val outputs) executionData = Ok (Val outputs') ∧
    Forall2 (outputCompleted (length (slotItems (arr_get 0 inputs)))) outputs outputs' ∧
    ((∃ items, inputs = [Val items] ∧ pairable items outputs) →
       Forall (λ s, Forall isPaired (slotItems s)) outputs') ∧
    (¬ (∃ items, inputs = [Val items] ∧ pairable items outputs) → outputs' = outputs).
Proof. apply assignPairedItems_spec. Qed.

(** ** Witnesses *)

Definition errorNode : INode :=
  {| node_ref := 7; node_id := "e"; node_name := "E"; node_typeVersion := S754_zero false;
     node_type := "http"; node_position := (S754_zero false, S754_zero false); node_disabled := None;
     node_retryOnFail := None; node_maxTries := None; node_waitBetweenTries := None;
     node_alwaysOutputData := None; node_executeOnce := None;
     node_onError := Some "continueErrorOutput"; node_continueOnFail := None; node_parameters := [];
     node_rewireOutputLogTo := None; node_rest := [] |}.

Definition httpTypes : INodeTypes := λ _ _, Some
  {| nt_name := "http"; nt_group := []; nt_inputs := 1; nt_outputs := Some [OutputType "main"];
     nt_requiredInputs := None; nt_execute := true; nt_poll := false; nt_trigger := false;
     nt_webhook := false; nt_supplyData := false; nt_requestDefaults := false;
     nt_customOperations := None |}.

Definition errorRun : IExecuteData :=
  {| exec_data := [("main", [Val [itemOf "a"; itemOf "b"]])]; exec_metadata := None;
     exec_node := errorNode;
     exec_source := Some [("main", [Val {| previousNode := "A"; previousNodeOutput := None;
                                           previousNodeRun := None |}])];
     exec_runIndex := None |}.

(** [a] went through, [b] failed. *)
Definition failedItem : INodeExecutionData :=
  {| item_json := [("error", JStr "timeout")]; item_error := None;
     item_pairedItem := Some (pairWith 1); item_rest := [] |}.

Lemma handleNodeErrorOutput_partitions_witness :
  ∃ outputs', @handleNodeErrorOutput httpTypes (λ _, Ok []) (λ _ _ _, Ok (Some (itemOf "b"))) errorRun
      [Val [itemOf "a"; failedItem]] = Ok outputs' ∧
    arr_get 0 outputs' = Val [itemOf "a"] ∧
    ∃ copy, arr_get 1 outputs' = Val [copy] ∧ obj_get "error" (item_json copy) = Some (JStr "timeout").
Proof.
  destruct (@handleNodeErrorOutput_partitions httpTypes (λ _, Ok []) (λ _ _ _, Ok (Some (itemOf "b")))
    errorRun [Val [itemOf "a"; failedItem]] _ eq_refl eq_refl) as (outputs' & errors & H1 & H2 & H3 & H4 & _).
  { repeat constructor; [set_solver|]. eexists. vm_compute. reflexivity. }
  exists outputs'. split; [exact H1|]. split; [apply (H4 0); vm_compute; lia|].
  change (failed _) with [failedItem] in H3.
  apply Forall2_cons_inv_l in H3 as (copy & rest & Hcopy & Hrest & ->).
  apply Forall2_nil_inv_l in Hrest as ->.
  exists copy. split; [exact H2|]. by apply (copy_json _ _ Hcopy).
Defined.

Lemma assignPairedItems_completes_witness :
  ∃ outputs', assignPairedItems (Val [Val [itemOf "x"; itemOf "y"]]) errorRun = Ok (Val outputs') ∧
    Forall (λ s, Forall isPaired (slotItems s)) outputs'.
Proof.
  destruct (assignPairedItems_completes errorRun [Val [itemOf "a"; itemOf "b"]]
    [Val [itemOf "x"; itemOf "y"]] eq_refl) as (outputs' & H1 & _ & H2 & _);
    [by repeat econstructor|done|].
  exists outputs'. split; [exact H1|]. apply H2. eexists. split; [reflexivity|].
  right. eexists. split; [reflexivity|]. by left.
Defined.
