(* ===== verification/Requests.v ===== *)
(** * Requests of agents to the engine

    Model of [packages/core/src/execution-engine/requests-response.ts] and of
    [WorkflowExecute.handleEngineRequest]: a node can return a request instead of
    items; the engine then schedules the requested nodes (tools) and the requesting
    node (agent) itself, which is resumed with the results.

    The code writes into the nodes of the workflow ([node.rewireOutputLogTo]) and
    into the run data, so both are part of the state [RequestState]; the entries of
    the execution stack share the node objects of the workflow. *)

From S2P Require Import Prelude JsCollections NodeTypes DirectedGraph Fixtures.
From S2P Require Import RunData SourceGroups ExecutionStack Connections Workflow Trigger Waiting Items.

(** ** State and data *)

Record RequestState := {
  rs_workflow : Workflow;
  rs_stack : RecreatedStack;
  rs_runData : IRunData;
}.

Record NodeToBeExecuted := {
  tbe_inputConnectionData : IConnection;
  tbe_parentOutputIndex : nat;
  tbe_parentNode : string;
  tbe_parentOutputData : slot NodeOutputData;
  tbe_runIndex : nat;
  tbe_nodeRunIndex : nat;
  tbe_metadata : option ITaskMetadata;
}.

(** [node.rewireOutputLogTo = type], in the workflow and on the stack *)
Definition assignInWorkflow (n : INode) (f : INode → INode) (w : Workflow) : Workflow :=
  set_workflow_nodes (map (λ kn, (kn.1, assignIn n f kn.2)) (workflow_nodes w)) w.

Definition assignInEntry (n : INode) (f : INode → INode) (e : IExecuteData) : IExecuteData :=
  {| exec_data := exec_data e; exec_metadata := exec_metadata e; exec_node := assignIn n f (exec_node e);
     exec_source := exec_source e; exec_runIndex := exec_runIndex e |}.

Definition assignInStack (n : INode) (f : INode → INode) (st : RecreatedStack) : RecreatedStack :=
  {| nodeExecutionStack := map (assignInEntry n f) (nodeExecutionStack st);
     waitingExecution := waitingExecution st; waitingExecutionSource := waitingExecutionSource st |}.

(** ** Preparing the requested nodes *)

Definition buildParentOutputData (json : IDataObject) (parentRunIndex parentOutputIndex : nat)
    (parentSourceNode : string) : NodeOutputData :=
  [Val [{| item_json := json; item_error := None;
           item_pairedItem := Some (PairedOne
             {| paired_item := parentRunIndex; paired_input := Some parentOutputIndex;
                paired_sourceOverwrite := Some
                  {| previousNode := parentSourceNode; previousNodeOutput := Some parentOutputIndex;
                     previousNodeRun := Some parentRunIndex |} |});
           item_rest := [] |}]].

(** The entry in the run data that shows the input of the tool call. *)
Definition placeholder (parentNode : string) (parentOutputIndex previousNodeRun : nat)
    (displayOutputData : NodeOutputData) : ITaskData :=
  {| task_startTime := 0; task_executionIndex := Some 0%Z;
     task_source := [Val {| previousNode := parentNode; previousNodeOutput := Some parentOutputIndex;
                            previousNodeRun := Some previousNodeRun |}];
     task_executionTime := 0; task_executionStatus := None; task_data := None;
     task_inputOverride := Some [(NodeConnectionTypes.AiTool, displayOutputData)];
     task_error := None; task_metadata := None; task_rest := [] |}.

(** [actionMetadata?.parentNodeName] in a boolean context *)
Definition hasParentName (action : EngineRequestAction) : bool :=
  match action_parentNodeName action with Some name => negb (bool_decide (name = "")) | None => false end.

Definition initializeNodeRunData (runData : IRunData) (nodeName parentNode : string)
    (parentOutputIndex parentRunIndex : nat) (action : EngineRequestAction) (runIndex : nat)
    (displayOutputData : NodeOutputData) : nat * IRunData :=
  let nodeRunData := default [] (obj_get nodeName runData) in
  (length nodeRunData,
   obj_set nodeName
     (nodeRunData ++ [placeholder parentNode parentOutputIndex
        (if hasParentName action then parentRunIndex else runIndex) displayOutputData]) runData).

Section request.
Context (currentNode : INode) (runIndex : nat) (executionData : IExecuteData).

(** [executionData.source?.main?.[i]]; [None] also if the slot is [null] *)
Definition sourceAt (i : nat) : option ISourceData :=
  source ← exec_source executionData;
  sources ← obj_get NodeConnectionTypes.Main source;
  match arr_get i sources with Val s => Some s | _ => None end.

Definition parentSourceData : option ISourceData := sourceAt runIndex.
Definition defaultParentOutputIndex : nat := default 0 (parentSourceData ≫= previousNodeOutput).
Definition defaultParentSourceNode : string :=
  from_option previousNode (node_name currentNode) parentSourceData.

(** The run of the parent the tool call belongs to.  (The runs of a node that
    ran are not empty, so [length - 1] is not negative.) *)
Definition parentRunIndex (runData : IRunData) (action : EngineRequestAction) : nat :=
  if hasParentName action
  then from_option length 1 (obj_get (default (node_name currentNode) (action_parentNodeName action)) runData) - 1
  else default 0 (parentSourceData ≫= previousNodeRun).

(** [executionData.data.main?.[0]?.[itemIndex]?.json ?? {}] *)
Definition agentInput (action : EngineRequestAction) : IDataObject :=
  from_option item_json []
    (inputs ← mainInputs (exec_data executionData);
     slotItems (arr_get 0 inputs) !! default 0 (action_itemIndex action)).

Definition toolMetadata (parentRunIndex : nat) : ITaskMetadata :=
  {| meta_subNodeExecutionData := None; meta_preserveSourceOverwrite := Some true;
     meta_preservedSourceOverwrite := Some (default
       {| previousNode := defaultParentSourceNode; previousNodeOutput := Some defaultParentOutputIndex;
          previousNodeRun := Some parentRunIndex |}
       (exec_metadata executionData ≫= meta_preservedSourceOverwrite));
     meta_nodeWasResumed := None; meta_rest := [] |}.

(** One action: the tool node is marked, gets a run data entry and is collected. *)
Definition prepareRequestedNode (s : RequestState * list NodeToBeExecuted * list SubNodeExecutionDataAction)
    (action : EngineRequestAction)
    : res (RequestState * list NodeToBeExecuted * list SubNodeExecutionDataAction) :=
  let '(rs, nodesToBeExecuted, actions) := s in
  match getNode (rs_workflow rs) (action_nodeName action) with
  | None => Throw (UnexpectedError
      ("Workflow does not contain a node with the name of '" +:+ action_nodeName action +:+ "'."))
  | Some node =>
      let mark := set_rewireOutputLogTo (action_type action) in
      let parentNode := default (node_name currentNode) (action_parentNodeName action) in
      let parentRun := parentRunIndex (rs_runData rs) action in
      let mergedJson :=
        mergeObjects (mergeObjects (agentInput action) (action_input action))
          [("toolCallId", JStr (action_id action))] in
      let outputData json :=
        buildParentOutputData json parentRun defaultParentOutputIndex defaultParentSourceNode in
      let '(nodeRunIndex, runData) :=
        initializeNodeRunData (rs_runData rs) (node_name node) parentNode defaultParentOutputIndex parentRun
          action runIndex (outputData (action_input action)) in
      Ok ({| rs_workflow := assignInWorkflow node mark (rs_workflow rs);
             rs_stack := assignInStack node mark (rs_stack rs); rs_runData := runData |},
          nodesToBeExecuted ++
            [{| tbe_inputConnectionData := {| conn_node := action_nodeName action;
                  conn_type := action_type action; conn_index := 0 |};
                tbe_parentOutputIndex := 0; tbe_parentNode := parentNode;
                tbe_parentOutputData := Val (outputData mergedJson);
                tbe_runIndex := if hasParentName action then parentRun else runIndex;
                tbe_nodeRunIndex := nodeRunIndex; tbe_metadata := Some (toolMetadata parentRun) |}],
          actions ++
            [{| sub_nodeName := action_nodeName action; sub_runIndex := nodeRunIndex; sub_action := action |}])
  end.

Definition prepareRequestedNodesForExecution (request : EngineRequest) (rs : RequestState)
    : res (RequestState * list NodeToBeExecuted * list SubNodeExecutionDataAction) :=
  foldM prepareRequestedNode (rs, [], []) (request_actions request).

(** [None]: without a source the request is reported and ignored. *)
Definition prepareRequestingNodeForResuming : option (IConnection * string * option ISourceData) :=
  match sourceAt 0 with
  | Some source =>
      if bool_decide (previousNode source = "") then None else
      Some ({| conn_node := node_name (exec_node executionData); conn_type := NodeConnectionTypes.AiTool;
               conn_index := 0 |},
            previousNode source,
            match exec_metadata executionData with
            | Some m =>
                if default false (meta_preserveSourceOverwrite m)
                then meta_preservedSourceOverwrite m else None
            | None => None
            end)
  | None => None
  end.

Definition resumeMetadata (subNodeExecutionData : list SubNodeExecutionDataAction * IDataObject)
    (preserved : option ISourceData) : ITaskMetadata :=
  {| meta_subNodeExecutionData := Some subNodeExecutionData;
     meta_preserveSourceOverwrite := (λ _, true) <$> preserved;
     meta_preservedSourceOverwrite := preserved;
     meta_nodeWasResumed := Some true; meta_rest := [] |}.

(** [executionData.data.main] *)
Definition agentData : slot NodeOutputData :=
  match mainInputs (exec_data executionData) with Some inputs => Val inputs | None => Undefined end.

Definition handleRequest (request : EngineRequest) (rs : RequestState)
    : res (RequestState * list NodeToBeExecuted) :=
  '(rs, nodesToBeExecuted, actions) ← prepareRequestedNodesForExecution request rs;
  match prepareRequestingNodeForResuming with
  | None => Ok (rs, [])
  | Some (connectionData, parentNode, preserved) =>
      Ok (rs,
          {| tbe_inputConnectionData := connectionData; tbe_parentOutputIndex := 0;
             tbe_parentNode := parentNode; tbe_parentOutputData := agentData;
             tbe_runIndex := runIndex; tbe_nodeRunIndex := runIndex;
             tbe_metadata := Some (resumeMetadata (actions, request_metadata request) preserved) |}
          :: nodesToBeExecuted)
  end.

(** [WorkflowExecute.handleEngineRequest] *)
Definition handleEngineRequest (request : EngineRequest) (rs : RequestState) : res RequestState :=
  '(rs, nodesToBeExecuted) ← handleRequest request rs;
  stack ← foldM (λ st nodeData,
      addNodeToBeExecuted (rs_workflow rs) (rs_runData rs) (tbe_parentNode nodeData)
        (tbe_parentOutputIndex nodeData) (tbe_runIndex nodeData) (tbe_parentOutputData nodeData)
        (tbe_inputConnectionData nodeData) (Some (tbe_nodeRunIndex nodeData)) (tbe_metadata nodeData) st)
    (rs_stack rs) nodesToBeExecuted;
  Ok {| rs_workflow := rs_workflow rs; rs_stack := stack; rs_runData := rs_runData rs |}.
End request.

(** ** What a request does *)

Definition runsOf (runData : IRunData) (name : string) : list ITaskData := default [] (obj_get name runData).

Definition stackNames (st : RecreatedStack) : list string :=
  (λ e, node_name (exec_node e)) <$> nodeExecutionStack st.

(** Nodes are stored under their names. *)
Definition nodesNamed (w : Workflow) : Prop := ∀ k n, getNode w k = Some n → node_name n = k.

Lemma assignIn_name n type m : node_name (assignIn n (set_rewireOutputLogTo type) m) = node_name m.
Proof. unfold assignIn. by case_bools. Qed.

Lemma getNode_assign n f w k : getNode (assignInWorkflow n f w) k = assignIn n f <$> getNode w k.
Proof.
  unfold getNode, obj_get. simpl. induction (workflow_nodes w) as [|[k' m] ns IH]; simpl; [done|].
  by case_bools.
Qed.

Lemma stackNames_assign n type st :
  stackNames (assignInStack n (set_rewireOutputLogTo type) st) = stackNames st.
Proof.
  unfold stackNames; simpl. induction (nodeExecutionStack st) as [|e es IH]; csimpl; [done|].
  by rewrite IH, assignIn_name.
Qed.

Section request_spec.
Context (currentNode : INode) (runIndex : nat) (executionData : IExecuteData) (rs : RequestState).

(** The input a tool call shows in the run data. *)
Definition displayed (action : EngineRequestAction) (task : ITaskData) : Prop :=
  ∃ item, task_inputOverride task = Some [(NodeConnectionTypes.AiTool, [Val [item]])] ∧
    item_json item = action_input action.

(** The record of an action: it points to a run data entry of its own. *)
Definition recorded (runData : IRunData) (action : EngineRequestAction) (sub : SubNodeExecutionDataAction)
    : Prop :=
  sub_action sub = action ∧ sub_nodeName sub = action_nodeName action ∧
  length (runsOf (rs_runData rs) (action_nodeName action)) ≤ sub_runIndex sub ∧
  ∃ task, runsOf runData (action_nodeName action) !! sub_runIndex sub = Some task ∧ displayed action task.

(** The tool call that is scheduled for an action. *)
Definition scheduledFor (action : EngineRequestAction) (sub : SubNodeExecutionDataAction)
    (tool : NodeToBeExecuted) : Prop :=
  tbe_inputConnectionData tool =
    {| conn_node := action_nodeName action; conn_type := action_type action; conn_index := 0 |} ∧
  tbe_nodeRunIndex tool = sub_runIndex sub ∧ tbe_parentOutputIndex tool = 0 ∧
  ∃ item, tbe_parentOutputData tool = Val [Val [item]] ∧
    obj_get "toolCallId" (item_json item) = Some (JStr (action_id action)).

(** Only marks on nodes and appended run data *)
Record requestFrame (rs' : RequestState) : Prop := {
  rf_nodes : ∀ k, node_name <$> getNode (rs_workflow rs') k = node_name <$> getNode (rs_workflow rs) k;
  rf_connections : connectionsByDestinationNode (rs_workflow rs') = connectionsByDestinationNode (rs_workflow rs);
  rf_order : settings_executionOrder (rs_workflow rs') = settings_executionOrder (rs_workflow rs);
  rf_stack : stackNames (rs_stack rs') = stackNames (rs_stack rs);
  rf_waiting : waitingExecution (rs_stack rs') = waitingExecution (rs_stack rs) ∧
    waitingExecutionSource (rs_stack rs') = waitingExecutionSource (rs_stack rs);
  rf_runs : ∀ name, runsOf (rs_runData rs) name `prefix_of` runsOf (rs_runData rs') name;
}.

Record prepared (actions : list EngineRequestAction)
    (s : RequestState * list NodeToBeExecuted * list SubNodeExecutionDataAction) : Prop := {
  pr_frame : requestFrame s.1.1;
  pr_recorded : Forall2 (recorded (rs_runData s.1.1)) actions s.2;
  pr_scheduled : Forall3 scheduledFor actions s.2 s.1.2;
  pr_distinct : NoDup ((λ sub, (sub_nodeName sub, sub_runIndex sub)) <$> s.2);
}.

Lemma runsOf_set name runs runData k :
  runsOf (obj_set name runs runData) k = if bool_decide (k = name) then runs else runsOf runData k.
Proof. unfold runsOf. rewrite obj_get_set. by case_bools. Qed.

Lemma recorded_grows runData runData' action sub :
  (∀ name, runsOf runData name `prefix_of` runsOf runData' name) →
  recorded runData action sub → recorded runData' action sub.
Proof.
  intros Hpre (H1 & H2 & H3 & task & H4 & H5). split_and!; [done..|].
  exists task. split; [|done]. by eapply prefix_lookup_Some.
Qed.

Lemma prepareRequestedNode_spec actions s action :
  nodesNamed (rs_workflow rs) → is_Some (getNode (rs_workflow rs) (action_nodeName action)) →
  prepared actions s →
  ∃ s', prepareRequestedNode currentNode runIndex executionData s action = Ok s' ∧
    prepared (actions ++ [action]) s'.
Proof.
  intros Hnamed [n Hn] [Hframe Hrec Hsched Hnd]. destruct s as [[rs1 tools] subs]; simpl in *.
  assert (∃ node, getNode (rs_workflow rs1) (action_nodeName action) = Some node ∧
    node_name node = action_nodeName action) as (node & Hnode & Hname).
  { pose proof (rf_nodes _ Hframe (action_nodeName action)) as Hk. rewrite Hn in Hk.
    destruct (getNode (rs_workflow rs1) _) as [node|]; simplify_eq/=.
    exists node. split; [done|]. rewrite Hk. by apply Hnamed. }
  unfold prepareRequestedNode. rewrite Hnode; simpl. eexists. split; [reflexivity|].
  set (runs := runsOf (rs_runData rs1) (node_name node)).
  match goal with |- context [obj_set (node_name node) (_ ++ [?t]) _] => set (task := t) end.
  fold (runsOf (rs_runData rs1) (node_name node)). fold runs.
  assert (∀ name, runsOf (rs_runData rs1) name `prefix_of`
    runsOf (obj_set (node_name node) (runs ++ [task]) (rs_runData rs1)) name) as Hgrow.
  { intros name. rewrite runsOf_set. case_bools; subst; [by apply prefix_app_r|done]. }
  assert (recorded (obj_set (node_name node) (runs ++ [task]) (rs_runData rs1)) action
    {| sub_nodeName := action_nodeName action; sub_runIndex := length runs; sub_action := action |}) as Hnew.
  { split_and!; [done..| |]; simpl.
    - rewrite <- Hname. apply prefix_length, (rf_runs _ Hframe).
    - exists task. rewrite runsOf_set, bool_decide_true by done.
      split; [by rewrite list_lookup_middle|]. eexists. split; reflexivity. }
  split; simpl.
  - destruct Hframe as [F1 F2 F3 F4 F5 F6]. split; simpl; try done.
    + intros k. rewrite getNode_assign, <- F1.
      destruct (getNode (rs_workflow rs1) k); simpl; [by rewrite assignIn_name|done].
    + by rewrite stackNames_assign.
    + intros name. etrans; [apply F6|apply Hgrow].
  - apply Forall2_app; [|by constructor].
    eapply Forall2_impl; [exact Hrec|]. intros; by eapply recorded_grows.
  - apply Forall3_app; [done|]. constructor; [|constructor].
    split_and!; [done..|]. eexists. split; [reflexivity|]. simpl. apply obj_get_set_eq.
  - rewrite fmap_app. apply NoDup_snoc; [done|]. simpl. intros Hin.
    apply list_elem_of_fmap in Hin as (sub & Heq & Hsub). injection Heq as Heq1 Heq2.
    apply list_elem_of_lookup in Hsub as [i Hi].
    destruct (Forall2_lookup_r _ _ _ _ _ Hrec Hi) as (a & _ & _ & Ha & _ & t & Ht & _).
    apply lookup_lt_Some in Ht. rewrite <- Ha, <- Heq1, <- Hname in Ht. fold runs in Ht. lia.
Qed.

Context (Hnamed : nodesNamed (rs_workflow rs)).

Lemma prepareRequestedNodes_spec request :
  (∀ action, action ∈ request_actions request → is_Some (getNode (rs_workflow rs) (action_nodeName action))) →
  ∃ s, prepareRequestedNodesForExecution currentNode runIndex executionData request rs = Ok s ∧
    prepared (request_actions request) s.
Proof.
  intros Hknown. unfold prepareRequestedNodesForExecution.
  apply foldM_total.
  - split; simpl; [by split|constructor|constructor|constructor].
  - intros pre action s Hs Hin. apply prepareRequestedNode_spec; auto.
Qed.

Lemma handleRequest_spec request source :
  (∀ action, action ∈ request_actions request → is_Some (getNode (rs_workflow rs) (action_nodeName action))) →
  sourceAt executionData 0 = Some source → previousNode source ≠ "" →
  ∃ rs' agent tools subs,
    handleRequest currentNode runIndex executionData request rs = Ok (rs', agent :: tools) ∧
    prepared (request_actions request) (rs', tools, subs) ∧
    tbe_inputConnectionData agent = {| conn_node := node_name (exec_node executionData);
      conn_type := NodeConnectionTypes.AiTool; conn_index := 0 |} ∧
    tbe_nodeRunIndex agent = runIndex ∧ tbe_parentOutputIndex agent = 0 ∧
    tbe_parentOutputData agent = agentData executionData ∧
    (tbe_metadata agent ≫= meta_subNodeExecutionData) = Some (subs, request_metadata request).
Proof.
  intros Hknown Hsource Hne. destruct (prepareRequestedNodes_spec request Hknown) as (s & Hs & Hprep).
  destruct s as [[rs' tools] subs]. unfold handleRequest. rewrite Hs; simpl.
  unfold prepareRequestingNodeForResuming. rewrite Hsource, bool_decide_false by done; simpl.
  eexists rs', _, tools, subs. split; [reflexivity|]. split; [done|]. by split_and!.
Qed.
End request_spec.

(** a request of a node that has a source, for nodes of the workflow, is
    accepted.  For each action, in order, one tool call is scheduled; it has a run
    data entry of its own, which shows the input of the call, is new and shared
    with no other action; the existing run data is kept.  The requesting node is
    scheduled too, at its own run index, with the list of these entries. *)
Theorem handleRequest_records (currentNode : INode) (runIndex : nat) (executionData : IExecuteData)
    (request : EngineRequest) (rs : RequestState) (source : ISourceData) :
  nodesNamed (rs_workflow rs) →
  (∀ action, action ∈ request_actions request → is_Some (getNode (rs_workflow rs) (action_nodeName action))) →
  sourceAt executionData 0 = Some source → previousNode source ≠ "" →
  ∃ rs' agent tools subs,
    handleRequest currentNode runIndex executionData request rs = Ok (rs', agent :: tools) ∧
    tbe_nodeRunIndex agent = runIndex ∧
    (tbe_metadata agent ≫= meta_subNodeExecutionData) = Some (subs, request_metadata request) ∧
    Forall3 scheduledFor (request_actions request) subs tools ∧
    Forall2 (recorded rs (rs_runData rs')) (request_actions request) subs ∧
    NoDup ((λ sub, (sub_nodeName sub, sub_runIndex sub)) <$> subs) ∧
    ∀ name, runsOf (rs_runData rs) name `prefix_of` runsOf (rs_runData rs') name.
Proof.
  intros Hnamed Hknown Hsource Hne.
  destruct (handleRequest_spec currentNode runIndex executionData rs Hnamed request source Hknown Hsource Hne)
    as (rs' & agent & tools & subs & Hok & [Hframe ? ? ?] & _ & ? & _ & _ & ?).
  exists rs', agent, tools, subs. split_and!; try done. apply (rf_runs _ _ Hframe).
Qed.

(** ** The order of the scheduled nodes *)

Lemma stackNames_enqueue w e st :
  stackNames (enqueue w e st) =
    if bool_decide (settings_executionOrder w = Some "v1")
    then node_name (exec_node e) :: stackNames st else stackNames st ++ [node_name (exec_node e)].
Proof. unfold stackNames, enqueue; simpl. case_bools; csimpl; [done|]. by rewrite fmap_app. Qed.

Definition scheduleNode (w : Workflow) (runData : IRunData) (st : RecreatedStack) (nodeData : NodeToBeExecuted)
    : res RecreatedStack :=
  addNodeToBeExecuted w runData (tbe_parentNode nodeData) (tbe_parentOutputIndex nodeData)
    (tbe_runIndex nodeData) (tbe_parentOutputData nodeData) (tbe_inputConnectionData nodeData)
    (Some (tbe_nodeRunIndex nodeData)) (tbe_metadata nodeData) st.

(** The node exists, has at most one input, and there is data for it. *)
Definition schedulable (w : Workflow) (nodeData : NodeToBeExecuted) : Prop :=
  numberOfInputs w (conn_node (tbe_inputConnectionData nodeData)) ≤ 1 ∧
  node_name <$> getNode w (conn_node (tbe_inputConnectionData nodeData)) =
    Some (conn_node (tbe_inputConnectionData nodeData)) ∧
  ∃ outputs, tbe_parentOutputData nodeData = Val outputs.

Lemma scheduleNodes_order w runData l st :
  Forall (schedulable w) l →
  ∃ st', foldM (scheduleNode w runData) st l = Ok st' ∧
    stackNames st' =
      let names := (λ d, conn_node (tbe_inputConnectionData d)) <$> l in
      if bool_decide (settings_executionOrder w = Some "v1")
      then reverse names ++ stackNames st else stackNames st ++ names.
Proof.
  revert st. induction l as [|d l IH]; intros st; cbn [foldM].
  { intros _. exists st. simpl. case_bools; [done|]. by rewrite app_nil_r. }
  intros [(Hn & Hnode & outputs & Hout) Hl]%Forall_cons. apply fmap_Some in Hnode as (node & Hnode & Hname).
  assert (scheduleNode w runData st d = Ok (enqueue w (singleEntry (tbe_parentNode d)
    (tbe_parentOutputIndex d) (tbe_runIndex d) (arr_get (tbe_parentOutputIndex d) outputs)
    (tbe_inputConnectionData d) (Some (tbe_nodeRunIndex d)) (tbe_metadata d) node) st)) as ->.
  { unfold scheduleNode. rewrite Hout. by apply addNodeToBeExecuted_one. }
  cbn [mbind res_bind]. edestruct IH as (st' & Hst' & Hnames); [done|]. exists st'.
  split; [exact Hst'|]. rewrite Hnames, stackNames_enqueue. simpl. rewrite <- Hname.
  case_bools; csimpl; rewrite ?reverse_cons, <- ?app_assoc; done.
Qed.

(** when the requested tools and the requesting node have at most one main
    input, the request is carried out.  In the version 1 order the tools come next,
    the last action first, and then the requesting node, so that it resumes after
    all of them; in the legacy order everything is appended with the requesting
    node before its tools, so that it resumes without their results. *)
Theorem handleEngineRequest_order (currentNode : INode) (runIndex : nat) (executionData : IExecuteData)
    (request : EngineRequest) (rs : RequestState) (source : ISourceData) :
  let w := rs_workflow rs in
  let tools := action_nodeName <$> request_actions request in
  let agent := node_name (exec_node executionData) in
  nodesNamed w →
  Forall (λ name, is_Some (getNode w name) ∧ numberOfInputs w name ≤ 1) (agent :: tools) →
  sourceAt executionData 0 = Some source → previousNode source ≠ "" →
  is_Some (mainInputs (exec_data executionData)) →
  ∃ rs', handleEngineRequest currentNode runIndex executionData request rs = Ok rs' ∧
    stackNames (rs_stack rs') =
      if isLegacyExecutionOrder w then stackNames (rs_stack rs) ++ agent :: tools
      else reverse tools ++ agent :: stackNames (rs_stack rs).
Proof.
  intros w tools agent Hnamed [Hagent Htools]%Forall_cons Hsource Hne [inputs Hin].
  destruct (handleRequest_spec currentNode runIndex executionData rs Hnamed request source)
    as (rs1 & agentData & toolData & subs & Hok & [Hframe Hrec Hsched _] & Hconn & _ & _ & Hdata & _); [|done..|].
  { intros action Ha. rewrite Forall_forall in Htools. apply (Htools (action_nodeName action)).
    by apply list_elem_of_fmap_2. }
  simpl in *. destruct Hframe as [F1 F2 F3 F4 _ _].
  assert ((λ d, conn_node (tbe_inputConnectionData d)) <$> toolData = tools) as Hnames.
  { unfold tools. clear -Hsched. induction Hsched as [|?????? (Hc & _) ? IH]; csimpl; [done|].
    by rewrite Hc, IH. }
  assert (∀ d, is_Some (getNode w (conn_node (tbe_inputConnectionData d))) ∧
      numberOfInputs w (conn_node (tbe_inputConnectionData d)) ≤ 1 →
    (∃ outputs, tbe_parentOutputData d = Val outputs) → schedulable (rs_workflow rs1) d) as Hs.
  { intros d [[n Hn] Hle] Hout. split_and!; [unfold numberOfInputs in *; by rewrite F2| |done].
    rewrite F1. fold w. rewrite Hn. simpl. f_equal. by apply Hnamed. }
  destruct (scheduleNodes_order (rs_workflow rs1) (rs_runData rs1) (agentData :: toolData) (rs_stack rs1))
    as (st' & Hst' & Hstack).
  { constructor.
    - apply Hs; [by rewrite Hconn|]. rewrite Hdata. unfold Requests.agentData. rewrite Hin. eauto.
    - rewrite <- Hnames, Forall_fmap in Htools. clear Hok Hrec Hnames.
      induction Hsched as [|a sub d ??? (Ha & _ & _ & item & Hout & _) ? IH]; [constructor|].
      apply Forall_cons in Htools as [? ?]. constructor; [apply Hs; eauto|auto]. }
  unfold handleEngineRequest. rewrite Hok; cbn [mbind res_bind]. unfold scheduleNode in Hst'. rewrite Hst'.
  eexists. split; [reflexivity|]. simpl. rewrite Hstack, F3, F4. csimpl. rewrite Hconn, Hnames. simpl.
  unfold isLegacyExecutionOrder. fold w. destruct (decide (settings_executionOrder w = Some "v1")) as [E|E].
  - rewrite bool_decide_true, bool_decide_false by (done || auto).
    by rewrite reverse_cons, <- app_assoc.
  - by rewrite bool_decide_false, bool_decide_true by done.
Qed.

(** ** Witnesses *)

(** The agent [B] with the tool [T], after the trigger [A]. *)
Definition agentWorkflow : Workflow :=
  let w := setConnections
    [("A", [("main", [Some [{| conn_node := "B"; conn_type := "main"; conn_index := 0 |}]])]);
     ("T", [("ai_tool", [Some [{| conn_node := "B"; conn_type := "ai_tool"; conn_index := 0 |}]])])]
    (setNodes [nodeA; nodeB; nodeT] (emptyWorkflow "agent")) in
  {| workflow_id := workflow_id w; workflow_nodes := workflow_nodes w;
     connectionsBySourceNode := connectionsBySourceNode w;
     connectionsByDestinationNode := connectionsByDestinationNode w;
     workflow_pinData := None; settings_executionOrder := Some "v1"; workflow_settings := [] |}.

Definition toolCall (id question : string) : EngineRequestAction :=
  {| action_nodeName := "T"; action_type := "ai_tool"; action_id := id;
     action_input := [("question", JStr question)]; action_parentNodeName := None;
     action_itemIndex := None |}.

Definition toolRequest : EngineRequest :=
  {| request_actions := [toolCall "1" "weather"; toolCall "2" "time"]; request_metadata := [] |}.

Definition agentEntry : IExecuteData :=
  {| exec_data := [("main", [Val [itemOf "a"]])]; exec_metadata := None; exec_node := nodeB;
     exec_source := Some [("main", [Val {| previousNode := "A"; previousNodeOutput := Some 0;
                                           previousNodeRun := Some 0 |}])];
     exec_runIndex := None |}.

Definition agentState : RequestState :=
  {| rs_workflow := agentWorkflow; rs_stack := emptyStack; rs_runData := [] |}.

Lemma agentWorkflow_named : nodesNamed agentWorkflow.
Proof.
  intros k n Hn. apply map_get_elem_of in Hn.
  assert (Forall (λ kn, node_name kn.2 = kn.1) (workflow_nodes agentWorkflow)) as Hall by by_eval.
  rewrite Forall_forall in Hall. apply (Hall _ Hn).
Qed.

Lemma handleRequest_records_witness :
  ∃ rs' agent tools subs,
    handleRequest nodeB 0 agentEntry toolRequest agentState = Ok (rs', agent :: tools) ∧
    NoDup ((λ sub, (sub_nodeName sub, sub_runIndex sub)) <$> subs) ∧ length subs = 2.
Proof.
  destruct (handleRequest_records nodeB 0 agentEntry toolRequest agentState
    {| previousNode := "A"; previousNodeOutput := Some 0; previousNodeRun := Some 0 |})
    as (rs' & agent & tools & subs & H1 & _ & _ & _ & H2 & H3 & _).
  - apply agentWorkflow_named.
  - intros action [->|[->|[]%not_elem_of_nil]%elem_of_cons]%elem_of_cons; by eexists.
  - reflexivity.
  - discriminate.
  - exists rs', agent, tools, subs. split; [exact H1|]. split; [exact H3|].
    by rewrite <- (Forall2_length _ _ _ H2).
Defined.

Lemma handleEngineRequest_order_witness :
  ∃ rs', handleEngineRequest nodeB 0 agentEntry toolRequest agentState = Ok rs' ∧
    stackNames (rs_stack rs') = ["T"; "T"; "B"].
Proof.
  destruct (handleEngineRequest_order nodeB 0 agentEntry toolRequest agentState
    {| previousNode := "A"; previousNodeOutput := Some 0; previousNodeRun := Some 0 |})
    as (rs' & H1 & H2).
  - apply agentWorkflow_named.
  - repeat constructor; first [by eexists | vm_compute; lia].
  - reflexivity.
  - discriminate.
  - by eexists.
  - exists rs'. split; [exact H1|exact H2].
Defined.

(** A request of a node without a source is ignored, but the run data already
    holds the entries of its tool calls, and the tool is already marked. *)
Theorem handleRequest_ignored_leaves_entries :
  ∃ rs', handleRequest nodeB 0
      {| exec_data := [("main", [Val [itemOf "a"]])]; exec_metadata := None; exec_node := nodeB;
         exec_source := None; exec_runIndex := None |} toolRequest agentState = Ok (rs', []) ∧
    length (runsOf (rs_runData rs') "T") = 2 ∧
    (getNode (rs_workflow rs') "T" ≫= node_rewireOutputLogTo) = Some "ai_tool".
Proof. eexists. split; [vm_compute; reflexivity|]. split; reflexivity. Qed.

(** The source of a tool call is looked up with the run index in an array that is
    indexed by inputs: in its second run the agent itself is taken for its source. *)
Theorem handleRequest_source_by_run :
  defaultParentSourceNode nodeB 0 agentEntry = "A" ∧ defaultParentSourceNode nodeB 1 agentEntry = "B".
Proof. split; reflexivity. Qed.
