(* ===== verification/EngineState.v ===== *)
(** * The state of an execution

    Model of the state that the class [WorkflowExecute] of [workflow-execute.ts]
    works on: the data of the run ([run-execution-data-factory.ts]), the status, the
    counters, and the local variables of [processRunExecutionData] that live longer
    than one iteration of its loop; and of the methods that start an execution: [run]
    and [runPartialWorkflow2].

    The code of nodes, the clock and the hooks are outside: calls and clock readings
    are counted, and the hooks that were run are recorded in the state. *)

From S2P Require Import Prelude JsCollections NodeTypes DirectedGraph Fixtures NodeRemoval RunData.
From S2P Require Import StartNodes Components SourceGroups ExecutionStack Connections Subgraph.
From S2P Require Import GraphExport Workflow Trigger Waiting Items Requests.

(** ** Data *)

Inductive ExecutionStatus :=
  | Canceled | Crashed | Error | New | Running | Success | Unknown | Waiting.

#[global] Instance ExecutionStatus_eq_dec : EqDecision ExecutionStatus.
Proof. solve_decision. Defined.

Definition isTerminalExecutionStatus (status : option ExecutionStatus) : bool :=
  bool_decide (status = Some Canceled ∨ status = Some Crashed ∨ status = Some Error ∨ status = Some Success).

Inductive DestinationMode := Inclusive | Exclusive.

#[global] Instance DestinationMode_eq_dec : EqDecision DestinationMode.
Proof. solve_decision. Defined.

Record IDestinationNode := {
  dest_nodeName : string;
  dest_mode : DestinationMode;
}.

Record IStartData := {
  sd_destinationNode : option IDestinationNode;
  sd_originalDestinationNode : option IDestinationNode;
  sd_runNodeFilter : option (list string);
}.

(** The hooks of [ExecutionLifecycleHooks] the engine runs for a node. *)
Inductive HookCall :=
  | nodeExecuteBefore (nodeName : string)
  | nodeExecuteAfter (nodeName : string) (data : ITaskData)
  | sendChunk (nodeName : string) (content : option string).

Record EngineState := {
  es_workflow : Workflow;
  es_stack : RecreatedStack;
  es_runData : IRunData;
  es_pinData : option IPinData;
  es_lastNodeExecuted : option string;
  es_resultError : option ExecutionError;
  es_metadata : jsobj (list ITaskMetadata);
  es_waitTill : option Z;
  es_status : ExecutionStatus;
  es_timedOut : bool;
  es_executionIndex : Z;
  es_lastExecutionTry : string;
  es_executionError : option ExecutionError;
  es_calls : nat;
  es_ticks : nat;
  es_hooks : list HookCall;
}.

Definition set_workflow (x : Workflow) (s : EngineState) : EngineState :=
  Build_EngineState x (es_stack s) (es_runData s) (es_pinData s) (es_lastNodeExecuted s)
    (es_resultError s) (es_metadata s) (es_waitTill s) (es_status s) (es_timedOut s)
    (es_executionIndex s) (es_lastExecutionTry s) (es_executionError s) (es_calls s) (es_ticks s)
    (es_hooks s).
Definition set_stack (x : RecreatedStack) (s : EngineState) : EngineState :=
  Build_EngineState (es_workflow s) x (es_runData s) (es_pinData s) (es_lastNodeExecuted s)
    (es_resultError s) (es_metadata s) (es_waitTill s) (es_status s) (es_timedOut s)
    (es_executionIndex s) (es_lastExecutionTry s) (es_executionError s) (es_calls s) (es_ticks s)
    (es_hooks s).
Definition set_runData (x : IRunData) (s : EngineState) : EngineState :=
  Build_EngineState (es_workflow s) (es_stack s) x (es_pinData s) (es_lastNodeExecuted s)
    (es_resultError s) (es_metadata s) (es_waitTill s) (es_status s) (es_timedOut s)
    (es_executionIndex s) (es_lastExecutionTry s) (es_executionError s) (es_calls s) (es_ticks s)
    (es_hooks s).
Definition set_pinData (x : option IPinData) (s : EngineState) : EngineState :=
  Build_EngineState (es_workflow s) (es_stack s) (es_runData s) x (es_lastNodeExecuted s)
    (es_resultError s) (es_metadata s) (es_waitTill s) (es_status s) (es_timedOut s)
    (es_executionIndex s) (es_lastExecutionTry s) (es_executionError s) (es_calls s) (es_ticks s)
    (es_hooks s).
Definition set_lastNodeExecuted (x : option string) (s : EngineState) : EngineState :=
  Build_EngineState (es_workflow s) (es_stack s) (es_runData s) (es_pinData s) x (es_resultError s)
    (es_metadata s) (es_waitTill s) (es_status s) (es_timedOut s) (es_executionIndex s)
    (es_lastExecutionTry s) (es_executionError s) (es_calls s) (es_ticks s) (es_hooks s).
Definition set_resultError (x : option ExecutionError) (s : EngineState) : EngineState :=
  Build_EngineState (es_workflow s) (es_stack s) (es_runData s) (es_pinData s) (es_lastNodeExecuted s) x
    (es_metadata s) (es_waitTill s) (es_status s) (es_timedOut s) (es_executionIndex s)
    (es_lastExecutionTry s) (es_executionError s) (es_calls s) (es_ticks s) (es_hooks s).
Definition set_metadata (x : jsobj (list ITaskMetadata)) (s : EngineState) : EngineState :=
  Build_EngineState (es_workflow s) (es_stack s) (es_runData s) (es_pinData s) (es_lastNodeExecuted s)
    (es_resultError s) x (es_waitTill s) (es_status s) (es_timedOut s) (es_executionIndex s)
    (es_lastExecutionTry s) (es_executionError s) (es_calls s) (es_ticks s) (es_hooks s).
Definition set_waitTill (x : option Z) (s : EngineState) : EngineState :=
  Build_EngineState (es_workflow s) (es_stack s) (es_runData s) (es_pinData s) (es_lastNodeExecuted s)
    (es_resultError s) (es_metadata s) x (es_status s) (es_timedOut s) (es_executionIndex s)
    (es_lastExecutionTry s) (es_executionError s) (es_calls s) (es_ticks s) (es_hooks s).
Definition set_status (x : ExecutionStatus) (s : EngineState) : EngineState :=
  Build_EngineState (es_workflow s) (es_stack s) (es_runData s) (es_pinData s) (es_lastNodeExecuted s)
    (es_resultError s) (es_metadata s) (es_waitTill s) x (es_timedOut s) (es_executionIndex s)
    (es_lastExecutionTry s) (es_executionError s) (es_calls s) (es_ticks s) (es_hooks s).
Definition set_timedOut (x : bool) (s : EngineState) : EngineState :=
  Build_EngineState (es_workflow s) (es_stack s) (es_runData s) (es_pinData s) (es_lastNodeExecuted s)
    (es_resultError s) (es_metadata s) (es_waitTill s) (es_status s) x (es_executionIndex s)
    (es_lastExecutionTry s) (es_executionError s) (es_calls s) (es_ticks s) (es_hooks s).
Definition set_executionIndex (x : Z) (s : EngineState) : EngineState :=
  Build_EngineState (es_workflow s) (es_stack s) (es_runData s) (es_pinData s) (es_lastNodeExecuted s)
    (es_resultError s) (es_metadata s) (es_waitTill s) (es_status s) (es_timedOut s) x
    (es_lastExecutionTry s) (es_executionError s) (es_calls s) (es_ticks s) (es_hooks s).
Definition set_lastExecutionTry (x : string) (s : EngineState) : EngineState :=
  Build_EngineState (es_workflow s) (es_stack s) (es_runData s) (es_pinData s) (es_lastNodeExecuted s)
    (es_resultError s) (es_metadata s) (es_waitTill s) (es_status s) (es_timedOut s)
    (es_executionIndex s) x (es_executionError s) (es_calls s) (es_ticks s) (es_hooks s).
Definition set_executionError (x : option ExecutionError) (s : EngineState) : EngineState :=
  Build_EngineState (es_workflow s) (es_stack s) (es_runData s) (es_pinData s) (es_lastNodeExecuted s)
    (es_resultError s) (es_metadata s) (es_waitTill s) (es_status s) (es_timedOut s)
    (es_executionIndex s) (es_lastExecutionTry s) x (es_calls s) (es_ticks s) (es_hooks s).
Definition set_calls (x : nat) (s : EngineState) : EngineState :=
  Build_EngineState (es_workflow s) (es_stack s) (es_runData s) (es_pinData s) (es_lastNodeExecuted s)
    (es_resultError s) (es_metadata s) (es_waitTill s) (es_status s) (es_timedOut s)
    (es_executionIndex s) (es_lastExecutionTry s) (es_executionError s) x (es_ticks s) (es_hooks s).
Definition set_ticks (x : nat) (s : EngineState) : EngineState :=
  Build_EngineState (es_workflow s) (es_stack s) (es_runData s) (es_pinData s) (es_lastNodeExecuted s)
    (es_resultError s) (es_metadata s) (es_waitTill s) (es_status s) (es_timedOut s)
    (es_executionIndex s) (es_lastExecutionTry s) (es_executionError s) (es_calls s) x (es_hooks s).
Definition set_hooks (x : list HookCall) (s : EngineState) : EngineState :=
  Build_EngineState (es_workflow s) (es_stack s) (es_runData s) (es_pinData s) (es_lastNodeExecuted s)
    (es_resultError s) (es_metadata s) (es_waitTill s) (es_status s) (es_timedOut s)
    (es_executionIndex s) (es_lastExecutionTry s) (es_executionError s) (es_calls s) (es_ticks s) x.

(** ** [run-execution-data-factory.ts] *)

Record ResultOptions := {
  ro_error : option ExecutionError;
  ro_runData : slot IRunData;
  ro_pinData : option IPinData;
  ro_lastNodeExecuted : option string;
}.

Record ExecutionOptions := {
  eo_nodeExecutionStack : option (list IExecuteData);
  eo_metadata : option (jsobj (list ITaskMetadata));
  eo_waitingExecution : option IWaitingForExecution;
  eo_waitingExecutionSource : option IWaitingForExecutionSource;
}.

(** [resultData] and [executionData] of [IRunExecutionData]; either can be missing. *)
Record ResultData := {
  rd_error : option ExecutionError;
  rd_runData : option IRunData;
  rd_pinData : option IPinData;
  rd_lastNodeExecuted : option string;
}.

Record IRunExecutionData := {
  red_startData : option IStartData;
  red_resultData : ResultData;
  red_executionData : option (RecreatedStack * jsobj (list ITaskMetadata));
  red_waitTill : option Z;
}.

Definition buildResultData (resultData : option ResultOptions) : ResultData :=
  {| rd_error := resultData ≫= ro_error;
     rd_runData := match ro_runData <$> resultData with
                   | Some Null => None
                   | Some (Val runData) => Some runData
                   | _ => Some []
                   end;
     rd_pinData := resultData ≫= ro_pinData;
     rd_lastNodeExecuted := resultData ≫= ro_lastNodeExecuted |}.

Definition buildExecutionData (executionData : slot ExecutionOptions)
    : option (RecreatedStack * jsobj (list ITaskMetadata)) :=
  let build (o : option ExecutionOptions) :=
    ({| nodeExecutionStack := default [] (o ≫= eo_nodeExecutionStack);
        waitingExecution := default [] (o ≫= eo_waitingExecution);
        waitingExecutionSource := default [] (o ≫= eo_waitingExecutionSource) |},
     default [] (o ≫= eo_metadata)) in
  match executionData with
  | Null => None
  | Undefined => Some (build None)
  | Val o => Some (build (Some o))
  end.

Definition emptyStartData : IStartData :=
  {| sd_destinationNode := None; sd_originalDestinationNode := None; sd_runNodeFilter := None |}.

Definition createRunExecutionData (startData : option IStartData) (resultData : option ResultOptions)
    (executionData : slot ExecutionOptions) (waitTill : option Z) : IRunExecutionData :=
  {| red_startData := Some (default emptyStartData startData);
     red_resultData := buildResultData resultData;
     red_executionData := buildExecutionData executionData;
     red_waitTill := waitTill |}.

Definition createEmptyRunExecutionData : IRunExecutionData :=
  {| red_startData := None;
     red_resultData := {| rd_error := None; rd_runData := Some []; rd_pinData := None;
                          rd_lastNodeExecuted := None |};
     red_executionData := None; red_waitTill := None |}.

Definition createErrorExecutionData (node : INode) (error : ExecutionError) : IRunExecutionData :=
  {| red_startData := Some
       {| sd_destinationNode := Some {| dest_nodeName := node_name node; dest_mode := Inclusive |};
          sd_originalDestinationNode := None; sd_runNodeFilter := Some [node_name node] |};
     red_resultData :=
       {| rd_error := Some error;
          rd_runData := Some [(node_name node,
            [{| task_startTime := 0; task_executionIndex := Some 0%Z; task_source := [];
                task_executionTime := 0; task_executionStatus := None; task_data := None;
                task_inputOverride := None; task_error := Some error; task_metadata := None;
                task_rest := [] |}])];
          rd_pinData := None; rd_lastNodeExecuted := Some (node_name node) |};
     red_executionData := Some
       ({| nodeExecutionStack :=
             [{| exec_data := [(NodeConnectionTypes.Main,
                   [Val [set_pairedItem (pairWith 0) empty_item]])];
                 exec_metadata := None; exec_node := node; exec_source := None; exec_runIndex := None |}];
           waitingExecution := []; waitingExecutionSource := [] |}, []);
     red_waitTill := None |}.

(** ** Starting an execution *)

Section starting.
Context `{INodeTypes}.

(** [WorkflowExecute.run]: the run execution data it creates. *)
Definition run (w : Workflow) (startNode : option INode) (destinationNode : option IDestinationNode)
    (pinData : option IPinData) (triggerData : option ITaskDataConnections)
    (additionalRunFilterNodes : option (list string)) : res IRunExecutionData :=
  startNode ← (match startNode with
               | Some node => Ok (Some node)
               | None => getStartNode w (dest_nodeName <$> destinationNode)
               end);
  match startNode with
  | None => Throw (ApplicationError "No node to start the workflow from could be found")
  | Some startNode =>
      runNodeFilter ←
        (match destinationNode with
         | None => Ok None
         | Some destination =>
             main ← workflowParentNodes w (dest_nodeName destination) (OfType NodeConnectionTypes.Main) (-1);
             other ← workflowParentNodes w (dest_nodeName destination) ALL_NON_MAIN (-1);
             Ok (Some (set_of_list
               (main ++ other ++
                (if bool_decide (dest_mode destination = Inclusive) then [dest_nodeName destination] else []) ++
                default [] additionalRunFilterNodes)))
         end);
      Ok (createRunExecutionData
            (Some {| sd_destinationNode := destinationNode; sd_originalDestinationNode := None;
                     sd_runNodeFilter := runNodeFilter |})
            (Some {| ro_error := None; ro_runData := Undefined; ro_pinData := pinData;
                     ro_lastNodeExecuted := None |})
            (Val {| eo_nodeExecutionStack := Some
                      [{| exec_data := default [(NodeConnectionTypes.Main, [Val [empty_item]])] triggerData;
                          exec_metadata := None; exec_node := startNode; exec_source := None;
                          exec_runIndex := None |}];
                    eo_metadata := None; eo_waitingExecution := None; eo_waitingExecutionSource := None |})
            None)
  end.
End starting.

(** The state in which an execution of this data starts, with [currentNodeExecutionIndex]; there is none if
    the execution data or the run data is missing. *)
Definition startState (w : Workflow) (data : IRunExecutionData) (index : Z) : option EngineState :=
  '(stack, metadata) ← red_executionData data;
  runData ← rd_runData (red_resultData data);
  Some {| es_workflow := w; es_stack := stack; es_runData := runData; es_pinData := rd_pinData (red_resultData data);
          es_lastNodeExecuted := rd_lastNodeExecuted (red_resultData data); es_resultError := rd_error (red_resultData data);
          es_metadata := metadata; es_waitTill := red_waitTill data; es_status := New; es_timedOut := false;
          es_executionIndex := index; es_lastExecutionTry := ""; es_executionError := None; es_calls := 0;
          es_ticks := 0; es_hooks := [] |}.

Section partial.
Context `{INodeTypes}.
Context (localeCompare : string → string → Z) (stringify : json → string).
(** [NodeHelpers.getNodeParameters]: a node's parameters with their defaults *)
Context (getNodeParameters : INodeType → INode → option IDataObject).

Definition addDefaults (node : INode) : INode :=
  match nodeTypeOf node with
  | None => node
  | Some nodeType => set_node_parameters (default [] (getNodeParameters nodeType node)) node
  end.

(** The [Workflow] constructor; the node objects themselves get the defaults. *)
Definition newWorkflow (parameters : Workflow) (ns : list INode) (cs : IConnections) : Workflow :=
  setConnections cs (setNodes (map addDefaults ns) parameters).

Definition mapNodes (f : INode → INode) (g : DirectedGraph) : DirectedGraph :=
  {| nodes := map (λ kn, (kn.1, f kn.2)) (nodes g);
     connections := map (λ kc, (kc.1,
       {| gc_from := f (gc_from kc.2); gc_to := f (gc_to kc.2); gc_type := gc_type kc.2;
          gc_outputIndex := gc_outputIndex kc.2; gc_inputIndex := gc_inputIndex kc.2 |})) (connections g) |}.

(** [graph.toWorkflow({ ...workflow })], with the graph after the call *)
Definition toWorkflow (graph : DirectedGraph) (workflow : Workflow) : res (DirectedGraph * Workflow) :=
  cs ← toIConnections graph;
  Ok (mapNodes addDefaults graph, newWorkflow workflow ((getNodes graph).*2) cs).

(** The closest parent with run data *)
Fixpoint parentWithRunData (w : Workflow) (runData : IRunData) (parentNodes : list string) : option INode :=
  match parentNodes with
  | [] => None
  | nodeName :: rest =>
      if obj_has nodeName runData then getNode w nodeName else parentWithRunData w runData rest
  end.

(** A destination that is a tool is run through a virtual agent: the graph is
    rewired and a new workflow is made of it. *)
Definition rewireDestination (ref : nat) (workflow : Workflow) (graph : DirectedGraph) (destination : INode)
    (destinationNode : IDestinationNode) (agentRequest : option AiAgentRequest)
    : res (DirectedGraph * Workflow * INode * IDestinationNode) :=
  destinationNodeType ← deref (nodeTypeOf destination);
  if isTool destinationNodeType (node_parameters destination) then
    graph ← rewireGraph stringify ref destination graph agentRequest;
    '(graph, workflow) ← toWorkflow graph workflow;
    match getNode workflow TOOL_EXECUTOR_NODE_NAME with
    | None => Throw (OperationalError "ToolExecutor can not be found")
    | Some toolExecutorNode =>
        Ok (graph, workflow, toolExecutorNode,
            {| dest_nodeName := node_name toolExecutorNode; dest_mode := Inclusive |})
    end
  else Ok (graph, workflow, destination, destinationNode).

(** The trigger, or else the closest parent with run data *)
Definition partialTrigger (w : Workflow) (destination : string) (runData : IRunData) : res INode :=
  trigger ← findTriggerForPartialExecution w destination runData;
  match trigger with
  | Some trigger => Ok trigger
  | None =>
      parentNodes ← workflowParentNodes w destination (OfType NodeConnectionTypes.Main) (-1);
      match parentWithRunData w runData parentNodes with
      | Some startNode => Ok startNode
      | None => Throw (UserError "Connect a trigger to run this node")
      end
  end.

Record PartialPlan := {
  plan_graph : DirectedGraph;
  plan_startNodes : jsset INode;
  plan_runData : IRunData;
  plan_stack : RecreatedStack;
}.

(** Steps 2 to 7: subgraph, start nodes, cycles, run data, stack *)
Definition planPartial (graph : DirectedGraph) (destination trigger : INode) (runData : IRunData)
    (pinData : IPinData) (dirtyNodeNames : list string) : res PartialPlan :=
  graph ← filterDisabledNodes graph;
  graph ← findSubgraph graph destination trigger;
  let dirtyNodes := getNodesByNames graph dirtyNodeNames in
  runData ← cleanRunData runData graph dirtyNodes;
  startNodes ← findStartNodes graph trigger destination pinData runData;
  startNodes ← handleCycles graph startNodes trigger;
  runData ← cleanRunData runData graph startNodes;
  stack ← recreateNodeExecutionStack localeCompare graph startNodes runData pinData;
  Ok {| plan_graph := graph; plan_startNodes := startNodes; plan_runData := runData; plan_stack := stack |}.

(** The result: the workflow to run, the run execution data and
    [currentNodeExecutionIndex]. *)
Definition runPartialWorkflow2 (ref : nat) (workflow : Workflow) (runData : IRunData) (pinData : IPinData)
    (dirtyNodeNames : list string) (destinationNode : IDestinationNode)
    (agentRequest : option AiAgentRequest) : res (Workflow * IRunExecutionData * Z) :=
  let originalDestination := destinationNode in
  match getNode workflow (dest_nodeName destinationNode) with
  | None => Throw AssertionError
  | Some destination =>
      graph ← fromWorkflow (workflow_nodes workflow) (connectionsBySourceNode workflow);
      '(graph, workflow, destination, destinationNode) ←
        rewireDestination ref workflow graph destination destinationNode agentRequest;
      trigger ← partialTrigger workflow (dest_nodeName destinationNode) runData;
      plan ← planPartial graph destination trigger runData pinData dirtyNodeNames;
      Ok (workflow,
          createRunExecutionData
            (Some {| sd_destinationNode := Some destinationNode;
                     sd_originalDestinationNode := Some originalDestination;
                     sd_runNodeFilter := Some (node_name <$> (getNodes (plan_graph plan)).*2) |})
            (Some {| ro_error := None; ro_runData := Val (plan_runData plan); ro_pinData := Some pinData;
                     ro_lastNodeExecuted := None |})
            (Val {| eo_nodeExecutionStack := Some (nodeExecutionStack (plan_stack plan));
                    eo_metadata := None;
                    eo_waitingExecution := Some (waitingExecution (plan_stack plan));
                    eo_waitingExecutionSource := Some (waitingExecutionSource (plan_stack plan)) |})
            None,
          getNextExecutionIndex (plan_runData plan))
  end.
End partial.
