(* ===== verification/PartialPlan.v ===== *)
(** * The plan of a partial execution

    [runPartialWorkflow2] plans an execution in steps that each have a theorem of
    their own: disabled nodes are bridged, the part of the graph between trigger and
    destination is cut out, run data is cleaned, start nodes are searched and moved to
    the entries of their cycles, and the execution stack is recreated.  This file puts
    them together: the conclusion of each step gives the hypotheses of the next. *)

From S2P Require Import Prelude JsCollections NodeTypes DirectedGraph Fixtures GraphSearch NodeRemoval.
From S2P Require Import RunData StartNodes Components SourceGroups ExecutionStack Connections Subgraph.
From S2P Require Import GraphExport Workflow Trigger Waiting Items Requests EngineState.

(** ** Run data of the nodes of a graph *)

(** The data of a task has an entry for every type of connection that leaves its
    node, and one for [main] at a loop node. *)
Definition recordsOutputs (g : DirectedGraph) (runData : IRunData) : Prop :=
  ∀ name tasks task data, obj_get name runData = Some tasks → task ∈ tasks → task_data task = Some data →
    (∀ c, c ∈ (connections g).*2 → node_name (gc_from c) = name → is_Some (obj_get (gc_type c) data)) ∧
    (∀ n, inGraph g n → node_name n = name → node_type n = "n8n-nodes-base.splitInBatches" →
       is_Some (obj_get NodeConnectionTypes.Main data)).

Lemma recordsOutputs_sub g g' r r' :
  recordsOutputs g r →
  (∀ c, c ∈ (connections g').*2 →
     ∃ c0, c0 ∈ (connections g).*2 ∧ gc_from c0 = gc_from c ∧ gc_type c0 = gc_type c) →
  (∀ n, inGraph g' n → inGraph g n) →
  (∀ name tasks, obj_get name r' = Some tasks → obj_get name r = Some tasks) →
  recordsOutputs g' r'.
Proof.
  intros Hrec Hc Hn Hr name tasks task data Hg Ht Hd.
  destruct (Hrec name tasks task data (Hr _ _ Hg) Ht Hd) as [H1 H2].
  split; [|intros n Hin; by apply H2, Hn].
  intros c (c0 & Hc0 & Hf & <-)%Hc Hname. apply H1; [done|]. by rewrite Hf.
Qed.

Lemma at_elem_of {A} (l : list A) i x : at_ l i = Some x → x ∈ l.
Proof. unfold at_. intros H. repeat case_match; simplify_eq; by eapply list_elem_of_lookup_2. Qed.

Lemma getIncomingData_ok runData name i ty out :
  (∀ tasks task data, obj_get name runData = Some tasks → task ∈ tasks → task_data task = Some data →
     is_Some (obj_get ty data)) →
  is_ok (getIncomingData runData name i ty out).
Proof.
  intros H. unfold getIncomingData. destruct (obj_get name runData) as [tasks|] eqn:E; [|by eexists].
  destruct (at_ tasks i) as [task|] eqn:Et; [|by eexists]. destruct (task_data task) as [data|] eqn:Ed; [|by eexists].
  destruct (H tasks task data) as [outputs ->]; [done|by eapply at_elem_of|done|]. by eexists.
Qed.

Lemma getIncomingDataFromAnyRun_ok runData name ty out :
  (∀ tasks task data, obj_get name runData = Some tasks → task ∈ tasks → task_data task = Some data →
     is_Some (obj_get ty data)) →
  is_ok (getIncomingDataFromAnyRun runData name ty out).
Proof.
  intros H. unfold getIncomingDataFromAnyRun. generalize 0 as i.
  induction (getRunIndexLength runData name) as [|n IH]; intros i; simpl; [by eexists|].
  destruct (getIncomingData_ok runData name (Z.of_nat i) ty out H) as [[[|x l]|] ->]; simpl; [apply IH|by eexists|apply IH].
Qed.

Lemma recordsOutputs_connection g r c :
  recordsOutputs g r → c ∈ (connections g).*2 →
  is_ok (getIncomingDataFromAnyRun r (node_name (gc_from c)) (gc_type c) (Z.of_nat (gc_outputIndex c))).
Proof.
  intros Hrec Hc. apply getIncomingDataFromAnyRun_ok. intros tasks task data H1 H2 H3.
  by apply (Hrec _ _ _ _ H1 H2 H3).
Qed.

Lemma recordsOutputs_readable g r pinData : wf g → recordsOutputs g r → readable g r pinData.
Proof.
  intros Hwf Hrec. split.
  - intros c Hc. unfold followsConnection. destruct (recordsOutputs_connection g r c Hrec Hc) as [? ->].
    by eexists.
  - intros n Hn. unfold loopNotFinished. case_bools; [|by eexists]. unfold isALoop.
    destruct (getChildren_spec g n Hwf Hn) as (s & -> & _). simpl.
    edestruct (getIncomingData_ok r (node_name n) (-1) NodeConnectionTypes.Main) as [? Hd]; [|by rewrite Hd; eexists].
    intros tasks task data H1 H2 H3. by apply (Hrec _ _ _ _ H1 H2 H3) with n.
Qed.

(** ** A way without repetitions *)

Lemma simple_way g t d :
  rtc (mainEdge g) t d → ∃ way, backPath g d way t ∧ NoDup (gc_to <$> way) ∧ t ∉ gc_to <$> way.
Proof.
  induction 1 as [d|y x d (c & Hc & Hty & <- & <-) _ (way & Hw & Hnd & Hnin)].
  { exists []. split; [constructor|]. split; [constructor|apply not_elem_of_nil]. }
  destruct (decide (gc_from c ∈ gc_to <$> way)) as [Hin|Hno].
  - apply list_elem_of_fmap in Hin as (c' & Hc' & Hin). apply list_elem_of_split in Hin as (l1 & l2 & ->).
    exists l1. rewrite fmap_app in Hnd. apply NoDup_app in Hnd as (Hnd1 & Hdis & _).
    split; [|split; [done|]].
    + rewrite Hc'. clear -Hw. revert d Hw. induction l1 as [|e l1 IH]; intros d Hw; inversion Hw; subst; simpl in *.
      * constructor.
      * constructor; [done|done|]. by apply IH.
    + rewrite Hc'. intros Hin. apply (Hdis _ Hin). left.
  - destruct (decide (gc_from c = gc_to c)) as [Heq|Hne].
    { exists way. rewrite Heq. done. }
    exists (way ++ [c]). rewrite fmap_app. split; [by apply backPath_snoc|]. split.
    + apply NoDup_app. split; [done|]. split; [|apply NoDup_singleton]. set_solver.
    + set_solver.
Qed.

(** ** Putting the steps together *)

Section plan.
Context (localeCompare : string → string → Z).
Context (g : DirectedGraph) (destination trigger : INode) (runData : IRunData) (pinData : IPinData).
Context (dirtyNodeNames : list string).

Record plannable : Prop := {
  pl_wf : wf g;
  pl_keyable : keyableGraph g;
  pl_acyclic : noDisabledCycle g;
  pl_trigger : inGraph g trigger ∧ is_disabled trigger = false;
  pl_destination : inGraph g destination ∧ is_disabled destination = false;
  pl_way : rtc (mainEdge g) trigger destination;
  pl_runData : recordsOutputs g runData;
}.

(** What the plan promises the execution loop *)
Record planned (plan : PartialPlan) : Prop := {
  pd_wf : wf (plan_graph plan);
  pd_ends : inGraph (plan_graph plan) trigger ∧ inGraph (plan_graph plan) destination;
  pd_nodes : ∀ n, inGraph (plan_graph plan) n → inGraph g n ∧ is_disabled n = false;
  pd_starts : ∀ n, n ∈ plan_startNodes plan →
    inGraph (plan_graph plan) n ∧ rtc (edge (plan_graph plan)) trigger n ∧
    obj_get (node_name n) (plan_runData plan) = None;
  pd_stack : ∀ e, e ∈ nodeExecutionStack (plan_stack plan) → exec_node e ∈ plan_startNodes plan;
  pd_runData : ∀ name tasks, obj_get name (plan_runData plan) = Some tasks ↔
    obj_get name runData = Some tasks ∧ hasNode (plan_graph plan) name = true ∧
    ¬ ∃ n, (n ∈ plan_startNodes plan ∨ (node_name n ∈ dirtyNodeNames ∧ inGraph (plan_graph plan) n)) ∧
        cleanedBy (plan_graph plan) n name;
}.

Lemma elem_of_getNodesByNames (graph : DirectedGraph) names n :
  wf graph → n ∈ getNodesByNames graph names ↔ node_name n ∈ names ∧ inGraph graph n.
Proof using.
  intros Hwf. unfold getNodesByNames.
  assert (∀ acc, n ∈ foldl (λ acc name, match map_get name (nodes graph) with
      | Some node => set_add node acc | None => acc end) acc names ↔
    n ∈ acc ∨ (node_name n ∈ names ∧ inGraph graph n)) as Hgen; [|rewrite Hgen; set_solver].
  induction names as [|name names IH]; intros acc; simpl; [set_solver|]. rewrite IH, elem_of_cons.
  destruct (map_get name (nodes graph)) as [node|] eqn:E.
  - pose proof (map_get_elem_of _ _ _ E) as He. apply (wf_nodes_name _ Hwf) in He as ->.
    rewrite elem_of_set_add. split; [intros [[->|?]|[? ?]]; auto|]. intros [?|[[Hn|?] ?]]; auto.
    left. left. unfold inGraph in *. rewrite Hn in *. congruence.
  - split; [intros [?|[? ?]]; auto|]. intros [?|[[<-|?] Hin]]; auto. unfold inGraph in Hin. congruence.
Qed.

Lemma followed_edge graph d r pin a b : rtc (followed graph d r pin) a b → rtc (edge graph) a b.
Proof using. apply rtc_subrel. intros x y [_ (c & Hc & Hf & Ht & _)]. by exists c. Qed.

(** Steps 1 and 2: the enabled part of the graph between trigger and destination *)
Record planGraph (g2 : DirectedGraph) : Prop := {
  pg_wf : wf g2;
  pg_ends : inGraph g2 trigger ∧ inGraph g2 destination;
  pg_nodes : ∀ n, inGraph g2 n → inGraph g n ∧ is_disabled n = false;
  pg_records : recordsOutputs g2 runData;
}.

Lemma planGraph_spec :
  plannable → ∃ g1 g2, filterDisabledNodes g = Ok g1 ∧ findSubgraph g1 destination trigger = Ok g2 ∧ planGraph g2.
Proof using.
  intros [Hwf Hkey Hac [Htr Htd] [Hde Hdd] Hway Hrec].
  destruct (filterDisabledNodes_spec g Hwf Hkey Hac) as (g1 & Hg1 & [Hwf1 _ _ Hn1 Hr1 Hty1]).
  assert (∀ m, inGraph g1 m ↔ inGraph g m ∧ is_disabled m = false) as Hin1.
  { intros m. rewrite Hn1. split; intros [Hm Hd]; (split; [done|]).
    - destruct (is_disabled m); [|done]. destruct Hd. split; [by apply inGraph_elem_of|done].
    - intros [_ ?]. congruence. }
  destruct (findSubgraph_spec g1 Hwf1 destination trigger) as (g2 & Hg2 & [Hwf2 Hin2 Hc2] & _ & Hways);
    [by apply Hin1..|].
  destruct (simple_way g1 trigger destination) as (way & Hback & Hnd & Hnin); [by apply Hr1|].
  destruct (Hways way) as [Ht2 Hw2]; [done|]. exists g1, g2. split; [done|]. split; [done|]. split; [done| | |].
  - split; [done|]. inversion Hback; subst; [done|]. apply wf_conn_to; [done|]. apply Hw2. left.
  - intros n Hn. by apply Hin1, Hin2.
  - eapply recordsOutputs_sub; [exact Hrec| | |done]; [intros c Hc; by apply Hty1, Hc2|].
    intros n Hn. by apply Hin1, Hin2.
Qed.

Lemma planPartial_spec :
  plannable → ∃ plan, planPartial localeCompare g destination trigger runData pinData dirtyNodeNames = Ok plan ∧
    planned plan.
Proof using.
  intros Hpl. destruct (planGraph_spec Hpl) as (g1 & g2 & Hg1 & Hg2 & [Hwf [Htr Hde] Hnodes Hrec]).
  unfold planPartial. rewrite Hg1. cbn [mbind res_bind]. rewrite Hg2. cbn [mbind res_bind].
  destruct (cleanRunData_spec g2 runData (getNodesByNames g2 dirtyNodeNames) Hwf) as (r1 & Hr1 & Hrem1).
  { intros n Hn. by apply elem_of_getNodesByNames in Hn as [_ ?]. }
  rewrite Hr1. cbn [mbind res_bind].
  assert (recordsOutputs g2 r1) as Hrec1.
  { eapply recordsOutputs_sub; [exact Hrec|intros c Hc; by exists c|done|]. intros name tasks Hg. by apply Hrem1 in Hg as [? _]. }
  destruct (findStartNodes_spec g2 destination r1 pinData Hwf (recordsOutputs_readable _ _ _ Hwf Hrec1) trigger Htr)
    as (starts & Hst & Hstarts).
  rewrite Hst. cbn [mbind res_bind].
  destruct (handleCycles_spec g2 starts trigger Hwf Htr) as (starts2 & Hst2 & Hsound & _).
  { eapply findStartNodesRecursive_NoDup; [exact Hst|constructor]. }
  { intros n [_ Hr]%Hstarts. by eapply followed_edge. }
  rewrite Hst2. cbn [mbind res_bind].
  assert (∀ n, n ∈ starts2 → rtc (edge g2) trigger n) as Hreach.
  { intros n (m & [_ Hr]%Hstarts & [->|[_ ?]])%Hsound; [by eapply followed_edge|done]. }
  assert (∀ n, n ∈ starts2 → inGraph g2 n) as Hin.
  { intros n Hn. by apply (reachable_inGraph g2 trigger), Hreach. }
  destruct (cleanRunData_spec g2 r1 starts2 Hwf Hin) as (r2 & Hr2 & Hrem2). rewrite Hr2. cbn [mbind res_bind].
  assert (recordsOutputs g2 r2) as Hrec2.
  { eapply recordsOutputs_sub; [exact Hrec1|intros c Hc; by exists c|done|]. intros name tasks Hg. by apply Hrem2 in Hg as [? _]. }
  destruct (recreateNodeExecutionStack_spec localeCompare g2 r2 pinData Hwf
    (λ c, recordsOutputs_connection g2 r2 c Hrec2) starts2) as (st & -> & Hstack); [|done|].
  { intros n Hn Hd. destruct (Hnodes n Hn) as [_ Hdis]. unfold is_disabled in Hdis. by rewrite Hd in Hdis. }
  eexists. split; [reflexivity|]. split; simpl; [done|done|done| |done|].
  - intros n Hn. split; [auto|]. split; [auto|]. destruct (obj_get (node_name n) r2) as [d|] eqn:E; [|done].
    apply Hrem2 in E as [_ Hno]. destruct Hno. right. exists n. split; [done|]. exists n. split; [done|by left].
  - intros name tasks. rewrite (Hrem2 name tasks), (Hrem1 name tasks). setoid_rewrite elem_of_getNodesByNames; [|done].
    destruct (hasNode g2 name); naive_solver.
Qed.
End plan.

(** C5: the plan of a partial execution.  Let the trigger and the destination be
    enabled nodes of a well-formed graph without cycles of disabled nodes, in which different
    connections have different keys, the destination
    reachable from the trigger along main connections, and let the run data have
    outputs for the connections of the graph.  Then planning succeeds: the graph to
    execute holds trigger and destination and only enabled nodes; every entry of the
    execution stack belongs to a start node; every start node is in that graph, is
    reachable from the trigger and has no run data left, so that it runs again; and
    run data is kept exactly for the nodes of that graph that are neither dirty, nor a
    start node, nor behind one, nor a sub-node attached before such a node. *)
Theorem planPartial_plans (localeCompare : string → string → Z) (g : DirectedGraph)
    (destination trigger : INode) (runData : IRunData) (pinData : IPinData) (dirtyNodeNames : list string) :
  plannable g destination trigger runData →
  ∃ plan, planPartial localeCompare g destination trigger runData pinData dirtyNodeNames = Ok plan ∧
    planned g destination trigger runData dirtyNodeNames plan.
Proof. apply planPartial_spec. Qed.

(** The runs of [A] and [B] *)
Definition diamondRunData : IRunData := [("A", [mkTask 0 [empty_item]]); ("B", [mkTask 1 [empty_item]])].

Lemma diamond_recordsOutputs : recordsOutputs diamond diamondRunData.
Proof.
  intros name tasks task data Hg Ht Hd. apply map_get_elem_of in Hg.
  assert (data = [("main", [Val [empty_item]])]) as ->.
  { repeat (apply elem_of_cons in Hg as [[= -> ->]|Hg]); [| |by apply not_elem_of_nil in Hg];
      apply list_elem_of_singleton in Ht as ->; by injection Hd. }
  assert (name ∈ ["A"; "B"]) as Hname by (repeat (apply elem_of_cons in Hg as [[= -> ->]|Hg]; [set_solver|]);
    by apply not_elem_of_nil in Hg).
  split; [|by eexists]. assert (Forall (λ c, node_name (gc_from c) ∈ ["A"; "B"] → gc_type c = "main")
    ((connections diamond).*2)) as HF by by_eval.
  rewrite Forall_forall in HF. intros c Hc <-. rewrite (HF c Hc Hname). by eexists.
Qed.

Lemma planPartial_plans_witness :
  ∃ plan, planPartial (λ _ _, 0%Z) diamond nodeD nodeA diamondRunData [] ["B"] = Ok plan ∧
    inGraph (plan_graph plan) nodeD ∧ ¬ inGraph (plan_graph plan) nodeC ∧
    (∀ e, e ∈ nodeExecutionStack (plan_stack plan) → exec_node e ∈ plan_startNodes plan) ∧
    obj_get "B" (plan_runData plan) = None.
Proof.
  destruct (planPartial_plans (λ _ _, 0%Z) diamond nodeD nodeA diamondRunData [] ["B"])
    as (plan & Hplan & [_ [_ Hd] Hn _ Hst Hrun]).
  { split; [apply diamond_wf|apply keyableGraph_Forall; by_eval|apply diamond_noDisabledCycle|
      by split|by split| |apply diamond_recordsOutputs].
    apply rtc_l with nodeB; [exists (mkConn nodeA nodeB "main" 0 0); split_and!; by_eval|].
    apply rtc_once. exists (mkConn nodeB nodeD "main" 0 0). split_and!; by_eval. }
  exists plan. split; [exact Hplan|]. split; [exact Hd|]. split; [|split; [exact Hst|]].
  - intros HC. by destruct (Hn _ HC).
  - vm_compute in Hplan. injection Hplan as <-. reflexivity.
Defined.
