(* ===== verification/Lifecycle.v ===== *)
(** * Before and after the execution loop

    Model of the methods of [WorkflowExecute] around the loop of
    [processRunExecutionData]: the check for issues, the handling of executions that
    waited, cancellation, the merging of metadata and the final status. *)

From S2P Require Import Prelude JsCollections NodeTypes DirectedGraph Fixtures RunData.
From S2P Require Import ExecutionStack Connections Workflow Trigger Waiting Items Requests EngineState.

(** ** Issues *)

(** The nodes that lead to the destination, or those behind the start node *)
Definition nodesToCheck (w : Workflow) (startNode : option string) (destinationNode : option IDestinationNode)
    : res (list string) :=
  match destinationNode, startNode with
  | Some destination, _ =>
      parents ← workflowParentNodes w (dest_nodeName destination) (OfType NodeConnectionTypes.Main) (-1);
      Ok (if bool_decide (dest_mode destination = Inclusive)
          then parents ++ [dest_nodeName destination] else parents)
  | None, Some startNode =>
      if bool_decide (startNode = "") then Ok [] else
      children ← workflowChildNodes w startNode (OfType NodeConnectionTypes.Main) (-1);
      Ok (children ++ [startNode])
  | None, None => Ok []
  end.

Section issues.
Context `{INodeTypes}.
(** [{ typeUnknown: true }], and [NodeHelpers.getNodeParametersIssues]: [None] for no issues *)
Context {Issues : Type} (typeUnknown : Issues).
Context (getNodeParametersIssues : INodeType → INode → list string → res (option Issues)).

(** The issues of one node to check; [None] also for a node that is skipped. *)
Definition nodeIssues (w : Workflow) (pinDataNodeNames : list string) (nodeName : string)
    : res (option (string * Issues)) :=
  match getNode w nodeName with
  | None => Ok None
  | Some node =>
      if bool_decide (node_disabled node = Some true) then Ok None else
      issues ← match nodeTypeOf node return res (option Issues) with
               | None => Ok (Some typeUnknown)
               | Some nodeType => getNodeParametersIssues nodeType node pinDataNodeNames
               end;
      Ok (option_map (pair (node_name node)) issues)
  end.

(** [None] if the workflow is ready *)
Definition checkReadyForExecution (w : Workflow) (startNode : option string)
    (destinationNode : option IDestinationNode) (pinDataNodeNames : list string)
    : res (option (jsobj Issues)) :=
  checkNodes ← nodesToCheck w startNode destinationNode;
  workflowIssues ←
    foldM (λ issues nodeName,
      found ← nodeIssues w pinDataNodeNames nodeName;
      Ok (match found with Some (name, i) => obj_set name i issues | None => issues end)) [] checkNodes;
  Ok (if bool_decide (length workflowIssues = 0) then None else Some workflowIssues).

Definition checkForWorkflowIssues (startData : IStartData) (s : EngineState) : res unit :=
  let startNode := (λ e, node_name (exec_node e)) <$> head (nodeExecutionStack (es_stack s)) in
  issues ← checkReadyForExecution (es_workflow s) startNode (sd_destinationNode startData)
    (from_option (λ pinData, pinData.*1) [] (es_pinData s));
  match issues with
  | Some _ => Throw WorkflowHasIssuesError
  | None => Ok tt
  end.
End issues.

(** ** Executions that waited *)

Definition set_node_disabled (disabled : option bool) (n : INode) : INode :=
  {| node_ref := node_ref n; node_id := node_id n; node_name := node_name n;
     node_typeVersion := node_typeVersion n; node_type := node_type n;
     node_position := node_position n; node_disabled := disabled;
     node_retryOnFail := node_retryOnFail n; node_maxTries := node_maxTries n;
     node_waitBetweenTries := node_waitBetweenTries n;
     node_alwaysOutputData := node_alwaysOutputData n; node_executeOnce := node_executeOnce n;
     node_onError := node_onError n; node_continueOnFail := node_continueOnFail n;
     node_parameters := node_parameters n; node_rewireOutputLogTo := node_rewireOutputLogTo n;
     node_rest := node_rest n |}.

(** [array.pop()] *)
Definition arrayPop {A} (l : list A) : list A := take (length l - 1) l.

(** The node that waited is disabled (the object of the stack entry, wherever it
    occurs), and its last run is removed. *)
Definition handleWaitingState (s : EngineState) : res EngineState :=
  match es_waitTill s with
  | None => Ok s
  | Some _ =>
      entry ← deref (head (nodeExecutionStack (es_stack s)));
      let disable := set_node_disabled (Some true) in
      lastNodeExecuted ← deref (es_lastNodeExecuted s);
      runs ← deref (obj_get lastNodeExecuted (es_runData s));
      Ok (set_waitTill None
           (set_workflow (assignInWorkflow (exec_node entry) disable (es_workflow s))
             (set_stack (assignInStack (exec_node entry) disable (es_stack s))
               (set_runData (obj_set lastNodeExecuted (arrayPop runs) (es_runData s)) s))))
  end.

(** ** Cancellation *)

Definition cancelTask (task : ITaskData) : ITaskData :=
  if bool_decide (task_executionStatus task = Some "running") then
    {| task_startTime := task_startTime task; task_executionIndex := task_executionIndex task;
       task_source := task_source task; task_executionTime := task_executionTime task;
       task_executionStatus := Some "canceled"; task_data := task_data task;
       task_inputOverride := task_inputOverride task; task_error := task_error task;
       task_metadata := task_metadata task; task_rest := task_rest task |}
  else task.

Definition updateTaskStatusesToCancelled (runData : IRunData) : IRunData :=
  map (λ kv, (kv.1, map cancelTask kv.2)) runData.

(** The handler of [onCancel] *)
Definition onCancel (s : EngineState) : EngineState :=
  set_status Canceled (set_runData (updateTaskStatusesToCancelled (es_runData s)) s).

(** ** Metadata *)

(** [{ ...a, ...b }] *)
Definition mergeMetadata (a b : ITaskMetadata) : ITaskMetadata :=
  {| meta_subNodeExecutionData := union_with (λ _ y, Some y) (meta_subNodeExecutionData a) (meta_subNodeExecutionData b);
     meta_preserveSourceOverwrite := union_with (λ _ y, Some y) (meta_preserveSourceOverwrite a) (meta_preserveSourceOverwrite b);
     meta_preservedSourceOverwrite := union_with (λ _ y, Some y) (meta_preservedSourceOverwrite a) (meta_preservedSourceOverwrite b);
     meta_nodeWasResumed := union_with (λ _ y, Some y) (meta_nodeWasResumed a) (meta_nodeWasResumed b);
     meta_rest := mergeObjects (meta_rest a) (meta_rest b) |}.

Definition set_task_metadata (m : ITaskMetadata) (task : ITaskData) : ITaskData :=
  {| task_startTime := task_startTime task; task_executionIndex := task_executionIndex task;
     task_source := task_source task; task_executionTime := task_executionTime task;
     task_executionStatus := task_executionStatus task; task_data := task_data task;
     task_inputOverride := task_inputOverride task; task_error := task_error task;
     task_metadata := Some m; task_rest := task_rest task |}.

Definition addMetadata (task : ITaskData) (m : ITaskMetadata) : ITaskData :=
  set_task_metadata (from_option (λ old, mergeMetadata old m) m (task_metadata task)) task.

(** The metadata of one run; a missing run is only reported. *)
Definition moveRunMetadata (nodeName : string) (runData : IRunData) (index : nat) (m : ITaskMetadata) : IRunData :=
  match obj_get nodeName runData with
  | Some runs =>
      match runs !! index with
      | Some task => obj_set nodeName (<[index := addMetadata task m]> runs) runData
      | None => runData
      end
  | None => runData
  end.

Definition moveNodeMetadata (metadata : jsobj (list ITaskMetadata)) (runData : IRunData) : IRunData :=
  foldl (λ runData '(nodeName, metas),
    foldl (λ runData '(index, m), moveRunMetadata nodeName runData index m) runData
      (imap (λ index m, (index, m)) metas)) runData metadata.

(** ** The end of an execution *)

Record IRun := {
  run_status : ExecutionStatus;
  run_finished : option bool;
  run_waitTill : option Z;
  run_state : EngineState;
}.

(** [includes] on an error's own message and name *)
Definition isCancellation (e : ExecutionError) : bool :=
  includes "canceled" (err_message e) || includes "Cancelled" (err_name e).

Definition finalStatus (executionError : option ExecutionError) (waitTill : option Z) : ExecutionStatus :=
  match executionError with
  | Some e => if isCancellation e then Canceled else Error
  | None => match waitTill with Some _ => Waiting | None => Success end
  end.

Definition processSuccessExecution (executionError : option ExecutionError) (s : EngineState) : IRun :=
  let status := finalStatus executionError (es_waitTill s) in
  let s := set_status status s in
  let s := set_runData (moveNodeMetadata (es_metadata s) (es_runData s)) s in
  match executionError with
  | Some e =>
      {| run_status := status; run_finished := None; run_waitTill := None;
         run_state := set_resultError (Some e) s |}
  | None =>
      {| run_status := status;
         run_finished := match es_waitTill s with Some _ => None | None => Some true end;
         run_waitTill := es_waitTill s; run_state := s |}
  end.

Definition cancelledError (timedOut : bool) : ExecutionError :=
  {| err_name := if timedOut then "TimeoutExecutionCancelledError" else "ManualExecutionCancelledError";
     err_message := if timedOut then "The execution was cancelled because it timed out"
                    else "The execution was cancelled manually";
     err_description := None; err_rest := [] |}.

(** The continuation of the loop when it returns *)
Definition finishExecution (s : EngineState) : IRun :=
  if bool_decide (es_status s = Canceled ∧ es_executionError s = None)
  then processSuccessExecution (Some (cancelledError (es_timedOut s))) s
  else processSuccessExecution (es_executionError s) s.

(** The continuation when the loop throws: the status stays as it is. *)
Definition failExecution (e : ExecutionError) (s : EngineState) : IRun :=
  {| run_status := es_status s; run_finished := None; run_waitTill := None;
     run_state := set_runData (moveNodeMetadata (es_metadata s) (es_runData s)) (set_resultError (Some e) s) |}.
