(* ===== verification/Engine.v ===== *)
(** * The execution loop

    Model of [processRunExecutionData] of [workflow-execute.ts]: one iteration of
    its loop takes an entry from the execution stack, runs the node (with retries),
    records the result in the run data and schedules the nodes that follow.

    The code of the nodes is outside: [NodeRunner] gives the outcome of the [n]-th
    call.  So are the clock, the evaluation of expressions and the lookup of
    paired items.  An exception inside the [try] of the loop is a value
    ([ExecutionError]); an exception outside of it ends the loop and is a [Throw].
    When an exception interrupts an operation outside of the [try] (scheduling,
    release of waiting nodes, ...), the state is the one before that operation. *)

From S2P Require Import Prelude JsCollections NodeTypes DirectedGraph Fixtures RunData.
From S2P Require Import ExecutionStack Connections Workflow Trigger Waiting Items Requests.
From S2P Require Import EngineState Lifecycle.

(** ** The interface to the nodes *)

Record EngineResponse := {
  er_actionResponses : list (EngineRequestAction * ITaskData);
  er_metadata : IDataObject;
}.

Definition makeEngineResponse : EngineResponse := {| er_actionResponses := []; er_metadata := [] |}.

Record NodeCall := {
  call_node : INode;
  call_runIndex : nat;
  call_inputData : ITaskDataConnections;
  call_connectionInputData : list INodeExecutionData;
  call_response : option EngineResponse;
}.

Inductive NodeResult :=
  | NodeData (data : slot NodeOutputData)
  | NodeRequest (request : EngineRequest)
  | NodeThrows (e : ExecutionError).

(** What a call leaves behind: its result, the time it asked to wait for
    ([putExecutionToWait]) and the metadata it wrote. *)
Record NodeOutcome := {
  out_result : NodeResult;
  out_waitTill : option Z;
  out_metadata : option (jsobj (list ITaskMetadata));
}.

Class NodeRunner := callNode : nat → NodeCall → NodeOutcome.

(** The error object of an exception thrown by the engine's own code *)
Definition caught (e : jserror) : ExecutionError :=
  {| err_name := ""; err_description := None; err_rest := [];
     err_message :=
       match e with
       | ApplicationError msg | UnexpectedError msg | OperationalError msg | UserError msg
       | ParseError msg | NodeError msg | PlainError msg | ExpressionError msg _ => msg
       | AssertionError => "assertion failed"
       | TypeError => "type error"
       | RangeError => "range error"
       | WorkflowHasIssuesError => "The workflow has issues and cannot be executed for that reason."
       end |}.

Section engine.
Context `{INodeTypes} `{NodeRunner}.
Context (startData : IStartData) (manualMode : bool) (executionTimeoutTimestamp : option Z) (now : nat → Z).
Context (evaluateOutputs : INode → res (list NodeOutput)).
Context (evaluateRequiredInputs : INode → string → option RequiredInputs).
(** [convertBinaryData]: moves binary data of the items to the storage *)
Context (convertBinaryData : slot NodeOutputData → slot NodeOutputData).
Context (getPairedItem : IRunData → string → ISourceData → IPairedItemData → res (option INodeExecutionData)).

(** [Date.now()] *)
Definition readClock (s : EngineState) : Z * EngineState :=
  (now (es_ticks s), set_ticks (S (es_ticks s)) s).

Definition runHook (h : HookCall) (s : EngineState) : EngineState := set_hooks (es_hooks s ++ [h]) s.

(** ** Running a node *)

(** [getCustomOperation]: whether the node's type has an operation for its parameters *)
Definition getCustomOperation (node : INode) (type : INodeType) : bool :=
  let parameters := match obj_get "forceCustomOperation" (node_rest node) with
                    | Some (JObj o) => o
                    | _ => node_parameters node
                    end in
  match nt_customOperations type, obj_get "resource" parameters, obj_get "operation" parameters with
  | Some customOperations, Some (JStr resource), Some (JStr operation) =>
      bool_decide (operation ∈ default [] (obj_get resource customOperations))
  | _, _, _ => false
  end.

(** The error that [rethrowLastNodeError] throws, if it does *)
Definition rethrowLastNodeError (s : EngineState) (node : INode) : option ExecutionError :=
  match es_resultError s with
  | Some e =>
      if bool_decide (es_lastNodeExecuted s = Some (node_name node)) then
        if bool_decide (err_name e = "NodeOperationError" ∨ err_name e = "NodeApiError") then Some e
        else Some {| err_name := ""; err_message := err_message e; err_description := None; err_rest := [] |}
      else None
  | None => None
  end.

(** A call into the code of the node *)
Definition enterCode (s : EngineState) (call : NodeCall) : EngineState * NodeResult :=
  let outcome := callNode (es_calls s) call in
  (set_calls (S (es_calls s))
    (set_waitTill (match out_waitTill outcome with Some t => Some t | None => es_waitTill s end)
      (set_metadata (default (es_metadata s) (out_metadata outcome)) s)),
   out_result outcome).

(** A string in double quotes *)
Definition quoted (text : string) : string :=
  let quote := String (Ascii.ascii_of_nat 34) EmptyString in quote +:+ text +:+ quote.

(** [inputData.main] as the data of a response *)
Definition passThrough (inputData : ITaskDataConnections) : NodeResult :=
  NodeData (match mainInputs inputData with Some inputs => Val inputs | None => Undefined end).

Definition runNode (executionData : IExecuteData) (runIndex : nat) (response : option EngineResponse)
    (s : EngineState) : EngineState * NodeResult :=
  let node := exec_node executionData in
  let inputData := exec_data executionData in
  if bool_decide (node_disabled node = Some true) then (s, NodeData (handleDisabledNode inputData)) else
  match nodeTypeOf node with
  | None => (s, NodeThrows (caught TypeError))
  | Some nodeType =>
      let customOperation := getCustomOperation node nodeType in
      match prepareConnectionInputData (es_workflow s) nodeType customOperation inputData with
      | None => (s, NodeData Undefined)
      | Some connectionInputData =>
          match rethrowLastNodeError s node with
          | Some e => (s, NodeThrows e)
          | None =>
              let inputData := handleExecuteOnce node inputData in
              let call := {| call_node := node; call_runIndex := runIndex; call_inputData := inputData;
                             call_connectionInputData := connectionInputData; call_response := response |} in
              if nt_execute nodeType || customOperation then enterCode s call
              else if nt_poll nodeType || nt_trigger nodeType then
                if manualMode then enterCode s call else (s, passThrough inputData)
              else if nt_supplyData nodeType then
                (s, NodeThrows (caught (ApplicationError
                  ("The node " +:+ quoted (node_type node) +:+ " has a " +:+ quoted "supplyData" +:+
                    " method but no " +:+ quoted "execute" +:+ " method."))))
              else if nt_webhook nodeType && negb (nt_requestDefaults nodeType) then (s, passThrough inputData)
              else enterCode s call
          end
      end
  end.

(** ** Tries *)

(** [Math.min(5, Math.max(2, node.maxTries || 3))] if the node is retried *)
Definition maxTries (node : INode) : nat :=
  if bool_decide (node_retryOnFail node = Some true) then
    let tries := match node_maxTries node with Some t => if bool_decide (t = 0)%Z then 3%Z else t | None => 3%Z end in
    Z.to_nat (Z.min 5 (Z.max 2 tries))
  else 1.

Definition collectResponses (executionData : IExecuteData) (runData : IRunData) (response : EngineResponse)
    : EngineResponse :=
  match exec_metadata executionData ≫= meta_subNodeExecutionData with
  | None => response
  | Some (actions, metadata) =>
      {| er_actionResponses := er_actionResponses response ++
           omap (λ subNode,
             runs ← obj_get (sub_nodeName subNode) runData;
             data ← runs !! sub_runIndex subNode;
             Some (sub_action subNode, data)) actions;
         er_metadata := metadata |}
  end.

(** The first item of the first output *)
Definition firstOutputItem (data : slot NodeOutputData) : option INodeExecutionData :=
  match data with
  | Val outputs => head (slotItems (arr_get 0 outputs))
  | _ => None
  end.

Definition nodeFailed (result : NodeResult) : bool :=
  match result with
  | NodeData data => bool_decide (is_Some (firstOutputItem data ≫= λ item, obj_get "error" (item_json item)))
  | _ => false
  end.

(** The inner [while] loop: the node is called again while its first item has an
    error and tries remain. *)
Fixpoint retryFailed (executionData : IExecuteData) (runIndex remaining : nat) (result : NodeResult)
    (s : EngineState) : EngineState * NodeResult * nat :=
  match remaining with
  | 0 => (s, result, 0)
  | S remaining' =>
      if nodeFailed result then
        let '(s, result) := runNode executionData runIndex None s in
        match result with
        | NodeThrows _ => (s, result, remaining)
        | _ => retryFailed executionData runIndex remaining' result s
        end
      else (s, result, remaining)
  end.

(** [pinData && !executionNode.disabled && pinData[executionNode.name]] *)
Definition pinnedItems (s : EngineState) (node : INode) : option (list INodeExecutionData) :=
  if is_disabled node then None else es_pinData s ≫= obj_get (node_name node).

(** The pinned items are the items of the output: changes to them stay. *)
Definition writePinned (pinned : bool) (node : INode) (data : slot NodeOutputData) (s : EngineState) : EngineState :=
  match pinned, data with
  | true, Val (Val items :: _) => set_pinData (obj_set (node_name node) items <$> es_pinData s) s
  | _, _ => s
  end.

Inductive TryEnd := TryBreak | TryContinueLoop.

Definition requestState (s : EngineState) : RequestState :=
  {| rs_workflow := es_workflow s; rs_stack := es_stack s; rs_runData := es_runData s |}.

Definition setRequestState (rs : RequestState) (s : EngineState) : EngineState :=
  set_workflow (rs_workflow rs) (set_stack (rs_stack rs) (set_runData (rs_runData rs) s)).

(** The request is carried out; if a requested node is unknown, what was prepared
    for the actions before it remains. *)
Definition engineRequest (executionData : IExecuteData) (runIndex : nat) (request : EngineRequest)
    (s : EngineState) : res (EngineState * (ExecutionError + TryEnd)) :=
  match handleEngineRequest (exec_node executionData) runIndex executionData request (requestState s) with
  | Ok rs => Ok (setRequestState rs s, inr TryContinueLoop)
  | Throw e =>
      let '(rs, _, _) := foldM_last (prepareRequestedNode (exec_node executionData) runIndex executionData)
        (requestState s, [], []) (request_actions request) in
      Ok (setRequestState rs s, inl (caught e))
  | OutOfFuel => OutOfFuel
  end.

(** The item that [alwaysOutputData] adds *)
Definition alwaysOutput (executionData : IExecuteData) (data : slot NodeOutputData) : res (slot NodeOutputData) :=
  match firstOutputItem data with
  | Some _ => Ok data
  | None =>
      if bool_decide (node_alwaysOutputData (exec_node executionData) = Some true) then
        inputs ← deref (mainInputs (exec_data executionData));
        let outputs := match data with Val outputs => outputs | _ => [] end in
        Ok (Val (arr_set 0 (Val [set_pairedItem (PairedMany (allInputPairs inputs)) empty_item]) outputs))
      else Ok data
  end.

(** The end of a try, from [assignPairedItems] on.  The second component is the
    value of [nodeSuccessData] when it ends or throws. *)
Definition finishTry (executionData : IExecuteData) (pinned : bool) (data : slot NodeOutputData)
    (s : EngineState) : res (EngineState * slot NodeOutputData * (ExecutionError + TryEnd)) :=
  match assignPairedItems data executionData with
  | OutOfFuel => OutOfFuel
  | Throw e => Ok (s, data, inl (caught e))
  | Ok data =>
      let s := writePinned pinned (exec_node executionData) data s in
      let s := match data with
               | Val _ => set_lastNodeExecuted (Some (node_name (exec_node executionData))) s
               | _ => s
               end in
      match alwaysOutput executionData data with
      | OutOfFuel => OutOfFuel
      | Throw e => Ok (s, data, inl (caught e))
      | Ok data =>
          Ok (s, data,
              inr (if bool_decide (data = Null ∧ es_waitTill s = None) then TryContinueLoop else TryBreak))
      end
  end.

(** The state of the [for] loop over the tries *)
Record TryVars := {
  tv_response : EngineResponse;
  tv_data : slot NodeOutputData;
  tv_remaining : nat;
}.

(** One try: pinned data, or a call of the node *)
Definition runTry (executionData : IExecuteData) (runIndex : nat) (v : TryVars) (s : EngineState)
    : res (EngineState * TryVars * (ExecutionError + TryEnd)) :=
  let node := exec_node executionData in
  let set_data data := {| tv_response := tv_response v; tv_data := data; tv_remaining := tv_remaining v |} in
  match pinnedItems s node with
  | Some items =>
      '(s, data, r) ← finishTry executionData true (Val [Val items]) s;
      Ok (s, set_data data, r)
  | None =>
      let response := collectResponses executionData (es_runData s) (tv_response v) in
      let '(s, result) := runNode executionData runIndex (Some response) s in
      let '(s, result, remaining) := retryFailed executionData runIndex (tv_remaining v) result s in
      let vars data := {| tv_response := response; tv_data := data; tv_remaining := remaining |} in
      match result with
      | NodeThrows e => Ok (s, vars (tv_data v), inl e)
      | NodeRequest request =>
          '(s, r) ← engineRequest executionData runIndex request s;
          Ok (s, vars (tv_data v), r)
      | NodeData data =>
          let data := convertBinaryData data in
          match (match data with
                 | Val outputs =>
                     if bool_decide (node_onError node = Some "continueErrorOutput")
                     then Val <$> handleNodeErrorOutput evaluateOutputs (getPairedItem (es_runData s))
                                    executionData outputs
                     else Ok data
                 | _ => Ok data
                 end) with
          | OutOfFuel => OutOfFuel
          | Throw e => Ok (s, vars data, inl (caught e))
          | Ok data =>
              '(s, data, r) ← finishTry executionData false data s;
              Ok (s, vars data, r)
          end
      end
  end.

(** The [for] loop over the tries; an error of the last one remains in
    [executionError]. *)
Fixpoint tryLoop (fuel : nat) (executionData : IExecuteData) (runIndex : nat) (v : TryVars) (s : EngineState)
    : res (EngineState * slot NodeOutputData * TryEnd) :=
  match fuel with
  | 0 => OutOfFuel
  | S fuel =>
      '(s, v, r) ← runTry executionData runIndex v (set_executionError None s);
      match r with
      | inr tryEnd => Ok (s, tv_data v, tryEnd)
      | inl e =>
          let s := set_executionError (Some e)
            (set_lastNodeExecuted (Some (node_name (exec_node executionData))) s) in
          match tv_remaining v with
          | 0 => Ok (s, tv_data v, TryBreak)
          | S remaining =>
              tryLoop fuel executionData runIndex
                {| tv_response := tv_response v; tv_data := tv_data v; tv_remaining := remaining |} s
          end
      end
  end.

(** All tries of a node.  Every try uses up at least one of [maxTries]. *)
Definition runTries (executionData : IExecuteData) (runIndex : nat) (s : EngineState)
    : res (EngineState * slot NodeOutputData * TryEnd) :=
  tryLoop (maxTries (exec_node executionData)) executionData runIndex
    {| tv_response := makeEngineResponse; tv_data := Null;
       tv_remaining := maxTries (exec_node executionData) - 1 |} s.

(** ** Recording the result *)

(** [Object.assign(current, taskData)]: properties the new task does not have stay. *)
Definition assignTask (current task : ITaskData) : ITaskData :=
  {| task_startTime := task_startTime task; task_executionIndex := task_executionIndex task;
     task_source := task_source task; task_executionTime := task_executionTime task;
     task_executionStatus := task_executionStatus task;
     task_data := match task_data task with Some d => Some d | None => task_data current end;
     task_inputOverride :=
       match task_inputOverride task with Some d => Some d | None => task_inputOverride current end;
     task_error := match task_error task with Some e => Some e | None => task_error current end;
     task_metadata := task_metadata task; task_rest := mergeObjects (task_rest current) (task_rest task) |}.

Definition recordTask (nodeName : string) (runIndex : nat) (task : ITaskData) (runData : IRunData) : IRunData :=
  let runs := default [] (obj_get nodeName runData) in
  obj_set nodeName
    (match runs !! runIndex with
     | Some current => <[runIndex := assignTask current task]> runs
     | None => runs ++ [task]
     end) runData.

(** The input override of an entry that a request has made, [{}] otherwise *)
Definition existingOverride (nodeName : string) (runIndex : nat) (runData : IRunData) : ITaskDataConnections :=
  default [] (runs ← obj_get nodeName runData; task ← runs !! runIndex; task_inputOverride task).

Definition set_task_data (data : ITaskDataConnections) (inputOverride : option ITaskDataConnections)
    (task : ITaskData) : ITaskData :=
  {| task_startTime := task_startTime task; task_executionIndex := task_executionIndex task;
     task_source := task_source task; task_executionTime := task_executionTime task;
     task_executionStatus := task_executionStatus task; task_data := Some data;
     task_inputOverride := inputOverride; task_error := task_error task;
     task_metadata := task_metadata task; task_rest := task_rest task |}.

(** [node.rewireOutputLogTo] in a boolean context *)
Definition rewiredTo (node : INode) : option NodeConnectionType :=
  match node_rewireOutputLogTo node with
  | Some type => if bool_decide (type = "") then None else Some type
  | None => None
  end.

Definition continuesOnFail (node : INode) : bool :=
  bool_decide (node_continueOnFail node = Some true ∨ node_onError node = Some "continueRegularOutput" ∨
    node_onError node = Some "continueErrorOutput").

(** ** Scheduling the nodes that follow *)

(** One connection out of the node, with its output index *)
Definition outgoing (w : Workflow) (nodeName : string) : list (nat * IConnection) :=
  mjoin (imap (λ outputIndex conns, (λ c, (outputIndex, c)) <$> default [] conns)
    (default [] (mainConnections (connectionsBySourceNode w) nodeName))).

(** The data of the output makes the connected node run. *)
Definition outputRuns (w : Workflow) (outputs : NodeOutputData) (oc : nat * IConnection) : bool :=
  match arr_get oc.1 outputs with
  | Val items => bool_decide (length items ≠ 0) || (bool_decide (0 < conn_index oc.2) && isLegacyExecutionOrder w)
  | _ => false
  end.

Definition positionOf (w : Workflow) (c : IConnection) : spec_float * spec_float :=
  from_option node_position (S754_zero false, S754_zero false) (getNode w (conn_node c)).

(** The comparison of the version 1 order: lower nodes, then nodes further right,
    come first, as each is put in front of the stack. *)
Definition comparePositions (a b : spec_float * spec_float) : Z :=
  if SFltb a.2 b.2 then 1 else if SFltb b.2 a.2 then -1 else if SFltb b.1 a.1 then -1 else 0.

Definition scheduleChild (nodeName : string) (runIndex : nat) (outputs : NodeOutputData) (s : EngineState)
    (oc : nat * IConnection) : res EngineState :=
  stack ← addNodeToBeExecuted (es_workflow s) (es_runData s) nodeName oc.1 runIndex (Val outputs) oc.2
    None None (es_stack s);
  Ok (set_stack stack s).

(** In the version 1 order all connections are checked before the nodes are added;
    in the legacy order each is added when it is met. *)
Definition scheduleChildren (nodeName : string) (runIndex : nat) (outputs : NodeOutputData) (s : EngineState)
    : res EngineState :=
  let w := es_workflow s in
  let checked s (oc : nat * IConnection) : res EngineState :=
    if obj_has (conn_node oc.2) (workflow_nodes w) then Ok s
    else Throw (ApplicationError "Destination node not found") in
  if isLegacyExecutionOrder w then
    foldM (λ s oc,
      s ← checked s oc;
      if outputRuns w outputs oc then scheduleChild nodeName runIndex outputs s oc else Ok s)
      s (outgoing w nodeName)
  else
    s ← foldM checked s (outgoing w nodeName);
    let nodesToAdd := filter (λ oc, outputRuns w outputs oc = true) (outgoing w nodeName) in
    foldM (scheduleChild nodeName runIndex outputs) s
      (array_sort (λ a b, comparePositions (positionOf w a.2) (positionOf w b.2)) nodesToAdd).

(** ** Nodes that wait when the stack is empty *)

(** [parseInt(Object.keys(entries).sort()[0])] *)
Definition firstRunIndex {A} (entries : idxobj A) : option nat :=
  head (array_sort (λ a b, compareStrings (pretty a) (pretty b)) entries.*1).

Definition requiredInputsOf (w : Workflow) (checkNode : INode) (nodeType : INodeType) : option RequiredInputs :=
  if isLegacyExecutionOrder w then None else
  match nt_requiredInputs nodeType with
  | Some (RequiredExpression expression) => evaluateRequiredInputs checkNode expression
  | r => r
  end.

(** All inputs are required, but an entry that waits misses one. *)
Definition allRequired (r : option RequiredInputs) (inputs : nat) : bool :=
  match r with
  | Some (RequiredIndexes l) => bool_decide (length l = inputs)
  | Some (RequiredCount n) => bool_decide (n = inputs)
  | _ => false
  end.

Definition enoughInputs (r : option RequiredInputs) (slots : list (slot (list INodeExecutionData))) : bool :=
  let inputsWithData := mjoin (imap (λ index data, match data with Null => [] | _ => [index] end) slots) in
  match r with
  | Some (RequiredIndexes l) => forallb (λ i, bool_decide (i ∈ inputsWithData)) l
  | Some (RequiredCount n) => negb (bool_decide (length inputsWithData < n))
  | _ => true
  end.

(** [null] inputs become empty ones; reading [length] of [undefined] throws. *)
Definition fillInputs (slots : list (slot (list INodeExecutionData))) : res (list (slot (list INodeExecutionData))) :=
  mapM_res (λ s, match s with Null => Ok (Val []) | Val l => Ok (Val l) | Undefined => Throw TypeError end) slots.

Definition hasItems (slots : list (slot (list INodeExecutionData))) : bool :=
  existsb (λ s, bool_decide (length (slotItems s) ≠ 0)) slots.

(** Whether the node can run on its first entry: [Some] of the entry's index and inputs *)
Definition waitingReady (s : EngineState) (waitingNodes : list string) (nodeName : string)
    : res (option (INode * INodeType * nat * list (slot (list INodeExecutionData)))) :=
  let w := es_workflow s in
  match getNode w nodeName with
  | None => Ok None
  | Some checkNode =>
      nodeType ← deref (nodeTypeOf checkNode);
      let requiredInputs := requiredInputsOf w checkNode nodeType in
      if allRequired requiredInputs (nt_inputs nodeType) then Ok None else
      parentNodes ← workflowParentNodes w nodeName (OfType NodeConnectionTypes.Main) (-1);
      if existsb (λ value, bool_decide (value ∈ waitingNodes)) parentNodes then Ok None else
      entries ← deref (obj_get nodeName (waitingExecution (es_stack s)));
      index ← deref (firstRunIndex entries);
      slots ← waitingMain (waitingExecution (es_stack s)) nodeName index;
      if enoughInputs requiredInputs slots then
        taskDataMain ← fillInputs slots;
        Ok (Some (checkNode, nodeType, index, taskDataMain))
      else Ok None
  end.

Fixpoint firstReady (s : EngineState) (waitingNodes rest : list string)
    : res (option (string * INode * INodeType * nat * list (slot (list INodeExecutionData)))) :=
  match rest with
  | [] => Ok None
  | nodeName :: rest =>
      ready ← waitingReady s waitingNodes nodeName;
      match ready with
      | Some (node, nodeType, index, taskDataMain) => Ok (Some (nodeName, node, nodeType, index, taskDataMain))
      | None => firstReady s waitingNodes rest
      end
  end.

(** Removes the entry; the node is put on the stack if an input has items. *)
Definition releaseWaiting (s : EngineState) (nodeName : string) (node : INode) (nodeType : INodeType)
    (index : nat) (taskDataMain : list (slot (list INodeExecutionData))) : res EngineState :=
  let st := es_stack s in
  sources ← deref (obj_get nodeName (waitingExecutionSource st));
  let padded := taskDataMain ++ replicate (nt_inputs nodeType - length taskDataMain) (Val []) in
  let stack :=
    if hasItems taskDataMain then
      nodeExecutionStack st ++
        [{| exec_data := [(NodeConnectionTypes.Main, padded)]; exec_metadata := None; exec_node := node;
            exec_source := map_get index sources; exec_runIndex := None |}]
    else nodeExecutionStack st in
  Ok (set_stack
    (removeEntry nodeName index
      {| nodeExecutionStack := stack; waitingExecution := waitingExecution st;
         waitingExecutionSource := waitingExecutionSource st |}) s).

(** The [for] loop, which starts again after it removed an entry without items. *)
Fixpoint releaseLoop (fuel : nat) (s : EngineState) : res EngineState :=
  match fuel with
  | 0 => OutOfFuel
  | S fuel =>
      let waitingNodes := (waitingExecution (es_stack s)).*1 in
      ready ← firstReady s waitingNodes waitingNodes;
      match ready with
      | None => Ok s
      | Some (nodeName, node, nodeType, index, taskDataMain) =>
          s ← releaseWaiting s nodeName node nodeType index taskDataMain;
          if hasItems taskDataMain then Ok s else releaseLoop fuel s
      end
  end.

(** The number of waiting entries bounds the number of rounds. *)
Definition waitingCount (st : RecreatedStack) : nat := sum_list (length <$> (waitingExecution st).*2).

Definition releaseWaitingNodes (s : EngineState) : res EngineState :=
  if bool_decide (nodeExecutionStack (es_stack s) = [] ∧ waitingExecution (es_stack s) ≠ [])
  then releaseLoop (S (waitingCount (es_stack s))) s
  else Ok s.

(** ** One iteration *)

(** [true] if the node has the data it needs; otherwise the entry goes back to the
    end of the stack. *)
Fixpoint ensureInputsFrom (w : Workflow) (executionData : IExecuteData) (connectionIndex count : nat)
    : res bool :=
  match count with
  | 0 => Ok true
  | S count =>
      highestNodes ← getHighestNode w (node_name (exec_node executionData)) (Some connectionIndex);
      if bool_decide (highestNodes = []) then Ok true else
      match mainInputs (exec_data executionData) with
      | None => Ok false
      | Some inputs =>
          if isLegacyExecutionOrder w &&
             (bool_decide (length inputs < connectionIndex) || bool_decide (arr_get connectionIndex inputs = Null))
          then Ok false
          else ensureInputsFrom w executionData (S connectionIndex) count
      end
  end.

Definition ensureInputData (w : Workflow) (executionData : IExecuteData) (st : RecreatedStack)
    : res (bool * RecreatedStack) :=
  let inputConnections :=
    default [] (mainConnections (connectionsByDestinationNode w) (node_name (exec_node executionData))) in
  ready ← ensureInputsFrom w executionData 0 (length inputConnections);
  Ok (ready,
      if ready : bool then st else
      {| nodeExecutionStack := nodeExecutionStack st ++ [executionData];
         waitingExecution := waitingExecution st; waitingExecutionSource := waitingExecutionSource st |}).

(** How an iteration ends: the loop goes on, is left, or an exception leaves it. *)
Inductive StepResult :=
  | StepContinue (s : EngineState)
  | StepBreak (s : EngineState)
  | StepReturn (s : EngineState)
  | StepThrow (e : jserror) (s : EngineState)
  | StepOutOfFuel.

(** An operation outside of the [try] *)
Definition performing {A} (s : EngineState) (m : res A) (k : A → StepResult) : StepResult :=
  match m with
  | Ok a => k a
  | Throw e => StepThrow e s
  | OutOfFuel => StepOutOfFuel
  end.

Definition checkTimeout (s : EngineState) : EngineState :=
  match executionTimeoutTimestamp with
  | None => s
  | Some timeout =>
      let '(t, s) := readClock s in
      if bool_decide (timeout ≤ t)%Z then set_timedOut true (set_status Canceled s) else s
  end.

Definition pushFront (entry : IExecuteData) (s : EngineState) : EngineState :=
  set_stack {| nodeExecutionStack := entry :: nodeExecutionStack (es_stack s);
               waitingExecution := waitingExecution (es_stack s);
               waitingExecutionSource := waitingExecutionSource (es_stack s) |} s.

(** The index of the current run *)
Definition currentRunIndex (runData : IRunData) (executionData : IExecuteData) : nat :=
  match exec_runIndex executionData with
  | Some runIndex => runIndex
  | None => length (default [] (obj_get (node_name (exec_node executionData)) runData))
  end.

(** [taskData] before data and error are added *)
Definition startedTask (executionData : IExecuteData) (startTime executionIndex time : Z) (s : EngineState)
    : ITaskData :=
  {| task_startTime := startTime; task_executionIndex := Some executionIndex;
     task_source := from_option (λ source, default [] (obj_get NodeConnectionTypes.Main source)) []
                      (exec_source executionData);
     task_executionTime := time - startTime;
     task_executionStatus := Some (match es_waitTill s with Some _ => "waiting" | None => "success" end);
     task_data := None; task_inputOverride := None; task_error := None;
     task_metadata := exec_metadata executionData; task_rest := [] |}.

Definition failedTask (e : ExecutionError) (task : ITaskData) : ITaskData :=
  {| task_startTime := task_startTime task; task_executionIndex := task_executionIndex task;
     task_source := task_source task; task_executionTime := task_executionTime task;
     task_executionStatus := Some "error"; task_data := task_data task;
     task_inputOverride := task_inputOverride task; task_error := Some e;
     task_metadata := task_metadata task; task_rest := task_rest task |}.

(** The data of a node: under [main], or under the type its log is rewired to *)
Definition withOutputs (node : INode) (runIndex : nat) (outputs : NodeOutputData) (runData : IRunData)
    (task : ITaskData) : ITaskData :=
  match rewiredTo node with
  | Some type => set_task_data [(type, outputs)]
                   (Some (existingOverride (node_name node) runIndex runData)) task
  | None => set_task_data [(NodeConnectionTypes.Main, outputs)] None task
  end.

(** The node succeeded, or failed and continues. *)
Definition completeNode (executionData : IExecuteData) (runIndex : nat) (task : ITaskData)
    (data : slot NodeOutputData) (s : EngineState) : StepResult :=
  let node := exec_node executionData in
  let name := node_name node in
  performing s (mergeErrors data) (λ outputs,
  let pinned := bool_decide (es_executionError s = None) &&
                match pinnedItems s node with Some (_ :: _) => true | _ => false end in
  let s := writePinned pinned node (Val outputs) s in
  let task := withOutputs node runIndex outputs (es_runData s) task in
  let s := set_runData (recordTask name runIndex task (es_runData s)) s in
  match es_waitTill s with
  | Some _ => StepBreak (pushFront executionData (runHook (nodeExecuteAfter name task) s))
  | None =>
      if bool_decide (dest_nodeName <$> sd_destinationNode startData = Some name)
      then StepContinue (runHook (nodeExecuteAfter name task) s) else
      performing s (scheduleChildren name runIndex outputs s) (λ s,
      let s := runHook (nodeExecuteAfter name task) s in
      performing s (releaseWaitingNodes s) StepContinue)
  end).

(** The node failed and the execution stops: the entry can be restarted. *)
Definition stopNode (executionData : IExecuteData) (runIndex : nat) (e : ExecutionError) (task : ITaskData)
    (s : EngineState) : StepResult :=
  let node := exec_node executionData in
  let name := node_name node in
  let task :=
    match rewiredTo node with
    | Some type =>
        set_task_data
          [(type, [Val [{| item_json := [("error", JStr (err_message e))]; item_error := None;
                           item_pairedItem := None; item_rest := [] |}]])]
          (Some (existingOverride name runIndex (es_runData s))) task
    | None => task
    end in
  let s := pushFront executionData (set_runData (recordTask name runIndex task (es_runData s)) s) in
  StepBreak (if bool_decide (es_status s = Canceled) then s else runHook (nodeExecuteAfter name task) s).

(** What a node that continues although it failed passes on: its first input *)
Definition passedOn (executionData : IExecuteData) (data : slot NodeOutputData) : slot NodeOutputData :=
  match mainInputs (exec_data executionData) with
  | Some (Null :: _) | Some [] | None => data
  | Some (input :: _) => Val [input]
  end.

(** From the end of the tries on *)
Definition recordNode (executionData : IExecuteData) (runIndex : nat) (startTime executionIndex : Z)
    (data : slot NodeOutputData) (s : EngineState) : StepResult :=
  let node := exec_node executionData in
  let name := node_name node in
  let s := set_runData (if obj_has name (es_runData s) then es_runData s
                        else obj_set name [] (es_runData s)) s in
  let '(time, s) := readClock s in
  let task := startedTask executionData startTime executionIndex time s in
  match es_executionError s with
  | None => completeNode executionData runIndex task data s
  | Some e =>
      let task := failedTask e task in
      let s := runHook (sendChunk name (err_description e)) s in
      if continuesOnFail node
      then completeNode executionData runIndex task (passedOn executionData data) s
      else stopNode executionData runIndex e task s
  end.

Definition skippedByFilter (name : string) : bool :=
  match sd_runNodeFilter startData with
  | Some names => negb (bool_decide (name ∈ names))
  | None => false
  end.

Definition executionTry (name : string) (runIndex : nat) : string := name +:+ ":" +:+ pretty runIndex.

(** The iteration for an entry that was taken from the stack *)
Definition executeEntry (entry : IExecuteData) (s : EngineState) : StepResult :=
  let node := exec_node entry in
  let name := node_name node in
  let '(startTime, s) := readClock s in
  let executionIndex := es_executionIndex s in
  let s := set_executionIndex (executionIndex + 1) s in
  if negb (mappable (exec_data entry)) then StepThrow TypeError s else
  let executionData :=
    {| exec_data := updatePairedItems (exec_metadata entry) (exec_data entry);
       exec_metadata := exec_metadata entry; exec_node := node; exec_source := exec_source entry;
       exec_runIndex := exec_runIndex entry |} in
  let runIndex := currentRunIndex (es_runData s) executionData in
  if bool_decide (executionTry name runIndex = es_lastExecutionTry s)
  then StepThrow (ApplicationError "Stopped execution because it seems to be in an endless loop") s else
  if skippedByFilter name then StepContinue s else
  performing s (ensureInputData (es_workflow s) executionData (es_stack s)) (λ '(ready, stack),
  let s := set_stack stack s in
  if negb ready then StepContinue (set_lastExecutionTry (executionTry name runIndex) s) else
  let resumed := default false (exec_metadata executionData ≫= meta_nodeWasResumed) in
  let s := if resumed then s else runHook (nodeExecuteBefore name) s in
  performing s (runTries executionData runIndex s) (λ '(s, data, tryEnd),
  match tryEnd with
  | TryContinueLoop => StepContinue s
  | TryBreak => recordNode executionData runIndex startTime executionIndex data s
  end)).

Definition iteration (s : EngineState) : StepResult :=
  match nodeExecutionStack (es_stack s) with
  | [] => StepBreak s
  | entry :: rest =>
      let s := checkTimeout s in
      if bool_decide (es_status s = Canceled) then StepReturn s else
      executeEntry entry
        (set_executionError None
          (set_stack {| nodeExecutionStack := rest; waitingExecution := waitingExecution (es_stack s);
                        waitingExecutionSource := waitingExecutionSource (es_stack s) |} s))
  end.

(** The loop, for at most [fuel] iterations: a workflow can loop forever. *)
Fixpoint executionLoop (fuel : nat) (s : EngineState) : option IRun :=
  match fuel with
  | 0 => None
  | S fuel =>
      match iteration s with
      | StepContinue s => executionLoop fuel s
      | StepBreak s | StepReturn s => Some (finishExecution s)
      | StepThrow e s => Some (failExecution (caught e) s)
      | StepOutOfFuel => None
      end
  end.

Definition setupExecution (s : EngineState) : EngineState := set_status Running s.

(** The whole method: [Throw] if it throws before there is a promise, [Ok None] if
    [fuel] iterations were not enough.  The hooks that run before the loop, and the
    execution context they set up, are left out. *)
Definition processRunExecutionData {Issues : Type} (typeUnknown : Issues)
    (getNodeParametersIssues : INodeType → INode → list string → res (option Issues)) (fuel : nat) (s : EngineState)
    : res (option IRun) :=
  let s := setupExecution s in
  _ ← checkForWorkflowIssues typeUnknown getNodeParametersIssues startData s;
  s ← handleWaitingState s;
  Ok (executionLoop fuel (set_lastExecutionTry "" (set_executionError None s))).

(** The steps of a running execution: iterations, and cancellation between them. *)
Inductive step : EngineState → EngineState → Prop :=
  | step_iteration s s' : nodeExecutionStack (es_stack s) ≠ [] → iteration s = StepContinue s' → step s s'
  | step_cancel s : step s (onCancel s).
End engine.
