(* ===== verification/EngineFixtures.v ===== *)
(** * Executions for the examples

    A concrete instance of the interfaces of the engine: one node type that executes,
    nodes whose outcomes are listed call by call, a clock that always shows zero. *)

From S2P Require Import Prelude JsCollections NodeTypes DirectedGraph Fixtures RunData.
From S2P Require Import ExecutionStack Connections Workflow Trigger Waiting Items Requests.
From S2P Require Import EngineState Lifecycle Engine.

Definition executeTypes : INodeTypes := λ name _, Some
  {| nt_name := name; nt_group := []; nt_inputs := 1; nt_outputs := Some [OutputType "main"];
     nt_requiredInputs := None; nt_execute := true; nt_poll := false; nt_trigger := false;
     nt_webhook := false; nt_supplyData := false; nt_requestDefaults := false;
     nt_customOperations := None |}.

(** The outcomes of the calls, in order; the last one is repeated. *)
Definition scripted (results : list NodeResult) : NodeRunner := λ n _,
  {| out_result := default (NodeData Null) (match results !! n with Some r => Some r | None => last results end);
     out_waitTill := None; out_metadata := None |}.

Definition plainError (msg : string) : ExecutionError :=
  {| err_name := "NodeOperationError"; err_message := msg; err_description := None; err_rest := [] |}.

Definition errorItem (msg : string) : INodeExecutionData :=
  {| item_json := [("error", JStr msg)]; item_error := None; item_pairedItem := None; item_rest := [] |}.

(** A node with the settings for retries and errors *)
Definition settingsNode (ref : nat) (name : string) (retry : option bool) (tries : option Z)
    (onError : option string) : INode :=
  {| node_ref := ref; node_id := name; node_name := name; node_typeVersion := S754_zero false;
     node_type := "n8n-nodes-base.code"; node_position := (S754_zero false, S754_zero false);
     node_disabled := None; node_retryOnFail := retry; node_maxTries := tries;
     node_waitBetweenTries := None; node_alwaysOutputData := None; node_executeOnce := None;
     node_onError := onError; node_continueOnFail := None; node_parameters := [];
     node_rewireOutputLogTo := None; node_rest := [] |}.

(** A chain of nodes, each connected to the next *)
Fixpoint chainOf (ns : list INode) : IConnections :=
  match ns with
  | a :: ((b :: _) as rest) =>
      (node_name a, [("main", [Some [{| conn_node := node_name b; conn_type := "main"; conn_index := 0 |}]])])
      :: chainOf rest
  | _ => []
  end.

Definition v1 (w : Workflow) : Workflow :=
  {| workflow_id := workflow_id w; workflow_nodes := workflow_nodes w;
     connectionsBySourceNode := connectionsBySourceNode w;
     connectionsByDestinationNode := connectionsByDestinationNode w;
     workflow_pinData := workflow_pinData w; settings_executionOrder := Some "v1";
     workflow_settings := workflow_settings w |}.

Definition chainWorkflow (ns : list INode) : Workflow :=
  v1 (setConnections (chainOf ns) (setNodes ns (emptyWorkflow "chain"))).

Definition entryFor (node : INode) (items : list INodeExecutionData) : IExecuteData :=
  {| exec_data := [("main", [Val items])]; exec_metadata := None; exec_node := node; exec_source := None;
     exec_runIndex := None |}.

(** An execution of the workflow that starts with the entry *)
Definition startWith (w : Workflow) (entry : IExecuteData) : EngineState :=
  {| es_workflow := w;
     es_stack := {| nodeExecutionStack := [entry]; waitingExecution := []; waitingExecutionSource := [] |};
     es_runData := []; es_pinData := None; es_lastNodeExecuted := None; es_resultError := None;
     es_metadata := []; es_waitTill := None; es_status := Running; es_timedOut := false;
     es_executionIndex := 0; es_lastExecutionTry := ""; es_executionError := None; es_calls := 0;
     es_ticks := 0; es_hooks := [] |}.

Definition noOutputs : INode → res (list NodeOutput) := λ _, Ok [].
Definition noRequiredInputs : INode → string → option RequiredInputs := λ _ _, None.
Definition noPairedItem : IRunData → string → ISourceData → IPairedItemData → res (option INodeExecutionData) :=
  λ _ _ _ _, Ok None.

Definition sampleIteration (results : list NodeResult) (s : EngineState) : StepResult :=
  @iteration executeTypes (scripted results) emptyStartData false None (λ _, 0%Z) noOutputs noRequiredInputs
    (λ data, data) noPairedItem s.

Definition sampleLoop (results : list NodeResult) (fuel : nat) (s : EngineState) : option IRun :=
  @executionLoop executeTypes (scripted results) emptyStartData false None (λ _, 0%Z) noOutputs noRequiredInputs
    (λ data, data) noPairedItem fuel s.

(** The node is retried at most once. *)
Definition retryNode : INode := settingsNode 10 "R" (Some true) (Some 2%Z) None.
