(* ===== verification/Termination.v ===== *)
(** * Termination of an iteration

    Every iteration of the execution loop ends, whatever the workflow, the run data
    and the outcome of the node calls: the fuel of the graph searches, of the retry
    loop and of the release of waiting nodes is always enough. *)

From S2P Require Import Prelude JsCollections NodeTypes DirectedGraph Fixtures RunData.
From S2P Require Import ExecutionStack Connections Workflow WorkflowSearch Trigger Waiting Items Requests.
From S2P Require Import EngineState Lifecycle Engine EngineFixtures.

Lemma returns_workflowParentNodes w name sel : returns (workflowParentNodes w name sel (-1)).
Proof.
  apply returns_is_ok. unfold workflowParentNodes, getParentNodes.
  destruct (getConnectedNodes_spec (connectionsByDestinationNode w) sel name (-1)) as (r & Hr & _); [lia|].
  by exists r.
Qed.
#[export] Hint Resolve returns_workflowParentNodes : n8n.

Lemma returns_getHighestNode w name index : returns (getHighestNode w name index).
Proof.
  destruct (getNode w name) as [node|] eqn:E.
  - apply returns_is_ok. destruct (getHighestNode_spec w name index) as (r & Hr & _); [eauto|]. by exists r.
  - unfold getHighestNode. simpl. rewrite E. done.
Qed.
#[export] Hint Resolve returns_getHighestNode : n8n.

Lemma returns_incomingConnectionIsEmpty runData conns i : returns (incomingConnectionIsEmpty runData conns i).
Proof. induction conns as [|c conns IH]; simpl; solve_returns. Qed.
#[export] Hint Resolve returns_incomingConnectionIsEmpty : n8n.

Lemma returns_waitingMain {A} waiting node index : returns (@waitingMain A waiting node index).
Proof. unfold waitingMain. solve_returns. Qed.
#[export] Hint Resolve returns_waitingMain : n8n.

Lemma returns_outputAt data i : returns (outputAt data i).
Proof. unfold outputAt. solve_returns. Qed.
#[export] Hint Resolve returns_outputAt : n8n.

Lemma returns_firstMainInput w name : returns (firstMainInput w name).
Proof. unfold firstMainInput. solve_returns. Qed.
#[export] Hint Resolve returns_firstMainInput : n8n.

Lemma returns_forceInput w runData parent out run data outs st c :
  returns (forceInput w runData parent out run data outs st c).
Proof. unfold forceInput. solve_returns. Qed.
#[export] Hint Resolve returns_forceInput : n8n.

Lemma returns_findWaitingEntry input entries : returns (findWaitingEntry input entries).
Proof. induction entries as [|[i e] entries IH]; simpl; solve_returns. Qed.
#[export] Hint Resolve returns_findWaitingEntry : n8n.

Lemma returns_addNodeToBeExecuted w runData parent out run data c newRun meta st :
  returns (addNodeToBeExecuted w runData parent out run data c newRun meta st).
Proof.
  unfold addNodeToBeExecuted, chooseWaitingEntry, fillWaitingEntry, releaseWaitingEntry, forceInputs,
    keepWaitingEntry.
  solve_returns.
Qed.
#[export] Hint Resolve returns_addNodeToBeExecuted : n8n.

Lemma returns_prepareRequestedNode cur run ex s a : returns (prepareRequestedNode cur run ex s a).
Proof. unfold prepareRequestedNode. destruct s as [[rs tools] subs]. simpl. solve_returns. Qed.
#[export] Hint Resolve returns_prepareRequestedNode : n8n.

Lemma returns_handleEngineRequest cur run ex request rs : returns (handleEngineRequest cur run ex request rs).
Proof. unfold handleEngineRequest, handleRequest, prepareRequestedNodesForExecution. solve_returns. Qed.
#[export] Hint Resolve returns_handleEngineRequest : n8n.

Lemma returns_pairOutputs rule outputs : returns (pairOutputs rule outputs).
Proof. induction outputs as [|[| |items] outputs IH]; simpl; solve_returns. Qed.
#[export] Hint Resolve returns_pairOutputs : n8n.

Lemma returns_assignPairedItems data ex : returns (assignPairedItems data ex).
Proof. unfold assignPairedItems, pairingRule. solve_returns. Qed.
#[export] Hint Resolve returns_assignPairedItems : n8n.

Lemma returns_alwaysOutput ex data : returns (alwaysOutput ex data).
Proof. unfold alwaysOutput. solve_returns. Qed.
#[export] Hint Resolve returns_alwaysOutput : n8n.

Lemma returns_mergeErrors data : returns (mergeErrors data).
Proof. unfold mergeErrors, mergeItemError. solve_returns. Qed.
#[export] Hint Resolve returns_mergeErrors : n8n.

Lemma returns_ensureInputData w ex st : returns (ensureInputData w ex st).
Proof.
  unfold ensureInputData. apply returns_bind; [|solve_returns]. generalize 0.
  induction (length _) as [|count IH]; intros i; simpl; solve_returns.
Qed.
#[export] Hint Resolve returns_ensureInputData : n8n.

Lemma returns_scheduleChild name run outputs s oc : returns (scheduleChild name run outputs s oc).
Proof. unfold scheduleChild. solve_returns. Qed.
#[export] Hint Resolve returns_scheduleChild : n8n.

Lemma returns_scheduleChildren name run outputs s : returns (scheduleChildren name run outputs s).
Proof. unfold scheduleChildren. solve_returns. Qed.
#[export] Hint Resolve returns_scheduleChildren : n8n.

(** ** Releasing waiting nodes *)

Lemma map_replace_sum {V} (f : V → nat) k v (o : jsobj V) old :
  map_get k o = Some old →
  sum_list (f <$> (map_replace k v o).*2) + f old = sum_list (f <$> o.*2) + f v.
Proof.
  induction o as [|[k' v'] o IH]; simpl; [done|].
  case_bools; csimpl; intros Hget; simplify_eq; [lia|].
  specialize (IH Hget). lia.
Qed.

Lemma obj_delete_sum {V} (f : V → nat) k (o : jsobj V) :
  sum_list (f <$> (obj_delete k o).*2) ≤ sum_list (f <$> o.*2).
Proof.
  unfold obj_delete, map_delete. induction o as [|[k' v'] o IH]; [done|].
  rewrite filter_cons. case_decide; csimpl in *; lia.
Qed.

Lemma map_delete_shorter {V} i (o : idxobj V) : is_Some (map_get i o) → length (map_delete i o) < length o.
Proof.
  unfold map_delete. induction o as [|[j v] o IH]; simpl; [by intros []|]. rewrite filter_cons.
  pose proof (length_filter (λ kv, kv.1 ≠ i) o).
  case_bools; case_decide; simpl in *; try done; intros Hget; [lia|]. specialize (IH Hget). lia.
Qed.

Lemma removeWaiting_count {A} (waiting : jsobj (idxobj A)) node index entries :
  obj_get node waiting = Some entries → is_Some (map_get index entries) →
  sum_list (length <$> (removeWaiting waiting node index).*2) < sum_list (length <$> waiting.*2).
Proof.
  intros Hnode Hindex. unfold removeWaiting. rewrite Hnode; simpl. unfold obj_set, obj_get in *.
  assert (map_has node waiting = true) as -> by (apply map_has_get; eauto).
  pose proof (map_replace_sum length node (map_delete index entries) waiting entries Hnode).
  pose proof (map_delete_shorter index entries Hindex). lia.
Qed.

Section release.
Context `{INodeTypes}.
Context (evaluateRequiredInputs : INode → string → option RequiredInputs).

Lemma returns_waitingReady s waitingNodes name : returns (waitingReady evaluateRequiredInputs s waitingNodes name).
Proof. unfold waitingReady, fillInputs. solve_returns. Qed.

Lemma returns_firstReady s waitingNodes rest : returns (firstReady evaluateRequiredInputs s waitingNodes rest).
Proof.
  induction rest as [|name rest IH]; simpl; [done|].
  apply returns_bind; [apply returns_waitingReady|]. solve_returns.
Qed.

(** The entry of a node that is ready exists. *)
Lemma waitingReady_entry s waitingNodes name r :
  waitingReady evaluateRequiredInputs s waitingNodes name = Ok (Some r) →
  ∃ entries, obj_get name (waitingExecution (es_stack s)) = Some entries ∧ is_Some (map_get r.1.2 entries).
Proof.
  unfold waitingReady, mbind, res_bind. intros Hr. repeat (case_match; simplify_eq). simpl.
  match goal with E : deref (obj_get name _) = Ok ?l |- _ => exists l; apply deref_Ok in E end.
  split; [done|]. match goal with E : waitingMain _ _ _ = Ok _ |- _ => unfold waitingMain in E; res_simpl end.
  repeat match goal with E : deref _ = Ok _ |- _ => apply deref_Ok in E end. simplify_eq.
  by destruct (map_get _ _).
Qed.

Lemma firstReady_entry s waitingNodes rest name node nodeType index slots :
  firstReady evaluateRequiredInputs s waitingNodes rest = Ok (Some (name, node, nodeType, index, slots)) →
  ∃ entries, obj_get name (waitingExecution (es_stack s)) = Some entries ∧ is_Some (map_get index entries).
Proof.
  induction rest as [|name' rest IH]; simpl; [done|]. unfold mbind, res_bind. intros Hr.
  destruct (waitingReady _ _ _ _) as [[r|]| |] eqn:E; try done; [|auto].
  apply waitingReady_entry in E. destruct r as [[[? ?] ?] ?]. by simplify_eq.
Qed.

Lemma releaseWaiting_count s name node nodeType index slots s' entries :
  obj_get name (waitingExecution (es_stack s)) = Some entries → is_Some (map_get index entries) →
  releaseWaiting s name node nodeType index slots = Ok s' →
  waitingCount (es_stack s') < waitingCount (es_stack s).
Proof.
  intros Hn Hi Hr. unfold releaseWaiting in Hr. res_simpl.
  pose proof (removeWaiting_count (waitingExecution (es_stack s)) name index entries Hn Hi).
  unfold waitingCount, removeEntry. simpl. case_bools; simpl; [|done].
  eapply Nat.le_lt_trans; [apply obj_delete_sum|done].
Qed.

Lemma returns_releaseLoop fuel s :
  waitingCount (es_stack s) < fuel → returns (releaseLoop evaluateRequiredInputs fuel s).
Proof.
  revert s. induction fuel as [|fuel IH]; intros s Hf; [lia|]. simpl.
  apply returns_bind; [apply returns_firstReady|].
  intros [[[[[name node] nodeType] index] slots]|] Hr; [|done].
  destruct (firstReady_entry _ _ _ _ _ _ _ _ Hr) as (entries & Hn & Hi).
  apply returns_bind; [unfold releaseWaiting; solve_returns|]. intros s' Hs'.
  pose proof (releaseWaiting_count _ _ _ _ _ _ _ _ Hn Hi Hs').
  destruct (hasItems slots); [done|]. apply IH. lia.
Qed.

Lemma returns_releaseWaitingNodes s : returns (releaseWaitingNodes evaluateRequiredInputs s).
Proof. unfold releaseWaitingNodes. case_bools; [|done]. apply returns_releaseLoop. lia. Qed.
End release.
#[export] Hint Resolve returns_releaseWaitingNodes : n8n.

(** ** Tries *)

Section tries.
Context `{INodeTypes} `{NodeRunner}.
Context (manualMode : bool) (evaluateOutputs : INode → res (list NodeOutput)).
Context (convertBinaryData : slot NodeOutputData → slot NodeOutputData).
Context (getPairedItem : IRunData → string → ISourceData → IPairedItemData → res (option INodeExecutionData)).
(** The lookup of a paired item returns. *)
Context (Hpaired : ∀ runData name source paired, returns (getPairedItem runData name source paired)).

Lemma returns_handleNodeErrorOutput runData ex outputs :
  returns (handleNodeErrorOutput evaluateOutputs (getPairedItem runData) ex outputs).
Proof.
  assert (∀ item, returns (errorItemFor (getPairedItem runData) ex item)) as Hitem.
  { intros item. unfold errorItemFor. solve_returns. }
  assert (∀ items, returns (splitItems (getPairedItem runData) ex items)) as Hitems.
  { induction items as [|item items IH]; simpl; solve_returns. }
  assert (∀ count i outs errs, returns (splitOutputs (getPairedItem runData) ex count i outs errs)) as Houts.
  { induction count as [|count IH]; intros; simpl; solve_returns. }
  unfold handleNodeErrorOutput. solve_returns.
Qed.

(** One run of a node enters the node's code at most once. *)
Lemma runNode_calls ex run response s :
  let s' := (runNode manualMode ex run response s).1 in es_calls s ≤ es_calls s' ≤ S (es_calls s).
Proof. unfold runNode, enterCode. simpl. repeat case_match; simpl; lia. Qed.

(** A retry that throws does not use up one of the remaining tries. *)
Lemma retryFailed_calls ex run remaining result s :
  let '(s', _, remaining') := retryFailed manualMode ex run remaining result s in
  es_calls s ≤ es_calls s' ∧ remaining' ≤ remaining ∧
  (es_calls s' + remaining' ≤ es_calls s + remaining ∨
   (1 ≤ remaining' ∧ es_calls s' + remaining' ≤ es_calls s + remaining + 1)).
Proof.
  revert result s. induction remaining as [|remaining IH]; intros result s; simpl; [lia|].
  destruct (nodeFailed result); [|lia].
  pose proof (runNode_calls ex run None s) as Hc. simpl in Hc.
  destruct (runNode manualMode ex run None s) as [s1 result1]; simpl in *.
  destruct result1 as [data|request|e]; [..|lia].
  - specialize (IH (NodeData data) s1). destruct (retryFailed _ _ _ _ _ _) as [[s' r'] k']. lia.
  - specialize (IH (NodeRequest request) s1). destruct (retryFailed _ _ _ _ _ _) as [[s' r'] k']. lia.
Qed.

Lemma finishTry_calls ex pinned data s :
  returns (finishTry ex pinned data s) ∧
  ∀ s' data' r, finishTry ex pinned data s = Ok (s', data', r) → es_calls s' = es_calls s.
Proof.
  unfold finishTry. pose proof (returns_assignPairedItems data ex).
  destruct (assignPairedItems data ex) as [data1| |]; [|by split; intros; simplify_eq|done].
  pose proof (returns_alwaysOutput ex data1). unfold writePinned.
  destruct (alwaysOutput ex data1); (split; [done|]); intros s' data' r Heq; simplify_eq;
    repeat case_match; done.
Qed.

Lemma engineRequest_calls ex run request s :
  returns (engineRequest ex run request s) ∧
  ∀ s' r, engineRequest ex run request s = Ok (s', r) → es_calls s' = es_calls s.
Proof.
  unfold engineRequest. pose proof (returns_handleEngineRequest (exec_node ex) run ex request (requestState s)).
  destruct (handleEngineRequest _ _ _ _ _); try done; (split; [repeat case_match; done|]);
    intros s' r Heq; repeat case_match; by simplify_eq.
Qed.

(** What a try uses up, if it ends the loop, and if another try follows *)
Definition triesUsed (s s' : EngineState) (k k' : nat) : Prop :=
  es_calls s ≤ es_calls s' ∧ k' ≤ k ∧
  (es_calls s' + k' ≤ es_calls s + k + 1 ∨ (1 ≤ k' ∧ es_calls s' + k' ≤ es_calls s + k + 2)).

Lemma runTry_calls ex run v s :
  let r := runTry manualMode evaluateOutputs convertBinaryData getPairedItem ex run v s in
  returns r ∧ ∀ s' v' e, r = Ok (s', v', e) → triesUsed s s' (tv_remaining v) (tv_remaining v').
Proof.
  unfold runTry, triesUsed. destruct (pinnedItems s (exec_node ex)) as [items|].
  { destruct (finishTry_calls ex true (Val [Val items]) s) as [Hret Hcalls].
    split; [solve_returns|]. intros s' v' e Heq. res_simpl.
    destruct a as [[s1 data1] r1]. simplify_eq. rewrite (Hcalls _ _ _ eq_refl). simpl. lia. }
  set (response := collectResponses ex (es_runData s) (tv_response v)).
  pose proof (runNode_calls ex run (Some response) s) as Hc. simpl in Hc.
  destruct (runNode manualMode ex run (Some response) s) as [s1 result1]; simpl in Hc.
  pose proof (retryFailed_calls ex run (tv_remaining v) result1 s1) as Hr.
  destruct (retryFailed manualMode ex run (tv_remaining v) result1 s1) as [[s2 result2] k2].
  destruct result2 as [data|request|e].
  - set (m := match convertBinaryData data with Val _ => _ | _ => _ end).
    assert (returns m) as Hm.
    { unfold m. pose proof (returns_handleNodeErrorOutput (es_runData s2) ex). solve_returns. }
    destruct m as [data1| |]; [|split; [done|]; intros; simplify_eq/=; lia|done].
    destruct (finishTry_calls ex false data1 s2) as [Hret Hcalls].
    split; [solve_returns|]. intros s' v' e Heq. res_simpl.
    destruct a as [[s3 data3] r3]. simplify_eq. rewrite (Hcalls _ _ _ eq_refl). simpl. lia.
  - destruct (engineRequest_calls ex run request s2) as [Hret Hcalls].
    split; [solve_returns|]. intros s' v' e Heq. res_simpl.
    destruct a as [s3 r3]. simplify_eq. rewrite (Hcalls _ _ eq_refl). simpl. lia.
  - split; [done|]. intros; simplify_eq/=. lia.
Qed.

Lemma tryLoop_calls fuel ex run v s :
  tv_remaining v < fuel →
  let r := tryLoop manualMode evaluateOutputs convertBinaryData getPairedItem fuel ex run v s in
  returns r ∧ ∀ s' data e, r = Ok (s', data, e) →
    es_calls s ≤ es_calls s' ≤ es_calls s + (2 * tv_remaining v + 1).
Proof.
  revert v s. induction fuel as [|fuel IH]; intros v s Hf; [lia|]. cbn zeta. cbn [tryLoop].
  destruct (runTry_calls ex run v (set_executionError None s)) as [Hret Htry].
  destruct (runTry _ _ _ _ _ _ _ _) as [[[s1 v1] r1]| |]; [|by split; intros; simplify_eq|done].
  specialize (Htry s1 v1 r1 eq_refl). unfold triesUsed in Htry. simpl in Htry. cbn [mbind res_bind].
  destruct r1 as [e|tryEnd]; [|split; [done|]; intros; simplify_eq; lia].
  destruct (tv_remaining v1) as [|k1] eqn:Hk; [split; [done|]; intros; simplify_eq/=; lia|].
  edestruct IH as [Hret1 Hloop]; [|split; [exact Hret1|]]; [simpl; lia|].
  intros s' data e' Heq. specialize (Hloop s' data e' Heq). simpl in Hloop. lia.
Qed.
End tries.

(** ** The iteration *)

(** Scheduling changes nothing but the stack and the waiting executions. *)
Definition stackOnly (s s' : EngineState) : Prop := ∃ st, s' = set_stack st s.

Lemma stackOnly_refl s : stackOnly s s.
Proof. exists (es_stack s). by destruct s. Qed.

Lemma stackOnly_trans s1 s2 s3 : stackOnly s1 s2 → stackOnly s2 s3 → stackOnly s1 s3.
Proof. intros [st1 ->] [st2 ->]. by exists st2. Qed.

Lemma stackOnly_foldM {A} (f : EngineState → A → res EngineState) s l s' :
  (∀ s x s', f s x = Ok s' → stackOnly s s') → foldM f s l = Ok s' → stackOnly s s'.
Proof.
  intros Hf Hl. apply (foldM_ind f (λ _ t, stackOnly s t) s l s' Hl); [apply stackOnly_refl|].
  intros pre x t t' Ht _ Hx. eapply stackOnly_trans; eauto.
Qed.

Lemma scheduleChild_stackOnly name run outputs s oc s' :
  scheduleChild name run outputs s oc = Ok s' → stackOnly s s'.
Proof. unfold scheduleChild. intros Hs. res_simpl. by eexists. Qed.

Lemma scheduleChildren_stackOnly name run outputs s s' :
  scheduleChildren name run outputs s = Ok s' → stackOnly s s'.
Proof.
  unfold scheduleChildren. destruct (isLegacyExecutionOrder _).
  - apply stackOnly_foldM. intros s1 x s2 Hs. unfold mbind, res_bind in Hs. repeat case_match; simplify_eq;
      first [by eapply scheduleChild_stackOnly | apply stackOnly_refl].
  - intros Hs. res_simpl. apply (stackOnly_trans _ a).
    + eapply stackOnly_foldM; [|exact E]. intros s1 x s2 Hx. simpl in Hx. case_match; simplify_eq. apply stackOnly_refl.
    + eapply stackOnly_foldM; [|exact Hs]. intros. by eapply scheduleChild_stackOnly.
Qed.

Lemma releaseLoop_stackOnly `{INodeTypes} evaluateRequiredInputs fuel s s' :
  releaseLoop evaluateRequiredInputs fuel s = Ok s' → stackOnly s s'.
Proof.
  revert s. induction fuel as [|fuel IH]; intros s Hs; simpl in Hs; [done|].
  unfold mbind, res_bind in Hs. repeat case_match; simplify_eq; try apply stackOnly_refl.
  - unfold releaseWaiting in *. res_simpl. by eexists.
  - eapply stackOnly_trans; [|by apply IH]. unfold releaseWaiting in *. res_simpl. by eexists.
Qed.

Lemma releaseWaitingNodes_stackOnly `{INodeTypes} evaluateRequiredInputs s s' :
  releaseWaitingNodes evaluateRequiredInputs s = Ok s' → stackOnly s s'.
Proof.
  unfold releaseWaitingNodes. case_bools; intros Hs; [by eapply releaseLoop_stackOnly|].
  simplify_eq. apply stackOnly_refl.
Qed.

(** The state an iteration ends in *)
Definition resultState (r : StepResult) : option EngineState :=
  match r with
  | StepContinue s | StepBreak s | StepReturn s | StepThrow _ s => Some s
  | StepOutOfFuel => None
  end.

(** [r] ends in a state with [P]. *)
Definition endsIn (P : EngineState → Prop) (r : StepResult) : Prop :=
  ∃ s, resultState r = Some s ∧ P s.

Lemma endsIn_performing {A} P s (m : res A) k :
  returns m → P s → (∀ a, m = Ok a → endsIn P (k a)) → endsIn P (performing s m k).
Proof. intros Hm Hs Hk. destruct m; simpl; [by apply Hk|by exists s|by destruct Hm]. Qed.

Section iteration.
Context `{INodeTypes} `{NodeRunner}.
Context (startData : IStartData) (manualMode : bool) (executionTimeoutTimestamp : option Z) (now : nat → Z).
Context (evaluateOutputs : INode → res (list NodeOutput)).
Context (evaluateRequiredInputs : INode → string → option RequiredInputs).
Context (convertBinaryData : slot NodeOutputData → slot NodeOutputData).
Context (getPairedItem : IRunData → string → ISourceData → IPairedItemData → res (option INodeExecutionData)).

(** Recording a result does not run nodes. *)
Lemma completeNode_calls ex run task data s c :
  es_calls s = c →
  endsIn (λ s', es_calls s' = c) (completeNode startData evaluateRequiredInputs ex run task data s).
Proof.
  intros <-. unfold completeNode. apply endsIn_performing; [auto with n8n|done|]. intros outputs _.
  match goal with |- context [writePinned ?b ?n ?d s] => set (s1 := writePinned b n d s) end.
  assert (es_calls s1 = es_calls s) as Hs1 by (unfold s1, writePinned; repeat case_match; done).
  rewrite <- Hs1. clearbody s1. case_match; [by eexists|]. case_bools; [by eexists|].
  apply endsIn_performing; [auto with n8n|done|].
  intros s2 [st2 ->]%scheduleChildren_stackOnly. apply endsIn_performing; [auto with n8n|done|].
  intros s3 [st3 ->]%releaseWaitingNodes_stackOnly. by eexists.
Qed.

Lemma recordNode_calls ex run t0 i data s :
  endsIn (λ s', es_calls s' = es_calls s)
    (recordNode startData now evaluateRequiredInputs ex run t0 i data s).
Proof.
  unfold recordNode. cbn [readClock]. case_match; [|by apply completeNode_calls].
  destruct (continuesOnFail _); [by apply completeNode_calls|]. unfold stopNode. case_bools; by eexists.
Qed.

Context (Hpaired : ∀ runData name source paired, returns (getPairedItem runData name source paired)).

Lemma maxTries_bounds node : 1 ≤ maxTries node ≤ 5.
Proof. unfold maxTries. case_bools; [|lia]. repeat case_match; lia. Qed.

(** The calls of one node in one iteration *)
Definition callsAtMost (node : INode) (s s' : EngineState) : Prop :=
  es_calls s ≤ es_calls s' ≤ es_calls s + (2 * maxTries node - 1).

Lemma executeEntry_calls entry s :
  endsIn (callsAtMost (exec_node entry) s)
    (executeEntry startData manualMode now evaluateOutputs evaluateRequiredInputs convertBinaryData
       getPairedItem entry s).
Proof.
  unfold executeEntry. cbn [readClock]. unfold callsAtMost.
  pose proof (maxTries_bounds (exec_node entry)).
  case_match; [eexists; split; [reflexivity|simpl; lia]|].
  case_bools; [eexists; split; [reflexivity|simpl; lia]|].
  case_match; [eexists; split; [reflexivity|simpl; lia]|].
  apply endsIn_performing; [auto with n8n|simpl; lia|]. intros [ready stack] _.
  case_match; [eexists; split; [reflexivity|simpl; lia]|].
  match goal with |- endsIn _ (performing ?s2 (runTries _ _ _ _ ?ex ?run _) _) =>
    assert (es_calls s2 = es_calls s) as Hs2 by (by case_match);
    destruct (tryLoop_calls manualMode evaluateOutputs convertBinaryData getPairedItem Hpaired
      (maxTries (exec_node entry)) ex run
      {| tv_response := makeEngineResponse; tv_data := Null; tv_remaining := maxTries (exec_node entry) - 1 |}
      s2) as [Hret Hloop]; [simpl; lia|]; set (s2' := s2) in *
  end.
  apply endsIn_performing; [exact Hret|lia|]. intros [[s3 data] tryEnd] Heq.
  specialize (Hloop s3 data tryEnd Heq). cbn [tv_remaining] in Hloop.
  destruct tryEnd; [|eexists; split; [reflexivity|]; lia].
  match goal with |- endsIn _ (recordNode _ _ _ ?ex ?run ?t0 ?i ?d ?s4) =>
    destruct (recordNode_calls ex run t0 i d s4) as (s5 & Hres & Hcalls) end.
  exists s5. split; [exact Hres|]. lia.
Qed.

Lemma checkTimeout_calls s : es_calls (checkTimeout executionTimeoutTimestamp now s) = es_calls s.
Proof. unfold checkTimeout, readClock. repeat case_match; done. Qed.

Lemma iteration_calls entry rest s :
  nodeExecutionStack (es_stack s) = entry :: rest →
  endsIn (callsAtMost (exec_node entry) s)
    (iteration startData manualMode executionTimeoutTimestamp now evaluateOutputs evaluateRequiredInputs
       convertBinaryData getPairedItem s).
Proof.
  intros Hstack. unfold iteration. rewrite Hstack. unfold callsAtMost.
  pose proof (maxTries_bounds (exec_node entry)).
  rewrite <- (checkTimeout_calls s). set (s1 := checkTimeout _ _ s).
  case_bools; [eexists; split; [reflexivity|]; lia|]. apply executeEntry_calls.
Qed.
End iteration.

(** C2: every iteration of the execution loop ends, whatever the workflow, the run
    data and the outcomes of the nodes, if the lookup of paired items does: no
    search, retry loop or release of waiting nodes runs forever.  An iteration makes at
    most [2 * maxTries - 1] calls into nodes, which is at most nine; [maxTries] is that of
    the node at the top of the stack. *)
Theorem iteration_terminates `{INodeTypes} `{NodeRunner} (startData : IStartData) (manualMode : bool)
    (executionTimeoutTimestamp : option Z) (now : nat → Z)
    (evaluateOutputs : INode → res (list NodeOutput))
    (evaluateRequiredInputs : INode → string → option RequiredInputs)
    (convertBinaryData : slot NodeOutputData → slot NodeOutputData)
    (getPairedItem : IRunData → string → ISourceData → IPairedItemData → res (option INodeExecutionData))
    (s : EngineState) (entry : IExecuteData) (rest : list IExecuteData) :
  (∀ runData name source paired, returns (getPairedItem runData name source paired)) →
  nodeExecutionStack (es_stack s) = entry :: rest →
  ∃ s', resultState (iteration startData manualMode executionTimeoutTimestamp now evaluateOutputs
      evaluateRequiredInputs convertBinaryData getPairedItem s) = Some s' ∧
    es_calls s ≤ es_calls s' ≤ es_calls s + (2 * maxTries (exec_node entry) - 1) ∧
    2 * maxTries (exec_node entry) - 1 ≤ 9.
Proof.
  intros Hpaired Hstack.
  destruct (iteration_calls startData manualMode executionTimeoutTimestamp now evaluateOutputs
    evaluateRequiredInputs convertBinaryData getPairedItem Hpaired entry rest s Hstack) as (s' & Hres & Hcalls).
  pose proof (maxTries_bounds (exec_node entry)). exists s'. split; [done|]. split; [done|lia].
Qed.

Lemma iteration_terminates_witness :
  ∃ s', resultState (sampleIteration [NodeData (Val [Val [itemOf "x"]])]
      (startWith (chainWorkflow [retryNode]) (entryFor retryNode [itemOf "a"]))) = Some s' ∧ es_calls s' ≤ 3.
Proof.
  destruct (@iteration_terminates executeTypes (scripted [NodeData (Val [Val [itemOf "x"]])]) emptyStartData
    false None (λ _, 0%Z) noOutputs noRequiredInputs (λ data, data) noPairedItem
    (startWith (chainWorkflow [retryNode]) (entryFor retryNode [itemOf "a"])) (entryFor retryNode [itemOf "a"]) [])
    as (s' & Hres & Hcalls & _); [discriminate|reflexivity|].
  exists s'. split; [exact Hres|]. vm_compute in Hcalls. apply Hcalls.
Defined.

(** The bound is reached: a node that allows two tries is called three times when
    its first call returns an error item and the retry of it throws, because the
    retry that throws is not counted. *)
Theorem retry_exceeds_maxTries :
  maxTries retryNode = 2 ∧
  ∃ s', sampleIteration [NodeData (Val [Val [errorItem "e"]]); NodeThrows (plainError "t");
                         NodeData (Val [Val [itemOf "x"]])]
      (startWith (chainWorkflow [retryNode]) (entryFor retryNode [itemOf "a"])) = StepContinue s' ∧
    es_calls s' = 3.
Proof. split; [reflexivity|]. eexists. split; [vm_compute; reflexivity|reflexivity]. Qed.
