(* ===== verification/EngineInvariants.v ===== *)
(** * Invariants of a running execution

    What holds between the iterations of the execution loop, whatever the nodes do:
    the waiting executions stay well formed, execution indexes are given out in
    increasing order, and an iteration adds to the run data without losing what was
    recorded before. *)

From S2P Require Import Prelude JsCollections NodeTypes DirectedGraph Fixtures RunData.
From S2P Require Import ExecutionStack Connections Workflow WorkflowSearch Trigger Waiting Items Requests.
From S2P Require Import EngineState Lifecycle Engine EngineFixtures Termination.

(** ** Run data *)

(** All tasks have execution indexes below [bound]. *)
Definition tasksBelow (bound : Z) (runData : IRunData) : Prop :=
  ∀ name task i, task ∈ runsOf runData name → task_executionIndex task = Some i → (i < bound)%Z.

(** Everything but the run [runIndex] of [name] is kept. *)
Definition runsKept (name : string) (runIndex : nat) (runData runData' : IRunData) : Prop :=
  ∀ n i task, runsOf runData n !! i = Some task → (n ≠ name ∨ i ≠ runIndex) →
    runsOf runData' n !! i = Some task.

(** [runData'] is [runData] with entries for tool calls added. *)
Definition grown (runData runData' : IRunData) : Prop :=
  (∀ n, runsOf runData n `prefix_of` runsOf runData' n) ∧
  ∀ n task, task ∈ runsOf runData' n → task ∈ runsOf runData n ∨ task_executionIndex task = Some 0%Z.

Lemma grown_refl r : grown r r.
Proof. split; [done|auto]. Qed.

Lemma grown_trans r1 r2 r3 : grown r1 r2 → grown r2 r3 → grown r1 r3.
Proof.
  intros [P1 T1] [P2 T2]. split; [intros n; etrans; [apply P1|apply P2]|]. intros n task [Ht|?]%T2; [by apply T1|by right].
Qed.

Lemma grown_below bound r r' : (0 < bound)%Z → grown r r' → tasksBelow bound r → tasksBelow bound r'.
Proof.
  intros Hb [_ Hg] Hr n task i Ht Hi. destruct (Hg n task Ht) as [?|?]; [by eapply Hr|]. by simplify_eq.
Qed.

Lemma grown_kept name run r1 r2 r3 : runsKept name run r1 r2 → grown r2 r3 → runsKept name run r1 r3.
Proof. intros Hk [Hp _] n i task Ht Hne. eapply prefix_lookup_Some; [by apply Hk|apply Hp]. Qed.

Lemma recordTask_runs name run task r n :
  runsOf (recordTask name run task r) n =
    if bool_decide (n = name) then
      match runsOf r name !! run with
      | Some current => <[run := assignTask current task]> (runsOf r name)
      | None => runsOf r name ++ [task]
      end
    else runsOf r n.
Proof. unfold recordTask. apply runsOf_set. Qed.

(** [runData[name] ||= []] *)
Lemma runsOf_ensure name r n :
  runsOf (if obj_has name r then r else obj_set name [] r) n = runsOf r n.
Proof.
  destruct (obj_has name r) eqn:E; [done|]. rewrite runsOf_set. case_bools; [subst|done].
  unfold runsOf, obj_has in *. apply not_true_iff_false in E. rewrite map_has_get in E. unfold obj_get.
  destruct (map_get name r); [|done]. by destruct E.
Qed.

Lemma recordTask_below bound name run task r i :
  task_executionIndex task = Some i → (i < bound)%Z → tasksBelow bound r →
  tasksBelow bound (recordTask name run task r).
Proof.
  intros Hi Hb Hr n t j. rewrite recordTask_runs. case_bools; [|by apply Hr]. subst n.
  destruct (runsOf r name !! run) as [current|] eqn:E.
  - intros [k Hk]%list_elem_of_lookup Hj. rewrite list_lookup_insert in Hk.
    case_decide; [simplify_eq/=; congruence|]. by eapply Hr; [apply list_elem_of_lookup; eauto|].
  - intros [Ht| ->]%elem_of_snoc Hj; [by eapply Hr|]. congruence.
Qed.

Lemma recordTask_kept name run task r0 r : runsKept name run r0 r → runsKept name run r0 (recordTask name run task r).
Proof.
  intros Hk n i t Ht Hne. rewrite recordTask_runs. case_bools; [subst n|by apply Hk].
  destruct Hne as [?|Hne]; [done|]. specialize (Hk name i t Ht (or_intror Hne)).
  destruct (runsOf r name !! run) as [current|] eqn:E; [by rewrite list_lookup_insert_ne|].
  by apply lookup_app_l_Some.
Qed.

Lemma initializeNodeRunData_grown r name parent out prun action run d :
  grown r (initializeNodeRunData r name parent out prun action run d).2.
Proof.
  unfold initializeNodeRunData. simpl. fold (runsOf r name). split.
  - intros n. rewrite runsOf_set. case_bools; [subst; by apply prefix_app_r|done].
  - intros n task. rewrite runsOf_set. case_bools; [|auto]. subst.
    intros [?| ->]%elem_of_snoc; [by left|by right].
Qed.

(** ** What a request changes *)

(** The workflow keeps its connections and settings. *)
Definition sameWiring (w w' : Workflow) : Prop :=
  connectionsByDestinationNode w' = connectionsByDestinationNode w ∧
  connectionsBySourceNode w' = connectionsBySourceNode w ∧
  settings_executionOrder w' = settings_executionOrder w.

Lemma waitingWf_wiring w w' st : sameWiring w w' → waitingWf w st → waitingWf w' st.
Proof.
  intros (Hd & _) [Hok Hne]. split; [|done]. intros node. specialize (Hok node).
  unfold entriesOk, numberOfInputs in *. by rewrite Hd.
Qed.

Record requestKeeps (rs rs' : RequestState) : Prop := {
  rk_wiring : sameWiring (rs_workflow rs) (rs_workflow rs');
  rk_runs : grown (rs_runData rs) (rs_runData rs');
  rk_waiting : waitingWf (rs_workflow rs) (rs_stack rs) → waitingWf (rs_workflow rs') (rs_stack rs');
}.

Lemma requestKeeps_refl rs : requestKeeps rs rs.
Proof. split; [done|apply grown_refl|done]. Qed.

Lemma requestKeeps_trans rs1 rs2 rs3 : requestKeeps rs1 rs2 → requestKeeps rs2 rs3 → requestKeeps rs1 rs3.
Proof.
  intros [(W1 & W1' & W1'') R1 I1] [(W2 & W2' & W2'') R2 I2].
  split; [split_and!; congruence|by eapply grown_trans|auto].
Qed.

Lemma prepareRequestedNode_keeps cur run ex s action s' :
  prepareRequestedNode cur run ex s action = Ok s' → requestKeeps s.1.1 s'.1.1.
Proof.
  destruct s as [[rs tools] subs]. unfold prepareRequestedNode. destruct (getNode _ _) as [node|]; [|done].
  destruct (initializeNodeRunData _ _ _ _ _ _ _ _) as [nodeRunIndex runData] eqn:E. intros; simplify_eq/=.
  split; simpl; [done| |].
  - pose proof (initializeNodeRunData_grown (rs_runData rs) (node_name node)
      (default (node_name cur) (action_parentNodeName action)) (defaultParentOutputIndex run ex)
      (parentRunIndex cur run ex (rs_runData rs) action) action run
      (buildParentOutputData (action_input action) (parentRunIndex cur run ex (rs_runData rs) action)
         (defaultParentOutputIndex run ex) (defaultParentSourceNode cur run ex))) as Hg.
    by rewrite E in Hg.
  - intros Hwf. by apply (waitingWf_wiring (rs_workflow rs)).
Qed.

Lemma prepare_keeps cur run ex actions s s' :
  foldM (prepareRequestedNode cur run ex) s actions = Ok s' → requestKeeps s.1.1 s'.1.1.
Proof.
  intros Hs. apply (foldM_ind _ (λ _ t, requestKeeps s.1.1 t.1.1) s actions s' Hs); [apply requestKeeps_refl|].
  intros pre a t t' Ht _ Ha. eapply requestKeeps_trans; [exact Ht|by eapply prepareRequestedNode_keeps].
Qed.

Lemma prepare_last_keeps cur run ex actions s :
  requestKeeps s.1.1 (foldM_last (prepareRequestedNode cur run ex) s actions).1.1.
Proof.
  revert s. induction actions as [|a actions IH]; intros s; cbn [foldM_last]; [apply requestKeeps_refl|].
  destruct (prepareRequestedNode cur run ex s a) as [s1| |] eqn:E; [|apply requestKeeps_refl..].
  eapply requestKeeps_trans; [by eapply prepareRequestedNode_keeps|apply IH].
Qed.

(** Requested nodes are connected to their first input. *)
Definition firstInput (d : NodeToBeExecuted) : Prop := conn_index (tbe_inputConnectionData d) = 0.

Lemma prepare_firstInput cur run ex actions s s' :
  Forall firstInput s.1.2 → foldM (prepareRequestedNode cur run ex) s actions = Ok s' → Forall firstInput s'.1.2.
Proof.
  intros H0 Hs. apply (foldM_ind _ (λ _ t, Forall firstInput t.1.2) s actions s' Hs); [done|].
  intros pre a [[rs tools] subs] t' Ht _ Ha. unfold prepareRequestedNode in Ha.
  destruct (getNode _ _); [|done]. destruct (initializeNodeRunData _ _ _ _ _ _ _ _). simplify_eq/=.
  apply Forall_app; split; [done|]. by constructor.
Qed.

Lemma handleRequest_keeps cur run ex request rs rs' nodes :
  handleRequest cur run ex request rs = Ok (rs', nodes) → requestKeeps rs rs' ∧ Forall firstInput nodes.
Proof.
  unfold handleRequest, prepareRequestedNodesForExecution. intros Hr.
  destruct (foldM _ _ _) as [[[rs1 tools] subs]| |] eqn:E; simplify_eq/=.
  pose proof (prepare_keeps _ _ _ _ _ _ E) as Hk.
  assert (Forall firstInput tools) as Hf by (by apply (prepare_firstInput _ _ _ _ _ _) in E; [|constructor]).
  simpl in *.
  destruct (prepareRequestingNodeForResuming ex) as [[[connectionData parentNode] preserved]|] eqn:Ep;
    simplify_eq; [|by split; [|constructor]].
  split; [done|]. constructor; [|done]. unfold prepareRequestingNodeForResuming in Ep.
  destruct (sourceAt ex 0); [|done]. case_bools; by simplify_eq.
Qed.

Lemma handleEngineRequest_keeps cur run ex request rs rs' :
  handleEngineRequest cur run ex request rs = Ok rs' → requestKeeps rs rs'.
Proof.
  unfold handleEngineRequest. intros Hr.
  destruct (handleRequest cur run ex request rs) as [[rs1 nodes]| |] eqn:E; simplify_eq/=.
  destruct (handleRequest_keeps _ _ _ _ _ _ _ E) as [Hk Hf].
  destruct (foldM _ (rs_stack rs1) nodes) as [st| |] eqn:Es; simplify_eq/=.
  eapply requestKeeps_trans; [exact Hk|]. split; simpl; [done|apply grown_refl|]. intros Hwf.
  match type of Es with foldM ?f _ _ = _ =>
    apply (foldM_ind f (λ _ t, waitingWf (rs_workflow rs1) t) _ _ _ Es); [done|] end.
  intros pre d t t' Ht Hd Hadd. eapply addNode_waitingWf; [exact Ht| |exact Hadd].
  rewrite Forall_forall in Hf. rewrite (Hf d Hd). lia.
Qed.

(** ** What the tries change *)

Record tryKeeps (s s' : EngineState) : Prop := {
  tk_wiring : sameWiring (es_workflow s) (es_workflow s');
  tk_runs : grown (es_runData s) (es_runData s');
  tk_waiting : waitingWf (es_workflow s) (es_stack s) → waitingWf (es_workflow s') (es_stack s');
  tk_index : es_executionIndex s' = es_executionIndex s;
}.

Lemma tryKeeps_trans s1 s2 s3 : tryKeeps s1 s2 → tryKeeps s2 s3 → tryKeeps s1 s3.
Proof.
  intros [(W1 & W1' & W1'') R1 I1 E1] [(W2 & W2' & W2'') R2 I2 E2].
  split; [split_and!; congruence|by eapply grown_trans|auto|congruence].
Qed.

(** Nothing of what is kept is touched. *)
Lemma tryKeeps_same s s' :
  es_workflow s' = es_workflow s → es_runData s' = es_runData s → es_stack s' = es_stack s →
  es_executionIndex s' = es_executionIndex s → tryKeeps s s'.
Proof. intros Hw Hr Hs Hi. split; rewrite ?Hw, ?Hr, ?Hs; try done. apply grown_refl. Qed.

Lemma tryKeeps_request s rs :
  requestKeeps (requestState s) rs → tryKeeps s (setRequestState rs s).
Proof. intros [W R I]. by split. Qed.

Section tries.
Context `{INodeTypes} `{NodeRunner}.
Context (manualMode : bool) (evaluateOutputs : INode → res (list NodeOutput)).
Context (convertBinaryData : slot NodeOutputData → slot NodeOutputData).
Context (getPairedItem : IRunData → string → ISourceData → IPairedItemData → res (option INodeExecutionData)).

Lemma runNode_keeps ex run response s : tryKeeps s (runNode manualMode ex run response s).1.
Proof. unfold runNode, enterCode. apply tryKeeps_same; simpl; repeat case_match; done. Qed.

Lemma retryFailed_keeps ex run remaining result s :
  tryKeeps s (retryFailed manualMode ex run remaining result s).1.1.
Proof.
  revert result s. induction remaining as [|remaining IH]; intros result s; simpl; [by apply tryKeeps_same|].
  destruct (nodeFailed result); [|by apply tryKeeps_same].
  pose proof (runNode_keeps ex run None s) as Hk.
  destruct (runNode manualMode ex run None s) as [s1 result1]; simpl in *.
  destruct result1; [..|done]; (eapply tryKeeps_trans; [exact Hk|apply IH]).
Qed.

Lemma finishTry_keeps ex pinned data s s' data' r :
  finishTry ex pinned data s = Ok (s', data', r) → tryKeeps s s'.
Proof.
  unfold finishTry, writePinned. intros Hf.
  apply tryKeeps_same; repeat case_match; by simplify_eq/=.
Qed.

Lemma engineRequest_keeps ex run request s s' r :
  engineRequest ex run request s = Ok (s', r) → tryKeeps s s'.
Proof.
  unfold engineRequest. destruct (handleEngineRequest _ _ _ _ _) as [rs|e|] eqn:E; [..|done].
  - intros; simplify_eq. by eapply tryKeeps_request, handleEngineRequest_keeps.
  - pose proof (prepare_last_keeps (exec_node ex) run ex (request_actions request) (requestState s, [], [])) as Hk.
    destruct (foldM_last _ _ _) as [[rs ?] ?]. intros; simplify_eq. by apply tryKeeps_request.
Qed.

Lemma runTry_keeps ex run v s s' v' r :
  runTry manualMode evaluateOutputs convertBinaryData getPairedItem ex run v s = Ok (s', v', r) → tryKeeps s s'.
Proof.
  unfold runTry. destruct (pinnedItems _ _) as [items|].
  { intros Hf. destruct (finishTry _ _ _ _) as [[[s1 d1] r1]| |] eqn:E; simplify_eq/=.
    by eapply finishTry_keeps. }
  set (response := collectResponses _ _ _). pose proof (runNode_keeps ex run (Some response) s) as Hk1.
  destruct (runNode manualMode ex run (Some response) s) as [s1 result1]; simpl in Hk1.
  pose proof (retryFailed_keeps ex run (tv_remaining v) result1 s1) as Hk2.
  destruct (retryFailed manualMode ex run (tv_remaining v) result1 s1) as [[s2 result2] k2]; simpl in Hk2.
  assert (tryKeeps s s2) as Hk by by eapply tryKeeps_trans. intros Hf.
  destruct result2 as [data|request|e]; [| |by simplify_eq].
  - match type of Hf with match ?m with _ => _ end = _ => destruct m end; [|by simplify_eq|done].
    destruct (finishTry _ _ _ _) as [[[s3 d3] r3]| |] eqn:E; simplify_eq/=.
    eapply tryKeeps_trans; [exact Hk|by eapply finishTry_keeps].
  - destruct (engineRequest _ _ _ _) as [[s3 r3]| |] eqn:E; simplify_eq/=.
    eapply tryKeeps_trans; [exact Hk|by eapply engineRequest_keeps].
Qed.

Lemma tryLoop_keeps fuel ex run v s s' data r :
  tryLoop manualMode evaluateOutputs convertBinaryData getPairedItem fuel ex run v s = Ok (s', data, r) →
  tryKeeps s s'.
Proof.
  revert v s. induction fuel as [|fuel IH]; intros v s Hl; [done|]. cbn [tryLoop] in Hl.
  destruct (runTry _ _ _ _ _ _ _ _) as [[[s1 v1] r1]| |] eqn:E; simplify_eq/=.
  apply runTry_keeps in E. assert (tryKeeps s s1) as Hk.
  { eapply tryKeeps_trans; [|exact E]. by apply tryKeeps_same. }
  destruct r1 as [e|tryEnd]; [|by simplify_eq].
  destruct (tv_remaining v1) as [|k1]; [simplify_eq/=|].
  - eapply tryKeeps_trans; [exact Hk|by apply tryKeeps_same].
  - eapply tryKeeps_trans; [exact Hk|]. eapply tryKeeps_trans; [|by eapply IH]. by apply tryKeeps_same.
Qed.
End tries.

(** ** Scheduling *)

(** The connections of the workflow lead to inputs that exist. *)
Definition wellIndexed (w : Workflow) : Prop :=
  ∀ name oc, oc ∈ outgoing w name → 1 < numberOfInputs w (conn_node oc.2) →
    conn_index oc.2 < numberOfInputs w (conn_node oc.2).

Lemma wellIndexed_wiring w w' : sameWiring w w' → wellIndexed w → wellIndexed w'.
Proof. intros (Hd & Hs & _). unfold wellIndexed, outgoing, numberOfInputs. by rewrite Hd, Hs. Qed.

(** The workflow is the same and the waiting executions are well formed. *)
Definition waitingIn (w : Workflow) (s : EngineState) : Prop := es_workflow s = w ∧ waitingWf w (es_stack s).

Lemma scheduleChild_waiting w name run outputs s oc s' :
  waitingIn w s →
  (1 < numberOfInputs w (conn_node oc.2) → conn_index oc.2 < numberOfInputs w (conn_node oc.2)) →
  scheduleChild name run outputs s oc = Ok s' → waitingIn w s'.
Proof.
  intros [<- Hwf] Hin Hs. unfold scheduleChild in Hs. res_simpl. split; [done|]. by eapply addNode_waitingWf.
Qed.

Lemma scheduleChildren_waiting name run outputs s s' :
  wellIndexed (es_workflow s) → waitingWf (es_workflow s) (es_stack s) →
  scheduleChildren name run outputs s = Ok s' → waitingWf (es_workflow s') (es_stack s').
Proof.
  intros Hidx Hwf Hs. assert (waitingIn (es_workflow s) s') as [-> ?]; [|done].
  assert (waitingIn (es_workflow s) s) as H0 by done. unfold scheduleChildren in Hs.
  destruct (isLegacyExecutionOrder _).
  - match type of Hs with foldM ?f _ ?l = _ =>
      apply (foldM_ind f (λ _ t, waitingIn (es_workflow s) t) _ _ _ Hs); [done|] end.
    intros pre oc t t' Ht Hoc Hf. simpl in Hf. unfold mbind, res_bind in Hf. repeat case_match; simplify_eq; [|done].
    eapply scheduleChild_waiting; [exact Ht|by apply (Hidx name)|done].
  - res_simpl. assert (waitingIn (es_workflow s) a) as Ha.
    { match type of E with foldM ?f _ ?l = _ =>
        apply (foldM_ind f (λ _ t, waitingIn (es_workflow s) t) _ _ _ E); [done|] end.
      intros pre oc t t' Ht Hoc Hf. simpl in Hf. by case_match; simplify_eq. }
    match type of Hs with foldM ?f _ ?l = _ =>
      apply (foldM_ind f (λ _ t, waitingIn (es_workflow s) t) _ _ _ Hs); [done|] end.
    intros pre oc t t' Ht Hoc Hf. rewrite array_sort_perm in Hoc. apply list_elem_of_filter in Hoc as [_ Hoc].
    eapply scheduleChild_waiting; [exact Ht|by apply (Hidx name)|done].
Qed.

Lemma releaseLoop_waiting `{INodeTypes} evaluateRequiredInputs fuel w s s' :
  waitingIn w s → releaseLoop evaluateRequiredInputs fuel s = Ok s' → waitingIn w s'.
Proof.
  revert s. induction fuel as [|fuel IH]; intros s Hs Hr; [done|].
  cbn [releaseLoop] in Hr. unfold mbind, res_bind in Hr. repeat case_match; simplify_eq; try done.
  all: match goal with E : releaseWaiting _ _ _ _ _ _ = Ok ?s1 |- _ =>
    assert (waitingIn w s1); [|by eauto]; unfold releaseWaiting in E; res_simpl end.
  all: destruct Hs as [<- Hwf]; split; [done|]; by apply removeEntry_waitingWf.
Qed.

Lemma releaseWaitingNodes_waiting `{INodeTypes} evaluateRequiredInputs s s' :
  waitingWf (es_workflow s) (es_stack s) →
  releaseWaitingNodes evaluateRequiredInputs s = Ok s' → waitingWf (es_workflow s') (es_stack s').
Proof.
  intros Hwf Hr. assert (waitingIn (es_workflow s) s') as [-> ?]; [|done].
  unfold releaseWaitingNodes in Hr. case_bools; [by eapply releaseLoop_waiting|by simplify_eq].
Qed.

(** ** The iteration *)

(** Between iterations *)
Record engineInv (s : EngineState) : Prop := {
  inv_waiting : waitingWf (es_workflow s) (es_stack s);
  inv_indexed : wellIndexed (es_workflow s);
  inv_index : (0 ≤ es_executionIndex s)%Z;
  inv_below : tasksBelow (es_executionIndex s) (es_runData s);
}.

(** During the iteration for the run [run] of [name], which started in [s0]; the
    execution index [es_executionIndex s0] has been given out. *)
Record during (s0 : EngineState) (name : string) (run : nat) (s : EngineState) : Prop := {
  du_inv : engineInv s;
  du_index : es_executionIndex s = (es_executionIndex s0 + 1)%Z;
  du_positive : (0 ≤ es_executionIndex s0)%Z;
  du_kept : runsKept name run (es_runData s0) (es_runData s);
}.

Lemma during_tries s0 name run s s' : during s0 name run s → tryKeeps s s' → during s0 name run s'.
Proof.
  intros [[I1 I2 I3 I4] Hi Hp Hk] [W R Wf E]. split; [split|congruence|done|].
  - auto.
  - by eapply wellIndexed_wiring.
  - by rewrite E.
  - rewrite E. eapply grown_below; [lia|exact R|done].
  - by eapply grown_kept.
Qed.

(** States that differ in what [during] does not speak of *)
Lemma during_same s0 name run s s' :
  during s0 name run s → es_workflow s' = es_workflow s → es_runData s' = es_runData s →
  waitingExecution (es_stack s') = waitingExecution (es_stack s) →
  waitingExecutionSource (es_stack s') = waitingExecutionSource (es_stack s) →
  es_executionIndex s' = es_executionIndex s → during s0 name run s'.
Proof.
  intros [[I1 I2 I3 I4] Hi Hp Hk] Hw Hr Hs1 Hs2 He. split; [split|congruence|done|by rewrite Hr].
  - rewrite Hw. destruct I1 as [J1 J2]. split.
    + intros node. specialize (J1 node). unfold entriesOk, waitingEntries, waitingSources in *.
      by rewrite Hs1, Hs2.
    + intros node. rewrite Hs1. apply J2.
  - by rewrite Hw.
  - by rewrite He.
  - by rewrite He, Hr.
Qed.

(** Writing the run data *)
Lemma during_runData s0 name run s r :
  during s0 name run s → tasksBelow (es_executionIndex s) r → runsKept name run (es_runData s0) r →
  during s0 name run (set_runData r s).
Proof. intros [[I1 I2 I3 I4] Hi Hp Hk] Hb Hr. by split; [split|..]. Qed.

(** Scheduling *)
Lemma during_stack s0 name run s s' :
  during s0 name run s → stackOnly s s' → waitingWf (es_workflow s') (es_stack s') → during s0 name run s'.
Proof. intros [[I1 I2 I3 I4] Hi Hp Hk] [st ->] Hwf. by split; [split|..]. Qed.

Section iteration.
Context `{INodeTypes} `{NodeRunner}.
Context (startData : IStartData) (manualMode : bool) (executionTimeoutTimestamp : option Z) (now : nat → Z).
Context (evaluateOutputs : INode → res (list NodeOutput)).
Context (evaluateRequiredInputs : INode → string → option RequiredInputs).
Context (convertBinaryData : slot NodeOutputData → slot NodeOutputData).
Context (getPairedItem : IRunData → string → ISourceData → IPairedItemData → res (option INodeExecutionData)).

(** A task that carries the index given out at the start of the iteration *)
Definition current (s0 : EngineState) (task : ITaskData) : Prop :=
  task_executionIndex task = Some (es_executionIndex s0).

Lemma during_record s0 name run s task :
  during s0 name run s → current s0 task →
  during s0 name run (set_runData (recordTask name run task (es_runData s)) s).
Proof.
  intros Hd Ht. apply during_runData; [done|..].
  - eapply recordTask_below; [exact Ht| |apply Hd]. rewrite (du_index _ _ _ _ Hd). lia.
  - apply recordTask_kept, Hd.
Qed.

Lemma withOutputs_current s0 node run outputs r task : current s0 task → current s0 (withOutputs node run outputs r task).
Proof. unfold withOutputs. by case_match. Qed.

Lemma completeNode_during s0 ex run task data s :
  let name := node_name (exec_node ex) in
  during s0 name run s → current s0 task →
  endsIn (during s0 name run) (completeNode startData evaluateRequiredInputs ex run task data s).
Proof.
  intros name Hd Ht. unfold completeNode. fold name. apply endsIn_performing; [auto with n8n|done|].
  intros outputs _.
  match goal with |- context [writePinned ?b ?n ?d s] => set (s1 := writePinned b n d s) end.
  assert (during s0 name run s1) as Hd1.
  { eapply during_same; [exact Hd|..]; unfold s1, writePinned; repeat case_match; done. }
  clearbody s1. set (task1 := withOutputs _ _ _ _ _).
  assert (current s0 task1) as Ht1 by by apply withOutputs_current.
  set (s2 := set_runData _ s1). assert (during s0 name run s2) as Hd2 by by apply during_record.
  clearbody s2. case_match; [eexists; split; [reflexivity|]; by eapply during_same|].
  case_bools; [eexists; split; [reflexivity|]; by eapply during_same|].
  apply endsIn_performing; [auto with n8n|done|]. intros s3 Hs3.
  assert (during s0 name run s3) as Hd3.
  { eapply during_stack; [exact Hd2|by eapply scheduleChildren_stackOnly|].
    eapply scheduleChildren_waiting; [apply Hd2|apply Hd2|exact Hs3]. }
  set (s4 := runHook _ s3). assert (during s0 name run s4) as Hd4 by by eapply during_same.
  apply endsIn_performing; [auto with n8n|done|]. intros s5 Hs5. eexists; split; [reflexivity|].
  eapply during_stack; [exact Hd4|by eapply releaseWaitingNodes_stackOnly|].
  eapply releaseWaitingNodes_waiting; [apply Hd4|exact Hs5].
Qed.

Lemma recordNode_during s0 ex run t0 data s :
  let name := node_name (exec_node ex) in
  during s0 name run s →
  endsIn (during s0 name run)
    (recordNode startData now evaluateRequiredInputs ex run t0 (es_executionIndex s0) data s).
Proof.
  intros name Hd. unfold recordNode. fold name. cbn [readClock].
  set (s1 := set_runData _ s). assert (during s0 name run s1) as Hd1.
  { assert (∀ n, runsOf (es_runData s1) n = runsOf (es_runData s) n) as Hruns.
    { intros n. unfold s1. simpl. apply runsOf_ensure. }
    apply during_runData; [done|..].
    - intros n task i Ht. fold (es_runData s1) in Ht. unfold tasksBelow. intros Hi.
      eapply (inv_below _ (du_inv _ _ _ _ Hd)); [|exact Hi]. change (task ∈ runsOf (es_runData s1) n) in Ht.
      by rewrite Hruns in Ht.
    - intros n i task Ht Hne. change (runsOf (es_runData s1) n !! i = Some task). rewrite Hruns. by apply Hd. }
  clearbody s1. set (s2 := set_ticks _ s1). assert (during s0 name run s2) as Hd2 by by eapply during_same.
  clearbody s2. case_match; [|by apply completeNode_during].
  destruct (continuesOnFail _); [apply completeNode_during; [by eapply during_same|done]|].
  unfold stopNode. fold name.
  match goal with |- endsIn _ (StepBreak (if ?b then _ else runHook (nodeExecuteAfter _ ?t) _)) => set (task := t) end.
  assert (current s0 task) as Ht by (unfold task; by case_match).
  match goal with |- context [recordTask name run task (es_runData ?s)] =>
    assert (during s0 name run (set_runData (recordTask name run task (es_runData s)) s)) as Hd3
      by (apply during_record; [by eapply during_same|done]) end.
  case_bools; eexists; (split; [reflexivity|]); by eapply during_same.
Qed.

Context (Hpaired : ∀ runData name source paired, returns (getPairedItem runData name source paired)).

(** After an iteration for [entry] that began in [s0]: either it was given an
    execution index, or the execution was cancelled and nothing changed. *)
Definition afterEntry (s0 : EngineState) (entry : IExecuteData) (s : EngineState) : Prop :=
  during s0 (node_name (exec_node entry)) (currentRunIndex (es_runData s0) entry) s.

Lemma executeEntry_during entry s :
  engineInv s →
  endsIn (afterEntry s entry)
    (executeEntry startData manualMode now evaluateOutputs evaluateRequiredInputs convertBinaryData
       getPairedItem entry s).
Proof.
  intros [I1 I2 I3 I4]. unfold executeEntry, afterEntry. cbn [readClock].
  set (name := node_name (exec_node entry)). set (run := currentRunIndex (es_runData s) entry).
  set (s1 := set_executionIndex _ _). assert (during s name run s1) as Hd1.
  { split; [split|done|done|by intros ??? ?]; simpl; [done|done|lia|].
    intros n task i Ht Hi. specialize (I4 n task i Ht Hi). lia. }
  case_match; [by eexists|]. set (ex := {| exec_data := updatePairedItems _ _ |}).
  change (currentRunIndex (es_runData s1) ex) with run. clearbody s1.
  case_bools; [by eexists|]. case_match; [by eexists|].
  apply endsIn_performing; [auto with n8n|done|]. intros [ready stack] Hst.
  assert (during s name run (set_stack stack s1)) as Hd2.
  { unfold ensureInputData in Hst. res_simpl. eapply during_same; [exact Hd1|..]; try done; by case_match. }
  case_match; [eexists; split; [reflexivity|]; by eapply during_same|].
  match goal with |- endsIn _ (performing ?s2 _ _) =>
    assert (during s name run s2) as Hd3; [case_match; [exact Hd2|by eapply during_same]|]; generalize dependent s2 end.
  intros s2 Hd3. apply endsIn_performing.
  { apply (tryLoop_calls manualMode evaluateOutputs convertBinaryData getPairedItem Hpaired). simpl.
    pose proof (maxTries_bounds (exec_node entry)). lia. }
  { done. }
  intros [[s3 data] tryEnd] Htries. apply tryLoop_keeps in Htries.
  assert (during s name run s3) as Hd4 by by eapply during_tries.
  destruct tryEnd; [|by eexists]. by apply (recordNode_during s ex).
Qed.

Lemma iteration_during entry rest s :
  engineInv s → nodeExecutionStack (es_stack s) = entry :: rest →
  endsIn (λ s', engineInv s' ∧ (es_executionIndex s ≤ es_executionIndex s')%Z ∧
      runsKept (node_name (exec_node entry)) (currentRunIndex (es_runData s) entry) (es_runData s) (es_runData s'))
    (iteration startData manualMode executionTimeoutTimestamp now evaluateOutputs evaluateRequiredInputs
       convertBinaryData getPairedItem s).
Proof.
  intros [I1 I2 I3 I4] Hstack. unfold iteration. rewrite Hstack.
  set (s1 := checkTimeout _ _ s).
  assert (es_workflow s1 = es_workflow s ∧ es_stack s1 = es_stack s ∧ es_runData s1 = es_runData s ∧
    es_executionIndex s1 = es_executionIndex s) as (E1 & E2 & E3 & E4).
  { unfold s1, checkTimeout, readClock. repeat case_match; done. }
  clearbody s1. case_bools.
  { eexists. split; [reflexivity|]. rewrite E3, E4. split; [|by split; [|intros ??? ?]].
    split; rewrite ?E1, ?E2, ?E3, ?E4; done. }
  match goal with |- endsIn _ (executeEntry _ _ _ _ _ _ _ _ ?s2) =>
    destruct (executeEntry_during entry s2) as (s' & Hres & Hd) end.
  { split; simpl; rewrite ?E1, ?E2, ?E3, ?E4; done. }
  exists s'. split; [exact Hres|]. unfold afterEntry in Hd. simpl in Hd. rewrite E3 in Hd.
  destruct Hd as [Hinv Hidx _ Hkept]. simpl in *. split; [done|]. split; [lia|by rewrite E3 in Hkept].
Qed.
End iteration.

(** C3: whatever the nodes do, an iteration leaves the execution in order: every
    waiting entry has a slot per input and misses one, every task has an execution
    index below the next one, and of the run data recorded before only the current
    run of the node at the top of the stack can change. *)
Theorem iteration_preserves `{INodeTypes} `{NodeRunner} (startData : IStartData) (manualMode : bool)
    (executionTimeoutTimestamp : option Z) (now : nat → Z)
    (evaluateOutputs : INode → res (list NodeOutput))
    (evaluateRequiredInputs : INode → string → option RequiredInputs)
    (convertBinaryData : slot NodeOutputData → slot NodeOutputData)
    (getPairedItem : IRunData → string → ISourceData → IPairedItemData → res (option INodeExecutionData))
    (s : EngineState) (entry : IExecuteData) (rest : list IExecuteData) :
  (∀ runData name source paired, returns (getPairedItem runData name source paired)) →
  engineInv s → nodeExecutionStack (es_stack s) = entry :: rest →
  ∃ s', resultState (iteration startData manualMode executionTimeoutTimestamp now evaluateOutputs
      evaluateRequiredInputs convertBinaryData getPairedItem s) = Some s' ∧
    engineInv s' ∧ (es_executionIndex s ≤ es_executionIndex s')%Z ∧
    runsKept (node_name (exec_node entry)) (currentRunIndex (es_runData s) entry)
      (es_runData s) (es_runData s').
Proof. intros Hpaired Hinv Hstack. by apply (iteration_during _ _ _ _ _ _ _ _ Hpaired entry rest). Qed.

Lemma runsOf_cancelled r n : runsOf (updateTaskStatusesToCancelled r) n = map cancelTask (runsOf r n).
Proof.
  unfold runsOf, updateTaskStatusesToCancelled, obj_get.
  induction r as [|[k l] r IH]; simpl; [done|]. by case_bools.
Qed.

Lemma onCancel_inv s : engineInv s → engineInv (onCancel s).
Proof.
  intros [I1 I2 I3 I4]. split; simpl; try done. intros n task i Ht Hi.
  rewrite runsOf_cancelled in Ht. apply list_elem_of_fmap in Ht as (task0 & -> & Ht0).
  eapply (I4 n task0); [done|]. unfold cancelTask in Hi.
  by destruct (bool_decide _).
Qed.

(** ** Starting states *)

(** The data of an execution of a whole workflow, or of a partial one in which no node waits for data *)
Inductive starting `{INodeTypes} (localeCompare : string → string → Z) (stringify : json → string)
    (getNodeParameters : INodeType → INode → option IDataObject) : Workflow → IRunExecutionData → Z → Prop :=
  | starting_run w startNode destination pinData triggerData filterNodes data :
      run w startNode destination pinData triggerData filterNodes = Ok data →
      starting localeCompare stringify getNodeParameters w data 0
  | starting_partial ref w0 runData pinData dirty destination request w data index stack metadata :
      runPartialWorkflow2 localeCompare stringify getNodeParameters ref w0 runData pinData dirty destination request =
        Ok (w, data, index) →
      (0 ≤ index)%Z → red_executionData data = Some (stack, metadata) → waitingExecution stack = [] →
      starting localeCompare stringify getNodeParameters w data index.

Lemma starting_inv `{INodeTypes} localeCompare stringify getNodeParameters w data index s :
  starting localeCompare stringify getNodeParameters w data index → wellIndexed w →
  startState w data index = Some s → engineInv (setupExecution s).
Proof.
  intros Hstart Hw Hs. destruct Hstart as [w startNode destination pinData triggerData filterNodes data Hrun|
    ref w0 runData pinData dirty destination request w data index stack metadata Hrun Hindex Hstack Hnone].
  - unfold run in Hrun. res_simpl. destruct a as [node|]; [|done].
    match type of Hrun with match ?m with _ => _ end = _ => destruct m; [|done..] end.
    injection Hrun as <-. injection Hs as <-.
    split; simpl; [|done|done|]; [split; [intros n; split; [constructor|done]|done]|].
    intros name task i Ht. by apply elem_of_nil in Ht.
  - unfold runPartialWorkflow2 in Hrun. destruct (getNode w0 _); [|done]. res_simpl.
    destruct (rewireDestination _ _ _ _ _ _ _ _) as [[[[graph workflow] destination'] destinationNode]|?|]; [|done..].
    destruct (partialTrigger _ _ _); [|done..]. destruct (planPartial _ _ _ _ _ _ _); [|done..].
    simplify_eq/=. injection Hs as <-. split; simpl; [|done|done|].
    + split; [|by rewrite Hnone]. intros n. unfold entriesOk, waitingEntries. rewrite Hnone. split; [constructor|done].
    + intros name task k Ht Hi. unfold runsOf in Ht.
      destruct (obj_get name _) as [tasks|] eqn:Hg; [|by apply elem_of_nil in Ht].
      eapply getNextExecutionIndex_fresh; [|exact Ht|exact Hi]. by apply map_get_elem_of in Hg.
Qed.

(** C4: the invariant holds in every state that an execution reaches, by iterations of its loop and by cancellations
    between them, from the state in which it starts: that of an execution of a whole workflow, or of a partial one for
    which no waiting entries were created (and whose next execution index is not negative).  The connections lead to
    inputs that exist, and the lookup of paired items returns. *)
Theorem reachable_engineInv `{INodeTypes} `{NodeRunner} (startData : IStartData) (manualMode : bool)
    (executionTimeoutTimestamp : option Z) (now : nat → Z)
    (evaluateOutputs : INode → res (list NodeOutput))
    (evaluateRequiredInputs : INode → string → option RequiredInputs)
    (convertBinaryData : slot NodeOutputData → slot NodeOutputData)
    (getPairedItem : IRunData → string → ISourceData → IPairedItemData → res (option INodeExecutionData))
    (localeCompare : string → string → Z) (stringify : json → string)
    (getNodeParameters : INodeType → INode → option IDataObject)
    (w : Workflow) (data : IRunExecutionData) (index : Z) (s s' : EngineState) :
  (∀ runData name source paired, returns (getPairedItem runData name source paired)) →
  starting localeCompare stringify getNodeParameters w data index → wellIndexed w → startState w data index = Some s →
  rtc (step startData manualMode executionTimeoutTimestamp now evaluateOutputs evaluateRequiredInputs
         convertBinaryData getPairedItem) (setupExecution s) s' →
  engineInv s'.
Proof.
  intros Hpaired Hstart Hw Hs Hsteps. pose proof (starting_inv _ _ _ _ _ _ _ Hstart Hw Hs) as Hinv.
  induction Hsteps as [|s1 s2 s3 Hstep _ IH]; [done|]. apply IH.
  destruct Hstep as [s1 s2 Hne Hit|s1]; [|by apply onCancel_inv].
  destruct (nodeExecutionStack (es_stack s1)) as [|entry rest] eqn:Hstack; [done|].
  destruct (iteration_during startData manualMode executionTimeoutTimestamp now evaluateOutputs
    evaluateRequiredInputs convertBinaryData getPairedItem Hpaired entry rest s1 Hinv Hstack)
    as (s2' & Hres & Hinv' & _).
  rewrite Hit in Hres. by simplify_eq/=.
Qed.

(** ** Witnesses *)

Lemma wellIndexed_check w :
  Forall (λ kv, Forall (λ oc, 1 < numberOfInputs w (conn_node oc.2) →
    conn_index oc.2 < numberOfInputs w (conn_node oc.2)) (outgoing w kv.1)) (connectionsBySourceNode w) →
  wellIndexed w.
Proof.
  intros Hall name oc Hoc. rewrite Forall_forall in Hall. unfold outgoing, mainConnections in Hoc.
  destruct (obj_get name (connectionsBySourceNode w)) as [nc|] eqn:E; [|by apply elem_of_nil in Hoc].
  specialize (Hall (name, nc) (map_get_elem_of _ _ _ E)). rewrite Forall_forall in Hall. apply Hall.
  unfold outgoing, mainConnections. simpl. by rewrite E.
Qed.

Definition plainNode (ref : nat) (name : string) : INode := settingsNode ref name None None None.

Definition chainAB : list INode := [plainNode 11 "A"; plainNode 12 "B"].

Lemma chainAB_inv items : engineInv (startWith (chainWorkflow chainAB) (entryFor (plainNode 11 "A") items)).
Proof.
  split.
  - split; [|done]. intros node. split; [constructor|done].
  - apply wellIndexed_check. by_eval.
  - done.
  - intros name task i Ht. by apply elem_of_nil in Ht.
Qed.

Lemma iteration_preserves_witness :
  ∃ s', resultState (sampleIteration [NodeData (Val [Val [itemOf "x"]])]
      (startWith (chainWorkflow chainAB) (entryFor (plainNode 11 "A") [itemOf "a"]))) = Some s' ∧ engineInv s'.
Proof.
  destruct (@iteration_preserves executeTypes (scripted [NodeData (Val [Val [itemOf "x"]])]) emptyStartData
    false None (λ _, 0%Z) noOutputs noRequiredInputs (λ data, data) noPairedItem
    (startWith (chainWorkflow chainAB) (entryFor (plainNode 11 "A") [itemOf "a"]))
    (entryFor (plainNode 11 "A") [itemOf "a"]) [])
    as (s' & Hres & Hinv & _); [discriminate|apply chainAB_inv|reflexivity|].
  exists s'. split; [exact Hres|exact Hinv].
Defined.

(** The state that [iteration] continues with *)
Definition continued (r : StepResult) (s : EngineState) : EngineState :=
  match r with StepContinue s' => s' | _ => s end.

Definition chainABStart : EngineState :=
  default (startWith (chainWorkflow chainAB) (entryFor (plainNode 11 "A") []))
    (data ← match @run executeTypes (chainWorkflow chainAB) (Some (plainNode 11 "A")) None None None None with
            | Ok data => Some data | _ => None end;
     startState (chainWorkflow chainAB) data 0).

(** The first node has run, the second one is scheduled and the execution is cancelled. *)
Lemma reachable_engineInv_witness :
  let s1 := continued (sampleIteration [NodeData (Val [Val [itemOf "x"]])] (setupExecution chainABStart)) chainABStart in
  length (runsOf (es_runData s1) "A") = 1 ∧ length (nodeExecutionStack (es_stack s1)) = 1 ∧ engineInv (onCancel s1).
Proof.
  intros s1. split; [vm_compute; reflexivity|]. split; [vm_compute; reflexivity|].
  eapply (@reachable_engineInv executeTypes (scripted [NodeData (Val [Val [itemOf "x"]])]) emptyStartData
    false None (λ _, 0%Z) noOutputs noRequiredInputs (λ data, data) noPairedItem (λ _ _, 0%Z) (λ _, "") (λ _ _, None)
    (chainWorkflow chainAB) _ 0 chainABStart (onCancel s1)).
  - discriminate.
  - eapply (starting_run _ _ _ _ (Some (plainNode 11 "A")) None None None None). reflexivity.
  - apply wellIndexed_check. by_eval.
  - vm_compute. reflexivity.
  - eapply rtc_l; [apply step_iteration with (s' := s1)|apply rtc_once, step_cancel].
    + vm_compute. discriminate.
    + vm_compute. reflexivity.
Defined.
