(* ===== verification/LinearRun.v ===== *)
(** * Executing a linear workflow

    The operations of the loop, put together on the simplest workflow: nodes in a
    row, each of which returns items.  The execution ends, calls every node once, in
    order, and hands the items of each node to the next one. *)

From S2P Require Import Prelude JsCollections NodeTypes DirectedGraph Fixtures RunData.
From S2P Require Import ExecutionStack Connections Workflow WorkflowSearch Trigger Waiting Items Requests.
From S2P Require Import EngineState Lifecycle Engine EngineFixtures Termination EngineInvariants.

(** ** Items without errors *)

Definition cleanItem (item : INodeExecutionData) : Prop :=
  obj_get "error" (item_json item) = None ∧ obj_get "$error" (item_json item) = None ∧ item_error item = None.

Lemma completed_json n items items' :
  Forall2 (completed n) items items' → item_json <$> items' = item_json <$> items.
Proof.
  induction 1 as [|item item' items items' Hi _ IH]; [done|]. csimpl. rewrite IH. f_equal.
  by destruct Hi as [->|(_ & i & _ & ->)].
Qed.

Lemma completed_clean n items items' :
  Forall2 (completed n) items items' → Forall cleanItem items → Forall cleanItem items'.
Proof.
  induction 1 as [|item item' items items' Hi _ IH]; [done|]. intros [Hc Hcs]%Forall_cons. constructor; [|auto].
  by destruct Hi as [->|(_ & i & _ & ->)].
Qed.

Lemma mergeErrors_clean items : Forall cleanItem items → mergeErrors (Val [Val items]) = Ok [Val items].
Proof.
  intros Hc. unfold mergeErrors. cbn [mapM_res].
  assert (mapM_res mergeItemError items = Ok items) as ->; [|done].
  induction Hc as [|item items (_ & H2 & H3) _ IH]; [done|]. cbn [mapM_res].
  assert (mergeItemError item = Ok item) as -> by (unfold mergeItemError; by rewrite H2, H3).
  cbn [mbind res_bind]. by rewrite IH.
Qed.

Lemma updatePairedItem_json metadata input items :
  item_json <$> imap (updatePairedItem metadata input) items = item_json <$> items.
Proof. rewrite fmap_imap. revert input. induction items using rev_ind; intros; [done|]. by rewrite imap_app, IHitems, fmap_app. Qed.

(** ** One node *)

Section linear.
Context `{INodeTypes} `{NodeRunner}.
Context (startData : IStartData) (manualMode : bool) (now : nat → Z).
Context (evaluateOutputs : INode → res (list NodeOutput)).
Context (evaluateRequiredInputs : INode → string → option RequiredInputs).
Context (convertBinaryData : slot NodeOutputData → slot NodeOutputData).
Context (getPairedItem : IRunData → string → ISourceData → IPairedItemData → res (option INodeExecutionData)).
Context (w : Workflow) (answer : nat → NodeCall → list INodeExecutionData).

(** Every call returns items without errors on one output; storing binary data does
    not change them. *)
Record answering : Prop := {
  an_call : ∀ n call, callNode n call =
    {| out_result := NodeData (Val [Val (answer n call)]); out_waitTill := None; out_metadata := None |};
  an_items : ∀ n call, answer n call ≠ [];
  an_clean : ∀ n call, Forall cleanItem (answer n call);
  an_binary : ∀ items, convertBinaryData (Val [Val items]) = Val [Val items];
}.
Hypothesis Hanswer : answering.
Hypothesis Hv1 : settings_executionOrder w = Some "v1".
Hypothesis Hdestination : sd_destinationNode startData = None.
Hypothesis Hfilter : sd_runNodeFilter startData = None.

(** A node of the workflow that executes, without settings for errors *)
Record ordinary (node : INode) : Prop := {
  or_enabled : is_disabled node = false;
  or_retry : node_retryOnFail node ≠ Some true;
  or_onError : node_onError node ≠ Some "continueErrorOutput";
  or_rewire : rewiredTo node = None;
  or_node : getNode w (node_name node) = Some node;
  or_type : ∃ nodeType, nodeTypeOf node = Some nodeType ∧ nt_execute nodeType = true;
}.

(** Nothing but the stack holds work, and nothing went wrong yet. *)
Record idle (s : EngineState) : Prop := {
  id_workflow : es_workflow s = w;
  id_waiting : waitingExecution (es_stack s) = [];
  id_pinData : es_pinData s = None;
  id_resultError : es_resultError s = None;
  id_metadata : es_metadata s = [];
  id_waitTill : es_waitTill s = None;
  id_status : es_status s = Running;
  id_lastTry : es_lastExecutionTry s = "";
}.

(** The items that a node returned, as its run records them: with a pair for each, by
    position, if its input allows it *)
Definition pairsOf (input items out : list INodeExecutionData) : Prop :=
  Forall2 (completed (length input)) items out ∧
  (pairable input [Val items] → Forall isPaired out ∧ out = imap (pairedAt (length input)) items).

Lemma ensureInputData_v1 ex st inputs :
  is_Some (getNode w (node_name (exec_node ex))) → mainInputs (exec_data ex) = Some inputs →
  ensureInputData w ex st = Ok (true, st).
Proof using Hv1.
  intros Hnode Hin. unfold ensureInputData.
  assert (∀ count i, ensureInputsFrom w ex i count = Ok true) as Hgen; [|by rewrite Hgen].
  induction count as [|count IH]; intros i; [done|]. cbn [ensureInputsFrom].
  destruct (getHighestNode_spec w _ (Some i) Hnode) as (r & -> & _). cbn [mbind res_bind].
  case_bools; [done|]. rewrite Hin. unfold isLegacyExecutionOrder. rewrite bool_decide_false by auto. apply IH.
Qed.

Lemma finishTry_clean ex s input items :
  let inputs := [Val input] in
  mainInputs (exec_data ex) = Some inputs → items ≠ [] → Forall cleanItem items →
  ∃ out, finishTry ex false (Val [Val items]) s =
      Ok (set_lastNodeExecuted (Some (node_name (exec_node ex))) s, Val [Val out], inr TryBreak) ∧
    out ≠ [] ∧ Forall cleanItem out ∧ pairsOf (slotItems (arr_get 0 inputs)) items out.
Proof using.
  intros inputs Hin Hne Hclean.
  destruct (assignPairedItems_spec ex inputs [Val items] Hin) as (outputs & Ho & Hc & Hp & _);
    [by repeat econstructor|done|].
  apply Forall2_cons_inv_l in Hc as (o & outputs' & (i1 & out & Hi1 & -> & Hc) & Hnil & ->).
  apply Forall2_nil_inv_l in Hnil as ->. injection Hi1 as <-.
  exists out. pose proof (completed_json _ _ _ Hc) as Hj. split_and!; [|..|split; [done|]].
  - unfold finishTry. rewrite Ho. unfold alwaysOutput. simpl.
    destruct out as [|y out]; [by destruct items|]. done.
  - intros ->. by destruct items.
  - by eapply completed_clean.
  - intros Hpair. pose proof (assignPairedItems_paired ex input items Hin Hpair) as Hat. rewrite Ho in Hat.
    injection Hat as ->. by destruct (proj1 (Forall_cons _ _ _) (Hp (ex_intro _ input (conj eq_refl Hpair)))).
Qed.

(** The call of the node at the top of the stack *)
Lemma runTries_answers ex run s x l :
  exec_data ex = [(NodeConnectionTypes.Main, [Val (x :: l)])] → exec_metadata ex = None →
  ordinary (exec_node ex) → idle s →
  ∃ call out, runTries manualMode evaluateOutputs convertBinaryData getPairedItem ex run s =
      Ok (set_lastNodeExecuted (Some (node_name (exec_node ex)))
            (set_calls (S (es_calls s)) (set_executionError None s)), Val [Val out], TryBreak) ∧
    call_node call = exec_node ex ∧ call_connectionInputData call = x :: l ∧
    out ≠ [] ∧ Forall cleanItem out ∧ pairsOf (x :: l) (answer (es_calls s) call) out.
Proof using Hanswer Hv1.
  intros Hdata Hmeta [Hen Hretry Honerr _ _ (nodeType & Htype & Hexec)] [Hw _ Hpin Herr _ Hwait _ _].
  unfold runTries. set (node := exec_node ex) in *. assert (maxTries node = 1) as ->.
  { unfold maxTries. by rewrite bool_decide_false. }
  cbn [tryLoop]. unfold runTry. fold node. unfold pinnedItems. rewrite Hen. cbn [set_executionError es_pinData].
  rewrite Hpin. cbn [mbind option_bind]. unfold runNode. fold node.
  assert (node_disabled node ≠ Some true) as Hdis by (intros E; unfold is_disabled in Hen; by rewrite E in Hen).
  rewrite bool_decide_false by done. rewrite Htype. cbn [es_workflow].
  assert (prepareConnectionInputData (es_workflow (set_executionError None s)) nodeType
    (getCustomOperation node nodeType) (exec_data ex) = Some (x :: l)) as ->.
  { unfold prepareConnectionInputData. rewrite Hexec, Hdata. by destruct (isLegacyExecutionOrder _). }
  unfold rethrowLastNodeError. cbn [set_executionError es_resultError]. rewrite Herr, Hexec. cbn [orb].
  unfold enterCode. rewrite (an_call Hanswer). cbn [out_waitTill out_metadata out_result].
  match goal with |- context [answer _ ?c] => set (call := c) end.
  match goal with |- context [retryFailed _ _ _ _ _ ?s1] => set (s1' := s1) end.
  cbn [tv_remaining Nat.sub retryFailed]. rewrite (an_binary Hanswer), bool_decide_false by done.
  destruct (finishTry_clean ex s1' (x :: l) (answer (es_calls s) call)) as (out & Ho & Hout);
    [by rewrite Hdata|apply Hanswer|apply Hanswer|].
  exists call, out. split; [|done]. change (es_calls (set_executionError None s)) with (es_calls s).
  rewrite Ho. cbn [mbind res_bind]. unfold s1'. by destruct s.
Qed.

(** ** The node that follows *)

Definition connTo (m : INode) : IConnection :=
  {| conn_node := node_name m; conn_type := NodeConnectionTypes.Main; conn_index := 0 |}.

(** The only node behind a node, if any: one with at most one input *)
Definition follows (name : string) (next : option INode) : Prop :=
  outgoing w name = match next with None => [] | Some m => [(0, connTo m)] end ∧
  ∀ m, next = Some m → numberOfInputs w (node_name m) ≤ 1 ∧ getNode w (node_name m) = Some m.

Lemma scheduleChildren_next name run out s next :
  es_workflow s = w → out ≠ [] → follows name next →
  scheduleChildren name run [Val out] s =
    Ok (match next with
        | None => s
        | Some m => set_stack (enqueue w (singleEntry name 0 run (Val out) (connTo m) None None m) (es_stack s)) s
        end).
Proof using Hv1.
  intros Hw Hne [Hout Hnext]. unfold scheduleChildren. rewrite Hw, Hout. unfold isLegacyExecutionOrder.
  rewrite bool_decide_false by auto. destruct next as [m|]; [|done].
  destruct (Hnext m eq_refl) as [Hn Hm]. cbn [foldM snd connTo conn_node].
  assert (obj_has (node_name m) (workflow_nodes w) = true) as -> by (apply map_has_get; eauto).
  cbn [mbind res_bind]. rewrite filter_cons_True, filter_nil.
  2:{ unfold outputRuns. simpl. rewrite bool_decide_true; [done|]. by destruct out. }
  change (array_sort ?f [?x]) with [x]. cbn [foldM]. unfold scheduleChild.
  rewrite Hw, (addNodeToBeExecuted_one _ _ _ _ _ _ _ _ _ _ m) by done. done.
Qed.

(** The node ran once, as the [i]-th call, on items with the JSON data [input] from these
    sources, and returned items with the JSON data [output]. *)
Definition ranOn (r : IRunData) (i : nat) (node : INode) (sources : list (slot ISourceData))
    (input output : list IDataObject) : Prop :=
  ∃ task call out, runsOf r (node_name node) = [task] ∧ task_source task = sources ∧
    task_executionStatus task = Some "success" ∧ task_executionIndex task = Some (Z.of_nat i) ∧
    task_data task = Some [(NodeConnectionTypes.Main, [Val out])] ∧ item_json <$> out = output ∧
    call_node call = node ∧ item_json <$> call_connectionInputData call = input ∧
    pairsOf (call_connectionInputData call) (answer i call) out.

(** The sources that the run of an entry records *)
Definition sourcesOf (entry : IExecuteData) : list (slot ISourceData) :=
  from_option (λ source, default [] (obj_get NodeConnectionTypes.Main source)) [] (exec_source entry).

(** An entry for the node with items of the given JSON data *)
Definition entryWith (node : INode) (sources : list (slot ISourceData)) (input : list IDataObject)
    (entry : IExecuteData) : Prop :=
  sourcesOf entry = sources ∧ exec_node entry = node ∧ exec_metadata entry = None ∧ exec_runIndex entry = None ∧ input ≠ [] ∧
  ∃ items, exec_data entry = [(NodeConnectionTypes.Main, [Val items])] ∧ item_json <$> items = input.

Lemma recordNode_next ex t0 i s out next :
  let name := node_name (exec_node ex) in
  ordinary (exec_node ex) → idle s → es_executionError s = None → out ≠ [] → Forall cleanItem out →
  follows name next → runsOf (es_runData s) name = [] → nodeExecutionStack (es_stack s) = [] →
  ∃ s' task, recordNode startData now evaluateRequiredInputs ex 0 t0 i (Val [Val out]) s =
      StepContinue s' ∧
    idle s' ∧ es_calls s' = es_calls s ∧ es_executionIndex s' = es_executionIndex s ∧ es_executionError s' = None ∧
    (∀ n, runsOf (es_runData s') n = if bool_decide (n = name) then [task] else runsOf (es_runData s) n) ∧
    task_executionStatus task = Some "success" ∧ task_executionIndex task = Some i ∧
    task_data task = Some [(NodeConnectionTypes.Main, [Val out])] ∧ task_source task = sourcesOf ex ∧
    match next with
    | None => nodeExecutionStack (es_stack s') = []
    | Some m => ∃ entry, nodeExecutionStack (es_stack s') = [entry] ∧
        entryWith m [Val (sourceData name 0 0)] (item_json <$> out) entry
    end.
Proof using Hv1 Hdestination.
  intros name [_ _ _ Hrew _ _] Hidle Herr Hne Hclean Hfollows Hruns Hstack.
  unfold recordNode. fold name. cbn [readClock].
  set (s1 := set_runData _ s). change (es_executionError (set_ticks (S (es_ticks s1)) s1)) with (es_executionError s).
  rewrite Herr. unfold completeNode. fold name.
  rewrite mergeErrors_clean by done. cbn [performing].
  pose proof Hidle as [Hw Hwaiting Hpin Hres Hmeta Hwait Hstatus Hlast].
  assert (∀ n, runsOf (es_runData s1) n = runsOf (es_runData s) n) as Hruns1 by (intros n; apply runsOf_ensure).
  match goal with |- context [pinnedItems ?s2 ?n] => assert (pinnedItems s2 n = None) as ->;
    [unfold pinnedItems; simpl; rewrite Hpin; by case_match|] end.
  rewrite andb_false_r. cbn [writePinned]. unfold withOutputs. rewrite Hrew.
  match goal with |- context [recordTask name 0 ?t] => set (task := t) end.
  match goal with |- context [es_waitTill ?s3] => set (s3' := s3);
    change (es_waitTill s3') with (es_waitTill s) end.
  rewrite Hwait, Hdestination. cbn [fmap option_fmap option_map]. rewrite bool_decide_false by done.
  rewrite (scheduleChildren_next name 0 out s3' next) by done. cbn [performing].
  assert (∀ n, runsOf (es_runData s3') n = if bool_decide (n = name) then [task] else runsOf (es_runData s) n) as Hruns3.
  { intros n. unfold s3'. simpl. rewrite recordTask_runs. case_bools; [|apply Hruns1].
    fold s1. by rewrite Hruns1, Hruns. }
  match goal with |- context [releaseWaitingNodes _ ?s4] => set (s4' := s4) end.
  assert (waitingExecution (es_stack s4') = []) as Hw4 by (unfold s4'; by destruct next).
  unfold releaseWaitingNodes. rewrite bool_decide_false by (rewrite Hw4; by intros [_ ?]). cbn [performing].
  exists s4', task. split; [done|].
  assert (idle s4' ∧ es_calls s4' = es_calls s ∧ es_executionIndex s4' = es_executionIndex s ∧
    es_executionError s4' = None ∧ es_runData s4' = es_runData s3') as (H1 & H2 & H2' & H3 & H4).
  { unfold s4', s3', s1. destruct next; (split; [by split|done]). }
  split; [done|]. split; [done|]. split; [done|]. split; [done|]. split; [by rewrite H4|].
  split; [unfold task; simpl; by rewrite Hwait|]. split; [done|]. split; [done|]. split; [done|].
  unfold s4'. destruct next as [m|]; [|done]. simpl. rewrite bool_decide_true by done.
  unfold s3'. simpl. rewrite Hstack. eexists. split; [reflexivity|]. split_and!; try done.
  - by destruct out.
  - exists out. done.
Qed.

(** One iteration *)
Lemma iteration_next entry node sources input s next :
  let name := node_name node in
  ordinary node → idle s → es_executionIndex s = Z.of_nat (es_calls s) →
  nodeExecutionStack (es_stack s) = [entry] → entryWith node sources input entry →
  runsOf (es_runData s) name = [] → follows name next →
  ∃ s' output, iteration startData manualMode None now evaluateOutputs evaluateRequiredInputs convertBinaryData
      getPairedItem s = StepContinue s' ∧
    idle s' ∧ es_calls s' = S (es_calls s) ∧ es_executionIndex s' = Z.of_nat (es_calls s') ∧
    es_executionError s' = None ∧ (∀ n, n ≠ name → runsOf (es_runData s') n = runsOf (es_runData s) n) ∧
    ranOn (es_runData s') (es_calls s) node sources input output ∧
    match next with
    | None => nodeExecutionStack (es_stack s') = []
    | Some m => ∃ entry', nodeExecutionStack (es_stack s') = [entry'] ∧
        entryWith m [Val (sourceData name 0 0)] output entry'
    end.
Proof using Hanswer Hv1 Hdestination Hfilter.
  intros name Hord Hidle Hindex Hstack (Hsources & Hnode & Hmeta & Hri & Hne & items & Hdata & Hitems) Hruns Hfollows.
  unfold iteration. rewrite Hstack. cbn [checkTimeout].
  rewrite bool_decide_false by (by rewrite (id_status _ Hidle)).
  destruct items as [|x0 l0]; [by subst input|].
  unfold executeEntry. cbn [readClock]. rewrite Hnode, Hdata. fold name. cbn [mappable forallb negb snd andb].
  rewrite Hmeta. set (ex := {| exec_data := updatePairedItems _ _ |}).
  set (s1 := set_executionIndex _ _).
  assert (currentRunIndex (es_runData s1) ex = 0) as ->.
  { unfold currentRunIndex, ex. simpl. rewrite Hri. fold name.
    change (length (runsOf (es_runData s) name) = 0). by rewrite Hruns. }
  rewrite bool_decide_false.
  2:{ simpl. rewrite (id_lastTry _ Hidle). unfold executionTry. by destruct name. }
  unfold skippedByFilter. rewrite Hfilter. change (es_workflow s1) with (es_workflow s). rewrite (id_workflow _ Hidle).
  edestruct (imap (updatePairedItem None 0) (x0 :: l0)) as [|x l] eqn:Himap; [done|].
  assert (exec_data ex = [(NodeConnectionTypes.Main, [Val (x :: l)])]) as Hex.
  { change (exec_data ex) with
      [(NodeConnectionTypes.Main, [Val (imap (updatePairedItem None 0) (x0 :: l0))])]. by rewrite Himap. }
  rewrite (ensureInputData_v1 ex _ [Val (x :: l)]).
  2:{ change (exec_node ex) with node. rewrite (or_node _ Hord). by eexists. }
  2:{ by rewrite Hex. }
  cbn [performing negb]. change (exec_metadata ex) with (@None ITaskMetadata).
  cbn [mbind option_bind default from_option].
  match goal with |- context [runTries _ _ _ _ _ _ ?s2] => set (s2' := s2) end.
  assert (idle s2') as Hidle2 by (by destruct Hidle).
  destruct (runTries_answers ex 0 s2' x l Hex eq_refl Hord Hidle2) as (call & out & -> & Hc1 & Hc2 & Ho1 & Ho2 & Ho3).
  cbn [performing]. change (exec_node ex) with node in *. fold name.
  match goal with |- context [recordNode _ _ _ _ _ ?t ?i _ ?s3] =>
    destruct (recordNode_next ex t i s3 out next) as (s' & task & Hs' & Hid' & Hcalls & Hix & Herr & Hr & Ht1 & Ht2 & Ht3 & Ht4 & Hnext)
  end; [done|by destruct Hidle2|done..|].
  exists s', (item_json <$> out). split; [exact Hs'|]. split; [done|]. split; [done|].
  split; [rewrite Hix, Hcalls; simpl; lia|]. split; [done|].
  split; [intros n Hn; rewrite Hr, bool_decide_false by done; done|]. split; [|done].
  exists task, call, out. split; [by rewrite Hr, bool_decide_true|]. split; [by rewrite Ht4, <- Hsources|].
  split; [done|]. split; [by rewrite Ht2, <- Hindex|].
  split; [done|]. split; [done|]. split; [done|]. rewrite Hc2. split; [|done].
  rewrite <- Himap, updatePairedItem_json. done.
Qed.

(** ** The whole row *)

(** Ordinary nodes in a row: each is connected to the next one only. *)
Fixpoint linear (ns : list INode) : Prop :=
  match ns with
  | [] => True
  | node :: rest =>
      ordinary node ∧ (node_name node ∉ node_name <$> rest) ∧ follows (node_name node) (head rest) ∧ linear rest
  end.

(** The nodes ran one after the other, each on the output of the one before it. *)
Fixpoint ranThrough (r : IRunData) (i : nat) (ns : list INode) (sources : list (slot ISourceData))
    (input : list IDataObject) : Prop :=
  match ns with
  | [] => True
  | node :: rest => ∃ output, ranOn r i node sources input output ∧
      ranThrough r (S i) rest [Val (sourceData (node_name node) 0 0)] output
  end.

Lemma finishExecution_idle s :
  idle s → es_executionError s = None →
  run_status (finishExecution s) = Success ∧ run_finished (finishExecution s) = Some true ∧
  es_calls (run_state (finishExecution s)) = es_calls s ∧
  es_runData (run_state (finishExecution s)) = es_runData s.
Proof using.
  intros [_ _ _ _ Hmeta Hwait Hstatus _] Herr. unfold finishExecution.
  rewrite bool_decide_false by (rewrite Hstatus; by intros [? _]). rewrite Herr.
  unfold processSuccessExecution, finalStatus. simpl. rewrite Hwait, Hmeta. done.
Qed.

Lemma executionLoop_linear ns entry node sources input s :
  linear (node :: ns) → idle s → es_executionIndex s = Z.of_nat (es_calls s) →
  nodeExecutionStack (es_stack s) = [entry] → entryWith node sources input entry →
  (∀ n, n ∈ node :: ns → runsOf (es_runData s) (node_name n) = []) →
  ∃ r, executionLoop startData manualMode None now evaluateOutputs evaluateRequiredInputs convertBinaryData
      getPairedItem (S (S (length ns))) s = Some r ∧
    run_status r = Success ∧ run_finished r = Some true ∧
    es_calls (run_state r) = es_calls s + S (length ns) ∧
    (∀ n, n ∉ (node_name <$> node :: ns) → runsOf (es_runData (run_state r)) n = runsOf (es_runData s) n) ∧
    ranThrough (es_runData (run_state r)) (es_calls s) (node :: ns) sources input.
Proof using Hanswer Hv1 Hdestination Hfilter.
  revert entry node sources input s.
  induction ns as [|m ns IH]; intros entry node sources input s (Hord & Hno & Hfol & Hlin) Hidle Hix Hst Hentry Hruns.
  all: destruct (iteration_next entry node sources input s _ Hord Hidle Hix Hst Hentry (Hruns node ltac:(left)) Hfol)
    as (s1 & output & Hs1 & Hid1 & Hc1 & Hix1 & Herr1 & Hr1 & Hran & Hnext); simpl in Hnext.
  - cbn [executionLoop]. rewrite Hs1. unfold iteration. rewrite Hnext.
    destruct (finishExecution_idle s1 Hid1 Herr1) as (F1 & F2 & F3 & F4).
    eexists. split; [reflexivity|]. rewrite F1, F2, F3, F4. simpl. split; [done|]. split; [done|]. split; [lia|].
    split; [intros n Hn; apply Hr1; set_solver|]. by exists output.
  - destruct Hnext as (entry' & Hst1 & Hentry').
    destruct (IH entry' m _ output s1 Hlin Hid1 Hix1 Hst1 Hentry') as (r & Hr & F1 & F2 & F3 & F4 & F5).
    { intros n Hn. rewrite Hr1; [apply Hruns; by right|]. intros Heq. apply Hno. apply list_elem_of_fmap. by exists n. }
    exists r. split; [cbn [executionLoop]; rewrite Hs1; exact Hr|]. split; [done|]. split; [done|].
    split; [rewrite F3, Hc1; simpl; lia|]. split.
    + intros n Hn. rewrite F4, Hr1 by set_solver. done.
    + exists output. split; [|by rewrite <- Hc1].
      destruct Hran as (task & call & out & Ht & Hrest). exists task, call, out. split; [|done]. by rewrite F4.
Qed.
End linear.

(** C1: a workflow of ordinary nodes in a row, each of which returns items without
    errors, is executed to its end: the loop stops, after one iteration per node and
    one to see the empty stack, with the status [success]; every node is called
    exactly once, in order; it is called with the items of the node before it, and its
    only run records the node they came from, the items it returned, paired with the
    items of its input where they allow it, and its place in the order. *)
Theorem linear_workflow_succeeds `{INodeTypes} `{NodeRunner} (startData : IStartData) (manualMode : bool)
    (now : nat → Z) (evaluateOutputs : INode → res (list NodeOutput))
    (evaluateRequiredInputs : INode → string → option RequiredInputs)
    (convertBinaryData : slot NodeOutputData → slot NodeOutputData)
    (getPairedItem : IRunData → string → ISourceData → IPairedItemData → res (option INodeExecutionData))
    (w : Workflow) (answer : nat → NodeCall → list INodeExecutionData)
    (ns : list INode) (node : INode) (items : list INodeExecutionData) :
  answering convertBinaryData answer → settings_executionOrder w = Some "v1" →
  sd_destinationNode startData = None → sd_runNodeFilter startData = None →
  linear w (node :: ns) → items ≠ [] →
  ∃ r, executionLoop startData manualMode None now evaluateOutputs evaluateRequiredInputs convertBinaryData
      getPairedItem (S (S (length ns))) (startWith w (entryFor node items)) = Some r ∧
    run_status r = Success ∧ run_finished r = Some true ∧ es_calls (run_state r) = S (length ns) ∧
    ranThrough answer (es_runData (run_state r)) 0 (node :: ns) [] (item_json <$> items).
Proof.
  intros Ha Hv1 Hd Hf Hlin Hne.
  destruct (executionLoop_linear startData manualMode now evaluateOutputs evaluateRequiredInputs convertBinaryData
    getPairedItem w answer Ha Hv1 Hd Hf ns (entryFor node items) node [] (item_json <$> items)
    (startWith w (entryFor node items))) as (r & Hr & F1 & F2 & F3 & _ & F5); try done.
  - split_and!; try done; [by destruct items|by exists items].
  - by exists r.
Qed.

(** The items that the calls return *)
Definition sampleAnswer : nat → NodeCall → list INodeExecutionData := λ n call,
  if bool_decide (n = 0) then [itemOf "first"] else [itemOf "second"].

Definition sampleRunner : NodeRunner := λ n call,
  {| out_result := NodeData (Val [Val (sampleAnswer n call)]); out_waitTill := None; out_metadata := None |}.

Lemma sampleAnswer_answering : @answering sampleRunner (λ data, data) sampleAnswer.
Proof.
  split; [done| | |done]; intros n call; unfold sampleAnswer; case_bools;
    [done|done|by repeat constructor|by repeat constructor].
Qed.

Lemma chainAB_linear : @linear executeTypes (chainWorkflow chainAB) chainAB.
Proof.
  assert (∀ n, n ∈ chainAB → @ordinary executeTypes (chainWorkflow chainAB) n) as Hord.
  { intros n [->|[->|[]%elem_of_nil]%elem_of_cons]%elem_of_cons;
      (split; [reflexivity|discriminate|discriminate|reflexivity|reflexivity|]; by eexists). }
  refine (conj (Hord _ _) (conj _ (conj (conj eq_refl _) (conj (Hord _ _) (conj _ (conj (conj eq_refl _) I)))))).
  - left.
  - by_eval.
  - intros m [= <-]. split; [vm_compute; lia|reflexivity].
  - right. left.
  - apply not_elem_of_nil.
  - discriminate.
Qed.

Lemma linear_workflow_succeeds_witness :
  ∃ r, @executionLoop executeTypes sampleRunner emptyStartData false None (λ _, 0%Z) noOutputs noRequiredInputs
      (λ data, data) noPairedItem 3 (startWith (chainWorkflow chainAB) (entryFor (plainNode 11 "A") [itemOf "a"])) =
      Some r ∧
    run_status r = Success ∧ es_calls (run_state r) = 2 ∧
    ranThrough sampleAnswer (es_runData (run_state r)) 0 chainAB [] [item_json (itemOf "a")].
Proof.
  destruct (@linear_workflow_succeeds executeTypes sampleRunner emptyStartData false (λ _, 0%Z) noOutputs
    noRequiredInputs (λ data, data) noPairedItem (chainWorkflow chainAB) sampleAnswer [plainNode 12 "B"]
    (plainNode 11 "A") [itemOf "a"] sampleAnswer_answering eq_refl eq_refl eq_refl chainAB_linear)
    as (r & H1 & H2 & _ & H3 & H4); [done|].
  exists r. split; [exact H1|]. split; [exact H2|]. split; [exact H3|exact H4].
Defined.
