(* ===== verification/Ordering.v ===== *)
(** * The order in which the following nodes run

    In the version 1 order the nodes that follow a node are sorted by their position
    on the canvas before they are put on the stack ([workflow-execute.ts], the end of
    the loop body).  Positions are IEEE doubles; the comparison function is a strict
    order as long as no coordinate is NaN. *)

From S2P Require Import Prelude JsCollections NodeTypes DirectedGraph Fixtures RunData.
From S2P Require Import ExecutionStack Connections Workflow WorkflowSearch Trigger Waiting Items Requests.
From S2P Require Import EngineState Lifecycle Engine EngineFixtures.

(** ** Sorting *)

Section sorted.
Context {A : Type} (compareFn : A → A → Z) (P : A → Prop).
Abbreviation before := (λ a b, compareFn a b < 0)%Z (only parsing).
Context (before_asym : ∀ a b, P a → P b → before a b → ¬ before b a).
Context (before_trans : ∀ a b c, P a → P b → P c → before a b → before b c → before a c).

Definition inOrder (a b : A) : Prop := ¬ before b a.

Lemma elem_of_sort_place x y l : y ∈ sort_place compareFn x l ↔ y = x ∨ y ∈ l.
Proof. rewrite sort_place_perm. set_solver. Qed.

Lemma sort_place_sorted x l :
  P x → Forall P l → StronglySorted inOrder l → StronglySorted inOrder (sort_place compareFn x l).
Proof.
  intros Hx. induction l as [|y l IH]; intros Hl Hs; simpl; [repeat constructor|].
  apply Forall_cons in Hl as [Hy Hl]. apply StronglySorted_inv in Hs as [Hs Hfirst].
  rewrite Forall_forall in Hfirst, Hl. case_bools.
  - constructor; [constructor; [done|by apply Forall_forall]|]. apply Forall_forall.
    intros z [->|Hz]%elem_of_cons; [by apply before_asym|].
    intros Hzx. apply (Hfirst z Hz). by apply (before_trans z x y); [apply Hl|..].
  - constructor; [apply IH; [by apply Forall_forall|done]|]. apply Forall_forall.
    intros z [->|Hz]%elem_of_sort_place; [done|by apply Hfirst].
Qed.

Lemma array_sort_sorted l : Forall P l → StronglySorted inOrder (array_sort compareFn l).
Proof.
  intros Hl. unfold array_sort.
  assert (∀ l s, Forall P l → Forall P s → StronglySorted inOrder s →
    StronglySorted inOrder (foldl (λ sorted x, sort_place compareFn x sorted) s l)) as Hgen;
    [|apply Hgen; [done|constructor|constructor]].
  clear l Hl. induction l as [|x l IH]; intros s Hl Hs Hsort; simpl; [done|].
  apply Forall_cons in Hl as [Hx Hl]. apply IH; [done| |by apply sort_place_sorted].
  rewrite Forall_forall in *. intros z [->|?]%elem_of_sort_place; auto.
Qed.
End sorted.

Lemma StronglySorted_reverse {A} (P : A → Prop) (R S : A → A → Prop) l :
  (∀ a b, P a → P b → R b a → S a b) → Forall P l → StronglySorted R l → StronglySorted S (reverse l).
Proof.
  intros HRS. induction l as [|a l IH]; intros Hl Hs; [constructor|].
  apply Forall_cons in Hl as [Ha Hl]. apply StronglySorted_inv in Hs as [Hs Hfirst].
  rewrite reverse_cons. apply StronglySorted_app. split; [|split; [by apply IH|repeat constructor]].
  rewrite Forall_forall in Hl, Hfirst. intros x y Hx ->%list_elem_of_singleton. rewrite elem_of_reverse in Hx.
  apply HRS; auto.
Qed.

(** ** Positions *)

(** The place of a number that is not NaN in the order of the doubles *)
Definition rank (x : spec_float) : Z * Z * Z :=
  match x with
  | S754_infinity true => (-2, 0, 0)
  | S754_finite true m e => (-1, - e, - Zpos m)
  | S754_finite false m e => (1, e, Zpos m)
  | S754_infinity false => (2, 0, 0)
  | _ => (0, 0, 0)
  end%Z.

Definition rankBelow (a b : Z * Z * Z) : Prop :=
  (a.1.1 < b.1.1 ∨ (a.1.1 = b.1.1 ∧ (a.1.2 < b.1.2 ∨ (a.1.2 = b.1.2 ∧ a.2 < b.2))))%Z.

Lemma SFltb_rank x y :
  x ≠ S754_nan → y ≠ S754_nan → SFltb x y = true ↔ rankBelow (rank x) (rank y).
Proof.
  intros Hx Hy. unfold SFltb, rankBelow.
  destruct x as [sx|sx| |sx mx ex], y as [sy|sy| |sy my ey]; try done;
    try destruct sx; try destruct sy; simpl; try (split; [done|lia]); try (split; [lia|done]);
    try (destruct (Z.compare_spec ex ey); subst; simpl; try (split; [lia|done]); try (split; [done|lia]);
         change (Pos.compare_cont Eq mx my) with (Pos.compare mx my);
         destruct (Pos.compare_spec mx my); subst; simpl; split; try done; lia).
Qed.

Definition onCanvas (p : spec_float * spec_float) : Prop := p.1 ≠ S754_nan ∧ p.2 ≠ S754_nan.

(** [a] is further up than [b], or at the same height and further left. *)
Definition topLeftOf (a b : spec_float * spec_float) : Prop :=
  rankBelow (rank a.2) (rank b.2) ∨ (rank a.2 = rank b.2 ∧ rankBelow (rank a.1) (rank b.1)).

Lemma comparePositions_topLeft a b :
  onCanvas a → onCanvas b → (comparePositions a b < 0)%Z ↔ topLeftOf b a.
Proof.
  intros [Ha1 Ha2] [Hb1 Hb2]. unfold comparePositions, topLeftOf.
  assert (∀ x y, x ≠ S754_nan → y ≠ S754_nan → SFltb x y = false ↔ ¬ rankBelow (rank x) (rank y)) as Hnot.
  { intros x y Hx Hy. rewrite <- (SFltb_rank x y Hx Hy). by destruct (SFltb x y). }
  assert (∀ p q : Z * Z * Z, ¬ rankBelow p q → ¬ rankBelow q p → p = q) as Heq.
  { intros [[p1 p2] p3] [[q1 q2] q3]. unfold rankBelow; simpl. intros. assert (p1 = q1) by lia.
    assert (p2 = q2) by lia. assert (p3 = q3) by lia. congruence. }
  destruct (SFltb a.2 b.2) eqn:E1; [|destruct (SFltb b.2 a.2) eqn:E2; [|destruct (SFltb b.1 a.1) eqn:E3]];
    rewrite ?SFltb_rank, ?Hnot in * by done.
  - split; [lia|]. intros [H|[H _]]; [unfold rankBelow in *; lia|]. rewrite H in E1. unfold rankBelow in E1. lia.
  - split; [by left|done].
  - split; [right; split; [by apply Heq|done]|done].
  - split; [lia|]. by intros [?|[_ ?]].
Qed.

Lemma topLeftOf_asym a b : topLeftOf a b → ¬ topLeftOf b a.
Proof.
  unfold topLeftOf, rankBelow. destruct (rank a.1) as [[? ?] ?], (rank a.2) as [[? ?] ?],
    (rank b.1) as [[? ?] ?], (rank b.2) as [[? ?] ?]. simpl.
  intros [H1|[H1 H2]] [H3|[H3 H4]]; simplify_eq; lia.
Qed.

Lemma topLeftOf_trans a b c : topLeftOf a b → topLeftOf b c → topLeftOf a c.
Proof.
  unfold topLeftOf, rankBelow. destruct (rank a.1) as [[? ?] ?], (rank a.2) as [[? ?] ?],
    (rank b.1) as [[? ?] ?], (rank b.2) as [[? ?] ?], (rank c.1) as [[? ?] ?], (rank c.2) as [[? ?] ?]. simpl.
  intros [H1|[H1 H2]] [H3|[H3 H4]]; simplify_eq; [left; lia|left; lia|left; lia|right; split; [done|lia]].
Qed.

(** ** The stack after a node *)

Section children.
Context (name : string) (run : nat) (outputs : NodeOutputData).

(** A connection to an existing node with at most one input *)
Definition plainChild (w : Workflow) (oc : nat * IConnection) : Prop :=
  numberOfInputs w (conn_node oc.2) ≤ 1 ∧
  node_name <$> getNode w (conn_node oc.2) = Some (conn_node oc.2) ∧ onCanvas (positionOf w oc.2).

Lemma scheduleChild_stack w oc s :
  es_workflow s = w → settings_executionOrder w = Some "v1" → plainChild w oc →
  ∃ s', scheduleChild name run outputs s oc = Ok s' ∧ es_workflow s' = w ∧
    stackNames (es_stack s') = conn_node oc.2 :: stackNames (es_stack s).
Proof.
  intros <- Hv1 (Hn & Hnode & _). apply fmap_Some in Hnode as (node & Hnode & Hname).
  unfold scheduleChild. rewrite (addNodeToBeExecuted_one _ _ _ _ _ _ _ _ _ _ node) by done.
  eexists. split; [reflexivity|]. split; [done|]. simpl. rewrite stackNames_enqueue, bool_decide_true by done.
  simpl. by rewrite <- Hname.
Qed.

Lemma scheduleChildren_stack w l s :
  es_workflow s = w → settings_executionOrder w = Some "v1" → Forall (plainChild w) l →
  ∃ s', foldM (scheduleChild name run outputs) s l = Ok s' ∧ es_workflow s' = w ∧
    stackNames (es_stack s') = reverse ((λ oc, conn_node oc.2) <$> l) ++ stackNames (es_stack s).
Proof.
  intros Hw Hv1. revert s Hw. induction l as [|oc l IH]; intros s Hw Hl; cbn [foldM]; [by exists s|].
  apply Forall_cons in Hl as [Hoc Hl].
  destruct (scheduleChild_stack w oc s Hw Hv1 Hoc) as (s1 & -> & Hw1 & Hst1). cbn [mbind res_bind].
  destruct (IH s1 Hw1 Hl) as (s' & Hs' & Hw' & Hst'). exists s'. split; [done|]. split; [done|].
  rewrite Hst', Hst1. csimpl. by rewrite reverse_cons, <- app_assoc.
Qed.
End children.


(** [A] feeds [B] (below) and [D] (above). *)
Definition forkNodes : list INode :=
  let at_ (n : INode) (y : positive) : INode :=
    {| node_ref := node_ref n; node_id := node_id n; node_name := node_name n;
       node_typeVersion := node_typeVersion n; node_type := node_type n;
       node_position := (S754_zero false, S754_finite false y 0); node_disabled := None;
       node_retryOnFail := None; node_maxTries := None; node_waitBetweenTries := None;
       node_alwaysOutputData := None; node_executeOnce := None; node_onError := None;
       node_continueOnFail := None; node_parameters := []; node_rewireOutputLogTo := None;
       node_rest := [] |} in
  [at_ nodeA 1; at_ nodeB 300; at_ nodeD 100]%positive.

Definition forkWorkflow : Workflow :=
  v1 (setConnections
    [("A", [("main", [Some [{| conn_node := "B"; conn_type := "main"; conn_index := 0 |};
                            {| conn_node := "D"; conn_type := "main"; conn_index := 0 |}]])])]
    (setNodes forkNodes (emptyWorkflow "fork"))).

