(* ===== verification/Failure.v ===== *)
(** * Failing nodes

    What the execution loop does when a node throws: the tries, the recorded error,
    the entry that is kept for a restart, and the status of the execution. *)

From S2P Require Import Prelude JsCollections NodeTypes DirectedGraph Fixtures RunData.
From S2P Require Import ExecutionStack Connections Workflow WorkflowSearch Trigger Waiting Items Requests.
From S2P Require Import EngineState Lifecycle Engine EngineFixtures Termination EngineInvariants.

(** ** The final status *)

Lemma finishExecution_error s e :
  es_executionError s = Some e →
  run_status (finishExecution s) = (if isCancellation e then Canceled else Error) ∧
  run_finished (finishExecution s) = None ∧
  es_resultError (run_state (finishExecution s)) = Some e ∧
  es_stack (run_state (finishExecution s)) = es_stack s.
Proof.
  intros He. unfold finishExecution. rewrite bool_decide_false by (rewrite He; naive_solver).
  rewrite He. done.
Qed.

(** ** A node that always throws *)

Section failing.
Context `{INodeTypes} `{NodeRunner}.
Context (startData : IStartData) (manualMode : bool) (now : nat → Z).
Context (evaluateOutputs : INode → res (list NodeOutput)).
Context (evaluateRequiredInputs : INode → string → option RequiredInputs).
Context (convertBinaryData : slot NodeOutputData → slot NodeOutputData).
Context (getPairedItem : IRunData → string → ISourceData → IPairedItemData → res (option INodeExecutionData)).
Context (errors : nat → ExecutionError).
Context (Hthrows : ∀ n call, out_result (callNode n call) = NodeThrows (errors n)).

(** The node's code will be called: it is not pinned or disabled, it can execute, it
    has items, and no earlier error is pending. *)
Definition callable (ex : IExecuteData) (s : EngineState) : Prop :=
  let node := exec_node ex in
  node_disabled node ≠ Some true ∧ pinnedItems s node = None ∧ es_resultError s = None ∧
  ∃ nodeType items, nodeTypeOf node = Some nodeType ∧ nt_execute nodeType = true ∧
    prepareConnectionInputData (es_workflow s) nodeType (getCustomOperation node nodeType) (exec_data ex) =
      Some items.

(** The parts of the state that failing calls leave alone *)
Record untouched (s s' : EngineState) : Prop := {
  un_workflow : es_workflow s' = es_workflow s;
  un_stack : es_stack s' = es_stack s;
  un_runData : es_runData s' = es_runData s;
  un_pinData : es_pinData s' = es_pinData s;
  un_resultError : es_resultError s' = es_resultError s;
  un_status : es_status s' = es_status s;
}.

Lemma untouched_trans s1 s2 s3 : untouched s1 s2 → untouched s2 s3 → untouched s1 s3.
Proof. intros [] []. split; congruence. Qed.

Lemma callable_untouched ex s s' : untouched s s' → callable ex s → callable ex s'.
Proof.
  intros [Hw _ _ Hp He _] (H1 & H2 & H3 & nt & items & H4 & H5 & H6). unfold callable, pinnedItems in *.
  rewrite Hw, Hp, He. split_and!; try done. by exists nt, items.
Qed.

Lemma runNode_throws ex run response s :
  callable ex s →
  ∃ s', runNode manualMode ex run response s = (s', NodeThrows (errors (es_calls s))) ∧
    untouched s s' ∧ es_calls s' = S (es_calls s).
Proof.
  intros (H1 & _ & H3 & nt & items & H4 & H5 & H6). unfold runNode. rewrite bool_decide_false by done.
  rewrite H4, H6. unfold rethrowLastNodeError. rewrite H3, H5. simpl. unfold enterCode.
  rewrite Hthrows. eexists. split; [reflexivity|]. by split.
Qed.

Lemma runTry_throws ex run v s :
  callable ex s →
  ∃ s' v', runTry manualMode evaluateOutputs convertBinaryData getPairedItem ex run v s =
      Ok (s', v', inl (errors (es_calls s))) ∧
    untouched s s' ∧ es_calls s' = S (es_calls s) ∧
    tv_remaining v' = tv_remaining v ∧ tv_data v' = tv_data v.
Proof.
  intros Hc. unfold runTry. destruct Hc as (H1 & H2 & Hrest) eqn:E. rewrite H2.
  destruct (runNode_throws ex run (Some (collectResponses ex (es_runData s) (tv_response v))) s Hc)
    as (s1 & -> & Hun & Hcalls).
  assert (retryFailed manualMode ex run (tv_remaining v) (NodeThrows (errors (es_calls s))) s1 =
    (s1, NodeThrows (errors (es_calls s)), tv_remaining v)) as ->.
  { by destruct (tv_remaining v). }
  eexists s1, _. split; [reflexivity|]. by split_and!.
Qed.

Lemma tryLoop_throws fuel ex run v s :
  callable ex s → tv_remaining v < fuel →
  ∃ s', tryLoop manualMode evaluateOutputs convertBinaryData getPairedItem fuel ex run v s =
      Ok (s', tv_data v, TryBreak) ∧
    untouched s s' ∧ es_calls s' = es_calls s + S (tv_remaining v) ∧
    es_executionError s' = Some (errors (es_calls s + tv_remaining v)) ∧
    es_lastNodeExecuted s' = Some (node_name (exec_node ex)).
Proof.
  revert v s. induction fuel as [|fuel IH]; intros v s Hc Hf; [lia|]. cbn [tryLoop].
  destruct (runTry_throws ex run v (set_executionError None s)) as (s1 & v1 & -> & Hun & Hcalls & Hrem & Hdata).
  { eapply callable_untouched; [|exact Hc]. by split. }
  simpl in Hcalls. cbn [mbind res_bind]. rewrite Hrem.
  assert (untouched s s1) as Hun1 by (eapply untouched_trans; [|exact Hun]; by split).
  destruct (tv_remaining v) as [|k] eqn:Hk.
  - eexists. split; [by rewrite Hdata|]. simpl. split; [by destruct Hun1|]. rewrite Nat.add_0_r. split; [lia|done].
  - set (s2 := set_executionError (Some _) _).
    destruct (IH {| tv_response := tv_response v1; tv_data := tv_data v1; tv_remaining := k |} s2)
      as (s' & Hs' & Hun' & Hcalls' & Herr & Hlast).
    { eapply callable_untouched; [|exact Hc]. by destruct Hun1. }
    { simpl; lia. }
    exists s'. simpl in *. rewrite Hs', Hdata. split; [done|]. split; [by eapply untouched_trans; [|exact Hun'];
      destruct Hun1|]. rewrite Hcalls', Herr, Hcalls. split; [lia|]. split; [do 2 f_equal; lia|done].
Qed.

(** The run that a failure leaves in the run data *)
Definition failedRun (e : ExecutionError) (ex : IExecuteData) (task : ITaskData) : Prop :=
  task_error task = Some e ∧ task_executionStatus task = Some "error" ∧
  task_metadata task = exec_metadata ex.

Lemma recordTask_lookup name run task r :
  run ≤ length (runsOf r name) →
  ∃ recorded, runsOf (recordTask name run task r) name !! run = Some recorded ∧
    task_executionStatus recorded = task_executionStatus task ∧ task_metadata recorded = task_metadata task ∧
    (is_Some (task_error task) → task_error recorded = task_error task).
Proof.
  intros Hrun. rewrite recordTask_runs, bool_decide_true by done.
  destruct (runsOf r name !! run) as [current|] eqn:E.
  - eexists. split; [apply list_lookup_insert_eq; by eapply lookup_lt_Some|]. split_and!; try done.
    intros [e He]. simpl. by rewrite He.
  - apply lookup_ge_None in E. assert (run = length (runsOf r name)) as -> by lia.
    eexists. split; [by rewrite list_lookup_middle|]. done.
Qed.

Lemma recordNode_fails ex run t0 i data s e :
  let name := node_name (exec_node ex) in
  es_executionError s = Some e → continuesOnFail (exec_node ex) = false →
  run ≤ length (runsOf (es_runData s) name) →
  ∃ s', recordNode startData now evaluateRequiredInputs ex run t0 i data s = StepBreak s' ∧
    es_executionError s' = Some e ∧ es_calls s' = es_calls s ∧
    nodeExecutionStack (es_stack s') = ex :: nodeExecutionStack (es_stack s) ∧
    ∃ task, runsOf (es_runData s') name !! run = Some task ∧ failedRun e ex task.
Proof.
  intros name He Hcont Hrun. unfold recordNode. fold name. cbn [readClock].
  set (s1 := set_runData _ s). assert (∀ n, runsOf (es_runData s1) n = runsOf (es_runData s) n) as Hruns.
  { intros n. unfold s1. simpl. apply runsOf_ensure. }
  change (es_executionError (set_ticks (S (es_ticks s1)) s1)) with (es_executionError s). rewrite He, Hcont.
  unfold stopNode. fold name.
  match goal with |- context [recordTask name run ?t ?r] => set (task := t); set (r1 := r) end.
  assert (failedRun e ex task ∧ is_Some (task_error task)) as [(Ht1 & Ht2 & Ht3) Ht4].
  { unfold task, failedRun. case_match; (split; [by split_and!|by eexists]). }
  destruct (recordTask_lookup name run task r1) as (recorded & Hrec & Hst & Hmeta & Herr).
  { change r1 with (es_runData s1). by rewrite Hruns. }
  eexists. split; [reflexivity|].
  case_bools; simpl; (split_and!; [done..|]); exists recorded; (split; [done|]);
    unfold failedRun; rewrite (Herr Ht4), Hst, Hmeta; done.
Qed.

(** The data of the entry after the pairs of its items were updated *)
Definition updatedEntry (entry : IExecuteData) : IExecuteData :=
  {| exec_data := updatePairedItems (exec_metadata entry) (exec_data entry);
     exec_metadata := exec_metadata entry; exec_node := exec_node entry; exec_source := exec_source entry;
     exec_runIndex := exec_runIndex entry |}.

Lemma failing_spec entry s :
  let ex := updatedEntry entry in
  let node := exec_node entry in
  let name := node_name node in
  let run := currentRunIndex (es_runData s) entry in
  callable ex s → mappable (exec_data entry) = true → continuesOnFail node = false →
  executionTry name run ≠ es_lastExecutionTry s → skippedByFilter startData name = false →
  run ≤ length (runsOf (es_runData s) name) →
  ensureInputData (es_workflow s) ex (es_stack s) = Ok (true, es_stack s) →
  ∃ s' task, executeEntry startData manualMode now evaluateOutputs evaluateRequiredInputs convertBinaryData
      getPairedItem entry s = StepBreak s' ∧
    es_calls s' = es_calls s + maxTries node ∧
    es_executionError s' = Some (errors (es_calls s + (maxTries node - 1))) ∧
    nodeExecutionStack (es_stack s') = ex :: nodeExecutionStack (es_stack s) ∧
    runsOf (es_runData s') name !! run = Some task ∧
    failedRun (errors (es_calls s + (maxTries node - 1))) ex task.
Proof.
  intros ex node name run Hc Hmap Hcont Htry Hskip Hrun Hinput. unfold executeEntry. cbn [readClock].
  fold node. fold name. rewrite Hmap. cbn [negb]. change {| exec_data := updatePairedItems _ _ |} with ex.
  set (s1 := set_executionIndex _ _). change (currentRunIndex (es_runData s1) ex) with run.
  rewrite bool_decide_false by done. rewrite Hskip.
  change (ensureInputData (es_workflow s1) ex (es_stack s1)) with (ensureInputData (es_workflow s) ex (es_stack s)).
  rewrite Hinput. cbn [performing negb].
  match goal with |- context [performing ?s2 (runTries _ _ _ _ _ _ _)] => set (s2' := s2) end.
  assert (untouched s s2' ∧ es_calls s2' = es_calls s) as [Hun Hcalls2] by (unfold s2'; case_match; by split).
  pose proof (maxTries_bounds node).
  destruct (tryLoop_throws (maxTries node) ex run
    {| tv_response := makeEngineResponse; tv_data := Null; tv_remaining := maxTries node - 1 |} s2')
    as (s3 & Hs3 & Hun3 & Hcalls3 & Herr3 & _).
  { by eapply callable_untouched. }
  { simpl; lia. }
  unfold runTries. change (exec_node ex) with node. rewrite Hs3. cbn [performing]. simpl in Hcalls3, Herr3.
  destruct (recordNode_fails ex run (now (es_ticks s)) (es_executionIndex s) Null s3 _ Herr3 Hcont)
    as (s4 & Hs4 & Herr4 & Hcalls4 & Hst4 & task & Htask & Hfail).
  { rewrite (un_runData _ _ Hun3), (un_runData _ _ Hun). exact Hrun. }
  exists s4, task. rewrite Hcalls2 in *. split; [exact Hs4|]. split; [lia|]. split; [done|].
  split; [by rewrite Hst4, (un_stack _ _ Hun3), (un_stack _ _ Hun)|]. by split.
Qed.
End failing.

(** C6: a node whose code throws every time, and which does not continue on errors,
    is called exactly [maxTries] times.  Then the loop is left: the error of the last
    try is in the run data of the node, the entry is back on top of the stack so that
    the execution can be restarted, and the execution ends with the status [error]
    (or [canceled] if the error says so) and with this error. *)
Theorem failing_node_stops `{INodeTypes} `{NodeRunner} (startData : IStartData) (manualMode : bool) (now : nat → Z)
    (evaluateOutputs : INode → res (list NodeOutput))
    (evaluateRequiredInputs : INode → string → option RequiredInputs)
    (convertBinaryData : slot NodeOutputData → slot NodeOutputData)
    (getPairedItem : IRunData → string → ISourceData → IPairedItemData → res (option INodeExecutionData))
    (errors : nat → ExecutionError) (entry : IExecuteData) (s : EngineState) :
  let ex := updatedEntry entry in
  let node := exec_node entry in
  let name := node_name node in
  let run := currentRunIndex (es_runData s) entry in
  let e := errors (es_calls s + (maxTries node - 1)) in
  (∀ n call, out_result (callNode n call) = NodeThrows (errors n)) →
  callable ex s → mappable (exec_data entry) = true → continuesOnFail node = false →
  executionTry name run ≠ es_lastExecutionTry s → skippedByFilter startData name = false →
  run ≤ length (runsOf (es_runData s) name) →
  ensureInputData (es_workflow s) ex (es_stack s) = Ok (true, es_stack s) →
  ∃ s' task, executeEntry startData manualMode now evaluateOutputs evaluateRequiredInputs convertBinaryData
      getPairedItem entry s = StepBreak s' ∧
    es_calls s' = es_calls s + maxTries node ∧
    runsOf (es_runData s') name !! run = Some task ∧ failedRun e ex task ∧
    run_status (finishExecution s') = (if isCancellation e then Canceled else Error) ∧
    es_resultError (run_state (finishExecution s')) = Some e ∧
    nodeExecutionStack (es_stack (run_state (finishExecution s'))) = ex :: nodeExecutionStack (es_stack s).
Proof.
  intros ex node name run e Hthrows Hc Hmap Hcont Htry Hskip Hrun Hinput.
  destruct (failing_spec startData manualMode now evaluateOutputs evaluateRequiredInputs convertBinaryData
    getPairedItem errors Hthrows entry s Hc Hmap Hcont Htry Hskip Hrun Hinput)
    as (s' & task & H1 & H2 & H3 & H4 & H5 & H6).
  exists s', task. destruct (finishExecution_error s' _ H3) as (F1 & _ & F2 & F3).
  split_and!; try done. by rewrite F3.
Qed.

Definition failingEntry : IExecuteData := entryFor retryNode [errorItem "t"].

(** The state after the entry was taken from the stack *)
Definition failingState : EngineState :=
  set_stack {| nodeExecutionStack := []; waitingExecution := []; waitingExecutionSource := [] |}
    (startWith (chainWorkflow [retryNode]) failingEntry).

Lemma failing_node_stops_witness :
  ∃ s' task,
    @executeEntry executeTypes (scripted [NodeThrows (plainError "t")]) emptyStartData false (λ _, 0%Z) noOutputs
      noRequiredInputs (λ data, data) noPairedItem failingEntry failingState
      = StepBreak s' ∧
    es_calls s' = 2 ∧ runsOf (es_runData s') "R" !! 0 = Some task ∧
    failedRun (plainError "t") (updatedEntry failingEntry) task ∧
    run_status (finishExecution s') = Error ∧
    es_resultError (run_state (finishExecution s')) = Some (plainError "t") ∧
    nodeExecutionStack (es_stack (run_state (finishExecution s'))) = [updatedEntry failingEntry].
Proof.
  refine (@failing_node_stops executeTypes (scripted [NodeThrows (plainError "t")]) emptyStartData false
    (λ _, 0%Z) noOutputs noRequiredInputs (λ data, data) noPairedItem (λ _, plainError "t") failingEntry failingState _ _ _ _ _ _ _ _).
  - intros [|n] ?; reflexivity.
  - split_and!; [discriminate|reflexivity|reflexivity|]. do 2 eexists. split_and!; vm_compute; reflexivity.
  - reflexivity.
  - reflexivity.
  - discriminate.
  - reflexivity.
  - vm_compute. lia.
  - vm_compute. reflexivity.
Defined.
