(* ===== verification/EngineBehaviour.v ===== *)
(** * Executions from start to end

    Concrete executions, evaluated: what the loop does with nodes that continue after
    an error, with responses of sub-nodes when a node is retried, and with waiting
    entries that have a run index of two digits. *)

From S2P Require Import Prelude JsCollections NodeTypes DirectedGraph Fixtures RunData.
From S2P Require Import ExecutionStack Connections Workflow Trigger Waiting Items Requests.
From S2P Require Import EngineState Lifecycle Engine EngineFixtures.

(** ** A node that continues after an error *)

Definition continuing : INode := settingsNode 11 "A" None None (Some "continueRegularOutput").
Definition following : INode := settingsNode 12 "B" None None None.
Definition failsFirst : list NodeResult := [NodeThrows (plainError "t"); NodeData (Val [Val [errorItem "x"]])].

Definition statusOf (r : option IRun) : option ExecutionStatus := run_status <$> r.

(** The node [A] fails and continues.  With a node behind it the execution is a
    success; without one the same failure makes it an error, since the error of the
    last iteration is still in [executionError] when the loop ends. *)
Theorem continueRegularOutput_last_node :
  statusOf (sampleLoop failsFirst 5 (startWith (chainWorkflow [continuing; following])
    (entryFor continuing [errorItem "i"]))) = Some Success ∧
  statusOf (sampleLoop failsFirst 5 (startWith (chainWorkflow [continuing])
    (entryFor continuing [errorItem "i"]))) = Some Error.
Proof. split; vm_compute; reflexivity. Qed.

(** ** Responses of sub-nodes *)

Definition subTask : ITaskData :=
  {| task_startTime := 0; task_executionIndex := None; task_source := []; task_executionTime := 0;
     task_executionStatus := Some "success"; task_data := None; task_inputOverride := None;
     task_error := None; task_metadata := None; task_rest := [] |}.

Definition subAction : EngineRequestAction :=
  {| action_nodeName := "tool"; action_type := "ai_tool"; action_id := "1"; action_input := [];
     action_parentNodeName := None; action_itemIndex := None |}.

(** An agent that is resumed with the result of one tool *)
Definition resumedEntry : IExecuteData :=
  {| exec_data := [("main", [Val [errorItem "i"]])];
     exec_metadata := Some
       {| meta_subNodeExecutionData :=
            Some ([{| sub_action := subAction; sub_nodeName := "tool"; sub_runIndex := 0 |}], []);
          meta_preserveSourceOverwrite := None; meta_preservedSourceOverwrite := None;
          meta_nodeWasResumed := Some true; meta_rest := [] |};
     exec_node := retryNode; exec_source := None; exec_runIndex := None |}.

(** A node that fails with the number of responses it was given *)
Definition countingResponses : NodeRunner := λ _ call,
  {| out_result := NodeThrows (plainError (pretty (from_option (λ r, length (er_actionResponses r)) 0
       (call_response call))));
     out_waitTill := None; out_metadata := None |}.

(** Each try adds the responses of the sub-nodes to the same list, so that the
    second try of an agent gets the response of its only tool twice. *)
Theorem retry_duplicates_responses :
  match @runTries executeTypes countingResponses false noOutputs (λ data, data) noPairedItem resumedEntry 0
    (set_runData [("tool", [subTask])] (startWith (chainWorkflow [retryNode]) resumedEntry)) with
  | Ok (s, _, _) => es_executionError s = Some (plainError "2") ∧ es_calls s = 2
  | _ => False
  end.
Proof. vm_compute. split; reflexivity. Qed.

(** ** The first waiting run *)

(** The run indexes are sorted as strings, so that run 10 comes before run 2. *)
Theorem firstRunIndex_lexicographic : firstRunIndex [(2, tt); (10, tt)] = Some 10.
Proof. vm_compute. reflexivity. Qed.

(** ** Waiting without data *)

(** The node waits for a time and returns [null]. *)
Definition waitsWithoutData : NodeRunner := λ _ _,
  {| out_result := NodeData Null; out_waitTill := Some 5%Z; out_metadata := None |}.

(** A node that asks to wait and returns no data makes the loop throw. *)
Theorem waiting_null_throws :
  ∃ s, @iteration executeTypes waitsWithoutData emptyStartData false None (λ _, 0%Z) noOutputs noRequiredInputs
    (λ data, data) noPairedItem (startWith (chainWorkflow [following]) (entryFor following [errorItem "i"])) =
    StepThrow TypeError s.
Proof. eexists. vm_compute. reflexivity. Qed.
