(* ===== verification/Concurrency.v ===== *)
(** * Concurrency control

    Model of [packages/cli/src/concurrency]: the queue that lets at most a configured
    number of executions run at the same time ([concurrency-queue.ts]), the service
    that keeps one queue per kind of execution ([concurrency-control.service.ts]), and
    the reservation an execution holds while it runs
    ([concurrency-capacity-reservation.ts]).

    A promise is identified by a number, the [ticket]: [enqueue] is given the ticket of
    the promise it may create, and the tickets whose promises an operation resolves
    are part of its result. *)

From S2P Require Import Prelude JsCollections.

(** ** The queue *)

Module ConcurrencyQueue.

Record t := {
  capacity : Z;
  queue : list (string * nat);
}.

#[global] Instance t_eq_dec : EqDecision t.
Proof. solve_decision. Defined.

Inductive event :=
  | concurrencyCheck (capacity : Z)
  | executionThrottled (executionId : string)
  | executionReleased (executionId : string).

Definition new (capacity : Z) : t := {| capacity := capacity; queue := [] |}.

(** The last component is [true] if the promise is resolved at once. *)
Definition enqueue (executionId : string) (ticket : nat) (q : t) : t * list event * bool :=
  let capacity := (capacity q - 1)%Z in
  let check := concurrencyCheck capacity in
  if bool_decide (capacity < 0)%Z
  then ({| capacity := capacity; queue := queue q ++ [(executionId, ticket)] |},
        [check; executionThrottled executionId], false)
  else ({| capacity := capacity; queue := queue q |}, [check], true).

(** The ticket of the promise that is resolved *)
Definition resolveNext (q : t) : t * list event * option nat :=
  match queue q with
  | [] => (q, [], None)
  | (executionId, ticket) :: rest =>
      ({| capacity := capacity q; queue := rest |}, [executionReleased executionId], Some ticket)
  end.

Definition dequeue (q : t) : t * list event * option nat :=
  resolveNext {| capacity := capacity q + 1; queue := queue q |}.

(** [findIndex] and [splice]: the first entry of the execution is removed. *)
Fixpoint splice (executionId : string) (l : list (string * nat)) : option (list (string * nat)) :=
  match l with
  | [] => None
  | item :: l =>
      if bool_decide (item.1 = executionId) then Some l else (item ::.) <$> splice executionId l
  end.

Definition remove (executionId : string) (q : t) : t * list event * option nat :=
  match splice executionId (queue q) with
  | None => (q, [], None)
  | Some rest => resolveNext {| capacity := capacity q + 1; queue := rest |}
  end.

Definition getAll (q : t) : jsset string := set_of_list (queue q).*1.

Definition has (executionId : string) (q : t) : bool :=
  existsb (λ item, bool_decide (item.1 = executionId)) (queue q).
End ConcurrencyQueue.

Import ConcurrencyQueue (concurrencyCheck, executionThrottled, executionReleased).

(** ** The service *)

Inductive ConcurrencyQueueType := production | evaluation.

#[global] Instance ConcurrencyQueueType_eq_dec : EqDecision ConcurrencyQueueType.
Proof. solve_decision. Defined.

Record CapacityTarget := { ct_executionId : string; ct_mode : string }.

Module ConcurrencyControl.

Record t := {
  isEnabled : bool;
  limits : jsmap ConcurrencyQueueType Z;
  queues : jsmap ConcurrencyQueueType ConcurrencyQueue.t;
}.

(** The constructor: a limit of 0 is refused, every limit below means unlimited. *)
Definition new (productionLimit evaluationLimit : Z) (queueMode : bool) : res t :=
  limits ← foldM (λ limits (entry : ConcurrencyQueueType * Z),
      if bool_decide (entry.2 = 0)%Z then Throw (UserError "Concurrency limit set to invalid value")
      else Ok (if bool_decide (entry.2 < -1)%Z then map_set entry.1 (-1)%Z limits else limits))
    [(production, productionLimit); (evaluation, evaluationLimit)]
    [(production, productionLimit); (evaluation, evaluationLimit)];
  if forallb (λ limit, bool_decide (limit = -1)%Z) limits.*2 || queueMode
  then Ok {| isEnabled := false; limits := limits; queues := [] |}
  else Ok {| isEnabled := true; limits := limits;
             queues := foldl (λ queues (entry : ConcurrencyQueueType * Z),
               if bool_decide (0 < entry.2)%Z
               then map_set entry.1 (ConcurrencyQueue.new entry.2) queues else queues) [] limits |}.

Definition setQueue (type : ConcurrencyQueueType) (q : ConcurrencyQueue.t) (c : t) : t :=
  {| isEnabled := isEnabled c; limits := limits c; queues := map_set type q (queues c) |}.

(** The type of queue of a mode of execution, [None] for the modes without one *)
Definition queueType (mode : string) : res (option ConcurrencyQueueType) :=
  if bool_decide (mode ∈ ["error"; "integrated"; "cli"; "internal"; "manual"; "retry"]) then Ok None
  else if bool_decide (mode ∈ ["webhook"; "trigger"; "chat"]) then Ok (Some production)
  else if bool_decide (mode = "evaluation") then Ok (Some evaluation)
  else Throw (UnexpectedError "Unknown execution mode").

Definition getQueue (mode : string) (c : t) : res (option (ConcurrencyQueueType * ConcurrencyQueue.t)) :=
  type ← queueType mode;
  Ok (type ≫= λ type, (type,.) <$> map_get type (queues c)).

Definition isUnlimited (mode : string) (c : t) : res bool :=
  q ← getQueue mode c;
  Ok (bool_decide (q = None)).

Definition has (executionId : string) (c : t) : bool :=
  isEnabled c && existsb (λ q, ConcurrencyQueue.has executionId q) (queues c).*2.

(** An operation on the queue of the mode, unless there is none; [none] is the result
    for an execution that is not limited. *)
Definition onQueue {A} (mode : string) (none : A)
    (f : ConcurrencyQueue.t → ConcurrencyQueue.t * list ConcurrencyQueue.event * A) (c : t) : res (t * A) :=
  if negb (isEnabled c) then Ok (c, none) else
  unlimited ← isUnlimited mode c;
  if unlimited : bool then Ok (c, none) else
  q ← getQueue mode c;
  match q with
  | None => Ok (c, none)
  | Some (type, q) => let '(q, _, a) := f q in Ok (setQueue type q c, a)
  end.

(** [true] if the caller can go on at once *)
Definition throttle (target : CapacityTarget) (ticket : nat) (c : t) : res (t * bool) :=
  onQueue (ct_mode target) true (ConcurrencyQueue.enqueue (ct_executionId target) ticket) c.

Definition release (mode : string) (c : t) : res (t * option nat) :=
  onQueue mode None ConcurrencyQueue.dequeue c.

Definition remove (target : CapacityTarget) (c : t) : res (t * option nat) :=
  onQueue (ct_mode target) None (ConcurrencyQueue.remove (ct_executionId target)) c.

(** Every execution found in a queue is removed from it; the tickets of the promises
    that this resolves are returned. *)
Definition emptyQueue (q : ConcurrencyQueue.t) : ConcurrencyQueue.t * list nat :=
  foldl (λ (acc : ConcurrencyQueue.t * list nat) id,
    let '(q, _, resolved) := ConcurrencyQueue.remove id acc.1 in (q, acc.2 ++ option_list resolved))
    (q, []) (ConcurrencyQueue.getAll q).

(** The third component is the executions that are cancelled in the database. *)
Definition removeAll (executionIdsToCancel : list string) (c : t) : t * list nat * list string :=
  if negb (isEnabled c) then (c, [], []) else
  let emptied := (λ entry, (entry.1, emptyQueue entry.2)) <$> queues c in
  ({| isEnabled := isEnabled c; limits := limits c;
      queues := (λ entry, (entry.1, entry.2.1)) <$> emptied |},
   mjoin ((λ entry, entry.2.2) <$> emptied), executionIdsToCancel).

Definition disable (c : t) : t := {| isEnabled := false; limits := limits c; queues := queues c |}.
End ConcurrencyControl.

(** ** The reservation *)

Module ConcurrencyCapacityReservation.

(** [acquiredReservation] *)
Abbreviation t := (option CapacityTarget) (only parsing).

(** The call up to its [await]: [true] if it can go on at once *)
Definition reserve (capacityFor : CapacityTarget) (ticket : nat) (r : t) (c : ConcurrencyControl.t)
    : res (ConcurrencyControl.t * bool) :=
  _ ← assert_ok (bool_decide (r = None));
  ConcurrencyControl.throttle capacityFor ticket c.

(** The rest of the call, when the promise of [throttle] is resolved *)
Definition reserved (capacityFor : CapacityTarget) (r : t) : t := Some capacityFor.

Definition release (r : t) (c : ConcurrencyControl.t) : res (t * ConcurrencyControl.t * option nat) :=
  match r with
  | None => Ok (None, c, None)
  | Some target =>
      '(c, resolved) ← ConcurrencyControl.release (ct_mode target) c;
      Ok (None, c, resolved)
  end.
End ConcurrencyCapacityReservation.

(** ** The executions behind a queue

    [running] are the executions that were let through and have not released their
    capacity yet. *)

Record Slots := {
  sl_queue : ConcurrencyQueue.t;
  sl_running : list nat;
}.

Definition waiting (s : Slots) : list nat := (ConcurrencyQueue.queue (sl_queue s)).*2.

Definition start (limit : Z) : Slots := {| sl_queue := ConcurrencyQueue.new limit; sl_running := [] |}.

Inductive slotOp :=
  | Enter (executionId : string) (ticket : nat)
  | Leave (ticket : nat)
  | Cancel (executionId : string).

(** Each execution that runs leaves once. *)
Inductive slotStep : slotOp → Slots → Slots → Prop :=
  | step_enter id ticket s q events through :
      ticket ∉ sl_running s ++ waiting s →
      ConcurrencyQueue.enqueue id ticket (sl_queue s) = (q, events, through) →
      slotStep (Enter id ticket) s
        {| sl_queue := q; sl_running := sl_running s ++ (if through : bool then [ticket] else []) |}
  | step_leave ticket before after s q events resolved :
      sl_running s = before ++ ticket :: after →
      ConcurrencyQueue.dequeue (sl_queue s) = (q, events, resolved) →
      slotStep (Leave ticket) s {| sl_queue := q; sl_running := before ++ after ++ option_list resolved |}
  | step_cancel id s q events resolved :
      ConcurrencyQueue.remove id (sl_queue s) = (q, events, resolved) →
      slotStep (Cancel id) s {| sl_queue := q; sl_running := sl_running s ++ option_list resolved |}.

Inductive slotSteps : list slotOp → Slots → Slots → Prop :=
  | slotSteps_nil s : slotSteps [] s s
  | slotSteps_snoc ops op s1 s2 s3 :
      slotSteps ops s1 s2 → slotStep op s2 s3 → slotSteps (ops ++ [op]) s1 s3.

Definition isCancel (op : slotOp) : bool := match op with Cancel _ => true | _ => false end.

Definition cancels (ops : list slotOp) : nat := length (filter (λ op, isCancel op = true) ops).

(** ** Capacity *)

Lemma splice_Some id l rest :
  ConcurrencyQueue.splice id l = Some rest → ∃ before item after,
    l = before ++ item :: after ∧ item.1 = id ∧ rest = before ++ after.
Proof.
  revert rest. induction l as [|item l IH]; intros rest; simpl; [done|].
  case_bools; [intros [= <-]; by exists [], item, l|].
  intros (rest' & Hrest & ->)%fmap_Some. apply IH in Hrest as (before & it & after & -> & Hit & ->).
  by exists (item :: before), it, after.
Qed.

(** Nothing waits, or the first execution that waits is let through. *)
Lemma resolveNext_spec q q' events resolved :
  ConcurrencyQueue.resolveNext q = (q', events, resolved) →
  ConcurrencyQueue.capacity q' = ConcurrencyQueue.capacity q ∧
  (ConcurrencyQueue.queue q).*2 = option_list resolved ++ (ConcurrencyQueue.queue q').*2 ∧
  (resolved = None → (ConcurrencyQueue.queue q').*2 = []).
Proof.
  unfold ConcurrencyQueue.resolveNext. destruct (ConcurrencyQueue.queue q) as [|[id ticket] rest] eqn:E;
    intros [= <- <- <-]; simpl; [by rewrite E|done].
Qed.

Lemma dequeue_spec q q' events resolved :
  ConcurrencyQueue.dequeue q = (q', events, resolved) →
  ConcurrencyQueue.capacity q' = (ConcurrencyQueue.capacity q + 1)%Z ∧
  (ConcurrencyQueue.queue q).*2 = option_list resolved ++ (ConcurrencyQueue.queue q').*2 ∧
  (resolved = None → (ConcurrencyQueue.queue q').*2 = []).
Proof. intros H. by apply resolveNext_spec in H. Qed.

(** One execution that waits disappears, and the next one is let through. *)
Lemma remove_spec id q q' events resolved :
  ConcurrencyQueue.remove id q = (q', events, resolved) →
  (q' = q ∧ resolved = None) ∨
  ∃ before ticket after, (ConcurrencyQueue.queue q).*2 = before ++ ticket :: after ∧
    ConcurrencyQueue.capacity q' = (ConcurrencyQueue.capacity q + 1)%Z ∧
    before ++ after = option_list resolved ++ (ConcurrencyQueue.queue q').*2 ∧
    (resolved = None → (ConcurrencyQueue.queue q').*2 = []).
Proof.
  unfold ConcurrencyQueue.remove. destruct (ConcurrencyQueue.splice _ _) as [rest|] eqn:E;
    [|intros [= <- <- <-]; by left].
  intros (Hc & Hq & Hn)%resolveNext_spec. right.
  apply splice_Some in E as (before & [id' ticket] & after & -> & _ & ->).
  exists before.*2, ticket, after.*2. simpl in *. rewrite <- Hq, !fmap_app. done.
Qed.

(** What holds of a queue after any operations, [k] of which cancelled an execution,
    while [n] executions run: the capacity counts the executions, at most [limit + k]
    run, and nothing waits while capacity is left. *)
Record queueInv (limit : Z) (k n : nat) (q : ConcurrencyQueue.t) : Prop := {
  qi_capacity : ConcurrencyQueue.capacity q =
    (limit - Z.of_nat n - Z.of_nat (length (ConcurrencyQueue.queue q).*2))%Z;
  qi_bound : (Z.of_nat n ≤ limit + Z.of_nat k)%Z;
  qi_conserving : (ConcurrencyQueue.queue q).*2 ≠ [] → (limit ≤ Z.of_nat n)%Z;
}.

Lemma new_inv limit : (0 < limit)%Z → queueInv limit 0 0 (ConcurrencyQueue.new limit).
Proof. intros. split; simpl; [lia|lia|done]. Qed.

Lemma enqueue_inv limit k n id ticket q q' events through :
  queueInv limit k n q → ConcurrencyQueue.enqueue id ticket q = (q', events, through) →
  queueInv limit k (n + if through : bool then 1 else 0) q'.
Proof.
  intros [Hcap Hbound Hcons] Heq. unfold ConcurrencyQueue.enqueue in Heq.
  case_bools; simplify_eq; split; simpl; rewrite ?fmap_app, ?length_app; simpl; try lia.
  - intros _. destruct (ConcurrencyQueue.queue q) eqn:Hq; [simpl in *; lia|].
    specialize (Hcons ltac:(done)). lia.
  - intros Hne. specialize (Hcons Hne). lia.
Qed.

Lemma dequeue_inv limit k n q q' events resolved :
  queueInv limit k (S n) q → ConcurrencyQueue.dequeue q = (q', events, resolved) →
  queueInv limit k (n + length (option_list resolved)) q'.
Proof.
  intros [Hcap Hbound Hcons] (Hc & Hq & Hn)%dequeue_spec. rewrite Hq, length_app in Hcap.
  destruct resolved as [t|]; simpl in *; (split; [lia|lia|]).
  - intros _. enough (limit ≤ Z.of_nat (S n))%Z by lia. apply Hcons. by rewrite Hq.
  - by rewrite Hn.
Qed.

Lemma remove_inv limit k n id q q' events resolved :
  queueInv limit k n q → ConcurrencyQueue.remove id q = (q', events, resolved) →
  queueInv limit (S k) (n + length (option_list resolved)) q'.
Proof.
  intros [Hcap Hbound Hcons] [[-> ->]|(before & ticket & after & Hq & Hc & Hba & Hn)]%remove_spec;
    [simpl; rewrite Nat.add_0_r; split; [done|lia|done]|].
  assert (length (ConcurrencyQueue.queue q).*2 =
    S (length (option_list resolved) + length (ConcurrencyQueue.queue q').*2)) as Hlen.
  { rewrite Hq, <- length_app, <- Hba, !length_app. simpl. lia. }
  specialize (Hcons ltac:(rewrite Hq; by destruct before)).
  split; [lia|destruct resolved; simpl; lia|lia].
Qed.

Abbreviation slotsInv limit k s := (queueInv limit k (length (sl_running s)) (sl_queue s)) (only parsing).

Lemma slotStep_inv limit k op s s' :
  slotStep op s s' → slotsInv limit k s → slotsInv limit (k + (if isCancel op then 1 else 0)) s'.
Proof.
  intros Hstep Hinv. destruct Hstep as [id ticket s q events through Hfresh Heq
    |ticket before after s q events resolved Hrun Heq|id s q events resolved Heq]; simpl;
    rewrite ?Nat.add_0_r, !length_app.
  - eapply enqueue_inv in Hinv; [|done]. by destruct through.
  - rewrite Nat.add_assoc. eapply dequeue_inv; [|done].
    rewrite Hrun, length_app in Hinv. simpl in Hinv. by rewrite <- plus_n_Sm in Hinv.
  - rewrite Nat.add_1_r. by eapply remove_inv.
Qed.

Lemma slotSteps_inv limit ops s :
  (0 < limit)%Z → slotSteps ops (start limit) s → slotsInv limit (cancels ops) s.
Proof.
  intros Hpos Hsteps. remember (start limit) as s0 eqn:E.
  induction Hsteps as [s|ops op s1 s2 s3 _ IH Hstep]; subst; [by apply new_inv|].
  specialize (IH eq_refl). eapply slotStep_inv in IH; [|done]. unfold cancels in *.
  rewrite filter_app, length_app. destruct op; simpl in *; rewrite ?Nat.add_0_r in *; done.
Qed.

(** the bounds of the queue.  After any operations on a queue with a positive
    limit, [k] of which removed an execution, the capacity is the limit minus the
    executions that run or wait; at most [limit + k] executions run; and executions
    wait only while at least [limit] run. *)
Theorem queue_bounds (limit : Z) (ops : list slotOp) (s : Slots) :
  (0 < limit)%Z → slotSteps ops (start limit) s →
  ConcurrencyQueue.capacity (sl_queue s) =
    (limit - Z.of_nat (length (sl_running s)) - Z.of_nat (length (waiting s)))%Z ∧
  (Z.of_nat (length (sl_running s)) ≤ limit + Z.of_nat (cancels ops))%Z ∧
  (waiting s ≠ [] → (limit ≤ Z.of_nat (length (sl_running s)))%Z).
Proof. intros Hpos Hs. by destruct (slotSteps_inv limit ops s Hpos Hs). Qed.

(** ** A semaphore

    The abstract component: executions that run, and executions that wait in the order
    of their arrival. *)

Record Semaphore := {
  sem_running : list nat;
  sem_waiting : list nat;
}.

Inductive semStep (limit : Z) : slotOp → Semaphore → Semaphore → Prop :=
  | sem_enter id ticket running :
      (Z.of_nat (length running) < limit)%Z →
      semStep limit (Enter id ticket) {| sem_running := running; sem_waiting := [] |}
        {| sem_running := running ++ [ticket]; sem_waiting := [] |}
  | sem_wait id ticket running waiting :
      Z.of_nat (length running) = limit →
      semStep limit (Enter id ticket) {| sem_running := running; sem_waiting := waiting |}
        {| sem_running := running; sem_waiting := waiting ++ [ticket] |}
  | sem_leave ticket before after :
      semStep limit (Leave ticket) {| sem_running := before ++ ticket :: after; sem_waiting := [] |}
        {| sem_running := before ++ after; sem_waiting := [] |}
  | sem_pass ticket next before after waiting :
      semStep limit (Leave ticket) {| sem_running := before ++ ticket :: after; sem_waiting := next :: waiting |}
        {| sem_running := before ++ after ++ [next]; sem_waiting := waiting |}.

Inductive semSteps (limit : Z) : list slotOp → Semaphore → Semaphore → Prop :=
  | semSteps_nil s : semSteps limit [] s s
  | semSteps_snoc ops op s1 s2 s3 :
      semSteps limit ops s1 s2 → semStep limit op s2 s3 → semSteps limit (ops ++ [op]) s1 s3.

Definition semaphore (s : Slots) : Semaphore :=
  {| sem_running := sl_running s; sem_waiting := waiting s |}.

Lemma slotStep_simulates limit op s s' :
  slotsInv limit 0 s → isCancel op = false → slotStep op s s' → semStep limit op (semaphore s) (semaphore s').
Proof.
  intros [Hcap Hbound Hcons] Hop Hstep. destruct Hstep as [id ticket s q events through Hfresh Heq
    |ticket before after s q events resolved Hrun Heq|]; [| |done]; unfold semaphore; simpl.
  - unfold ConcurrencyQueue.enqueue in Heq. unfold waiting in *.
    destruct (ConcurrencyQueue.queue (sl_queue s)) as [|item l] eqn:Hq; simpl in *;
      [|specialize (Hcons ltac:(done))]; case_bools; simplify_eq; simpl; rewrite ?app_nil_r; try lia.
    + apply (sem_wait limit id ticket _ []). lia.
    + apply sem_enter. lia.
    + rewrite fmap_app. apply (sem_wait limit id ticket _ (_ :: _)). lia.
  - apply dequeue_spec in Heq as (_ & Hq & Hn). unfold waiting. rewrite Hrun, Hq. simpl.
    destruct resolved as [next|]; simpl; [apply sem_pass|].
    rewrite Hn, app_nil_r by done. apply sem_leave.
Qed.

Lemma cancels_none ops : Forall (λ op, isCancel op = false) ops → cancels ops = 0.
Proof.
  unfold cancels. induction 1 as [|op ops Hop _ IH]; [done|].
  by rewrite filter_cons_False by (rewrite Hop; done).
Qed.

Lemma slotSteps_simulates limit ops s :
  (0 < limit)%Z → Forall (λ op, isCancel op = false) ops → slotSteps ops (start limit) s →
  semSteps limit ops {| sem_running := []; sem_waiting := [] |} (semaphore s).
Proof.
  intros Hpos Hops Hsteps. remember (start limit) as s0 eqn:E.
  induction Hsteps as [s|ops op s1 s2 s3 Hsteps IH Hstep]; subst; [constructor|].
  apply Forall_app in Hops as [Hops [Hop _]%Forall_cons].
  eapply semSteps_snoc; [by apply IH|]. eapply slotStep_simulates; [|done|done].
  apply slotSteps_inv in Hsteps; [|done]. by rewrite cancels_none in Hsteps.
Qed.

(** C12: the queue is a fair semaphore.  As long as no execution is removed, every
    operation on a queue with a positive limit is a step of the semaphore: an execution
    is let through if fewer than [limit] run and waits otherwise, and an execution that
    leaves hands its place to the one that waits the longest. *)
Theorem queue_refines_semaphore (limit : Z) (ops : list slotOp) (s : Slots) :
  (0 < limit)%Z → Forall (λ op, isCancel op = false) ops → slotSteps ops (start limit) s →
  semSteps limit ops {| sem_running := []; sem_waiting := [] |} (semaphore s).
Proof. apply slotSteps_simulates. Qed.

(** ** Executing operations

    The step relation as a function, to evaluate it on concrete operations. *)

Fixpoint splitAt (ticket : nat) (l : list nat) : option (list nat * list nat) :=
  match l with
  | [] => None
  | x :: l => if bool_decide (x = ticket) then Some ([], l) else prod_map (x ::.) id <$> splitAt ticket l
  end.

Definition slotExec (op : slotOp) (s : Slots) : option Slots :=
  match op with
  | Enter id ticket =>
      let '(q, _, through) := ConcurrencyQueue.enqueue id ticket (sl_queue s) in
      if bool_decide (ticket ∈ sl_running s ++ waiting s) then None
      else Some {| sl_queue := q; sl_running := sl_running s ++ (if through : bool then [ticket] else []) |}
  | Leave ticket =>
      let '(q, _, resolved) := ConcurrencyQueue.dequeue (sl_queue s) in
      '(before, after) ← splitAt ticket (sl_running s);
      Some {| sl_queue := q; sl_running := before ++ after ++ option_list resolved |}
  | Cancel id =>
      let '(q, _, resolved) := ConcurrencyQueue.remove id (sl_queue s) in
      Some {| sl_queue := q; sl_running := sl_running s ++ option_list resolved |}
  end.

Definition slotsExec (ops : list slotOp) (s : Slots) : option Slots :=
  foldl (λ s op, s ≫= slotExec op) (Some s) ops.

Lemma splitAt_Some ticket l before after :
  splitAt ticket l = Some (before, after) → l = before ++ ticket :: after.
Proof.
  revert before after. induction l as [|x l IH]; intros before after; simpl; [done|].
  case_bools; [intros; by simplify_eq|]. intros ([b a] & Hsplit & [= -> ->])%fmap_Some.
  simpl. f_equal. by apply IH.
Qed.

Lemma slotExec_step op s s' : slotExec op s = Some s' → slotStep op s s'.
Proof.
  destruct op as [id ticket|ticket|id]; simpl.
  - destruct (ConcurrencyQueue.enqueue _ _ _) as [[q events] through] eqn:E.
    case_bools; intros; simplify_eq. by eapply step_enter.
  - destruct (ConcurrencyQueue.dequeue _) as [[q events] resolved] eqn:E.
    intros ([before after] & Hsplit & [= <-])%bind_Some.
    eapply step_leave; [by apply splitAt_Some|done].
  - destruct (ConcurrencyQueue.remove _ _) as [[q events] resolved] eqn:E.
    intros [= <-]. by eapply step_cancel.
Qed.

Lemma slotsExec_steps ops s s' : slotsExec ops s = Some s' → slotSteps ops s s'.
Proof.
  unfold slotsExec. revert s'. induction ops as [|op ops IH] using rev_ind; intros s'.
  - intros [= <-]. constructor.
  - rewrite foldl_snoc. intros (s1 & H1 & H2)%bind_Some.
    eapply slotSteps_snoc; [by apply IH|by apply slotExec_step].
Qed.

(** With limit 1, "B" waits until "A" leaves. *)
Definition twoOps : list slotOp := [Enter "A" 0; Enter "B" 1; Leave 0].

Definition twoSlots : Slots := default (start 1) (slotsExec twoOps (start 1)).

Lemma queue_refines_semaphore_witness :
  semSteps 1 twoOps {| sem_running := []; sem_waiting := [] |} {| sem_running := [1]; sem_waiting := [] |}.
Proof.
  apply (queue_refines_semaphore 1 twoOps twoSlots); [done|repeat constructor|].
  by apply slotsExec_steps.
Defined.

(** With limit 1, "B" and "C" wait while "A" runs, and "B" is removed. *)
Definition cancelOps : list slotOp := [Enter "A" 0; Enter "B" 1; Enter "C" 2; Cancel "B"].

Definition cancelSlots : Slots := default (start 1) (slotsExec cancelOps (start 1)).

Lemma queue_bounds_witness : (Z.of_nat (length (sl_running cancelSlots)) ≤ 1 + Z.of_nat (cancels cancelOps))%Z.
Proof. apply (queue_bounds 1 cancelOps cancelSlots); [done|by apply slotsExec_steps]. Defined.

(** Removing an execution that waits lets another one run beyond the limit: with a
    limit of 1, "A" and "C" run at the same time after "B" was removed. *)
Theorem remove_exceeds_limit :
  slotSteps cancelOps (start 1) cancelSlots ∧ sl_running cancelSlots = [0; 2].
Proof. split; [by apply slotsExec_steps|done]. Qed.

(** ** Emptying the queues *)

(** Every second element *)
Fixpoint everySecond {A} (l : list A) : list A :=
  match l with
  | _ :: y :: l => y :: everySecond l
  | _ => []
  end.

Lemma splice_None id l : id ∉ l.*1 → ConcurrencyQueue.splice id l = None.
Proof.
  induction l as [|item l IH]; simpl; [done|]. rewrite not_elem_of_cons. intros [Hne Hl].
  rewrite bool_decide_false by done. by rewrite IH.
Qed.

Lemma remove_head id1 t1 id2 t2 l c :
  ConcurrencyQueue.remove id1
    {| ConcurrencyQueue.capacity := c; ConcurrencyQueue.queue := (id1, t1) :: (id2, t2) :: l |} =
  ({| ConcurrencyQueue.capacity := c + 1; ConcurrencyQueue.queue := l |}, [executionReleased id2], Some t2).
Proof. unfold ConcurrencyQueue.remove. simpl. by rewrite bool_decide_true. Qed.

Lemma remove_absent id q :
  id ∉ (ConcurrencyQueue.queue q).*1 → ConcurrencyQueue.remove id q = (q, [], None).
Proof. intros. unfold ConcurrencyQueue.remove. by rewrite splice_None. Qed.

Lemma list_pair_ind {A} (P : list A → Prop) :
  P [] → (∀ x, P [x]) → (∀ x y l, P l → P (x :: y :: l)) → ∀ l, P l.
Proof.
  intros Hnil Hone Htwo l. enough (P l ∧ ∀ x, P (x :: l)) by tauto.
  induction l as [|y l [IH1 IH2]]; auto.
Qed.

Lemma everySecond_length {A} (l : list A) : length (everySecond l) ≤ length l.
Proof. induction l using list_pair_ind; simpl; lia. Qed.

Lemma emptyQueue_loop l c acc :
  NoDup l.*1 →
  foldl (λ (acc : ConcurrencyQueue.t * list nat) id,
    let '(q, _, resolved) := ConcurrencyQueue.remove id acc.1 in (q, acc.2 ++ option_list resolved))
    ({| ConcurrencyQueue.capacity := c; ConcurrencyQueue.queue := l |}, acc) l.*1 =
  ({| ConcurrencyQueue.capacity := c + Z.of_nat (length l - length (everySecond l.*2)); ConcurrencyQueue.queue := [] |},
   acc ++ everySecond l.*2).
Proof.
  revert c acc. induction l as [|[id ticket]|[id1 t1] [id2 t2] l IH] using list_pair_ind; intros c acc; simpl.
  - intros _. by rewrite Z.add_0_r, app_nil_r.
  - intros _. unfold ConcurrencyQueue.remove. simpl. rewrite bool_decide_true by done. done.
  - rewrite !NoDup_cons, not_elem_of_cons. intros [[Hne Hid1] [Hid2 Hnd]].
    rewrite remove_head. simpl. rewrite remove_absent by done. simpl.
    rewrite IH by done. rewrite app_nil_r, <- app_assoc. f_equal. f_equal.
    pose proof (everySecond_length l.*2) as Hlen. rewrite length_fmap in Hlen.
    change (list_fmap _ _ snd l) with l.*2. lia.
Qed.

(** Emptying the queue does not discard the executions that wait: every second one of
    them is let through, because each removal releases the next one before that one
    is removed itself. *)
Theorem emptyQueue_lets_every_second_run q :
  NoDup (ConcurrencyQueue.queue q).*1 →
  ConcurrencyControl.emptyQueue q =
    ({| ConcurrencyQueue.capacity :=
          ConcurrencyQueue.capacity q +
          Z.of_nat (length (ConcurrencyQueue.queue q) - length (everySecond (ConcurrencyQueue.queue q).*2));
        ConcurrencyQueue.queue := [] |}, everySecond (ConcurrencyQueue.queue q).*2).
Proof.
  intros Hnd. unfold ConcurrencyControl.emptyQueue, ConcurrencyQueue.getAll.
  rewrite set_of_list_id by done. destruct q as [c l]. by rewrite emptyQueue_loop.
Qed.

(** ** The service *)

(** A limit of 0 is refused; otherwise there is a queue for each positive limit,
    unless the executions are distributed over workers. *)
Lemma new_spec (p e : Z) (queueMode : bool) :
  if bool_decide (p = 0 ∨ e = 0)%Z
  then ConcurrencyControl.new p e queueMode = Throw (UserError "Concurrency limit set to invalid value")
  else ∃ c, ConcurrencyControl.new p e queueMode = Ok c ∧
    ConcurrencyControl.isEnabled c = negb queueMode && bool_decide (0 < p ∨ 0 < e)%Z ∧
    ∀ type, map_get type (ConcurrencyControl.queues c) =
      let limit := match type with production => p | evaluation => e end in
      if negb queueMode && bool_decide (0 < limit)%Z then Some (ConcurrencyQueue.new limit) else None.
Proof.
  unfold ConcurrencyControl.new. simpl.
  destruct (bool_decide_reflect (p = 0)%Z); [rewrite bool_decide_true by lia; done|].
  simpl. destruct (bool_decide_reflect (e = 0)%Z); [rewrite bool_decide_true by lia; done|].
  rewrite (bool_decide_false (p = 0 ∨ e = 0)%Z) by lia. simpl.
  destruct (bool_decide_reflect (p < -1)%Z), (bool_decide_reflect (e < -1)%Z), queueMode; simpl;
    rewrite ?orb_true_r, ?orb_false_r; simpl; repeat (case_bool_decide; simpl; try lia);
    eexists; (split; [reflexivity|]); (split; [simpl; done|]); intros []; simpl; repeat case_bool_decide;
    simpl; try done; try lia.
Qed.
