(* ===== verification/ActiveExecutions.v ===== *)
(** * Active executions

    Model of [packages/cli/src/active-executions.ts]: the executions of the process,
    from the call of [add], which waits for capacity, to the moment their promise is
    settled and the capacity is released.

    Every call of [add] has a number.  It is the ticket of the promise on which the call
    may wait, and, once the execution is registered, the reference of its object: the
    object is shared by [activeExecutions] and by the closure that cleans up after the
    execution.  A promise that is settled runs its [finally] later, as a step of its own
    ([settled]). *)

From S2P Require Import Prelude JsCollections Concurrency.

Record IWorkflowExecutionDataProcess := {
  wp_executionMode : string;
  wp_retryOf : option string;
  wp_workflowId : option string;
  wp_httpResponse : bool;
}.

(** The state of [postExecutePromise]: pending, settled, or settled with its [finally]
    run *)
Inductive PromiseState := Pending | Settled | Finished.

#[global] Instance PromiseState_eq_dec : EqDecision PromiseState.
Proof. solve_decision. Defined.

(** The object of an execution, with the [capacityReservation] and [executionId] that
    the closure on its promise holds *)
Record IExecutingWorkflowData := {
  ew_executionData : IWorkflowExecutionDataProcess;
  ew_startedAt : Z;
  ew_postExecutePromise : PromiseState;
  ew_status : string;
  ew_responsePromise : option nat;
  ew_workflowExecution : option nat;
  ew_executionId : string;
  ew_capacityReservation : option CapacityTarget;
}.

(** A call of [add] that has not returned yet; [granted] tells whether its capacity
    was reserved. *)
Record AddCall := {
  ac_executionData : IWorkflowExecutionDataProcess;
  ac_executionId : string;
  ac_resuming : bool;
  ac_granted : bool;
}.

Definition ac_target (a : AddCall) : CapacityTarget :=
  {| ct_executionId := ac_executionId a; ct_mode := wp_executionMode (ac_executionData a) |}.

(** What an operation does to the outside *)
Inductive Effect :=
  | EmitCancelled (executionId : string)
  | RejectResponse (promise : nat)
  | ResolveResponse (promise : nat)
  | CancelWorkflow (workflowExecution : nat)
  | WriteChunk (executionId : string)
  | EndResponse (executionId : string).

#[global] Instance Effect_eq_dec : EqDecision Effect.
Proof. solve_decision. Defined.

Module ActiveExecutions.

Record t := {
  concurrencyControl : ConcurrencyControl.t;
  activeExecutions : jsobj nat;
  responseModes : jsmap string string;
  objects : jsmap nat IExecutingWorkflowData;
  adding : jsmap nat AddCall;
}.

Definition setControl (c : ConcurrencyControl.t) (s : t) : t :=
  {| concurrencyControl := c; activeExecutions := activeExecutions s; responseModes := responseModes s;
     objects := objects s; adding := adding s |}.

Definition setActive (o : jsobj nat) (s : t) : t :=
  {| concurrencyControl := concurrencyControl s; activeExecutions := o; responseModes := responseModes s;
     objects := objects s; adding := adding s |}.

Definition setModes (m : jsmap string string) (s : t) : t :=
  {| concurrencyControl := concurrencyControl s; activeExecutions := activeExecutions s; responseModes := m;
     objects := objects s; adding := adding s |}.

Definition setObjects (o : jsmap nat IExecutingWorkflowData) (s : t) : t :=
  {| concurrencyControl := concurrencyControl s; activeExecutions := activeExecutions s;
     responseModes := responseModes s; objects := o; adding := adding s |}.

Definition setAdding (a : jsmap nat AddCall) (s : t) : t :=
  {| concurrencyControl := concurrencyControl s; activeExecutions := activeExecutions s;
     responseModes := responseModes s; objects := objects s; adding := a |}.

Definition new (c : ConcurrencyControl.t) : t :=
  {| concurrencyControl := c; activeExecutions := []; responseModes := []; objects := []; adding := [] |}.

Definition has (executionId : string) (s : t) : bool := obj_has executionId (activeExecutions s).

(** [this.activeExecutions[executionId]] *)
Definition lookup (executionId : string) (s : t) : option (nat * IExecutingWorkflowData) :=
  ref ← obj_get executionId (activeExecutions s);
  (ref,.) <$> map_get ref (objects s).

Definition getExecutionOrFail (executionId : string) (s : t) : res (nat * IExecutingWorkflowData) :=
  match lookup executionId s with
  | Some e => Ok e
  | None => Throw (UnexpectedError "No active execution found")
  end.

(** The promise of a call that waits is resolved. *)
Definition grant (resolved : option nat) (s : t) : t :=
  match resolved with
  | None => s
  | Some call =>
      match map_get call (adding s) with
      | None => s
      | Some a => setAdding (map_set call {| ac_executionData := ac_executionData a;
          ac_executionId := ac_executionId a; ac_resuming := ac_resuming a; ac_granted := true |} (adding s)) s
      end
  end.

(** [capacityReservation.release()] of a reservation for [target] *)
Definition releaseCapacity (target : option CapacityTarget) (s : t) : res t :=
  '(_, c, resolved) ← ConcurrencyCapacityReservation.release target (concurrencyControl s);
  Ok (grant resolved (setControl c s)).

(** [add] up to the [await] of the reservation.  [created] is the result of
    [executionPersistence.create], which is called for a new execution. *)
Definition add (executionData : IWorkflowExecutionDataProcess) (maybeExecutionId : option string)
    (created : res string) (call : nat) (s : t) : res t :=
  executionId ← match maybeExecutionId with
    | Some executionId => Ok executionId
    | None =>
        executionId ← created;
        _ ← assert_ok (bool_decide (executionId ≠ ""));
        Ok executionId
    end;
  let a granted := {| ac_executionData := executionData; ac_executionId := executionId;
    ac_resuming := bool_decide (is_Some maybeExecutionId); ac_granted := granted |} in
  '(c, through) ← ConcurrencyCapacityReservation.reserve (ac_target (a true)) call None (concurrencyControl s);
  Ok (setAdding (map_set call (a through) (adding s)) (setControl c s)).

(** [updated] is what the database answers: for an execution that is resumed, whether
    it was still waiting; for a new one only whether the call threw. *)
Definition databaseStep (resuming regularMode : bool) (updated : res bool) : res unit :=
  if resuming then
    updateSucceeded ← updated;
    if updateSucceeded : bool then Ok tt
    else Throw (OperationalError "Execution is already being resumed by another process")
  else if regularMode then _ ← updated; Ok tt else Ok tt.

(** The object that [add] registers *)
Definition registered (call : nat) (a : AddCall) (now : Z) (s : t) : t :=
  let executionId := ac_executionId a in
  let resumingExecution := snd <$> lookup executionId s in
  let execution := {| ew_executionData := ac_executionData a;
    ew_startedAt := default now (ew_startedAt <$> resumingExecution);
    ew_postExecutePromise := Pending;
    ew_status := if ac_resuming a && bool_decide (executionId = "") then "new" else "running";
    ew_responsePromise := resumingExecution ≫= ew_responsePromise;
    ew_workflowExecution := None; ew_executionId := executionId;
    ew_capacityReservation := ConcurrencyCapacityReservation.reserved (ac_target a) None |} in
  setActive (obj_set executionId call (activeExecutions s))
    (setObjects (map_set call execution (objects s)) s).

(** [add] from the moment its reservation is made: the execution is registered, or
    the capacity is given back and the call throws. *)
Definition addReserved (call : nat) (regularMode : bool) (updated : res bool) (now : Z) (s : t)
    : res (t * option jserror) :=
  a ← deref (map_get call (adding s));
  let returned := setAdding (map_delete call (adding s)) s in
  match databaseStep (ac_resuming a) regularMode updated with
  | OutOfFuel => OutOfFuel
  | Throw error =>
      s ← releaseCapacity (ConcurrencyCapacityReservation.reserved (ac_target a) None) returned;
      Ok (s, Some error)
  | Ok _ => Ok (registered call a now returned, None)
  end.

(** The [finally] of [postExecutePromise] *)
Definition settled (ref : nat) (s : t) : res t :=
  execution ← deref (map_get ref (objects s));
  s ← releaseCapacity (ew_capacityReservation execution) s;
  let update workflowExecution := {| ew_executionData := ew_executionData execution;
    ew_startedAt := ew_startedAt execution; ew_postExecutePromise := Finished;
    ew_status := ew_status execution; ew_responsePromise := ew_responsePromise execution;
    ew_workflowExecution := workflowExecution; ew_executionId := ew_executionId execution;
    ew_capacityReservation := None |} in
  if bool_decide (ew_status execution = "waiting")
  then Ok (setObjects (map_set ref (update None) (objects s)) s)
  else
    let s := setObjects (map_set ref (update (ew_workflowExecution execution)) (objects s)) s in
    Ok (setModes (map_delete (ew_executionId execution) (responseModes s))
         (setActive (obj_delete (ew_executionId execution) (activeExecutions s)) s)).

(** *** Updates of an object *)

Definition withStatus (status : string) (e : IExecutingWorkflowData) : IExecutingWorkflowData :=
  {| ew_executionData := ew_executionData e; ew_startedAt := ew_startedAt e;
     ew_postExecutePromise := ew_postExecutePromise e; ew_status := status;
     ew_responsePromise := ew_responsePromise e; ew_workflowExecution := ew_workflowExecution e;
     ew_executionId := ew_executionId e; ew_capacityReservation := ew_capacityReservation e |}.

Definition withWorkflowExecution (w : nat) (e : IExecutingWorkflowData) : IExecutingWorkflowData :=
  {| ew_executionData := ew_executionData e; ew_startedAt := ew_startedAt e;
     ew_postExecutePromise := ew_postExecutePromise e; ew_status := ew_status e;
     ew_responsePromise := ew_responsePromise e; ew_workflowExecution := Some w;
     ew_executionId := ew_executionId e; ew_capacityReservation := ew_capacityReservation e |}.

Definition withResponsePromise (p : nat) (e : IExecutingWorkflowData) : IExecutingWorkflowData :=
  {| ew_executionData := ew_executionData e; ew_startedAt := ew_startedAt e;
     ew_postExecutePromise := ew_postExecutePromise e; ew_status := ew_status e;
     ew_responsePromise := Some p; ew_workflowExecution := ew_workflowExecution e;
     ew_executionId := ew_executionId e; ew_capacityReservation := ew_capacityReservation e |}.

(** [resolve] and [reject] have no effect on a promise that is settled. *)
Definition withSettled (e : IExecutingWorkflowData) : IExecutingWorkflowData :=
  {| ew_executionData := ew_executionData e; ew_startedAt := ew_startedAt e;
     ew_postExecutePromise :=
       match ew_postExecutePromise e with Pending => Settled | settled => settled end;
     ew_status := ew_status e; ew_responsePromise := ew_responsePromise e;
     ew_workflowExecution := ew_workflowExecution e; ew_executionId := ew_executionId e;
     ew_capacityReservation := ew_capacityReservation e |}.

Definition update (f : IExecutingWorkflowData → IExecutingWorkflowData) (ref : nat) (s : t) : t :=
  match map_get ref (objects s) with
  | None => s
  | Some e => setObjects (map_set ref (f e) (objects s)) s
  end.

Definition attachWorkflowExecution (executionId : string) (workflowExecution : nat) (s : t) : res t :=
  '(ref, _) ← getExecutionOrFail executionId s;
  Ok (update (withWorkflowExecution workflowExecution) ref s).

Definition attachResponsePromise (executionId : string) (responsePromise : nat) (s : t) : res t :=
  '(ref, _) ← getExecutionOrFail executionId s;
  Ok (update (withResponsePromise responsePromise) ref s).

Definition resolveResponsePromise (executionId : string) (s : t) : list Effect :=
  ResolveResponse <$> option_list (lookup executionId s ≫= λ e, ew_responsePromise e.2).

Definition sendChunk (executionId : string) (s : t) : list Effect :=
  match lookup executionId s with
  | Some (_, e) => if wp_httpResponse (ew_executionData e) then [WriteChunk executionId] else []
  | None => []
  end.

Definition stopExecution (executionId : string) (s : t) : t * list Effect :=
  match lookup executionId s with
  | None => (s, [])
  | Some (ref, execution) =>
      let effects := EmitCancelled executionId :: (RejectResponse <$> option_list (ew_responsePromise execution)) in
      if bool_decide (ew_status execution = "waiting")
      then (setModes (map_delete executionId (responseModes s))
              (setActive (obj_delete executionId (activeExecutions s)) s), effects)
      else (update withSettled ref s,
            effects ++ (CancelWorkflow <$> option_list (ew_workflowExecution execution)))
  end.

Definition finalizeExecution (executionId : string) (s : t) : res (t * list Effect) :=
  if negb (has executionId s) then Ok (s, []) else
  '(ref, execution) ← getExecutionOrFail executionId s;
  Ok (update withSettled ref s,
      if wp_httpResponse (ew_executionData execution) then [EndResponse executionId] else []).

Definition resolveExecutionResponsePromise (executionId : string) (s : t) : res (list Effect) :=
  if negb (has executionId s) then Ok [] else
  '(_, execution) ← getExecutionOrFail executionId s;
  Ok (if bool_decide (ew_status execution ≠ "waiting")
      then ResolveResponse <$> option_list (ew_responsePromise execution) else []).

Record IExecutionsCurrentSummary := {
  cs_id : string;
  cs_retryOf : option string;
  cs_startedAt : Z;
  cs_mode : string;
  cs_workflowId : option string;
  cs_status : string;
}.

Definition getActiveExecutions (s : t) : res (list IExecutionsCurrentSummary) :=
  mapM_res (λ id,
    '(_, data) ← deref (lookup id s);
    Ok {| cs_id := id; cs_retryOf := wp_retryOf (ew_executionData data);
          cs_startedAt := ew_startedAt data; cs_mode := wp_executionMode (ew_executionData data);
          cs_workflowId := wp_workflowId (ew_executionData data); cs_status := ew_status data |})
    (activeExecutions s).*1.

Definition setStatus (executionId : string) (status : string) (s : t) : res t :=
  '(ref, _) ← getExecutionOrFail executionId s;
  Ok (update (withStatus status) ref s).

Definition getStatus (executionId : string) (s : t) : res string :=
  '(_, e) ← getExecutionOrFail executionId s;
  Ok (ew_status e).

Definition setResponseMode (executionId responseMode : string) (s : t) : t :=
  setModes (map_set executionId responseMode (responseModes s)) s.

Definition getResponseMode (executionId : string) (s : t) : option string :=
  map_get executionId (responseModes s).

(** The loop of [shutdown] over the executions *)
Definition shutdownOne (regularMode cancelAll : bool) (acc : t * list Effect * list string)
    (executionId : string) : res (t * list Effect * list string) :=
  let '(s, effects, toCancel) := acc in
  '(_, execution) ← deref (lookup executionId s);
  if regularMode && cancelAll then
    let '(s, stopped) := stopExecution executionId s in
    Ok (s, effects ++ stopped, toCancel ++ [executionId])
  else if bool_decide (ew_status execution = "waiting") || bool_decide (ew_status execution = "new")
  then Ok (setActive (obj_delete executionId (activeExecutions s)) s, effects, toCancel)
  else Ok acc.

(** [shutdown] up to its loop, which sleeps until [activeExecutions] is empty; with
    the executions that are cancelled in the database *)
Definition shutdown (regularMode cancelAll : bool) (s : t) : res (t * list Effect * list string) :=
  let s := if regularMode then setControl (ConcurrencyControl.disable (concurrencyControl s)) s else s in
  '(s, effects, toCancel) ← foldM (shutdownOne regularMode cancelAll) (s, [], []) (activeExecutions s).*1;
  let '(c, resolved, cancelled) := ConcurrencyControl.removeAll toCancel (concurrencyControl s) in
  Ok (foldl (λ s call, grant (Some call) s) (setControl c s) resolved, effects, cancelled).
End ActiveExecutions.
