(* ===== verification/ExecutionCapacity.v ===== *)
(** * The capacity of active executions

    [ActiveExecutions] put together with [Concurrency]: in every sequence of
    operations, an execution takes capacity once before it is registered and gives it
    back once, so the bounds of the queues are bounds on the executions that are
    active. *)

From S2P Require Import Prelude JsCollections Concurrency ActiveExecutions.
Import ActiveExecutions.

(** ** Operations *)

Inductive activeOp :=
  | OpAdd (executionData : IWorkflowExecutionDataProcess) (maybeExecutionId : option string)
      (created : res string) (call : nat)
  | OpReserved (call : nat) (regularMode : bool) (updated : res bool) (now : Z)
  | OpSettled (ref : nat)
  | OpStop (executionId : string)
  | OpFinalize (executionId : string)
  | OpSetStatus (executionId status : string)
  | OpAttachWorkflow (executionId : string) (workflowExecution : nat)
  | OpAttachResponse (executionId : string) (responsePromise : nat)
  | OpSetResponseMode (executionId responseMode : string)
  | OpRemove (target : CapacityTarget)
  | OpShutdown (cancelAll : bool).

Definition returned {A} (r : res A) : option A := match r with Ok a => Some a | _ => None end.

(** [None] if the operation cannot happen or throws: a call of [add] has a new number and
    goes on when its capacity is granted, and the [finally] of a promise runs once after
    it is settled. *)
Definition perform (op : activeOp) (s : t) : option t :=
  match op with
  | OpAdd executionData maybeExecutionId created call =>
      if bool_decide (call ∈ (adding s).*1) || bool_decide (call ∈ (objects s).*1) then None
      else returned (add executionData maybeExecutionId created call s)
  | OpReserved call regularMode updated now =>
      a ← map_get call (adding s);
      if ac_granted a then fst <$> returned (addReserved call regularMode updated now s) else None
  | OpSettled ref =>
      e ← map_get ref (objects s);
      if bool_decide (ew_postExecutePromise e = Settled) then returned (settled ref s) else None
  | OpStop executionId => Some (stopExecution executionId s).1
  | OpFinalize executionId => fst <$> returned (finalizeExecution executionId s)
  | OpSetStatus executionId status => returned (setStatus executionId status s)
  | OpAttachWorkflow executionId w => returned (attachWorkflowExecution executionId w s)
  | OpAttachResponse executionId p => returned (attachResponsePromise executionId p s)
  | OpSetResponseMode executionId m => Some (setResponseMode executionId m s)
  | OpRemove target =>
      '(c, resolved) ← returned (ConcurrencyControl.remove target (concurrencyControl s));
      Some (grant resolved (setControl c s))
  | OpShutdown cancelAll => (λ r : t * list Effect * list string, r.1.1) <$> returned (shutdown true cancelAll s)
  end.

Definition performAll (ops : list activeOp) (s : t) : option t :=
  foldl (λ s op, s ≫= perform op) (Some s) ops.

Definition isRemove (op : activeOp) : bool := match op with OpRemove _ => true | _ => false end.

Definition removals (ops : list activeOp) : nat := length (filter (λ op, isRemove op = true) ops).

(** ** Who holds capacity *)

Definition modeIs (type : ConcurrencyQueueType) (mode : string) : bool :=
  match ConcurrencyControl.queueType mode with
  | Ok (Some type') => bool_decide (type' = type)
  | _ => false
  end.

Definition holdsCall (type : ConcurrencyQueueType) (a : AddCall) : bool :=
  ac_granted a && modeIs type (ct_mode (ac_target a)).

Definition holdsObject (type : ConcurrencyQueueType) (e : IExecutingWorkflowData) : bool :=
  match ew_capacityReservation e with Some target => modeIs type (ct_mode target) | None => false end.

Definition held (type : ConcurrencyQueueType) (s : t) : nat :=
  map_count (holdsCall type) (adding s) + map_count (holdsObject type) (objects s).

(** The capacity of a reservation that is being released *)
Definition inflightCount (type : ConcurrencyQueueType) (inflight : option CapacityTarget) : nat :=
  match inflight with Some target => if modeIs type (ct_mode target) then 1 else 0 | None => 0 end.

Definition waits (type : ConcurrencyQueueType) (a : AddCall) : Prop :=
  ac_granted a = false ∧ modeIs type (ct_mode (ac_target a)) = true.

Record queueOk (limit : ConcurrencyQueueType → Z) (k n : nat) (calls : jsmap nat AddCall)
    (type : ConcurrencyQueueType) (q : ConcurrencyQueue.t) : Prop := {
  qo_inv : queueInv (limit type) k n q;
  qo_nodup : NoDup (ConcurrencyQueue.queue q).*2;
  qo_calls : ∀ call, call ∈ (ConcurrencyQueue.queue q).*2 → ∃ a, map_get call calls = Some a ∧ waits type a;
}.

Record capacityInv (limit : ConcurrencyQueueType → Z) (k : nat) (inflight : option CapacityTarget) (s : t)
    : Prop := {
  ci_adding : NoDup (adding s).*1;
  ci_objects : NoDup (objects s).*1;
  ci_disjoint : ∀ call, call ∈ (adding s).*1 → call ∉ (objects s).*1;
  ci_reserved : ∀ ref e, map_get ref (objects s) = Some e → ew_postExecutePromise e ≠ Finished →
    ew_capacityReservation e =
      Some {| ct_executionId := ew_executionId e; ct_mode := wp_executionMode (ew_executionData e) |};
  ci_queues : ConcurrencyControl.isEnabled (concurrencyControl s) = true → ∀ type q,
    map_get type (ConcurrencyControl.queues (concurrencyControl s)) = Some q →
    queueOk limit k (held type s + inflightCount type inflight) (adding s) type q;
}.

(** ** The service *)

Lemma queueInv_mono limit k k' n q : k ≤ k' → queueInv limit k n q → queueInv limit k' n q.
Proof. intros Hk []. split; [done|lia|done]. Qed.

(** An operation on the queue of a mode changes that queue only. *)
Lemma onQueue_spec {A} mode (none : A) f c c' a :
  ConcurrencyControl.isEnabled c = true → ConcurrencyControl.onQueue mode none f c = Ok (c', a) →
  (∃ type q q' events, modeIs type mode = true ∧ map_get type (ConcurrencyControl.queues c) = Some q ∧
    f q = (q', events, a) ∧ c' = ConcurrencyControl.setQueue type q' c) ∨
  (c' = c ∧ a = none ∧ ∀ type, modeIs type mode = true → map_get type (ConcurrencyControl.queues c) = None).
Proof.
  intros Hen. unfold ConcurrencyControl.onQueue, ConcurrencyControl.isUnlimited, ConcurrencyControl.getQueue,
    modeIs. rewrite Hen. simpl.
  destruct (ConcurrencyControl.queueType mode) as [[type|]|e|]; simpl; [| |done|done].
  - destruct (map_get type (ConcurrencyControl.queues c)) as [q|] eqn:Hq; simpl.
    + destruct (f q) as [[q' events] a'] eqn:Hf.
      intros [= <- <-]. left. exists type, q, q', events. by rewrite bool_decide_true.
    + intros [= <- <-]. right. do 2 (split; [done|]).
      intros type' <-%bool_decide_eq_true. done.
  - intros [= <- <-]. by right.
Qed.

Lemma onQueue_disabled {A} mode (none : A) f c :
  ConcurrencyControl.isEnabled c = false → ConcurrencyControl.onQueue mode none f c = Ok (c, none).
Proof. intros Hen. unfold ConcurrencyControl.onQueue. by rewrite Hen. Qed.

Lemma onQueue_enabled {A} mode (none : A) f c c' a :
  ConcurrencyControl.onQueue mode none f c = Ok (c', a) →
  ConcurrencyControl.isEnabled c' = ConcurrencyControl.isEnabled c.
Proof.
  intros H. destruct (ConcurrencyControl.isEnabled c) eqn:Hen.
  - apply onQueue_spec in H as [(type & q & q' & ev & _ & _ & _ & ->)|(-> & _)]; done.
  - rewrite onQueue_disabled in H by done. by simplify_eq.
Qed.

Lemma modeIs_inj type type' mode : modeIs type mode = true → modeIs type' mode = true → type = type'.
Proof.
  unfold modeIs. destruct (ConcurrencyControl.queueType mode) as [[]| |]; [|done..].
  rewrite !bool_decide_eq_true. congruence.
Qed.

Lemma setQueue_get type q c type' :
  map_get type' (ConcurrencyControl.queues (ConcurrencyControl.setQueue type q c)) =
  if bool_decide (type' = type) then Some q else map_get type' (ConcurrencyControl.queues c).
Proof. apply map_get_set. Qed.

(** ** Granting capacity *)

Definition grantCall (a : AddCall) : AddCall :=
  {| ac_executionData := ac_executionData a; ac_executionId := ac_executionId a;
     ac_resuming := ac_resuming a; ac_granted := true |}.

Lemma grant_Some call a s :
  map_get call (adding s) = Some a →
  grant (Some call) s = setAdding (map_set call (grantCall a) (adding s)) s.
Proof. intros Ha. simpl. by rewrite Ha. Qed.

Lemma map_set_keys_Some {V} (m : jsmap nat V) call v v' :
  map_get call m = Some v → (map_set call v' m).*1 = m.*1.
Proof. intros Hv. rewrite map_set_keys. by rewrite (proj2 (map_has_get call m)). Qed.

Lemma grant_held type call a s type' :
  map_get call (adding s) = Some a → waits type a →
  held type' (grant (Some call) s) = held type' s + (if bool_decide (type' = type) then 1 else 0).
Proof.
  intros Ha [Hg Hm]. erewrite grant_Some by done. unfold held. simpl.
  pose proof (map_count_set (holdsCall type') call (grantCall a) (adding s)) as Hc.
  rewrite Ha in Hc. simpl in Hc. unfold holdsCall in Hc at 2 4. rewrite Hg in Hc. simpl in Hc.
  destruct (modeIs type' (wp_executionMode (ac_executionData a))) eqn:Hm'.
  - rewrite bool_decide_true by (by eapply modeIs_inj). simpl in *. lia.
  - rewrite bool_decide_false by (intros ->; simpl in *; congruence). simpl in *. lia.
Qed.

(** The tickets that are left when [resolved] was taken from the queue *)
Definition takes (q q' : ConcurrencyQueue.t) (resolved : option nat) : Prop :=
  NoDup (option_list resolved ++ (ConcurrencyQueue.queue q').*2) ∧
  ∀ call, call ∈ option_list resolved ++ (ConcurrencyQueue.queue q').*2 → call ∈ (ConcurrencyQueue.queue q).*2.

Lemma dequeue_takes q q' events resolved :
  NoDup (ConcurrencyQueue.queue q).*2 → ConcurrencyQueue.dequeue q = (q', events, resolved) →
  takes q q' resolved.
Proof. intros Hnd (_ & Hq & _)%dequeue_spec. unfold takes. by rewrite <- Hq. Qed.

Lemma remove_takes id q q' events resolved :
  NoDup (ConcurrencyQueue.queue q).*2 → ConcurrencyQueue.remove id q = (q', events, resolved) →
  takes q q' resolved.
Proof.
  intros Hnd [[-> ->]|(before & ticket & after & Hq & _ & Hba & _)]%remove_spec; [by split|].
  unfold takes. rewrite <- Hba, Hq in *. split; [|set_solver].
  eapply sublist_NoDup; [exact Hnd|]. by apply sublist_app, sublist_cons.
Qed.

Lemma grant_capacity limit k k' inflight inflight' s type q q' resolved :
  capacityInv limit k inflight s → k ≤ k' →
  ConcurrencyControl.isEnabled (concurrencyControl s) = true →
  map_get type (ConcurrencyControl.queues (concurrencyControl s)) = Some q → takes q q' resolved →
  (∀ type', type' ≠ type → inflightCount type' inflight' = inflightCount type' inflight) →
  queueInv (limit type) k' (held type s + inflightCount type inflight' + length (option_list resolved)) q' →
  capacityInv limit k' inflight'
    (grant resolved (setControl (ConcurrencyControl.setQueue type q' (concurrencyControl s)) s)).
Proof.
  intros [Hadd Hobj Hdis Hres Hqs] Hk Hen Hq [Hnd Hsub] Hin Hinv.
  destruct (Hqs Hen type q Hq) as [_ _ Hcalls].
  destruct resolved as [call|]; simpl in Hsub, Hnd, Hinv.
  - destruct (Hcalls call) as (a & Ha & Hw); [set_solver|].
    set (s1 := setControl _ _).
    assert (∀ type', held type' (grant (Some call) s1) =
      held type' s + (if bool_decide (type' = type) then 1 else 0)) as Hheld
      by (intros type'; by apply (grant_held type call a s1)).
    rewrite (grant_Some call a s1) in * by done.
    split; simpl; rewrite ?(map_set_keys_Some _ _ _ _ Ha); try done.
    intros _ type' q0. rewrite map_get_set, Hheld. case_bools.
    + intros; simplify_eq. split; [by replace (held type s + 1 + inflightCount type inflight')
        with (held type s + inflightCount type inflight' + 1) by lia|by inv Hnd|].
      intros call' Hc. destruct (Hcalls call') as (a' & Ha' & Hw'); [set_solver|].
      exists a'. rewrite map_get_set_ne; [done|]. inv Hnd. naive_solver.
    + intros Hq0. destruct (Hqs Hen type' q0 Hq0) as [Hi Hn Hc].
      rewrite Nat.add_0_r, Hin by done. split; [by eapply queueInv_mono|done|].
      intros call' (a' & Ha' & Hw')%Hc. exists a'. rewrite map_get_set_ne; [done|].
      intros ->. destruct Hw as [_ Hw], Hw' as [_ Hw']. rewrite Ha in Ha'. simplify_eq.
      eapply modeIs_inj in Hw; [|exact Hw']. done.
  - split; simpl; try done. intros _ type' q0. rewrite map_get_set. unfold held. simpl. case_bools.
    + intros; simplify_eq. rewrite Nat.add_0_r in Hinv. split; [done|done|]. set_solver.
    + intros Hq0. destruct (Hqs Hen type' q0 Hq0) as [Hi Hn Hc]. rewrite Hin by done.
      split; [by eapply queueInv_mono|done|done].
Qed.

(** ** The operations keep the invariant *)

Section operations.
Context (limit : ConcurrencyQueueType → Z).

(** The invariant is about the capacity, the objects and the calls of [add]. *)
Lemma capacityInv_ext k inflight s s' :
  concurrencyControl s' = concurrencyControl s → objects s' = objects s → adding s' = adding s →
  capacityInv limit k inflight s → capacityInv limit k inflight s'.
Proof. destruct s, s'; simpl; intros -> -> -> []. by split. Qed.

Lemma inflight_other type target type' :
  modeIs type (ct_mode target) = true → type' ≠ type → inflightCount type' (Some target) = 0.
Proof.
  intros Ht Hne. simpl. destruct (modeIs type' _) eqn:E; [|done]. eapply modeIs_inj in E; [|exact Ht]. done.
Qed.

Lemma releaseCapacity_inv k target s s' :
  capacityInv limit k target s → releaseCapacity target s = Ok s' → capacityInv limit k None s'.
Proof.
  intros Hinv. unfold releaseCapacity. destruct target as [target|]; simpl;
    [|intros [= <-]; by eapply (capacityInv_ext _ _ s)].
  unfold ConcurrencyControl.release.
  destruct (ConcurrencyControl.onQueue _ _ _ _) as [[c r]|e|] eqn:Ho; simpl; [|done|done]. intros [= <-].
  destruct (ConcurrencyControl.isEnabled (concurrencyControl s)) eqn:Hen.
  - apply onQueue_spec in Ho as [(type & q & q' & ev & Hm & Hq & Hf & ->)|(-> & -> & Hnone)]; [| |done].
    + destruct Hinv as [??? ? Hqs] eqn:Hinv'. destruct (Hqs Hen type q Hq) as [Hi Hnd _].
      eapply (grant_capacity limit k k (Some target)); [done|done|done|done|by eapply dequeue_takes| |].
      * intros type' Hne. by rewrite (inflight_other type).
      * simpl in *. rewrite Hm, Nat.add_1_r in Hi. rewrite Nat.add_0_r. by eapply dequeue_inv.
    + destruct Hinv as [??? ? Hqs]. split; try done. intros _ type q Hq.
      simpl. replace 0 with (inflightCount type (Some target)); [by apply Hqs|].
      simpl. destruct (modeIs type _) eqn:E; [|done]. simpl in Hq. by rewrite Hnone in Hq.
  - rewrite onQueue_disabled in Ho by done. simplify_eq. destruct Hinv. split; simpl; try done.
    by rewrite Hen.
Qed.

Lemma map_get_fresh {V} (m : jsmap nat V) call : call ∉ m.*1 → map_get call m = None.
Proof. apply map_get_None. Qed.

(** A call of [add] is recorded. *)
Lemma adding_held type call a s :
  call ∉ (adding s).*1 →
  held type (setAdding (map_set call a (adding s)) s) = held type s + (if holdsCall type a then 1 else 0).
Proof.
  intros Hfresh. unfold held. simpl.
  pose proof (map_count_set (holdsCall type) call a (adding s)) as Hc.
  rewrite map_get_fresh in Hc by done. simpl in Hc. lia.
Qed.

(** A new call is recorded, and the queue of its mode, if any, is [q']. *)
Lemma adding_inv k call a s c :
  capacityInv limit k None s → call ∉ (adding s).*1 → call ∉ (objects s).*1 →
  ConcurrencyControl.isEnabled c = ConcurrencyControl.isEnabled (concurrencyControl s) →
  (ConcurrencyControl.isEnabled c = true → ∀ type q', map_get type (ConcurrencyControl.queues c) = Some q' →
    ∃ q, map_get type (ConcurrencyControl.queues (concurrencyControl s)) = Some q ∧
      (∀ n, queueInv (limit type) k n q → queueInv (limit type) k (n + if holdsCall type a then 1 else 0) q') ∧
      ((ConcurrencyQueue.queue q').*2 = (ConcurrencyQueue.queue q).*2 ∨
       waits type a ∧ (ConcurrencyQueue.queue q').*2 = (ConcurrencyQueue.queue q).*2 ++ [call])) →
  capacityInv limit k None (setAdding (map_set call a (adding s)) (setControl c s)).
Proof.
  intros [Hadd Hobj Hdis Hres Hqs] Hc1 Hc2 Hen Hc.
  assert (∀ call', call' ∈ (adding s).*1 → call' ≠ call) as Hne by (intros ? ? ->; done).
  split; simpl; [by apply map_set_NoDup|done| |done|].
  - intros call'. rewrite elem_of_map_set_keys. naive_solver.
  - intros Hen' type q' Hq'. rewrite Hen in Hen'.
    destruct (Hc ltac:(by rewrite Hen) type q' Hq') as (q & Hq & Hi & Hcase).
    destruct (Hqs Hen' type q Hq) as [Hi0 Hnd Hcalls].
    assert (∀ call', call' ∈ (ConcurrencyQueue.queue q).*2 → ∃ a', map_get call' (adding s) = Some a' ∧
      map_get call' (map_set call a (adding s)) = Some a' ∧ waits type a') as Hold.
    { intros call' (a' & Ha' & Hw)%Hcalls. exists a'. rewrite map_get_set_ne; [done|].
      apply Hne. apply map_get_elem_of in Ha'. apply list_elem_of_fmap. by eexists (_, _). }
    split.
    + rewrite Nat.add_0_r in *. pose proof (adding_held type call a (setControl c s) Hc1) as Hh.
      simpl in Hh. rewrite Hh. by apply Hi.
    + destruct Hcase as [->|[_ ->]]; [done|]. apply NoDup_snoc; [done|].
      intros (a' & Ha' & _)%Hold. by rewrite map_get_fresh in Ha'.
    + intros call'. destruct Hcase as [->|[Hw ->]]; [naive_solver|].
      rewrite elem_of_app, list_elem_of_singleton. intros [?%Hold| ->]; [naive_solver|].
      exists a. by rewrite map_get_set_eq.
Qed.

Lemma enqueue_tickets id ticket q q' events through :
  ConcurrencyQueue.enqueue id ticket q = (q', events, through) →
  (ConcurrencyQueue.queue q').*2 = (ConcurrencyQueue.queue q).*2 ++ (if through : bool then [] else [ticket]).
Proof.
  unfold ConcurrencyQueue.enqueue. case_bools; intros; simplify_eq; simpl;
    [by rewrite fmap_app|by rewrite app_nil_r].
Qed.

Lemma add_inv k data maybeId created call s s' :
  capacityInv limit k None s → call ∉ (adding s).*1 → call ∉ (objects s).*1 →
  add data maybeId created call s = Ok s' → capacityInv limit k None s'.
Proof.
  intros Hinv Hc1 Hc2. unfold add, ConcurrencyCapacityReservation.reserve.
  destruct (match maybeId with Some _ => _ | None => _ end) as [id|e|]; simpl; [|done|done].
  set (resuming := bool_decide (is_Some maybeId)). unfold ConcurrencyControl.throttle.
  destruct (ConcurrencyControl.onQueue _ _ _ _) as [[c through]|e|] eqn:Ho; simpl; [|done|done].
  intros [= <-]. pose proof (onQueue_enabled _ _ _ _ _ _ Ho) as Hen. apply adding_inv; try done.
  intros Hen'. rewrite Hen in Hen'.
  apply onQueue_spec in Ho as [(type & q & q' & ev & Hm & Hq & Hf & ->)|(-> & -> & Hnone)]; [| |done];
    intros type' q0; unfold holdsCall; simpl in *.
  - rewrite map_get_set. case_bools; subst.
    + intros; simplify_eq. exists q. split; [done|]. rewrite Hm, andb_true_r.
      split; [intros n Hn; by eapply enqueue_inv|].
      rewrite (enqueue_tickets _ _ _ _ _ _ Hf). destruct through; [left; by rewrite app_nil_r|by right].
    + intros Hq0. exists q0. split; [done|]. split; [|by left].
      destruct (modeIs type' _) eqn:E; [eapply modeIs_inj in E; [|exact Hm]; congruence|].
      rewrite andb_false_r. intros n. by rewrite Nat.add_0_r.
  - intros Hq0. exists q0. split; [done|]. split; [|by left].
    destruct (modeIs type' _) eqn:E; [by rewrite Hnone in Hq0|]. intros n. by rewrite Nat.add_0_r.
Qed.

(** The capacity of a call that was granted is in flight when the call is dropped. *)
Lemma dropCall_inv k call a s :
  capacityInv limit k None s → map_get call (adding s) = Some a → ac_granted a = true →
  capacityInv limit k (Some (ac_target a)) (setAdding (map_delete call (adding s)) s).
Proof.
  intros [Hadd Hobj Hdis Hres Hqs] Ha Hg. split; simpl; [by apply map_delete_NoDup|done| |done|].
  - intros call' (kv & -> & [Hin _]%elem_of_map_delete)%list_elem_of_fmap.
    apply Hdis, list_elem_of_fmap. by eexists.
  - intros Hen type q Hq. destruct (Hqs Hen type q Hq) as [Hi Hnd Hcalls]. split; [|done|].
    + pose proof (map_count_delete (holdsCall type) call (adding s) Hadd) as Hc. rewrite Ha in Hc.
      simpl in Hc. unfold holdsCall in Hc at 2. rewrite Hg in Hc. simpl in Hc.
      unfold held in *. simpl in *. rewrite Nat.add_0_r in Hi.
      by replace (map_count _ (map_delete call (adding s)) + map_count (holdsObject type) (objects s) + _)
        with (map_count (holdsCall type) (adding s) + map_count (holdsObject type) (objects s)) by lia.
    + intros call' (a' & Ha' & Hw)%Hcalls. exists a'. rewrite map_get_delete, bool_decide_false; [done|].
      intros ->. destruct Hw. congruence.
Qed.

(** Capacity in flight is taken over by a new object. *)
Lemma registerObject_inv k target call e s :
  capacityInv limit k (Some target) s → call ∉ (objects s).*1 → call ∉ (adding s).*1 →
  ew_capacityReservation e = Some target → ew_executionId e = ct_executionId target →
  wp_executionMode (ew_executionData e) = ct_mode target →
  capacityInv limit k None (setObjects (map_set call e (objects s)) s).
Proof.
  intros [Hadd Hobj Hdis Hres Hqs] Hc1 Hc2 Hr Hid Hmode.
  split; simpl; [done|by apply map_set_NoDup| | |].
  - intros call' Hin. rewrite elem_of_map_set_keys. intros [->|?]; [done|naive_solver].
  - intros ref e'. rewrite map_get_set. case_bools; [|by apply Hres].
    intros [= <-] _. rewrite Hr, Hid, Hmode. by destruct target.
  - intros Hen type q Hq. destruct (Hqs Hen type q Hq) as [Hi Hnd Hcalls]. split; [|done|done].
    pose proof (map_count_set (holdsObject type) call e (objects s)) as Hc.
    rewrite map_get_fresh in Hc by done. simpl in Hc. unfold holdsObject in Hc at 3. rewrite Hr in Hc.
    unfold held in *. simpl in *.
    by replace (map_count (holdsCall type) (adding s) + map_count (holdsObject type) (map_set call e (objects s)) + 0)
      with (map_count (holdsCall type) (adding s) + map_count (holdsObject type) (objects s) +
            (if modeIs type (ct_mode target) then 1 else 0)) by lia.
Qed.

Lemma addReserved_inv k call a regularMode updated now s s' error :
  capacityInv limit k None s → map_get call (adding s) = Some a → ac_granted a = true →
  addReserved call regularMode updated now s = Ok (s', error) → capacityInv limit k None s'.
Proof.
  intros Hinv Ha Hg. unfold addReserved. rewrite Ha. simpl.
  assert (call ∉ (objects s).*1) as Hc1.
  { apply (ci_disjoint _ _ _ _ Hinv), list_elem_of_fmap. exists (call, a).
    split; [done|by apply map_get_elem_of]. }
  eapply dropCall_inv in Hinv; [|done|done]. destruct (databaseStep _ _ _) as [[]|e|]; [| |done].
  - intros [= <- <-]. eapply (capacityInv_ext _ _ (setObjects _ _)); [..|eapply registerObject_inv]; try done.
    simpl. intros (kv & -> & [_ ?]%elem_of_map_delete)%list_elem_of_fmap. done.
  - destruct (releaseCapacity _ _) as [s1|e1|] eqn:Hr; simpl; [|done|done]. intros [= <- <-].
    by eapply releaseCapacity_inv.
Qed.

(** An update of an object that keeps its reservation *)
Lemma updateObject_inv k f ref s :
  (∀ e, ew_capacityReservation (f e) = ew_capacityReservation e ∧ ew_executionId (f e) = ew_executionId e ∧
     ew_executionData (f e) = ew_executionData e ∧
     (ew_postExecutePromise (f e) ≠ Finished → ew_postExecutePromise e ≠ Finished)) →
  capacityInv limit k None s → capacityInv limit k None (update f ref s).
Proof.
  intros Hf Hinv. unfold update. destruct (map_get ref (objects s)) as [e|] eqn:He; [|done].
  destruct Hinv as [Hadd Hobj Hdis Hres Hqs]. destruct (Hf e) as (Hr & Hid & Hd & Hp).
  split; simpl; [done|by apply map_set_NoDup| | |].
  - intros call. rewrite (map_set_keys_Some _ _ _ _ He). apply Hdis.
  - intros ref' e'. rewrite map_get_set. case_bools; [|by apply Hres].
    intros [= <-] Hne. rewrite Hr, Hid, Hd. eapply Hres; [done|by apply Hp].
  - intros Hen type q Hq. destruct (Hqs Hen type q Hq) as [Hi Hnd Hcalls]. split; [|done|done].
    pose proof (map_count_set (holdsObject type) ref (f e) (objects s)) as Hc.
    rewrite He in Hc. simpl in Hc. unfold holdsObject in Hc at 2 4. rewrite Hr in Hc.
    unfold held in *. simpl in *.
    by replace (map_count (holdsObject type) (map_set ref (f e) (objects s)))
      with (map_count (holdsObject type) (objects s)) by lia.
Qed.

(** The capacity of an object whose promise is finished is in flight. *)
Lemma finishObject_inv k ref e e' s :
  capacityInv limit k None s → map_get ref (objects s) = Some e →
  ew_capacityReservation e' = None → ew_postExecutePromise e' = Finished →
  capacityInv limit k (ew_capacityReservation e) (setObjects (map_set ref e' (objects s)) s).
Proof.
  intros [Hadd Hobj Hdis Hres Hqs] He Hr Hp. split; simpl; [done|by apply map_set_NoDup| | |].
  - intros call. rewrite (map_set_keys_Some _ _ _ _ He). apply Hdis.
  - intros ref' e''. rewrite map_get_set. case_bools; [by intros [= <-]|by apply Hres].
  - intros Hen type q Hq. destruct (Hqs Hen type q Hq) as [Hi Hnd Hcalls]. split; [|done|done].
    pose proof (map_count_set (holdsObject type) ref e' (objects s)) as Hc.
    rewrite He in Hc. simpl in Hc. unfold holdsObject in Hc at 2 4. rewrite Hr in Hc.
    unfold held, inflightCount in *. simpl in *.
    replace (_ + _ + _) with (map_count (holdsCall type) (adding s) + map_count (holdsObject type) (objects s) + 0);
      [done|]. destruct (ew_capacityReservation e); lia.
Qed.

Lemma grant_setObjects r o s : grant r (setObjects o s) = setObjects o (grant r s).
Proof. destruct r as [call|]; [|done]. simpl. by destruct (map_get call (adding s)). Qed.

Lemma releaseCapacity_setObjects target o s :
  releaseCapacity target (setObjects o s) = setObjects o <$> releaseCapacity target s.
Proof.
  unfold releaseCapacity. simpl. destruct (ConcurrencyCapacityReservation.release _ _) as [[[? c] r]|e|]; simpl;
    [|done|done]. by rewrite <- grant_setObjects.
Qed.

Lemma releaseCapacity_objects target s s' : releaseCapacity target s = Ok s' → objects s' = objects s.
Proof.
  unfold releaseCapacity. destruct (ConcurrencyCapacityReservation.release _ _) as [[[? c] r]|e|]; simpl;
    [|done|done]. intros [= <-]. destruct r as [call|]; [|done]. simpl. by destruct (map_get call _).
Qed.

Lemma settled_inv k ref s s' :
  capacityInv limit k None s → settled ref s = Ok s' → capacityInv limit k None s'.
Proof.
  intros Hinv. unfold settled. destruct (map_get ref (objects s)) as [e|] eqn:He; simpl; [|done].
  destruct (releaseCapacity _ s) as [s1|err|] eqn:Hr; simpl; [|done|done].
  assert (∀ e', ew_capacityReservation e' = None → ew_postExecutePromise e' = Finished →
    capacityInv limit k None (setObjects (map_set ref e' (objects s1)) s1)) as Hfin.
  { intros e' Hr' Hp. eapply releaseCapacity_inv; [by eapply (finishObject_inv k ref e e')|].
    rewrite releaseCapacity_setObjects, Hr. simpl. by erewrite <- releaseCapacity_objects. }
  case_bools; intros [= <-]; [by apply Hfin|].
  eapply (capacityInv_ext _ _ (setObjects (map_set ref _ (objects s1)) s1)); [done|done|done|].
  by apply Hfin.
Qed.

Lemma removeQueued_inv k target s c resolved :
  capacityInv limit k None s → ConcurrencyControl.remove target (concurrencyControl s) = Ok (c, resolved) →
  capacityInv limit (S k) None (grant resolved (setControl c s)).
Proof.
  intros Hinv Ho. assert (capacityInv limit (S k) None s) as HinvS.
  { destruct Hinv as [???? Hqs]. split; try done. intros Hen type q Hq. destruct (Hqs Hen type q Hq).
    split; [|done|done]. eapply queueInv_mono; [|done]. lia. }
  destruct (ConcurrencyControl.isEnabled (concurrencyControl s)) eqn:Hen.
  - apply onQueue_spec in Ho as [(type & q & q' & ev & Hm & Hq & Hf & ->)|(-> & -> & Hnone)]; [| |done].
    + destruct (ci_queues _ _ _ _ Hinv Hen type q Hq) as [Hi Hnd _].
      eapply (grant_capacity limit k (S k) None); [done|lia|done|done|by eapply remove_takes|done|].
      by eapply remove_inv.
    + by eapply (capacityInv_ext _ _ s).
  - unfold ConcurrencyControl.remove in Ho. rewrite onQueue_disabled in Ho by done. simplify_eq.
    by eapply (capacityInv_ext _ _ s).
Qed.

Lemma stopExecution_inv k id s :
  capacityInv limit k None s → capacityInv limit k None (stopExecution id s).1.
Proof.
  intros Hinv. unfold stopExecution. destruct (lookup id s) as [[ref e]|]; [|done].
  case_bools; [by eapply (capacityInv_ext _ _ s)|]. simpl. apply updateObject_inv; [|done].
  intros e'. simpl. by destruct (ew_postExecutePromise e').
Qed.

Lemma stopExecution_control id s : concurrencyControl (stopExecution id s).1 = concurrencyControl s.
Proof.
  unfold stopExecution, update. destruct (lookup id s) as [[ref e]|]; [|done].
  case_bools; [done|]. simpl. by destruct (map_get ref (objects s)).
Qed.

Lemma getAnd_Ok {A} (r : res (nat * IExecutingWorkflowData)) (f : nat → A) a :
  ('(ref, _) ← r; Ok (f ref)) = Ok a → ∃ ref, a = f ref.
Proof. destruct r as [[ref e]|err|]; simpl; [|done|done]. intros [= <-]. by exists ref. Qed.

Lemma shutdownOne_control cancelAll id acc acc' :
  shutdownOne true cancelAll acc id = Ok acc' → concurrencyControl acc'.1.1 = concurrencyControl acc.1.1.
Proof.
  destruct acc as [[s eff] c], acc' as [[s' eff'] c']. unfold shutdownOne. simpl.
  destruct (lookup id s) as [[ref e]|]; simpl; [|done]. destruct cancelAll; simpl.
  - pose proof (stopExecution_control id s). destruct (stopExecution id s) as [s1 eff1].
    by intros [= <- <- <-].
  - destruct (_ || _); by intros [= <- <- <-].
Qed.

Lemma shutdownOne_inv k cancelAll id acc acc' :
  shutdownOne true cancelAll acc id = Ok acc' → capacityInv limit k None acc.1.1 →
  capacityInv limit k None acc'.1.1.
Proof.
  destruct acc as [[s eff] c], acc' as [[s' eff'] c']. unfold shutdownOne. simpl.
  destruct (lookup id s) as [[ref e]|]; simpl; [|done]. destruct cancelAll; simpl.
  - pose proof (stopExecution_inv k id s). destruct (stopExecution id s) as [s1 eff1].
    by intros [= <- <- <-].
  - destruct (_ || _); intros [= <- <- <-]; [|done]. by eapply (capacityInv_ext _ _ s).
Qed.

(** The part of [shutdown] after the loop does nothing: the control is disabled. *)
Lemma shutdown_spec cancelAll s s' effects cancelled :
  shutdown true cancelAll s = Ok (s', effects, cancelled) → ∃ toCancel,
  let s0 := setControl (ConcurrencyControl.disable (concurrencyControl s)) s in
  foldM (shutdownOne true cancelAll) (s0, [], []) (activeExecutions s0).*1 = Ok (s', effects, toCancel) ∧
  concurrencyControl s' = concurrencyControl s0 ∧ cancelled = [].
Proof.
  unfold shutdown. set (s0 := setControl _ _).
  destruct (foldM _ _ _) as [[[s1 eff] toCancel]|e|] eqn:Hf; simpl; [|done|done].
  assert (concurrencyControl s1 = concurrencyControl s0) as Hc.
  { apply (foldM_ind _ (λ _ (acc : t * list Effect * list string),
      concurrencyControl acc.1.1 = concurrencyControl s0)) in Hf; [done|done|].
    intros _ id acc acc' Hacc _ Hstep%shutdownOne_control. by rewrite Hstep. }
  unfold ConcurrencyControl.removeAll. rewrite Hc. simpl. intros [= <- <- <-].
  exists toCancel. destruct s1. simpl in *. by subst.
Qed.

Lemma shutdown_inv k cancelAll s s' effects cancelled :
  capacityInv limit k None s → shutdown true cancelAll s = Ok (s', effects, cancelled) →
  capacityInv limit k None s'.
Proof.
  intros Hinv (toCancel & Hf & _)%shutdown_spec.
  apply (foldM_ind _ (λ _ (acc : t * list Effect * list string), capacityInv limit k None acc.1.1)) in Hf;
    [done|by destruct Hinv|].
  intros _ id acc acc' Hacc _ Hstep. by eapply shutdownOne_inv.
Qed.

Lemma returned_Some {A} (r : res A) a : returned r = Some a → r = Ok a.
Proof. destruct r; simpl; congruence. Qed.

Lemma perform_inv k op s s' :
  capacityInv limit k None s → perform op s = Some s' →
  capacityInv limit (k + if isRemove op then 1 else 0) None s'.
Proof.
  intros Hinv. destruct op; simpl; rewrite ?Nat.add_0_r.
  - destruct (bool_decide_reflect (call ∈ (adding s).*1)); [done|].
    destruct (bool_decide_reflect (call ∈ (objects s).*1)); [done|]. simpl.
    intros H%returned_Some. by eapply add_inv.
  - intros (a & Ha & H)%bind_Some. destruct (ac_granted a) eqn:Hg; [|done].
    apply fmap_Some in H as ([s1 err] & H%returned_Some & ->). by eapply addReserved_inv.
  - intros (e & He & H)%bind_Some. case_bools; [|done]. apply returned_Some in H. by eapply settled_inv.
  - intros [= <-]. by apply stopExecution_inv.
  - intros ([s1 eff] & H%returned_Some & ->)%fmap_Some. unfold finalizeExecution in H.
    destruct (has executionId s); simpl in H; [|by simplify_eq].
    destruct (getExecutionOrFail executionId s) as [[ref e]|err|]; simplify_eq/=.
    apply updateObject_inv; [|done]. intros e'. simpl. by destruct (ew_postExecutePromise e').
  - intros (ref & ->)%returned_Some%getAnd_Ok. by apply updateObject_inv.
  - intros (ref & ->)%returned_Some%getAnd_Ok. by apply updateObject_inv.
  - intros (ref & ->)%returned_Some%getAnd_Ok. by apply updateObject_inv.
  - intros [= <-]. by eapply (capacityInv_ext _ _ s).
  - intros ([c r] & H%returned_Some & [= <-])%bind_Some. rewrite Nat.add_1_r. by eapply removeQueued_inv.
  - intros ([[s1 eff] cs] & H%returned_Some & ->)%fmap_Some. by eapply shutdown_inv in H.
Qed.

Lemma performAll_inv k ops s s' :
  capacityInv limit k None s → performAll ops s = Some s' → capacityInv limit (k + removals ops) None s'.
Proof.
  intros Hinv. unfold performAll, removals. revert s'.
  induction ops as [|op ops IH] using rev_ind; intros s'; [simpl; intros [= <-]; by rewrite Nat.add_0_r|].
  rewrite foldl_snoc. intros (s1 & H1%IH & H2)%bind_Some. eapply perform_inv in H2; [|done].
  rewrite filter_app, length_app, Nat.add_assoc. by destruct op.
Qed.
End operations.

(** ** Queues stay *)

Section queues.
Context (type : ConcurrencyQueueType).

Definition limited (s : t) : Prop :=
  is_Some (map_get type (ConcurrencyControl.queues (concurrencyControl s))).

Lemma onQueue_queues {A} mode (none : A) f c c' a :
  ConcurrencyControl.onQueue mode none f c = Ok (c', a) →
  is_Some (map_get type (ConcurrencyControl.queues c)) → is_Some (map_get type (ConcurrencyControl.queues c')).
Proof.
  intros H Hq. destruct (ConcurrencyControl.isEnabled c) eqn:Hen.
  - apply onQueue_spec in H as [(type' & q & q' & ev & _ & _ & _ & ->)|(-> & _)]; [|done|done].
    rewrite setQueue_get. by case_bools.
  - rewrite onQueue_disabled in H by done. by simplify_eq.
Qed.

Lemma grant_control r s : concurrencyControl (grant r s) = concurrencyControl s.
Proof. destruct r as [call|]; [|done]. simpl. by destruct (map_get call (adding s)). Qed.

Lemma update_control f ref s : concurrencyControl (update f ref s) = concurrencyControl s.
Proof. unfold update. by destruct (map_get ref (objects s)). Qed.

Lemma releaseCapacity_limited target s s' : releaseCapacity target s = Ok s' → limited s → limited s'.
Proof.
  unfold releaseCapacity. destruct target as [target|]; simpl; [|by intros [= <-]].
  destruct (ConcurrencyControl.release _ _) as [[c r]|e|] eqn:Ho; simpl; [|done|done]. intros [= <-].
  unfold limited. rewrite grant_control. by eapply onQueue_queues.
Qed.

Lemma addReserved_limited call regularMode updated now s s' error :
  addReserved call regularMode updated now s = Ok (s', error) → limited s → limited s'.
Proof.
  unfold addReserved. destruct (deref _) as [a|e|]; simpl; [|done|done].
  destruct (databaseStep _ _ _) as [[]|e|]; [by intros [= <- <-]| |done].
  destruct (releaseCapacity _ _) as [s1|e1|] eqn:Hr; simpl; [|done|done]. intros [= <- <-].
  intros Hl. by eapply releaseCapacity_limited in Hr.
Qed.

Lemma settled_limited ref s s' : settled ref s = Ok s' → limited s → limited s'.
Proof.
  unfold settled. destruct (deref _) as [a|e|]; simpl; [|done|done].
  destruct (releaseCapacity _ _) as [s1|e1|] eqn:Hr; simpl; [|done|done].
  case_bools; intros [= <-] Hl; by eapply releaseCapacity_limited in Hr.
Qed.

Lemma add_limited data maybeId created call s s' :
  add data maybeId created call s = Ok s' → limited s → limited s'.
Proof.
  unfold add, ConcurrencyCapacityReservation.reserve.
  destruct (match maybeId with Some _ => _ | None => _ end) as [id|e|]; simpl; [|done|done].
  destruct (ConcurrencyControl.throttle _ _ _) as [[c through]|e|] eqn:Ho; simpl; [|done|done].
  intros [= <-]. by eapply onQueue_queues.
Qed.

Lemma shutdown_limited cancelAll s s' effects cancelled :
  shutdown true cancelAll s = Ok (s', effects, cancelled) → limited s → limited s'.
Proof. intros (toCancel & _ & Hc & _)%shutdown_spec. unfold limited. by rewrite Hc. Qed.

Lemma perform_limited op s s' : perform op s = Some s' → limited s → limited s'.
Proof.
  destruct op; simpl.
  - destruct (_ || _); [done|]. intros H%returned_Some. by eapply add_limited.
  - intros (a & Ha & H)%bind_Some. destruct (ac_granted a); [|done].
    apply fmap_Some in H as ([s1 err] & H%returned_Some & ->). by eapply addReserved_limited.
  - intros (e & He & H)%bind_Some. case_bools; [|done]. apply returned_Some in H. by eapply settled_limited.
  - intros [= <-]. unfold limited. by rewrite stopExecution_control.
  - intros ([s1 eff] & H%returned_Some & ->)%fmap_Some. unfold finalizeExecution in H.
    destruct (has executionId s); simpl in H; [|by simplify_eq].
    destruct (getExecutionOrFail executionId s) as [[ref e]|err|]; simplify_eq/=.
    unfold limited. by rewrite update_control.
  - intros (ref & ->)%returned_Some%getAnd_Ok. unfold limited. by rewrite update_control.
  - intros (ref & ->)%returned_Some%getAnd_Ok. unfold limited. by rewrite update_control.
  - intros (ref & ->)%returned_Some%getAnd_Ok. unfold limited. by rewrite update_control.
  - by intros [= <-].
  - intros ([c r] & H%returned_Some & [= <-])%bind_Some. unfold limited. rewrite grant_control.
    by eapply onQueue_queues.
  - intros ([[s1 eff] cs] & H%returned_Some & ->)%fmap_Some. intros Hl. by eapply shutdown_limited.
Qed.

Lemma performAll_limited ops s s' : performAll ops s = Some s' → limited s → limited s'.
Proof.
  unfold performAll. revert s'. induction ops as [|op ops IH] using rev_ind; intros s'; [by intros [= <-]|].
  rewrite foldl_snoc. intros (s1 & H1 & H2)%bind_Some Hl. eapply perform_limited; [done|]. by apply IH.
Qed.
End queues.

(** ** What the limits guarantee *)

(** Executions of the type that are registered and not finished *)
Definition unfinished (type : ConcurrencyQueueType) (e : IExecutingWorkflowData) : bool :=
  bool_decide (ew_postExecutePromise e ≠ Finished) && modeIs type (wp_executionMode (ew_executionData e)).

Lemma map_count_mono {V} (f g : V → bool) (m : jsmap nat V) :
  (∀ k v, (k, v) ∈ m → f v = true → g v = true) → map_count f m ≤ map_count g m.
Proof.
  induction m as [|[k v] m IH]; intros Hfg; [done|]. rewrite !map_count_cons. simpl.
  specialize (IH ltac:(intros; eapply Hfg; [by right|done])).
  specialize (Hfg k v ltac:(by left)). destruct (f v); [rewrite Hfg by done|]; simpl; lia.
Qed.

Lemma unfinished_held limit k s type :
  capacityInv limit k None s → map_count (unfinished type) (objects s) ≤ held type s.
Proof.
  intros [_ Hobj _ Hres _]. unfold held. etrans; [|apply Nat.le_add_l]. apply map_count_mono.
  intros ref e Hin [Hp%bool_decide_eq_true Hm]%andb_true_iff. unfold holdsObject.
  by rewrite (Hres ref e) by (done || by apply map_get_unique).
Qed.

Lemma newService_inv p e c limit :
  ConcurrencyControl.new p e false = Ok c →
  limit = (λ type, match type with production => p | evaluation => e end) →
  capacityInv limit 0 None (new c) ∧
  ∀ type, map_get type (ConcurrencyControl.queues c) =
    if bool_decide (0 < limit type)%Z then Some (ConcurrencyQueue.new (limit type)) else None.
Proof.
  intros Hc ->. pose proof (new_spec p e false) as Hn. rewrite Hc in Hn. case_bools; [done|].
  destruct Hn as (c' & [= <-] & _ & Hq). split; [|by intros type; rewrite Hq].
  split; simpl; [constructor|constructor|set_solver|done|].
  intros _ type q. rewrite Hq. simpl. case_bools; [|done].
  intros [= <-]. split; simpl; [by apply new_inv|constructor|set_solver].
Qed.

(** C11: the limits hold for active executions.  Whatever the service and the callers do,
    as long as the concurrency control is enabled: at most [limit + k] executions of a
    limited kind are registered and unfinished, [k] being the number of removals from a
    queue; and when no execution and no call of [add] holds capacity, no call waits and
    the whole capacity is back. *)
Theorem active_executions_within_limit (p e : Z) (c : ConcurrencyControl.t) (ops : list activeOp) (s : t)
    (type : ConcurrencyQueueType) (limit : Z) :
  ConcurrencyControl.new p e false = Ok c → performAll ops (new c) = Some s →
  ConcurrencyControl.isEnabled (concurrencyControl s) = true →
  limit = match type with production => p | evaluation => e end → (0 < limit)%Z →
  (Z.of_nat (map_count (unfinished type) (objects s)) ≤ limit + Z.of_nat (removals ops))%Z ∧
  (held type s = 0 → map_get type (ConcurrencyControl.queues (concurrencyControl s)) = Some (ConcurrencyQueue.new limit)).
Proof.
  intros Hc Hs Hen -> Hpos. eapply newService_inv in Hc as [Hinv Hqs]; [|done].
  eapply performAll_inv in Hinv as Hinv'; [|done].
  eapply (performAll_limited type) in Hs as [q Hq];
    [|unfold limited; simpl; rewrite Hqs; rewrite bool_decide_true by done; done].
  destruct (ci_queues _ _ _ _ Hinv' Hen type q Hq) as [[Hcap Hbound Hcons] _ _].
  pose proof (unfinished_held _ _ _ type Hinv'). simpl in *. rewrite Nat.add_0_r in *.
  split; [lia|]. intros Hheld. rewrite Hheld in *. rewrite Hq. destruct q as [cap [|item l]]; simpl in *.
  - rewrite Hcap. f_equal. unfold ConcurrencyQueue.new. f_equal. lia.
  - specialize (Hcons ltac:(done)). lia.
Qed.

(** [shutdown] never cancels an execution in the database: the concurrency control is
    disabled before it is asked to cancel them, and then it ignores the request. *)
Theorem shutdown_cancels_nothing (cancelAll : bool) (s s' : t) effects cancelled :
  shutdown true cancelAll s = Ok (s', effects, cancelled) → cancelled = [].
Proof. by intros (toCancel & _ & _ & ->)%shutdown_spec. Qed.

(** ** Concrete executions *)

Definition webhookData : IWorkflowExecutionDataProcess :=
  {| wp_executionMode := "webhook"; wp_retryOf := None; wp_workflowId := Some "w"; wp_httpResponse := false |}.

Definition limitOne : ConcurrencyControl.t :=
  default {| ConcurrencyControl.isEnabled := false; ConcurrencyControl.limits := [];
             ConcurrencyControl.queues := [] |} (returned (ConcurrencyControl.new 1 (-1) false)).

Definition addOps (id : string) (call : nat) : list activeOp :=
  [OpAdd webhookData None (Ok id) call; OpReserved call true (Ok true) 0].

(** "2" is added while "1" runs, and starts when "1" has ended. *)
Definition handoverOps : list activeOp :=
  addOps "1" 1 ++ [OpAdd webhookData None (Ok "2") 2; OpFinalize "1"; OpSettled 1; OpReserved 2 true (Ok true) 0].

Definition handover : t := default (new limitOne) (performAll handoverOps (new limitOne)).

Lemma active_executions_within_limit_witness :
  (activeExecutions handover).*1 = ["2"] ∧ (Z.of_nat (map_count (unfinished production) (objects handover)) ≤ 1)%Z.
Proof.
  split; [by vm_compute|].
  destruct (active_executions_within_limit 1 (-1) limitOne handoverOps handover production 1) as [H _];
    [by vm_compute..|exact H].
Defined.

(** An execution that is stopped while its status is already "waiting" but its promise is
    not settled keeps its capacity for ever: [stopExecution] forgets it without settling
    the promise, and [finalizeExecution] ignores executions that are not active.  Here
    nothing is active afterwards, and still the next execution has to wait. *)
Definition stopWaitingOps : list activeOp :=
  addOps "1" 1 ++ [OpSetStatus "1" "waiting"; OpStop "1"; OpFinalize "1"; OpAdd webhookData None (Ok "2") 2].

Theorem stop_waiting_leaks_capacity :
  ∃ s, performAll stopWaitingOps (new limitOne) = Some s ∧ activeExecutions s = [] ∧
    (ac_granted <$> map_get 2 (adding s)) = Some false ∧
    (ew_postExecutePromise <$> map_get 1 (objects s)) = Some Pending.
Proof. eexists. split; [vm_compute; reflexivity|]. done. Qed.
