(* ===== verification/WaitTracker.v ===== *)
(** * Executions that wait

    Model of [packages/cli/src/wait-tracker.ts], which resumes executions whose waiting
    time is over, and of [ExecutionService.stop] in regular mode
    ([packages/cli/src/executions/execution.service.ts]), which stops an execution in
    whichever of the components it is.

    Timers are part of the state: an active timer is a number with what it does when it
    fires.  The database ([getWaitingExecutions], [findSingleExecution]) and the runner
    of workflows are parameters. *)

From S2P Require Import Prelude JsCollections Concurrency ActiveExecutions.

Inductive Timer :=
  | PollTimer
  | ResumeTimer (executionId : string) (delay : Z).

#[global] Instance Timer_eq_dec : EqDecision Timer.
Proof. solve_decision. Defined.

Record RelatedExecution := {
  re_executionId : string;
  re_shouldResume : option bool;
}.

(** What [startExecution] reads of the execution it found *)
Record FoundExecution := {
  fe_finished : bool;
  fe_workflowId : option string;
  fe_parentExecution : option RelatedExecution;
}.

Definition shouldRestartParentExecution (parentExecution : option RelatedExecution) : bool :=
  match parentExecution with
  | None => false
  | Some p => default true (re_shouldResume p)
  end.

Module WaitTracker.

Record t := {
  waitingExecutions : jsobj nat;
  mainTimer : option nat;
  timers : jsmap nat Timer;
  nextTimer : nat;
}.

Definition new : t := {| waitingExecutions := []; mainTimer := None; timers := []; nextTimer := 0 |}.

Definition has (executionId : string) (w : t) : bool := obj_has executionId (waitingExecutions w).

(** [setTimeout] and [setInterval]: the number of the new timer is [nextTimer]. *)
Definition setTimer (timer : Timer) (w : t) : t :=
  {| waitingExecutions := waitingExecutions w; mainTimer := mainTimer w;
     timers := map_set (nextTimer w) timer (timers w); nextTimer := S (nextTimer w) |}.

Definition clearTimer (timer : nat) (w : t) : t :=
  {| waitingExecutions := waitingExecutions w; mainTimer := mainTimer w;
     timers := map_delete timer (timers w); nextTimer := nextTimer w |}.

Definition setWaiting (o : jsobj nat) (w : t) : t :=
  {| waitingExecutions := o; mainTimer := mainTimer w; timers := timers w; nextTimer := nextTimer w |}.

(** The loop body of [getWaitingExecutions] *)
Definition trackExecution (now : Z) (w : t) (execution : string * Z) : t :=
  let '(executionId, waitTill) := execution in
  if obj_has executionId (waitingExecutions w) then w
  else let triggerTime := (waitTill - now)%Z in
       setWaiting (obj_set executionId (nextTimer w) (waitingExecutions w))
         (setTimer (ResumeTimer executionId triggerTime) w).

(** [executions] is the answer of the database. *)
Definition getWaitingExecutions (executions : list (string * Z)) (now : Z) (w : t) : t :=
  foldl (trackExecution now) w executions.

(** The polls that the timer and the last line start are operations of their own. *)
Definition startTracking (w : t) : t :=
  let w' := setTimer PollTimer w in
  {| waitingExecutions := waitingExecutions w'; mainTimer := Some (nextTimer w);
     timers := timers w'; nextTimer := nextTimer w' |}.

Definition init (isLeader : bool) (w : t) : t := if isLeader then startTracking w else w.

Definition stopExecution (executionId : string) (w : t) : t :=
  match obj_get executionId (waitingExecutions w) with
  | None => w
  | Some timer =>
      let w := clearTimer timer w in setWaiting (obj_delete executionId (waitingExecutions w)) w
  end.

(** The checks of [startExecution] on what [findSingleExecution] returned *)
Definition checkResumable (found : option FoundExecution) : res FoundExecution :=
  match found with
  | None => Throw (UnexpectedError "Execution does not exist.")
  | Some e =>
      if fe_finished e
      then Throw (UnexpectedError "The execution did succeed and can so not be started again.")
      else match fe_workflowId e with
           | None | Some "" => Throw (UnexpectedError "Only saved workflows can be resumed.")
           | Some _ => Ok e
           end
  end.

(** [ran] is the result of [workflowRunner.run].  The value is the execution that is
    resumed when this one has completed. *)
Definition resume (found : option FoundExecution) (ran : res unit) : res (option string) :=
  e ← checkResumable found;
  match ran with
  | Throw (OperationalError "Execution is already being resumed by another process") => Ok None
  | Throw error => Throw error
  | OutOfFuel => OutOfFuel
  | Ok _ =>
      Ok (if shouldRestartParentExecution (fe_parentExecution e)
          then re_executionId <$> fe_parentExecution e else None)
  end.

Definition startExecution (executionId : string) (found : option FoundExecution) (ran : res unit) (w : t)
    : t * res (option string) :=
  (setWaiting (obj_delete executionId (waitingExecutions w)) w, resume found ran).

(** The promise of the execution is settled: [status] is the status of its result, [None]
    without one.  The value is the execution to start. *)
Definition childCompleted (parent : string) (status : option string) : option string :=
  match status with
  | None => None
  | Some status => if bool_decide (status = "waiting") then None else Some parent
  end.

Definition stopTracking (w : t) : t :=
  match mainTimer w with
  | None => w
  | Some main => foldl (λ w entry, clearTimer entry.2 w) (clearTimer main w) (waitingExecutions w)
  end.
End WaitTracker.

(** ** Stopping an execution *)

Definition STOPPABLE_STATUSES : list string := ["new"; "unknown"; "waiting"; "running"].

Definition assertStoppable (executionId status : string) : res unit :=
  if bool_decide (status ∈ STOPPABLE_STATUSES) then Ok tt
  else Throw (ApplicationError ("Only running or waiting executions can be stopped and " +:+ executionId +:+
                " is currently " +:+ status)).

(** How the execution is marked in the database *)
Inductive StopKind := stopBeforeRun | stopDuringRun.

#[global] Instance StopKind_eq_dec : EqDecision StopKind.
Proof. solve_decision. Defined.

Definition stopInRegularMode (target : CapacityTarget) (s : ActiveExecutions.t) (w : WaitTracker.t)
    : res (ActiveExecutions.t * WaitTracker.t * list Effect * StopKind) :=
  let executionId := ct_executionId target in
  let control := ActiveExecutions.concurrencyControl s in
  if ConcurrencyControl.has executionId control then
    '(c, resolved) ← ConcurrencyControl.remove target control;
    Ok (ActiveExecutions.grant resolved (ActiveExecutions.setControl c s), w, [], stopBeforeRun)
  else
    let '(s, effects) :=
      if ActiveExecutions.has executionId s then ActiveExecutions.stopExecution executionId s else (s, []) in
    let w := if WaitTracker.has executionId w then WaitTracker.stopExecution executionId w else w in
    Ok (s, w, effects, stopDuringRun).

(** [stop]: [found] is the status of the execution in the database. *)
Definition stop (target : CapacityTarget) (found : option string) (s : ActiveExecutions.t) (w : WaitTracker.t)
    : res (ActiveExecutions.t * WaitTracker.t * list Effect * StopKind) :=
  match found with
  | None => Throw (UserError "Failed to find execution to stop")
  | Some status => _ ← assertStoppable (ct_executionId target) status; stopInRegularMode target s w
  end.

(** ** Tracked executions *)

Import WaitTracker.

Inductive waitOp :=
  | Poll (executions : list (string * Z)) (now : Z)
  | StartTracking
  | StopTracking
  | StopExecution (executionId : string)
  | StartExecution (executionId : string) (found : option FoundExecution) (ran : res unit)
  | Fire (timer : nat) (found : option FoundExecution) (ran : res unit).

(** An interval stays active when it fires; its poll is an operation of its own. *)
Definition waitStep (op : waitOp) (w : t) : option t :=
  match op with
  | Poll executions now => Some (getWaitingExecutions executions now w)
  | StartTracking => Some (startTracking w)
  | StopTracking => Some (stopTracking w)
  | StopExecution executionId => Some (stopExecution executionId w)
  | StartExecution executionId found ran => Some (startExecution executionId found ran w).1
  | Fire timer found ran =>
      match map_get timer (timers w) with
      | Some (ResumeTimer executionId _) => Some (startExecution executionId found ran (clearTimer timer w)).1
      | Some PollTimer => Some w
      | None => None
      end
  end.

Definition waitSteps (ops : list waitOp) (w : t) : option t :=
  foldl (λ w op, w ≫= waitStep op) (Some w) ops.

(** *** Entries and timers *)

(** Every execution with an entry has the active timer of the entry, which resumes it. *)
Record entered (w : t) : Prop := {
  en_fresh : ∀ timer, timer ∈ (timers w).*1 → timer < nextTimer w;
  en_timer : ∀ id timer, obj_get id (waitingExecutions w) = Some timer →
    ∃ delay, map_get timer (timers w) = Some (ResumeTimer id delay);
}.

Lemma entered_fresh_timer w : entered w → map_get (nextTimer w) (timers w) = None.
Proof. intros Hw. apply map_get_None. intros Hin. apply (en_fresh w Hw) in Hin. lia. Qed.

Lemma fresh_set n timer (m : jsmap nat Timer) k :
  (∀ x, x ∈ m.*1 → x < n) → k ∈ (map_set n timer m).*1 → k < S n.
Proof. intros Hm. rewrite elem_of_map_set_keys. intros [->|Hin]; [lia|]. apply Hm in Hin. lia. Qed.

(** The timer of an entry stays when a fresh one is set. *)
Lemma setTimer_entered timer w : entered w → entered (setTimer timer w).
Proof.
  intros Hw. pose proof (entered_fresh_timer w Hw) as Hfresh. destruct Hw as [Hlt Htimer].
  split; simpl; [intros k; by apply fresh_set|].
  intros id n [delay Hd]%Htimer. exists delay. rewrite map_get_set_ne; [done|]. intros ->. congruence.
Qed.

Lemma trackExecution_entered now w execution : entered w → entered (trackExecution now w execution).
Proof.
  destruct execution as [id waitTill]. intros Hw. unfold trackExecution.
  destruct (obj_has id (waitingExecutions w)); [done|].
  destruct (setTimer_entered (ResumeTimer id (waitTill - now)) w Hw) as [Hlt Htimer]. split; [done|].
  intros id' n. simpl. rewrite obj_get_set. case_bools; [|apply Htimer].
  intros [= <-]. subst. exists (waitTill - now)%Z. by rewrite map_get_set_eq.
Qed.

Lemma getWaitingExecutions_entered l now w : entered w → entered (getWaitingExecutions l now w).
Proof.
  unfold getWaitingExecutions. revert w. induction l as [|e l IH]; intros w Hw; simpl; [done|].
  by apply IH, trackExecution_entered.
Qed.

(** The entry of an execution goes, and with it, if at all, a timer that resumes the same execution. *)
Lemma dropEntry_entered id (timer : option nat) w :
  entered w → (∀ n, timer = Some n → ∃ delay, map_get n (timers w) = Some (ResumeTimer id delay)) →
  entered (setWaiting (obj_delete id (waitingExecutions w)) (from_option (λ n, clearTimer n w) w timer)).
Proof.
  intros [Hlt Htimer] Hid. split.
  - destruct timer as [n|]; [|done]. intros k. simpl.
    intros (kv & -> & [Hin _]%elem_of_map_delete)%list_elem_of_fmap. apply Hlt, list_elem_of_fmap. by eexists.
  - intros id' n. simpl. rewrite obj_get_delete. case_bools; [done|]. intros [delay Hd]%Htimer. exists delay.
    destruct timer as [m|]; [|done]. simpl. rewrite map_get_delete. case_bools; [|done]. subst.
    destruct (Hid m eq_refl). congruence.
Qed.

Lemma waitStep_entered op w w' : entered w → op ≠ StopTracking → waitStep op w = Some w' → entered w'.
Proof.
  intros Hw Hop. destruct op as [l now| | |id|id found ran|timer found ran]; simpl in *.
  - intros [= <-]. by apply getWaitingExecutions_entered.
  - intros [= <-]. destruct (setTimer_entered PollTimer w Hw). by split.
  - done.
  - intros [= <-]. unfold stopExecution. destruct (obj_get id (waitingExecutions w)) as [timer|] eqn:E; [|done].
    apply (dropEntry_entered id (Some timer) w); [done|]. intros n [= <-]. by apply (en_timer w Hw).
  - intros [= <-]. by apply (dropEntry_entered id None w).
  - destruct (map_get timer (timers w)) as [[|id delay]|] eqn:E; intros; simplify_eq; [done|].
    apply (dropEntry_entered id (Some timer) w); [done|]. intros n [= <-]. eauto.
Qed.

(** *** One timer each *)

(** Operations that go on tracking: no stepdown, and an execution with an entry is only
    started by its timer. *)
Definition keepsTracking (op : waitOp) (w : t) : bool :=
  match op with
  | StopTracking => false
  | StartExecution executionId _ _ => negb (has executionId w)
  | _ => true
  end.

(** Each execution with an entry has exactly one active timer, which resumes it. *)
Record tracked (w : t) : Prop := {
  tr_keys : NoDup (waitingExecutions w).*1;
  tr_fresh : ∀ timer, timer ∈ (timers w).*1 → timer < nextTimer w;
  tr_timer : ∀ id timer, obj_get id (waitingExecutions w) = Some timer ↔
    ∃ delay, map_get timer (timers w) = Some (ResumeTimer id delay);
}.

Lemma fresh_timer w : tracked w → map_get (nextTimer w) (timers w) = None.
Proof. intros Hw. apply map_get_None. intros Hin. apply (tr_fresh w Hw) in Hin. lia. Qed.

Lemma trackExecution_tracked now w execution : tracked w → tracked (trackExecution now w execution).
Proof.
  destruct execution as [id waitTill]. intros Hw. unfold trackExecution, obj_has.
  destruct (map_has id (waitingExecutions w)) eqn:Hhas; [done|].
  pose proof (fresh_timer w Hw) as Hfresh. destruct Hw as [Hkeys Hlt Htimer].
  split; simpl; [by apply obj_set_NoDup|intros k; by apply fresh_set|].
  intros id' timer. rewrite obj_get_set, map_get_set.
  destruct (bool_decide_reflect (id' = id)) as [->|Hid], (bool_decide_reflect (timer = nextTimer w)) as [->|Ht].
  - naive_solver.
  - rewrite <- Htimer. unfold map_has in Hhas. apply bool_decide_eq_false, map_get_None in Hhas.
    unfold obj_get. rewrite Hhas. naive_solver.
  - rewrite Htimer, Hfresh. naive_solver.
  - apply Htimer.
Qed.

Lemma getWaitingExecutions_tracked l now w : tracked w → tracked (getWaitingExecutions l now w).
Proof.
  unfold getWaitingExecutions. revert w. induction l as [|e l IH]; intros w Hw; simpl; [done|].
  by apply IH, trackExecution_tracked.
Qed.

Lemma dropEntry_tracked id timer w :
  tracked w → obj_get id (waitingExecutions w) = Some timer →
  tracked (setWaiting (obj_delete id (waitingExecutions w)) (clearTimer timer w)).
Proof.
  intros [Hkeys Hlt Htimer] Hid. split; simpl; [by apply map_delete_NoDup| |].
  - intros k (kv & -> & [Hin _]%elem_of_map_delete)%list_elem_of_fmap. apply Hlt, list_elem_of_fmap. by eexists.
  - intros id' timer'. rewrite obj_get_delete, map_get_delete. apply Htimer in Hid as Ht.
    destruct (bool_decide_reflect (id' = id)) as [->|Hne], (bool_decide_reflect (timer' = timer)) as [->|Hne'].
    + naive_solver.
    + rewrite <- Htimer. naive_solver.
    + rewrite Htimer. naive_solver.
    + apply Htimer.
Qed.

Lemma waitStep_tracked op w w' :
  tracked w → keepsTracking op w = true → waitStep op w = Some w' → tracked w'.
Proof.
  intros Hw Hop. destruct op as [l now| | |id|id found ran|timer found ran]; simpl in *.
  - intros [= <-]. by apply getWaitingExecutions_tracked.
  - intros [= <-]. pose proof (fresh_timer w Hw) as Hfresh. destruct Hw as [Hkeys Hlt Htimer].
    split; simpl; [done|intros k; by apply fresh_set|].
    intros id timer. rewrite Htimer, map_get_set. case_bools; [|done]. subst. rewrite Hfresh. naive_solver.
  - done.
  - intros [= <-]. unfold stopExecution. destruct (obj_get id (waitingExecutions w)) as [timer|] eqn:E; [|done].
    by apply (dropEntry_tracked id timer w).
  - intros [= <-]. unfold has, obj_has, map_has in Hop.
    apply negb_true_iff, bool_decide_eq_false, map_get_None in Hop. destruct Hw as [Hkeys Hlt Htimer].
    split; simpl; [by apply map_delete_NoDup|done|]. intros id' timer. rewrite <- Htimer, obj_get_delete.
    case_bools; [|done]. subst. unfold obj_get. by rewrite Hop.
  - destruct (map_get timer (timers w)) as [[|id delay]|] eqn:E; intros; simplify_eq; [done|].
    apply (dropEntry_tracked id timer w); [done|]. apply (tr_timer w Hw). by eexists.
Qed.

Inductive trackingSteps : list waitOp → t → t → Prop :=
  | tracking_nil w : trackingSteps [] w w
  | tracking_snoc ops op w1 w2 w3 :
      trackingSteps ops w1 w2 → keepsTracking op w2 = true → waitStep op w2 = Some w3 →
      trackingSteps (ops ++ [op]) w1 w3.

Lemma new_tracked : tracked new.
Proof.
  split; simpl; [constructor|set_solver|]. intros id timer. unfold obj_get. simpl. naive_solver.
Qed.

Lemma trackingSteps_tracked ops w w' : trackingSteps ops w w' → tracked w → tracked w'.
Proof. induction 1; intros Hw; [done|]. eapply waitStep_tracked; [|done|done]. auto. Qed.

Lemma trackExecution_entry now w execution id timer :
  obj_get id (waitingExecutions w) = Some timer →
  obj_get id (waitingExecutions (trackExecution now w execution)) = Some timer.
Proof.
  destruct execution as [id' waitTill]. unfold trackExecution, obj_has.
  destruct (map_has id' (waitingExecutions w)) eqn:E; [done|]. simpl. intros Hid.
  rewrite obj_get_set_ne; [done|]. intros ->. apply bool_decide_eq_false, map_get_None in E.
  unfold obj_get in Hid. congruence.
Qed.

Lemma getWaitingExecutions_entry l now w id timer :
  obj_get id (waitingExecutions w) = Some timer →
  obj_get id (waitingExecutions (getWaitingExecutions l now w)) = Some timer.
Proof.
  unfold getWaitingExecutions. revert w. induction l as [|e l IH]; intros w Hid; simpl; [done|].
  by apply IH, trackExecution_entry.
Qed.

Lemma getWaitingExecutions_listed l now w id :
  id ∈ l.*1 → is_Some (obj_get id (waitingExecutions (getWaitingExecutions l now w))).
Proof.
  unfold getWaitingExecutions. revert w. induction l as [|[id' waitTill] l IH]; intros w; simpl; [set_solver|].
  rewrite elem_of_cons. intros [<-|Hin]; [|by apply IH].
  assert (is_Some (obj_get id (waitingExecutions (trackExecution now w (id, waitTill))))) as [timer Ht].
  { unfold trackExecution. destruct (obj_has id (waitingExecutions w)) eqn:E.
    - by apply map_has_get in E.
    - simpl. by rewrite obj_get_set_eq. }
  exists timer. by eapply getWaitingExecutions_entry in Ht.
Qed.

(** The poll leaves the timer of an entry, and sets the timer of a new one to the time that
    is left. *)
Lemma getWaitingExecutions_delay l now w id timer delay :
  entered w → obj_get id (waitingExecutions (getWaitingExecutions l now w)) = Some timer →
  map_get timer (timers (getWaitingExecutions l now w)) = Some (ResumeTimer id delay) →
  obj_get id (waitingExecutions w) = Some timer ∧ map_get timer (timers w) = Some (ResumeTimer id delay) ∨
  obj_get id (waitingExecutions w) = None ∧ ∃ waitTill, (id, waitTill) ∈ l ∧ delay = (waitTill - now)%Z.
Proof.
  unfold getWaitingExecutions. revert w. induction l as [|[id' waitTill] l IH]; intros w Hw Hid Ht; simpl in *; [by left|].
  pose proof (entered_fresh_timer w Hw) as Hfresh.
  destruct (IH _ (trackExecution_entered now w (id', waitTill) Hw) Hid Ht) as [[Hi Hd]|(Hn & wt & Hin & ->)].
  - unfold trackExecution in Hi, Hd. destruct (obj_has id' (waitingExecutions w)) eqn:E; [by left|]. simpl in *.
    rewrite obj_get_set in Hi. destruct (bool_decide_reflect (id = id')) as [->|Hne].
    + injection Hi as <-. rewrite map_get_set_eq in Hd. injection Hd as <-. right. split.
      * apply map_get_None. by apply bool_decide_eq_false in E.
      * exists waitTill. split; [by left|done].
    + left. split; [done|]. destruct (en_timer w Hw id timer Hi) as [d Hd']. rewrite map_get_set_ne in Hd; [done|].
      intros ->. congruence.
  - right. split; [|exists wt; split; [by right|done]].
    unfold trackExecution in Hn. destruct (obj_has id' (waitingExecutions w)); [done|]. simpl in Hn.
    rewrite obj_get_set in Hn. by case_bools.
Qed.

Lemma new_entered : entered new.
Proof. split; simpl; [set_solver|done]. Qed.

Lemma waitSteps_entered ops w : waitSteps ops new = Some w → StopTracking ∉ ops → entered w.
Proof.
  unfold waitSteps. revert w. induction ops as [|op ops IH] using rev_ind; intros w; [intros [= <-] _; apply new_entered|].
  rewrite foldl_snoc. intros (w1 & H1 & H2)%bind_Some Hno. apply (waitStep_entered op w1); [|set_solver|done].
  apply IH; [done|set_solver].
Qed.

(** C24: executions that wait are resumed.  Until the instance steps down, whatever is polled,
    stopped and resumed, every execution that the next poll reports has an entry afterwards, and the timer of
    the entry is active and resumes it: it is the timer of the entry that was there before, or it is new
    and set to the time between now and the time that the execution waits for.  There is no
    second timer that resumes the execution, if no execution was ever resumed, as the parent of another
    one, while it had an entry. *)
Theorem waiting_executions_tracked (ops : list waitOp) (w : t) (l : list (string * Z)) (now : Z) (id : string) :
  waitSteps ops new = Some w → StopTracking ∉ ops → id ∈ l.*1 →
  ∃ timer delay, let w' := getWaitingExecutions l now w in
    obj_get id (waitingExecutions w') = Some timer ∧ map_get timer (timers w') = Some (ResumeTimer id delay) ∧
    (obj_get id (waitingExecutions w) = Some timer ∧ map_get timer (timers w) = Some (ResumeTimer id delay) ∨
     obj_get id (waitingExecutions w) = None ∧ ∃ waitTill, (id, waitTill) ∈ l ∧ delay = (waitTill - now)%Z) ∧
    (trackingSteps ops new w →
     ∀ timer' delay', map_get timer' (timers w') = Some (ResumeTimer id delay') → timer' = timer).
Proof.
  intros Hops Hno Hid. pose proof (waitSteps_entered ops w Hops Hno) as Hw.
  pose proof (getWaitingExecutions_listed l now w id Hid) as [timer Ht].
  destruct (en_timer _ (getWaitingExecutions_entered l now w Hw) id timer Ht) as [delay Hd].
  exists timer, delay. split_and!; [done|done|by apply getWaitingExecutions_delay|].
  intros Hsteps timer' delay' H'.
  pose proof (getWaitingExecutions_tracked l now w (trackingSteps_tracked _ _ _ Hsteps new_tracked)) as Htr.
  assert (obj_get id (waitingExecutions (getWaitingExecutions l now w)) = Some timer')
    by (apply (tr_timer _ Htr); eauto). congruence.
Qed.

Lemma waiting_executions_tracked_witness :
  let w' := getWaitingExecutions [("1", 50%Z)] 10 (startTracking new) in
  ∃ timer, obj_get "1" (waitingExecutions w') = Some timer ∧ map_get timer (timers w') = Some (ResumeTimer "1" 40) ∧
    ∀ timer' delay', map_get timer' (timers w') = Some (ResumeTimer "1" delay') → timer' = timer.
Proof.
  destruct (waiting_executions_tracked [StartTracking] (startTracking new) [("1", 50%Z)] 10 "1")
    as (timer & delay & H1 & H2 & [[H3 _]|(_ & waitTill & Hin & Hd)] & H4); [reflexivity|set_solver|left|discriminate|].
  apply list_elem_of_singleton in Hin. injection Hin as ->. simpl in Hd. subst delay.
  exists timer. split_and!; [done|done|]. apply H4.
  apply (tracking_snoc [] StartTracking new new); [constructor|done|done].
Defined.

(** An execution with an entry that is resumed as the parent of another one loses the entry but not
    its timer: when the timer fires, the execution is resumed again. *)
Example resumed_parent_keeps_timer :
  let w := startExecution "1" None (Ok tt) (getWaitingExecutions [("1", 50%Z)] 10 new) in
  has "1" w.1 = false ∧ map_get 0 (timers w.1) = Some (ResumeTimer "1" 40).
Proof. by vm_compute. Qed.

(** ** After a stepdown *)

(** The execution has an entry, but nothing resumes it. *)
Definition lost (id : string) (w : t) : Prop :=
  obj_has id (waitingExecutions w) = true ∧
  ∀ timer delay, map_get timer (timers w) ≠ Some (ResumeTimer id delay).

Lemma clearTimers_get (l : jsobj nat) w timer :
  map_get timer (timers (foldl (λ w entry, clearTimer entry.2 w) w l)) =
  if bool_decide (timer ∈ l.*2) then None else map_get timer (timers w).
Proof.
  revert w. induction l as [|[id n] l IH]; intros w; simpl; [done|]. rewrite IH. simpl.
  rewrite map_get_delete. case_bools; set_solver.
Qed.

Lemma clearTimers_waiting (l : jsobj nat) w :
  waitingExecutions (foldl (λ w entry, clearTimer entry.2 w) w l) = waitingExecutions w.
Proof. revert w. induction l as [|e l IH]; intros w; simpl; [done|]. by rewrite IH. Qed.

Lemma stopTracking_lost id w :
  tracked w → is_Some (mainTimer w) → has id w = true → lost id (stopTracking w).
Proof.
  intros Hw [main Hmain] Hhas. unfold stopTracking. rewrite Hmain. split.
  - rewrite clearTimers_waiting. apply Hhas.
  - intros timer delay. rewrite clearTimers_get.
    destruct (bool_decide_reflect (timer ∈ (waitingExecutions w).*2)) as [|Hnin]; [done|].
    simpl. rewrite map_get_delete. case_bools; [done|]. intros Ht.
    assert (obj_get id (waitingExecutions w) = Some timer) as Hin by (apply (tr_timer w Hw); eauto).
    apply map_get_elem_of in Hin. apply Hnin, list_elem_of_fmap. by exists (id, timer).
Qed.

Lemma trackExecution_lost now w execution id : lost id w → lost id (trackExecution now w execution).
Proof.
  destruct execution as [id' waitTill]. intros [Hhas Ht]. unfold trackExecution.
  destruct (obj_has id' (waitingExecutions w)) eqn:E; [done|].
  assert (id ≠ id') by (intros ->; congruence). split; simpl.
  - unfold obj_has in *. apply map_has_get. apply map_has_get in Hhas as [v Hv].
    exists v. change (obj_get id (obj_set id' (nextTimer w) (waitingExecutions w)) = Some v).
    by rewrite obj_get_set_ne.
  - intros timer delay. rewrite map_get_set. case_bools; [|apply Ht]. congruence.
Qed.

Lemma getWaitingExecutions_lost l now w id : lost id w → lost id (getWaitingExecutions l now w).
Proof.
  unfold getWaitingExecutions. revert w. induction l as [|e l IH]; intros w Hw; simpl; [done|].
  by apply IH, trackExecution_lost.
Qed.

(** The operations that name the execution: it is stopped, or resumed by someone else *)
Definition mentions (id : string) (op : waitOp) : bool :=
  match op with
  | StopExecution id' | StartExecution id' _ _ => bool_decide (id' = id)
  | _ => false
  end.

Lemma delete_lost id id' w w' :
  id' ≠ id → waitingExecutions w' = obj_delete id' (waitingExecutions w) →
  (∀ n timer, map_get n (timers w') = Some timer → map_get n (timers w) = Some timer) →
  lost id w → lost id w'.
Proof.
  intros Hne Hw Ht [Hhas Hl]. split.
  - rewrite Hw. apply map_has_get. apply map_has_get in Hhas as [v Hv]. exists v.
    change (obj_get id (obj_delete id' (waitingExecutions w)) = Some v).
    rewrite obj_get_delete, bool_decide_false by done. done.
  - intros timer delay H%Ht. by apply (Hl timer delay).
Qed.

Lemma clearTimer_get n w timer v :
  map_get timer (timers (clearTimer n w)) = Some v → map_get timer (timers w) = Some v.
Proof. simpl. rewrite map_get_delete. by case_bools. Qed.

Lemma waitStep_lost id op w w' :
  mentions id op = false → waitStep op w = Some w' → lost id w → lost id w'.
Proof.
  intros Hop Hstep Hl. destruct op as [l now| | |id'|id' found ran|timer found ran]; simplify_eq/=.
  - by apply getWaitingExecutions_lost.
  - destruct Hl as [Hhas Hl]. split; [done|]. simpl. intros timer delay. rewrite map_get_set. by case_bools.
  - unfold stopTracking. destruct (mainTimer w) as [main|]; [|done]. destruct Hl as [Hhas Hl].
    split; [by rewrite clearTimers_waiting|]. intros timer delay. rewrite clearTimers_get.
    case_bools; [done|]. intros Hg%clearTimer_get. by apply (Hl timer delay).
  - apply bool_decide_eq_false in Hop. unfold stopExecution.
    destruct (obj_get id' (waitingExecutions w)) as [timer|]; [|done].
    eapply (delete_lost id id' w); [done|done| |done]. intros n v. apply clearTimer_get.
  - apply bool_decide_eq_false in Hop. by eapply (delete_lost id id' w).
  - destruct (map_get timer (timers w)) as [[|id' delay]|] eqn:E; simplify_eq; [done|].
    eapply (delete_lost id id' w); [|done| |done].
    + intros ->. destruct Hl as [_ Hl]. by apply (Hl timer delay).
    + intros n v. apply clearTimer_get.
Qed.

Lemma waitSteps_lost id ops w w' :
  Forall (λ op, mentions id op = false) ops → waitSteps ops w = Some w' → lost id w → lost id w'.
Proof.
  unfold waitSteps. revert w'. induction ops as [|op ops IH] using rev_ind; intros w'; [by intros _ [= <-]|].
  rewrite foldl_snoc. intros [Hops [Hop _]%Forall_cons]%Forall_app (w1 & H1 & H2)%bind_Some Hl.
  eapply waitStep_lost; [done|done|]. by apply IH.
Qed.

(** A stepdown loses the executions that were tracked: their timers are cleared but
    their entries stay, so that no later poll, not even after the next takeover, gives
    them a timer again. *)
Theorem stepdown_loses_executions (ops later : list waitOp) (w w' : t) (id : string) :
  trackingSteps ops new w → is_Some (mainTimer w) → has id w = true →
  Forall (λ op, mentions id op = false) later → waitSteps later (stopTracking w) = Some w' →
  ∀ timer delay, map_get timer (timers w') ≠ Some (ResumeTimer id delay).
Proof.
  intros Hsteps Hmain Hhas Hlater Hw'. eapply waitSteps_lost; [done|done|].
  apply stopTracking_lost; [by eapply trackingSteps_tracked; [|apply new_tracked]|done|done].
Qed.
