(* ===== verification/TaskBroker.v ===== *)
(** * The task broker

    Model of [packages/cli/src/task-runners/task-broker/task-broker.service.ts].  Runners
    offer to execute tasks, requesters (the Code node, for example) ask for them; the
    broker matches offers with requests and forwards the messages of a task between its
    requester and its runner.

    An operation takes the state and returns it with the messages that are sent.  Tasks
    and timers are numbered: [nanoid] gives a new number.  Request objects are shared
    between the list of pending requests and the running calls of [acceptOffer], so they
    live in a store and are named by a reference.  A call of [acceptOffer] stops at each of
    its two [await]s on an answer: [jobs] holds the calls with the state of the promise
    they wait for, and [resumeRunner] and [resumeRequester] are the rest of the call.  The
    handlers that change the state after a callback has returned stop there as well: [handlers]
    holds what is left of them, and [resumeHandler] does it.  In all other handlers nothing is
    left to do after a callback, but for the cancellation of a task that is already gone.
    Callbacks do not throw, and data that is only passed on is a string. *)

From S2P Require Import Prelude JsCollections.

Record TaskRunner := {
  tr_id : string;
  tr_taskTypes : list string;
}.

Record Task := {
  tk_id : nat;
  tk_runnerId : string;
  tk_requesterId : string;
  tk_taskType : string;
  tk_timeout : option nat;
}.

Record TaskOffer := {
  to_offerId : string;
  to_runnerId : string;
  to_taskType : string;
  to_validFor : Z;
  to_validUntil : Z;
}.

Record TaskRequest := {
  rq_requestId : string;
  rq_requesterId : string;
  rq_taskType : string;
  rq_timeout : option nat;
  rq_acceptInProgress : bool;
}.

(** *** Messages *)

Inductive ToRunner :=
  | InfoRequest
  | RunnerRegistered
  | TaskOfferAccept (offerId : string) (taskId : nat)
  | TaskCancel (taskId : nat) (reason : string)
  | TaskSettings (taskId : nat) (settings : string)
  | TaskDataResponse (taskId : nat) (requestId data : string)
  | NodeTypes (taskId : nat) (requestId nodeTypes : string)
  | RpcResponse (taskId : nat) (callId status data : string)
  | Drain.

Inductive ToRequester :=
  | TaskReady (requestId : string) (taskId : nat)
  | TaskDone (taskId : nat) (data : string)
  | TaskError (taskId : nat) (error : string)
  | TaskDataRequest (taskId : nat) (requestId requestParams : string)
  | NodeTypesRequest (taskId : nat) (requestId requestParams : string)
  | Rpc (taskId : nat) (callId name params : string)
  | RequestExpired (requestId reason : string).

Inductive Message :=
  | RunnerMessage (runnerId : string) (message : ToRunner)
  | RequesterMessage (requesterId : string) (message : ToRequester).

Inductive FromRunner :=
  | RunnerTaskAccepted (taskId : nat)
  | RunnerTaskRejected (taskId : nat) (reason : string)
  | RunnerTaskDeferred (taskId : nat)
  | RunnerTaskOffer (offerId taskType : string) (validFor : Z)
  | RunnerTaskDone (taskId : nat) (data : string)
  | RunnerTaskError (taskId : nat) (error : string)
  | RunnerTaskDataRequest (taskId : nat) (requestId requestParams : string)
  | RunnerNodeTypesRequest (taskId : nat) (requestId requestParams : string)
  | RunnerRpc (taskId : nat) (callId name params : string)
  | RunnerInfo.

Inductive FromRequester :=
  | RequesterTaskSettings (taskId : nat) (settings : string)
  | RequesterTaskCancel (taskId : nat) (reason : string)
  | RequesterTaskRequest (requestId taskType : string)
  | RequesterTaskDataResponse (taskId : nat) (requestId data : string)
  | RequesterNodeTypesResponse (taskId : nat) (requestId nodeTypes : string)
  | RequesterRpcResponse (taskId : nat) (callId status data : string).

(** *** Calls of [acceptOffer] *)

(** The promise of the runner's answer, and of the requester's answer *)
Inductive RunnerAnswer := RunnerPending | RunnerAccepted | RunnerRejected | RunnerDeferred | RunnerTimedOut.

Inductive RequesterAnswer :=
  | RequesterPending
  | RequesterAccepted (settings : string)
  | RequesterRejected (reason : string)
  | RequesterTimedOut.

Inductive Phase :=
  | AwaitRunner (answer : RunnerAnswer)
  | AwaitRequester (answer : RequesterAnswer)
  | Returned.

Record Job := {
  jb_offer : TaskOffer;
  jb_request : nat;
  jb_phase : Phase;
}.

Definition withPhase (phase : Phase) (j : Job) : Job :=
  {| jb_offer := jb_offer j; jb_request := jb_request j; jb_phase := phase |}.

(** What a timer does when it fires *)
Inductive BrokerTimer :=
  | RequestTimeout (requestId : string)
  | TaskTimeout (taskId : nat).

(** What is left of a handler that waits for a callback: the end of [taskDoneHandler] and
    [taskErrorHandler], and of [handleTaskTimeout] *)
Inductive Handler :=
  | DeleteTask (taskId : nat)
  | FailTimedOut (taskId : nat).

#[global] Instance Handler_eq_dec : EqDecision Handler.
Proof. solve_decision. Defined.

Record Broker := {
  knownRunners : jsmap string TaskRunner;
  requesters : jsset string;
  tasks : jsmap nat Task;
  isDraining : bool;
  runnerAcceptRejects : jsset nat;
  requesterAcceptRejects : jsset nat;
  pendingTaskOffers : list TaskOffer;
  pendingTaskRequests : list nat;
  mismatchWarned : jsset string;
  requests : jsmap nat TaskRequest;
  jobs : jsmap nat Job;
  timers : jsmap nat BrokerTimer;
  handlers : list Handler;
  next : nat;
}.

(** *** Updates of the state *)

Definition setRunners (x : jsmap string TaskRunner) (b : Broker) : Broker :=
  {| knownRunners := x; requesters := requesters b; tasks := tasks b; isDraining := isDraining b;
     runnerAcceptRejects := runnerAcceptRejects b; requesterAcceptRejects := requesterAcceptRejects b;
     pendingTaskOffers := pendingTaskOffers b; pendingTaskRequests := pendingTaskRequests b;
     mismatchWarned := mismatchWarned b; requests := requests b; jobs := jobs b; timers := timers b; handlers := handlers b;
     next := next b |}.

Definition setRequesters (x : jsset string) (b : Broker) : Broker :=
  {| knownRunners := knownRunners b; requesters := x; tasks := tasks b; isDraining := isDraining b;
     runnerAcceptRejects := runnerAcceptRejects b; requesterAcceptRejects := requesterAcceptRejects b;
     pendingTaskOffers := pendingTaskOffers b; pendingTaskRequests := pendingTaskRequests b;
     mismatchWarned := mismatchWarned b; requests := requests b; jobs := jobs b; timers := timers b; handlers := handlers b;
     next := next b |}.

Definition setTasks (x : jsmap nat Task) (b : Broker) : Broker :=
  {| knownRunners := knownRunners b; requesters := requesters b; tasks := x; isDraining := isDraining b;
     runnerAcceptRejects := runnerAcceptRejects b; requesterAcceptRejects := requesterAcceptRejects b;
     pendingTaskOffers := pendingTaskOffers b; pendingTaskRequests := pendingTaskRequests b;
     mismatchWarned := mismatchWarned b; requests := requests b; jobs := jobs b; timers := timers b; handlers := handlers b;
     next := next b |}.

Definition setDraining (x : bool) (b : Broker) : Broker :=
  {| knownRunners := knownRunners b; requesters := requesters b; tasks := tasks b; isDraining := x;
     runnerAcceptRejects := runnerAcceptRejects b; requesterAcceptRejects := requesterAcceptRejects b;
     pendingTaskOffers := pendingTaskOffers b; pendingTaskRequests := pendingTaskRequests b;
     mismatchWarned := mismatchWarned b; requests := requests b; jobs := jobs b; timers := timers b; handlers := handlers b;
     next := next b |}.

Definition setRunnerAcceptRejects (x : jsset nat) (b : Broker) : Broker :=
  {| knownRunners := knownRunners b; requesters := requesters b; tasks := tasks b;
     isDraining := isDraining b; runnerAcceptRejects := x;
     requesterAcceptRejects := requesterAcceptRejects b; pendingTaskOffers := pendingTaskOffers b;
     pendingTaskRequests := pendingTaskRequests b; mismatchWarned := mismatchWarned b;
     requests := requests b; jobs := jobs b; timers := timers b; handlers := handlers b; next := next b |}.

Definition setRequesterAcceptRejects (x : jsset nat) (b : Broker) : Broker :=
  {| knownRunners := knownRunners b; requesters := requesters b; tasks := tasks b;
     isDraining := isDraining b; runnerAcceptRejects := runnerAcceptRejects b;
     requesterAcceptRejects := x; pendingTaskOffers := pendingTaskOffers b;
     pendingTaskRequests := pendingTaskRequests b; mismatchWarned := mismatchWarned b;
     requests := requests b; jobs := jobs b; timers := timers b; handlers := handlers b; next := next b |}.

Definition setPendingTaskOffers (x : list TaskOffer) (b : Broker) : Broker :=
  {| knownRunners := knownRunners b; requesters := requesters b; tasks := tasks b;
     isDraining := isDraining b; runnerAcceptRejects := runnerAcceptRejects b;
     requesterAcceptRejects := requesterAcceptRejects b; pendingTaskOffers := x;
     pendingTaskRequests := pendingTaskRequests b; mismatchWarned := mismatchWarned b;
     requests := requests b; jobs := jobs b; timers := timers b; handlers := handlers b; next := next b |}.

Definition setPendingTaskRequests (x : list nat) (b : Broker) : Broker :=
  {| knownRunners := knownRunners b; requesters := requesters b; tasks := tasks b;
     isDraining := isDraining b; runnerAcceptRejects := runnerAcceptRejects b;
     requesterAcceptRejects := requesterAcceptRejects b; pendingTaskOffers := pendingTaskOffers b;
     pendingTaskRequests := x; mismatchWarned := mismatchWarned b; requests := requests b;
     jobs := jobs b; timers := timers b; handlers := handlers b; next := next b |}.

Definition setMismatchWarned (x : jsset string) (b : Broker) : Broker :=
  {| knownRunners := knownRunners b; requesters := requesters b; tasks := tasks b;
     isDraining := isDraining b; runnerAcceptRejects := runnerAcceptRejects b;
     requesterAcceptRejects := requesterAcceptRejects b; pendingTaskOffers := pendingTaskOffers b;
     pendingTaskRequests := pendingTaskRequests b; mismatchWarned := x; requests := requests b;
     jobs := jobs b; timers := timers b; handlers := handlers b; next := next b |}.

Definition setRequests (x : jsmap nat TaskRequest) (b : Broker) : Broker :=
  {| knownRunners := knownRunners b; requesters := requesters b; tasks := tasks b;
     isDraining := isDraining b; runnerAcceptRejects := runnerAcceptRejects b;
     requesterAcceptRejects := requesterAcceptRejects b; pendingTaskOffers := pendingTaskOffers b;
     pendingTaskRequests := pendingTaskRequests b; mismatchWarned := mismatchWarned b; requests := x;
     jobs := jobs b; timers := timers b; handlers := handlers b; next := next b |}.

Definition setJobs (x : jsmap nat Job) (b : Broker) : Broker :=
  {| knownRunners := knownRunners b; requesters := requesters b; tasks := tasks b;
     isDraining := isDraining b; runnerAcceptRejects := runnerAcceptRejects b;
     requesterAcceptRejects := requesterAcceptRejects b; pendingTaskOffers := pendingTaskOffers b;
     pendingTaskRequests := pendingTaskRequests b; mismatchWarned := mismatchWarned b;
     requests := requests b; jobs := x; timers := timers b; handlers := handlers b; next := next b |}.

Definition setTimers (x : jsmap nat BrokerTimer) (b : Broker) : Broker :=
  {| knownRunners := knownRunners b; requesters := requesters b; tasks := tasks b;
     isDraining := isDraining b; runnerAcceptRejects := runnerAcceptRejects b;
     requesterAcceptRejects := requesterAcceptRejects b; pendingTaskOffers := pendingTaskOffers b;
     pendingTaskRequests := pendingTaskRequests b; mismatchWarned := mismatchWarned b;
     requests := requests b; jobs := jobs b; timers := x; handlers := handlers b; next := next b |}.

Definition setHandlers (x : list Handler) (b : Broker) : Broker :=
  {| knownRunners := knownRunners b; requesters := requesters b; tasks := tasks b;
     isDraining := isDraining b; runnerAcceptRejects := runnerAcceptRejects b;
     requesterAcceptRejects := requesterAcceptRejects b; pendingTaskOffers := pendingTaskOffers b;
     pendingTaskRequests := pendingTaskRequests b; mismatchWarned := mismatchWarned b;
     requests := requests b; jobs := jobs b; timers := timers b; handlers := x; next := next b |}.

(** A new number, for a task, a request object or a timer *)
Definition fresh (b : Broker) : nat * Broker :=
  (next b,
  {| knownRunners := knownRunners b; requesters := requesters b; tasks := tasks b;
     isDraining := isDraining b; runnerAcceptRejects := runnerAcceptRejects b;
     requesterAcceptRejects := requesterAcceptRejects b; pendingTaskOffers := pendingTaskOffers b;
     pendingTaskRequests := pendingTaskRequests b; mismatchWarned := mismatchWarned b;
     requests := requests b; jobs := jobs b; timers := timers b; handlers := handlers b; next := S (next b) |}).

Definition init : Broker :=
  {| knownRunners := []; requesters := []; tasks := []; isDraining := false; runnerAcceptRejects := [];
     requesterAcceptRejects := []; pendingTaskOffers := []; pendingTaskRequests := []; mismatchWarned := [];
     requests := []; jobs := []; timers := []; handlers := [];
     next := 0 |}.

(** The constructor *)
Definition newBroker (taskTimeout : Z) : res Broker :=
  if bool_decide (taskTimeout ≤ 0)%Z then Throw (UserError "Task timeout must be greater than 0") else Ok init.

Definition setTimer (timer : BrokerTimer) (b : Broker) : nat * Broker :=
  let '(n, b) := fresh b in (n, setTimers (map_set n timer (timers b)) b).

Definition clearTimer (timer : option nat) (b : Broker) : Broker :=
  match timer with Some n => setTimers (map_delete n (timers b)) b | None => b end.

Definition updateRequest (ref : nat) (f : TaskRequest → TaskRequest) (b : Broker) : Broker :=
  match map_get ref (requests b) with
  | Some r => setRequests (map_set ref (f r) (requests b)) b
  | None => b
  end.

Definition withProgress (inProgress : bool) (r : TaskRequest) : TaskRequest :=
  {| rq_requestId := rq_requestId r; rq_requesterId := rq_requesterId r; rq_taskType := rq_taskType r;
     rq_timeout := rq_timeout r; rq_acceptInProgress := inProgress |}.

Definition withTimeout (timeout : option nat) (r : TaskRequest) : TaskRequest :=
  {| rq_requestId := rq_requestId r; rq_requesterId := rq_requesterId r; rq_taskType := rq_taskType r;
     rq_timeout := timeout; rq_acceptInProgress := rq_acceptInProgress r |}.

Definition updateJob (taskId : nat) (f : Job → Job) (b : Broker) : Broker :=
  match map_get taskId (jobs b) with
  | Some j => setJobs (map_set taskId (f j) (jobs b)) b
  | None => b
  end.

(** ** Messages *)

Definition messageRunner (runnerId : string) (message : ToRunner) (b : Broker) : list Message :=
  if map_has runnerId (knownRunners b) then [RunnerMessage runnerId message] else [].

Definition messageRequester (requesterId : string) (message : ToRequester) (b : Broker) : list Message :=
  if set_has requesterId (requesters b) then [RequesterMessage requesterId message] else [].

(** ** Timeouts of requests *)

Definition createRequestTimeout (requestId : string) (b : Broker) : nat * Broker :=
  setTimer (RequestTimeout requestId) b.

(** The first pending request with the id, and the others *)
Fixpoint spliceRequest (requestId : string) (store : jsmap nat TaskRequest) (l : list nat)
    : option (nat * list nat) :=
  match l with
  | [] => None
  | ref :: l =>
      if bool_decide (rq_requestId <$> map_get ref store = Some requestId) then Some (ref, l)
      else prod_map id (ref ::.) <$> spliceRequest requestId store l
  end.

Definition handleRequestTimeout (requestId : string) (b : Broker) : Broker * list Message :=
  match spliceRequest requestId (requests b) (pendingTaskRequests b) with
  | None => (b, [])
  | Some (ref, rest) =>
      match map_get ref (requests b) with
      | None => (b, [])
      | Some request =>
          let b := setPendingTaskRequests rest b in
          let b := setMismatchWarned (set_delete requestId (mismatchWarned b)) b in
          let b := clearTimer (rq_timeout request) b in
          (b, messageRequester (rq_requesterId request) (RequestExpired (rq_requestId request) "timeout") b)
      end
  end.

(** ** Matching offers with requests *)

Definition expired (now : Z) (o : TaskOffer) : bool :=
  negb (bool_decide (to_validFor o = -1)%Z) && bool_decide (to_validUntil o < now)%Z.

Definition expireTasks (now : Z) (b : Broker) : Broker :=
  setPendingTaskOffers (filter (λ o, expired now o = false) (pendingTaskOffers b)) b.

Definition warnOnTaskTypeMismatch (request : TaskRequest) (b : Broker) : Broker :=
  if bool_decide (pendingTaskOffers b = []) then b
  else if set_has (rq_requestId request) (mismatchWarned b) then b
  else setMismatchWarned (set_add (rq_requestId request) (mismatchWarned b)) b.

(** The first offer of the type, and the others *)
Fixpoint spliceOffer (taskType : string) (l : list TaskOffer) : option (TaskOffer * list TaskOffer) :=
  match l with
  | [] => None
  | o :: l =>
      if bool_decide (to_taskType o = taskType) then Some (o, l)
      else prod_map id (o ::.) <$> spliceOffer taskType l
  end.

(** [acceptOffer] up to the [await] of the runner's answer *)
Definition acceptOffer (offer : TaskOffer) (ref : nat) (b : Broker) : Broker * list Message :=
  let '(taskId, b) := fresh b in
  let b := setRunnerAcceptRejects (set_add taskId (runnerAcceptRejects b)) b in
  let b := setJobs (map_set taskId {| jb_offer := offer; jb_request := ref;
                                       jb_phase := AwaitRunner RunnerPending |} (jobs b)) b in
  (b, messageRunner (to_runnerId offer) (TaskOfferAccept (to_offerId offer) taskId) b).

(** The body of the loop of [settleTasks] *)
Definition settleRequest (acc : Broker * list Message) (ref : nat) : Broker * list Message :=
  let '(b, messages) := acc in
  match map_get ref (requests b) with
  | None => acc
  | Some request =>
      if rq_acceptInProgress request then acc
      else match spliceOffer (rq_taskType request) (pendingTaskOffers b) with
           | None => (warnOnTaskTypeMismatch request b, messages)
           | Some (offer, rest) =>
               let b := updateRequest ref (withProgress true) b in
               let b := setPendingTaskOffers rest b in
               let b := setMismatchWarned (set_delete (rq_requestId request) (mismatchWarned b)) b in
               let '(b, sent) := acceptOffer offer ref b in
               (b, messages ++ sent)
           end
  end.

Definition settleTasks (now : Z) (b : Broker) : Broker * list Message :=
  let b := expireTasks now b in
  foldl settleRequest (b, []) (pendingTaskRequests b).

(** The request object, with its timer, was created by the caller. *)
Definition taskRequested (request : TaskRequest) (now : Z) (b : Broker) : Broker * list Message :=
  if isDraining b then
    let b := clearTimer (rq_timeout request) b in
    (b, messageRequester (rq_requesterId request) (RequestExpired (rq_requestId request) "draining") b)
  else
    let '(ref, b) := fresh b in
    let b := setRequests (map_set ref request (requests b)) b in
    settleTasks now (setPendingTaskRequests (pendingTaskRequests b ++ [ref]) b).

Definition taskOffered (offer : TaskOffer) (now : Z) (b : Broker) : Broker * list Message :=
  settleTasks now (setPendingTaskOffers (pendingTaskOffers b ++ [offer]) b).

(** ** Answers of the runner *)

(** The callbacks: the first one settles the promise. *)
Definition answerRunner (taskId : nat) (answer : RunnerAnswer) (b : Broker) : Broker :=
  updateJob taskId (λ j, match jb_phase j with
    | AwaitRunner RunnerPending => withPhase (AwaitRunner answer) j
    | _ => j end) b.

Definition settleRunner (taskId : nat) (answer : RunnerAnswer) (b : Broker) : Broker :=
  if set_has taskId (runnerAcceptRejects b)
  then setRunnerAcceptRejects (set_delete taskId (runnerAcceptRejects b)) (answerRunner taskId answer b)
  else b.

Definition handleRunnerAccept (taskId : nat) (b : Broker) : Broker := settleRunner taskId RunnerAccepted b.
Definition handleRunnerReject (taskId : nat) (b : Broker) : Broker := settleRunner taskId RunnerRejected b.
Definition handleRunnerDeferred (taskId : nat) (b : Broker) : Broker := settleRunner taskId RunnerDeferred b.

(** The timer of the first promise of [acceptOffer] *)
Definition runnerAnswerTimeout (taskId : nat) (b : Broker) : Broker := answerRunner taskId RunnerTimedOut b.

(** ** Tasks *)

Definition cancelTask (taskId : nat) (reason : string) (b : Broker) : Broker * list Message :=
  match map_get taskId (tasks b) with
  | None => (b, [])
  | Some task =>
      let b := setTasks (map_delete taskId (tasks b)) b in
      (b, messageRunner (tk_runnerId task) (TaskCancel taskId reason) b)
  end.

Definition failTask (taskId : nat) (error : string) (b : Broker) : Broker * list Message :=
  match map_get taskId (tasks b) with
  | None => (b, [])
  | Some task =>
      let b := setTasks (map_delete taskId (tasks b)) b in
      (b, messageRequester (tk_requesterId task) (TaskError taskId error) b)
  end.

(** The runner of the task; without one the task fails and the call throws ([None]). *)
Definition getRunnerOrFailTask (taskId : nat) (b : Broker) : Broker * list Message * option string :=
  match map_get taskId (tasks b) with
  | None => (b, [], None)
  | Some task =>
      match map_get (tk_runnerId task) (knownRunners b) with
      | Some runner => (b, [], Some (tr_id runner))
      | None =>
          let '(b, sent) := failTask taskId
            ("Cannot find runner, failed to find runner (" +:+ tk_runnerId task +:+ ")") b in
          (b, sent, None)
      end
  end.

(** The message is sent to the runner of the task, if the task exists. *)
Definition forwardToRunner (taskId : nat) (message : ToRunner) (b : Broker) : Broker * list Message :=
  if map_has taskId (tasks b) then
    let '(b, sent, runner) := getRunnerOrFailTask taskId b in
    match runner with
    | Some runnerId => (b, sent ++ messageRunner runnerId message b)
    | None => (b, sent)
    end
  else (b, []).

Definition handleRequesterRpcResponse (taskId : nat) (callId status data : string) (b : Broker) :=
  forwardToRunner taskId (RpcResponse taskId callId status data) b.

Definition handleRequesterDataResponse (taskId : nat) (requestId data : string) (b : Broker) :=
  forwardToRunner taskId (TaskDataResponse taskId requestId data) b.

Definition handleRequesterNodeTypesResponse (taskId : nat) (requestId nodeTypes : string) (b : Broker) :=
  forwardToRunner taskId (NodeTypes taskId requestId nodeTypes) b.

(** The last component is [false] if the call throws. *)
Definition sendTaskSettings (taskId : nat) (settings : string) (b : Broker) : Broker * list Message * bool :=
  if map_has taskId (tasks b) then
    let '(b, sent, runner) := getRunnerOrFailTask taskId b in
    match runner with
    | None => (b, sent, false)
    | Some runnerId =>
        match map_get taskId (tasks b) with
        | None => (b, sent, true)
        | Some task =>
            let '(timer, b) := setTimer (TaskTimeout taskId) b in
            let task := {| tk_id := tk_id task; tk_runnerId := tk_runnerId task;
              tk_requesterId := tk_requesterId task; tk_taskType := tk_taskType task;
              tk_timeout := Some timer |} in
            let b := setTasks (map_set taskId task (tasks b)) b in
            (b, sent ++ messageRunner runnerId (TaskSettings taskId settings) b, true)
        end
    end
  else (b, [], true).

(** [taskDoneHandler] and [taskErrorHandler] up to their [await]: the requester is told, the
    task is still there. *)
Definition endTask (taskId : nat) (message : ToRequester) (b : Broker) : Broker * list Message :=
  match map_get taskId (tasks b) with
  | None => (b, [])
  | Some task =>
      let b := clearTimer (tk_timeout task) b in
      let sent := messageRequester (tk_requesterId task) message b in
      (setHandlers (handlers b ++ [DeleteTask (tk_id task)]) b, sent)
  end.

Definition taskDoneHandler (taskId : nat) (data : string) (b : Broker) := endTask taskId (TaskDone taskId data) b.
Definition taskErrorHandler (taskId : nat) (error : string) (b : Broker) := endTask taskId (TaskError taskId error) b.

Definition failTimedOut (taskId : nat) (b : Broker) : Broker * list Message :=
  taskErrorHandler taskId "Task execution timed out" b.

(** [mode] is the mode of the task runners; only the message to an external runner is
    awaited. *)
Definition handleTaskTimeout (mode : string) (taskId : nat) (b : Broker) : Broker * list Message :=
  match map_get taskId (tasks b) with
  | None => (b, [])
  | Some task =>
      if bool_decide (mode = "external") then
        (setHandlers (handlers b ++ [FailTimedOut taskId]) b,
         messageRunner (tk_runnerId task) (TaskCancel taskId "Task execution timed out") b)
      else failTimedOut taskId b
  end.

(** The callback that the [n]-th handler waits for has returned. *)
Definition resumeHandler (n : nat) (b : Broker) : Broker * list Message :=
  match handlers b !! n with
  | None => (b, [])
  | Some handler =>
      let b := setHandlers (take n (handlers b) ++ drop (S n) (handlers b)) b in
      match handler with
      | DeleteTask taskId => (setTasks (map_delete taskId (tasks b)) b, [])
      | FailTimedOut taskId => failTimedOut taskId b
      end
  end.

(** ** [acceptOffer] after the answers *)

Definition finishJob (taskId : nat) (b : Broker) : Broker := updateJob taskId (withPhase Returned) b.

(** A call that gives up its request disappears. *)
Definition dropJob (taskId : nat) (b : Broker) : Broker := setJobs (map_delete taskId (jobs b)) b.

(** From the runner's answer to the [await] of the requester's answer *)
Definition resumeRunner (taskId : nat) (b : Broker) : Broker * list Message :=
  match map_get taskId (jobs b) with
  | None => (b, [])
  | Some j =>
      match map_get (jb_request j) (requests b), jb_phase j with
      | None, _ => (b, [])
      | Some request, AwaitRunner answer =>
          match answer with
          | RunnerPending => (b, [])
          | RunnerRejected | RunnerTimedOut =>
              (dropJob taskId (updateRequest (jb_request j) (withProgress false) b), [])
          | RunnerDeferred =>
              let b := updateRequest (jb_request j) (withProgress false) b in
              let b := clearTimer (rq_timeout request) b in
              let '(timer, b) := createRequestTimeout (rq_requestId request) b in
              (dropJob taskId (updateRequest (jb_request j) (withTimeout (Some timer)) b), [])
          | RunnerAccepted =>
              let b := clearTimer (rq_timeout request) b in
              let task := {| tk_id := taskId; tk_taskType := to_taskType (jb_offer j);
                tk_runnerId := to_runnerId (jb_offer j); tk_requesterId := rq_requesterId request;
                tk_timeout := None |} in
              let b := setTasks (map_set taskId task (tasks b)) b in
              match spliceRequest (rq_requestId request) (requests b) (pendingTaskRequests b) with
              | None => (finishJob taskId b, [])
              | Some (_, rest) =>
                  let b := setPendingTaskRequests rest b in
                  let b := setRequesterAcceptRejects (set_add taskId (requesterAcceptRejects b)) b in
                  let b := updateJob taskId (withPhase (AwaitRequester RequesterPending)) b in
                  (b, messageRequester (rq_requesterId request) (TaskReady (rq_requestId request) taskId) b)
              end
          end
      | Some _, _ => (b, [])
      end
  end.

Definition answerRequester (taskId : nat) (answer : RequesterAnswer) (b : Broker) : Broker :=
  updateJob taskId (λ j, match jb_phase j with
    | AwaitRequester RequesterPending => withPhase (AwaitRequester answer) j
    | _ => j end) b.

Definition settleRequester (taskId : nat) (answer : RequesterAnswer) (b : Broker) : Broker :=
  if set_has taskId (requesterAcceptRejects b)
  then setRequesterAcceptRejects (set_delete taskId (requesterAcceptRejects b)) (answerRequester taskId answer b)
  else b.

Definition handleRequesterAccept (taskId : nat) (settings : string) (b : Broker) : Broker :=
  settleRequester taskId (RequesterAccepted settings) b.
Definition handleRequesterReject (taskId : nat) (reason : string) (b : Broker) : Broker :=
  settleRequester taskId (RequesterRejected reason) b.

(** The timer of the second promise of [acceptOffer] *)
Definition requesterAnswerTimeout (taskId : nat) (b : Broker) : Broker :=
  answerRequester taskId RequesterTimedOut b.

(** From the requester's answer to the end *)
Definition resumeRequester (taskId : nat) (b : Broker) : Broker * list Message :=
  match jb_phase <$> map_get taskId (jobs b) with
  | Some (AwaitRequester (RequesterAccepted settings)) =>
      let '(b, sent, ok) := sendTaskSettings taskId settings (finishJob taskId b) in
      if ok : bool then (b, sent)
      else let '(b, cancelled) := cancelTask taskId "Unknown reason" b in (b, sent ++ cancelled)
  | Some (AwaitRequester (RequesterRejected reason)) => cancelTask taskId reason (finishJob taskId b)
  | Some (AwaitRequester RequesterTimedOut) => cancelTask taskId "Unknown reason" (finishJob taskId b)
  | _ => (b, [])
  end.

(** ** Runners and requesters *)

Definition registerRunner (runner : TaskRunner) (b : Broker) : Broker * list Message :=
  let b := setRunners (map_set (tr_id runner) runner (knownRunners b)) b in
  (b, messageRunner (tr_id runner) RunnerRegistered b).

Definition failRunnerTask (runnerId error : string) (acc : Broker * list Message) (task : Task)
    : Broker * list Message :=
  let '(b, messages) := acc in
  if bool_decide (tk_runnerId task = runnerId) then
    let '(b, sent) := failTask (tk_id task) error b in
    (handleRunnerReject (tk_id task) b, messages ++ sent)
  else acc.

Definition deregisterRunner (runnerId error : string) (b : Broker) : Broker * list Message :=
  let b := setRunners (map_delete runnerId (knownRunners b)) b in
  let b := setPendingTaskOffers (filter (λ o, to_runnerId o ≠ runnerId) (pendingTaskOffers b)) b in
  foldl (failRunnerTask runnerId error) (b, []) (tasks b).*2.

Definition registerRequester (requesterId : string) (b : Broker) : Broker :=
  setRequesters (set_add requesterId (requesters b)) b.

Definition deregisterRequester (requesterId : string) (b : Broker) : Broker :=
  setRequesters (set_delete requesterId (requesters b)) b.

(** The message is sent to the requester of the task, if the task exists. *)
Definition forwardToRequester (taskId : nat) (message : ToRequester) (b : Broker) : list Message :=
  match map_get taskId (tasks b) with
  | None => []
  | Some task => messageRequester (tk_requesterId task) message b
  end.

Definition handleRpcRequest (taskId : nat) (callId name params : string) (b : Broker) :=
  forwardToRequester taskId (Rpc taskId callId name params) b.

Definition handleDataRequest (taskId : nat) (requestId requestParams : string) (b : Broker) :=
  forwardToRequester taskId (TaskDataRequest taskId requestId requestParams) b.

Definition handleNodeTypesRequest (taskId : nat) (requestId requestParams : string) (b : Broker) :=
  forwardToRequester taskId (NodeTypesRequest taskId requestId requestParams) b.

Definition handleResponse (taskId : nat) (requestId data : string) (b : Broker) : list Message :=
  match map_get taskId (tasks b) with
  | None => []
  | Some task => messageRunner (tk_requesterId task) (TaskDataResponse taskId requestId data) b
  end.

Definition onRunnerMessage (runnerId : string) (message : FromRunner) (now : Z) (b : Broker)
    : Broker * list Message :=
  if map_has runnerId (knownRunners b) then
    match message with
    | RunnerTaskAccepted taskId => (handleRunnerAccept taskId b, [])
    | RunnerTaskRejected taskId _ => (handleRunnerReject taskId b, [])
    | RunnerTaskDeferred taskId => (handleRunnerDeferred taskId b, [])
    | RunnerTaskOffer offerId taskType validFor =>
        taskOffered {| to_offerId := offerId; to_runnerId := runnerId; to_taskType := taskType;
          to_validFor := validFor;
          to_validUntil := if bool_decide (validFor = -1)%Z then 0 else now + validFor * 1000000 |} now b
    | RunnerTaskDone taskId data => taskDoneHandler taskId data b
    | RunnerTaskError taskId error => taskErrorHandler taskId error b
    | RunnerTaskDataRequest taskId requestId params => (b, handleDataRequest taskId requestId params b)
    | RunnerNodeTypesRequest taskId requestId params => (b, handleNodeTypesRequest taskId requestId params b)
    | RunnerRpc taskId callId name params => (b, handleRpcRequest taskId callId name params b)
    | RunnerInfo => (b, [])
    end
  else (b, []).

Definition onRequesterMessage (requesterId : string) (message : FromRequester) (now : Z) (b : Broker)
    : Broker * list Message :=
  match message with
  | RequesterTaskSettings taskId settings => (handleRequesterAccept taskId settings b, [])
  | RequesterTaskCancel taskId reason => cancelTask taskId reason b
  | RequesterTaskRequest requestId taskType =>
      let '(timer, b) := createRequestTimeout requestId b in
      taskRequested {| rq_requestId := requestId; rq_requesterId := requesterId; rq_taskType := taskType;
        rq_timeout := Some timer; rq_acceptInProgress := false |} now b
  | RequesterTaskDataResponse taskId requestId data => handleRequesterDataResponse taskId requestId data b
  | RequesterNodeTypesResponse taskId requestId nodeTypes =>
      handleRequesterNodeTypesResponse taskId requestId nodeTypes b
  | RequesterRpcResponse taskId callId status data => handleRequesterRpcResponse taskId callId status data b
  end.

(** A timer that fires is no longer active. *)
Definition fireTimer (mode : string) (timer : nat) (b : Broker) : Broker * list Message :=
  match map_get timer (timers b) with
  | None => (b, [])
  | Some (RequestTimeout requestId) => handleRequestTimeout requestId (clearTimer (Some timer) b)
  | Some (TaskTimeout taskId) => handleTaskTimeout mode taskId (clearTimer (Some timer) b)
  end.

Definition startDraining (b : Broker) : Broker := setDraining true b.
Definition stopDraining (b : Broker) : Broker := setDraining false b.
Definition hasActiveTasks (b : Broker) : bool := negb (bool_decide (length (tasks b) = 0)).
