(* ===== verification/TaskBrokerSafety.v ===== *)
(** * Safety of the task broker

    The invariant of the broker over every sequence of messages, timers and answers: a
    request is served by at most one task, of the type that was asked for. *)

From S2P Require Import Prelude JsCollections TaskBroker.

(** ** Operations *)

Inductive brokerOp :=
  | FromRunnerOp (runnerId : string) (message : FromRunner) (now : Z)
  | FromRequesterOp (requesterId : string) (message : FromRequester) (now : Z)
  | RegisterRunner (runner : TaskRunner)
  | DeregisterRunner (runnerId error : string)
  | RegisterRequester (requesterId : string)
  | DeregisterRequester (requesterId : string)
  | RequesterReject (taskId : nat) (reason : string)
  | FireTimer (mode : string) (timer : nat)
  | RunnerAnswerTimeout (taskId : nat)
  | RequesterAnswerTimeout (taskId : nat)
  | ResumeRunner (taskId : nat)
  | ResumeRequester (taskId : nat)
  | ResumeHandler (n : nat)
  | SetDraining (draining : bool).

Definition brokerStep (op : brokerOp) (b : Broker) : Broker * list Message :=
  match op with
  | FromRunnerOp runnerId message now => onRunnerMessage runnerId message now b
  | FromRequesterOp requesterId message now => onRequesterMessage requesterId message now b
  | RegisterRunner runner => registerRunner runner b
  | DeregisterRunner runnerId error => deregisterRunner runnerId error b
  | RegisterRequester requesterId => (registerRequester requesterId b, [])
  | DeregisterRequester requesterId => (deregisterRequester requesterId b, [])
  | RequesterReject taskId reason => (handleRequesterReject taskId reason b, [])
  | FireTimer mode timer => fireTimer mode timer b
  | RunnerAnswerTimeout taskId => (runnerAnswerTimeout taskId b, [])
  | RequesterAnswerTimeout taskId => (requesterAnswerTimeout taskId b, [])
  | ResumeRunner taskId => resumeRunner taskId b
  | ResumeRequester taskId => resumeRequester taskId b
  | ResumeHandler n => resumeHandler n b
  | SetDraining draining => (if draining then startDraining b else stopDraining b, [])
  end.

Definition brokerSteps (ops : list brokerOp) : Broker := foldl (λ b op, (brokerStep op b).1) init ops.

(** ** The invariant *)

(** The runner has accepted. *)
Definition accepted (j : Job) : bool := match jb_phase j with AwaitRunner _ => false | _ => true end.

(** The callbacks of the runner's promise are still there. *)
Definition undecided (j : Job) : Prop :=
  jb_phase j = AwaitRunner RunnerPending ∨ jb_phase j = AwaitRunner RunnerTimedOut.

(** What connects a call of [acceptOffer] with its request *)
Definition serves (j : Job) (r : TaskRequest) : Prop :=
  rq_acceptInProgress r = true ∧ to_taskType (jb_offer j) = rq_taskType r.

(** What connects a task with its call of [acceptOffer] *)
Definition taskOf (taskId : nat) (task : Task) (j : Job) (r : TaskRequest) : Prop :=
  accepted j = true ∧ tk_id task = taskId ∧ tk_runnerId task = to_runnerId (jb_offer j) ∧
  tk_requesterId task = rq_requesterId r ∧ tk_taskType task = rq_taskType r.

Record brokerInv (b : Broker) : Prop := {
  bi_jobs_fresh : ∀ t j, map_get t (jobs b) = Some j → t < next b;
  bi_requests_fresh : ∀ ref r, map_get ref (requests b) = Some r → ref < next b;
  bi_rar_fresh : ∀ t, t ∈ runnerAcceptRejects b → t < next b;
  bi_serves : ∀ t j, map_get t (jobs b) = Some j → ∃ r, map_get (jb_request j) (requests b) = Some r ∧ serves j r;
  bi_unique : ∀ t t' j j', map_get t (jobs b) = Some j → map_get t' (jobs b) = Some j' →
    jb_request j = jb_request j' → t = t';
  bi_tasks : ∀ t task, (t, task) ∈ tasks b → ∃ j r,
    map_get t (jobs b) = Some j ∧ map_get (jb_request j) (requests b) = Some r ∧ taskOf t task j r;
  bi_callbacks : ∀ t j, t ∈ runnerAcceptRejects b → map_get t (jobs b) = Some j → undecided j;
}.

Lemma init_inv : brokerInv init.
Proof. split; simpl; try done; set_solver. Qed.

(** The invariant is about requests, calls, tasks and callbacks; numbers only grow. *)
Lemma brokerInv_ext b b' :
  (∀ ref, map_get ref (requests b') = map_get ref (requests b)) → jobs b' = jobs b →
  runnerAcceptRejects b' = runnerAcceptRejects b →
  (∀ entry, entry ∈ tasks b' → entry ∈ tasks b) → next b ≤ next b' →
  brokerInv b → brokerInv b'.
Proof.
  intros Hr Hj Hrar Ht Hn [H1 H2 H3 H4 H5 H6 H7].
  split; rewrite ?Hj, ?Hrar; try done.
  - intros t j H%H1. lia.
  - intros ref r. rewrite Hr. intros H%H2. lia.
  - intros t H%H3. lia.
  - intros t j (r & ? & ?)%H4. exists r. by rewrite Hr.
  - intros t task (j & r & ? & ? & ?)%Ht%H6. exists j, r. by rewrite Hr.
Qed.

Lemma deleteTask_inv taskId b : brokerInv b → brokerInv (setTasks (map_delete taskId (tasks b)) b).
Proof.
  apply brokerInv_ext; try done. simpl. intros entry. rewrite elem_of_map_delete. tauto.
Qed.

Lemma clearTimer_inv timer b : brokerInv b → brokerInv (clearTimer timer b).
Proof. destruct timer; simpl; [|done]. by apply brokerInv_ext. Qed.

Lemma setTimer_inv timer b : brokerInv b → brokerInv (setTimer timer b).2.
Proof. apply brokerInv_ext; simpl; [done..|lia]. Qed.

Lemma elem_of_map_set_inv {V} (k : nat) (v : V) (m : jsmap nat V) kv :
  kv ∈ map_set k v m → kv = (k, v) ∨ kv ∈ m.
Proof.
  unfold map_set. destruct (map_has k m); [|set_solver].
  induction m as [|[k' v'] m IH]; simpl; [set_solver|]. case_bools; set_solver.
Qed.

(** *** Calls of [acceptOffer] *)

(** The phase of a call changes, and its callbacks stay only while it is undecided. *)
Lemma updateJob_inv t f rar b :
  brokerInv b →
  (∀ j, map_get t (jobs b) = Some j → jb_offer (f j) = jb_offer j ∧ jb_request (f j) = jb_request j ∧
     (accepted j = true → accepted (f j) = true) ∧ (t ∈ rar → undecided (f j))) →
  (∀ x, x ∈ rar → x ∈ runnerAcceptRejects b) →
  brokerInv (setRunnerAcceptRejects rar (updateJob t f b)).
Proof.
  intros Hb Hf Hrar. unfold updateJob. destruct (map_get t (jobs b)) as [j|] eqn:Hj.
  - destruct (Hf j) as (Ho & Hr & Ha & Hu); [done|]. destruct Hb as [H1 H2 H3 H4 H5 H6 H7].
    assert (∀ t' j', map_get t' (map_set t (f j) (jobs b)) = Some j' → ∃ j0, map_get t' (jobs b) = Some j0 ∧
      jb_offer j' = jb_offer j0 ∧ jb_request j' = jb_request j0 ∧ (t' = t ∧ j' = f j ∨ t' ≠ t ∧ j' = j0)) as Hget.
    { intros t' j'. rewrite map_get_set. case_bools; [intros [= <-]; subst; eauto 10|eauto 10]. }
    split; simpl.
    + intros t' j' (j0 & ? & _)%Hget. eauto.
    + done.
    + eauto.
    + intros t' j' (j0 & Hj0 & Ho' & Hr' & _)%Hget. destruct (H4 _ _ Hj0) as (r & Hrq & ? & ?).
      exists r. unfold serves. by rewrite Ho', Hr'.
    + intros t1 t2 j1 j2 (i1 & Hi1 & _ & E1 & _)%Hget (i2 & Hi2 & _ & E2 & _)%Hget Heq.
      apply (H5 t1 t2 i1 i2); congruence.
    + intros t' task (j0 & r & Hj0 & Hr0 & Hacc & Hrest)%H6. rewrite map_get_set. case_bools; subst.
      * rewrite Hj in Hj0. simplify_eq. exists (f j0), r. rewrite Hr. unfold taskOf. rewrite Ho. auto.
      * exists j0, r. unfold taskOf. auto.
    + intros t' j' Hin (j0 & Hj0 & _ & _ & [[-> ->]|[Hne ->]])%Hget; [by apply Hu|eauto].
  - destruct Hb as [H1 H2 H3 H4 H5 H6 H7]. split; simpl; eauto.
Qed.

Lemma answerRunner_inv t answer rar b :
  brokerInv b → (∀ x, x ∈ rar → x ∈ runnerAcceptRejects b) → (t ∈ rar → answer = RunnerTimedOut) →
  brokerInv (setRunnerAcceptRejects rar (answerRunner t answer b)).
Proof.
  intros Hb Hrar Hans. apply updateJob_inv; [done| |done]. intros j Hj.
  assert (t ∈ rar → undecided j) as Hu by (intros Hin; by eapply bi_callbacks; [|apply Hrar|]).
  unfold accepted, undecided in *.
  destruct (jb_phase j) as [[]| |] eqn:Hp; simpl; rewrite ?Hp in *; split_and!; try done.
  intros ->%Hans. by right.
Qed.

Lemma setRar_id b : setRunnerAcceptRejects (runnerAcceptRejects b) b = b.
Proof. by destruct b. Qed.

Lemma updateJob_rar t f b : runnerAcceptRejects (updateJob t f b) = runnerAcceptRejects b.
Proof. unfold updateJob. by destruct (map_get t (jobs b)). Qed.

Lemma updateJob_keep_inv t f b :
  brokerInv b →
  (∀ j, map_get t (jobs b) = Some j → jb_offer (f j) = jb_offer j ∧ jb_request (f j) = jb_request j ∧
     (accepted j = true → accepted (f j) = true) ∧ (t ∈ runnerAcceptRejects b → undecided (f j))) →
  brokerInv (updateJob t f b).
Proof.
  intros Hb Hf. rewrite <- (setRar_id (updateJob t f b)), updateJob_rar. by apply updateJob_inv.
Qed.

Lemma settleRunner_inv t answer b : brokerInv b → brokerInv (settleRunner t answer b).
Proof.
  intros Hb. unfold settleRunner. destruct (set_has t (runnerAcceptRejects b)); [|done].
  apply answerRunner_inv; [done| |]; intros *; rewrite elem_of_set_delete; naive_solver.
Qed.

Lemma runnerAnswerTimeout_inv t b : brokerInv b → brokerInv (runnerAnswerTimeout t b).
Proof.
  intros Hb. unfold runnerAnswerTimeout, answerRunner.
  rewrite <- (setRar_id (updateJob _ _ _)), updateJob_rar. by apply answerRunner_inv.
Qed.

(** A call that the runner has accepted stays accepted. *)
Lemma acceptedJob_inv t f b :
  brokerInv b → (∀ j, jb_offer (f j) = jb_offer j ∧ jb_request (f j) = jb_request j) →
  (∀ j, map_get t (jobs b) = Some j → f j = j ∨ accepted j = true ∧ accepted (f j) = true) →
  brokerInv (updateJob t f b).
Proof.
  intros Hb Hf Hacc. apply updateJob_keep_inv; [done|]. intros j Hj. destruct (Hf j) as [Ho Hr].
  split_and!; [done|done| |].
  - destruct (Hacc j Hj) as [->|[_ ?]]; auto.
  - intros Hin. pose proof (bi_callbacks b Hb t j Hin Hj) as Hu.
    destruct (Hacc j Hj) as [->|[Ha _]]; [done|]. unfold accepted in Ha. by destruct Hu as [Hp|Hp]; rewrite Hp in Ha.
Qed.

Lemma answerRequester_inv t answer b : brokerInv b → brokerInv (answerRequester t answer b).
Proof.
  intros Hb. apply acceptedJob_inv; [done| |]; intros j.
  - by destruct (jb_phase j) as [|[]|].
  - intros _. destruct (jb_phase j) as [|[]|] eqn:Hp; auto. right. unfold accepted. by rewrite Hp.
Qed.

Lemma finishJob_inv t b :
  brokerInv b → (∀ j, map_get t (jobs b) = Some j → accepted j = true) → brokerInv (finishJob t b).
Proof. intros Hb Ha. apply acceptedJob_inv; [done|done|]. intros j Hj%Ha. by right. Qed.

(** A call gives its request up. *)
Lemma dropJob_inv t j f b :
  brokerInv b → map_get t (jobs b) = Some j → accepted j = false →
  (∀ r, rq_requesterId (f r) = rq_requesterId r ∧ rq_taskType (f r) = rq_taskType r) →
  brokerInv (dropJob t (updateRequest (jb_request j) f b)).
Proof.
  intros [H1 H2 H3 H4 H5 H6 H7] Hj Ha Hf. unfold updateRequest.
  destruct (H4 t j Hj) as (r & Hr & _). rewrite Hr. destruct (Hf r) as [Hf1 Hf2].
  split; simpl.
  - intros t' j'. rewrite map_get_delete. case_bools; [done|eauto].
  - intros ref r'. rewrite map_get_set. case_bools; subst; eauto.
  - done.
  - intros t' j'. rewrite map_get_delete, map_get_set. destruct (bool_decide_reflect (t' = t)); [done|].
    intros Hj'.
    rewrite bool_decide_false; [by eapply H4|]. intros Heq. by apply (H5 t' t j' j) in Heq.
  - intros t1 t2 j1 j2. rewrite !map_get_delete. case_bools; try done. by apply H5.
  - intros t' task Htask. destruct (H6 t' task Htask) as (j' & r' & Hj' & Hr' & Hacc & Hid & Hrun & Hreq & Hty).
    assert (t' ≠ t) as Hne by (intros ->; rewrite Hj in Hj'; simplify_eq; congruence).
    exists j', (if bool_decide (jb_request j' = jb_request j) then f r' else r').
    rewrite map_get_delete, map_get_set, bool_decide_false by done. unfold taskOf.
    case_bools; [|done]. destruct (Hf r') as [-> ->]. split_and!; try done. congruence.
  - intros t' j' Hin. rewrite map_get_delete. case_bools; [done|]. eauto.
Qed.

(** A new call takes a request that nobody serves. *)
Lemma acceptOffer_inv offer ref r b :
  brokerInv b → map_get ref (requests b) = Some r → rq_acceptInProgress r = false →
  to_taskType offer = rq_taskType r →
  brokerInv (acceptOffer offer ref (updateRequest ref (withProgress true) b)).1.
Proof.
  intros [H1 H2 H3 H4 H5 H6 H7] Hr Hp Hty. unfold updateRequest. rewrite Hr.
  assert (∀ t j, map_get t (jobs b) = Some j → jb_request j ≠ ref) as Hne.
  { intros t j (r' & Hr' & Hp' & _)%H4 <-. congruence. }
  assert (map_get (next b) (jobs b) = None) as Hfresh.
  { destruct (map_get (next b) (jobs b)) as [j|] eqn:E; [|done]. apply H1 in E. lia. }
  split; simpl.
  - intros t j. rewrite map_get_set. case_bools; [lia|]. intros Hj%H1. lia.
  - intros ref' r'. rewrite map_get_set. case_bools; [subst; intros _; apply H2 in Hr; lia|].
    intros Hr'%H2. lia.
  - intros t. rewrite elem_of_set_add. intros [->|Hin%H3]; lia.
  - intros t j. rewrite map_get_set. destruct (bool_decide_reflect (t = next b)) as [->|].
    + intros [= <-]. exists (withProgress true r). simpl. by rewrite map_get_set_eq.
    + intros Hj. rewrite map_get_set_ne by by eapply Hne. eauto.
  - intros t1 t2 j1 j2. rewrite !map_get_set. case_bools; subst; intros; simplify_eq/=; [done|..|by eapply H5].
    + exfalso. by eapply Hne.
    + exfalso. by eapply Hne.
  - intros t task (j & r' & Hj & Hr' & Hof)%H6. exists j, r'. rewrite !map_get_set.
    rewrite !bool_decide_false; [done|by eapply Hne|]. intros ->. rewrite Hfresh in Hj. done.
  - intros t j. rewrite elem_of_set_add, map_get_set. case_bools; subst; [intros _ [= <-]; by left|].
    intros [->|Hin]; [done|]. eauto.
Qed.

(** A task is added for a call that was accepted. *)
Lemma addTask_inv t task j r b :
  brokerInv b → map_get t (jobs b) = Some j → map_get (jb_request j) (requests b) = Some r →
  taskOf t task j r → brokerInv (setTasks (map_set t task (tasks b)) b).
Proof.
  intros [H1 H2 H3 H4 H5 H6 H7] Hj Hr Hof. split; simpl; try done.
  intros t' task' [[= -> ->]|Hin]%elem_of_map_set_inv; [|by apply H6]. exists j, r. done.
Qed.

Lemma newRequest_inv request b :
  brokerInv b →
  brokerInv (setRequests (map_set (next b) request (requests b)) (fresh b).2).
Proof.
  intros [H1 H2 H3 H4 H5 H6 H7].
  assert (∀ t j r, map_get (jb_request j) (requests b) = Some r → map_get t (jobs b) = Some j →
    map_get (jb_request j) (map_set (next b) request (requests b)) = Some r) as Hold.
  { intros t j r Hr Hj. rewrite map_get_set_ne; [done|]. apply H2 in Hr. lia. }
  split; simpl; try done.
  - intros t j Hj%H1. lia.
  - intros ref r. rewrite map_get_set. case_bools; [lia|]. intros Hr%H2. lia.
  - intros t Hin%H3. lia.
  - intros t j Hj. destruct (H4 t j Hj) as (r & Hr & Hs). eauto.
  - intros t task (j & r & Hj & Hr & Hof)%H6. eauto 6.
Qed.

(** ** The handlers keep the invariant *)

Lemma spliceOffer_Some taskType l o rest :
  spliceOffer taskType l = Some (o, rest) →
  to_taskType o = taskType ∧ ∃ before after, l = before ++ o :: after ∧ rest = before ++ after.
Proof.
  revert o rest. induction l as [|o' l IH]; intros o rest; simpl; [done|].
  case_bools; [intros [= <- <-]; split; [done|by exists [], l]|].
  intros ([o1 rest1] & Hsplice & [= -> ->])%fmap_Some. apply IH in Hsplice as (Hty & before & after & -> & ->).
  split; [done|]. by exists (o' :: before), after.
Qed.

Lemma settleRequest_inv acc ref : brokerInv acc.1 → brokerInv (settleRequest acc ref).1.
Proof.
  destruct acc as [b messages]. simpl. intros Hb. destruct (map_get ref (requests b)) as [r|] eqn:Hr; [|done].
  destruct (rq_acceptInProgress r) eqn:Hp; [done|].
  destruct (spliceOffer (rq_taskType r) (pendingTaskOffers b)) as [[offer rest]|] eqn:Hs.
  - apply spliceOffer_Some in Hs as [Hty _]. pose proof (acceptOffer_inv offer ref r b Hb Hr Hp Hty) as Ha.
    unfold updateRequest in *. rewrite Hr in *. simpl in *. revert Ha. by apply brokerInv_ext.
  - simpl. unfold warnOnTaskTypeMismatch. case_bools; [done|]. destruct (set_has _ _); [done|].
    revert Hb. by apply brokerInv_ext.
Qed.

Lemma settleTasks_inv now b : brokerInv b → brokerInv (settleTasks now b).1.
Proof.
  intros Hb. unfold settleTasks.
  assert (brokerInv (expireTasks now b, @nil Message).1) as H0 by (revert Hb; by apply brokerInv_ext).
  revert H0. generalize (expireTasks now b, @nil Message) as acc. generalize (pendingTaskRequests (expireTasks now b)).
  intros l. induction l as [|ref l IH]; intros acc Hacc; simpl; [done|]. by apply IH, settleRequest_inv.
Qed.

Lemma taskRequested_inv request now b : brokerInv b → brokerInv (taskRequested request now b).1.
Proof.
  intros Hb. unfold taskRequested. destruct (isDraining b); [by apply clearTimer_inv|]. simpl.
  apply settleTasks_inv. apply (newRequest_inv request) in Hb. revert Hb. by apply brokerInv_ext.
Qed.

Lemma cancelTask_inv t reason b : brokerInv b → brokerInv (cancelTask t reason b).1.
Proof. intros Hb. unfold cancelTask. destruct (map_get t (tasks b)); [by apply deleteTask_inv|done]. Qed.

Lemma failTask_inv t error b : brokerInv b → brokerInv (failTask t error b).1.
Proof. intros Hb. unfold failTask. destruct (map_get t (tasks b)); [by apply deleteTask_inv|done]. Qed.

Lemma endTask_inv t message b : brokerInv b → brokerInv (endTask t message b).1.
Proof.
  intros Hb. unfold endTask. destruct (map_get t (tasks b)) as [task|]; [|done].
  eapply brokerInv_ext; [..|by apply (clearTimer_inv (tk_timeout task))]; done.
Qed.

Lemma getRunnerOrFailTask_inv t b : brokerInv b → brokerInv (getRunnerOrFailTask t b).1.1.
Proof.
  intros Hb. unfold getRunnerOrFailTask. destruct (map_get t (tasks b)) as [task|]; [|done].
  destruct (map_get (tk_runnerId task) (knownRunners b)); [done|].
  pose proof (failTask_inv t ("Cannot find runner, failed to find runner (" +:+ tk_runnerId task +:+ ")") b Hb).
  by destruct (failTask _ _ _).
Qed.

Lemma forwardToRunner_inv t message b : brokerInv b → brokerInv (forwardToRunner t message b).1.
Proof.
  intros Hb. unfold forwardToRunner. destruct (map_has t (tasks b)); [|done].
  pose proof (getRunnerOrFailTask_inv t b Hb). by destruct (getRunnerOrFailTask t b) as [[b' sent] [runner|]].
Qed.

Lemma sendTaskSettings_inv t settings b : brokerInv b → brokerInv (sendTaskSettings t settings b).1.1.
Proof.
  intros Hb. unfold sendTaskSettings. destruct (map_has t (tasks b)); [|done].
  pose proof (getRunnerOrFailTask_inv t b Hb) as Hb'.
  destruct (getRunnerOrFailTask t b) as [[b' sent] [runner|]]; [|done]. simpl in Hb'.
  destruct (map_get t (tasks b')) as [task|] eqn:Ht; [|done]. simpl.
  destruct (bi_tasks b' Hb' t task (map_get_elem_of _ _ _ Ht)) as (j & r & Hj & Hr & Hof).
  eapply (addTask_inv t _ j r (setTimer (TaskTimeout t) b').2); [by apply setTimer_inv|done|done|done].
Qed.

Lemma handleRequestTimeout_inv requestId b : brokerInv b → brokerInv (handleRequestTimeout requestId b).1.
Proof.
  intros Hb. unfold handleRequestTimeout. destruct (spliceRequest _ _ _) as [[ref rest]|]; [|done].
  destruct (map_get ref (requests b)) as [r|]; [|done]. apply clearTimer_inv. revert Hb. by apply brokerInv_ext.
Qed.

Lemma handleTaskTimeout_inv mode t b : brokerInv b → brokerInv (handleTaskTimeout mode t b).1.
Proof.
  intros Hb. unfold handleTaskTimeout. destruct (map_get t (tasks b)) as [task|]; [|done].
  case_bools; [|by apply endTask_inv]. revert Hb. by apply brokerInv_ext.
Qed.

Lemma setHandlers_inv x b : brokerInv b → brokerInv (setHandlers x b).
Proof. by apply brokerInv_ext. Qed.

Lemma resumeHandler_inv n b : brokerInv b → brokerInv (resumeHandler n b).1.
Proof.
  intros Hb. unfold resumeHandler. destruct (handlers b !! n) as [[t|t]|]; [..|done].
  - by apply (deleteTask_inv t (setHandlers _ b)), setHandlers_inv.
  - by apply endTask_inv, setHandlers_inv.
Qed.

Lemma deregisterRunner_inv runnerId error b : brokerInv b → brokerInv (deregisterRunner runnerId error b).1.
Proof.
  intros Hb. unfold deregisterRunner. set (b1 := setPendingTaskOffers _ _).
  assert (brokerInv (b1, @nil Message).1) as H0 by (revert Hb; by apply brokerInv_ext).
  revert H0. generalize (b1, @nil Message) as acc. generalize (tasks b1).*2.
  intros l. induction l as [|task l IH]; intros acc Hacc; simpl; [done|]. apply IH.
  destruct acc as [b2 messages]. simpl in *. case_bools; [|done].
  pose proof (failTask_inv (tk_id task) error b2 Hacc). destruct (failTask _ _ _) as [b3 sent].
  by apply settleRunner_inv.
Qed.

(** The runner has accepted: the task exists from now on. *)
Lemma acceptTask_inv t task j r phase b b' :
  brokerInv b → map_get t (jobs b) = Some j → map_get (jb_request j) (requests b) = Some r →
  jb_phase j = AwaitRunner RunnerAccepted →
  requests b' = requests b → jobs b' = map_set t (withPhase phase j) (jobs b) →
  runnerAcceptRejects b' = runnerAcceptRejects b → tasks b' = map_set t task (tasks b) → next b' = next b →
  taskOf t task (withPhase phase j) r → brokerInv b'.
Proof.
  intros Hb Hj Hr Hp E1 E2 E3 E4 E5 Hof.
  assert (brokerInv (updateJob t (withPhase phase) b)) as Hb1.
  { apply updateJob_keep_inv; [done|]. intros j' Hj'. simplify_eq. split_and!; [done|done|by intros; apply Hof|].
    intros Hin. destruct (bi_callbacks b Hb t j Hin Hj); congruence. }
  unfold updateJob in Hb1. rewrite Hj in Hb1. eapply (addTask_inv t task (withPhase phase j) r) in Hb1;
    [|simpl; by rewrite map_get_set_eq|done|done].
  revert Hb1. apply brokerInv_ext; simpl; [by rewrite E1|done|done|by rewrite E4|lia].
Qed.

Lemma resumeRunner_inv t b : brokerInv b → brokerInv (resumeRunner t b).1.
Proof.
  intros Hb. unfold resumeRunner. destruct (map_get t (jobs b)) as [j|] eqn:Hj; [|done].
  destruct (map_get (jb_request j) (requests b)) as [r|] eqn:Hr; [|done].
  destruct (jb_phase j) as [answer| |] eqn:Hp; [|done..].
  assert (accepted j = false) as Ha by (unfold accepted; by rewrite Hp).
  destruct (bi_serves b Hb t j Hj) as (r' & Hr' & Hserves). rewrite Hr in Hr'. simplify_eq.
  destruct answer; [done| |by eapply dropJob_inv| |by eapply dropJob_inv].
  - destruct Hserves as [_ Hty]. destruct (rq_timeout r') as [n|]; simpl;
      (destruct (spliceRequest _ _ _) as [[ref rest]|]; simpl; unfold finishJob, updateJob; simpl; rewrite Hj;
       eapply (acceptTask_inv t _ j r' _ b); done).
  - pose proof (dropJob_inv t j (λ r, withTimeout (Some (next b)) (withProgress false r)) b Hb Hj Ha
      ltac:(done)) as Hd. revert Hd. unfold updateRequest. rewrite Hr. simpl.
    assert (∀ n, map_get n (map_set n (withProgress false r') (requests b)) = Some (withProgress false r')) as Hg
      by (intros; apply map_get_set_eq).
    destruct (rq_timeout r') as [n|]; simpl; rewrite Hg; apply brokerInv_ext; simpl; try done; try lia;
      intros ref; rewrite !map_get_set; by case_bools.
Qed.

Lemma resumeRequester_inv t b : brokerInv b → brokerInv (resumeRequester t b).1.
Proof.
  intros Hb. unfold resumeRequester. destruct (map_get t (jobs b)) as [j|] eqn:Hj; simpl; [|done].
  destruct (jb_phase j) as [|answer|] eqn:Hp; [done| |done].
  assert (brokerInv (finishJob t b)) as Hf.
  { apply finishJob_inv; [done|]. intros j' Hj'. simplify_eq. unfold accepted. by rewrite Hp. }
  destruct answer as [|settings|reason|]; [done| |by apply cancelTask_inv..].
  pose proof (sendTaskSettings_inv t settings _ Hf) as Hs.
  destruct (sendTaskSettings _ _ _) as [[b1 sent] []]; [done|]. simpl in Hs.
  pose proof (cancelTask_inv t "Unknown reason" b1 Hs). by destruct (cancelTask _ _ _).
Qed.

Lemma onRunnerMessage_inv runnerId message now b : brokerInv b → brokerInv (onRunnerMessage runnerId message now b).1.
Proof.
  intros Hb. unfold onRunnerMessage. destruct (map_has runnerId (knownRunners b)); [|done].
  destruct message; simpl; unfold handleRunnerAccept, handleRunnerReject, handleRunnerDeferred, taskDoneHandler,
    taskErrorHandler; auto using settleRunner_inv, endTask_inv.
  apply settleTasks_inv. revert Hb. by apply brokerInv_ext.
Qed.

Lemma onRequesterMessage_inv requesterId message now b :
  brokerInv b → brokerInv (onRequesterMessage requesterId message now b).1.
Proof.
  intros Hb. destruct message; simpl; unfold handleRequesterDataResponse,
    handleRequesterNodeTypesResponse, handleRequesterRpcResponse; auto using forwardToRunner_inv, cancelTask_inv.
  - unfold handleRequesterAccept, settleRequester. destruct (set_has _ _); [|done].
    eapply brokerInv_ext; [..|by apply answerRequester_inv]; done.
  - apply taskRequested_inv. by apply (setTimer_inv (RequestTimeout requestId)).
Qed.

Lemma brokerStep_inv op b : brokerInv b → brokerInv (brokerStep op b).1.
Proof.
  intros Hb. destruct op; simpl.
  - by apply onRunnerMessage_inv.
  - by apply onRequesterMessage_inv.
  - revert Hb. by apply brokerInv_ext.
  - by apply deregisterRunner_inv.
  - revert Hb. by apply brokerInv_ext.
  - revert Hb. by apply brokerInv_ext.
  - unfold handleRequesterReject, settleRequester. destruct (set_has _ _); [|done].
    eapply brokerInv_ext; [..|by apply answerRequester_inv]; done.
  - unfold fireTimer. destruct (map_get timer (timers b)) as [[]|]; [| |done].
    + by apply handleRequestTimeout_inv, (clearTimer_inv (Some timer)).
    + by apply handleTaskTimeout_inv, (clearTimer_inv (Some timer)).
  - by apply runnerAnswerTimeout_inv.
  - by apply answerRequester_inv.
  - by apply resumeRunner_inv.
  - by apply resumeRequester_inv.
  - by apply resumeHandler_inv.
  - destruct draining; revert Hb; by apply brokerInv_ext.
Qed.

Lemma brokerSteps_inv ops : brokerInv (brokerSteps ops).
Proof.
  unfold brokerSteps. assert (brokerInv init) as H0 by apply init_inv. revert H0. generalize init.
  induction ops as [|op ops IH]; intros b Hb; simpl; [done|]. by apply IH, brokerStep_inv.
Qed.

(** ** What the invariant says *)

(** C13: a request is served at most once.  In every reachable state a task has the type
    of its request, belongs to the requester who asked for it and to the runner whose
    offer was taken, and no other call serves the same request. *)
Theorem request_served_once (ops : list brokerOp) (t : nat) (task : Task) :
  let b := brokerSteps ops in
  map_get t (tasks b) = Some task →
  ∃ j r, map_get t (jobs b) = Some j ∧ map_get (jb_request j) (requests b) = Some r ∧
    tk_taskType task = rq_taskType r ∧ tk_requesterId task = rq_requesterId r ∧
    tk_runnerId task = to_runnerId (jb_offer j) ∧ to_taskType (jb_offer j) = rq_taskType r ∧
    ∀ t' j', map_get t' (jobs b) = Some j' → jb_request j' = jb_request j → t' = t.
Proof.
  intros b Ht. pose proof (brokerSteps_inv ops) as Hb.
  destruct (bi_tasks _ Hb t task (map_get_elem_of _ _ _ Ht)) as (j & r & Hj & Hr & Hacc & Hid & Hrun & Hreq & Hty).
  destruct (bi_serves _ Hb t j Hj) as (r' & Hr' & _ & Hoty). rewrite Hr in Hr'. injection Hr' as <-.
  exists j, r. split_and!; try done. intros t' j' Hj' Heq. by apply (bi_unique _ Hb t' t j' j).
Qed.

(** *** The disconnection of a runner *)

Lemma failTask_fields t error b :
  jobs (failTask t error b).1 = jobs b ∧ runnerAcceptRejects (failTask t error b).1 = runnerAcceptRejects b.
Proof. unfold failTask. by destruct (map_get t (tasks b)). Qed.

Lemma task_no_callbacks t task b :
  brokerInv b → (t, task) ∈ tasks b → tk_id task ∉ runnerAcceptRejects b.
Proof.
  intros Hb Ht Hin. destruct (bi_tasks b Hb t task Ht) as (j & r & Hj & _ & Hacc & Hid & _).
  rewrite Hid in Hin. unfold accepted in Hacc. by destruct (bi_callbacks b Hb t j Hin Hj) as [Hp|Hp]; rewrite Hp in Hacc.
Qed.

Lemma failRunnerTask_fields runnerId error acc task :
  tk_id task ∉ runnerAcceptRejects acc.1 →
  jobs (failRunnerTask runnerId error acc task).1 = jobs acc.1 ∧
  runnerAcceptRejects (failRunnerTask runnerId error acc task).1 = runnerAcceptRejects acc.1.
Proof.
  destruct acc as [b messages]. simpl. intros Hnin. case_bools; [|done].
  pose proof (failTask_fields (tk_id task) error b) as [E1 E2]. destruct (failTask _ _ _) as [b1 sent].
  simpl in *. unfold handleRunnerReject, settleRunner, set_has. rewrite E2, bool_decide_false by done. done.
Qed.

(** The rejections that [deregisterRunner] sends never reach anyone: a task exists only
    after its runner has accepted it, and then the callbacks are gone.  Calls that wait
    for the answer of the runner that disconnected go on waiting. *)
Theorem deregisterRunner_rejects_nobody (ops : list brokerOp) (runnerId error : string) :
  let b := brokerSteps ops in
  let b' := (deregisterRunner runnerId error b).1 in
  jobs b' = jobs b ∧ runnerAcceptRejects b' = runnerAcceptRejects b.
Proof.
  simpl. pose proof (brokerSteps_inv ops) as Hb. revert Hb. generalize (brokerSteps ops). intros b Hb.
  unfold deregisterRunner. simpl.
  set (acc := (setPendingTaskOffers _ _, @nil Message)).
  assert (∀ task, task ∈ (tasks b).*2 → tk_id task ∉ runnerAcceptRejects acc.1) as Hids.
  { intros task ([t task'] & -> & Hin)%list_elem_of_fmap. by apply (task_no_callbacks t task' b). }
  change (jobs b) with (jobs acc.1). change (runnerAcceptRejects b) with (runnerAcceptRejects acc.1).
  revert Hids. generalize acc. generalize (tasks b).*2. clear. intros l.
  induction l as [|task l IH]; intros acc Hids; simpl; [done|].
  destruct (failRunnerTask_fields runnerId error acc task) as [E1 E2]; [apply Hids; by left|].
  destruct (IH (failRunnerTask runnerId error acc task)) as [E3 E4];
    [intros task' Hin; rewrite E2; apply Hids; by right|]. by rewrite E3, E4, E1, E2.
Qed.

(** *** Concrete runs *)

Definition aRunner : TaskRunner := {| tr_id := "r"; tr_taskTypes := ["javascript"] |}.

(** A requester asks for a task and a runner offers to execute it. *)
Definition matchOps : list brokerOp :=
  [RegisterRunner aRunner; RegisterRequester "q"; FromRequesterOp "q" (RequesterTaskRequest "req" "javascript") 0;
   FromRunnerOp "r" (RunnerTaskOffer "offer" "javascript" 5000) 0].

(** The request timer has number 0, the request object 1 and the task 2. *)
Definition servedOps : list brokerOp :=
  matchOps ++ [FromRunnerOp "r" (RunnerTaskAccepted 2) 0; ResumeRunner 2;
               FromRequesterOp "q" (RequesterTaskSettings 2 "code") 0; ResumeRequester 2].

Definition servedTask : Task :=
  {| tk_id := 2; tk_runnerId := "r"; tk_requesterId := "q"; tk_taskType := "javascript"; tk_timeout := Some 3 |}.

Lemma request_served_once_witness :
  ∃ j r, map_get 2 (jobs (brokerSteps servedOps)) = Some j ∧
    map_get (jb_request j) (requests (brokerSteps servedOps)) = Some r ∧ rq_taskType r = "javascript".
Proof.
  destruct (request_served_once servedOps 2 servedTask) as (j & r & Hj & Hr & Hty & _); [by vm_compute|].
  exists j, r. split; [exact Hj|]. split; [exact Hr|]. symmetry. exact Hty.
Defined.

(** When a request times out while the runner is being asked, and the runner accepts, the
    requester is told that the request has expired, but the task is registered all the
    same: nobody sends its settings, and it stays active. *)
Definition orphanOps : list brokerOp :=
  matchOps ++ [FireTimer "internal" 0; FromRunnerOp "r" (RunnerTaskAccepted 2) 0].

Theorem expired_request_leaves_task :
  let b := brokerSteps orphanOps in
  (brokerStep (FireTimer "internal" 0) (brokerSteps matchOps)).2 = [RequesterMessage "q" (RequestExpired "req" "timeout")] ∧
  (brokerStep (ResumeRunner 2) b).2 = [] ∧ hasActiveTasks (brokerStep (ResumeRunner 2) b).1 = true ∧
  timers (brokerStep (ResumeRunner 2) b).1 = [] ∧
  (jb_phase <$> map_get 2 (jobs (brokerStep (ResumeRunner 2) b).1)) = Some Returned.
Proof. by vm_compute. Qed.

(** [handleResponse] sends the data to a runner with the id of the requester, so it
    never reaches the runner of the task. *)
Theorem handleResponse_wrong_party :
  let b := brokerSteps servedOps in
  map_get 2 (tasks b) = Some servedTask ∧ handleResponse 2 "x" "data" b = [].
Proof. by vm_compute. Qed.
