(* ===== verification/TaskMatching.v ===== *)
(** * Matching offers with requests

    [settleTasks] of the task broker: what it takes from the pending offers, whom it
    asks, and that it leaves nothing that could be matched. *)

From S2P Require Import Prelude JsCollections TaskBroker TaskBrokerSafety.

(** The loop over the requests [l] led from [b] to [b'] and started the calls [new] of
    [acceptOffer]. *)
Record matched (l : list nat) (b b' : Broker) (new : list (nat * Job)) : Prop := {
  ma_jobs : jobs b' = jobs b ++ new;
  ma_offers : pendingTaskOffers b ≡ₚ pendingTaskOffers b' ++ (jb_offer <$> new.*2);
  ma_new : ∀ j, j ∈ new.*2 → jb_request j ∈ l ∧ ∃ r, map_get (jb_request j) (requests b) = Some r ∧
    rq_acceptInProgress r = false ∧ to_taskType (jb_offer j) = rq_taskType r;
  ma_requests : ∀ ref r', map_get ref (requests b') = Some r' → ∃ r, map_get ref (requests b) = Some r ∧
    rq_taskType r' = rq_taskType r ∧ (rq_acceptInProgress r' = false → rq_acceptInProgress r = false);
  ma_left : ∀ ref r' o, ref ∈ l → map_get ref (requests b') = Some r' → rq_acceptInProgress r' = false →
    o ∈ pendingTaskOffers b' → to_taskType o ≠ rq_taskType r';
  ma_runners : knownRunners b' = knownRunners b;
}.

(** The messages to the runners whose offers are taken *)
Definition asks (b : Broker) (new : list (nat * Job)) : list Message :=
  new ≫= λ call, messageRunner (to_runnerId (jb_offer call.2)) (TaskOfferAccept (to_offerId (jb_offer call.2)) call.1) b.

Lemma matched_trans l1 l2 b1 b2 b3 new1 new2 :
  matched l1 b1 b2 new1 → matched l2 b2 b3 new2 → matched (l1 ++ l2) b1 b3 (new1 ++ new2).
Proof.
  intros [J1 O1 N1 R1 L1 K1] [J2 O2 N2 R2 L2 K2]. split.
  - by rewrite J2, J1, app_assoc.
  - rewrite O1, O2, !fmap_app. rewrite <- app_assoc. f_equiv. apply Permutation_app_comm.
  - intros j. rewrite fmap_app, elem_of_app. intros [(Hl & r & Hr & Hp & Hty)%N1|(Hl & r & Hr & Hp & Hty)%N2].
    + split; [set_solver|eauto].
    + destruct (R1 _ _ Hr) as (r0 & Hr0 & Hty0 & Hp0). split; [set_solver|].
      exists r0. split_and!; [done|auto|congruence].
  - intros ref r3 (r2 & Hr2 & Hty2 & Hp2)%R2. apply R1 in Hr2 as (r1 & Hr1 & Hty1 & Hp1).
    exists r1. split_and!; [done|congruence|auto].
  - intros ref r3 o Hl Hr3 Hp3 Ho. apply elem_of_app in Hl as [Hl|Hl]; [|by eapply L2].
    destruct (R2 _ _ Hr3) as (r2 & Hr2 & Hty & Hp). rewrite Hty. eapply L1; [done|done|auto|].
    rewrite O2. set_solver.
  - congruence.
Qed.

Lemma asks_app b1 b2 new1 new2 :
  knownRunners b2 = knownRunners b1 → asks b1 new1 ++ asks b2 new2 = asks b1 (new1 ++ new2).
Proof.
  intros HK. unfold asks. rewrite bind_app. f_equal. unfold messageRunner. by rewrite HK.
Qed.

Lemma matched_skip ref b b' :
  jobs b' = jobs b → pendingTaskOffers b' = pendingTaskOffers b → requests b' = requests b →
  knownRunners b' = knownRunners b →
  (∀ r o, map_get ref (requests b) = Some r → rq_acceptInProgress r = false →
    o ∈ pendingTaskOffers b → to_taskType o ≠ rq_taskType r) →
  matched [ref] b b' [].
Proof.
  intros HJ HO HR HK HL. split; rewrite ?HJ, ?HO, ?HR, ?app_nil_r; try done; [set_solver|eauto|].
  intros ref' r' o ->%list_elem_of_singleton. apply HL.
Qed.

Lemma spliceOffer_None taskType l o : spliceOffer taskType l = None → o ∈ l → to_taskType o ≠ taskType.
Proof.
  induction l as [|o' l IH]; simpl; [set_solver|]. case_bools; [done|].
  intros Hn%fmap_None. rewrite elem_of_cons. intros [->|Hin]; auto.
Qed.

Lemma settleRequest_matched ref b messages b' messages' :
  brokerInv b → settleRequest (b, messages) ref = (b', messages') → ∃ new,
    matched [ref] b b' new ∧ messages' = messages ++ asks b new.
Proof.
  intros Hb. simpl. destruct (map_get ref (requests b)) as [r|] eqn:Hr.
  2: { intros [= <- <-]. exists []. rewrite app_nil_r. split; [apply matched_skip; [done..|congruence]|done]. }
  destruct (rq_acceptInProgress r) eqn:Hp.
  { intros [= <- <-]. exists []. rewrite app_nil_r. split; [apply matched_skip; [done..|congruence]|done]. }
  destruct (spliceOffer _ _) as [[offer rest]|] eqn:Hs.
  - apply spliceOffer_Some in Hs as (Hty & before & after & Hoff & ->). unfold updateRequest. rewrite Hr.
    assert (map_get (next b) (jobs b) = None) as Hfresh.
    { destruct (map_get (next b) (jobs b)) as [j|] eqn:E; [|done]. apply (bi_jobs_fresh b Hb) in E. lia. }
    simpl. intros [= <- <-].
    exists [(next b, {| jb_offer := offer; jb_request := ref; jb_phase := AwaitRunner RunnerPending |})].
    split; [|unfold asks; simpl; by rewrite app_nil_r]. split; simpl.
    + by apply map_set_fresh, map_get_None.
    + rewrite Hoff. rewrite <- app_assoc. f_equiv. apply Permutation_cons_append.
    + intros j ->%list_elem_of_singleton. simpl. split; [set_solver|eauto].
    + intros ref' r'. rewrite map_get_set. case_bools; [|eauto]. intros [= <-]. subst. eauto.
    + intros ref' r' o ->%list_elem_of_singleton. rewrite map_get_set_eq. by intros [= <-].
    + done.
  - intros [= <- <-]. exists []. rewrite app_nil_r. split; [|done]. unfold warnOnTaskTypeMismatch.
    apply matched_skip; try (by case_bools; try done; destruct (set_has _ _)).
    intros r' o Hr' _ Ho. rewrite Hr in Hr'. simplify_eq. by eapply spliceOffer_None.
Qed.

Lemma settleLoop_matched l b messages b' messages' :
  brokerInv b → foldl settleRequest (b, messages) l = (b', messages') → ∃ new,
    matched l b b' new ∧ messages' = messages ++ asks b new.
Proof.
  revert b messages. induction l as [|ref l IH]; intros b messages Hb.
  - intros [= <- <-]. exists []. rewrite app_nil_r. split; [|done]. split; rewrite ?app_nil_r; try done; set_solver.
  - change (foldl settleRequest (b, messages) (ref :: l))
      with (foldl settleRequest (settleRequest (b, messages) ref) l).
    pose proof (settleRequest_inv (b, messages) ref Hb) as Hb1.
    destruct (settleRequest (b, messages) ref) as [b1 messages1] eqn:E1.
    apply settleRequest_matched in E1 as (new1 & Hm1 & ->); [|done].
    intros (new2 & Hm2 & ->)%IH; [|done]. exists (new1 ++ new2).
    split; [by apply (matched_trans [ref] l b b1)|].
    rewrite <- app_assoc. f_equal. apply asks_app. by apply (ma_runners _ _ _ _ Hm1).
Qed.

(** Offers and requests are matched exhaustively.  [settleTasks] drops the expired
    offers and divides the others: some are taken by new calls, each for a pending
    request of the same type that nobody served, and the runner of each of them is asked;
    the others stay, and none of them has the type of a pending request that is still
    unserved. *)
Theorem settleTasks_matches (ops : list brokerOp) (now : Z) :
  let b := brokerSteps ops in
  let '(b', sent) := settleTasks now b in
  ∃ new, jobs b' = jobs b ++ new ∧ sent = asks b new ∧
    filter (λ o, expired now o = false) (pendingTaskOffers b) ≡ₚ pendingTaskOffers b' ++ (jb_offer <$> new.*2) ∧
    (∀ j, j ∈ new.*2 → jb_request j ∈ pendingTaskRequests b ∧ ∃ r, map_get (jb_request j) (requests b) = Some r ∧
      rq_acceptInProgress r = false ∧ to_taskType (jb_offer j) = rq_taskType r) ∧
    (∀ ref r o, ref ∈ pendingTaskRequests b → map_get ref (requests b') = Some r → rq_acceptInProgress r = false →
      o ∈ pendingTaskOffers b' → to_taskType o ≠ rq_taskType r).
Proof.
  simpl. pose proof (brokerSteps_inv ops) as Hb. revert Hb. generalize (brokerSteps ops). intros b Hb.
  unfold settleTasks. destruct (foldl _ _ _) as [b' sent] eqn:E.
  apply settleLoop_matched in E as (new & [J O N R L K] & ->); [|revert Hb; by apply brokerInv_ext].
  exists new. by split_and!.
Qed.
