(* ===== verification/WorkflowDiff.v ===== *)
(** * Differences between versions of a workflow

    Model of [packages/workflow/src/workflow-diff.ts] and [connections-diff.ts]: which
    nodes and connections changed between two versions, and which versions of a history
    can be dropped because a later one contains everything they contain.

    [isEqual] of lodash and [JSON.stringify] are parameters.  Strings are compared
    character by character, as lists. *)

From S2P Require Import Prelude JsCollections NodeTypes.

Record DiffableWorkflow := {
  dw_nodes : list INode;
  dw_connections : IConnections;
  dw_createdAt : Z;
  dw_authors : option string;
}.

Inductive NodeDiffStatus := Eq | Modified | Added | Deleted.

#[global] Instance NodeDiffStatus_eq_dec : EqDecision NodeDiffStatus.
Proof. solve_decision. Defined.

Record NodeDiff := {
  nd_status : NodeDiffStatus;
  nd_node : INode;
}.

Abbreviation WorkflowDiff := (jsmap string NodeDiff) (only parsing).

(** ** Nodes *)

(** [array.reduce((acc, node) => acc.set(node.id, node), new Map())] *)
Definition nodesById (nodes : list INode) : jsmap string INode :=
  foldl (λ acc node, map_set (node_id node) node acc) [] nodes.

Definition compareWorkflowsNodes (nodesEqual : option INode → option INode → bool)
    (base target : list INode) : WorkflowDiff :=
  let baseNodes := nodesById base in
  let targetNodes := nodesById target in
  let diff := foldl (λ diff entry,
    let '(id, node) := entry in
    map_set id
      {| nd_status := if negb (map_has id targetNodes) then Deleted
                      else if negb (nodesEqual (map_get id baseNodes) (map_get id targetNodes)) then Modified
                      else Eq;
         nd_node := node |} diff) [] baseNodes in
  foldl (λ diff entry,
    let '(id, node) := entry in
    if negb (map_has id baseNodes) then map_set id {| nd_status := Added; nd_node := node |} diff else diff)
    diff targetNodes.

(** [pick(node, propsToCompare)] *)
Definition propsToCompare : list string := ["name"; "type"; "typeVersion"; "webhookId"; "credentials"; "parameters"].

Definition pickProps (node : option INode) : json :=
  match node with
  | None => JObj []
  | Some node =>
      JObj ([("name", JStr (node_name node)); ("type", JStr (node_type node));
             ("typeVersion", JNum (node_typeVersion node)); ("parameters", JObj (node_parameters node))] ++
            filter (λ entry, entry.1 ∈ propsToCompare) (node_rest node))
  end.

Section compare.
Context (isEqual : json → json → bool).

Definition compareNodes (base target : option INode) : bool := isEqual (pickProps base) (pickProps target).
End compare.

(** ** Connections *)

Record ConnectionEntry := {
  ce_sourceIndex : nat;
  ce_index : nat;
  ce_connection : IConnection;
}.

Abbreviation ConnectionsDiffSide := (jsobj (jsobj (list ConnectionEntry))) (only parsing).

Record ConnectionsDiff := {
  cd_added : ConnectionsDiffSide;
  cd_removed : ConnectionsDiffSide;
}.

Section connections.
Context (stringify : IConnection → string).

(** The connections by their text; of equal ones the position of the last is kept. *)
Definition connectionsMap (l : list IConnection) : jsmap string (nat * IConnection) :=
  foldl (λ m entry, map_set (stringify entry.2) entry m) [] (imap pair l).

(** [if (!side[nodeName]) ...; if (!side[nodeName][inputName]) ...; push(entry)] *)
Definition pushConnection (nodeName inputName : string) (entry : ConnectionEntry) (side : ConnectionsDiffSide)
    : ConnectionsDiffSide :=
  let inputs := default [] (obj_get nodeName side) in
  let entries := default [] (obj_get inputName inputs) in
  obj_set nodeName (obj_set inputName (entries ++ [entry]) inputs) side.

(** The loop over [present]: what [absent] lacks is pushed. *)
Definition pushMissing (nodeName inputName : string) (sourceIndex : nat)
    (present absent : jsmap string (nat * IConnection)) (side : ConnectionsDiffSide) : ConnectionsDiffSide :=
  foldl (λ side entry,
    let '(key, (index, connection)) := entry in
    if map_has key absent then side
    else pushConnection nodeName inputName
           {| ce_sourceIndex := sourceIndex; ce_index := index; ce_connection := connection |} side)
    side present.

(** [connections[sourceIndex] ?? []] *)
Definition connectionsAt (sourceIndex : nat) (l : NodeInputConnections) : list IConnection :=
  default [] (mjoin (l !! sourceIndex)).

Definition compareIndex (nodeName inputName : string) (prev next : NodeInputConnections)
    (diff : ConnectionsDiff) (sourceIndex : nat) : ConnectionsDiff :=
  let prevMap := connectionsMap (connectionsAt sourceIndex prev) in
  let nextMap := connectionsMap (connectionsAt sourceIndex next) in
  {| cd_added := pushMissing nodeName inputName sourceIndex nextMap prevMap (cd_added diff);
     cd_removed := pushMissing nodeName inputName sourceIndex prevMap nextMap (cd_removed diff) |}.

Definition compareInput (nodeName : string) (prev next : INodeConnections) (diff : ConnectionsDiff)
    (inputName : string) : ConnectionsDiff :=
  let prevInput := default [] (obj_get inputName prev) in
  let nextInput := default [] (obj_get inputName next) in
  foldl (compareIndex nodeName inputName prevInput nextInput) diff
    (seq 0 (length prevInput `max` length nextInput)).

Definition compareNodeConnections (prev next : IConnections) (diff : ConnectionsDiff) (nodeName : string)
    : ConnectionsDiff :=
  let prevNode := default [] (obj_get nodeName prev) in
  let nextNode := default [] (obj_get nodeName next) in
  foldl (compareInput nodeName prevNode nextNode) diff (set_of_list (prevNode.*1 ++ nextNode.*1)).

Definition compareConnections (prev next : IConnections) : ConnectionsDiff :=
  foldl (compareNodeConnections prev next) {| cd_added := []; cd_removed := [] |}
    (set_of_list (prev.*1 ++ next.*1)).
End connections.

(** ** Parameters *)

(** The loop of [stringContainsParts] from position [i] on *)
Fixpoint containsLoop (diffSize : Z) (substr : list Ascii.ascii) (i : Z) (marker : nat) (s : list Ascii.ascii)
    : bool :=
  match s with
  | [] => bool_decide (length substr ≤ marker)
  | c :: s =>
      let marker := if bool_decide (substr !! marker = Some c) then S marker else marker in
      if bool_decide (i - Z.of_nat marker > diffSize)%Z then false
      else containsLoop diffSize substr (i + 1) marker s
  end.

Definition stringContainsParts (s substr : list Ascii.ascii) : bool :=
  if bool_decide (length s < length substr) then false
  else containsLoop (Z.of_nat (length s) - Z.of_nat (length substr)) substr 0 0 s.

Definition typeof (v : json) : string :=
  match v with
  | JNull | JArr _ | JObj _ => "object"
  | JBool _ => "boolean"
  | JNum _ => "number"
  | JStr _ => "string"
  end.

(** The own properties of an object or an array *)
Definition ownProperties (v : json) : list (string * json) :=
  match v with
  | JObj o => o
  | JArr l => imap (λ i v, (pretty i, v)) l
  | _ => []
  end.

Fixpoint parametersAreSuperset (prev next : json) {struct prev} : bool :=
  let every := fix every (l l' : list json) : bool :=
    match l, l' with
    | [], _ => true
    | v :: l, v' :: l' => parametersAreSuperset v v' && every l l'
    | _ :: _, [] => false
    end in
  let everyKey := fix everyKey (o : list (string * json)) (next : list (string * json)) : bool :=
    match o with
    | [] => true
    | (key, v) :: o =>
        match obj_get key next with
        | Some v' => parametersAreSuperset v v'
        | None => false
        end && everyKey o next
    end in
  if negb (bool_decide (typeof prev = typeof next)) then false
  else match prev, next with
  | JStr prev, JStr next =>
      stringContainsParts (String.list_ascii_of_string next) (String.list_ascii_of_string prev)
  | JBool prev, JBool next => bool_decide (prev = next)
  | JNum prev, JNum next => SFeqb prev next
  | JNull, JNull => true
  | JArr prev, JArr next => bool_decide (length prev = length next) && every prev next
  | JObj prev, (JObj _ | JArr _) =>
      bool_decide (length prev = length (ownProperties next)) &&
      forallb (λ key, obj_has key (ownProperties next)) prev.*1 && everyKey prev (ownProperties next)
  | _, _ => false
  end.

(** *** Size *)

Fixpoint determineNodeSize (parameters : json) : nat :=
  let sumList := fix sumList (acc : nat) (l : list json) : nat :=
    match l with [] => acc | v :: l => sumList (acc + determineNodeSize v) l end in
  let sumObj := fix sumObj (acc : nat) (o : list (string * json)) : nat :=
    match o with [] => acc | (_, v) :: o => sumObj (acc + determineNodeSize v) o end in
  if negb (truthy parameters) then 1
  else match parameters with
  | JStr s => String.length s
  | JArr l => sumList 1 l
  | JObj o => sumObj 1 o
  | _ => 1
  end.

Definition determineNodeParametersSize (w : DiffableWorkflow) : nat :=
  foldl (λ acc x, acc + determineNodeSize (JObj (node_parameters x))) 0 (dw_nodes w).

(** ** Rules *)

Record WorkflowChangeSet := {
  cs_nodes : WorkflowDiff;
  cs_connections : ConnectionsDiff;
}.

Record DiffMetaData := { md_workflowSizeScore : option nat }.

Abbreviation DiffRule := (DiffableWorkflow → DiffableWorkflow → WorkflowChangeSet → DiffMetaData → res bool)
  (only parsing).

Section rules.
Context (isEqual : json → json → bool) (stringify : IConnection → string).

(** [same] tells whether both are the same object. *)
Definition newWorkflowChangeSet (same : bool) (from to : DiffableWorkflow) : WorkflowChangeSet :=
  if same then
    {| cs_nodes := foldl (λ m node, map_set (node_id node) {| nd_status := Eq; nd_node := node |} m) []
                     (dw_nodes from);
       cs_connections := {| cd_added := []; cd_removed := [] |} |}
  else
    {| cs_nodes := compareWorkflowsNodes (compareNodes isEqual) (dw_nodes from) (dw_nodes to);
       cs_connections := compareConnections stringify (dw_connections from) (dw_connections to) |}.

Definition withoutParameters (n : INode) : INode :=
  {| node_ref := node_ref n; node_id := node_id n; node_name := node_name n;
     node_typeVersion := node_typeVersion n; node_type := node_type n; node_position := node_position n;
     node_disabled := node_disabled n; node_retryOnFail := node_retryOnFail n;
     node_maxTries := node_maxTries n; node_waitBetweenTries := node_waitBetweenTries n;
     node_alwaysOutputData := node_alwaysOutputData n; node_executeOnce := node_executeOnce n;
     node_onError := node_onError n; node_continueOnFail := node_continueOnFail n;
     node_parameters := []; node_rewireOutputLogTo := node_rewireOutputLogTo n; node_rest := node_rest n |}.

Definition nodeIsSuperset (prevNode nextNode : INode) : bool :=
  if negb (compareNodes isEqual (Some (withoutParameters prevNode)) (Some (withoutParameters nextNode)))
  then false
  else parametersAreSuperset (JObj (node_parameters prevNode)) (JObj (node_parameters nextNode)).

(** The loop of [mergeAdditiveChanges] *)
Fixpoint onlyAdditive (next : DiffableWorkflow) (l : list NodeDiff) : res bool :=
  match l with
  | [] => Ok true
  | d :: l =>
      match nd_status d with
      | Deleted => Ok false
      | Added => onlyAdditive next l
      | status =>
          match List.find (λ x, bool_decide (node_id x = node_id (nd_node d))) (dw_nodes next) with
          | None => Throw (NodeError "invariant broken - no next node")
          | Some nextNode =>
              if bool_decide (status = Modified) && negb (nodeIsSuperset (nd_node d) nextNode) then Ok false
              else onlyAdditive next l
          end
      end
  end.

Definition mergeAdditiveChanges (_prev next : DiffableWorkflow) (diff : WorkflowChangeSet) (_ : DiffMetaData)
    : res bool :=
  nodesOk ← onlyAdditive next (cs_nodes diff).*2;
  if negb nodesOk then Ok false
  else Ok (bool_decide (length (cd_removed (cs_connections diff)) = 0)).

Definition timeDifference (prev next : DiffableWorkflow) : Z := (dw_createdAt next - dw_createdAt prev)%Z.

Definition makeSkipTimeDifference (timeDiffMs : Z) (prev next : DiffableWorkflow) : bool :=
  bool_decide (timeDiffMs < Z.abs (timeDifference prev next))%Z.

Definition makeMergeShortTimeSpan (timeDiffMs : Z) (prev next : DiffableWorkflow) : bool :=
  bool_decide (Z.abs (timeDifference prev next) < timeDiffMs)%Z.

(** The loop of the size rule over the pairs of a minimal size and a time *)
Fixpoint sizeRule (pairs : list (nat * Z)) (score : nat) (prev next : DiffableWorkflow) : bool :=
  match pairs with
  | [] => false
  | (count, time) :: pairs =>
      if bool_decide (count < score) then makeMergeShortTimeSpan time prev next
      else sizeRule pairs score prev next
  end.

Definition makeMergeDependingOnSizeRule (mapping : jsmap nat Z) (prev next : DiffableWorkflow)
    (_ : WorkflowChangeSet) (metaData : DiffMetaData) : res bool :=
  let pairs := array_sort (λ a b : nat * Z, (Z.of_nat b.1 - Z.of_nat a.1)%Z) mapping in
  match md_workflowSizeScore metaData with
  | None => Ok false
  | Some score => Ok (sizeRule pairs score prev next)
  end.

Definition skipDifferentUsers (prev next : DiffableWorkflow) : bool :=
  negb (bool_decide (dw_authors next = dw_authors prev)).

(** ** Grouping *)

(** The first rule that holds *)
Fixpoint someRule (rules : list DiffRule) (prev next : DiffableWorkflow) (wcs : WorkflowChangeSet)
    (metaData : DiffMetaData) : res bool :=
  match rules with
  | [] => Ok false
  | rule :: rules =>
      holds ← rule prev next wcs metaData;
      if holds : bool then Ok true else someRule rules prev next wcs metaData
  end.

(** Whether the earlier version is merged into the later one *)
Definition merges (rules skipRules : list DiffRule) (metaData : DiffMetaData) (prev next : DiffableWorkflow)
    : res bool :=
  let wcs := newWorkflowChangeSet false prev next in
  skip ← someRule skipRules prev next wcs metaData;
  if skip : bool then Ok false else someRule rules prev next wcs metaData.

(** The loop [diffLoop] from index [i] down *)
Fixpoint diffLoop (rules skipRules : list DiffRule) (metaData : DiffMetaData) (i : nat)
    (remaining removed : list DiffableWorkflow) : res (list DiffableWorkflow * list DiffableWorkflow) :=
  match i with
  | 0 => Ok (removed, remaining)
  | S k =>
      prev ← deref (remaining !! k);
      next ← deref (remaining !! S k);
      merge ← merges rules skipRules metaData prev next;
      if merge : bool
      then diffLoop rules skipRules metaData k (delete k remaining) (removed ++ [prev])
      else diffLoop rules skipRules metaData k remaining removed
  end.

(** The versions removed and the versions that remain.  [withSize] is
    [metaDataFields?.workflowSizeScore]; the workflows are different objects. *)
Definition groupWorkflows (workflows : list DiffableWorkflow) (rules skipRules : list DiffRule) (withSize : bool)
    : res (list DiffableWorkflow * list DiffableWorkflow) :=
  match workflows with
  | [] => Ok ([], [])
  | [w] => Ok ([], [w])
  | _ =>
      metaData ← (if withSize then
        middle ← deref (workflows !! Nat.div (length workflows) 2);
        latest ← deref (workflows !! (length workflows - 1));
        Ok {| md_workflowSizeScore :=
                Some (determineNodeParametersSize middle `max` determineNodeParametersSize latest) |}
        else Ok {| md_workflowSizeScore := None |});
      diffLoop rules skipRules metaData (length workflows - 1) workflows []
  end.

(** ** Changes *)

(** [connectionsEqual] is [isEqual] on connections. *)
Definition hasNonPositionalChanges (connectionsEqual : IConnections → IConnections → bool)
    (oldNodes newNodes : list INode) (oldConnections newConnections : IConnections) : bool :=
  let nodesDiff := compareWorkflowsNodes (compareNodes isEqual) oldNodes newNodes in
  existsb (λ d, negb (bool_decide (nd_status d = Eq))) nodesDiff.*2 ||
  negb (connectionsEqual oldConnections newConnections).
End rules.

(** [node.credentials], with the id of each credential *)
Definition credentialIds (credentials : INode → jsobj (option string)) (oldNode newNode : INode) : bool :=
  let oldCreds := credentials oldNode in
  let newCreds := credentials newNode in
  existsb (λ credType, negb (obj_has credType newCreds) ||
    negb (bool_decide (mjoin (obj_get credType oldCreds) = mjoin (obj_get credType newCreds)))) oldCreds.*1 ||
  existsb (λ credType, negb (obj_has credType oldCreds)) newCreds.*1.

Definition hasCredentialChanges (credentials : INode → jsobj (option string)) (oldNodes newNodes : list INode)
    : bool :=
  let newNodesMap := nodesById newNodes in
  existsb (λ oldNode,
    match map_get (node_id oldNode) newNodesMap with
    | None => false
    | Some newNode => credentialIds credentials oldNode newNode
    end) oldNodes.
