(* ===== verification/WorkflowHistory.v ===== *)
(** * Versions of a workflow: theorems

    What [workflow-diff.ts] reports and which versions it drops. *)

From stdpp Require Import countable.
From S2P Require Import Prelude JsCollections NodeTypes DirectedGraph Fixtures WorkflowDiff.

(** ** Parts of a string *)

(** The greedy match of the characters of [l] in [s] *)
Fixpoint matchesIn (l s : list Ascii.ascii) : bool :=
  match l, s with
  | [], _ => true
  | _ :: _, [] => false
  | x :: l', c :: s => if bool_decide (x = c) then matchesIn l' s else matchesIn l s
  end.

Lemma matchesIn_sublist l s : matchesIn l s = true ↔ l `sublist_of` s.
Proof.
  revert l. induction s as [|c s IH]; intros [|x l]; simpl.
  - split; [intros; constructor|done].
  - split; [done|]. intros H%sublist_length. simpl in H. lia.
  - split; [intros; apply sublist_nil_l|done].
  - case_bools; subst.
    + rewrite IH. split; [apply sublist_skip|]. intros Hs. inversion Hs; subst; [done|].
      etrans; [|done]. by apply sublist_cons.
    + rewrite IH. split; [apply sublist_cons|]. intros Hs. inversion Hs; subst; done.
Qed.

Lemma matchesIn_length l s : length s < length l → matchesIn l s = false.
Proof.
  intros Hlen. destruct (matchesIn l s) eqn:E; [|done].
  apply matchesIn_sublist, sublist_length in E. lia.
Qed.

Lemma containsLoop_matchesIn n substr i marker s :
  (Z.of_nat n = i + Z.of_nat (length s))%Z → marker ≤ length substr →
  containsLoop (Z.of_nat n - Z.of_nat (length substr)) substr i marker s = matchesIn (drop marker substr) s.
Proof.
  revert i marker. induction s as [|c s IH]; intros i marker Hn Hm; simpl.
  - destruct (drop marker substr) as [|x l] eqn:E; case_bools; try done; exfalso;
      apply (f_equal length) in E; rewrite length_drop in E; simpl in E; lia.
  - simpl in Hn. destruct (substr !! marker) as [x|] eqn:Hx.
    + rewrite (drop_S _ x) by done. pose proof (lookup_lt_Some _ _ _ Hx) as Hlt. simpl.
      destruct (bool_decide_reflect (x = c)) as [->|Hne].
      * rewrite (bool_decide_true (Some c = Some c)) by done. case_bools; [|apply IH; lia].
        rewrite matchesIn_length; [done|]. rewrite length_drop. lia.
      * rewrite (bool_decide_false (Some x = Some c)) by congruence. case_bools.
        -- rewrite matchesIn_length; [done|]. simpl. rewrite length_drop. lia.
        -- rewrite IH by lia. by rewrite (drop_S _ x).
    + rewrite (bool_decide_false (None = Some c)) by done. apply lookup_ge_None in Hx.
      rewrite drop_ge by done. simpl. case_bools; [lia|]. rewrite IH by lia. rewrite drop_ge by lia. by destruct s.
Qed.

Lemma stringContainsParts_matches s substr : stringContainsParts s substr = matchesIn substr s.
Proof.
  unfold stringContainsParts. case_bools; [by rewrite matchesIn_length|].
  rewrite containsLoop_matchesIn by (simpl; lia). by rewrite drop_0.
Qed.

(** a string contains the parts of another.  The single pass with its early exit
    decides whether the characters of [substr] occur in [s] in the same order. *)
Theorem stringContainsParts_sublist (s substr : list Ascii.ascii) :
  stringContainsParts s substr = true ↔ substr `sublist_of` s.
Proof. by rewrite stringContainsParts_matches, matchesIn_sublist. Qed.

(** A comment in the code gives "abcd" as an example that is not contained in "abcde". *)
Theorem stringContainsParts_comment_example :
  stringContainsParts (String.list_ascii_of_string "abcde") (String.list_ascii_of_string "abcd") = true.
Proof. done. Qed.

(** ** Grouping *)

Section grouping.
Context (isEqual : json → json → bool) (stringify : IConnection → string).
Context (rules skipRules : list DiffRule) (metaData : DiffMetaData).
Abbreviation mergesInto := (merges isEqual stringify rules skipRules metaData) (only parsing).

(** What the loop from index [i] down makes of the first [i] versions *)
Definition grouped (i : nat) (before removed remaining dropped : list DiffableWorkflow) : Prop :=
  ∃ kept, remaining = kept ++ drop i before ∧ kept `sublist_of` take i before ∧
    dropped ++ kept ≡ₚ take i before ∧
    (∀ w, w ∈ dropped → ∃ next, next ∈ remaining ∧ mergesInto w next = Ok true) ∧
    ∀ j prev next, j < length kept → remaining !! j = Some prev → remaining !! S j = Some next →
      mergesInto prev next = Ok false.

Lemma diffLoop_grouped i before removed0 removed remaining :
  i < length before →
  diffLoop isEqual stringify rules skipRules metaData i before removed0 = Ok (removed, remaining) →
  ∃ dropped, removed = removed0 ++ dropped ∧ grouped i before removed remaining dropped.
Proof.
  revert before removed0. induction i as [|k IH]; intros before removed0 Hi; simpl.
  { intros [= <- <-]. exists []. rewrite app_nil_r. split; [done|]. exists [].
    rewrite drop_0, take_0. split_and!; [done|constructor|done|set_solver|simpl; lia]. }
  destruct (lookup_lt_is_Some_2 before k) as [prev Hprev]; [lia|].
  destruct (lookup_lt_is_Some_2 before (S k)) as [next Hnext]; [lia|]. rewrite Hprev, Hnext. simpl.
  destruct (mergesInto prev next) as [[]|e|] eqn:Hm; simpl; [| |done|done].
  - intros (dropped & -> & kept & -> & Hsub & Hperm & Hall & Hpairs)%IH; [|rewrite length_delete; [lia|done]].
    assert (drop k (delete k before) = drop (S k) before) as Hd.
    { by rewrite delete_take_drop, drop_app_length' by (rewrite length_take; lia). }
    assert (take k (delete k before) = take k before) as Ht.
    { by rewrite delete_take_drop, take_app_length' by (rewrite length_take; lia). }
    rewrite Hd, Ht in *. exists (prev :: dropped). rewrite <- app_assoc. split; [done|]. exists kept.
    rewrite (take_S_r _ _ prev) by done. split_and!; [done| | | |done].
    + by apply sublist_inserts_r.
    + simpl. rewrite Hperm. apply Permutation_cons_append.
    + intros w [->|Hin]%elem_of_cons; [|by apply Hall]. exists next. split; [|done].
      apply elem_of_app. right. rewrite (drop_S _ next) by done. by left.
  - intros (dropped & -> & kept & -> & Hsub & Hperm & Hall & Hpairs)%IH; [|lia]. exists dropped. split; [done|].
    exists (kept ++ [prev]). rewrite (take_S_r _ _ prev) by done. rewrite (drop_S _ prev) in * by done.
    rewrite <- app_assoc. split_and!; [done|by apply sublist_app| |done|].
    { rewrite app_assoc. by rewrite Hperm. }
    intros j prev' next' Hj. rewrite length_app in Hj. simpl in Hj.
    destruct (decide (j < length kept)); [by apply Hpairs|]. assert (j = length kept) as -> by lia.
    rewrite lookup_app_r, Nat.sub_diag by lia. rewrite lookup_app_r by lia.
    replace (S (length kept) - length kept) with 1 by lia. simpl. rewrite (drop_S _ next) by done. simpl. congruence.
Qed.

(** A rule asks for merging the earlier version into the later one and no skip rule forbids it. *)
Definition mergeable (prev next : DiffableWorkflow) : Prop :=
  let wcs := newWorkflowChangeSet isEqual stringify false prev next in
  (∃ rule, rule ∈ rules ∧ rule prev next wcs metaData = Ok true) ∧
  ∀ rule, rule ∈ skipRules → rule prev next wcs metaData = Ok false.

Lemma someRule_spec l prev next wcs b :
  someRule l prev next wcs metaData = Ok b →
  if b then ∃ rule : DiffRule, rule ∈ l ∧ rule prev next wcs metaData = Ok true
  else ∀ rule : DiffRule, rule ∈ l → rule prev next wcs metaData = Ok false.
Proof.
  induction l as [|rule l IH]; simpl; [intros [= <-]; set_solver|].
  destruct (rule prev next wcs metaData) as [[]|e|] eqn:Hr; simpl; [|..|done|done].
  - intros [= <-]. exists rule. set_solver.
  - intros H%IH. destruct b; [destruct H as (r & ? & ?); exists r; set_solver|].
    intros r [->|Hin]%elem_of_cons; auto.
Qed.

Lemma merges_mergeable prev next b : mergesInto prev next = Ok b → if b then mergeable prev next else ¬ mergeable prev next.
Proof.
  unfold merges, mergeable. intros Hm. res_simpl. apply someRule_spec in E. destruct a.
  - injection Hm as <-. intros [_ Hskip]. destruct E as (rule & Hin & Hr). rewrite (Hskip rule Hin) in Hr. done.
  - apply someRule_spec in Hm. destruct b; [done|]. intros [(rule & Hin & Hr) _]. by rewrite (Hm rule Hin) in Hr.
Qed.

Lemma diffLoop_returns i before removed :
  i < length before → (∀ prev next, prev ∈ before → next ∈ before → is_ok (mergesInto prev next)) →
  is_ok (diffLoop isEqual stringify rules skipRules metaData i before removed).
Proof.
  revert before removed. induction i as [|k IH]; intros before removed Hi Hok; simpl; [by eexists|].
  destruct (lookup_lt_is_Some_2 before k) as [prev Hprev]; [lia|].
  destruct (lookup_lt_is_Some_2 before (S k)) as [next Hnext]; [lia|]. rewrite Hprev, Hnext. simpl.
  destruct (Hok prev next) as [b ->]; [by eapply list_elem_of_lookup_2..|]. simpl. destruct b.
  - apply IH; [rewrite length_delete; [lia|done]|]. intros p n Hp Hn.
    apply Hok; by eapply list_elem_of_delete_inv.
  - apply IH; [lia|done].
Qed.

Lemma someRule_returns l prev next wcs :
  (∀ rule : DiffRule, rule ∈ l → is_ok (rule prev next wcs metaData)) →
  is_ok (someRule l prev next wcs metaData).
Proof.
  induction l as [|rule l IH]; intros Hok; simpl; [by eexists|].
  destruct (Hok rule) as [b ->]; [by left|]. simpl. destruct b; [by eexists|].
  apply IH. intros rule' Hin. apply Hok. by right.
Qed.

Lemma merges_returns prev next :
  (∀ rule : DiffRule, rule ∈ rules ++ skipRules →
    is_ok (rule prev next (newWorkflowChangeSet isEqual stringify false prev next) metaData)) →
  is_ok (mergesInto prev next).
Proof.
  intros Hok. unfold merges.
  destruct (someRule_returns skipRules prev next (newWorkflowChangeSet isEqual stringify false prev next))
    as [[] ->]; [intros rule Hin; apply Hok; set_solver|by eexists|].
  simpl. apply someRule_returns. intros rule Hin. apply Hok. set_solver.
Qed.
End grouping.

(** The size of the history: the greater one of the version in the middle and the latest one *)
Definition historySize (withSize : bool) (ws : list DiffableWorkflow) : DiffMetaData :=
  let size w := from_option determineNodeParametersSize 0 w in
  {| md_workflowSizeScore := if withSize then Some (size (ws !! Nat.div (length ws) 2) `max` size (last ws)) else None |}.

Lemma groupWorkflows_loop isEqual stringify ws rules skipRules withSize :
  2 ≤ length ws → groupWorkflows isEqual stringify ws rules skipRules withSize =
    diffLoop isEqual stringify rules skipRules (historySize withSize ws) (length ws - 1) ws [].
Proof.
  intros Hlen. destruct ws as [|w1 [|w2 ws]]; simpl in Hlen; [lia|lia|]. unfold groupWorkflows, historySize.
  destruct withSize; [|done]. rewrite last_lookup.
  destruct (lookup_lt_is_Some_2 (w1 :: w2 :: ws) (Nat.div (length (w1 :: w2 :: ws)) 2)) as [m ->];
    [apply Nat.div_lt; simpl; lia|].
  replace (pred (length (w1 :: w2 :: ws))) with (length (w1 :: w2 :: ws) - 1) by lia.
  destruct (lookup_lt_is_Some_2 (w1 :: w2 :: ws) (length (w1 :: w2 :: ws) - 1)) as [l ->]; [simpl; lia|].
  done.
Qed.

(** C31: dropping versions of a history.  If the rules return, [groupWorkflows] returns and divides the versions: what
    remains is in the old order and ends with the latest version.  Every version that was removed can be merged into one
    that remains: some rule holds for the two, and no skip rule does.  No version that remains can be merged into the
    next one that remains.  The rules see the size of the history. *)
Theorem groupWorkflows_spec (isEqual : json → json → bool) (stringify : IConnection → string)
    (rules skipRules : list DiffRule) (withSize : bool) (ws : list DiffableWorkflow) :
  let canMerge := mergeable isEqual stringify rules skipRules (historySize withSize ws) in
  (∀ rule prev next md, rule ∈ rules ++ skipRules → prev ∈ ws → next ∈ ws →
    is_ok (rule prev next (newWorkflowChangeSet isEqual stringify false prev next) md)) →
  ∃ removed remaining, groupWorkflows isEqual stringify ws rules skipRules withSize = Ok (removed, remaining) ∧
    removed ++ remaining ≡ₚ ws ∧ remaining `sublist_of` ws ∧ last remaining = last ws ∧
    (∀ w, w ∈ removed → ∃ next, next ∈ remaining ∧ canMerge w next) ∧
    ∀ j prev next, remaining !! j = Some prev → remaining !! S j = Some next → ¬ canMerge prev next.
Proof.
  intros canMerge Hok. destruct (decide (2 ≤ length ws)) as [Hlen|Hlen].
  - rewrite groupWorkflows_loop by done. subst canMerge. set (md := historySize withSize ws).
    destruct (diffLoop_returns isEqual stringify rules skipRules md (length ws - 1) ws []) as [[removed remaining] E];
      [lia|intros; apply merges_returns; auto|]. rewrite E.
    apply diffLoop_grouped in E as (dropped & -> & kept & -> & Hsub & Hperm & Hall & Hpairs); [|lia].
    exists dropped, (kept ++ drop (length ws - 1) ws). split; [done|]. rewrite app_assoc, Hperm, take_drop.
    split_and!; [done|..].
    + etrans; [by apply sublist_app|]. by rewrite take_drop.
    + transitivity (last (take (length ws - 1) ws ++ drop (length ws - 1) ws)); [|by rewrite take_drop].
      rewrite !last_app.
      destruct (last (drop (length ws - 1) ws)) as [w|] eqn:E; [done|].
      apply last_None in E. apply (f_equal length) in E. rewrite length_drop in E. simpl in E. lia.
    + intros w Hw. destruct (Hall w Hw) as (next & Hin & Hm). exists next. split; [done|].
      by apply (merges_mergeable _ _ _ _ _ _ _ true).
    + intros j prev next Hj HSj. apply (merges_mergeable _ _ _ _ _ _ _ false). apply (Hpairs j); [|done..].
      apply lookup_lt_Some in HSj. rewrite length_app, length_drop in HSj. lia.
  - exists [], ws. destruct ws as [|w1 [|w2 ws]]; simpl in Hlen; [..|lia]; simpl;
      (split_and!; [done|done|done|done|set_solver|intros [|j]; simpl; congruence]).
Qed.

(** ** Changed nodes *)

(** The node that a map built from the list holds for an id *)
Definition lastWithId (id : string) (nodes : list INode) : option INode :=
  last (filter (λ n, node_id n = id) nodes).

Lemma nodesById_get id nodes : map_get id (nodesById nodes) = lastWithId id nodes.
Proof.
  unfold nodesById, lastWithId. induction nodes as [|n nodes IH] using rev_ind; [done|].
  rewrite foldl_snoc, map_get_set, filter_app, last_app, IH. simpl.
  destruct (decide (node_id n = id)) as [<-|Hne].
  - by rewrite bool_decide_true, filter_cons_True by done.
  - by rewrite bool_decide_false, filter_cons_False by congruence.
Qed.

Lemma nodesById_NoDup nodes : NoDup (nodesById nodes).*1.
Proof.
  unfold nodesById. induction nodes as [|n nodes IH] using rev_ind; [constructor|].
  rewrite foldl_snoc. by apply map_set_NoDup.
Qed.

Lemma lastWithId_id id nodes n : lastWithId id nodes = Some n → node_id n = id ∧ n ∈ nodes.
Proof. intros H%last_Some_elem_of. by apply list_elem_of_filter in H. Qed.

(** A loop over a map that sets some of its keys in another map *)
Lemma foldl_map_set {V W} (P : string → bool) (f : string → V → W) (m : jsmap string V) (acc : jsmap string W) k :
  NoDup m.*1 →
  map_get k (foldl (λ acc entry, if P entry.1 then map_set entry.1 (f entry.1 entry.2) acc else acc) acc m) =
  match map_get k m with Some v => if P k then Some (f k v) else map_get k acc | None => map_get k acc end.
Proof.
  revert acc. induction m as [|[k' v] m IH]; intros acc; simpl; [done|]. rewrite NoDup_cons. intros [Hk Hnd].
  rewrite IH by done. destruct (bool_decide_reflect (k' = k)) as [->|Hne].
  - rewrite (proj2 (map_get_None k m)) by done. destruct (P k); [by rewrite map_get_set_eq|done].
  - destruct (P k'); [by rewrite map_get_set_ne by congruence|done].
Qed.

Lemma foldl_map_set_NoDup {V W} (P : string → bool) (f : string → V → W) (m : jsmap string V) (acc : jsmap string W) :
  NoDup acc.*1 →
  NoDup (foldl (λ acc entry, if P entry.1 then map_set entry.1 (f entry.1 entry.2) acc else acc) acc m).*1.
Proof.
  revert acc. induction m as [|[k' v] m IH]; intros acc Hacc; simpl; [done|]. apply IH.
  destruct (P k'); [by apply map_set_NoDup|done].
Qed.

(** The status of an id that is in the base version *)
Definition baseStatus (nodesEqual : option INode → option INode → bool) (base target : list INode) (id : string)
    (node : INode) : NodeDiff :=
  {| nd_status := if negb (map_has id (nodesById target)) then Deleted
                  else if negb (nodesEqual (map_get id (nodesById base)) (map_get id (nodesById target)))
                  then Modified else Eq;
     nd_node := node |}.

Lemma compareWorkflowsNodes_folds nodesEqual base target :
  compareWorkflowsNodes nodesEqual base target =
  foldl (λ acc entry, if negb (map_has entry.1 (nodesById base))
      then map_set entry.1 {| nd_status := Added; nd_node := entry.2 |} acc else acc)
    (foldl (λ acc entry, if (λ _, true) entry.1
        then map_set entry.1 (baseStatus nodesEqual base target entry.1 entry.2) acc else acc) [] (nodesById base))
    (nodesById target).
Proof.
  unfold compareWorkflowsNodes.
  rewrite (foldl_ext' _ (λ acc entry, if (λ _, true) entry.1
        then map_set entry.1 (baseStatus nodesEqual base target entry.1 entry.2) acc else acc) [] (nodesById base))
    by (by intros acc [id n]).
  apply foldl_ext'. by intros acc [id n].
Qed.

(** What the comparison says about an id *)
Definition nodeChange (nodesEqual : option INode → option INode → bool) (before after : option INode)
    : option NodeDiff :=
  match before, after with
  | Some n, Some m => Some {| nd_status := if nodesEqual (Some n) (Some m) then Eq else Modified; nd_node := n |}
  | Some n, None => Some {| nd_status := Deleted; nd_node := n |}
  | None, Some m => Some {| nd_status := Added; nd_node := m |}
  | None, None => None
  end.

Lemma compareWorkflowsNodes_get nodesEqual base target id :
  map_get id (compareWorkflowsNodes nodesEqual base target) =
  nodeChange nodesEqual (lastWithId id base) (lastWithId id target).
Proof.
  rewrite compareWorkflowsNodes_folds.
  rewrite (foldl_map_set (λ k, negb (map_has k (nodesById base))) (λ _ m, {| nd_status := Added; nd_node := m |}))
    by apply nodesById_NoDup.
  rewrite (foldl_map_set (λ _, true) (baseStatus nodesEqual base target)) by apply nodesById_NoDup.
  unfold baseStatus. rewrite !nodesById_get. simpl.
  assert (∀ nodes, map_has id (nodesById nodes) = bool_decide (is_Some (lastWithId id nodes))) as Hhas.
  { intros nodes. apply eq_iff_eq_true. by rewrite map_has_get, nodesById_get, bool_decide_eq_true. }
  rewrite !Hhas. destruct (lastWithId id base) as [n|], (lastWithId id target) as [m|]; simpl; try done.
  by destruct (nodesEqual (Some n) (Some m)).
Qed.

Lemma compareWorkflowsNodes_NoDup nodesEqual base target : NoDup (compareWorkflowsNodes nodesEqual base target).*1.
Proof.
  rewrite compareWorkflowsNodes_folds.
  apply (foldl_map_set_NoDup (λ k, negb (map_has k (nodesById base))) (λ _ m, {| nd_status := Added; nd_node := m |})).
  apply (foldl_map_set_NoDup (λ _, true) (baseStatus nodesEqual base target)). constructor.
Qed.

(** the comparison of nodes.  For every id the result says whether the node was
    deleted, added, modified or kept, for an id that neither version has it has no entry, and
    it has one entry per id. *)
Theorem compareWorkflowsNodes_spec (nodesEqual : option INode → option INode → bool) (base target : list INode) :
  NoDup (compareWorkflowsNodes nodesEqual base target).*1 ∧
  ∀ id, map_get id (compareWorkflowsNodes nodesEqual base target) =
    nodeChange nodesEqual (lastWithId id base) (lastWithId id target).
Proof. split; [apply compareWorkflowsNodes_NoDup|apply compareWorkflowsNodes_get]. Qed.

(** ** Removed connections *)

Section removed.
Context (stringify : IConnection → string) `{!Inj (=) (=) stringify}.

(** A loop whose steps leave the result empty if and only if a condition holds *)
Lemma foldl_nil_iff {A} (F : ConnectionsDiff → A → ConnectionsDiff) (P : A → Prop) l d :
  (∀ d x, x ∈ l → cd_removed (F d x) = [] ↔ cd_removed d = [] ∧ P x) →
  cd_removed (foldl F d l) = [] ↔ cd_removed d = [] ∧ ∀ x, x ∈ l → P x.
Proof.
  revert d. induction l as [|x l IH]; intros d HF; simpl; [set_solver|].
  rewrite IH by (intros; apply HF; by right). rewrite HF by by left.
  setoid_rewrite elem_of_cons. naive_solver.
Qed.

Lemma obj_set_nonempty {V} k (v : V) (o : jsobj V) : obj_set k v o ≠ [].
Proof.
  intros H. assert (obj_get k (obj_set k v o) = Some v) as Hg by apply obj_get_set_eq. by rewrite H in Hg.
Qed.

Lemma pushMissing_nil nodeName inputName i present absent side :
  pushMissing nodeName inputName i present absent side = [] ↔
  side = [] ∧ ∀ key, key ∈ present.*1 → map_has key absent = true.
Proof.
  unfold pushMissing. revert side. induction present as [|[key [index c]] present IH]; intros side; simpl;
    [set_solver|]. rewrite IH. setoid_rewrite elem_of_cons. destruct (map_has key absent) eqn:E.
  - naive_solver.
  - split.
    + intros [H _]. by apply obj_set_nonempty in H.
    + intros [_ H]. specialize (H key (or_introl eq_refl)). congruence.
Qed.

Lemma imap_pair_snd {A} (f : nat → nat) (l : list A) : (imap (λ i x, (f i, x)) l).*2 = l.
Proof. revert f. induction l as [|x l IH]; intros f; simpl; [done|]. f_equal. apply (IH (f ∘ S)). Qed.

Lemma connectionsMap_keys l key : key ∈ (connectionsMap stringify l).*1 ↔ ∃ c, c ∈ l ∧ key = stringify c.
Proof.
  unfold connectionsMap.
  assert (∀ (es : list (nat * IConnection)) m, key ∈ (foldl (λ m entry, map_set (stringify entry.2) entry m) m es).*1 ↔
    key ∈ m.*1 ∨ ∃ c, c ∈ es.*2 ∧ key = stringify c) as Hgen.
  { intros es. induction es as [|e es IH]; intros m; simpl; [set_solver|].
    rewrite IH, elem_of_map_set_keys. setoid_rewrite elem_of_cons. naive_solver. }
  rewrite Hgen, (imap_pair_snd id). set_solver.
Qed.

Lemma compareIndex_nil nodeName inputName prev next d i :
  cd_removed (compareIndex stringify nodeName inputName prev next d i) = [] ↔
  cd_removed d = [] ∧ ∀ c, c ∈ connectionsAt i prev → c ∈ connectionsAt i next.
Proof.
  unfold compareIndex. simpl. rewrite pushMissing_nil. apply and_iff_compat_l.
  unfold map_has. setoid_rewrite bool_decide_eq_true. setoid_rewrite connectionsMap_keys. split.
  - intros H c Hc. destruct (H (stringify c)) as (c' & Hc' & ->%(inj stringify)); [eauto|done].
  - intros H key (c & Hc & ->). eauto.
Qed.

Lemma compareInput_nil nodeName prev next d inputName :
  cd_removed (compareInput stringify nodeName prev next d inputName) = [] ↔
  cd_removed d = [] ∧ ∀ i c, c ∈ connectionsAt i (default [] (obj_get inputName prev)) →
    c ∈ connectionsAt i (default [] (obj_get inputName next)).
Proof.
  unfold compareInput. rewrite foldl_nil_iff by (intros; apply compareIndex_nil). apply and_iff_compat_l.
  split; [|eauto]. intros H i c Hc. apply H; [|done]. apply elem_of_seq.
  assert (i < length (default [] (obj_get inputName prev))); [|lia].
  unfold connectionsAt in Hc. destruct (_ !! i) eqn:E in Hc; [by eapply lookup_lt_Some|].
  simpl in Hc. set_solver.
Qed.

Lemma compareNodeConnections_nil prev next d nodeName :
  cd_removed (compareNodeConnections stringify prev next d nodeName) = [] ↔
  cd_removed d = [] ∧ ∀ inputName i c,
    c ∈ connectionsAt i (default [] (obj_get inputName (default [] (obj_get nodeName prev)))) →
    c ∈ connectionsAt i (default [] (obj_get inputName (default [] (obj_get nodeName next)))).
Proof.
  unfold compareNodeConnections. rewrite foldl_nil_iff by (intros; apply compareInput_nil).
  apply and_iff_compat_l. split; [|eauto]. intros H inputName i c Hc. apply H; [|done].
  rewrite elem_of_set_of_list, elem_of_app. left.
  destruct (obj_get inputName (default [] (obj_get nodeName prev))) as [v|] eqn:E.
  - apply map_get_elem_of in E. apply list_elem_of_fmap. by exists (inputName, v).
  - unfold connectionsAt in Hc. simpl in Hc. set_solver.
Qed.

(** The connections of an input of a node *)
Definition connectionsOf (cs : IConnections) (nodeName inputName : string) (i : nat) : list IConnection :=
  connectionsAt i (default [] (obj_get inputName (default [] (obj_get nodeName cs)))).

Lemma compareConnections_nil prev next :
  cd_removed (compareConnections stringify prev next) = [] ↔
  ∀ nodeName inputName i c, c ∈ connectionsOf prev nodeName inputName i → c ∈ connectionsOf next nodeName inputName i.
Proof.
  unfold compareConnections. rewrite foldl_nil_iff by (intros; apply compareNodeConnections_nil). simpl.
  split; [|by intros H; split; [done|]; intros; apply H]. intros [_ H] nodeName inputName i c Hc. apply H; [|done].
  rewrite elem_of_set_of_list, elem_of_app. left. unfold connectionsOf in Hc.
  destruct (obj_get nodeName prev) as [v|] eqn:E.
  - apply map_get_elem_of in E. apply list_elem_of_fmap. by exists (nodeName, v).
  - unfold connectionsAt in Hc. simpl in Hc. set_solver.
Qed.
End removed.

(** ** Merging additive changes *)

Section additive.
Context (isEqual : json → json → bool) (stringify : IConnection → string) `{!Inj (=) (=) stringify}.

Definition nextNode (next : DiffableWorkflow) (id : string) : option INode :=
  List.find (λ x, bool_decide (node_id x = id)) (dw_nodes next).

Definition keepsNode (next : DiffableWorkflow) (d : NodeDiff) : bool :=
  match nd_status d with
  | Deleted => false
  | Added | Eq => true
  | Modified => from_option (nodeIsSuperset isEqual (nd_node d)) false (nextNode next (node_id (nd_node d)))
  end.

Lemma onlyAdditive_spec next l :
  (∀ d, d ∈ l → nd_status d = Eq ∨ nd_status d = Modified → is_Some (nextNode next (node_id (nd_node d)))) →
  onlyAdditive isEqual next l = Ok (forallb (keepsNode next) l).
Proof.
  induction l as [|d l IH]; intros Hl; simpl; [done|].
  assert (onlyAdditive isEqual next l = Ok (forallb (keepsNode next) l)) as Hrest
    by (apply IH; intros; apply Hl; [by right|done]).
  specialize (Hl d ltac:(by left)). unfold keepsNode at 1.
  change (List.find (λ x : INode, bool_decide (node_id x = node_id (nd_node d))) (dw_nodes next))
    with (nextNode next (node_id (nd_node d))).
  destruct (nd_status d); simpl; [| |done|done].
  - destruct Hl as [m ->]; [by left|]. simpl. done.
  - destruct Hl as [m ->]; [by right|]. simpl. by destruct (nodeIsSuperset isEqual (nd_node d) m).
Qed.

Lemma nextNode_Some next id m : nextNode next id = Some m → m ∈ dw_nodes next ∧ node_id m = id.
Proof.
  intros [Hin Heq%bool_decide_eq_true]%List.find_some. split; [by apply list_elem_of_In|done].
Qed.

Lemma NoDup_key_unique {A B} (f : A → B) l x y : NoDup (f <$> l) → x ∈ l → y ∈ l → f x = f y → x = y.
Proof.
  intros Hnd [i Hi]%list_elem_of_lookup [j Hj]%list_elem_of_lookup Heq.
  assert (i = j) as ->; [|congruence]. eapply NoDup_lookup; [done| |]; rewrite list_lookup_fmap.
  - by rewrite Hi.
  - rewrite Hj. simpl. by rewrite Heq.
Qed.

Lemma nextNode_unique next id m :
  NoDup (node_id <$> dw_nodes next) → lastWithId id (dw_nodes next) = Some m → nextNode next id = Some m.
Proof.
  intros Hnd [Hid Hin]%lastWithId_id. destruct (nextNode next id) as [m'|] eqn:E.
  - apply nextNode_Some in E as [Hin' Hid']. f_equal. eapply (NoDup_key_unique node_id); [done|done|done|congruence].
  - exfalso. eapply List.find_none in E; [|by apply list_elem_of_In]. by apply bool_decide_eq_false in E.
Qed.

Lemma nodeChange_id id prev next d :
  nodeChange (compareNodes isEqual) (lastWithId id prev) (lastWithId id next) = Some d → node_id (nd_node d) = id.
Proof.
  unfold nodeChange. destruct (lastWithId id prev) as [n|] eqn:En, (lastWithId id next) as [m|] eqn:Em;
    intros; simplify_eq; simpl; by eapply lastWithId_id.
Qed.

Lemma diff_elem prev next id d :
  (id, d) ∈ compareWorkflowsNodes (compareNodes isEqual) prev next ↔
  nodeChange (compareNodes isEqual) (lastWithId id prev) (lastWithId id next) = Some d.
Proof.
  rewrite <- compareWorkflowsNodes_get. split; [|apply map_get_elem_of].
  apply map_get_unique, compareWorkflowsNodes_NoDup.
Qed.

(** The version [next] holds everything that [prev] holds. *)
Definition includes (prev next : DiffableWorkflow) : Prop :=
  (∀ id n, lastWithId id (dw_nodes prev) = Some n → ∃ m, lastWithId id (dw_nodes next) = Some m ∧
    (compareNodes isEqual (Some n) (Some m) = true ∨ nodeIsSuperset isEqual n m = true)) ∧
  ∀ nodeName inputName i c,
    c ∈ connectionsOf (dw_connections prev) nodeName inputName i → c ∈ connectionsOf (dw_connections next) nodeName inputName i.

Lemma keepsNode_all prev next :
  NoDup (node_id <$> dw_nodes next) →
  forallb (keepsNode next) (compareWorkflowsNodes (compareNodes isEqual) (dw_nodes prev) (dw_nodes next)).*2 = true ↔
  ∀ id n, lastWithId id (dw_nodes prev) = Some n → ∃ m, lastWithId id (dw_nodes next) = Some m ∧
    (compareNodes isEqual (Some n) (Some m) = true ∨ nodeIsSuperset isEqual n m = true).
Proof.
  intros Hnd. rewrite forallb_forall. split.
  - intros H id n Hn. destruct (nodeChange (compareNodes isEqual) (lastWithId id (dw_nodes prev))
      (lastWithId id (dw_nodes next))) as [d|] eqn:Hd; [|rewrite Hn in Hd; by destruct (lastWithId id (dw_nodes next))].
    pose proof (nodeChange_id _ _ _ _ Hd) as Hid. specialize (H d).
    rewrite <- list_elem_of_In, list_elem_of_fmap in H.
    specialize (H ltac:(exists (id, d); split; [done|by apply diff_elem])). unfold keepsNode in H. rewrite Hid in H.
    rewrite Hn in Hd. unfold nodeChange in Hd. destruct (lastWithId id (dw_nodes next)) as [m|] eqn:Hm; simplify_eq/=.
    exists m. split; [done|]. destruct (compareNodes isEqual (Some n) (Some m)) eqn:E; [by left|].
    right. by rewrite (nextNode_unique next _ m) in H.
  - intros H d ([id d'] & -> & Hd%diff_elem)%list_elem_of_In%list_elem_of_fmap. simpl.
    pose proof (nodeChange_id _ _ _ _ Hd) as Hid. unfold keepsNode. rewrite Hid. unfold nodeChange in Hd.
    destruct (lastWithId id (dw_nodes prev)) as [n|] eqn:Hn, (lastWithId id (dw_nodes next)) as [m|] eqn:Hm;
      simplify_eq/=; [| |done].
    + destruct (compareNodes isEqual (Some n) (Some m)) eqn:E; [done|]. rewrite (nextNode_unique next _ m) by done.
      simpl. destruct (H _ _ Hn) as (m' & Hm' & [?|?]); simplify_eq; congruence.
    + destruct (H _ _ Hn) as (m' & Hm' & _). congruence.
Qed.
End additive.

(** merging additive changes.  The rule always returns, and it lets a version be
    replaced by a later one exactly if every node of the earlier version is in the later
    one, unchanged or with parameters that contain the old ones, and no connection was
    removed. *)
Theorem mergeAdditiveChanges_spec (isEqual : json → json → bool) (stringify : IConnection → string)
    (prev next : DiffableWorkflow) (md : DiffMetaData) :
  Inj (=) (=) stringify → NoDup (node_id <$> dw_nodes next) →
  ∃ b, mergeAdditiveChanges isEqual prev next (newWorkflowChangeSet isEqual stringify false prev next) md = Ok b ∧
    (b = true ↔ includes isEqual prev next).
Proof.
  intros Hinj Hnd. unfold mergeAdditiveChanges, newWorkflowChangeSet. simpl.
  rewrite onlyAdditive_spec.
  - simpl. pose proof (keepsNode_all isEqual prev next Hnd) as Hk. pose proof (compareConnections_nil stringify
      (dw_connections prev) (dw_connections next)) as Hc. unfold includes.
    destruct (forallb _ _); simpl.
    + eexists. split; [done|]. rewrite bool_decide_eq_true, length_zero_iff_nil, Hc. tauto.
    + exists false. split; [done|]. split; [done|]. intros [Hn _]. by apply Hk in Hn.
  - intros d ([id d'] & -> & Hd%diff_elem)%list_elem_of_fmap Hstatus. simpl in *.
    rewrite (nodeChange_id _ _ _ _ _ Hd). unfold nodeChange in Hd.
    destruct (lastWithId id (dw_nodes prev)) as [n|] eqn:Hn, (lastWithId id (dw_nodes next)) as [m|] eqn:Hm;
      simplify_eq/=; try (by destruct Hstatus); exists m; by apply nextNode_unique.
Qed.

(** ** Concrete versions *)

Definition exampleStringify (c : IConnection) : string :=
  pretty (Npos (encode (conn_node c, conn_type c, conn_index c))).

#[global] Instance exampleStringify_inj : Inj (=) (=) exampleStringify.
Proof.
  intros [n1 t1 i1] [n2 t2 i2] H. unfold exampleStringify in H. apply (inj pretty) in H.
  injection H as H. apply (inj encode) in H. simpl in H. congruence.
Qed.

Definition exampleEqual (a b : json) : bool := bool_decide (a = b).

Definition version (nodes : list INode) (createdAt : Z) : DiffableWorkflow :=
  {| dw_nodes := nodes; dw_connections := []; dw_createdAt := createdAt; dw_authors := None |}.

Definition history : list DiffableWorkflow :=
  [version [nodeT] 0; version [nodeT; nodeA] 10; version [nodeT; nodeA; nodeB] 5000].

Definition exampleRules : list DiffRule := [makeMergeDependingOnSizeRule [(0, 1000%Z)]].

Lemma groupWorkflows_spec_witness :
  ∃ removed remaining, groupWorkflows exampleEqual exampleStringify history exampleRules [] true =
    Ok (removed, remaining) ∧ removed ++ remaining ≡ₚ history.
Proof.
  destruct (groupWorkflows_spec exampleEqual exampleStringify exampleRules [] true history)
    as (removed & remaining & Heq & Hperm & _); [|by exists removed, remaining].
  intros rule prev next md. rewrite app_nil_r. intros ->%list_elem_of_singleton _ _.
  unfold makeMergeDependingOnSizeRule. destruct (md_workflowSizeScore md); by eexists.
Defined.

Lemma mergeAdditiveChanges_spec_witness :
  ∃ b, mergeAdditiveChanges exampleEqual (version [nodeT] 0) (version [nodeT; nodeA] 10)
      (newWorkflowChangeSet exampleEqual exampleStringify false (version [nodeT] 0) (version [nodeT; nodeA] 10))
      {| md_workflowSizeScore := None |} = Ok b ∧
    (b = true ↔ includes exampleEqual (version [nodeT] 0) (version [nodeT; nodeA] 10)).
Proof. apply mergeAdditiveChanges_spec; [apply _|by_eval]. Defined.

(** An empty object counts as contained in an empty list, though the type changes. *)
Theorem superset_object_array : parametersAreSuperset (JObj []) (JArr []) = true.
Proof. done. Qed.
