(* ===== verification/ScheduledTasks.v ===== *)
(** * Scheduled tasks and active workflows

    Model of [packages/core/src/execution-engine/scheduled-task-manager.ts], which runs the
    cron jobs of the instance, of [packages/workflow/src/cron.ts], which turns the times of
    a trigger into cron expressions, and of
    [packages/core/src/execution-engine/active-workflows.ts], which starts and stops the
    triggers and pollers of a workflow.

    The package [cron] is a parameter: [sendAt] gives the next time of an expression, [None]
    if it is not valid.  A job is a number; a job that was started runs until it is
    stopped.  What the triggers and pollers of the nodes return is a parameter too. *)

From S2P Require Import Prelude JsCollections NodeTypes DirectedGraph Fixtures.

(** ** Cron expressions *)

Inductive TriggerTime :=
  | Custom (cronExpression : string)
  | EveryMinute
  | EveryXMinutes (value : nat)
  | EveryXHours (value : nat)
  | EveryHour (minute : nat)
  | EveryDay (hour minute : nat)
  | EveryWeek (hour minute weekday : nat)
  | EveryMonth (hour minute dayOfMonth : nat).

(** The six fields; [trim] is applied to a custom expression. *)
Definition cronFields (randomSecond randomMinute : nat) (item : TriggerTime) : list string :=
  match item with
  | Custom _ => []
  | EveryMinute => [pretty randomSecond; "*"; "*"; "*"; "*"; "*"]
  | EveryHour minute => [pretty randomSecond; pretty minute; "*"; "*"; "*"; "*"]
  | EveryXMinutes value => [pretty randomSecond; "*/" +:+ pretty value; "*"; "*"; "*"; "*"]
  | EveryXHours value => [pretty randomSecond; pretty randomMinute; "*/" +:+ pretty value; "*"; "*"; "*"]
  | EveryDay hour minute => [pretty randomSecond; pretty minute; pretty hour; "*"; "*"; "*"]
  | EveryWeek hour minute weekday => [pretty randomSecond; pretty minute; pretty hour; "*"; "*"; pretty weekday]
  | EveryMonth hour minute day => [pretty randomSecond; pretty minute; pretty hour; pretty day; "*"; "*"]
  end.

(** [fields.join(' ')] *)
Fixpoint joinSpace (fields : list string) : string :=
  match fields with
  | [] => ""
  | [field] => field
  | field :: fields => field +:+ " " +:+ joinSpace fields
  end.

(** [s.split(' ')] *)
Fixpoint splitSpace (s : string) : list string :=
  match s with
  | EmptyString => [""]
  | String c s =>
      if bool_decide (c = " "%char) then "" :: splitSpace s
      else match splitSpace s with
           | field :: fields => String c field :: fields
           | [] => [String c ""]
           end
  end.

(** [trim] of a string of single bytes *)
Definition isWhitespace (c : Ascii.ascii) : bool :=
  let n := Ascii.nat_of_ascii c in bool_decide (n = 32 ∨ 9 ≤ n ≤ 13).

Fixpoint trimStart (s : string) : string :=
  match s with
  | String c s' => if isWhitespace c then trimStart s' else s
  | EmptyString => ""
  end.

Definition trim (s : string) : string := String.rev (trimStart (String.rev (trimStart s))).

Definition toCronExpression (randomSecond randomMinute : nat) (item : TriggerTime) : string :=
  match item with
  | Custom cronExpression => trim cronExpression
  | _ => joinSpace (cronFields randomSecond randomMinute item)
  end.

(** The check of [activatePolling] on an expression *)
Definition tooShort (expression : string) : bool :=
  let fields := splitSpace expression in
  bool_decide (length fields = 6) &&
  match fields with
  | first :: _ => bool_decide ("*"%char ∈ String.list_ascii_of_string first)
  | [] => false
  end.

(** ** Cron jobs *)

Inductive CronRecurrenceRule :=
  | NotActivated
  | Activated (index intervalSize : spec_float) (typeInterval : string).

Record CronContext := {
  cx_nodeId : string;
  cx_workflowId : string;
  cx_timezone : string;
  cx_expression : string;
  cx_recurrence : option CronRecurrenceRule;
}.

Record Cron := {
  cr_job : nat;
  cr_summary : string;
  cr_ctx : CronContext;
}.

Record ScheduledTaskManager := {
  cronsByWorkflow : jsmap string (jsmap string Cron);
  running : jsset nat;
  scheduledTimes : jsmap nat Z;
  nextJob : nat;
}.

Definition noCrons : ScheduledTaskManager :=
  {| cronsByWorkflow := []; running := []; scheduledTimes := []; nextJob := 0 |}.

(** The context as a flat object, in the order in which it is built *)
Definition flattened (ctx : CronContext) : list (string * json) :=
  [("workflowId", JStr (cx_workflowId ctx)); ("nodeId", JStr (cx_nodeId ctx));
   ("expression", JStr (cx_expression ctx)); ("timezone", JStr (cx_timezone ctx))] ++
  match cx_recurrence ctx with
  | None => []
  | Some NotActivated => [("recurrenceActivated", JBool false)]
  | Some (Activated index intervalSize typeInterval) =>
      [("recurrenceActivated", JBool true); ("recurrenceIndex", JNum index);
       ("recurrenceIntervalSize", JNum intervalSize); ("recurrenceTypeInterval", JStr typeInterval)]
  end.

Definition compareKeys (a b : string * json) : Z :=
  match String.compare a.1 b.1 with Lt => -1 | Eq => 0 | Gt => 1 end.

Section scheduler.
(** [JSON.stringify], the text of a number, and the package [cron] *)
Context (stringify : list (string * json) → string) (showNumber : spec_float → string)
  (sendAt : string → string → Z → option Z).

Definition toCronKey (ctx : CronContext) : string := stringify (array_sort compareKeys (flattened ctx)).

Definition cronSummary (ctx : CronContext) : string :=
  match cx_recurrence ctx with
  | Some (Activated _ intervalSize typeInterval) =>
      cx_expression ctx +:+ " (every " +:+ showNumber intervalSize +:+ " " +:+ typeInterval +:+ ")"
  | _ => cx_expression ctx
  end.

Definition registerCron (ctx : CronContext) (now : Z) (m : ScheduledTaskManager) : res ScheduledTaskManager :=
  let workflowCrons := map_get (cx_workflowId ctx) (cronsByWorkflow m) in
  let key := toCronKey ctx in
  if from_option (map_has key) false workflowCrons then Ok m
  else match sendAt (cx_expression ctx) (cx_timezone ctx) now with
  | None => Throw (NodeError "Unknown cron expression")
  | Some scheduledTime =>
      let job := nextJob m in
      let cron := {| cr_job := job; cr_summary := cronSummary ctx; cr_ctx := ctx |} in
      Ok {| cronsByWorkflow := map_set (cx_workflowId ctx)
              (match workflowCrons with
               | None => [(key, cron)]
               | Some workflowCrons => map_set key cron workflowCrons
               end) (cronsByWorkflow m);
            running := set_add job (running m);
            scheduledTimes := map_set job scheduledTime (scheduledTimes m);
            nextJob := S job |}
  end.

(** [handleTick]: the time the job fires for, if the instance is the leader *)
Definition handleTick (isLeader : bool) (cron : Cron) (now : Z) (m : ScheduledTaskManager)
    : ScheduledTaskManager * option Z :=
  if negb isLeader then (m, None)
  else match map_get (cr_job cron) (scheduledTimes m),
             sendAt (cx_expression (cr_ctx cron)) (cx_timezone (cr_ctx cron)) now with
       | Some firedFor, Some scheduledTime =>
           ({| cronsByWorkflow := cronsByWorkflow m; running := running m;
               scheduledTimes := map_set (cr_job cron) scheduledTime (scheduledTimes m);
               nextJob := nextJob m |}, Some firedFor)
       | _, _ => (m, None)
       end.
End scheduler.

Definition stopJobs (jobs : list nat) (running : jsset nat) : jsset nat :=
  foldl (λ running job, set_delete job running) running jobs.

Definition deregisterCrons (workflowId : string) (m : ScheduledTaskManager) : ScheduledTaskManager :=
  match map_get workflowId (cronsByWorkflow m) with
  | None | Some [] => m
  | Some workflowCrons =>
      {| cronsByWorkflow := map_delete workflowId (cronsByWorkflow m);
         running := stopJobs (cr_job <$> workflowCrons.*2) (running m);
         scheduledTimes := scheduledTimes m; nextJob := nextJob m |}
  end.

Definition deregisterAllCrons (m : ScheduledTaskManager) : ScheduledTaskManager :=
  foldl (λ m workflowId, deregisterCrons workflowId m) m (cronsByWorkflow m).*1.

(** ** Active workflows *)

(** How the [closeFunction] of a trigger ends *)
Inductive CloseOutcome := Closed | CloseErrorReported | CloseFailed.

Record TriggerResponse := {
  trr_trigger : nat;
  trr_close : option CloseOutcome;
}.

(** A node that is polled: its times with the random numbers drawn for them, and the
    result of the first poll *)
Record PollNode := {
  pn_nodeId : string;
  pn_times : list (nat * nat * TriggerTime);
  pn_firstPoll : res unit;
}.

Record ActiveWorkflows := {
  activeWorkflows : jsobj (list TriggerResponse);
  scheduledTaskManager : ScheduledTaskManager;
  startedTriggers : jsset nat;
}.

Definition setActiveWorkflows (o : jsobj (list TriggerResponse)) (a : ActiveWorkflows) : ActiveWorkflows :=
  {| activeWorkflows := o; scheduledTaskManager := scheduledTaskManager a; startedTriggers := startedTriggers a |}.

Definition setManager (m : ScheduledTaskManager) (a : ActiveWorkflows) : ActiveWorkflows :=
  {| activeWorkflows := activeWorkflows a; scheduledTaskManager := m; startedTriggers := startedTriggers a |}.

Definition setStarted (l : jsset nat) (a : ActiveWorkflows) : ActiveWorkflows :=
  {| activeWorkflows := activeWorkflows a; scheduledTaskManager := scheduledTaskManager a; startedTriggers := l |}.

Definition isActive (workflowId : string) (a : ActiveWorkflows) : bool := obj_has workflowId (activeWorkflows a).

Definition allActiveWorkflows (a : ActiveWorkflows) : list string := (activeWorkflows a).*1.

Definition getActive (workflowId : string) (a : ActiveWorkflows) : option (list TriggerResponse) :=
  obj_get workflowId (activeWorkflows a).

Definition activationError : jserror := NodeError "There was a problem activating the workflow".
Definition deactivationError : jserror := NodeError "Failed to deactivate trigger of workflow".

(** The loop over the trigger nodes: [triggers] are the results of their calls. *)
Fixpoint runTriggers (triggers : list (res (option TriggerResponse))) (responses : list TriggerResponse)
    (a : ActiveWorkflows) : ActiveWorkflows * res (list TriggerResponse) :=
  match triggers with
  | [] => (a, Ok responses)
  | Ok (Some response) :: triggers =>
      runTriggers triggers (responses ++ [response])
        (setStarted (set_add (trr_trigger response) (startedTriggers a)) a)
  | Ok None :: triggers => runTriggers triggers responses a
  | _ :: _ => (a, Throw activationError)
  end.

Section active.
Context (stringify : list (string * json) → string) (showNumber : spec_float → string)
  (sendAt : string → string → Z → option Z).

(** The loop over the expressions of a node *)
Fixpoint registerExpressions (ctx : string → CronContext) (now : Z) (expressions : list string)
    (m : ScheduledTaskManager) : ScheduledTaskManager * res unit :=
  match expressions with
  | [] => (m, Ok tt)
  | expression :: expressions =>
      if tooShort expression
      then (m, Throw (UserError "The polling interval is too short. It has to be at least a minute."))
      else match registerCron stringify showNumber sendAt (ctx expression) now m with
           | Ok m => registerExpressions ctx now expressions m
           | Throw e => (m, Throw e)
           | OutOfFuel => (m, OutOfFuel)
           end
  end.

Definition activatePolling (workflowId timezone : string) (now : Z) (node : PollNode) (m : ScheduledTaskManager)
    : ScheduledTaskManager * res unit :=
  let cronExpressions := (λ time, toCronExpression time.1.1 time.1.2 time.2) <$> pn_times node in
  match pn_firstPoll node with
  | Ok _ => registerExpressions (λ expression, {| cx_nodeId := pn_nodeId node; cx_workflowId := workflowId;
              cx_timezone := timezone; cx_expression := expression; cx_recurrence := None |}) now cronExpressions m
  | Throw e => (m, Throw e)
  | OutOfFuel => (m, OutOfFuel)
  end.

(** The loop over the poll nodes *)
Fixpoint activateAll (workflowId timezone : string) (now : Z) (polls : list PollNode)
    (responses : list TriggerResponse) (a : ActiveWorkflows) : ActiveWorkflows * res unit :=
  match polls with
  | [] => (a, Ok tt)
  | poll :: polls =>
      let '(m, result) := activatePolling workflowId timezone now poll (scheduledTaskManager a) in
      let a := setManager m a in
      match result with
      | Ok _ => activateAll workflowId timezone now polls responses a
      | _ =>
          (if bool_decide (length responses = 0)
           then setActiveWorkflows (obj_delete workflowId (activeWorkflows a)) a else a, Throw activationError)
      end
  end.

Definition addWorkflow (workflowId timezone : string) (now : Z)
    (triggers : list (res (option TriggerResponse))) (polls : list PollNode) (a : ActiveWorkflows)
    : ActiveWorkflows * res unit :=
  let '(a, responses) := runTriggers triggers [] a in
  match responses with
  | Ok responses =>
      let a := setActiveWorkflows (obj_set workflowId responses (activeWorkflows a)) a in
      activateAll workflowId timezone now polls responses a
  | Throw e => (a, Throw e)
  | OutOfFuel => (a, OutOfFuel)
  end.
End active.

Definition closeTrigger (a : ActiveWorkflows) (response : TriggerResponse) : ActiveWorkflows * res unit :=
  match trr_close response with
  | None => (a, Ok tt)
  | Some Closed => (setStarted (set_delete (trr_trigger response) (startedTriggers a)) a, Ok tt)
  | Some CloseErrorReported => (a, Ok tt)
  | Some CloseFailed => (a, Throw deactivationError)
  end.

Fixpoint closeTriggers (responses : list TriggerResponse) (a : ActiveWorkflows) : ActiveWorkflows * res unit :=
  match responses with
  | [] => (a, Ok tt)
  | response :: responses =>
      let '(a, result) := closeTrigger a response in
      match result with Ok _ => closeTriggers responses a | _ => (a, result) end
  end.

Definition removeWorkflow (workflowId : string) (a : ActiveWorkflows) : ActiveWorkflows * res bool :=
  match obj_get workflowId (activeWorkflows a) with
  | None => (a, Ok false)
  | Some responses =>
      let a := setManager (deregisterCrons workflowId (scheduledTaskManager a)) a in
      let '(a, result) := closeTriggers responses a in
      match result with
      | Ok _ => (setActiveWorkflows (obj_delete workflowId (activeWorkflows a)) a, Ok true)
      | Throw e => (a, Throw e)
      | OutOfFuel => (a, OutOfFuel)
      end
  end.

(** The loop of [removeAllTriggerAndPollerBasedWorkflows] *)
Fixpoint removeEach (workflowIds : list string) (a : ActiveWorkflows) : ActiveWorkflows * res unit :=
  match workflowIds with
  | [] => (a, Ok tt)
  | workflowId :: workflowIds =>
      let '(a, result) := removeWorkflow workflowId a in
      match result with
      | Ok _ => removeEach workflowIds a
      | Throw e => (a, Throw e)
      | OutOfFuel => (a, OutOfFuel)
      end
  end.

Definition removeAllTriggerAndPollerBasedWorkflows (a : ActiveWorkflows) : ActiveWorkflows * res unit :=
  removeEach (activeWorkflows a).*1 a.

(** ** Jobs that run are registered *)

(** The job is registered for the workflow under the key. *)
Definition registeredJob (m : ScheduledTaskManager) (job : nat) (workflowId key : string) : Prop :=
  ∃ crons cron, map_get workflowId (cronsByWorkflow m) = Some crons ∧ map_get key crons = Some cron ∧
    cr_job cron = job.

Section jobs.
Context (stringify : list (string * json) → string) (showNumber : spec_float → string)
  (sendAt : string → string → Z → option Z).
Abbreviation register := (registerCron stringify showNumber sendAt) (only parsing).

Record cronInv (m : ScheduledTaskManager) : Prop := {
  cv_running : ∀ job, job ∈ running m ↔ ∃ workflowId key, registeredJob m job workflowId key;
  cv_unique : ∀ job w w' key key', registeredJob m job w key → registeredJob m job w' key' → w = w' ∧ key = key';
  cv_fresh : ∀ job w key, registeredJob m job w key → job < nextJob m;
  cv_keys : ∀ w crons, map_get w (cronsByWorkflow m) = Some crons → NoDup crons.*1;
  cv_ctx : ∀ w crons key cron, map_get w (cronsByWorkflow m) = Some crons → map_get key crons = Some cron →
    key = toCronKey stringify (cr_ctx cron) ∧ w = cx_workflowId (cr_ctx cron);
}.

Lemma noCrons_inv : cronInv noCrons.
Proof. split; simpl; unfold registeredJob; simpl; try naive_solver. set_solver. Qed.

(** The crons of a workflow after a registration *)
Lemma registerCron_get ctx now m m' w :
  register ctx now m = Ok m' → m' = m ∨
  ∃ crons, map_get (cx_workflowId ctx) (cronsByWorkflow m') = Some crons ∧
    crons = map_set (toCronKey stringify ctx) {| cr_job := nextJob m; cr_summary := cronSummary showNumber ctx;
      cr_ctx := ctx |} (default [] (map_get (cx_workflowId ctx) (cronsByWorkflow m))) ∧
    map_get (toCronKey stringify ctx) (default [] (map_get (cx_workflowId ctx) (cronsByWorkflow m))) = None ∧
    (w ≠ cx_workflowId ctx → map_get w (cronsByWorkflow m') = map_get w (cronsByWorkflow m)) ∧
    running m' = set_add (nextJob m) (running m) ∧ nextJob m' = S (nextJob m).
Proof.
  unfold registerCron. destruct (map_get (cx_workflowId ctx) (cronsByWorkflow m)) as [crons|] eqn:Hw; simpl.
  - destruct (map_has (toCronKey stringify ctx) crons) eqn:Hk; [intros [= <-]; by left|].
    destruct (sendAt _ _ _); [|done]. intros [= <-]. right. simpl. eexists. rewrite map_get_set_eq.
    split_and!; [done|done| |by apply map_get_set_ne|done|done].
    apply map_get_None. by apply bool_decide_eq_false in Hk.
  - destruct (sendAt _ _ _); [|done]. intros [= <-]. right. simpl. eexists. rewrite map_get_set_eq.
    split_and!; [done|done|done|by apply map_get_set_ne|done|done].
Qed.

Lemma registerCron_jobs ctx now m m' job w key :
  register ctx now m = Ok m' → m' ≠ m →
  registeredJob m' job w key ↔ registeredJob m job w key ∨
    (job = nextJob m ∧ w = cx_workflowId ctx ∧ key = toCronKey stringify ctx).
Proof.
  intros Hreg Hne. destruct (registerCron_get ctx now m m' w Hreg)
    as [?|(crons & Hget & -> & Hnone & Hother & _)]; [done|].
  unfold registeredJob. destruct (decide (w = cx_workflowId ctx)) as [->|Hw].
  - rewrite Hget. destruct (map_get (cx_workflowId ctx) (cronsByWorkflow m)) as [crons|] eqn:E; simpl in *.
    + setoid_rewrite (inj_iff Some). split.
      * intros (crons' & cron & <- & Hk & Hj). rewrite map_get_set in Hk. case_bools; subst; simplify_eq/=; eauto 7.
      * intros [(crons' & cron & <- & Hk & Hj)|(-> & _ & ->)]; do 2 eexists; (split; [done|]).
        -- rewrite map_get_set_ne; [done|]. intros ->. congruence.
        -- by rewrite map_get_set_eq.
    + split.
      * intros (crons' & cron & [= <-] & Hk & Hj). simpl in Hk. case_bools; simplify_eq/=; eauto 7.
      * intros [(? & ? & ? & _)|(-> & _ & ->)]; [done|]. do 2 eexists. split; [done|]. simpl.
        by rewrite bool_decide_true.
  - rewrite Hother by done. naive_solver.
Qed.

Lemma registerCron_inv ctx now m m' : cronInv m → register ctx now m = Ok m' → cronInv m'.
Proof.
  intros Hinv Hreg. destruct (decide (nextJob m' = nextJob m)) as [Hn|Hn].
  { destruct (registerCron_get ctx now m m' "" Hreg) as [->|(_ & _ & _ & _ & _ & _ & E)]; [done|lia]. }
  assert (m' ≠ m) as Hne by (intros ->; done).
  destruct Hinv as [H1 H2 H3 H4 H5].
  assert (∀ w key, ¬ registeredJob m (nextJob m) w key) as Hfresh by (intros w key H%H3; lia).
  pose proof (λ job w key, registerCron_jobs ctx now m m' job w key Hreg Hne) as Hjobs.
  destruct (registerCron_get ctx now m m' "" Hreg) as [?|(_ & _ & _ & _ & _ & Hrun & Hnext)]; [done|].
  split.
  - intros job. rewrite Hrun, elem_of_set_add, H1. setoid_rewrite Hjobs. naive_solver.
  - intros job w w' key key'. rewrite !Hjobs. naive_solver.
  - intros job w key. rewrite Hjobs, Hnext. intros [H%H3|[-> _]]; lia.
  - intros w crons. destruct (registerCron_get ctx now m m' w Hreg) as [?|(cs & Hget & -> & _ & Hother & _)]; [done|].
    destruct (decide (w = cx_workflowId ctx)) as [->|Hw]; [|rewrite Hother by done; apply H4].
    rewrite Hget. intros [= <-]. apply map_set_NoDup.
    destruct (map_get (cx_workflowId ctx) (cronsByWorkflow m)) eqn:E; simpl; [by eapply H4|constructor].
  - intros w crons key cron. destruct (registerCron_get ctx now m m' w Hreg) as [?|(cs & Hget & -> & _ & Hother & _)];
      [done|]. destruct (decide (w = cx_workflowId ctx)) as [->|Hw]; [|rewrite Hother by done; apply H5].
    rewrite Hget. intros [= <-]. rewrite map_get_set. case_bools; [intros [= <-]; by subst|].
    destruct (map_get (cx_workflowId ctx) (cronsByWorkflow m)) eqn:E; simpl; [|done]. by apply H5.
Qed.

Lemma elem_of_stopJobs jobs r job : job ∈ stopJobs jobs r ↔ job ∈ r ∧ job ∉ jobs.
Proof.
  unfold stopJobs. revert r. induction jobs as [|j jobs IH]; intros r; simpl; [set_solver|].
  rewrite IH, elem_of_set_delete. set_solver.
Qed.

Lemma deregisterCrons_get w m w' :
  (∀ crons, map_get w (cronsByWorkflow m) = Some crons → crons ≠ []) →
  map_get w' (cronsByWorkflow (deregisterCrons w m)) =
    if bool_decide (w' = w) then None else map_get w' (cronsByWorkflow m).
Proof.
  intros Hne. unfold deregisterCrons. destruct (map_get w (cronsByWorkflow m)) as [[|c crons]|] eqn:E; simpl.
  - by destruct (Hne [] eq_refl).
  - apply map_get_delete.
  - case_bools; [by subst|done].
Qed.

Lemma deregisterCrons_jobs w m job w' key :
  registeredJob (deregisterCrons w m) job w' key ↔ w' ≠ w ∧ registeredJob m job w' key.
Proof.
  unfold deregisterCrons, registeredJob. destruct (map_get w (cronsByWorkflow m)) as [[|c crons]|] eqn:E; simpl.
  - split; [|tauto]. intros (crons & cron & Hw & Hk & Hj). split; [|eauto 7]. intros ->. rewrite E in Hw. by simplify_eq.
  - setoid_rewrite map_get_delete. case_bools; naive_solver.
  - split; [|tauto]. intros (crons & cron & Hw & Hk & Hj). split; [|eauto 7]. intros ->. congruence.
Qed.

Lemma deregisterCrons_running w m job :
  cronInv m → job ∈ running (deregisterCrons w m) ↔ job ∈ running m ∧ ¬ ∃ key, registeredJob m job w key.
Proof.
  intros [H1 H2 H3 H4 H5]. unfold deregisterCrons, registeredJob.
  destruct (map_get w (cronsByWorkflow m)) as [[|c crons]|] eqn:E; cbn [running].
  - split; [|tauto]. intros Hj. split; [done|]. intros (key & cs & cron & [= <-] & Hk & _). done.
  - rewrite elem_of_stopJobs. apply and_iff_compat_l. apply not_iff_compat.
    rewrite list_elem_of_fmap. setoid_rewrite list_elem_of_fmap. split.
    + intros (cron & -> & [key cron'] & -> & Hin). exists key, (c :: crons), cron'.
      split_and!; [done|apply map_get_unique; [by apply (H4 w)|done]|done].
    + intros (key & cs & cron & [= <-] & Hk & <-). exists cron. split; [done|].
      exists (key, cron). split; [done|]. by apply map_get_elem_of.
  - split; [|tauto]. intros Hj. split; [done|]. intros (key & cs & cron & ? & _). done.
Qed.

Lemma deregisterCrons_inv w m : cronInv m → cronInv (deregisterCrons w m).
Proof.
  intros Hinv. pose proof (deregisterCrons_running w m) as Hrun. destruct Hinv as [H1 H2 H3 H4 H5] eqn:Hinv'.
  assert (∀ w' crons, map_get w' (cronsByWorkflow (deregisterCrons w m)) = Some crons →
    map_get w' (cronsByWorkflow m) = Some crons) as Hsub.
  { intros w' crons. unfold deregisterCrons. destruct (map_get w (cronsByWorkflow m)) as [[|c cs]|]; [done| |done].
    simpl. rewrite map_get_delete. by case_bools. }
  assert (nextJob (deregisterCrons w m) = nextJob m) as Hn.
  { unfold deregisterCrons. by destruct (map_get w (cronsByWorkflow m)) as [[|c cs]|]. }
  split.
  - intros job. rewrite Hrun by done. setoid_rewrite deregisterCrons_jobs. rewrite H1. split.
    + intros [(w' & key & Hj) Hno]. exists w', key. split; [|done]. intros ->. eauto.
    + intros (w' & key & Hne & Hj). split; [eauto|]. intros (key' & Hj'). by destruct (H2 _ _ _ _ _ Hj Hj').
  - intros job w1 w2 k1 k2. rewrite !deregisterCrons_jobs. intros [_ J1] [_ J2]. eauto.
  - intros job w' key. rewrite deregisterCrons_jobs, Hn. intros [_ J]. eauto.
  - eauto.
  - eauto.
Qed.

(** Reachable states of the manager *)
Inductive managerReachable : ScheduledTaskManager → Prop :=
  | reach_init : managerReachable noCrons
  | reach_register ctx now m m' : managerReachable m → register ctx now m = Ok m' → managerReachable m'
  | reach_deregister w m : managerReachable m → managerReachable (deregisterCrons w m)
  | reach_tick isLeader cron now m :
      managerReachable m → managerReachable (handleTick sendAt isLeader cron now m).1.

Lemma handleTick_inv isLeader cron now m : cronInv m → cronInv (handleTick sendAt isLeader cron now m).1.
Proof.
  intros Hinv. unfold handleTick. destruct isLeader; [|done]. simpl.
  destruct (map_get (cr_job cron) (scheduledTimes m)) as [t|]; [|done].
  destruct (sendAt (cx_expression (cr_ctx cron)) (cx_timezone (cr_ctx cron)) now); [|done].
  by destruct Hinv; split.
Qed.

Lemma managerReachable_inv m : managerReachable m → cronInv m.
Proof.
  induction 1; [apply noCrons_inv|by eapply registerCron_inv|by apply deregisterCrons_inv|by apply handleTick_inv].
Qed.
End jobs.

(** cron jobs are registered.  In every reachable state a job runs exactly if it is
    registered for one workflow under the key of its context, and stopping the crons of a
    workflow stops its jobs and no others. *)
Theorem running_jobs_registered (stringify : list (string * json) → string) (showNumber : spec_float → string)
    (sendAt : string → string → Z → option Z) (m : ScheduledTaskManager) (w : string) (job : nat) :
  managerReachable stringify showNumber sendAt m →
  (job ∈ running m ↔ ∃ w' key, registeredJob m job w' key) ∧
  (∀ w1 w2 k1 k2, registeredJob m job w1 k1 → registeredJob m job w2 k2 → w1 = w2 ∧ k1 = k2) ∧
  (job ∈ running (deregisterCrons w m) ↔ job ∈ running m ∧ ¬ ∃ key, registeredJob m job w key).
Proof.
  intros Hinv%managerReachable_inv. split_and!; [by apply (cv_running stringify)| |by eapply deregisterCrons_running].
  intros w1 w2 k1 k2. by apply (cv_unique stringify).
Qed.

(** ** Deactivation *)

Lemma closeTriggers_started responses a a' :
  closeTriggers responses a = (a', Ok tt) →
  activeWorkflows a' = activeWorkflows a ∧ scheduledTaskManager a' = scheduledTaskManager a ∧
  (∀ t, t ∈ startedTriggers a' → t ∈ startedTriggers a) ∧
  ∀ r, r ∈ responses → trr_close r = Some Closed → trr_trigger r ∉ startedTriggers a'.
Proof.
  revert a. induction responses as [|r responses IH]; intros a; simpl; [intros [= <-]; set_solver|].
  unfold closeTrigger. destruct (trr_close r) as [[]|] eqn:Hr; simpl; intros H; try done;
    apply IH in H as (Ha & Hm & Hsub & Hclosed); simpl in *; split_and!; try done.
  - intros t Ht%Hsub. by apply elem_of_set_delete in Ht as [? _].
  - intros r' [->|Hin]%elem_of_cons; [|by apply Hclosed]. intros _ Hin%Hsub. by apply elem_of_set_delete in Hin as [_ ?].
  - intros r' [->|Hin]%elem_of_cons; [congruence|by apply Hclosed].
  - intros r' [->|Hin]%elem_of_cons; [congruence|by apply Hclosed].
Qed.

(** a workflow that is removed is stopped.  If removing an active workflow succeeds, it
    is no longer active, none of its cron jobs runs, the jobs of other workflows run on,
    and every trigger whose close function succeeded has stopped. *)
Theorem removeWorkflow_stops (stringify : list (string * json) → string) (showNumber : spec_float → string)
    (sendAt : string → string → Z → option Z) (w : string) (a a' : ActiveWorkflows)
    (responses : list TriggerResponse) :
  managerReachable stringify showNumber sendAt (scheduledTaskManager a) →
  obj_get w (activeWorkflows a) = Some responses → removeWorkflow w a = (a', Ok true) →
  isActive w a' = false ∧
  (∀ job, job ∈ running (scheduledTaskManager a') ↔
    job ∈ running (scheduledTaskManager a) ∧ ¬ ∃ key, registeredJob (scheduledTaskManager a) job w key) ∧
  ∀ r, r ∈ responses → trr_close r = Some Closed → trr_trigger r ∉ startedTriggers a'.
Proof.
  intros Hinv%managerReachable_inv Hw. unfold removeWorkflow. rewrite Hw.
  destruct (closeTriggers responses _) as [a1 [[]|e|]] eqn:Hc; [|done|done].
  intros [= <-]. apply closeTriggers_started in Hc as (Ha & Hm & _ & Hclosed). simpl in *. split_and!; [| |done].
  - unfold isActive, obj_has. simpl. apply bool_decide_eq_false. intros Hin.
    apply list_elem_of_fmap in Hin as (kv & -> & [_ Hne]%elem_of_map_delete). done.
  - intros job. rewrite Hm. by eapply deregisterCrons_running.
Qed.

(** ** Concrete workflows *)

Definition exampleStringify (l : list (string * json)) : string :=
  joinSpace ((λ entry : string * json, entry.1 +:+ match entry.2 with JStr s => s | _ => "" end) <$> l).

Definition exampleSendAt (expression timezone : string) (now : Z) : option Z := Some (now + 60)%Z.

Definition noWorkflows : ActiveWorkflows :=
  {| activeWorkflows := []; scheduledTaskManager := noCrons; startedTriggers := [] |}.

Definition aTrigger (n : nat) : TriggerResponse := {| trr_trigger := n; trr_close := Some Closed |}.

Definition aPoller (id : string) (firstPoll : res unit) : PollNode :=
  {| pn_nodeId := id; pn_times := [(7, 0, EveryMinute)]; pn_firstPoll := firstPoll |}.

Abbreviation activate := (addWorkflow exampleStringify (λ _, "") exampleSendAt "w" "UTC" 0%Z) (only parsing).

Definition oneContext : CronContext :=
  {| cx_nodeId := "p"; cx_workflowId := "w"; cx_timezone := "UTC"; cx_expression := "7 * * * * *";
     cx_recurrence := None |}.

Definition oneCron : ScheduledTaskManager := scheduledTaskManager (activate [Ok (Some (aTrigger 1))] [aPoller "p" (Ok tt)] noWorkflows).1.

Lemma oneCron_reachable : managerReachable exampleStringify (λ _, "") exampleSendAt oneCron.
Proof. eapply (reach_register _ _ _ oneContext 0%Z noCrons); [constructor|by vm_compute]. Defined.

Lemma running_jobs_registered_witness :
  0 ∈ running oneCron ↔ ∃ w' key, registeredJob oneCron 0 w' key.
Proof. apply (running_jobs_registered _ _ _ oneCron "w" 0 oneCron_reachable). Defined.

Definition activeOnce : ActiveWorkflows := (activate [Ok (Some (aTrigger 1))] [aPoller "p" (Ok tt)] noWorkflows).1.

Lemma removeWorkflow_stops_witness : isActive "w" (removeWorkflow "w" activeOnce).1 = false.
Proof.
  apply (removeWorkflow_stops exampleStringify (λ _, "") exampleSendAt "w" activeOnce _ [aTrigger 1]);
    [apply oneCron_reachable|by vm_compute|by vm_compute].
Defined.

(** When the second trigger of a workflow cannot be started, the first one keeps running:
    the workflow is not active, so removing it does nothing. *)
Theorem failed_activation_leaks_trigger :
  let a := (activate [Ok (Some (aTrigger 1)); Throw TypeError] [] noWorkflows).1 in
  startedTriggers a = [1] ∧ isActive "w" a = false ∧ removeWorkflow "w" a = (a, Ok false).
Proof. by vm_compute. Qed.

(** When the second poller of a workflow without triggers cannot be started, the cron job
    of the first one keeps running although the workflow is not active. *)
Theorem failed_activation_leaks_cron :
  let a := (activate [] [aPoller "p" (Ok tt); aPoller "q" (Throw TypeError)] noWorkflows).1 in
  running (scheduledTaskManager a) = [0] ∧ isActive "w" a = false ∧ removeWorkflow "w" a = (a, Ok false).
Proof. by vm_compute. Qed.

(** A tick while the instance is not the leader leaves the scheduled time as it is, so the
    first tick after the instance has become the leader fires for a time in the past. *)
Theorem follower_tick_keeps_stale_time :
  ∃ cron, (map_get "w" (cronsByWorkflow oneCron) ≫= map_get (toCronKey exampleStringify oneContext)) = Some cron ∧
    let m := (handleTick exampleSendAt false cron 60 oneCron).1 in
    (handleTick exampleSendAt true cron 120 m).2 = Some 60%Z.
Proof. eexists. split; [by vm_compute|]. by vm_compute. Qed.

(** ** Times of a trigger *)

Abbreviation chars := String.list_ascii_of_string (only parsing).

Lemma chars_app s s' : chars (s +:+ s') = chars s ++ chars s'.
Proof. induction s as [|c s IH]; simpl; [done|]. by rewrite IH. Qed.

Lemma splitSpace_field field rest :
  " "%char ∉ chars field → splitSpace (field +:+ String " "%char rest) = field :: splitSpace rest.
Proof.
  induction field as [|c field IH]; simpl; [done|]. rewrite not_elem_of_cons. intros [Hc Hf].
  rewrite bool_decide_false by congruence. by rewrite IH.
Qed.

Lemma splitSpace_last field : " "%char ∉ chars field → splitSpace field = [field].
Proof.
  induction field as [|c field IH]; simpl; [done|]. rewrite not_elem_of_cons. intros [Hc Hf].
  rewrite bool_decide_false by congruence. by rewrite IH.
Qed.

Lemma split_join fields :
  fields ≠ [] → Forall (λ field, " "%char ∉ chars field) fields → splitSpace (joinSpace fields) = fields.
Proof.
  induction fields as [|field [|field' fields] IH]; intros Hne Hall; [done| |].
  - apply splitSpace_last. by inv Hall.
  - apply Forall_cons in Hall as [Hf Hall]. change (joinSpace (field :: field' :: fields))
      with (field +:+ String " "%char (joinSpace (field' :: fields))).
    rewrite splitSpace_field by done. by rewrite IH.
Qed.

Definition isDigit (c : Ascii.ascii) : Prop := c ∈ chars "0123456789".

Lemma pretty_N_char_digit n : isDigit (pretty_N_char n).
Proof. unfold pretty_N_char, isDigit. repeat case_match; set_solver. Qed.

Lemma pretty_N_go_digits n s : Forall isDigit (chars s) → Forall isDigit (chars (pretty_N_go n s)).
Proof.
  revert s. induction (N.lt_wf_0 n) as [n _ IH]; intros s Hs. destruct (decide (n = 0)%N) as [->|Hn].
  - by rewrite pretty_N_go_0.
  - rewrite pretty_N_go_step by lia. apply IH; [apply N.div_lt; lia|].
    apply Forall_cons. split; [apply pretty_N_char_digit|done].
Qed.

Lemma pretty_nat_digits (n : nat) : Forall isDigit (chars (pretty n)).
Proof.
  change (pretty n) with (pretty (N.of_nat n)). unfold pretty, pretty_N. case_decide.
  - repeat constructor; unfold isDigit; set_solver.
  - by apply pretty_N_go_digits.
Qed.

Lemma pretty_nat_no_char (n : nat) c : ¬ isDigit c → c ∉ chars (pretty n).
Proof. intros Hc Hin. pose proof (pretty_nat_digits n) as Hd. rewrite Forall_forall in Hd. by apply Hc, Hd. Qed.

Lemma cronFields_plain rs rm item : Forall (λ field, " "%char ∉ chars field) (cronFields rs rm item).
Proof.
  assert (¬ isDigit " "%char) as Hsp by (unfold isDigit; by_eval).
  assert (∀ n : nat, " "%char ∉ chars (pretty n)) as Hp by (intros; by apply pretty_nat_no_char).
  assert (" "%char ∉ chars "*") as Hs by by_eval.
  assert (∀ n : nat, " "%char ∉ chars ("*/" +:+ pretty n)) as Hx.
  { intros n. rewrite chars_app. simpl. rewrite !not_elem_of_cons. split; [done|]. split; [done|]. apply Hp. }
  destruct item; simpl; repeat (apply Forall_cons; split; [done|]); constructor.
Qed.

(** the times of the editor are accepted.  The expression of every time that is not
    custom splits into the six fields it was made of, and the check for intervals below a
    minute never rejects it. *)
Theorem standard_times_accepted (rs rm : nat) (item : TriggerTime) :
  match item with Custom _ => False | _ => True end →
  splitSpace (toCronExpression rs rm item) = cronFields rs rm item ∧
  length (cronFields rs rm item) = 6 ∧ tooShort (toCronExpression rs rm item) = false.
Proof.
  intros Hitem. assert (splitSpace (toCronExpression rs rm item) = cronFields rs rm item) as Hsplit.
  { destruct item; [done|..]; apply split_join; done || apply cronFields_plain. }
  split; [done|]. unfold tooShort. rewrite Hsplit.
  assert (bool_decide ("*"%char ∈ chars (pretty rs)) = false) as Hstar.
  { apply bool_decide_eq_false, pretty_nat_no_char. unfold isDigit. by_eval. }
  split; [by destruct item|]. destruct item; [done|..]; simpl; by rewrite Hstar.
Qed.

Lemma standard_times_accepted_witness : tooShort (toCronExpression 7 30 (EveryXHours 2)) = false.
Proof. by apply standard_times_accepted. Defined.

(** A custom expression with a list of seconds runs several times a minute and is
    accepted: only a wildcard is looked for. *)
Theorem custom_seconds_accepted : tooShort (toCronExpression 0 0 (Custom "0,1,2,3 * * * * *")) = false.
Proof. done. Qed.
