(* ===== verification/AugmentObject.v ===== *)
(** * Augmented objects

    Model of [packages/workflow/src/augment-object.ts].  An expression gets the data of the
    execution as a proxy that records changes beside the data, so that the data itself is
    never changed: it is used without being copied.

    The heap maps references to cells: plain objects and arrays, dates, regular
    expressions and byte arrays, and the two kinds of proxies with the variables of their
    closures.  Of the classes with [toJSON] only dates are modelled.  Objects have own
    properties and those of [Object.prototype]; the key [__proto__] is left out, and the
    methods of [Array.prototype] are programs over the operations on indices and on the
    length. *)

From stdpp Require Import gmap pretty.
From S2P Require Import Prelude JsCollections NodeTypes Fixtures.

(** ** Values and cells *)

Inductive value :=
  | VUndefined
  | VNull
  | VBool (b : bool)
  | VNum (x : spec_float)
  | VStr (s : string)
  | VFunction (name : string)
  | VRef (r : nat).

#[global] Instance value_eq_dec : EqDecision value.
Proof. solve_decision. Defined.

(** [None] in an array is a hole; a date without a time is an invalid date. *)
Inductive cell :=
  | PlainObject (o : jsobj value)
  | PlainArray (l : list (option value))
  | DateObject (time : option Z)
  | RegExpObject (source flags : string) (lastIndex : nat)
  | ByteArray (bytes : list Byte.byte)
  | ObjectProxy (data : nat) (newData : jsobj value) (deletedProperties : jsset string)
  | ArrayProxy (data : nat) (newData : option (list (option value))).

#[global] Instance byte_eq_decision : EqDecision Byte.byte := Byte.byte_eq_dec.

#[global] Instance cell_eq_dec : EqDecision cell.
Proof. solve_decision. Defined.

Abbreviation heap := (gmap nat cell) (only parsing).

(** A new cell, at a reference that is not in use *)
Definition alloc (c : cell) (h : heap) : value * heap :=
  let r := fresh (dom h) in (VRef r, <[r := c]> h).

(** *** [toISOString] and [toString] of the language *)

(** The digits of [n], filled with zeros to [w] *)
Definition padded (w : nat) (n : Z) : string :=
  let s := pretty n in
  String.append (String.concat EmptyString (repeat "0"%string (w - String.length s))) s.

(** Year, month and day of a number of days since 1970-01-01 in the proleptic Gregorian
    calendar; the era of 400 years starts on the first of March. *)
Definition civil (days : Z) : Z * Z * Z :=
  let z := (days + 719468)%Z in
  let era := (z / 146097)%Z in
  let doe := (z - era * 146097)%Z in
  let yoe := ((doe - doe / 1460 + doe / 36524 - doe / 146096) / 365)%Z in
  let doy := (doe - (365 * yoe + yoe / 4 - yoe / 100))%Z in
  let mp := ((5 * doy + 2) / 153)%Z in
  let day := (doy - (153 * mp + 2) / 5 + 1)%Z in
  let month := (if mp <? 10 then mp + 3 else mp - 9)%Z in
  let year := (yoe + era * 400 + (if month <=? 2 then 1 else 0))%Z in
  (year, month, day).

Definition isoYear (y : Z) : string :=
  if ((0 <=? y) && (y <=? 9999))%Z then padded 4 y
  else if (y <? 0)%Z then String.append "-" (padded 6 (- y)) else String.append "+" (padded 6 y).

Definition toISOString (t : Z) : string :=
  let '(y, m, d) := civil (t / 86400000) in
  let ms := (t mod 86400000)%Z in
  String.concat EmptyString
    [isoYear y; "-"; padded 2 m; "-"; padded 2 d; "T";
     padded 2 (ms / 3600000); ":"; padded 2 (ms / 60000 mod 60); ":"; padded 2 (ms / 1000 mod 60);
     "."; padded 3 (ms mod 1000); "Z"]%string.

Definition dateToJSON (time : option Z) : value :=
  match time with Some t => VStr (toISOString t) | None => VNull end.

Definition regexpToString (source flags : string) : value :=
  VStr (String.concat EmptyString ["/"; source; "/"; flags]%string).

(** *** [Object.prototype] *)

Definition prototypeNames : list string :=
  ["constructor"; "hasOwnProperty"; "isPrototypeOf"; "propertyIsEnumerable"; "toLocaleString"; "toString"; "valueOf";
   "__defineGetter__"; "__defineSetter__"; "__lookupGetter__"; "__lookupSetter__"]%string.

Definition prototypeValue (key : string) : value :=
  if bool_decide (key = "constructor"%string) then VFunction "Object"
  else if bool_decide (key ∈ prototypeNames) then VFunction key else VUndefined.

(** [Reflect.get] and [Reflect.has] of an object without proxies *)
Definition objGet (key : string) (o : jsobj value) : value := default (prototypeValue key) (obj_get key o).
Definition objHas (key : string) (o : jsobj value) : bool := obj_has key o || bool_decide (key ∈ prototypeNames).

(** ** [augment], [augmentObject] and [augmentArray] *)

(** The proxies are the members of [augmentedObjects]. *)
Definition augmentObject (data : nat) (h : heap) : value * heap :=
  match h !! data with
  | Some (ObjectProxy _ _ _) => (VRef data, h)
  | _ => alloc (ObjectProxy data [] []) h
  end.

Definition augmentArray (data : nat) (h : heap) : value * heap :=
  match h !! data with
  | Some (ArrayProxy _ _) => (VRef data, h)
  | _ => alloc (ArrayProxy data None) h
  end.

(** [Array.isArray] sees through a proxy. *)
Definition augment (v : value) (h : heap) : value * heap :=
  match v with
  | VRef r =>
      match h !! r with
      | None | Some (RegExpObject _ _ _) => (v, h)
      | Some (DateObject time) => alloc (DateObject time) h
      | Some (ByteArray bytes) => alloc (ByteArray bytes) h
      | Some (PlainArray _) | Some (ArrayProxy _ _) => augmentArray r h
      | Some (PlainObject _) | Some (ObjectProxy _ _ _) => augmentObject r h
      end
  | _ => (v, h)
  end.

(** ** The handlers of an object proxy [p] *)

(** The own properties of the target *)
Definition objectData (data : nat) (h : heap) : jsobj value :=
  match h !! data with Some (PlainObject o) => o | _ => [] end.

(** What [get] returns of a value that the target has *)
Definition getTarget (p data : nat) (newData : jsobj value) (deleted : jsset string)
    (key : string) (v : value) (h : heap) : value * heap :=
  match v with
  | VRef r =>
      match h !! r with
      | Some (RegExpObject source flags _) => (regexpToString source flags, h)
      | Some (DateObject time) => (dateToJSON time, h)
      | _ =>
          let '(newValue, h) := augment v h in
          if bool_decide (newValue ≠ v)
          then (newValue, <[p := ObjectProxy data (obj_set key newValue newData) deleted]> h)
          else (v, h)
      end
  | _ => (v, h)
  end.

Definition getObject (p data : nat) (newData : jsobj value) (deleted : jsset string)
    (key : string) (h : heap) : value * heap :=
  if bool_decide (key = "constructor"%string) then (VFunction "Object", h)
  else if set_has key deleted then (VUndefined, h)
  else match obj_get key newData with
  | Some v => (v, h)
  | None => getTarget p data newData deleted key (objGet key (objectData data h)) h
  end.

Definition deleteObject (p data : nat) (newData : jsobj value) (deleted : jsset string)
    (key : string) (h : heap) : heap :=
  let newData := if obj_has key newData then obj_delete key newData else newData in
  let deleted := if obj_has key (objectData data h) then set_add key deleted else deleted in
  <[p := ObjectProxy data newData deleted]> h.

Definition setObject (p data : nat) (newData : jsobj value) (deleted : jsset string)
    (key : string) (newValue : value) (h : heap) : heap :=
  if bool_decide (newValue = VUndefined) then
    let newData := if objHas key newData then obj_delete key newData else newData in
    let deleted := if objHas key (objectData data h) then set_add key deleted else deleted in
    <[p := ObjectProxy data newData deleted]> h
  else
    let newData := obj_set key newValue newData in
    let deleted := if set_has key deleted then set_delete key deleted else deleted in
    <[p := ObjectProxy data newData deleted]> h.

Definition hasObject (data : nat) (newData : jsobj value) (deleted : jsset string)
    (key : string) (h : heap) : bool :=
  if set_has key deleted then false
  else objHas key (if obj_has key newData then newData else objectData data h).

Definition ownKeysObject (data : nat) (newData : jsobj value) (deleted : jsset string) (h : heap) : list string :=
  filter (λ key, set_has key deleted = false) (set_of_list ((objectData data h).*1 ++ newData.*1)).

(** The value of the property descriptor, if there is one *)
Definition descriptorObject (data : nat) (newData : jsobj value) (deleted : jsset string)
    (key : string) (h : heap) : option value :=
  if set_has key deleted then None
  else obj_get key (if obj_has key newData then newData else objectData data h).

(** ** The handlers of an array proxy [p] *)

Definition arrayData (data : nat) (h : heap) : list (option value) :=
  match h !! data with Some (PlainArray l) => l | _ => [] end.

(** The copy that [getData] makes on the first change; the spread fills the holes. *)
Definition getData (data : nat) (newData : option (list (option value))) (h : heap) : list (option value) :=
  match newData with
  | Some l => l
  | None => (λ v, Some (default VUndefined v)) <$> arrayData data h
  end.

(** What reads use: [newData ?? target] *)
Definition currentData (data : nat) (newData : option (list (option value))) (h : heap) : list (option value) :=
  default (arrayData data h) newData.

(** Assignment to an index of an array; what lies between its end and the index are holes. *)
Definition setIndex (i : nat) (v : value) (l : list (option value)) : list (option value) :=
  if bool_decide (i < length l) then <[i := Some v]> l
  else l ++ replicate (i - length l) None ++ [Some v].

Definition setLength (n : nat) (l : list (option value)) : list (option value) :=
  take n l ++ replicate (n - length l) None.

Inductive arrayKey := Index (i : nat) | Constructor.

Definition getArray (p data : nat) (newData : option (list (option value))) (key : arrayKey) (h : heap)
    : value * heap :=
  match key with
  | Constructor => (VFunction "Array", h)
  | Index i =>
      let v := default VUndefined (default None (currentData data newData h !! i)) in
      let '(newValue, h) := augment v h in
      if bool_decide (newValue ≠ v)
      then (newValue, <[p := ArrayProxy data (Some (setIndex i newValue (getData data newData h)))]> h)
      else (v, h)
  end.

Definition setArray (p data : nat) (newData : option (list (option value))) (i : nat) (newValue : value) (h : heap)
    : heap :=
  let l := getData data newData h in
  let '(v, h) := augment newValue h in
  <[p := ArrayProxy data (Some (setIndex i v l))]> h.

Definition setLengthArray (p data : nat) (newData : option (list (option value))) (n : nat) (h : heap) : heap :=
  <[p := ArrayProxy data (Some (setLength n (getData data newData h)))]> h.

Definition deleteArray (p data : nat) (newData : option (list (option value))) (i : nat) (h : heap) : heap :=
  <[p := ArrayProxy data (Some (<[i := None]> (getData data newData h)))]> h.

Definition lengthArray (data : nat) (newData : option (list (option value))) (h : heap) : nat :=
  length (currentData data newData h).

Definition hasArray (data : nat) (newData : option (list (option value))) (i : nat) (h : heap) : bool :=
  bool_decide (is_Some (default None (currentData data newData h !! i))).

(** The indices that [ownKeys] returns, beside [length] *)
Definition ownKeysArray (data : nat) (newData : option (list (option value))) (h : heap) : list nat :=
  filter (λ i, hasArray data newData i h = true) (seq 0 (lengthArray data newData h)).

(** The value in the property descriptor of an index, [undefined] in the default one; without
    [newData] there is none for a hole. *)
Definition descriptorArray (data : nat) (newData : option (list (option value))) (i : nat) (h : heap) : option value :=
  match newData with
  | None => default None (arrayData data h !! i)
  | Some _ => Some (default VUndefined (default None (arrayData data h !! i)))
  end.

(** ** Property access of the language, on proxies and other objects *)

Definition getProperty (r : nat) (key : string) (h : heap) : value * heap :=
  match h !! r with
  | Some (PlainObject o) => (objGet key o, h)
  | Some (ObjectProxy data newData deleted) => getObject r data newData deleted key h
  | _ => (VUndefined, h)
  end.

Definition setProperty (r : nat) (key : string) (v : value) (h : heap) : heap :=
  match h !! r with
  | Some (PlainObject o) => <[r := PlainObject (obj_set key v o)]> h
  | Some (ObjectProxy data newData deleted) => setObject r data newData deleted key v h
  | _ => h
  end.

Definition deleteProperty (r : nat) (key : string) (h : heap) : heap :=
  match h !! r with
  | Some (PlainObject o) => <[r := PlainObject (obj_delete key o)]> h
  | Some (ObjectProxy data newData deleted) => deleteObject r data newData deleted key h
  | _ => h
  end.

Definition getElement (r i : nat) (h : heap) : value * heap :=
  match h !! r with
  | Some (PlainArray l) => (default VUndefined (default None (l !! i)), h)
  | Some (ArrayProxy data newData) => getArray r data newData (Index i) h
  | _ => (VUndefined, h)
  end.

Definition setElement (r i : nat) (v : value) (h : heap) : heap :=
  match h !! r with
  | Some (PlainArray l) => <[r := PlainArray (setIndex i v l)]> h
  | Some (ArrayProxy data newData) => setArray r data newData i v h
  | _ => h
  end.

Definition deleteElement (r i : nat) (h : heap) : heap :=
  match h !! r with
  | Some (PlainArray l) => <[r := PlainArray (<[i := None]> l)]> h
  | Some (ArrayProxy data newData) => deleteArray r data newData i h
  | _ => h
  end.

Definition resize (r n : nat) (h : heap) : heap :=
  match h !! r with
  | Some (PlainArray l) => <[r := PlainArray (setLength n l)]> h
  | Some (ArrayProxy data newData) => setLengthArray r data newData n h
  | _ => h
  end.

Example iso_date : toISOString 1680089084200 = "2023-03-29T11:24:44.200Z"%string.
Proof. vm_compute. reflexivity. Qed.

(** ** An object proxy is an overlay

    The own properties that a program sees through a proxy, and what the handlers do
    to them. *)

Definition overlay (data : nat) (newData : jsobj value) (deleted : jsset string) (h : heap) (key : string)
    : option value :=
  if set_has key deleted then None
  else match obj_get key newData with Some v => Some v | None => obj_get key (objectData data h) end.

(** The own properties of the proxy at [p] *)
Definition properties (p : nat) (h : heap) (key : string) : option value :=
  match h !! p with
  | Some (ObjectProxy data newData deleted) => overlay data newData deleted h key
  | _ => None
  end.

Lemma objectData_insert data p d nd del d' nd' del' h :
  h !! p = Some (ObjectProxy d nd del) →
  objectData data (<[p := ObjectProxy d' nd' del']> h) = objectData data h.
Proof.
  intros Hp. unfold objectData. destruct (decide (data = p)) as [->|Hne].
  - by rewrite lookup_insert, decide_True, Hp.
  - by rewrite lookup_insert_ne by done.
Qed.

Lemma properties_insert p d nd del d' nd' del' h key :
  h !! p = Some (ObjectProxy d nd del) →
  properties p (<[p := ObjectProxy d' nd' del']> h) key = overlay d' nd' del' h key.
Proof.
  intros Hp. unfold properties, overlay. rewrite lookup_insert, decide_True by done.
  by rewrite (objectData_insert _ _ _ _ _ _ _ _ _ Hp).
Qed.

Lemma obj_get_delete_if key key' (o : jsobj value) :
  obj_get key' (if obj_has key o then obj_delete key o else o) =
  if bool_decide (key' = key) then None else obj_get key' o.
Proof.
  destruct (obj_has key o) eqn:Hh; [apply obj_get_delete|].
  case_bools; [subst|done]. apply map_get_None. unfold obj_has, map_has in Hh. by apply bool_decide_eq_false in Hh.
Qed.

Lemma obj_has_get (key : string) (o : jsobj value) : obj_has key o = bool_decide (is_Some (obj_get key o)).
Proof.
  symmetry. destruct (obj_has key o) eqn:E.
  - by apply bool_decide_true, map_has_get.
  - apply bool_decide_false. intros H%map_has_get. unfold obj_has in E. congruence.
Qed.

Lemma set_has_add (k key : string) (s : jsset string) :
  set_has k (set_add key s) = bool_decide (k = key) || set_has k s.
Proof.
  unfold set_has. rewrite (bool_decide_ext _ _ (elem_of_set_add key k s)). apply bool_decide_or.
Qed.

Lemma set_has_delete (k key : string) (s : jsset string) :
  set_has k (set_delete key s) = set_has k s && negb (bool_decide (k = key)).
Proof.
  unfold set_has. rewrite (bool_decide_ext _ _ (elem_of_set_delete key k s)).
  by rewrite bool_decide_and, bool_decide_not.
Qed.

Lemma properties_set p data nd del h key v k :
  h !! p = Some (ObjectProxy data nd del) → v ≠ VUndefined →
  properties p (setObject p data nd del key v h) k =
  if bool_decide (k = key) then Some v else properties p h k.
Proof.
  intros Hp Hv. unfold setObject. rewrite bool_decide_false by done.
  rewrite (properties_insert _ _ _ _ _ _ _ _ _ Hp). unfold properties. rewrite Hp.
  unfold overlay. rewrite obj_get_set. destruct (bool_decide_reflect (k = key)) as [->|Hne].
  - destruct (set_has key del) eqn:Hd; [|by rewrite Hd].
    by rewrite set_has_delete, bool_decide_true, andb_false_r.
  - destruct (set_has key del) eqn:Hd; [|done].
    by rewrite set_has_delete, bool_decide_false, andb_true_r.
Qed.

Lemma properties_delete p data nd del h key k :
  h !! p = Some (ObjectProxy data nd del) →
  properties p (deleteObject p data nd del key h) k =
  if bool_decide (k = key) then None else properties p h k.
Proof.
  intros Hp. unfold deleteObject.
  rewrite (properties_insert _ _ _ _ _ _ _ _ _ Hp). unfold properties. rewrite Hp.
  unfold overlay. rewrite obj_get_delete_if.
  destruct (obj_has key (objectData data h)) eqn:Hh; rewrite ?set_has_add;
    destruct (bool_decide_reflect (k = key)) as [->|Hne]; try done.
  rewrite obj_has_get in Hh. apply bool_decide_eq_false, eq_None_not_Some in Hh. rewrite Hh.
  by destruct (set_has key del).
Qed.

(** An assignment of [undefined] deletes; a name of the prototype is marked as deleted. *)
Lemma properties_set_undefined p data nd del h key k :
  h !! p = Some (ObjectProxy data nd del) →
  properties p (setObject p data nd del key VUndefined h) k =
  if bool_decide (k = key) then None else properties p h k.
Proof.
  intros Hp. unfold setObject. rewrite bool_decide_true by done.
  rewrite (properties_insert _ _ _ _ _ _ _ _ _ Hp). unfold properties. rewrite Hp. unfold overlay, objHas.
  assert (∀ o : jsobj value, obj_get k (if obj_has key o || bool_decide (key ∈ prototypeNames) then obj_delete key o else o) =
    if bool_decide (k = key) then None else obj_get k o) as ->.
  { intros o. pose proof (obj_get_delete_if key k o) as Ho. destruct (obj_has key o); [done|].
    destruct (bool_decide (key ∈ prototypeNames)); [apply obj_get_delete|done]. }
  destruct (bool_decide_reflect (k = key)) as [->|Hne].
  - destruct (obj_has key (objectData data h)) eqn:Hh; simpl; [by rewrite set_has_add, bool_decide_true|].
    rewrite obj_has_get in Hh. apply bool_decide_eq_false, eq_None_not_Some in Hh.
    rewrite Hh. by destruct (set_has _ _).
  - destruct (_ || _); [|done]. by rewrite set_has_add, bool_decide_false.
Qed.

Lemma properties_has data nd del h key :
  hasObject data nd del key h =
  negb (set_has key del) && (bool_decide (is_Some (overlay data nd del h key)) || bool_decide (key ∈ prototypeNames)).
Proof.
  unfold hasObject, overlay, objHas. destruct (set_has key del); [done|].
  rewrite (obj_has_get key nd). destruct (obj_get key nd) eqn:E.
  - by rewrite (bool_decide_true (is_Some _)), obj_has_get, E by eauto.
  - rewrite bool_decide_false by (by intros []). by rewrite obj_has_get.
Qed.

Lemma properties_keys data nd del h key :
  key ∈ ownKeysObject data nd del h ↔ is_Some (overlay data nd del h key).
Proof.
  unfold ownKeysObject, overlay.
  rewrite list_elem_of_filter, elem_of_set_of_list, elem_of_app.
  destruct (set_has key del); [split; [by intros []|by intros []]|].
  assert (∀ o : jsobj value, key ∈ o.*1 ↔ is_Some (obj_get key o)) as Hk.
  { intros o. unfold obj_get. rewrite <- map_has_get. unfold map_has. by rewrite bool_decide_eq_true. }
  rewrite !Hk. destruct (obj_get key nd); naive_solver.
Qed.

(** What [augment] puts on the heap: a proxy without changes or a copy *)
Definition newCell (c : cell) : Prop :=
  match c with
  | ObjectProxy _ [] [] | ArrayProxy _ None | DateObject _ | ByteArray _ => True
  | _ => False
  end.

(** A value that [augment] returns as it is *)
Definition augmented (v : value) (h : heap) : Prop :=
  match v with
  | VRef r =>
      match h !! r with
      | None | Some (RegExpObject _ _ _) | Some (ObjectProxy _ _ _) | Some (ArrayProxy _ _) => True
      | _ => False
      end
  | _ => True
  end.

Lemma fresh_ne (h : heap) r c : h !! r = Some c → fresh (dom h) ≠ r.
Proof. intros Hr <-. apply (is_fresh (dom h)), elem_of_dom. eauto. Qed.

Lemma augment_cases v h v' h' :
  augment v h = (v', h') →
  (v' = v ∧ h' = h ∧ augmented v h) ∨
  ∃ c, newCell c ∧ v' ≠ v ∧ v' = VRef (fresh (dom h)) ∧ h' = <[fresh (dom h) := c]> h.
Proof.
  intros E. unfold augment, augmentArray, augmentObject, augmented in *.
  destruct v as [| | | | | |r]; try (by simplify_eq; left).
  destruct (h !! r) as [c|] eqn:Hr; [|by simplify_eq; left].
  pose proof (fresh_ne _ _ _ Hr) as Hne. unfold alloc in E.
  destruct c; simplify_eq; try (by left);
    right; (eexists; split_and!; [..|reflexivity|reflexivity]; (exact I || congruence)).
Qed.

Lemma getObject_cases p data nd del key h v h' :
  getObject p data nd del key h = (v, h') →
  h' = h ∨
  ∃ c, newCell c ∧ key ≠ "constructor"%string ∧ set_has key del = false ∧ obj_get key nd = None ∧
    is_Some (obj_get key (objectData data h)) ∧ v = VRef (fresh (dom h)) ∧
    h' = <[p := ObjectProxy data (obj_set key v nd) del]> (<[fresh (dom h) := c]> h).
Proof.
  unfold getObject, getTarget. intros E.
  destruct (bool_decide_reflect (key = "constructor"%string)); [by simplify_eq; left|].
  destruct (set_has key del); [by simplify_eq; left|].
  destruct (obj_get key nd); [by simplify_eq; left|].
  unfold objGet in E. destruct (obj_get key (objectData data h)) as [w|] eqn:Hw; simpl in E.
  2: { assert (prototypeValue key = VUndefined ∨ ∃ f, prototypeValue key = VFunction f) as [Hv|[f Hv]]
         by (unfold prototypeValue; repeat case_bool_decide; eauto); rewrite Hv in E; simplify_eq; by left. }
  destruct w as [| | | | | |r]; try (by simplify_eq; left).
  destruct (augment (VRef r) h) as [w h1] eqn:Ha.
  destruct (augment_cases _ _ _ _ Ha) as [(-> & -> & _)|(c & Hc & Hne & -> & ->)].
  - rewrite bool_decide_false in E by naive_solver.
    destruct (h !! r) as [[]|]; simplify_eq; by left.
  - rewrite bool_decide_true in E by done.
    destruct (h !! r) as [[]|]; first [by simplify_eq; left|injection E as <- <-];
      right; exists c; by split_and!; eauto.
Qed.

Lemma objectData_new data h c :
  newCell c → objectData data (<[fresh (dom h) := c]> h) = objectData data h.
Proof.
  intros Hc. unfold objectData. destruct (decide (fresh (dom h) = data)) as [<-|Hne].
  - rewrite lookup_insert, decide_True by done.
    rewrite (proj1 (not_elem_of_dom h (fresh (dom h)))) by apply is_fresh. by destruct c.
  - by rewrite lookup_insert_ne.
Qed.

(** The values that [get] returns are kept: a second access finds what the first returned. *)
Lemma getObject_stable p data nd del h key v h' :
  h !! p = Some (ObjectProxy data nd del) →
  getObject p data nd del key h = (v, h') →
  getProperty p key h' = (v, h') ∧
  (∀ k, k ≠ key → properties p h' k = properties p h k) ∧
  (is_Some (properties p h' key) ↔ is_Some (properties p h key)).
Proof.
  intros Hp E.
  destruct (getObject_cases _ _ _ _ _ _ _ _ E) as [->|(c & Hc & Hk & Hdel & Hnd & Ho & Hv & ->)].
  { split; [|done]. unfold getProperty. by rewrite Hp. }
  pose proof (fresh_ne _ _ _ Hp).
  assert (<[fresh (dom h) := c]> h !! p = Some (ObjectProxy data nd del)) as Hp1
    by by rewrite lookup_insert_ne.
  split; [|split].
  - unfold getProperty. rewrite lookup_insert, decide_True by done. unfold getObject.
    by rewrite bool_decide_false, Hdel, obj_get_set_eq by done.
  - intros k Hne. rewrite (properties_insert _ _ _ _ _ _ _ _ _ Hp1). unfold properties. rewrite Hp.
    unfold overlay. by rewrite obj_get_set_ne, objectData_new.
  - rewrite (properties_insert _ _ _ _ _ _ _ _ _ Hp1). unfold properties. rewrite Hp.
    unfold overlay. rewrite Hdel, obj_get_set_eq, Hnd. naive_solver.
Qed.

Lemma getProperty_set p data nd del h key v :
  h !! p = Some (ObjectProxy data nd del) → v ≠ VUndefined → key ≠ "constructor"%string →
  getProperty p key (setObject p data nd del key v h) = (v, setObject p data nd del key v h).
Proof.
  intros Hp Hv Hk. pose proof (properties_set _ _ _ _ _ key v key Hp Hv) as Hset.
  unfold setObject in *. rewrite bool_decide_false in * by done.
  rewrite (properties_insert _ _ _ _ _ _ _ _ _ Hp), bool_decide_true in Hset by done.
  unfold getProperty. rewrite lookup_insert, decide_True by done.
  unfold getObject, overlay in *. rewrite bool_decide_false by done.
  case_match; [done|]. by rewrite obj_get_set_eq.
Qed.

(** What reading a property of the original object that holds [w] gives: a primitive value
    itself, a date and a regular expression as a string, an array of bytes as a copy, and an
    object or an array as a new proxy without changes *)
Definition shows (h : heap) (w : value) (result : value * heap) : Prop :=
  match w with
  | VRef r =>
      match h !! r with
      | Some (RegExpObject source flags _) => result = (regexpToString source flags, h)
      | Some (DateObject time) => result = (dateToJSON time, h)
      | Some (PlainObject _) => ∃ q, result.1 = VRef q ∧ h !! q = None ∧ result.2 !! q = Some (ObjectProxy r [] [])
      | Some (PlainArray _) => ∃ q, result.1 = VRef q ∧ h !! q = None ∧ result.2 !! q = Some (ArrayProxy r None)
      | Some (ByteArray bytes) => ∃ q, result.1 = VRef q ∧ h !! q = None ∧ result.2 !! q = Some (ByteArray bytes)
      | Some (ObjectProxy _ _ _) | Some (ArrayProxy _ _) | None => result = (w, h)
      end
  | _ => result = (w, h)
  end.

Lemma getTarget_shows p data nd del key w h c :
  h !! p = Some c → shows h w (getTarget p data nd del key w h).
Proof.
  intros Hp. unfold getTarget, shows. destruct w as [| | | | | |r]; try done.
  destruct (h !! r) as [[]|] eqn:Hr; try done; unfold augment; rewrite Hr;
    unfold augmentObject, augmentArray; rewrite ?Hr; unfold alloc;
    try (by rewrite bool_decide_false by naive_solver);
    pose proof (fresh_ne _ _ _ Hr); pose proof (fresh_ne _ _ _ Hp); rewrite bool_decide_true by congruence;
    (eexists; split_and!; [reflexivity|apply not_elem_of_dom, is_fresh|];
     simpl; rewrite lookup_insert_ne by done; by rewrite lookup_insert, decide_True).
Qed.

(** Reading a property that was neither assigned nor deleted *)
Lemma getProperty_original p data nd del h key w :
  h !! p = Some (ObjectProxy data nd del) → key ≠ "constructor"%string → set_has key del = false →
  obj_get key nd = None → obj_get key (objectData data h) = Some w → shows h w (getProperty p key h).
Proof.
  intros Hp Hk Hd Hn Hw. unfold getProperty. rewrite Hp. unfold getObject.
  rewrite bool_decide_false, Hd, Hn by done. unfold objGet. rewrite Hw. by eapply getTarget_shows.
Qed.

(** Reading a property that is not there *)
Lemma getProperty_absent p data nd del h key :
  h !! p = Some (ObjectProxy data nd del) → properties p h key = None → key ∉ prototypeNames →
  getProperty p key h = (VUndefined, h).
Proof.
  intros Hp. unfold properties, getProperty. rewrite Hp. unfold overlay, getObject. intros Hn Hk.
  rewrite bool_decide_false by (intros ->; apply Hk; left). destruct (set_has key del); [done|].
  destruct (obj_get key nd); [done|]. unfold objGet. rewrite Hn. unfold prototypeValue. simpl.
  by rewrite !bool_decide_false by (try done; intros ->; apply Hk; left).
Qed.


(** An item with a nested object and a nested array of an object and a date *)
Definition itemHeap : heap :=
  {[ 0 := PlainObject [("a"%string, VStr "x"); ("b"%string, VRef 1); ("l"%string, VRef 2)];
     1 := PlainObject [("c"%string, VBool true)];
     2 := PlainArray [Some (VRef 1); Some (VRef 3)];
     3 := DateObject (Some 0%Z) ]}.

Definition itemProxy : heap := (augmentObject 0 itemHeap).2.

