(* ===== verification/AugmentIsolation.v ===== *)
(** * Isolation of augmented data

    Programs that work on augmented data ([AugmentObject]) and the reason for augmenting it:
    whatever properties and elements a program reads, assigns and deletes, of what it can reach
    from the proxy, the data behind the proxy stays as it was.  The end of the file shows the
    operations for which that is not so. *)

From stdpp Require Import gmap.
From S2P Require Import Prelude JsCollections NodeTypes Fixtures AugmentObject.

(** ** Programs

    A program holds a list of values and adds to it with every operation that returns one.
    It can create values, read and write properties and elements, and change the dates, byte
    arrays and regular expressions it holds. *)

Inductive op :=
  | Literal (v : value)
  | New (c : cell)
  | Get (x : nat) (key : string)
  | SetTo (x : nat) (key : string) (y : nat)
  | Delete (x : nat) (key : string)
  | GetAt (x i : nat)
  | SetAt (x i y : nat)
  | DeleteAt (x i : nat)
  | Resize (x n : nat)
  | SetTime (x : nat) (t : option Z)
  | SetByte (x i : nat) (b : Byte.byte)
  | SetLastIndex (x n : nat).

(** What a literal denotes, and the objects that a program can create *)
Definition primitive (v : value) : bool := match v with VRef _ => false | _ => true end.

Definition initial (c : cell) : bool :=
  match c with
  | PlainObject [] | PlainArray [] | DateObject _ | RegExpObject _ _ _ | ByteArray _ => true
  | _ => false
  end.

(** The reference that the program holds at [x] *)
Definition heldRef (x : nat) (held : list value) : option nat :=
  match held !! x with Some (VRef r) => Some r | _ => None end.

(** A change of the cell that the program holds at [x] *)
Definition mutate (f : cell → cell) (r : nat) (h : heap) : heap := alter f r h.

Definition setTime (t : option Z) (c : cell) : cell :=
  match c with DateObject _ => DateObject t | _ => c end.

Definition setByte (i : nat) (b : Byte.byte) (c : cell) : cell :=
  match c with ByteArray l => ByteArray (<[i := b]> l) | _ => c end.

Definition setLastIndex (n : nat) (c : cell) : cell :=
  match c with RegExpObject s f _ => RegExpObject s f n | _ => c end.

Definition state : Type := list value * heap.

(** An operation that returns a value, and one that only changes the heap *)
Definition reads (f : nat → heap → value * heap) (x : nat) (s : state) : state :=
  match heldRef x s.1 with
  | Some r => let '(v, h) := f r s.2 in (s.1 ++ [v], h)
  | None => s
  end.

Definition writes (f : nat → heap → heap) (x : nat) (s : state) : state :=
  match heldRef x s.1 with Some r => (s.1, f r s.2) | None => s end.

Definition writesValue (f : nat → value → heap → heap) (x y : nat) (s : state) : state :=
  match s.1 !! y with Some v => writes (λ r, f r v) x s | None => s end.

Definition exec (s : state) (o : op) : state :=
  match o with
  | Literal v => if primitive v then (s.1 ++ [v], s.2) else s
  | New c => if initial c then let '(v, h) := alloc c s.2 in (s.1 ++ [v], h) else s
  | Get x key => reads (λ r, getProperty r key) x s
  | SetTo x key y => writesValue (λ r, setProperty r key) x y s
  | Delete x key => writes (λ r, deleteProperty r key) x s
  | GetAt x i => reads (λ r, getElement r i) x s
  | SetAt x i y => writesValue (λ r, setElement r i) x y s
  | DeleteAt x i => writes (λ r, deleteElement r i) x s
  | Resize x n => writes (λ r, resize r n) x s
  | SetTime x t => writes (mutate (setTime t)) x s
  | SetByte x i b => writes (mutate (setByte i b)) x s
  | SetLastIndex x n => writes (mutate (setLastIndex n)) x s
  end.

(** ** The invariant

    [O] is the heap before the data was augmented.  What the program holds, and what the
    objects that it can change hold, lies outside of it; only the copy of an array may refer
    to it, and elements of the copy are augmented when they are read. *)

Section isolation.
Context (O : heap).

Definition outside (v : value) : Prop := ∀ r, v = VRef r → O !! r = None.

Definition outsideCell (c : cell) : Prop :=
  match c with
  | PlainObject o | ObjectProxy _ o _ => ∀ k v, (k, v) ∈ o → outside v
  | PlainArray l => ∀ v, Some v ∈ l → outside v
  | _ => True
  end.

(** Original data holds no proxies, no regular expressions and no references to nothing. *)
Definition plainCell (c : cell) : Prop :=
  match c with
  | PlainObject o => ∀ k r, (k, VRef r) ∈ o → is_Some (O !! r)
  | PlainArray l => ∀ r, Some (VRef r) ∈ l → is_Some (O !! r)
  | DateObject _ | ByteArray _ => True
  | RegExpObject _ _ _ | ObjectProxy _ _ _ | ArrayProxy _ _ => False
  end.

Definition original : Prop := ∀ r c, O !! r = Some c → plainCell c.

Definition heapInv (h : heap) : Prop :=
  O ⊆ h ∧ ∀ r c, h !! r = Some c → O !! r = None → outsideCell c.

Definition isolated (s : state) : Prop := (∀ v, v ∈ s.1 → outside v) ∧ heapInv s.2.

(** *** Steps on the heap *)

Lemma heapInv_insert r c h : heapInv h → O !! r = None → outsideCell c → heapInv (<[r := c]> h).
Proof.
  intros [Hsub Hout] Hr Hc. split; [by apply insert_subseteq_r|].
  intros r' c' Hr'. destruct (decide (r = r')) as [<-|].
  - rewrite lookup_insert, decide_True in Hr' by done. by simplify_eq.
  - rewrite lookup_insert_ne in Hr' by done. by apply Hout.
Qed.

Lemma heapInv_fresh h : heapInv h → O !! fresh (dom h) = None.
Proof.
  intros [Hsub _]. apply not_elem_of_dom. intros Hin. apply (is_fresh (dom h)).
  by apply (subseteq_dom _ _ Hsub).
Qed.

Lemma outside_primitive v : primitive v = true → outside v.
Proof. by intros Hv r ->. Qed.

Lemma outside_fresh h : heapInv h → outside (VRef (fresh (dom h))).
Proof. intros Hh r [= <-]. by apply heapInv_fresh. Qed.

Lemma newCell_outside c : newCell c → outsideCell c.
Proof. destruct c as [| | | | |? nd ?|]; try done. destruct nd; set_solver. Qed.

(** The properties after an assignment *)
Lemma elem_of_obj_set (k k' : string) (v v' : value) (o : jsobj value) :
  (k', v') ∈ obj_set k v o → v' = v ∨ (k', v') ∈ o.
Proof.
  unfold obj_set. destruct (map_has k o).
  - induction o as [|[k1 v1] o IH]; simpl; [set_solver|].
    case_bools; rewrite !elem_of_cons; naive_solver.
  - rewrite obj_insert_perm, elem_of_cons. naive_solver.
Qed.

Lemma elem_of_obj_delete (c : bool) (k : string) (kv : string * value) (o : jsobj value) :
  kv ∈ (if c : bool then obj_delete k o else o) → kv ∈ o.
Proof. destruct c; [|done]. unfold obj_delete. rewrite elem_of_map_delete. naive_solver. Qed.

Lemma outside_obj_get (o : jsobj value) key : (∀ k v, (k, v) ∈ o → outside v) → outside (objGet key o).
Proof.
  intros Ho. unfold objGet. destruct (obj_get key o) as [v|] eqn:E.
  2: { apply outside_primitive. unfold prototypeValue. by repeat case_bool_decide. }
  apply map_get_elem_of in E. by eapply Ho.
Qed.

Lemma elem_of_setIndex i v v' l : Some v' ∈ setIndex i v l → v' = v ∨ Some v' ∈ l.
Proof.
  unfold setIndex. case_bools.
  - intros (j & Hj)%list_elem_of_lookup. rewrite list_lookup_insert_Some in Hj.
    destruct Hj as [(_ & [= <-] & _)|[_ Hj]]; [by left|]. right. by eapply list_elem_of_lookup_2.
  - rewrite !elem_of_app, elem_of_replicate, list_elem_of_singleton. naive_solver.
Qed.

Lemma elem_of_setLength n v l : Some v ∈ setLength n l → Some v ∈ l.
Proof.
  unfold setLength. rewrite elem_of_app, elem_of_replicate. intros [Hin|[]]; [|done].
  by apply (subseteq_take n l).
Qed.

Context (Horig : original).

Lemma augment_isolated v h v' h' :
  heapInv h → augment v h = (v', h') → outside v' ∧ heapInv h'.
Proof.
  intros Hh E. destruct (augment_cases _ _ _ _ E) as [(-> & -> & Ha)|(c & Hc & _ & -> & ->)].
  - split; [|done]. intros r ->. destruct (O !! r) as [c|] eqn:Hr; [|done]. exfalso.
    pose proof (lookup_weaken _ _ _ _ Hr (proj1 Hh)) as Hr'. simpl in Ha. rewrite Hr' in Ha.
    apply Horig in Hr. by destruct c.
  - split; [by apply outside_fresh|].
    apply heapInv_insert; [done|by apply heapInv_fresh|by apply newCell_outside].
Qed.

(** *** Steps of a program *)

Lemma getTarget_isolated p data nd del key w h v h' :
  heapInv h → O !! p = None → (∀ k v, (k, v) ∈ nd → outside v) →
  getTarget p data nd del key w h = (v, h') → outside v ∧ heapInv h'.
Proof.
  intros Hh Hp Hnd. unfold getTarget.
  destruct w as [| | | | | |r]; try (intros [= <- <-]; split; [by apply outside_primitive|done]).
  destruct (augment (VRef r) h) as [w h1] eqn:Ha. destruct (augment_isolated _ _ _ _ Hh Ha) as [Hw Hh1].
  assert (∀ v h', (if bool_decide (w ≠ VRef r)
      then (w, <[p := ObjectProxy data (obj_set key w nd) del]> h1) else (VRef r, h1)) = (v, h') →
    outside v ∧ heapInv h') as Hput.
  { intros v1 h2. destruct (bool_decide_reflect (w ≠ VRef r)) as [Hne|Heq]; intros [= <- <-].
    - split; [done|]. apply heapInv_insert; [done..|]. intros k v2 [->|Hin]%elem_of_obj_set; eauto.
    - apply dec_stable in Heq. by subst. }
  destruct (h !! r) as [[]|]; try (by apply Hput); intros [= <- <-]; (split; [|done]);
    apply outside_primitive; [by destruct time|done].
Qed.

Lemma getProperty_isolated r key h v h' :
  heapInv h → O !! r = None → getProperty r key h = (v, h') → outside v ∧ heapInv h'.
Proof.
  intros Hh Hr. unfold getProperty. destruct (h !! r) as [c|] eqn:Hc.
  2: { intros [= <- <-]. split; [by apply outside_primitive|done]. }
  pose proof (proj2 Hh _ _ Hc Hr) as Hout.
  destruct c; try (intros [= <- <-]; split; [by apply outside_primitive|done]).
  - intros [= <- <-]. split; [by apply outside_obj_get|done].
  - unfold getObject. repeat case_match; try (intros [= <- <-]; split; [by apply outside_primitive|done]).
    + intros [= <- <-]. split; [|done]. eapply Hout. by apply map_get_elem_of.
    + by apply getTarget_isolated.
Qed.

Lemma setProperty_isolated r key v h :
  heapInv h → O !! r = None → outside v → heapInv (setProperty r key v h).
Proof.
  intros Hh Hr Hv. unfold setProperty, setObject. destruct (h !! r) as [c|] eqn:Hc; [|done].
  pose proof (proj2 Hh _ _ Hc Hr) as Hout.
  destruct c; try done; [|case_match]; (apply heapInv_insert; [done..|]); simpl.
  - intros k v' [->|Hin]%elem_of_obj_set; eauto.
  - intros k v' Hin%elem_of_obj_delete. eauto.
  - intros k v' [->|Hin]%elem_of_obj_set; eauto.
Qed.

Lemma deleteProperty_isolated r key h : heapInv h → O !! r = None → heapInv (deleteProperty r key h).
Proof.
  intros Hh Hr. unfold deleteProperty, deleteObject. destruct (h !! r) as [c|] eqn:Hc; [|done].
  pose proof (proj2 Hh _ _ Hc Hr) as Hout.
  destruct c; try done; (apply heapInv_insert; [done..|]); simpl.
  - intros k v' Hin. unfold obj_delete in Hin. apply elem_of_map_delete in Hin as [Hin _]. eauto.
  - intros k v' Hin%elem_of_obj_delete. eauto.
Qed.

Lemma getElement_isolated r i h v h' :
  heapInv h → O !! r = None → getElement r i h = (v, h') → outside v ∧ heapInv h'.
Proof.
  intros Hh Hr. unfold getElement. destruct (h !! r) as [c|] eqn:Hc.
  2: { intros [= <- <-]. split; [by apply outside_primitive|done]. }
  pose proof (proj2 Hh _ _ Hc Hr) as Hout.
  destruct c; try (intros [= <- <-]; split; [by apply outside_primitive|done]).
  - intros [= <- <-]. split; [|done]. destruct (l !! i) as [[v|]|] eqn:E; simpl; try by apply outside_primitive.
    apply Hout. by eapply list_elem_of_lookup_2.
  - unfold getArray. destruct (augment _ h) as [w h1] eqn:Ha.
    destruct (augment_isolated _ _ _ _ Hh Ha) as [Hw Hh1].
    destruct (bool_decide_reflect (w ≠ default VUndefined (default None (currentData data newData h !! i))))
      as [Hne|Heq]; intros [= <- <-]; [split; [done|by apply heapInv_insert]|].
    apply dec_stable in Heq. by subst.
Qed.

Lemma setElement_isolated r i v h :
  heapInv h → O !! r = None → outside v → heapInv (setElement r i v h).
Proof.
  intros Hh Hr Hv. unfold setElement, setArray. destruct (h !! r) as [c|] eqn:Hc; [|done].
  pose proof (proj2 Hh _ _ Hc Hr) as Hout. destruct c; try done.
  - apply heapInv_insert; [done..|]. intros v' [->|Hin]%elem_of_setIndex; eauto.
  - destruct (augment v h) as [w h1] eqn:Ha. destruct (augment_isolated _ _ _ _ Hh Ha).
    by apply heapInv_insert.
Qed.

Lemma deleteElement_isolated r i h : heapInv h → O !! r = None → heapInv (deleteElement r i h).
Proof.
  intros Hh Hr. unfold deleteElement, deleteArray. destruct (h !! r) as [c|] eqn:Hc; [|done].
  pose proof (proj2 Hh _ _ Hc Hr) as Hout.
  destruct c; try done; apply heapInv_insert; try done.
  intros v (j & Hj)%list_elem_of_lookup. rewrite list_lookup_insert_Some in Hj.
  destruct Hj as [(_ & [=] & _)|[_ Hj]]. apply Hout. by eapply list_elem_of_lookup_2.
Qed.

Lemma resize_isolated r n h : heapInv h → O !! r = None → heapInv (resize r n h).
Proof.
  intros Hh Hr. unfold resize, setLengthArray. destruct (h !! r) as [c|] eqn:Hc; [|done].
  pose proof (proj2 Hh _ _ Hc Hr) as Hout.
  destruct c; try done; apply heapInv_insert; try done.
  intros v Hin%elem_of_setLength. by apply Hout.
Qed.

Lemma mutate_isolated f r h :
  (∀ c, outsideCell c → outsideCell (f c)) → heapInv h → O !! r = None → heapInv (mutate f r h).
Proof.
  intros Hf Hh Hr. unfold mutate. rewrite alter_alt. destruct (h !! r) as [c|] eqn:Hc; [|done].
  apply heapInv_insert; [done..|]. apply Hf. by apply (proj2 Hh _ _ Hc).
Qed.

Lemma heldRef_outside x s r : isolated s → heldRef x s.1 = Some r → O !! r = None.
Proof.
  intros [Hheld _]. unfold heldRef. destruct (s.1 !! x) as [[]|] eqn:E; try done. intros [= <-].
  apply (Hheld (VRef r0)); [|done]. by eapply list_elem_of_lookup_2.
Qed.

Lemma reads_isolated f x s :
  (∀ r h v h', heapInv h → O !! r = None → f r h = (v, h') → outside v ∧ heapInv h') →
  isolated s → isolated (reads f x s).
Proof.
  intros Hf Hs. unfold reads. destruct (heldRef x s.1) as [r|] eqn:Hr; [|done].
  pose proof (heldRef_outside _ _ _ Hs Hr). destruct Hs as [Hheld Hh].
  destruct (f r s.2) as [v h'] eqn:E. destruct (Hf _ _ _ _ Hh H E) as [Hv Hh'].
  split; [|done]. intros v'. simpl. rewrite elem_of_snoc. intros [?| ->]; eauto.
Qed.

Lemma writes_isolated f x s :
  (∀ r h, heapInv h → O !! r = None → heapInv (f r h)) → isolated s → isolated (writes f x s).
Proof.
  intros Hf Hs. unfold writes. destruct (heldRef x s.1) as [r|] eqn:Hr; [|done].
  pose proof (heldRef_outside _ _ _ Hs Hr). destruct Hs as [Hheld Hh]. split; [done|]. by apply Hf.
Qed.

Lemma writesValue_isolated f x y s :
  (∀ r v h, heapInv h → O !! r = None → outside v → heapInv (f r v h)) → isolated s → isolated (writesValue f x y s).
Proof.
  intros Hf Hs. unfold writesValue. destruct (s.1 !! y) as [v|] eqn:Hv; [|done].
  apply writes_isolated; [|done]. intros r h Hh Hr. apply Hf; [done..|].
  apply (proj1 Hs). by eapply list_elem_of_lookup_2.
Qed.

Lemma exec_isolated s o : isolated s → isolated (exec s o).
Proof.
  intros Hs. destruct o; simpl;
    try (apply writes_isolated; [|done]; intros; apply mutate_isolated; [by intros []|done..]).
  - destruct (primitive v) eqn:Hv; [|done]. destruct Hs as [Hheld Hh]. split; [|done].
    intros v'. simpl. rewrite elem_of_snoc. intros [?| ->]; [eauto|by apply outside_primitive].
  - destruct (initial c) eqn:Hc; [|done]. destruct Hs as [Hheld Hh]. split; simpl.
    + intros v'. rewrite elem_of_snoc. intros [?| ->]; [eauto|by apply outside_fresh].
    + apply heapInv_insert; [done|by apply heapInv_fresh|]. destruct c as [[]|[]| | | | |]; set_solver.
  - apply reads_isolated; [|done]. intros. by eapply getProperty_isolated.
  - apply writesValue_isolated; [|done]. intros. by apply setProperty_isolated.
  - apply writes_isolated; [|done]. intros. by apply deleteProperty_isolated.
  - apply reads_isolated; [|done]. intros. by eapply getElement_isolated.
  - apply writesValue_isolated; [|done]. intros. by apply setElement_isolated.
  - apply writes_isolated; [|done]. intros. by apply deleteElement_isolated.
  - apply writes_isolated; [|done]. intros. by apply resize_isolated.
Qed.

Lemma exec_all_isolated ops s : isolated s → isolated (foldl exec s ops).
Proof. revert s. induction ops as [|o ops IH]; intros s Hs; [done|]. by apply IH, exec_isolated. Qed.
End isolation.

(** The state in which an expression starts: it holds the augmented value. *)
Definition start (v : value) (O : heap) : state :=
  let '(v, h) := augment v O in ([v], h).

Definition runOn (v : value) (O : heap) (ops : list op) : state := foldl exec (start v O) ops.


Lemma itemHeap_original : original itemHeap.
Proof.
  intros r c Hr. unfold itemHeap in Hr.
  repeat (apply lookup_insert_Some in Hr as [[<- <-]|[_ Hr]]); [..|apply lookup_singleton_Some in Hr as [<- <-]];
    simpl; try done; intros; repeat (rewrite elem_of_cons in *; destruct_or!; simplify_eq);
    try (by eexists); set_solver.
Qed.

(** The program overwrites, deletes and extends at every level. *)
Definition itemProgram : list op :=
  [Literal VNull; Get 0 "b"; SetTo 2 "c" 1; Delete 0 "a"; Get 0 "l"; GetAt 3 0; SetTo 4 "c" 1; GetAt 3 1;
   SetTime 5 (Some 7%Z); New (PlainObject []); SetAt 3 0 6; Resize 3 5; SetTo 0 "n" 6].


(** ** Where the isolation ends *)

Lemma setIndex_lookup i v l : i < length l → setIndex i v l !! i = Some (Some v).
Proof.
  intros Hi. unfold setIndex. rewrite bool_decide_true by done.
  by rewrite list_lookup_insert, decide_True.
Qed.

Lemma getElement_date p data newData i r time h :
  h !! p = Some (ArrayProxy data newData) → h !! r = Some (DateObject time) →
  currentData data newData h !! i = Some (Some (VRef r)) →
  ∃ q h' l, getElement p i h = (VRef q, h') ∧ h !! q = None ∧ h' !! q = Some (DateObject time) ∧
    h' !! p = Some (ArrayProxy data (Some l)) ∧ l !! i = Some (Some (VRef q)).
Proof.
  intros Hp Hr Hi. pose proof (fresh_ne _ _ _ Hr). pose proof (fresh_ne _ _ _ Hp).
  exists (fresh (dom h)), (<[p := ArrayProxy data (Some (setIndex i (VRef (fresh (dom h)))
    (getData data newData (<[fresh (dom h) := DateObject time]> h))))]> (<[fresh (dom h) := DateObject time]> h)),
    (setIndex i (VRef (fresh (dom h))) (getData data newData (<[fresh (dom h) := DateObject time]> h))).
  split_and!.
  - unfold getElement. rewrite Hp. simpl. rewrite Hi. simpl. rewrite Hr. simpl.
    by rewrite bool_decide_true by congruence.
  - apply not_elem_of_dom, is_fresh.
  - by rewrite lookup_insert_ne, lookup_insert, decide_True.
  - by rewrite lookup_insert, decide_True.
  - apply setIndex_lookup. apply lookup_lt_Some in Hi.
    destruct newData as [l|]; simpl in *; [done|]. rewrite length_fmap.
    unfold arrayData in *. destruct (decide (fresh (dom h) = data)) as [<-|Hne].
    + rewrite (proj1 (not_elem_of_dom h _)) in Hi by apply is_fresh. simpl in Hi. lia.
    + by rewrite lookup_insert_ne.
Qed.

(** A date in an array is copied by every access: after a second access, what the program does
    to the date that the first one returned is not seen in the array any more. *)
Theorem array_date_copied p data newData i r time h t :
  h !! p = Some (ArrayProxy data newData) → h !! r = Some (DateObject time) →
  currentData data newData h !! i = Some (Some (VRef r)) →
  ∃ q h1 q' h2 q'' h3, getElement p i h = (VRef q, h1) ∧ getElement p i h1 = (VRef q', h2) ∧ q' ≠ q ∧
    getElement p i (mutate (setTime t) q h2) = (VRef q'', h3) ∧ h3 !! q'' = Some (DateObject time).
Proof.
  intros Hp Hr Hi.
  destruct (getElement_date _ _ _ _ _ _ _ Hp Hr Hi) as (q & h1 & l1 & E1 & _ & Hq & Hp1 & Hl1).
  destruct (getElement_date _ _ _ _ _ _ _ Hp1 Hq Hl1) as (q' & h2 & l2 & E2 & Hf & Hq' & Hp2 & Hl2).
  assert (q' ≠ q) as Hne by congruence.
  assert (mutate (setTime t) q h2 !! p = Some (ArrayProxy data (Some l2))) as Hp2'.
  { unfold mutate. rewrite lookup_alter. case_decide; [subst q|]; by rewrite Hp2. }
  assert (mutate (setTime t) q h2 !! q' = Some (DateObject time)) as Hq2.
  { unfold mutate. by rewrite lookup_alter_ne. }
  destruct (getElement_date _ _ _ _ _ _ _ Hp2' Hq2 Hl2) as (q'' & h3 & l3 & E3 & _ & Hq'' & _).
  by exists q, h1, q', h2, q'', h3.
Qed.

(** A regular expression in an array is not copied: its position is shared with the data. *)
Example regexp_in_array_shared :
  (runOn (VRef 0) {[ 0 := PlainArray [Some (VRef 1)]; 1 := RegExpObject "a" "g" 0 ]}
     [GetAt 0 0; SetLastIndex 1 5]).2 !! 1 = Some (RegExpObject "a" "g" 5).
Proof. vm_compute. reflexivity. Qed.

(** The property descriptor of a nested object is that of the data, so that its value is the
    original object and not a proxy; of an array it is that of the data after a change too. *)
Example descriptor_exposes_data :
  descriptorObject 0 [] [] "b" itemProxy = Some (VRef 1) ∧ ¬ outside itemHeap (VRef 1) ∧
  descriptorArray 2 (Some [Some (VStr "new")]) 0 itemProxy = Some (VRef 1).
Proof.
  split_and!; [vm_compute; reflexivity| |vm_compute; reflexivity].
  intros Hout. by specialize (Hout 1 eq_refl).
Qed.

(** The proxies have no handler for [defineProperty], so the language defines the property on
    the target. *)
Definition defineProperty (r : nat) (key : string) (v : value) (h : heap) : heap :=
  match h !! r with
  | Some (ObjectProxy data _ _) => setProperty data key v h
  | _ => setProperty r key v h
  end.

Theorem defineProperty_changes_data :
  itemProxy !! 4 = Some (ObjectProxy 0 [] []) ∧
  obj_get "a" (objectData 0 itemProxy) = Some (VStr "x") ∧
  obj_get "a" (objectData 0 (defineProperty 4 "a" VNull itemProxy)) = Some VNull.
Proof. by vm_compute. Qed.
