(* ===== verification/FromAi.v ===== *)
(** * Calls of [$fromAI] in node parameters

    Model of [packages/workflow/src/from-ai-parse-utils.ts]: extraction of the calls of
    [$fromAI] from the parameters of a node, and the filter that admits in the parameters of
    a chat tool only expressions that are such a call.

    Strings are lists of characters with codes below 256.  [Number] and [JSON.parse] of the
    language are parameters; the construction of schemas with the package [zod] is outside
    the model. *)

From S2P Require Import Prelude JsCollections NodeTypes.

Abbreviation chars := (list ascii) (only parsing).

Definition ofString : string → chars := String.list_ascii_of_string.

(** ** Characters *)

Definition code (c : ascii) : N := N_of_ascii c.

(** [\s]: tab, line feed, vertical tab, form feed, carriage return, space, no-break space *)
Definition isSpace (c : ascii) : bool :=
  let n := code c in ((9 <=? n)%N && (n <=? 13)%N) || (n =? 32)%N || (n =? 160)%N.

Definition isUpper (c : ascii) : bool := ((65 <=? code c)%N && (code c <=? 90)%N).
Definition isLower (c : ascii) : bool := ((97 <=? code c)%N && (code c <=? 122)%N).
Definition isDigit (c : ascii) : bool := ((48 <=? code c)%N && (code c <=? 57)%N).

(** [toLowerCase] of a character *)
Definition lower (c : ascii) : ascii :=
  if isUpper c || ((192 <=? code c)%N && (code c <=? 222)%N && negb (code c =? 215)%N)
  then ascii_of_N (code c + 32) else c.

Definition toLowerCase (s : chars) : chars := lower <$> s.

Definition backslash : ascii := "\".
Definition dollar : ascii := "$".
Definition backtick : ascii := "`".
Definition quote1 : ascii := "'".
Definition quote2 : ascii := ascii_of_N 34.
Definition openParen : ascii := "(".
Definition closeParen : ascii := ")".
Definition openBrace : ascii := "{".
Definition comma : ascii := ",".

(** One of the three quotes *)
Definition isQuote (c : ascii) : bool := bool_decide (c ∈ [quote2; quote1; backtick]).

Fixpoint skipSpaces (s : chars) : chars :=
  match s with
  | c :: t => if isSpace c then skipSpaces t else s
  | [] => []
  end.

Definition trim (s : chars) : chars := reverse (skipSpaces (reverse (skipSpaces s))).

(** What follows [prefix] in [s], if [s] starts with it *)
Fixpoint stripPrefix (prefix s : chars) : option chars :=
  match prefix, s with
  | [], _ => Some s
  | p :: prefix, c :: s => if bool_decide (c = p) then stripPrefix prefix s else None
  | _ :: _, [] => None
  end.

Definition startsWith (prefix s : chars) : bool := bool_decide (is_Some (stripPrefix prefix s)).
Definition endsWith (suffix s : chars) : bool := startsWith (reverse suffix) (reverse s).

(** [s.slice(n, -n)] *)
Definition sliceBoth (n : nat) (s : chars) : chars := drop n (take (length s - n) s).

(** Replaces every backslash before [c], together with [c], by [c]: the regular expressions of
    [parseArguments] with the flag [g]. *)
Fixpoint replaceEscaped (c : ascii) (s : chars) : chars :=
  match s with
  | a :: t =>
      match t with
      | b :: t' =>
          if bool_decide (a = backslash ∧ b = c) then c :: replaceEscaped c t'
          else a :: replaceEscaped c t
      | [] => [a]
      end
  | [] => []
  end.

(** ** Arguments *)

Record FromAIArgument := {
  key : chars;
  description : option chars;
  type : chars;
  defaultValue : option json;
}.

#[global] Instance FromAIArgument_eq_dec : EqDecision FromAIArgument.
Proof. solve_decision. Defined.

Definition isFromAIArgumentType (value : chars) : bool :=
  bool_decide (toLowerCase value ∈ ofString <$> ["string"; "number"; "boolean"; "json"]).

(** The loop of [parseArguments]: [quote] is [quoteChar] while [inQuotes] holds. *)
Fixpoint splitArguments (currentArg : chars) (quote : option ascii) (escapeNext : bool) (s : chars) : list chars :=
  match s with
  | [] => if bool_decide (currentArg = []) then [] else [trim currentArg]
  | c :: s =>
      if escapeNext then splitArguments (currentArg ++ [c]) quote false s
      else if bool_decide (c = backslash) then splitArguments currentArg quote true s
      else if isQuote c then
        let quote :=
          match quote with
          | None => Some c
          | Some q => if bool_decide (c = q) then None else quote
          end in
        splitArguments (currentArg ++ [c]) quote false s
      else if bool_decide (c = comma ∧ quote = None) then trim currentArg :: splitArguments [] quote false s
      else splitArguments (currentArg ++ [c]) quote false s
  end.

(** Removal of the surrounding quotes *)
Definition cleanArgument (arg : chars) : chars :=
  let trimmed := trim arg in
  if (startsWith [quote1] trimmed && endsWith [quote1] trimmed)
     || (startsWith [backtick] trimmed && endsWith [backtick] trimmed)
     || (startsWith [quote2] trimmed && endsWith [quote2] trimmed)
  then replaceEscaped backslash (replaceEscaped quote2 (replaceEscaped backtick
         (replaceEscaped quote1 (sliceBoth 1 trimmed))))
  else trimmed.

Section fromAI.
Context (toNumber : chars → option spec_float) (parseJSON : chars → option json).

(** [None] of [toNumber] is [NaN], of [parseJSON] an exception. *)
Definition parseDefaultValue (value : option chars) (type : chars) : option json :=
  match value with
  | None => None
  | Some value =>
      let lowerValue := toLowerCase value in
      let json := match parseJSON value with Some v => Some v | None => Some (JStr (String.string_of_list_ascii value)) end in
      if bool_decide (type = ofString "string") then Some (JStr (String.string_of_list_ascii value))
      else if bool_decide (type = ofString "boolean" ∧ (lowerValue = ofString "true" ∨ lowerValue = ofString "false"))
      then Some (JBool (bool_decide (lowerValue = ofString "true")))
      else if bool_decide (type = ofString "number")
      then match toNumber value with Some x => Some (JNum x) | None => json end
      else json
  end.

Definition parseArguments (argsString : chars) : res FromAIArgument :=
  let cleanArgs := cleanArgument <$> splitArguments [] None false argsString in
  let type := default (ofString "string") (cleanArgs !! 2) in
  if isFromAIArgumentType type
  then Ok {| key := default [] (cleanArgs !! 0); description := cleanArgs !! 1; type := type;
             defaultValue := parseDefaultValue (cleanArgs !! 3) type |}
  else Throw (ParseError ("Invalid type: " ++ String.string_of_list_ascii type)%string).

(** ** Extraction *)

Fixpoint stripIgnoringCase (prefix s : chars) : option chars :=
  match prefix, s with
  | [], _ => Some s
  | p :: prefix, c :: s => if bool_decide (lower c = p) then stripIgnoringCase prefix s else None
  | _ :: _, [] => None
  end.

(** The rest of [s] behind a match of [/\$fromAI\s*\(/i] at its start *)
Definition matchHead (s : chars) : option chars :=
  match stripIgnoringCase (ofString "$fromai") s with
  | Some s =>
      match skipSpaces s with
      | c :: s => if bool_decide (c = openParen) then Some s else None
      | [] => None
      end
  | None => None
  end.

(** [pattern.exec]: the rest behind the next match of [/\$fromAI\s*\(\s*/gi] *)
Fixpoint execPattern (s : chars) : option chars :=
  match matchHead s with
  | Some rest => Some (skipSpaces rest)
  | None => match s with [] => None | _ :: s => execPattern s end
  end.

(** The text up to the matching parenthesis, if there is one *)
Fixpoint scanArguments (quote : option ascii) (parenthesesCount : nat) (argsString s : chars) : option chars :=
  match s with
  | [] => None
  | c :: t =>
      match quote with
      | Some q =>
          match t with
          | d :: t' =>
              if bool_decide (c = backslash) then scanArguments quote parenthesesCount (argsString ++ [c; d]) t'
              else scanArguments (if bool_decide (c = q) then None else quote) parenthesesCount (argsString ++ [c]) t
          | [] => None
          end
      | None =>
          if isQuote c then scanArguments (Some c) parenthesesCount (argsString ++ [c]) t
          else if bool_decide (c = openParen)
          then scanArguments None (S parenthesesCount) (argsString ++ [c]) t
          else if bool_decide (c = closeParen) then
            match parenthesesCount with
            | S (S n) => scanArguments None (S n) (argsString ++ [c]) t
            | _ => Some argsString
            end
          else scanArguments None parenthesesCount (argsString ++ [c]) t
      end
  end.

(** One call, from behind its opening parenthesis *)
Definition extractCall (s : chars) : res FromAIArgument :=
  match scanArguments None 1 [] s with
  | Some argsString =>
      match parseArguments argsString with
      | Throw (ParseError msg) =>
          Throw (ParseError ("Failed to parse $fromAI arguments: " ++ String.string_of_list_ascii argsString
                               ++ ": Error: " ++ msg)%string)
      | r => r
      end
  | None => Throw (ParseError ("Unbalanced parentheses while parsing $fromAI call: " ++ String.string_of_list_ascii s)%string)
  end.

(** The loop; [lastIndex] of the pattern is behind the opening parenthesis. *)
Fixpoint extractLoop (fuel : nat) (args : list FromAIArgument) (s : chars) : res (list FromAIArgument) :=
  match fuel with
  | 0 => OutOfFuel
  | S fuel =>
      match execPattern s with
      | None => Ok args
      | Some rest => parsedArgs ← extractCall rest; extractLoop fuel (args ++ [parsedArgs]) rest
      end
  end.

Definition extractFromAICalls (str : chars) : res (list FromAIArgument) := extractLoop (S (length str)) [] str.

(** ** Traversal of parameters *)

Fixpoint traverseNodeParameters (payload : json) (collectedArgs : list FromAIArgument) : res (list FromAIArgument) :=
  match payload with
  | JStr s => fromAICalls ← extractFromAICalls (ofString s); Ok (collectedArgs ++ fromAICalls)
  | JArr l =>
      (fix items (l : list json) collectedArgs :=
         match l with
         | [] => Ok collectedArgs
         | item :: l => collectedArgs ← traverseNodeParameters item collectedArgs; items l collectedArgs
         end) l collectedArgs
  | JObj o =>
      (fix values (o : list (string * json)) collectedArgs :=
         match o with
         | [] => Ok collectedArgs
         | (_, value) :: o => collectedArgs ← traverseNodeParameters value collectedArgs; values o collectedArgs
         end) o collectedArgs
  | _ => Ok collectedArgs
  end.

(** Without a name the key of a string is [undefined], and the text of [undefined] is put before
    the index of an array. *)
Fixpoint traverseNodeParametersWithParamNames (payload : json) (collectedArgs : jsmap (option string) FromAIArgument)
    (name : option string) : res (jsmap (option string) FromAIArgument) :=
  match payload with
  | JStr s =>
      fromAICalls ← extractFromAICalls (ofString s);
      Ok (foldl (λ collectedArgs call, map_set name call collectedArgs) collectedArgs fromAICalls)
  | JArr l =>
      (fix items (index : nat) (l : list json) collectedArgs :=
         match l with
         | [] => Ok collectedArgs
         | item :: l =>
             collectedArgs ← traverseNodeParametersWithParamNames item collectedArgs
               (Some (default "undefined" name ++ "[" ++ pretty index ++ "]")%string);
             items (S index) l collectedArgs
         end) 0 l collectedArgs
  | JObj o =>
      (fix entries (o : list (string * json)) collectedArgs :=
         match o with
         | [] => Ok collectedArgs
         | (key, value) :: o =>
             collectedArgs ← traverseNodeParametersWithParamNames value collectedArgs
               (Some match name with
                     | None | Some EmptyString => key
                     | Some name => (name ++ "." ++ key)%string
                     end);
             entries o collectedArgs
         end) o collectedArgs
  | _ => Ok collectedArgs
  end.
End fromAI.

(** ** The filter for the parameters of chat tools *)

Definition isExpression (expr : json) : bool :=
  match expr with JStr (String c _) => bool_decide (c = "="%char) | _ => false end.

Definition marker : chars := ofString "/*n8n-auto-generated-fromAI-override*/".

(** [/[a-zA-Z0-9_]/] *)
Definition isWordChar (c : ascii) : bool := isUpper c || isLower c || isDigit c || bool_decide (c = "_"%char).

(** [/[a-zA-Z0-9.,\s-]/] *)
Definition isLiteralChar (c : ascii) : bool :=
  isUpper c || isLower c || isDigit c || isSpace c || bool_decide (c ∈ ["."; ","; "-"]%char).

(** What is left of an expression without prefix, delimiters and marker *)
Definition stripExpression (expr : chars) : chars :=
  let str := default expr (stripPrefix (ofString "=") expr) in
  let str := trim str in
  let str :=
    if startsWith (ofString "{{") str && endsWith (ofString "}}") str then trim (sliceBoth 2 str) else str in
  match stripPrefix marker str with Some str => trim str | None => str end.

(** The walk to the matching parenthesis, from behind the opening one: what follows it, if only
    literals come before it. *)
Fixpoint walkLiterals (quote lastOutsideChar : option ascii) (s : chars) : option chars :=
  match s with
  | [] => None
  | c :: t =>
      match quote with
      | Some q =>
          match t with
          | d :: t' =>
              if bool_decide (c = backslash) then walkLiterals quote lastOutsideChar t'
              else if bool_decide (q = backtick ∧ c = dollar ∧ d = openBrace) then None
              else walkLiterals (if bool_decide (c = q) then None else quote) lastOutsideChar t
          | [] => None
          end
      | None =>
          if isQuote c then
            if bool_decide (c = backtick) && from_option isWordChar false lastOutsideChar then None
            else walkLiterals (Some c) (Some c) t
          else if bool_decide (c = closeParen) then Some t
          else if isLiteralChar c then walkLiterals None (if isSpace c then lastOutsideChar else Some c) t
          else None
      end
  end.

Definition isFromAIOnlyExpression (expr : chars) : bool :=
  match matchHead (stripExpression expr) with
  | None => false
  | Some str =>
      match walkLiterals None None str with
      | None => false
      | Some remainder => bool_decide (trim remainder = [])
      end
  end.

(** *** Expressions among the defaults of a node type *)

(** What the traversal reads of an entry of [options], be it an option, a property or a
    collection: [values], whether there is a [type], [default] and [options] *)
Inductive INodeProperties :=
  Property (values : option (list INodeProperties)) (typed : bool) (defaultOf : option json)
           (options : option (list INodeProperties)).

Definition addDefault (p : INodeProperties) (defaults : jsset string) : jsset string :=
  match p with
  | Property _ _ (Some (JStr s)) _ => if isExpression (JStr s) then set_add s defaults else defaults
  | _ => defaults
  end.

(** [collectDefaults] for one property *)
Fixpoint collectProperty (prop : INodeProperties) (defaults : jsset string) : jsset string :=
  let defaults := addDefault prop defaults in
  match prop with
  | Property _ _ _ None => defaults
  | Property _ _ _ (Some options) =>
      (fix each (options : list INodeProperties) defaults :=
         match options with
         | [] => defaults
         | option :: options =>
             let defaults :=
               match option with
               | Property (Some values) _ _ _ =>
                   (fix collect (values : list INodeProperties) defaults :=
                      match values with
                      | [] => defaults
                      | value :: values => collect values (collectProperty value defaults)
                      end) values defaults
               | _ => defaults
               end in
             let defaults :=
               match option with
               | Property _ true (Some _) nested =>
                   let defaults := addDefault option defaults in
                   match nested with Some _ => collectProperty option defaults | None => defaults end
               | _ => defaults
               end in
             each options defaults
         end) options defaults
  end.

Definition collectDefaults (props : list INodeProperties) (defaults : jsset string) : jsset string :=
  foldl (λ defaults prop, collectProperty prop defaults) defaults props.

Definition collectExpressionDefaults (properties : list INodeProperties) : jsset string :=
  collectDefaults properties [].

(** *** Violations *)

Record ExpressionViolation := { path : string; value : string }.

Definition keyPath (path key : string) : string :=
  match path with EmptyString => key | _ => (path ++ "." ++ key)%string end.

Definition indexPath (path : string) (index : nat) : string := (path ++ "[" ++ pretty index ++ "]")%string.

Definition disallowed (allowedExpressions : option (jsset string)) (s : string) : bool :=
  isExpression (JStr s) && negb (isFromAIOnlyExpression (ofString s)) &&
  negb (from_option (set_has s) false allowedExpressions).

Fixpoint findDisallowedChatToolExpressions (payload : json) (path : string)
    (allowedExpressions : option (jsset string)) : list ExpressionViolation :=
  match payload with
  | JStr s => if disallowed allowedExpressions s then [{| path := path; value := s |}] else []
  | JArr l =>
      (fix items (index : nat) (l : list json) :=
         match l with
         | [] => []
         | item :: l =>
             findDisallowedChatToolExpressions item (indexPath path index) allowedExpressions ++ items (S index) l
         end) 0 l
  | JObj o =>
      (fix entries (o : list (string * json)) :=
         match o with
         | [] => []
         | (key, value) :: o =>
             findDisallowedChatToolExpressions value (keyPath path key) allowedExpressions ++ entries o
         end) o
  | _ => []
  end.
