(* ===== verification/FromAiFilter.v ===== *)
(** * The expressions that chat tools may use

    The language that [isFromAIOnlyExpression] accepts, as a grammar, and the proof that the
    single walk over the characters accepts exactly that language; from it, what the search for
    disallowed expressions in parameters finds.  The end of the file records where the language
    is wider than intended. *)

From S2P Require Import Prelude JsCollections NodeTypes FromAi.

(** ** The grammar

    The arguments of a call are a row of strings in quotes and of other characters: letters,
    digits, spaces, the full stop, the comma and the minus sign.  That row need not be literals:
    names and property accesses consist of such characters, too.  A string consists of plain and
    escaped characters.  The characters are listed here, independently of the code. *)

Definition letters : chars := ofString "abcdefghijklmnopqrstuvwxyzABCDEFGHIJKLMNOPQRSTUVWXYZ".
Definition digits : chars := ofString "0123456789".

(** Tab, line feed, vertical tab, form feed, carriage return, space and no-break space *)
Definition spaces : chars := ascii_of_nat <$> [9; 10; 11; 12; 13; 32; 160].

(** The characters that may stand outside of strings *)
Definition outsideChars : chars := letters ++ digits ++ spaces ++ ofString ".,-".

(** Behind one of these a template would be a call. *)
Definition nameChars : chars := letters ++ digits ++ ofString "_".

Definition quotes : chars := ofString "'`" ++ [ascii_of_nat 34].

Inductive piece := Plain (c : ascii) | Escaped (c : ascii).

Inductive token := Outside (c : ascii) | Quoted (q : ascii) (body : list piece).

Definition printPiece (p : piece) : chars :=
  match p with Plain c => [c] | Escaped c => [backslash; c] end.

Definition printToken (t : token) : chars :=
  match t with
  | Outside c => [c]
  | Quoted q body => q :: (body ≫= printPiece) ++ [q]
  end.

(** No quote ends the string early, and a template has no interpolation. *)
Fixpoint wfBody (q : ascii) (body : list piece) : Prop :=
  match body with
  | [] => True
  | Escaped _ :: body => wfBody q body
  | Plain c :: body =>
      c ≠ q ∧ c ≠ backslash ∧
      (q = backtick → c = dollar → ∀ body', body ≠ Plain openBrace :: body') ∧ wfBody q body
  end.

(** [last] is the last character outside of strings that is not a space. *)
Fixpoint wfTokens (last : option ascii) (ts : list token) : Prop :=
  match ts with
  | [] => True
  | Outside c :: ts => c ∈ outsideChars ∧ wfTokens (if bool_decide (c ∈ spaces) then last else Some c) ts
  | Quoted q body :: ts =>
      q ∈ quotes ∧ wfBody q body ∧
      (q = backtick → ∀ c, last = Some c → c ∉ nameChars) ∧ wfTokens (Some q) ts
  end.

(** A single call of [$fromAI], in any case, with such arguments *)
Definition fromAICall (s : chars) : Prop :=
  ∃ name before ts rest,
    s = name ++ before ++ openParen :: (ts ≫= printToken) ++ closeParen :: rest ∧
    toLowerCase name = ofString "$fromai" ∧ Forall (.∈ spaces) before ∧
    wfTokens None ts ∧ Forall (.∈ spaces) rest.

(** *** The classes of the code are these characters *)

Lemma isSpace_spec c : isSpace c = bool_decide (c ∈ spaces).
Proof. by destruct c as [[] [] [] [] [] [] [] []]; vm_compute. Qed.

Lemma isLiteralChar_spec c : isLiteralChar c = bool_decide (c ∈ outsideChars).
Proof. by destruct c as [[] [] [] [] [] [] [] []]; vm_compute. Qed.

Lemma isWordChar_spec c : isWordChar c = bool_decide (c ∈ nameChars).
Proof. by destruct c as [[] [] [] [] [] [] [] []]; vm_compute. Qed.

Lemma isQuote_spec c : isQuote c = bool_decide (c ∈ quotes).
Proof. by destruct c as [[] [] [] [] [] [] [] []]; vm_compute. Qed.

Lemma spaces_Forall s : Forall (.∈ spaces) s ↔ Forall (λ c, isSpace c = true) s.
Proof. apply Forall_iff. intros c. by rewrite isSpace_spec, bool_decide_eq_true. Qed.

Lemma tag_spec last : (∀ c, last = Some c → c ∉ nameChars) ↔ from_option isWordChar false last = false.
Proof.
  destruct last as [c|]; simpl; [|by split]. rewrite isWordChar_spec, bool_decide_eq_false. naive_solver.
Qed.

(** ** The walk accepts the grammar *)

Lemma quote_not_backslash q : isQuote q = true → q ≠ backslash.
Proof. intros Hq ->. vm_compute in Hq. done. Qed.

Lemma quote_not_brace q : isQuote q = true → q ≠ openBrace.
Proof. intros Hq ->. vm_compute in Hq. done. Qed.

Lemma quote_not_literal c : isQuote c = true → isLiteralChar c = false.
Proof.
  unfold isQuote. rewrite bool_decide_eq_true, !elem_of_cons, elem_of_nil.
  by intros [->|[->|[->|[]]]].
Qed.

Lemma quote_not_close c : isQuote c = true → c ≠ closeParen.
Proof. intros Hc ->. vm_compute in Hc. done. Qed.

(** One step inside of a string *)
Lemma walk_plain q last c d s :
  c ≠ backslash → (q = backtick → c = dollar → d ≠ openBrace) →
  walkLiterals (Some q) last (c :: d :: s) = walkLiterals (if bool_decide (c = q) then None else Some q) last (d :: s).
Proof.
  intros Hc Hd. change (walkLiterals (Some q) last (c :: d :: s)) with
    (if bool_decide (c = backslash) then walkLiterals (Some q) last s
     else if bool_decide (q = backtick ∧ c = dollar ∧ d = openBrace) then None
     else walkLiterals (if bool_decide (c = q) then None else Some q) last (d :: s)).
  by rewrite bool_decide_false, (bool_decide_false (_ ∧ _)) by naive_solver.
Qed.

Lemma walk_close q last s :
  isQuote q = true → walkLiterals (Some q) last (q :: s) = walkLiterals None last s.
Proof.
  intros Hq. destruct s as [|d s]; [done|].
  rewrite walk_plain, bool_decide_true; [done..|by apply quote_not_backslash|].
  by intros -> ?.
Qed.

Lemma walk_body q body last s :
  isQuote q = true → wfBody q body →
  walkLiterals (Some q) last ((body ≫= printPiece) ++ q :: s) = walkLiterals None last s.
Proof.
  intros Hq. induction body as [|[c|c] body IH]; intros Hwf; simpl in Hwf.
  - by apply walk_close.
  - destruct Hwf as (Hcq & Hc & Ht & Hwf).
    change ((Plain c :: body) ≫= printPiece) with (c :: (body ≫= printPiece)).
    rewrite <- (IH Hwf). simpl app.
    destruct ((body ≫= printPiece) ++ q :: s) as [|d t] eqn:E; [by destruct (body ≫= printPiece)|].
    rewrite walk_plain, bool_decide_false; [done..|].
    intros -> -> ->. destruct body as [|[c|c] body]; simplify_eq/=. by eapply Ht.
  - change ((Escaped c :: body) ≫= printPiece) with (backslash :: c :: (body ≫= printPiece)).
    by rewrite <- (IH Hwf).
Qed.

Lemma walk_tokens ts last rest :
  wfTokens last ts → walkLiterals None last ((ts ≫= printToken) ++ closeParen :: rest) = Some rest.
Proof.
  revert last. induction ts as [|[c|q body] ts IH]; intros last Hwf; simpl in Hwf; [done|..].
  - destruct Hwf as [Hc Hwf]. assert (isLiteralChar c = true) as Hl by (by rewrite isLiteralChar_spec, bool_decide_true).
    rewrite <- isSpace_spec in Hwf. simpl. rewrite Hl.
    destruct (isQuote c) eqn:Hq; [apply quote_not_literal in Hq; congruence|].
    rewrite bool_decide_false; [by apply IH|]. by intros ->.
  - destruct Hwf as (Hq & Hbody & Htag & Hwf). rewrite tag_spec in Htag.
    assert (isQuote q = true) as Hq' by (by rewrite isQuote_spec, bool_decide_true). clear Hq. rename Hq' into Hq.
    change ((Quoted q body :: ts) ≫= printToken) with ((q :: (body ≫= printPiece) ++ [q]) ++ (ts ≫= printToken)).
    rewrite <- !app_assoc. simpl. rewrite Hq, <- app_assoc.
    destruct (bool_decide_reflect (q = backtick)) as [->|]; simpl; [rewrite Htag by done|];
      rewrite walk_body by done; by apply IH.
Qed.

(** ** The grammar covers what the walk accepts *)

Lemma walk_quoted_inv n q last s rest :
  length s ≤ n → isQuote q = true → walkLiterals (Some q) last s = Some rest →
  ∃ body s', wfBody q body ∧ s = (body ≫= printPiece) ++ q :: s' ∧ walkLiterals None last s' = Some rest.
Proof.
  intros Hn Hq. revert s Hn. induction n as [|n IH]; intros s Hn Hw; [by destruct s; [|simpl in Hn; lia]|].
  destruct s as [|c [|d s]]; try done.
  destruct (decide (c = backslash)) as [->|Hc].
  { change (walkLiterals (Some q) last s = Some rest) in Hw.
    destruct (IH s) as (body & s' & Hwf & -> & Hs'); [simpl in Hn; lia|done|].
    by exists (Escaped d :: body), s'. }
  destruct (decide (q = backtick ∧ c = dollar ∧ d = openBrace)) as [(-> & -> & ->)|Hd]; [done|].
  rewrite walk_plain in Hw by naive_solver.
  destruct (bool_decide_reflect (c = q)) as [->|Hcq]; [by exists [], (d :: s)|].
  destruct (IH (d :: s)) as (body & s' & Hwf & Heq & Hs'); [simpl in *; lia|done|].
  exists (Plain c :: body), s'. split_and!; [|by simpl; f_equal|done].
  simpl. split_and!; [done..| |done]. intros -> -> body' ->. simplify_eq/=. naive_solver.
Qed.

Lemma walk_inv n last s rest :
  length s ≤ n → walkLiterals None last s = Some rest →
  ∃ ts, wfTokens last ts ∧ s = (ts ≫= printToken) ++ closeParen :: rest.
Proof.
  revert last s. induction n as [|n IH]; intros last s Hn Hw; [by destruct s; [|simpl in Hn; lia]|].
  destruct s as [|c s]; [done|]. simpl in Hw, Hn.
  destruct (isQuote c) eqn:Hq.
  - destruct (bool_decide (c = backtick) && from_option isWordChar false last) eqn:Htag; [done|].
    destruct (walk_quoted_inv (length s) c (Some c) s rest) as (body & s' & Hbody & -> & Hs'); [done..|].
    rewrite length_app in Hn. simpl in Hn.
    destruct (IH (Some c) s') as (ts & Hts & ->); [lia|done|].
    exists (Quoted c body :: ts). split.
    + simpl. rewrite isQuote_spec, bool_decide_eq_true in Hq. split_and!; [done..| |done].
      intros ->. rewrite tag_spec. by rewrite bool_decide_true in Htag.
    + simpl. by rewrite <- !app_assoc.
  - destruct (bool_decide_reflect (c = closeParen)) as [->|Hc]; [simplify_eq; by exists []|].
    destruct (isLiteralChar c) eqn:Hl; [|done].
    destruct (IH _ s ltac:(lia) Hw) as (ts & Hts & ->). exists (Outside c :: ts). split; [|done]. simpl.
    rewrite <- isSpace_spec. split; [|done]. by rewrite isLiteralChar_spec, bool_decide_eq_true in Hl.
Qed.

(** ** The whole expression *)

Lemma skipSpaces_split s : ∃ spaces, s = spaces ++ skipSpaces s ∧ Forall (λ c, isSpace c = true) spaces.
Proof.
  induction s as [|c s (spaces & Hs & Hall)]; [by exists []|]. simpl.
  destruct (isSpace c) eqn:Hc; [|by exists []].
  exists (c :: spaces). split; [simpl; by f_equal|by constructor].
Qed.

Lemma skipSpaces_app spaces s :
  Forall (λ c, isSpace c = true) spaces → skipSpaces (spaces ++ s) = skipSpaces s.
Proof. induction 1 as [|c spaces Hc _ IH]; [done|]. simpl. by rewrite Hc. Qed.

Lemma skipSpaces_nil s : skipSpaces s = [] ↔ Forall (λ c, isSpace c = true) s.
Proof.
  split.
  - intros Hs. destruct (skipSpaces_split s) as (spaces & -> & Hall). rewrite Hs in *.
    by rewrite app_nil_r in *.
  - intros Hall. rewrite <- (app_nil_r s). by rewrite skipSpaces_app.
Qed.

Lemma trim_nil s : trim s = [] ↔ Forall (λ c, isSpace c = true) s.
Proof.
  unfold trim. split.
  - intros Ht. apply (f_equal reverse) in Ht. rewrite reverse_involutive in Ht.
    apply skipSpaces_nil in Ht. rewrite Forall_reverse in Ht.
    destruct (skipSpaces_split s) as (spaces & Hs & Hall). rewrite Hs. by apply Forall_app.
  - intros Hall%skipSpaces_nil. by rewrite Hall.
Qed.

Lemma stripIgnoringCase_spec p s r :
  stripIgnoringCase p s = Some r ↔ ∃ name, s = name ++ r ∧ toLowerCase name = p.
Proof.
  revert s. induction p as [|c p IH]; intros s; simpl.
  - split; [intros [= ->]; by exists []|]. by intros (name & -> & ->%fmap_nil_inv).
  - destruct s as [|d s].
    + split; [done|]. by intros ([|] & ? & ?).
    + destruct (bool_decide_reflect (lower d = c)) as [<-|Hne].
      * rewrite IH. split.
        -- intros (name & -> & <-). by exists (d :: name).
        -- intros ([|d' name] & Hs & Hn); simplify_eq/=. eauto.
      * split; [done|]. intros ([|d' name] & Hs & Hn); simplify_eq/=.
Qed.

Lemma matchHead_spec s r :
  matchHead s = Some r ↔
  ∃ name spaces, s = name ++ spaces ++ openParen :: r ∧
    toLowerCase name = ofString "$fromai" ∧ Forall (λ c, isSpace c = true) spaces.
Proof.
  unfold matchHead. split.
  - intros E. destruct (stripIgnoringCase _ s) as [s1|] eqn:Hs; [|done].
    apply stripIgnoringCase_spec in Hs as (name & -> & Hname).
    destruct (skipSpaces_split s1) as (spaces & Hs1 & Hall).
    destruct (skipSpaces s1) as [|c s2]; [done|].
    destruct (bool_decide_reflect (c = openParen)) as [->|]; simplify_eq.
    by exists name, spaces.
  - intros (name & spaces & -> & Hname & Hall).
    rewrite (proj2 (stripIgnoringCase_spec _ _ (spaces ++ openParen :: r))) by eauto.
    by rewrite skipSpaces_app.
Qed.

Lemma isFromAIOnlyExpression_spec expr :
  isFromAIOnlyExpression expr = true ↔ fromAICall (stripExpression expr).
Proof.
  unfold isFromAIOnlyExpression, fromAICall. split.
  - intros E. destruct (matchHead (stripExpression expr)) as [str|] eqn:Hm; [|done].
    apply matchHead_spec in Hm as (name & spaces & -> & Hname & Hsp).
    destruct (walkLiterals None None str) as [rest|] eqn:Hw; [|done].
    apply bool_decide_eq_true, trim_nil in E.
    destruct (walk_inv _ _ _ _ (le_n _) Hw) as (ts & Hts & ->). exists name, spaces, ts, rest.
    by rewrite !spaces_Forall.
  - intros (name & before & ts & rest & Hs & Hname & Hsp & Hts & Hrest). rewrite spaces_Forall in Hsp, Hrest.
    rewrite (proj2 (matchHead_spec _ ((ts ≫= printToken) ++ closeParen :: rest))) by eauto.
    rewrite walk_tokens by done. by apply bool_decide_eq_true, trim_nil.
Qed.

(** ** Violations *)

(** The strings in a value, with their paths *)
Inductive leaf : string → json → string → string → Prop :=
  | leaf_string path s : leaf path (JStr s) path s
  | leaf_item path l i v p s : l !! i = Some v → leaf (indexPath path i) v p s → leaf path (JArr l) p s
  | leaf_entry path o k v p s : (k, v) ∈ o → leaf (keyPath path k) v p s → leaf path (JObj o) p s.

(** A string that a chat tool may have as a parameter *)
Definition permitted (allowedExpressions : option (jsset string)) (s : string) : Prop :=
  isExpression (JStr s) = false ∨ fromAICall (stripExpression (ofString s)) ∨
  ∃ allowed, allowedExpressions = Some allowed ∧ s ∈ allowed.

Lemma permitted_spec allowed s : disallowed allowed s = false ↔ permitted allowed s.
Proof.
  unfold disallowed, permitted. rewrite <- isFromAIOnlyExpression_spec.
  destruct (isExpression (JStr s)), (isFromAIOnlyExpression (ofString s)); simpl;
    destruct allowed as [allowed|]; simpl; unfold set_has; case_bools; naive_solver.
Qed.

Lemma disallowed_spec allowed s : disallowed allowed s = true ↔ ¬ permitted allowed s.
Proof. rewrite <- permitted_spec. by rewrite not_false_iff_true. Qed.

Lemma findDisallowed_items allowed path l :
  findDisallowedChatToolExpressions (JArr l) path allowed =
  mjoin (imap (λ i v, findDisallowedChatToolExpressions v (indexPath path i) allowed) l).
Proof.
  simpl. change (imap (λ i v, findDisallowedChatToolExpressions v (indexPath path i) allowed) l)
    with (imap (λ i v, findDisallowedChatToolExpressions v (indexPath path (0 + i)) allowed) l).
  generalize 0. induction l as [|v l IH]; intros n; simpl; [done|].
  rewrite Nat.add_0_r. f_equal. rewrite IH. f_equal. apply imap_ext. intros i w _. simpl.
  by rewrite Nat.add_succ_r.
Qed.

Lemma findDisallowed_entries allowed path o :
  findDisallowedChatToolExpressions (JObj o) path allowed =
  o ≫= λ kv, findDisallowedChatToolExpressions kv.2 (keyPath path kv.1) allowed.
Proof. simpl. induction o as [|[k v] o IH]; simpl; [done|]. by f_equal. Qed.

Lemma findDisallowed_elem allowed v path p s :
  {| path := p; value := s |} ∈ findDisallowedChatToolExpressions v path allowed ↔
  leaf path v p s ∧ ¬ permitted allowed s.
Proof.
  revert path. induction v as [| | |s'|l IH|o IH] using json_induction; intros path;
    try (simpl; rewrite elem_of_nil; split; [done|by intros [Hl _]; inversion Hl]).
  - simpl. rewrite <- disallowed_spec. destruct (disallowed allowed s') eqn:Hd.
    + rewrite list_elem_of_singleton. split; [intros [= -> ->]; split; [constructor|done]|].
      intros [Hl _]. by inversion Hl.
    + rewrite elem_of_nil. split; [done|]. intros [Hl Hs]. inversion Hl. congruence.
  - rewrite findDisallowed_items, list_elem_of_join. split.
    + intros (vs & Hin & (i & v & -> & Hi)%elem_of_lookup_imap).
      apply IH in Hin as [Hl Hp]; [|by eapply list_elem_of_lookup_2]. split; [by econstructor|done].
    + intros [Hl Hp]. inversion Hl as [|? ? i v ? ? Hi Hv|]; simplify_eq.
      exists (findDisallowedChatToolExpressions v (indexPath path i) allowed). split.
      * apply IH; [by eapply list_elem_of_lookup_2|done].
      * apply elem_of_lookup_imap. eauto.
  - rewrite findDisallowed_entries, list_elem_of_bind. split.
    + intros ([k v] & Hin & Hkv). apply (IH k) in Hin as [Hl Hp]; [|done]. split; [by econstructor|done].
    + intros [Hl Hp]. inversion Hl as [| |? ? k v ? ? Hkv Hv]; simplify_eq.
      exists (k, v). split; [by apply (IH k)|done].
Qed.


(** A call with a string and a number is permitted, a nested call and an interpolation are not. *)
Example filter_examples :
  (λ s, isFromAIOnlyExpression (ofString s)) <$>
    ["={{ $fromAI('a', `b (c)`, 'number', -1.5) }}"; "=$fromAI(evil())"; "=$fromAI(`${x}`)"; "=$fromAI(f `x`)"]
  = [true; false; false; false].
Proof. vm_compute. reflexivity. Qed.

(** The characters of literals are those of names and of property accesses, too. *)
Example property_access_accepted :
  isFromAIOnlyExpression (ofString "={{ $fromAI(process.env.SECRET) }}") = true.
Proof. vm_compute. reflexivity. Qed.
