(* ===== verification/FromAiCalls.v ===== *)
(** * Extraction of $fromAI calls

    The loop that extracts the calls ends, and a call that is written with quoted and escaped
    arguments is read back as it was written.  The end of the file records calls that are not. *)

From S2P Require Import Prelude JsCollections NodeTypes FromAi.

Section calls.
Context (toNumber : chars → option spec_float) (parseJSON : chars → option json).

(** ** The loop ends *)

Lemma skipSpaces_length s : length (skipSpaces s) ≤ length s.
Proof. induction s as [|c s IH]; simpl; [done|]. case_match; simpl; lia. Qed.

Lemma stripIgnoringCase_length p s r : stripIgnoringCase p s = Some r → length s = length p + length r.
Proof.
  revert s. induction p as [|c p IH]; intros [|d s]; simpl; try (by intros [= <-]); try done.
  case_bools; [|done]. intros Hs%IH. by f_equal.
Qed.

Lemma matchHead_length s r : matchHead s = Some r → length r < length s.
Proof.
  unfold matchHead. destruct (stripIgnoringCase _ s) as [s1|] eqn:Hs; [|done].
  apply stripIgnoringCase_length in Hs. pose proof (skipSpaces_length s1).
  destruct (skipSpaces s1) as [|c s2]; [done|]. case_bools; [|done]. intros [= ->]. simpl in *. lia.
Qed.

Lemma execPattern_length s r : execPattern s = Some r → length r < length s.
Proof.
  induction s as [|c s IH]; [done|]. simpl.
  destruct (matchHead (c :: s)) as [r'|] eqn:Hm.
  - intros [= <-]. apply matchHead_length in Hm. pose proof (skipSpaces_length r'). simpl in *. lia.
  - intros Hr%IH. lia.
Qed.

Lemma parseArguments_returns s : returns (parseArguments toNumber parseJSON s).
Proof. unfold parseArguments. case_match; [apply returns_Ok|apply returns_Throw]. Qed.

Lemma extractCall_returns s : returns (extractCall toNumber parseJSON s).
Proof.
  unfold extractCall. destruct (scanArguments None 1 [] s) as [a|]; [|apply returns_Throw].
  pose proof (parseArguments_returns a) as Hr.
  destruct (parseArguments toNumber parseJSON a) as [x|[]|]; try done; apply returns_Throw.
Qed.

Lemma extractLoop_returns fuel args s : length s < fuel → returns (extractLoop toNumber parseJSON fuel args s).
Proof.
  revert args s. induction fuel as [|fuel IH]; intros args s Hf; [lia|]. simpl.
  destruct (execPattern s) as [rest|] eqn:E; [|apply returns_Ok].
  apply execPattern_length in E. apply returns_bind; [apply extractCall_returns|].
  intros a _. apply IH. lia.
Qed.

Lemma extractLoop_step fuel args s :
  extractLoop toNumber parseJSON (S fuel) args s =
  match execPattern s with
  | None => Ok args
  | Some rest =>
      parsedArgs ← extractCall toNumber parseJSON rest; extractLoop toNumber parseJSON fuel (args ++ [parsedArgs]) rest
  end.
Proof. done. Qed.

(** ** Written calls

    Arguments in quotes, with a backslash before quotes and backslashes *)

Definition escape (s : chars) : chars :=
  s ≫= λ c, if isQuote c || bool_decide (c = backslash) then [backslash; c] else [c].

Definition literal (q : ascii) (s : chars) : chars := q :: escape s ++ [q].

Fixpoint argsText (q : ascii) (args : list chars) : chars :=
  match args with
  | [] => []
  | [a] => literal q a
  | a :: args => literal q a ++ comma :: " "%char :: argsText q args
  end.

Definition callText (q : ascii) (args : list chars) : chars := ofString "$fromAI(" ++ argsText q args ++ [closeParen].

(** No backslash stands before a quote or a backslash. *)
Fixpoint unambiguous (s : chars) : bool :=
  match s with
  | a :: t =>
      match t with
      | b :: _ => negb (bool_decide (a = backslash) && (isQuote b || bool_decide (b = backslash))) && unambiguous t
      | [] => true
      end
  | [] => true
  end.

(** *** Finding the call *)

Lemma lower_dollar c : lower c = dollar → c = dollar.
Proof.
  intros H. destruct c as [[] [] [] [] [] [] [] []]; vm_compute in H; try done.
Qed.

Lemma execPattern_skip pre s : dollar ∉ pre → execPattern (pre ++ s) = execPattern s.
Proof.
  induction pre as [|c pre IH]; [done|]. rewrite not_elem_of_cons. intros [Hc Hpre]. simpl.
  unfold matchHead. simpl. rewrite bool_decide_false; [by apply IH|].
  intros Hl. apply Hc. symmetry. by apply lower_dollar.
Qed.

Lemma execPattern_none s : dollar ∉ s → execPattern s = None.
Proof. intros Hs. rewrite <- (app_nil_r s). by rewrite execPattern_skip. Qed.

(** *** Characters in quotes *)

Lemma quote_ne_backslash q : isQuote q = true → q ≠ backslash.
Proof. intros Hq ->. vm_compute in Hq. done. Qed.

Lemma escape_cons c s :
  escape (c :: s) = (if isQuote c || bool_decide (c = backslash) then [backslash; c] else [c]) ++ escape s.
Proof. done. Qed.

Lemma scan_inside q n acc c s :
  c ≠ backslash →
  scanArguments (Some q) n acc (c :: s) =
  if bool_decide (s = []) then None
  else scanArguments (if bool_decide (c = q) then None else Some q) n (acc ++ [c]) s.
Proof.
  intros Hc. destruct s as [|d s]; [done|].
  change (scanArguments (Some q) n acc (c :: d :: s)) with
    (if bool_decide (c = backslash) then scanArguments (Some q) n (acc ++ [c; d]) s
     else scanArguments (if bool_decide (c = q) then None else Some q) n (acc ++ [c]) (d :: s)).
  by rewrite (bool_decide_false (c = backslash)), (bool_decide_false (d :: s = [])).
Qed.

Lemma scan_literal q n acc s t :
  isQuote q = true →
  scanArguments (Some q) n acc (escape s ++ q :: t) = scanArguments None n (acc ++ escape s ++ [q]) t.
Proof.
  intros Hq. revert acc. induction s as [|c s IH]; intros acc.
  - simpl app. rewrite scan_inside by (by apply quote_ne_backslash). rewrite (bool_decide_true (q = q)) by done.
    by destruct t.
  - rewrite escape_cons. destruct (isQuote c || bool_decide (c = backslash)) eqn:Hc.
    + transitivity (scanArguments (Some q) n (acc ++ [backslash; c]) (escape s ++ q :: t)); [done|].
      rewrite IH. by rewrite <- !app_assoc.
    + apply orb_false_iff in Hc as [Hcq Hcb%bool_decide_eq_false].
      simpl app. rewrite scan_inside by done. rewrite bool_decide_false by (by destruct (escape s)).
      rewrite bool_decide_false by congruence. rewrite IH. by rewrite <- app_assoc.
Qed.

Lemma split_literal q cur s t :
  isQuote q = true →
  splitArguments cur (Some q) false (escape s ++ q :: t) = splitArguments (cur ++ s ++ [q]) None false t.
Proof.
  intros Hq. revert cur. induction s as [|c s IH]; intros cur.
  - simpl. rewrite Hq, bool_decide_false by (by apply quote_ne_backslash). by rewrite bool_decide_true.
  - rewrite escape_cons. destruct (isQuote c || bool_decide (c = backslash)) eqn:Hc.
    + transitivity (splitArguments (cur ++ [c]) (Some q) false (escape s ++ q :: t)); [done|].
      rewrite IH. by rewrite <- !app_assoc.
    + apply orb_false_iff in Hc as [Hcq Hcb%bool_decide_eq_false].
      simpl. rewrite Hcq, bool_decide_false, bool_decide_false by naive_solver.
      rewrite IH. by rewrite <- app_assoc.
Qed.

(** *** The whole list of arguments *)

Lemma quote_not_space q : isQuote q = true → isSpace q = false.
Proof.
  unfold isQuote. rewrite bool_decide_eq_true, !elem_of_cons, elem_of_nil. by intros [->|[->|[->|[]]]].
Qed.

Lemma scan_args q acc args t :
  isQuote q = true → args ≠ [] →
  scanArguments None 1 acc (argsText q args ++ closeParen :: t) = Some (acc ++ argsText q args).
Proof.
  intros Hq. revert acc. induction args as [|a [|b args] IH]; intros acc Hne; [done|..].
  - simpl. rewrite Hq, <- app_assoc. simpl. rewrite scan_literal by done. simpl.
    by rewrite <- !app_assoc.
  - change (argsText q (a :: b :: args)) with (literal q a ++ comma :: " "%char :: argsText q (b :: args)).
    unfold literal at 1. simpl app. simpl scanArguments. rewrite Hq, <- !app_assoc. simpl app.
    rewrite scan_literal by done.
    transitivity (scanArguments None 1 (((acc ++ [q]) ++ escape a ++ [q]) ++ [comma] ++ [" "%char])
      (argsText q (b :: args) ++ closeParen :: t)); [simpl; by rewrite <- !app_assoc|].
    rewrite IH by done. unfold literal. simpl. by rewrite <- !app_assoc.
Qed.

Lemma trim_quoted q spaces s :
  isQuote q = true → Forall (λ c, isSpace c = true) spaces → trim (spaces ++ q :: s ++ [q]) = q :: s ++ [q].
Proof.
  intros Hq%quote_not_space Hall. unfold trim.
  assert (skipSpaces (spaces ++ q :: s ++ [q]) = q :: s ++ [q]) as ->.
  { induction Hall as [|c spaces Hc _ IH]; simpl; [by rewrite Hq|by rewrite Hc]. }
  rewrite reverse_cons, reverse_app. simpl. rewrite Hq.
  by rewrite reverse_cons, reverse_app, reverse_involutive.
Qed.

Lemma split_args q cur args :
  isQuote q = true → Forall (λ c, isSpace c = true) cur → args ≠ [] →
  splitArguments cur None false (argsText q args) = (λ a, q :: a ++ [q]) <$> args.
Proof.
  intros Hq. revert cur. induction args as [|a [|b args] IH]; intros cur Hcur Hne; [done|..].
  - simpl. rewrite Hq, bool_decide_false by (by apply quote_ne_backslash).
    rewrite split_literal by done. simpl. rewrite bool_decide_false by (by destruct cur).
    rewrite <- app_assoc. simpl app. by rewrite trim_quoted.
  - change (argsText q (a :: b :: args)) with (literal q a ++ comma :: " "%char :: argsText q (b :: args)).
    unfold literal at 1. simpl app. simpl splitArguments.
    rewrite Hq, bool_decide_false by (by apply quote_ne_backslash).
    rewrite <- app_assoc. simpl app. rewrite split_literal by done.
    transitivity (trim ((cur ++ [q]) ++ a ++ [q]) :: splitArguments [" "%char] None false (argsText q (b :: args)));
      [done|].
    rewrite IH by (done || by repeat constructor). rewrite <- app_assoc. simpl app. by rewrite trim_quoted.
Qed.

(** *** Removal of the quotes *)

Lemma replaceEscaped_id c s :
  isQuote c = true ∨ c = backslash → unambiguous s = true → replaceEscaped c s = s.
Proof.
  intros Hc. induction s as [|a [|b s] IH]; intros Hu; [done..|].
  change (replaceEscaped c (a :: b :: s)) with
    (if bool_decide (a = backslash ∧ b = c) then c :: replaceEscaped c s else a :: replaceEscaped c (b :: s)).
  change (negb (bool_decide (a = backslash) && (isQuote b || bool_decide (b = backslash))) && unambiguous (b :: s) = true)
    in Hu.
  apply andb_true_iff in Hu as [Hab Hu]. rewrite (IH Hu), bool_decide_false; [done|].
  intros [-> ->]. destruct Hc as [Hc| ->]; [rewrite Hc in Hab|]; by vm_compute in Hab.
Qed.

Lemma startsWith_single q s : startsWith [q] (q :: s) = true.
Proof.
  unfold startsWith. simpl. rewrite (bool_decide_true (q = q)) by done. apply bool_decide_true. eauto.
Qed.

Lemma endsWith_single q s : endsWith [q] (s ++ [q]) = true.
Proof. unfold endsWith. rewrite reverse_app. apply startsWith_single. Qed.

Lemma sliceBoth_quoted q s : sliceBoth 1 (q :: s ++ [q]) = s.
Proof.
  unfold sliceBoth. simpl. rewrite length_app. simpl. rewrite Nat.add_1_r, Nat.sub_0_r.
  simpl. by rewrite take_app_length.
Qed.

Lemma clean_quoted q s :
  isQuote q = true → unambiguous s = true → cleanArgument (q :: s ++ [q]) = s.
Proof.
  intros Hq Hu. unfold cleanArgument.
  replace (trim (q :: s ++ [q])) with (q :: s ++ [q])
    by (symmetry; by apply (trim_quoted q [] s); [|constructor]).
  assert (startsWith [q] (q :: s ++ [q]) && endsWith [q] (q :: s ++ [q]) = true) as Hse.
  { rewrite startsWith_single. apply (endsWith_single q (q :: s)). }
  rewrite sliceBoth_quoted, (replaceEscaped_id quote1), (replaceEscaped_id backtick),
    (replaceEscaped_id quote2), (replaceEscaped_id backslash) by (done || (by left) || by right).
  unfold isQuote in Hq. apply bool_decide_eq_true in Hq.
  rewrite !elem_of_cons, elem_of_nil in Hq.
  destruct Hq as [->|[->|[->|[]]]]; rewrite Hse; by rewrite ?orb_true_r.
Qed.

(** What [parseArguments] makes of the arguments without quotes *)
Definition argument (args : list chars) : FromAIArgument :=
  let type := default (ofString "string") (args !! 2) in
  {| key := default [] (args !! 0); description := args !! 1; type := type;
     defaultValue := parseDefaultValue toNumber parseJSON (args !! 3) type |}.

Lemma parse_args q args :
  isQuote q = true → args ≠ [] → Forall (λ s, unambiguous s = true) args →
  isFromAIArgumentType (default (ofString "string") (args !! 2)) = true →
  parseArguments toNumber parseJSON (argsText q args) = Ok (argument args).
Proof.
  intros Hq Hne Hall Htype. unfold parseArguments, argument.
  rewrite split_args by (done || constructor). rewrite <- list_fmap_compose.
  rewrite (Forall_fmap_ext_1 _ id args), list_fmap_id.
  - by rewrite Htype.
  - eapply Forall_impl; [exact Hall|]. intros s Hs. by apply clean_quoted.
Qed.

Lemma dollar_args q args :
  isQuote q = true → Forall (λ s, dollar ∉ s) args → dollar ∉ argsText q args.
Proof.
  intros Hq Hall. assert (dollar ≠ q) as Hd by by intros <-.
  assert (∀ s, dollar ∉ s → dollar ∉ literal q s) as Hlit.
  { intros s Hs. unfold literal, escape. rewrite not_elem_of_cons, not_elem_of_app, list_elem_of_singleton.
    split_and!; [done| |done]. rewrite list_elem_of_bind. intros (c & Hc & Hin).
    case_match; set_solver. }
  induction Hall as [|a args Ha Hall IH]; [set_solver|]. destruct args as [|b args]; [by apply Hlit|].
  change (argsText q (a :: b :: args)) with (literal q a ++ comma :: " "%char :: argsText q (b :: args)).
  rewrite not_elem_of_app, !not_elem_of_cons. split_and!; [by apply Hlit|done..].
Qed.

Lemma extract_written q pre post args :
  isQuote q = true → args ≠ [] → dollar ∉ pre → dollar ∉ post →
  Forall (λ s, (dollar ∉ s) ∧ (unambiguous s = true)) args →
  isFromAIArgumentType (default (ofString "string") (args !! 2)) = true →
  extractFromAICalls toNumber parseJSON (pre ++ callText q args ++ post) = Ok [argument args].
Proof.
  intros Hq Hne Hpre Hpost [Hd Hu]%Forall_and Htype. unfold extractFromAICalls.
  assert (∃ t, argsText q args = q :: t) as [t Ht].
  { destruct args as [|a [|b args]]; [done|by eexists..]. }
  assert (execPattern (pre ++ callText q args ++ post) = Some (argsText q args ++ closeParen :: post)) as He.
  { rewrite execPattern_skip by done. unfold callText. rewrite <- !app_assoc. simpl.
    rewrite Ht. simpl. by rewrite quote_not_space. }
  pose proof (execPattern_length _ _ He) as Hlen.
  destruct (length (pre ++ callText q args ++ post)) as [|n]; [lia|].
  rewrite extractLoop_step, He. unfold extractCall. rewrite scan_args by done. simpl app. rewrite parse_args by done.
  change (extractLoop toNumber parseJSON (S n) [argument args] (argsText q args ++ closeParen :: post) = Ok [argument args]).
  rewrite extractLoop_step, execPattern_none; [done|].
  rewrite not_elem_of_app, not_elem_of_cons. split_and!; [by apply dollar_args|done..].
Qed.

(** ** Parameters

    The calls in a value are those of its strings, in their order. *)

Fixpoint strings (v : json) : list string :=
  match v with
  | JStr s => [s]
  | JArr l =>
      (fix items (l : list json) := match l with [] => [] | v :: l => strings v ++ items l end) l
  | JObj o =>
      (fix entries (o : list (string * json)) :=
         match o with [] => [] | (_, v) :: o => strings v ++ entries o end) o
  | _ => []
  end.

Definition callsOf (s : string) : res (list FromAIArgument) := extractFromAICalls toNumber parseJSON (ofString s).

Lemma traverseNodeParameters_strings v acc :
  traverseNodeParameters toNumber parseJSON v acc =
  foldM (λ acc s, calls ← callsOf s; Ok (acc ++ calls)) acc (strings v).
Proof.
  revert acc. induction v as [| | |s|l IH|o IH] using json_induction; intros acc; try done.
  - simpl. unfold callsOf. by destruct (extractFromAICalls toNumber parseJSON (ofString s)).
  - revert acc. induction l as [|v l IHl]; intros acc; [done|].
    change (strings (JArr (v :: l))) with (strings v ++ strings (JArr l)).
    rewrite foldM_app, <- IH by (by left). simpl.
    destruct (traverseNodeParameters toNumber parseJSON v acc); simpl; try done.
    apply IHl. intros w Hw. apply IH. by right.
  - revert acc. induction o as [|[k v] o IHo]; intros acc; [done|].
    change (strings (JObj ((k, v) :: o))) with (strings v ++ strings (JObj o)).
    rewrite foldM_app, <- (IH k) by (by left). simpl.
    destruct (traverseNodeParameters toNumber parseJSON v acc); simpl; try done.
    apply IHo. intros k' w Hw. apply (IH k'). by right.
Qed.
End calls.

(** ** Default values

    The text of a default value of a type, and the value that is meant *)

Inductive denotes (toNumber : chars → option spec_float) (parseJSON : chars → option json) : chars → chars → json → Prop :=
  | denotes_string text :
      denotes toNumber parseJSON (ofString "string") text (JStr (String.string_of_list_ascii text))
  | denotes_true text :
      toLowerCase text = ofString "true" → denotes toNumber parseJSON (ofString "boolean") text (JBool true)
  | denotes_false text :
      toLowerCase text = ofString "false" → denotes toNumber parseJSON (ofString "boolean") text (JBool false)
  | denotes_number text x :
      toNumber text = Some x → denotes toNumber parseJSON (ofString "number") text (JNum x)
  | denotes_json text v :
      parseJSON text = Some v → denotes toNumber parseJSON (ofString "json") text v.

Lemma parseDefaultValue_denotes toNumber parseJSON type text v :
  denotes toNumber parseJSON type text v → parseDefaultValue toNumber parseJSON (Some text) type = Some v.
Proof.
  intros [text'|text' Ht|text' Ht|text' x Hx|text' v' Hv]; unfold parseDefaultValue; try done.
  - rewrite (bool_decide_false (_ = ofString "string")), bool_decide_true by naive_solver. by rewrite Ht.
  - rewrite (bool_decide_false (_ = ofString "string")), bool_decide_true by naive_solver. by rewrite Ht.
  - rewrite (bool_decide_false (_ = ofString "string")), bool_decide_false, bool_decide_true by naive_solver.
    by rewrite Hx.
  - rewrite (bool_decide_false (_ = ofString "string")), bool_decide_false, bool_decide_false by naive_solver.
    by rewrite Hv.
Qed.

(** C20: every text can be searched for calls of $fromAI, and a call that is written with its arguments in
    quotes, with a backslash before quotes and backslashes, is read back as it was written: key,
    description, type and, for a type in lower case, the default value that the text denotes: itself for
    a string, and the boolean, the number or the JSON value that the text stands for.  The type is string, number,
    boolean or json, in any case if there is no default value; no argument has a backslash before a quote or a backslash,
    and no other dollar sign occurs. *)
Theorem extractFromAICalls_roundtrip toNumber parseJSON :
  (∀ s, returns (extractFromAICalls toNumber parseJSON s)) ∧
  ∀ q pre post key description type default value,
  q ∈ [ascii_of_nat 34; "'"; "`"]%char → toLowerCase type ∈ ofString <$> ["string"; "number"; "boolean"; "json"] →
  Forall (λ s, dollar ∉ s) ([pre; post; key; description; type] ++ option_list default) →
  Forall (λ s, unambiguous s = true) ([key; description; type] ++ option_list default) →
  option_Forall2 (denotes toNumber parseJSON type) default value →
  extractFromAICalls toNumber parseJSON
    (pre ++ callText q ([key; description; type] ++ option_list default) ++ post) =
  Ok [{| key := key; description := Some description; type := type; defaultValue := value |}].
Proof.
  split; [intros s; apply extractLoop_returns; lia|].
  intros q pre post key description type default value Hq Htype Hd Hu Hv.
  change ([pre; post; key; description; type] ++ option_list default)
    with (pre :: post :: ([key; description; type] ++ option_list default)) in Hd.
  apply Forall_cons in Hd as [Hpre Hd]. apply Forall_cons in Hd as [Hpost Hd].
  rewrite extract_written; [|by apply bool_decide_true|done..| |by apply bool_decide_true].
  - destruct Hv as [text v Hv%parseDefaultValue_denotes|]; [|done].
    rewrite <- Hv. done.
  - by apply Forall_and.
Qed.

(** Numbers and JSON of the examples: only the digit five *)
Definition exampleNumber (s : chars) : option spec_float :=
  if bool_decide (s = ofString "5") then Some (S754_finite false 5 0) else None.

Definition exampleJSON (s : chars) : option json := JNum <$> exampleNumber s.

Definition exampleCalls (s : string) : res (list FromAIArgument) :=
  extractFromAICalls exampleNumber exampleJSON (ofString s).

Lemma extractFromAICalls_roundtrip_witness :
  exampleCalls "={{ $fromAI('it\'s', 'a, (b)', 'number', '5') }}" =
  Ok [{| key := ofString "it's"; description := Some (ofString "a, (b)"); type := ofString "number";
         defaultValue := Some (JNum (S754_finite false 5 0)) |}].
Proof.
  apply (proj2 (extractFromAICalls_roundtrip exampleNumber exampleJSON) quote1 (ofString "={{ ") (ofString " }}")
    (ofString "it's") (ofString "a, (b)") (ofString "number") (Some (ofString "5"))
    (Some (JNum (S754_finite false 5 0)))).
  - apply (bool_decide_unpack _); vm_compute; exact I.
  - apply (bool_decide_unpack _); vm_compute; exact I.
  - repeat constructor; apply (bool_decide_unpack _); vm_compute; exact I.
  - repeat constructor.
  - constructor. by apply denotes_number.
Defined.

(** ** Calls that are not read as they were written *)

(** The backslash before a quote is removed twice: the text a\'b loses its backslash. *)
Example backslash_lost :
  exampleCalls "$fromAI('a\\\'b')" =
  Ok [argument exampleNumber exampleJSON [ofString "a'b"]].
Proof. vm_compute. reflexivity. Qed.

(** The search goes on inside of the call: a call that is mentioned in a description is taken for
    another call, and an unfinished one makes the extraction fail, although the filter for chat tools
    accepts the expression. *)
Example mentioned_call_extracted :
  (length <$> exampleCalls "$fromAI('a', 'as in $fromAI(x)')") = Ok 2 ∧
  exampleCalls "$fromAI('a', 'see $fromAI(')" =
    Throw (ParseError "Unbalanced parentheses while parsing $fromAI call: ')") ∧
  isFromAIOnlyExpression (ofString "$fromAI('a', 'see $fromAI(')") = true.
Proof. split_and!; vm_compute; reflexivity. Qed.

(** Types are accepted in any case, but the default value is only read as a string for the type in
    lower case: the default of a string can become a number. *)
Example string_default_parsed :
  exampleCalls "$fromAI('a', 'b', 'String', '5')" =
  Ok [{| key := ofString "a"; description := Some (ofString "b"); type := ofString "String";
         defaultValue := Some (JNum (S754_finite false 5 0)) |}].
Proof. vm_compute. reflexivity. Qed.
