(* ===== verification/StructureValidation.v ===== *)
(** * Validation of the structure of a workflow

    Model of [packages/workflow/src/workflow-structure-validation.ts]: the checks that a workflow
    passes before it is created, updated or imported.  The schemas of the package [zod] are a
    parameter, the function that parses the input or returns its issues; the checks of names and
    connections that follow are modelled, and composed with the conversion to a graph. *)

From S2P Require Import Prelude JsCollections NodeTypes DirectedGraph Fixtures GraphKeys GraphExport.

(** ** Issues *)

Inductive segment := Key (s : string) | Idx (n : nat).

Record WorkflowStructureIssue := {
  issue_path : list segment;
  issue_message : string;
  issue_code : string;
}.

Definition formatWorkflowStructureIssuePath (path : list segment) : string :=
  match path with
  | [] => "workflow"
  | _ =>
      foldl (λ acc segment,
        match segment with
        | Idx n => acc +:+ "[" +:+ pretty n +:+ "]"
        | Key s => match acc with EmptyString => s | _ => acc +:+ "." +:+ s end
        end) EmptyString path
  end.

Definition newline : string := String (ascii_of_N 10) EmptyString.

Definition formatIssuesDescription (issues : list WorkflowStructureIssue) : string :=
  String.concat newline
    ((λ issue, formatWorkflowStructureIssuePath (issue_path issue) +:+ ": " +:+ issue_message issue) <$> issues).

Record WorkflowStructureValidationError := {
  error_message : string;
  error_description : string;
  error_issues : list WorkflowStructureIssue;
}.

Definition newError (issues : list WorkflowStructureIssue) : WorkflowStructureValidationError :=
  {| error_message := "Invalid workflow structure"; error_description := formatIssuesDescription issues;
     error_issues := issues |}.

(** ** The checks *)

Record WorkflowStructureData := {
  data_nodes : list INode;
  data_connections : IConnections;
}.

(** The loop over the nodes *)
Fixpoint nodeIssues (index : nat) (issues : list WorkflowStructureIssue) (nodeNames : jsset string) (ns : list INode)
    : list WorkflowStructureIssue * jsset string :=
  match ns with
  | [] => (issues, nodeNames)
  | node :: ns =>
      if set_has (node_name node) nodeNames
      then nodeIssues (S index)
             (issues ++ [{| issue_path := [Key "nodes"; Idx index; Key "name"];
                            issue_message := "Duplicate node name " +:+ quotedName (node_name node);
                            issue_code := "duplicate_node_name" |}]) nodeNames ns
      else nodeIssues (S index) issues (set_add (node_name node) nodeNames) ns
  end.

Definition sourceIssues (nodeNames : jsset string) (sourceNodeName : string) : list WorkflowStructureIssue :=
  if set_has sourceNodeName nodeNames then []
  else [{| issue_path := [Key "connections"; Key sourceNodeName];
           issue_message := "Connection source " +:+ quotedName sourceNodeName +:+ " does not reference an existing node";
           issue_code := "unknown_connection_source" |}].

Definition targetIssues (nodeNames : jsset string) (sourceNodeName connectionType : string)
    (sourceIndex targetIndex : nat) (connection : IConnection) : list WorkflowStructureIssue :=
  if set_has (conn_node connection) nodeNames then []
  else [{| issue_path := [Key "connections"; Key sourceNodeName; Key connectionType; Idx sourceIndex; Idx targetIndex;
                          Key "node"];
           issue_message := "Connection target " +:+ quotedName (conn_node connection)
             +:+ " does not reference an existing node";
           issue_code := "unknown_connection_target" |}].

(** The loop over the connections *)
Definition connectionIssues (nodeNames : jsset string) (connections : IConnections) : list WorkflowStructureIssue :=
  connections ≫= λ '(sourceNodeName, connectionTypes),
    sourceIssues nodeNames sourceNodeName ++
    (connectionTypes ≫= λ '(connectionType, buckets),
       mjoin (imap (λ sourceIndex bucket,
         mjoin (imap (λ targetIndex connection,
           targetIssues nodeNames sourceNodeName connectionType sourceIndex targetIndex connection) (default [] bucket)))
         buckets)).

Section validation.
Context {Input : Type} (parseSchema : Input → list WorkflowStructureIssue + WorkflowStructureData).

Definition safeParseWorkflowStructure (input : Input) : list WorkflowStructureIssue + WorkflowStructureData :=
  match parseSchema input with
  | inl issues => inl issues
  | inr data =>
      let '(issues, nodeNames) := nodeIssues 0 [] [] (data_nodes data) in
      let issues := issues ++ connectionIssues nodeNames (data_connections data) in
      if bool_decide (0 < length issues) then inl issues else inr data
  end.

Definition parseWorkflowStructure (input : Input) : WorkflowStructureValidationError + WorkflowStructureData :=
  match safeParseWorkflowStructure input with
  | inl issues => inl (newError issues)
  | inr data => inr data
  end.

(** ** What is accepted *)

Definition nodeNames (data : WorkflowStructureData) : list string := node_name <$> data_nodes data.

(** Names are unique, and connections start and end at nodes. *)
Definition validStructure (data : WorkflowStructureData) : Prop :=
  NoDup (nodeNames data) ∧
  (∀ source types, (source, types) ∈ data_connections data → source ∈ nodeNames data) ∧
  (∀ source type i connection, (source, type, i, connection) ∈ flattenConnections (data_connections data) →
     conn_node connection ∈ nodeNames data).

Lemma nodeIssues_names index issues names ns x :
  x ∈ (nodeIssues index issues names ns).2 ↔ x ∈ names ∨ x ∈ node_name <$> ns.
Proof.
  revert index issues names. induction ns as [|n ns IH]; intros index issues names; simpl; [set_solver|].
  unfold set_has. case_bools; rewrite IH, ?elem_of_set_add, elem_of_cons; naive_solver.
Qed.

Lemma nodeIssues_none index issues names ns :
  (nodeIssues index issues names ns).1 = [] ↔
  issues = [] ∧ NoDup (node_name <$> ns) ∧ ∀ x, x ∈ names → x ∉ node_name <$> ns.
Proof.
  revert index issues names. induction ns as [|n ns IH]; intros index issues names; simpl.
  { split; [intros ->|by intros [-> _]]. split_and!; [done|constructor|set_solver]. }
  unfold set_has. case_bools; rewrite IH, NoDup_cons.
  - split; [intros [[]%app_nil _]; done|]. intros (_ & _ & Hx). set_solver.
  - setoid_rewrite elem_of_set_add. set_solver.
Qed.

Lemma set_has_if_nil {A} (names : jsset string) x (l : list A) :
  l ≠ [] → (if set_has x names then [] else l) = [] ↔ x ∈ names.
Proof. intros Hl. unfold set_has. case_bools; naive_solver. Qed.

Lemma mjoin_nil {A} (ls : list (list A)) : mjoin ls = [] ↔ ∀ l, l ∈ ls → l = [].
Proof.
  induction ls as [|l ls IH]; simpl; [set_solver|]. rewrite app_nil, IH. set_solver.
Qed.

Lemma bind_nil {A B} (f : A → list B) (l : list A) : l ≫= f = [] ↔ ∀ x, x ∈ l → f x = [].
Proof.
  induction l as [|x l IH]; simpl; [set_solver|]. rewrite app_nil, IH. set_solver.
Qed.

Lemma elem_of_flattenConnections source type i c (cs : IConnections) :
  (source, type, i, c) ∈ flattenConnections cs ↔
  ∃ types buckets bucket, (source, types) ∈ cs ∧ (type, buckets) ∈ types ∧ buckets !! i = Some bucket ∧
    c ∈ default [] bucket.
Proof.
  unfold flattenConnections, flattenOutputs. rewrite list_elem_of_join. split.
  - intros (l & Hl & ([s types] & -> & Hs)%list_elem_of_fmap).
    apply list_elem_of_join in Hl as (l & Hl & ([t buckets] & -> & Ht)%list_elem_of_fmap).
    apply list_elem_of_join in Hl as (l & Hl & (j & bucket & -> & Hj)%elem_of_lookup_imap).
    apply list_elem_of_fmap in Hl as (c' & [= -> -> -> ->] & Hc). eauto 10.
  - intros (types & buckets & bucket & Hs & Ht & Hi & Hc).
    eexists. split; [|apply list_elem_of_fmap; by exists (source, types)].
    apply list_elem_of_join. eexists. split; [|apply list_elem_of_fmap; by exists (type, buckets)].
    apply list_elem_of_join. eexists. split; [|apply elem_of_lookup_imap; by exists i, bucket].
    apply list_elem_of_fmap. eauto.
Qed.

Lemma connectionIssues_none names cs :
  connectionIssues names cs = [] ↔
  (∀ source types, (source, types) ∈ cs → source ∈ names) ∧
  (∀ source type i c, (source, type, i, c) ∈ flattenConnections cs → conn_node c ∈ names).
Proof.
  unfold connectionIssues. rewrite bind_nil. split.
  - intros H. split.
    + intros source types Hin. apply H, app_nil in Hin as [Hs _]. by eapply set_has_if_nil in Hs.
    + intros source type i c (types & buckets & bucket & Hs & Ht & Hi & Hc)%elem_of_flattenConnections.
      apply H, app_nil in Hs as [_ Hs]. rewrite bind_nil in Hs. apply Hs in Ht.
      rewrite mjoin_nil in Ht. specialize (Ht _ (proj2 (elem_of_lookup_imap _ _ _) (ex_intro _ i (ex_intro _ bucket (conj eq_refl Hi))))).
      rewrite mjoin_nil in Ht. apply list_elem_of_lookup in Hc as [j Hj].
      specialize (Ht _ (proj2 (elem_of_lookup_imap _ _ _) (ex_intro _ j (ex_intro _ c (conj eq_refl Hj))))).
      by eapply set_has_if_nil in Ht.
  - intros [Hs Hc] [source types] Hin. apply app_nil. split; [apply set_has_if_nil; [done|by eapply Hs]|].
    apply bind_nil. intros [type buckets] Ht. apply mjoin_nil.
    intros l (i & bucket & -> & Hi)%elem_of_lookup_imap. apply mjoin_nil.
    intros l (j & c & -> & Hj)%elem_of_lookup_imap. apply set_has_if_nil; [done|].
    apply (Hc source type i). apply elem_of_flattenConnections. exists types, buckets, bucket.
    split_and!; [done..|]. by eapply list_elem_of_lookup_2.
Qed.

Lemma safeParse_spec input data :
  safeParseWorkflowStructure input = inr data ↔ parseSchema input = inr data ∧ validStructure data.
Proof.
  unfold safeParseWorkflowStructure. destruct (parseSchema input) as [|d]; [naive_solver|].
  assert (inr d = inr (A:=list WorkflowStructureIssue) data ∧ validStructure data ↔ d = data ∧ validStructure d) as ->
    by naive_solver.
  pose proof (nodeIssues_none 0 [] [] (data_nodes d)) as Hnone.
  pose proof (λ x, nodeIssues_names 0 [] [] (data_nodes d) x) as Hnames.
  destruct (nodeIssues 0 [] [] (data_nodes d)) as [issues names]. simpl in *.
  assert (issues ++ connectionIssues names (data_connections d) = [] ↔ validStructure d) as Hvalid.
  { rewrite app_nil, Hnone, connectionIssues_none. unfold validStructure, nodeNames.
    setoid_rewrite Hnames. set_solver. }
  rewrite <- Hvalid. destruct (issues ++ _) as [|x l].
  - rewrite bool_decide_false by (simpl; lia). naive_solver.
  - rewrite bool_decide_true by (simpl; lia). naive_solver.
Qed.
End validation.

(** ** An accepted workflow can be imported as a graph *)

Lemma nodeMap_addNodes ns : foldl (λ m n, map_set (node_name n) n m) [] ns = nodes (addNodes empty_graph ns).
Proof.
  unfold addNodes. change (@nil (string * INode)) with (nodes empty_graph).
  generalize empty_graph as s. induction ns as [|n l IH]; intros s; simpl; [done|]. apply (IH (addNode s n)).
Qed.

Lemma addNodes_valid ns :
  NoDup (node_name <$> ns) →
  wf (addNodes empty_graph ns) ∧ nodes (addNodes empty_graph ns) = (λ n, (node_name n, n)) <$> ns.
Proof.
  intros Hnd. rewrite addNodes_fresh by done. simpl. split; [|done].
  split; simpl; try (by constructor); try set_solver.
  by rewrite <- list_fmap_compose.
Qed.

Section import.
Context (ns : list INode) (Hnd : NoDup (node_name <$> ns)).

(** The lookup by name, and what the loops of the import keep *)
Definition lookupNode (name : string) : option INode := map_get name (nodes (addNodes empty_graph ns)).

Definition importing (s : DirectedGraph) : Prop := wf s ∧ nodes s = nodes (addNodes empty_graph ns).

Lemma lookupNode_known name s :
  importing s → name ∈ node_name <$> ns → ∃ n, lookupNode name = Some n ∧ inGraph s n.
Proof.
  intros [_ Hs] (n & -> & Hn)%list_elem_of_fmap.
  assert (lookupNode (node_name n) = Some n) as Hl.
  { unfold lookupNode. apply map_get_unique; [apply (addNodes_valid ns Hnd)|].
    rewrite (proj2 (addNodes_valid ns Hnd)). apply list_elem_of_fmap. eauto. }
  exists n. split; [done|]. unfold inGraph. by rewrite Hs.
Qed.

Lemma import_known (cs : IConnections) :
  (∀ source types, (source, types) ∈ cs → source ∈ node_name <$> ns) →
  (∀ source type i c, (source, type, i, c) ∈ flattenConnections cs → conn_node c ∈ node_name <$> ns) →
  ∃ g, importConnections lookupNode (addNodes empty_graph ns) cs = Ok g ∧ importing g.
Proof.
  intros Hsources Htargets. unfold importConnections.
  apply (foldM_total _ (λ _, importing)); [split; [apply (addNodes_valid ns Hnd)|done]|].
  intros _ [source types] s Hs Hin.
  destruct (lookupNode_known source s Hs) as (from & -> & Hfrom); [by eapply Hsources|].
  apply (foldM_total _ (λ _ s', importing s')); [done|].
  intros _ [[[n type] i] c] s' Hs' Hc.
  destruct (lookupNode_known (conn_node c) s' Hs') as (to & -> & Hto).
  { eapply Htargets. by eapply elem_of_flatten_source. }
  eexists. assert (inGraph s' from) as Hfrom'.
  { unfold inGraph in *. by rewrite (proj2 Hs'), <- (proj2 Hs). }
  split; [apply addConnection_ok; by split_and!|].
  split; [|apply Hs']. by apply setConnection_wf; [apply Hs'|..].
Qed.
End import.

(** C21: the validation accepts exactly what matches the schema and has unique node names and connections
    that start and end at its nodes; an accepted workflow is imported as a well-formed graph with
    exactly its nodes, without an assertion that fails. *)
Theorem accepted_workflow_imports {Input} (parseSchema : Input → list WorkflowStructureIssue + WorkflowStructureData)
    input data :
  (parseWorkflowStructure parseSchema input = inr data ↔ parseSchema input = inr data ∧ validStructure data) ∧
  (parseWorkflowStructure parseSchema input = inr data →
   ∃ g, fromNodesAndConnections (data_nodes data) (data_connections data) = Ok g ∧ wf g ∧
     (nodes g).*2 = data_nodes data).
Proof.
  assert (parseWorkflowStructure parseSchema input = inr data ↔
          parseSchema input = inr data ∧ validStructure data) as Hspec.
  { rewrite <- safeParse_spec. unfold parseWorkflowStructure.
    destruct (safeParseWorkflowStructure parseSchema input); naive_solver. }
  split; [done|]. rewrite Hspec. intros (_ & Hnd & Hsources & Htargets).
  unfold fromNodesAndConnections. rewrite nodeMap_addNodes.
  destruct (import_known (data_nodes data) Hnd (data_connections data) Hsources Htargets) as (g & Hg & Hwf & Hn).
  exists g. split_and!; [done..|]. rewrite Hn, (proj2 (addNodes_valid _ Hnd)), <- list_fmap_compose.
  apply list_fmap_id.
Qed.

Definition exampleStructure : WorkflowStructureData :=
  {| data_nodes := [nodeA; nodeB];
     data_connections := [("A", [("main", [None; Some [{| conn_node := "B"; conn_type := "main"; conn_index := 0 |}]])])] |}.

Lemma accepted_workflow_imports_witness :
  parseWorkflowStructure (λ d : WorkflowStructureData, inr d) exampleStructure = inr exampleStructure ∧
  ∃ g, fromNodesAndConnections (data_nodes exampleStructure) (data_connections exampleStructure) = Ok g ∧ wf g ∧
    (nodes g).*2 = [nodeA; nodeB].
Proof.
  split; [vm_compute; reflexivity|].
  apply (proj2 (accepted_workflow_imports (λ d : WorkflowStructureData, inr d) exampleStructure exampleStructure)).
  vm_compute. reflexivity.
Defined.

(** The report on a workflow with a duplicate name and an unknown target *)
Example structure_report :
  match parseWorkflowStructure (λ d : WorkflowStructureData, inr d)
    {| data_nodes := [nodeA; nodeA];
       data_connections := [("A", [("main", [Some [{| conn_node := "X"; conn_type := "main"; conn_index := 0 |}]])])] |}
  with
  | inl e => issue_code <$> error_issues e
  | inr _ => []
  end = ["duplicate_node_name"; "unknown_connection_target"].
Proof. vm_compute. reflexivity. Qed.

Example path_format :
  formatWorkflowStructureIssuePath [Key "nodes"; Idx 1; Key "name"] = "nodes[1].name".
Proof. vm_compute. reflexivity. Qed.
