(* ===== verification/LeaderElection.v ===== *)
(** * Leader election between main instances

    Model of [leader-election-client.ts] and [multi-main-setup-v2.ts] of [packages/cli/src/scaling],
    with the timer of [multi-main-setup.ee.ts].  Main instances compete for a key in Redis that expires;
    the instance whose id the key holds is to be the leader.

    Redis is one key with a holder and an expiry, and a clock.  A command is sent, is executed
    by the server at some later time, and its reply arrives later still; it can also fail at any
    point: a command that timed out may be executed afterwards, and a reply may be lost.  Calls
    are cut at their awaits.  Host ids are numbers. *)

From stdpp Require Import gmap.
From S2P Require Import Prelude JsCollections.

Inductive InstanceRole := Unset | Leader | Follower.

#[global] Instance InstanceRole_eq_dec : EqDecision InstanceRole.
Proof. solve_decision. Defined.

Inductive mainEvent := LeaderTakeover | LeaderStepdown.

#[global] Instance mainEvent_eq_dec : EqDecision mainEvent.
Proof. solve_decision. Defined.

(** ** The key *)

(** The time, and who holds the key until when *)
Record redis := { rd_now : nat; rd_key : option (nat * nat) }.

(** [GET]: an expired key is absent. *)
Definition holder (r : redis) : option nat :=
  match rd_key r with
  | Some (host, expiry) => if bool_decide (rd_now r < expiry) then Some host else None
  | None => None
  end.

Definition writeKey (key : option (nat * nat)) (r : redis) : redis := {| rd_now := rd_now r; rd_key := key |}.

(** [SET key host EX ttl NX] *)
Definition setNX (ttl host : nat) (r : redis) : bool * redis :=
  match holder r with
  | Some _ => (false, r)
  | None => (true, writeKey (Some (host, rd_now r + ttl)) r)
  end.

(** [EXPIRE key ttl] *)
Definition expire (ttl : nat) (r : redis) : Z * redis :=
  match holder r with
  | Some host => (1%Z, writeKey (Some (host, rd_now r + ttl)) r)
  | None => (0%Z, r)
  end.

(** The script [INCREASE_TTL_IF_LEADER] *)
Inductive scriptResult := Number (z : Z) | Value (host : nat).

Definition INCREASE_TTL_IF_LEADER (ttl host : nat) (r : redis) : scriptResult * redis :=
  match holder r with
  | None => (Number (-1), r)
  | Some current =>
      if bool_decide (current ≠ host) then (Value current, r)
      else let '(z, r) := expire ttl r in (Number z, r)
  end.

(** ** [LeaderElectionClient] *)

Inductive TtlRenewalResult := KeyMissing | OtherHostIsLeader (currentLeaderId : nat) | Success.

#[global] Instance TtlRenewalResult_eq_dec : EqDecision TtlRenewalResult.
Proof. solve_decision. Defined.

(** The results of the client; [RError] stands for every failure. *)
Inductive reply :=
  | RHolder (leader : option nat)
  | RBool (wasSet : bool)
  | RRenewal (result : TtlRenewalResult)
  | RDone
  | RError.

#[global] Instance reply_eq_dec : EqDecision reply.
Proof. solve_decision. Defined.

Definition renewalResult (result : scriptResult) : reply :=
  match result with
  | Number z =>
      if bool_decide (z = -1 ∨ z = 0)%Z then RRenewal KeyMissing
      else if bool_decide (z = 1)%Z then RRenewal Success
      else RError
  | Value host => RRenewal (OtherHostIsLeader host)
  end.

Inductive command := GetLeader | SetLeaderIfNotExists | TryRenewLeaderTtl | ClearLeader | SetExpiration.

(** What the server does with a command *)
Definition executeCommand (ttl host : nat) (c : command) (r : redis) : reply * redis :=
  match c with
  | GetLeader => (RHolder (holder r), r)
  | SetLeaderIfNotExists => let '(wasSet, r) := setNX ttl host r in (RBool wasSet, r)
  | TryRenewLeaderTtl => let '(result, r) := INCREASE_TTL_IF_LEADER ttl host r in (renewalResult result, r)
  | ClearLeader => (RDone, writeKey None r)
  | SetExpiration => let '(_, r) := expire ttl r in (RDone, r)
  end.

(** ** [MultiMainSetupV2] *)

(** The awaits: in [init], of the renewal and of the new claim in [checkAreWeStillLeader], of
    the key and of the claim in [checkCanBecomeLeader] *)
Inductive awaiting := AwaitInit | AwaitRenewal | AwaitReclaim | AwaitLeader | AwaitClaim.

#[global] Instance awaiting_eq_dec : EqDecision awaiting.
Proof. solve_decision. Defined.

Definition commandOf (a : awaiting) : command :=
  match a with
  | AwaitInit | AwaitReclaim | AwaitClaim => SetLeaderIfNotExists
  | AwaitRenewal => TryRenewLeaderTtl
  | AwaitLeader => GetLeader
  end.

(** [waiting] are the awaits of the calls that have not ended, each with the reply if the command was
    executed: the timer may fire while a check awaits a reply.  [failed] tells that an
    assertion failed. *)
Record main := {
  role : InstanceRole;
  leaderCheckInProgress : bool;
  waiting : list (awaiting * option reply);
  emitted : list mainEvent;
  failed : bool;
  stopped : bool;
}.

Definition newMain : main :=
  {| role := Unset; leaderCheckInProgress := false; waiting := []; emitted := []; failed := false; stopped := false |}.

Definition isLeader (m : main) : bool := bool_decide (role m = Leader).

Definition withRole (r : InstanceRole) (evs : list mainEvent) (m : main) : main :=
  {| role := r; leaderCheckInProgress := leaderCheckInProgress m; waiting := waiting m;
     emitted := emitted m ++ evs; failed := failed m; stopped := stopped m |}.

Definition withWaiting (w : list (awaiting * option reply)) (m : main) : main :=
  {| role := role m; leaderCheckInProgress := leaderCheckInProgress m; waiting := w;
     emitted := emitted m; failed := failed m; stopped := stopped m |}.

Definition withProgress (b : bool) (m : main) : main :=
  {| role := role m; leaderCheckInProgress := b; waiting := waiting m;
     emitted := emitted m; failed := failed m; stopped := stopped m |}.

Definition failAssertion (m : main) : main :=
  {| role := role m; leaderCheckInProgress := leaderCheckInProgress m; waiting := waiting m;
     emitted := emitted m; failed := true; stopped := stopped m |}.

Definition stopMain (m : main) : main :=
  {| role := role m; leaderCheckInProgress := leaderCheckInProgress m; waiting := waiting m;
     emitted := emitted m; failed := failed m; stopped := true |}.

Definition takeOverAsLeader (m : main) : main :=
  if isLeader m then failAssertion m else withRole Leader [LeaderTakeover] m.

Definition stepDownToFollower (m : main) : main :=
  if isLeader m then withRole Follower [LeaderStepdown] m else failAssertion m.

(** A call sends a command and awaits its reply. *)
Definition await (a : awaiting) (m : main) : main := withWaiting (waiting m ++ [(a, None)]) m.

(** [init], up to its await *)
Definition init (m : main) : main := await AwaitInit m.

(** [checkAreWeStillLeader] and [checkCanBecomeLeader], up to their first await *)
Definition checkAreWeStillLeader (m : main) : main :=
  if isLeader m then await AwaitRenewal m else failAssertion m.

Definition checkCanBecomeLeader (m : main) : main :=
  if isLeader m then failAssertion m else await AwaitLeader m.

(** [checkLeader], up to the first await *)
Definition checkLeader (m : main) : main :=
  if leaderCheckInProgress m then m
  else
    let m := withProgress true m in
    if isLeader m then checkAreWeStillLeader m else checkCanBecomeLeader m.

(** The end of a check: the [finally] of [checkLeader] *)
Definition endCheck (m : main) : main := withProgress false m.

(** What follows an await, up to the next one, when the reply has arrived *)
Definition resume (host : nat) (a : awaiting) (r : reply) (m : main) : main :=
  match a with
  | AwaitInit =>
      match r with
      | RBool true => takeOverAsLeader m
      | _ => withRole Follower [] m
      end
  | AwaitRenewal =>
      match r with
      | RRenewal Success => endCheck m
      | RRenewal (OtherHostIsLeader _) => endCheck (stepDownToFollower m)
      | RRenewal KeyMissing => await AwaitReclaim m
      | _ => endCheck m
      end
  | AwaitReclaim =>
      match r with
      | RBool true => endCheck m
      | _ => endCheck (stepDownToFollower m)
      end
  | AwaitLeader =>
      match r with
      | RHolder (Some leaderId) =>
          if bool_decide (leaderId = host) then endCheck (takeOverAsLeader m) else endCheck m
      | RHolder None => await AwaitClaim m
      | _ => endCheck m
      end
  | AwaitClaim =>
      match r with
      | RBool true => endCheck (takeOverAsLeader m)
      | _ => endCheck m
      end
  end.

(** ** All instances together *)

(** [late] holds commands that may still be executed although nobody waits for them.  Two
    fields only record what happened: [lease] until when the server granted the key to a host,
    and [stolen] whether a host cleared the key while another one held it. *)
Record cluster := {
  server : redis;
  mains : gmap nat main;
  late : list (nat * command);
  lease : gmap nat nat;
  stolen : bool;
}.

Definition newCluster : cluster :=
  {| server := {| rd_now := 0; rd_key := None |}; mains := ∅; late := []; lease := ∅; stolen := false |}.

(** Whether a reply grants the key *)
Definition grants (r : reply) : bool :=
  match r with RBool b => b | RRenewal Success => true | _ => false end.

(** Whether executing the command takes the key away from another host *)
Definition steals (host : nat) (c : command) (r : redis) : bool :=
  match c, holder r with ClearLeader, Some other => bool_decide (other ≠ host) | _, _ => false end.

(** Until when the server granted the key to the host: a new grant, or the end of one *)
Definition newLease (ttl host : nat) (c : command) (r : reply) (srv : redis) (l : gmap nat nat) : gmap nat nat :=
  if grants r then <[host := rd_now srv + ttl]> l
  else match c with ClearLeader => <[host := rd_now srv]> l | _ => l end.

Definition serve (ttl host : nat) (c : command) (s : cluster) : reply * cluster :=
  let '(r, srv) := executeCommand ttl host c (server s) in
  (r, {| server := srv; mains := mains s; late := late s;
         lease := newLease ttl host c r srv (lease s);
         stolen := stolen s || steals host c (server s) |}).

Definition updateMain (host : nat) (m : main) (s : cluster) : cluster :=
  {| server := server s; mains := <[host := m]> (mains s); late := late s; lease := lease s; stolen := stolen s |}.

Definition addLate (host : nat) (c : command) (s : cluster) : cluster :=
  {| server := server s; mains := mains s; late := late s ++ [(host, c)]; lease := lease s; stolen := stolen s |}.

Definition dropLate (k : nat) (s : cluster) : cluster :=
  {| server := server s; mains := mains s; late := delete k (late s); lease := lease s; stolen := stolen s |}.

(** [shutdown] of an instance: the timer is cleared, and a leader clears the key. *)
Definition shutdown (host : nat) (m : main) (s : cluster) : cluster :=
  let s := updateMain host (stopMain m) s in
  if isLeader m then addLate host ClearLeader s else s.

(** What can happen: time passes, an instance starts, its timer fires, the command of one of its awaits is
    executed, times out or loses its reply, the reply arrives, a late command is executed, an instance
    shuts down. *)
Inductive happening :=
  | Pass (n : nat)
  | Start (host : nat)
  | Check (host : nat)
  | Execute (host k : nat)
  | Timeout (host k : nat)
  | LoseReply (host k : nat)
  | Resume (host k : nat)
  | Late (k : nat)
  | Shutdown (host : nat).

Definition happen (ttl : nat) (s : cluster) (x : happening) : cluster :=
  match x with
  | Pass n =>
      {| server := {| rd_now := rd_now (server s) + n; rd_key := rd_key (server s) |};
         mains := mains s; late := late s; lease := lease s; stolen := stolen s |}
  | Start host =>
      match mains s !! host with Some _ => s | None => updateMain host (init newMain) s end
  | Check host =>
      match mains s !! host with
      | Some m =>
          if bool_decide (role m = Unset) || stopped m then s else updateMain host (checkLeader m) s
      | None => s
      end
  | Execute host k =>
      match mains s !! host with
      | Some m =>
          match waiting m !! k with
          | Some (a, None) =>
              let '(r, s) := serve ttl host (commandOf a) s in updateMain host (withWaiting (<[k := (a, Some r)]> (waiting m)) m) s
          | _ => s
          end
      | None => s
      end
  | Timeout host k =>
      match mains s !! host with
      | Some m =>
          match waiting m !! k with
          | Some (a, None) => updateMain host (withWaiting (<[k := (a, Some RError)]> (waiting m)) m) (addLate host (commandOf a) s)
          | _ => s
          end
      | None => s
      end
  | LoseReply host k =>
      match mains s !! host with
      | Some m =>
          match waiting m !! k with
          | Some (a, Some _) => updateMain host (withWaiting (<[k := (a, Some RError)]> (waiting m)) m) s
          | _ => s
          end
      | None => s
      end
  | Resume host k =>
      match mains s !! host with
      | Some m =>
          match waiting m !! k with
          | Some (a, Some r) => updateMain host (resume host a r (withWaiting (delete k (waiting m)) m)) s
          | _ => s
          end
      | None => s
      end
  | Late k =>
      match late s !! k with
      | Some (host, c) => (serve ttl host c (dropLate k s)).2
      | None => s
      end
  | Shutdown host => match mains s !! host with Some m => shutdown host m s | None => s end
  end.

Definition run (ttl : nat) (xs : list happening) : cluster := foldl (happen ttl) newCluster xs.

(** ** The invariant of an instance *)

(** Replays the events: a leader cannot take over, a follower cannot step down. *)
Fixpoint replay (leading : bool) (evs : list mainEvent) : option bool :=
  match evs with
  | [] => Some leading
  | LeaderTakeover :: evs => if leading then None else replay true evs
  | LeaderStepdown :: evs => if leading then replay false evs else None
  end.

Lemma replay_app leading evs evs' :
  replay leading (evs ++ evs') = replay leading evs ≫= λ leading', replay leading' evs'.
Proof.
  revert leading. induction evs as [|[] evs IH]; intros leading; simpl; [done|..]; by destruct leading.
Qed.

(** Where an instance can await, depending on its role: calls do not overlap. *)
Definition waitOk (m : main) : Prop :=
  match waiting m with
  | [] => role m ≠ Unset ∧ leaderCheckInProgress m = false
  | [(AwaitInit, _)] => role m = Unset ∧ leaderCheckInProgress m = false
  | [(AwaitRenewal, _)] | [(AwaitReclaim, _)] => role m = Leader ∧ leaderCheckInProgress m = true
  | [(AwaitLeader, _)] | [(AwaitClaim, _)] => role m = Follower ∧ leaderCheckInProgress m = true
  | _ => False
  end.

Record mainInv (m : main) : Prop := {
  mi_failed : failed m = false;
  mi_events : replay false (emitted m) = Some (isLeader m);
  mi_wait : waitOk m;
}.

Lemma isLeader_true m : isLeader m = true ↔ role m = Leader.
Proof. apply bool_decide_eq_true. Qed.

Lemma isLeader_false m : isLeader m = false ↔ role m ≠ Leader.
Proof. apply bool_decide_eq_false. Qed.

(** A new role, with the event that goes with it *)
Lemma withRole_events m r evs :
  replay false (emitted m) = Some (isLeader m) → replay (isLeader m) evs = Some (bool_decide (r = Leader)) →
  replay false (emitted (withRole r evs m)) = Some (isLeader (withRole r evs m)).
Proof. intros Hm Hr. simpl. by rewrite replay_app, Hm. Qed.

Lemma waiting_one m k x : waitOk m → waiting m !! k = Some x → k = 0 ∧ waiting m = [x].
Proof.
  unfold waitOk. destruct (waiting m) as [|y [|z l]]; [done| |by destruct y as [[] ?]].
  destruct k; [|done]. by intros _ [= <-].
Qed.

(** Without a check in progress nothing is awaited. *)
Lemma waiting_idle m : waitOk m → role m ≠ Unset → leaderCheckInProgress m = false → waiting m = [].
Proof.
  unfold waitOk. destruct (waiting m) as [|[[] ?] [|]]; try done; intros [? ?]; congruence.
Qed.

Lemma checkLeader_inv m : mainInv m → role m ≠ Unset → mainInv (checkLeader m).
Proof.
  intros [Hf He Hw] Hr. unfold checkLeader. destruct (leaderCheckInProgress m) eqn:Hp; [done|].
  pose proof (waiting_idle m Hw Hr Hp) as Hidle.
  unfold checkAreWeStillLeader, checkCanBecomeLeader. change (isLeader (withProgress true m)) with (isLeader m).
  destruct (isLeader m) eqn:Hl; (split; [done|simpl; rewrite He, <- Hl; done|]); unfold waitOk; simpl; rewrite Hidle; simpl.
  - by apply isLeader_true in Hl.
  - apply isLeader_false in Hl. split; [|done]. by destruct (role m).
Qed.

Lemma resume_inv host a r w m : mainInv m → waiting m = [(a, w)] → mainInv (resume host a r (withWaiting [] m)).
Proof.
  destruct m as [ro pr wa ev fa st]. intros [Hf He Hw] Ha. unfold waitOk, isLeader in *. simpl in *. subst.
  destruct a; destruct Hw as [-> ->]; simpl; repeat case_match;
    split; unfold waitOk, isLeader; simpl; rewrite ?replay_app, ?He; done.
Qed.

(** ** The invariant of the leases *)

Section leases.
Context (ttl : nat).

Record leaseInv (s : cluster) : Prop := {
  li_key : ∀ h e, rd_key (server s) = Some (h, e) → is_Some (lease s !! h);
  li_bound : ∀ h e, lease s !! h = Some e → e ≤ rd_now (server s) + ttl;
  li_held : stolen s = false → ∀ h e, lease s !! h = Some e → rd_now (server s) < e →
    ∃ e', rd_key (server s) = Some (h, e') ∧ e ≤ e';
}.

Lemma holder_Some r h : holder r = Some h ↔ ∃ e, rd_key r = Some (h, e) ∧ rd_now r < e.
Proof.
  unfold holder. destruct (rd_key r) as [[h' e']|]; [|naive_solver].
  case_bools; naive_solver.
Qed.

Lemma held_holder s h e :
  leaseInv s → stolen s = false → lease s !! h = Some e → rd_now (server s) < e → holder (server s) = Some h.
Proof.
  intros Hs Hst He Hn. destruct (li_held s Hs Hst h e He Hn) as (e' & Hk & Hle).
  apply holder_Some. exists e'. split; [done|lia].
Qed.

(** A grant to [host] when nobody else holds the key *)
Lemma leaseInv_grant s host :
  leaseInv s → (∀ h, holder (server s) = Some h → h = host) →
  leaseInv {| server := writeKey (Some (host, rd_now (server s) + ttl)) (server s); mains := mains s; late := late s;
              lease := <[host := rd_now (server s) + ttl]> (lease s); stolen := stolen s |}.
Proof.
  intros Hs Hhost. split; simpl.
  - intros h e [= -> <-]. rewrite lookup_insert, decide_True by done. eauto.
  - intros h e. rewrite lookup_insert. case_decide; [naive_solver|]. apply (li_bound s Hs).
  - intros Hst h e. rewrite lookup_insert. case_decide as Hh; [intros [= <-] _; subst; eauto|].
    intros He Hn. exfalso. apply Hh. symmetry. apply Hhost. by eapply held_holder.
Qed.

(** The key of the holder is extended. *)
Lemma leaseInv_expire s h :
  leaseInv s → holder (server s) = Some h →
  leaseInv {| server := writeKey (Some (h, rd_now (server s) + ttl)) (server s); mains := mains s; late := late s;
              lease := lease s; stolen := stolen s |}.
Proof.
  intros Hs (e0 & Hk & He0)%holder_Some. split; simpl.
  - intros h' e [= -> <-]. by eapply (li_key s Hs).
  - apply (li_bound s Hs).
  - intros Hst h' e He Hn. destruct (li_held s Hs Hst h' e He Hn) as (e' & Hk' & _). simplify_eq.
    exists (rd_now (server s) + ttl). split; [done|]. by eapply (li_bound s Hs).
Qed.

(** The key is cleared. *)
Lemma leaseInv_clear s host :
  leaseInv s →
  leaseInv {| server := writeKey None (server s); mains := mains s; late := late s;
              lease := <[host := rd_now (server s)]> (lease s);
              stolen := stolen s || steals host ClearLeader (server s) |}.
Proof.
  intros Hs. split; simpl; [done|..].
  - intros h e. rewrite lookup_insert. case_decide; [intros [= <-]; lia|]. apply (li_bound s Hs).
  - intros [Hst Hsteal]%orb_false_iff h e. rewrite lookup_insert. case_decide as Hh; [intros [= <-]; lia|].
    intros He Hn. exfalso. pose proof (held_holder s h e Hs Hst He Hn) as Hholder.
    unfold steals in Hsteal. rewrite Hholder in Hsteal. apply bool_decide_eq_false in Hsteal. naive_solver.
Qed.

Lemma lease_kept (l : gmap nat nat) host e h : is_Some (l !! h) → is_Some (<[host := e]> l !! h).
Proof. rewrite lookup_insert. case_decide; [eauto|done]. Qed.

(** A command that leaves the server as it is *)
Lemma serve_none s : {| server := server s; mains := mains s; late := late s; lease := lease s;
                        stolen := stolen s || false |} = s.
Proof. destruct s. by rewrite orb_false_r. Qed.

Lemma serve_inv host c s r s' :
  leaseInv s → serve ttl host c s = (r, s') →
  leaseInv s' ∧ mains s' = mains s ∧ (∀ h, is_Some (lease s !! h) → is_Some (lease s' !! h)) ∧
  (grants r = true ∨ r = RHolder (Some host) → is_Some (lease s' !! host)).
Proof.
  intros Hs. unfold serve, newLease, INCREASE_TTL_IF_LEADER.
  destruct c; simpl; unfold setNX, INCREASE_TTL_IF_LEADER, expire.
  - rewrite serve_none. intros [= <- <-]. split_and!; [done..|]. intros [?|[= Hh]]; [done|].
    apply holder_Some in Hh as (e & Hk & _). by eapply (li_key s Hs).
  - destruct (holder (server s)) as [h|] eqn:Hh; simpl.
    { rewrite serve_none. intros [= <- <-]. split_and!; [done..|]. by intros [?|?]. }
    rewrite orb_false_r. intros [= <- <-]. split_and!; [apply leaseInv_grant; [done|congruence]|done|..]; simpl.
    + intros h. apply lease_kept.
    + intros _. rewrite lookup_insert, decide_True by done. eauto.
  - destruct (holder (server s)) as [h|] eqn:Hh; simpl.
    2: { rewrite serve_none. intros [= <- <-]. split_and!; [done..|]. by intros [?|?]. }
    destruct (bool_decide_reflect (h ≠ host)) as [Hne|Heq]; simpl.
    { rewrite serve_none. intros [= <- <-]. split_and!; [done..|]. by intros [?|?]. }
    apply dec_stable in Heq. subst h.
    rewrite orb_false_r. intros [= <- <-]. split_and!; [apply leaseInv_grant; [done|congruence]|done|..]; simpl.
    + intros h. apply lease_kept.
    + intros _. rewrite lookup_insert, decide_True by done. eauto.
  - intros [= <- <-]. split_and!; [by apply leaseInv_clear|done|..]; simpl.
    + intros h. apply lease_kept.
    + by intros [?|?].
  - destruct (holder (server s)) as [h|] eqn:Hh; simpl.
    + rewrite orb_false_r. intros [= <- <-]. split_and!; [by apply leaseInv_expire|done..|]. by intros [?|?].
    + rewrite serve_none. intros [= <- <-]. split_and!; [done..|]. by intros [?|?].
Qed.

Lemma leaseInv_ext s s' :
  server s' = server s → lease s' = lease s → stolen s' = stolen s → leaseInv s → leaseInv s'.
Proof. intros E1 E2 E3 [Hk Hb Hh]. split; by rewrite ?E1, ?E2, ?E3. Qed.

(** ** The invariant of the cluster *)

(** An instance that leads, or that has been told that it holds the key *)
Definition entitled (h : nat) (m : main) : Prop :=
  isLeader m = true ∨ ∃ a r, (a, Some r) ∈ waiting m ∧ (grants r = true ∨ r = RHolder (Some h)).

Record clusterInv (s : cluster) : Prop := {
  ci_lease : leaseInv s;
  ci_main : ∀ h m, mains s !! h = Some m → mainInv m;
  ci_granted : ∀ h m, mains s !! h = Some m → entitled h m → is_Some (lease s !! h);
}.

Lemma clusterInv_new : clusterInv newCluster.
Proof. split; [split; simpl; intros; set_solver|set_solver..]. Qed.

Lemma clusterInv_ext s s' :
  server s' = server s → lease s' = lease s → stolen s' = stolen s → mains s' = mains s → clusterInv s → clusterInv s'.
Proof.
  intros E1 E2 E3 E4 [Hl Hm Hg]. split; [by eapply leaseInv_ext|rewrite E4; done|rewrite E4, E2; done].
Qed.

Lemma updateMain_inv h m s :
  clusterInv s → mainInv m → (entitled h m → is_Some (lease s !! h)) → clusterInv (updateMain h m s).
Proof.
  intros [Hl Hm Hg] Hm' Hg'. split; [by eapply leaseInv_ext, Hl| |]; simpl; intros h' m'; rewrite lookup_insert;
    case_decide; subst; [by intros [= <-]|apply Hm|by intros [= <-]|apply Hg].
Qed.

Lemma serve_cluster host c s r s' :
  clusterInv s → serve ttl host c s = (r, s') →
  clusterInv s' ∧ mains s' = mains s ∧ (grants r = true ∨ r = RHolder (Some host) → is_Some (lease s' !! host)).
Proof.
  intros [Hl Hm Hg] E. destruct (serve_inv host c s r s' Hl E) as (Hl' & Hmains & Hkeep & Hgrant).
  split_and!; [|done|done]. split; [done|rewrite Hmains; done|].
  rewrite Hmains. intros h m Hh He. eapply Hkeep, Hg; done.
Qed.

Lemma withWaiting_inv a w w' m : mainInv m → waiting m = [(a, w)] → mainInv (withWaiting [(a, w')] m).
Proof. intros [Hf He Hw] Ha. split; [done..|]. unfold waitOk in *. rewrite Ha in Hw. by destruct a. Qed.

Lemma entitled_resume h a r m :
  waiting m = [(a, Some r)] → entitled h (resume h a r (withWaiting [] m)) → entitled h m.
Proof.
  intros Ha He. destruct (isLeader m) eqn:Hl; [by left|]. right. exists a, r. rewrite Ha. split; [by left|].
  unfold resume, takeOverAsLeader, stepDownToFollower, await in He.
  change (isLeader (withWaiting [] m)) with (isLeader m) in He.
  destruct a, r as [[l|]|[]|[]| |]; simpl in He; rewrite ?Hl in He; try (by left);
    try (destruct (bool_decide_reflect (l = h)) as [->|_]; [by right|]);
    exfalso; destruct He as [He|(a' & r' & Hw & _)]; simplify_eq/=; try (by apply elem_of_nil in Hw);
    try (apply list_elem_of_singleton in Hw; congruence);
    unfold isLeader in *; simpl in *; rewrite ?Hl in *; simpl in *; congruence.
Qed.

Lemma entitled_leader h m m' : (∀ a r, (a, Some r) ∉ waiting m') → isLeader m' = isLeader m → entitled h m' → entitled h m.
Proof. intros Hw Hl [He|(a & r & Ha & _)]; [left; congruence|]. by destruct (Hw a r). Qed.

Lemma checkLeader_entitled h m : mainInv m → role m ≠ Unset → entitled h (checkLeader m) → entitled h m.
Proof.
  intros [_ _ Hw] Hr. unfold checkLeader. destruct (leaderCheckInProgress m) eqn:Hp; [done|].
  pose proof (waiting_idle m Hw Hr Hp) as Hidle.
  unfold checkAreWeStillLeader, checkCanBecomeLeader. change (isLeader (withProgress true m)) with (isLeader m).
  destruct (isLeader m) eqn:Hl; (apply entitled_leader; [|by rewrite Hl]); intros a r; simpl; rewrite Hidle;
    intros Hin%list_elem_of_singleton; congruence.
Qed.

Lemma pass_inv n s :
  clusterInv s →
  clusterInv {| server := {| rd_now := rd_now (server s) + n; rd_key := rd_key (server s) |};
                mains := mains s; late := late s; lease := lease s; stolen := stolen s |}.
Proof.
  intros [[Hk Hb Hh] Hm Hg]. split; [split|done..]; simpl; [done|..].
  - intros h e He. specialize (Hb h e He). lia.
  - intros Hst h e He Hn. apply (Hh Hst h e He). lia.
Qed.

Lemma execute_inv h m a w s :
  clusterInv s → mains s !! h = Some m → waiting m = [(a, w)] →
  clusterInv (let '(r, s) := serve ttl h (commandOf a) s in updateMain h (withWaiting [(a, Some r)] m) s).
Proof.
  intros Hs Hm Ha. destruct (serve ttl h (commandOf a) s) as [r s'] eqn:E.
  destruct (serve_cluster h (commandOf a) s r s' Hs E) as (Hs' & Hmains & Hgrant).
  apply updateMain_inv; [done|eapply withWaiting_inv; [by apply (ci_main s Hs h)|exact Ha]|].
  intros [He|(a' & r' & [= -> ->]%list_elem_of_singleton & Hr)]; [|by apply Hgrant].
  apply (ci_granted s' Hs' h m); [by rewrite Hmains|by left].
Qed.

(** An instance that is told of a failure *)
Lemma error_inv h m a w s :
  clusterInv s → mains s !! h = Some m → waiting m = [(a, w)] →
  clusterInv (updateMain h (withWaiting [(a, Some RError)] m) s).
Proof.
  intros Hs Hm Ha. apply updateMain_inv; [done|eapply withWaiting_inv; [by apply (ci_main s Hs h)|exact Ha]|].
  intros [He|(a' & r' & [= -> ->]%list_elem_of_singleton & [?|?])]; [|done..]. apply (ci_granted s Hs h m); [done|by left].
Qed.

(** The await that a happening is about is the only one. *)
Lemma cluster_waiting h m k x s :
  clusterInv s → mains s !! h = Some m → waiting m !! k = Some x → k = 0 ∧ waiting m = [x].
Proof. intros Hs Hm. apply waiting_one. apply (ci_main s Hs h m Hm). Qed.

Lemma happen_inv s x : clusterInv s → clusterInv (happen ttl s x).
Proof.
  intros Hs. destruct x as [n|h|h|h k|h k|h k|h k|k|h]; simpl.
  - by apply pass_inv.
  - destruct (mains s !! h); [done|]. apply updateMain_inv; [done|by split|].
    intros [?|(a & r & Hin & _)]; [done|]. by apply list_elem_of_singleton in Hin.
  - destruct (mains s !! h) as [m|] eqn:Hm; [|done].
    destruct (bool_decide_reflect (role m = Unset)) as [|Hr]; simpl; [done|]. destruct (stopped m); [done|].
    pose proof (ci_main s Hs h m Hm) as Hinv.
    apply updateMain_inv; [done|by apply checkLeader_inv|].
    intros He. apply (ci_granted s Hs h m); [done|by apply checkLeader_entitled].
  - destruct (mains s !! h) as [m|] eqn:Hm; [|done]. destruct (waiting m !! k) as [[a [r|]]|] eqn:Ha; [done| |done].
    apply (cluster_waiting h m _ _ s Hs Hm) in Ha as [-> Ha]. rewrite Ha. by eapply execute_inv.
  - destruct (mains s !! h) as [m|] eqn:Hm; [|done]. destruct (waiting m !! k) as [[a [r|]]|] eqn:Ha; [done| |done].
    apply (cluster_waiting h m _ _ s Hs Hm) in Ha as [-> Ha]. rewrite Ha.
    eapply error_inv; [by eapply clusterInv_ext, Hs|done..].
  - destruct (mains s !! h) as [m|] eqn:Hm; [|done]. destruct (waiting m !! k) as [[a [r|]]|] eqn:Ha; [|done..].
    apply (cluster_waiting h m _ _ s Hs Hm) in Ha as [-> Ha]. rewrite Ha. by eapply error_inv.
  - destruct (mains s !! h) as [m|] eqn:Hm; [|done]. destruct (waiting m !! k) as [[a [r|]]|] eqn:Ha; [|done..].
    apply (cluster_waiting h m _ _ s Hs Hm) in Ha as [-> Ha]. rewrite Ha.
    apply updateMain_inv; [done|eapply resume_inv; [by apply (ci_main s Hs h)|exact Ha]|].
    intros He. apply (ci_granted s Hs h m); [done|by eapply entitled_resume].
  - destruct (late s !! k) as [[h c]|] eqn:Hk; [|done].
    destruct (serve ttl h c (dropLate k s)) as [r s'] eqn:E.
    eapply (serve_cluster h c (dropLate k s)); [by eapply clusterInv_ext, Hs|exact E].
  - destruct (mains s !! h) as [m|] eqn:Hm; [|done]. unfold shutdown.
    assert (clusterInv (updateMain h (stopMain m) s)) as Hstop.
    { apply updateMain_inv; [done|by destruct (ci_main s Hs h m Hm); split|]. apply (ci_granted s Hs h m Hm). }
    destruct (isLeader m); [|done]. by eapply clusterInv_ext, Hstop.
Qed.

Lemma run_inv xs : clusterInv (run ttl xs).
Proof.
  unfold run. generalize clusterInv_new. generalize newCluster.
  induction xs as [|x xs IH]; intros s Hs; [done|]. apply IH. by apply happen_inv.
Qed.
End leases.

(** *** A check that nothing disturbs *)

Definition undisturbedCheck (h : nat) : list happening := [Check h; Execute h 0; Resume h 0; Execute h 0; Resume h 0].

Lemma mains_update h m s : mains (updateMain h m s) !! h = Some m.
Proof. simpl. by rewrite lookup_insert, decide_True. Qed.

#[local] Arguments happen : simpl never.

Lemma happen_execute ttl h m a s :
  mains s !! h = Some m → waiting m = [(a, None)] →
  happen ttl s (Execute h 0) =
    updateMain h (withWaiting [(a, Some (serve ttl h (commandOf a) s).1)] m) (serve ttl h (commandOf a) s).2.
Proof.
  intros Hm Ha. unfold happen. rewrite Hm, Ha. change ([(a, None)] !! 0) with (Some (a, @None reply)). cbv iota beta.
  by destruct (serve ttl h (commandOf a) s).
Qed.

Lemma happen_resume ttl h m a r s :
  mains s !! h = Some m → waiting m = [(a, Some r)] →
  happen ttl s (Resume h 0) = updateMain h (resume h a r (withWaiting [] m)) s.
Proof. intros Hm Ha. unfold happen. by rewrite Hm, Ha. Qed.

Lemma happen_idle ttl h m s :
  mains s !! h = Some m → waiting m = [] → happen ttl s (Execute h 0) = s ∧ happen ttl s (Resume h 0) = s.
Proof. intros Hm Ha. unfold happen. by rewrite Hm, Ha. Qed.

(** The await of instance [h], if it has one, is answered. *)
Definition answer (ttl h : nat) (s : cluster) : cluster := happen ttl (happen ttl s (Execute h 0)) (Resume h 0).

Lemma answer_waiting ttl h m a s :
  mains s !! h = Some m → waiting m = [(a, None)] →
  answer ttl h s =
    let r := (serve ttl h (commandOf a) s).1 in
    let m' := withWaiting [(a, Some r)] m in
    updateMain h (resume h a r (withWaiting [] m')) (updateMain h m' (serve ttl h (commandOf a) s).2).
Proof.
  intros Hm Ha. unfold answer. rewrite (happen_execute _ _ _ _ _ Hm Ha).
  erewrite happen_resume; [done|apply mains_update|done].
Qed.

(** Host [w] holds the key, and instance [h] has finished its check and leads exactly if it is [w]. *)
Definition agrees (h w : nat) (s : cluster) : Prop :=
  ∃ m, mains s !! h = Some m ∧ waiting m = [] ∧ holder (server s) = Some w ∧ isLeader m = bool_decide (w = h).

Lemma answer_agrees ttl h w s : agrees h w s → agrees h w (answer ttl h s).
Proof.
  intros (m & Hm & Hw & Hh). unfold answer. destruct (happen_idle ttl h m s Hm Hw) as [-> ->]. by exists m.
Qed.

Lemma updateMain_agrees h w m s :
  waiting m = [] → holder (server s) = Some w → isLeader m = bool_decide (w = h) → agrees h w (updateMain h m s).
Proof. intros. exists m. split; [apply mains_update|done]. Qed.

Lemma holder_written h e r : rd_now r < e → holder (writeKey (Some (h, e)) r) = Some h.
Proof. intros He. unfold holder. simpl. by rewrite bool_decide_true. Qed.

Lemma waiting_takeOver m : waiting (takeOverAsLeader m) = waiting m.
Proof. unfold takeOverAsLeader. by destruct (isLeader m). Qed.

Lemma waiting_stepDown m : waiting (stepDownToFollower m) = waiting m.
Proof. unfold stepDownToFollower. by destruct (isLeader m). Qed.

(** The claim of a vacant key *)
Lemma answer_claim ttl h m a s :
  0 < ttl → mains s !! h = Some m → waiting m = [(a, None)] → holder (server s) = None →
  (a = AwaitReclaim ∧ isLeader m = true ∨ a = AwaitClaim ∧ isLeader m = false) → agrees h h (answer ttl h s).
Proof.
  intros Httl Hm Ha Hh Hl. rewrite (answer_waiting _ _ _ _ _ Hm Ha).
  destruct Hl as [[-> Hl]|[-> Hl]]; unfold serve; simpl; unfold setNX; rewrite Hh; simpl;
    apply updateMain_agrees; simpl; rewrite ?waiting_takeOver, ?holder_written, ?bool_decide_true by (lia || done); try done;
    unfold takeOverAsLeader; change (isLeader (withWaiting [] (withWaiting _ m))) with (isLeader m); by rewrite ?Hl.
Qed.

(** The renewal of a leader *)
Lemma answer_renewal ttl h m s :
  0 < ttl → mains s !! h = Some m → waiting m = [(AwaitRenewal, None)] → isLeader m = true →
  agrees h (default h (holder (server s))) (answer ttl h (answer ttl h s)).
Proof.
  intros Httl Hm Ha Hl. rewrite (answer_waiting _ _ _ _ _ Hm Ha). unfold serve. simpl.
  unfold INCREASE_TTL_IF_LEADER, expire. destruct (holder (server s)) as [l|] eqn:Hh; simpl.
  - destruct (bool_decide_reflect (l ≠ h)) as [Hne|Heq]; simpl; apply answer_agrees, updateMain_agrees; simpl;
      rewrite ?waiting_stepDown, ?Hh, ?holder_written by lia; try done.
    + unfold stepDownToFollower. change (isLeader (withWaiting [] (withWaiting _ m))) with (isLeader m). rewrite Hl.
      by rewrite bool_decide_false.
    + rewrite bool_decide_true by by apply dec_stable. done.
  - eapply answer_claim; [done|apply mains_update|done|done|]. by left.
Qed.

(** The look of a follower at the key *)
Lemma answer_leader ttl h m s :
  0 < ttl → mains s !! h = Some m → waiting m = [(AwaitLeader, None)] → isLeader m = false →
  agrees h (default h (holder (server s))) (answer ttl h (answer ttl h s)).
Proof.
  intros Httl Hm Ha Hl. rewrite (answer_waiting _ _ _ _ _ Hm Ha). unfold serve. simpl.
  destruct (holder (server s)) as [l|] eqn:Hh; simpl.
  - apply answer_agrees, updateMain_agrees; simpl; [case_bool_decide; simpl; by rewrite ?waiting_takeOver|done|].
    case_bool_decide; [|done]. unfold takeOverAsLeader. change (isLeader (withWaiting [] (withWaiting _ m))) with (isLeader m).
    by rewrite Hl.
  - eapply answer_claim; [done|apply mains_update|done|done|]. by right.
Qed.

(** What an idle instance does when its timer fires *)
Lemma check_idle ttl xs h m :
  mains (run ttl xs) !! h = Some m → waiting m = [] → stopped m = false →
  happen ttl (run ttl xs) (Check h) =
    updateMain h (withWaiting [(if isLeader m then AwaitRenewal else AwaitLeader, None)] (withProgress true m))
      (run ttl xs).
Proof.
  intros Hm Hw Hst. pose proof (ci_main _ _ (run_inv ttl xs) h m Hm) as [_ _ Hok].
  unfold waitOk in Hok. rewrite Hw in Hok. destruct Hok as [Hr Hp].
  unfold happen. rewrite Hm, Hst, bool_decide_false by done. simpl. unfold checkLeader. rewrite Hp.
  unfold checkAreWeStillLeader, checkCanBecomeLeader. change (isLeader (withProgress true m)) with (isLeader m).
  unfold await. simpl. rewrite Hw. by destruct (isLeader m).
Qed.

Lemma undisturbed_agrees ttl xs h m :
  0 < ttl → mains (run ttl xs) !! h = Some m → waiting m = [] → stopped m = false →
  agrees h (default h (holder (server (run ttl xs)))) (foldl (happen ttl) (run ttl xs) (undisturbedCheck h)).
Proof.
  intros Httl Hm Hw Hst. cbn [foldl undisturbedCheck]. rewrite (check_idle _ _ _ _ Hm Hw Hst).
  set (s := updateMain h _ (run ttl xs)). change (server (run ttl xs)) with (server s).
  change (agrees h (default h (holder (server s))) (answer ttl h (answer ttl h s))). subst s.
  destruct (isLeader m) eqn:Hl; [eapply answer_renewal|eapply answer_leader]; try apply mains_update; done.
Qed.

(** C37: the strategy of version 2.  Whatever the instances, their timers, the clock and the network do, also
    if a timer fires while a check is still under way, no assertion of an instance
    fails, its takeovers and stepdowns alternate and agree with its role, and an instance leads only
    after the server granted it the key; as long as no host clears the key of another one, at most
    one host has a grant that has not expired.  If nothing disturbs a check, the key has a holder afterwards, and
    the instance leads exactly if it is the holder: a vacant key is taken, a leader that lost the key to
    another host steps down, a leader whose key is gone claims it again. *)
Theorem leases_exclusive ttl xs :
  let s := run ttl xs in
  (∀ h m, mains s !! h = Some m →
     failed m = false ∧ replay false (emitted m) = Some (isLeader m) ∧ (isLeader m = true → is_Some (lease s !! h))) ∧
  (stolen s = false → ∀ h1 h2 e1 e2, lease s !! h1 = Some e1 → lease s !! h2 = Some e2 →
     rd_now (server s) < e1 → rd_now (server s) < e2 → h1 = h2) ∧
  (0 < ttl → ∀ h m, mains s !! h = Some m → waiting m = [] → stopped m = false →
     agrees h (default h (holder (server s))) (foldl (happen ttl) s (undisturbedCheck h))).
Proof.
  intros s. pose proof (run_inv ttl xs) as Hs. fold s in Hs. split_and!.
  - intros h m Hm. destruct (ci_main _ _ Hs h m Hm) as [Hf He _]. split_and!; [done..|].
    intros Hl. apply (ci_granted _ _ Hs h m Hm). by left.
  - intros Hst h1 h2 e1 e2 H1 H2 Hn1 Hn2.
    pose proof (held_holder _ _ _ _ (ci_lease _ _ Hs) Hst H1 Hn1).
    pose proof (held_holder _ _ _ _ (ci_lease _ _ Hs) Hst H2 Hn2). congruence.
  - intros Httl h m. by apply undisturbed_agrees.
Qed.

Definition startUp (h : nat) : list happening := [Start h; Execute h 0; Resume h 0].

(** The key of the leader expires and another host takes it: the next check of the leader makes it a follower. *)
Example lost_leader_steps_down :
  let s := run 10 (startUp 1 ++ startUp 2 ++ [Pass 10] ++ undisturbedCheck 2) in
  (isLeader <$> mains s !! 1, isLeader <$> mains s !! 2) = (Some true, Some true) ∧
  isLeader <$> mains (foldl (happen 10) s (undisturbedCheck 1)) !! 1 = Some false.
Proof. vm_compute. done. Qed.

(** A check that starts while another one waits is skipped. *)
Example overlapping_check_skipped :
  let s := run 10 (startUp 1 ++ [Check 1; Check 1]) in length ∘ waiting <$> mains s !! 1 = Some 1.
Proof. vm_compute. done. Qed.

(** A host whose key has expired clears the key of the next leader when it shuts down; a third host
    then takes the key, and two leaders have a grant that has not expired. *)
Lemma shutdown_clears_foreign_key :
  let s := run 10 (startUp 1 ++ [Pass 10] ++ startUp 2 ++ [Shutdown 1; Late 0] ++ startUp 3) in
  stolen s = true ∧ rd_now (server s) = 10 ∧ lease s !! 2 = Some 20 ∧ lease s !! 3 = Some 20 ∧
  isLeader <$> mains s !! 2 = Some true ∧ isLeader <$> mains s !! 3 = Some true.
Proof. vm_compute. done. Qed.
