(* ===== verification/LegacyElection.v ===== *)
(** * The legacy strategy of leader election

    Model of [packages/cli/src/scaling/multi-main-setup-legacy.ts], which uses the same key in the
    same Redis as the new strategy of [LeaderElection.v].  Checks are not kept apart, so an instance
    can await several replies at once; each call is cut at its awaits. *)

From stdpp Require Import gmap.
From S2P Require Import Prelude JsCollections LeaderElection.

Module Legacy.

Inductive awaiting := AwaitInit | AwaitLeader | AwaitExpiration | AwaitClaim.

Definition commandOf (a : awaiting) : command :=
  match a with
  | AwaitInit | AwaitClaim => SetLeaderIfNotExists
  | AwaitLeader => GetLeader
  | AwaitExpiration => SetExpiration
  end.

Record main := {
  role : InstanceRole;
  waiting : list (awaiting * option reply);
  emitted : list mainEvent;
}.

Definition newMain : main := {| role := Unset; waiting := []; emitted := [] |}.

Definition isLeader (m : main) : bool := bool_decide (role m = Leader).

Definition withRole (r : InstanceRole) (evs : list mainEvent) (m : main) : main :=
  {| role := r; waiting := waiting m; emitted := emitted m ++ evs |}.

Definition withWaiting (w : list (awaiting * option reply)) (m : main) : main :=
  {| role := role m; waiting := w; emitted := emitted m |}.

(** A call that awaits *)
Definition await (a : awaiting) (m : main) : main := withWaiting (waiting m ++ [(a, None)]) m.

(** [init] and [checkLeader], up to their first await *)
Definition init : main := await AwaitInit newMain.

Definition checkLeader : main → main := await AwaitLeader.

(** What follows an await, up to the next one; a failure is thrown out of the call. *)
Definition resume (host : nat) (a : awaiting) (r : reply) (m : main) : main :=
  match a, r with
  | AwaitLeader, RHolder (Some leaderId) =>
      if bool_decide (leaderId = host) then
        await AwaitExpiration (if isLeader m then m else withRole Leader [LeaderTakeover] m)
      else if isLeader m then withRole Follower [LeaderStepdown] m
      else m
  | AwaitLeader, RHolder None => await AwaitClaim (withRole Follower [LeaderStepdown] m)
  | (AwaitInit | AwaitClaim), RBool true => withRole Leader [LeaderTakeover] m
  | (AwaitInit | AwaitClaim), RBool false => withRole Follower [] m
  | _, _ => m
  end.

(** [shutdown]: a leader clears the key. *)
Definition shutdown (ttl host : nat) (s : main * redis) : main * redis :=
  if isLeader s.1 then (s.1, (executeCommand ttl host ClearLeader s.2).2) else s.

(** The server executes the [k]-th command that the instance awaits. *)
Definition execute (ttl host k : nat) (s : main * redis) : main * redis :=
  match waiting s.1 !! k with
  | Some (a, None) =>
      let '(r, srv) := executeCommand ttl host (commandOf a) s.2 in
      (withWaiting (<[k := (a, Some r)]> (waiting s.1)) s.1, srv)
  | _ => s
  end.

(** Its reply arrives. *)
Definition arrive (host k : nat) (s : main * redis) : main * redis :=
  match waiting s.1 !! k with
  | Some (a, Some r) => (resume host a r (withWaiting (delete k (waiting s.1)) s.1), s.2)
  | _ => s
  end.

Definition answer (ttl host : nat) (s : main * redis) : main * redis := arrive host 0 (execute ttl host 0 s).

(** [checkLeader] of an instance, with nothing in between *)
Definition undisturbedCheck (ttl host : nat) (s : main * redis) : main * redis :=
  answer ttl host (answer ttl host (checkLeader s.1, s.2)).

Lemma answer_one ttl h m a srv :
  waiting m = [(a, None)] →
  answer ttl h (m, srv) =
    let '(r, srv') := executeCommand ttl h (commandOf a) srv in (resume h a r (withWaiting [] m), srv').
Proof.
  intros Hw. unfold answer, execute. simpl. rewrite Hw. simpl.
  by destruct (executeCommand ttl h (commandOf a) srv) as [r srv'].
Qed.

Lemma answer_none ttl h m srv : waiting m = [] → answer ttl h (m, srv) = (m, srv).
Proof. intros Hw. unfold answer, execute, arrive. simpl. rewrite Hw. simpl. by rewrite Hw. Qed.

(** The check of a legacy instance: who holds the key, the role and the events afterwards *)
Lemma undisturbedCheck_spec ttl h m srv :
  0 < ttl → waiting m = [] →
  let s := undisturbedCheck ttl h (m, srv) in
  waiting s.1 = [] ∧ holder s.2 = Some (default h (holder srv)) ∧
  isLeader s.1 = bool_decide (default h (holder srv) = h) ∧
  emitted s.1 = emitted m ++
    match holder srv with
    | None => [LeaderStepdown; LeaderTakeover]
    | Some w =>
        if bool_decide (w = h) then if isLeader m then [] else [LeaderTakeover]
        else if isLeader m then [LeaderStepdown] else []
    end.
Proof.
  intros Httl Hw. unfold undisturbedCheck. rewrite (answer_one _ _ _ AwaitLeader) by (simpl; by rewrite Hw).
  simpl. change (isLeader (withWaiting [] _)) with (isLeader m).
  destruct (holder srv) as [w|] eqn:Hh; simpl.
  - destruct (bool_decide_reflect (w = h)) as [->|Hne]; simpl.
    + rewrite (answer_one _ _ _ AwaitExpiration) by by destruct (isLeader m).
      simpl. unfold expire. rewrite Hh. simpl. rewrite holder_written by lia.
      by destruct (isLeader m) eqn:Hl; simpl; rewrite ?app_nil_r.
    + rewrite answer_none by by destruct (isLeader m). simpl. rewrite Hh.
      by destruct (isLeader m) eqn:Hl; simpl; rewrite ?app_nil_r.
  - rewrite (answer_one _ _ _ AwaitClaim) by done. simpl. unfold setNX. rewrite Hh. simpl.
    rewrite holder_written by lia. rewrite <- (assoc_L (++)), !bool_decide_true; done.
Qed.
End Legacy.

(** An undisturbed check of the legacy strategy and one of the new strategy that find the same key
    end in the same role and with the same holder of the key, whatever the roles were before. *)
Theorem legacy_check_equivalent ttl xs h m (m' : Legacy.main) :
  0 < ttl → mains (run ttl xs) !! h = Some m → waiting m = [] → stopped m = false →
  Legacy.waiting m' = [] →
  let new := foldl (happen ttl) (run ttl xs) (undisturbedCheck h) in
  let old := Legacy.undisturbedCheck ttl h (m', server (run ttl xs)) in
  isLeader <$> mains new !! h = Some (Legacy.isLeader old.1) ∧ holder (server new) = holder old.2.
Proof.
  intros Httl Hm Hw Hst Hw'. destruct (undisturbed_agrees ttl xs h m Httl Hm Hw Hst) as (m1 & Hm1 & _ & Hh & Hl).
  destruct (Legacy.undisturbedCheck_spec ttl h m' (server (run ttl xs)) Httl Hw') as (_ & Hh' & Hl' & _).
  cbv zeta. rewrite Hm1, Hh, Hh', Hl'. simpl. by rewrite Hl.
Qed.

Lemma legacy_check_equivalent_witness :
  let xs := startUp 1 ++ startUp 2 ++ [Pass 10] in
  let old := Legacy.undisturbedCheck 10 2 (Legacy.withRole Follower [] Legacy.newMain, server (run 10 xs)) in
  isLeader <$> mains (foldl (happen 10) (run 10 xs) (undisturbedCheck 2)) !! 2 = Some (Legacy.isLeader old.1) ∧
  holder (server (foldl (happen 10) (run 10 xs) (undisturbedCheck 2))) = holder old.2.
Proof. eapply legacy_check_equivalent; [lia|vm_compute; reflexivity..]. Defined.

(** A legacy follower that finds the key vacant announces that it stepped down, although it never led. *)
Lemma legacy_follower_steps_down :
  let m := (Legacy.undisturbedCheck 10 1 (Legacy.withRole Follower [] Legacy.newMain, server newCluster)).1 in
  Legacy.emitted m = [LeaderStepdown; LeaderTakeover] ∧ replay false (Legacy.emitted m) = None.
Proof. vm_compute. done. Qed.

(** Two legacy checks that overlap: both find the key vacant, the first one claims it, and the claim of
    the second makes the instance a follower that holds the key, with the takeover as its last event. *)
Lemma legacy_overlapping_checks :
  let s := (Legacy.checkLeader (Legacy.checkLeader (Legacy.withRole Follower [] Legacy.newMain)), server newCluster) in
  let answered := Legacy.arrive 1 0 (Legacy.arrive 1 0 (Legacy.execute 10 1 1 (Legacy.execute 10 1 0 s))) in
  let s' := Legacy.arrive 1 0 (Legacy.arrive 1 0 (Legacy.execute 10 1 1 (Legacy.execute 10 1 0 answered))) in
  Legacy.waiting s'.1 = [] ∧ Legacy.role s'.1 = Follower ∧ holder s'.2 = Some 1 ∧
  Legacy.emitted s'.1 = [LeaderStepdown; LeaderStepdown; LeaderTakeover].
Proof. vm_compute. done. Qed.
