(* ===== verification/TextCodec.v ===== *)
(** * [TextEncoder] and [TextDecoder]

    The encoding of the platform that [@n8n/crdt] uses for document ids.  A string is the list of
    its UTF-16 code units, a byte array the list of its bytes.  Encoding replaces surrogates that
    have no partner, decoding replaces malformed sequences and drops a byte order mark at the
    beginning, as the Encoding Standard prescribes. *)

From stdpp Require Import numbers list.
From S2P Require Import Prelude.

#[local] Open Scope Z_scope.

(** Divisions by constants become equations. *)
Ltac div_lia := Z.to_euclidean_division_equations; lia.

(** ** Code points *)

Definition REPLACEMENT : Z := 0xFFFD.
Definition BOM : Z := 0xFEFF.

Definition isHigh (u : Z) : bool := (0xD800 <=? u) && (u <=? 0xDBFF).
Definition isLow (u : Z) : bool := (0xDC00 <=? u) && (u <=? 0xDFFF).

(** The scalar values of a string *)
Fixpoint toScalars (s : list Z) : list Z :=
  match s with
  | [] => []
  | u :: rest =>
      if isHigh u then
        match rest with
        | v :: rest' =>
            if isLow v then (0x10000 + (u - 0xD800) * 0x400 + (v - 0xDC00)) :: toScalars rest'
            else REPLACEMENT :: toScalars rest
        | [] => [REPLACEMENT]
        end
      else if isLow u then REPLACEMENT :: toScalars rest
      else u :: toScalars rest
  end.

Definition codeUnits (c : Z) : list Z :=
  if c <? 0x10000 then [c]
  else [0xD800 + (c - 0x10000) / 0x400; 0xDC00 + (c - 0x10000) mod 0x400].

(** ** UTF-8 *)

Definition encodeScalar (c : Z) : list Z :=
  if c <? 0x80 then [c]
  else if c <? 0x800 then [0xC0 + c / 0x40; 0x80 + c mod 0x40]
  else if c <? 0x10000 then [0xE0 + c / 0x1000; 0x80 + c / 0x40 mod 0x40; 0x80 + c mod 0x40]
  else [0xF0 + c / 0x40000; 0x80 + c / 0x1000 mod 0x40; 0x80 + c / 0x40 mod 0x40; 0x80 + c mod 0x40].

(** [new TextEncoder().encode(s)] *)
Definition textEncode (s : list Z) : list Z := flat_map encodeScalar (toScalars s).

Definition between (lower upper b : Z) : bool := (lower <=? b) && (b <=? upper).

(** The decoder: a sequence that breaks off is replaced, and the byte at which it breaks off is
    looked at again. *)
Fixpoint decodeScalars (bs : list Z) : list Z :=
  match bs with
  | [] => []
  | b :: r1 =>
      if b <? 0x80 then b :: decodeScalars r1
      else if between 0xC2 0xDF b then
        match r1 with
        | c :: r2 =>
            if between 0x80 0xBF c then ((b - 0xC0) * 0x40 + (c - 0x80)) :: decodeScalars r2
            else REPLACEMENT :: decodeScalars r1
        | [] => [REPLACEMENT]
        end
      else if between 0xE0 0xEF b then
        match r1 with
        | c :: r2 =>
            if between (if b =? 0xE0 then 0xA0 else 0x80) (if b =? 0xED then 0x9F else 0xBF) c then
              match r2 with
              | d :: r3 =>
                  if between 0x80 0xBF d then
                    ((b - 0xE0) * 0x1000 + (c - 0x80) * 0x40 + (d - 0x80)) :: decodeScalars r3
                  else REPLACEMENT :: decodeScalars r2
              | [] => [REPLACEMENT]
              end
            else REPLACEMENT :: decodeScalars r1
        | [] => [REPLACEMENT]
        end
      else if between 0xF0 0xF4 b then
        match r1 with
        | c :: r2 =>
            if between (if b =? 0xF0 then 0x90 else 0x80) (if b =? 0xF4 then 0x8F else 0xBF) c then
              match r2 with
              | d :: r3 =>
                  if between 0x80 0xBF d then
                    match r3 with
                    | e :: r4 =>
                        if between 0x80 0xBF e then
                          ((b - 0xF0) * 0x40000 + (c - 0x80) * 0x1000 + (d - 0x80) * 0x40 + (e - 0x80))
                            :: decodeScalars r4
                        else REPLACEMENT :: decodeScalars r3
                    | [] => [REPLACEMENT]
                    end
                  else REPLACEMENT :: decodeScalars r2
              | [] => [REPLACEMENT]
              end
            else REPLACEMENT :: decodeScalars r1
        | [] => [REPLACEMENT]
        end
      else REPLACEMENT :: decodeScalars r1
  end.

Definition dropBOM (cs : list Z) : list Z :=
  match cs with
  | c :: rest => if c =? BOM then rest else cs
  | [] => []
  end.

(** [new TextDecoder().decode(bytes)] *)
Definition textDecode (bs : list Z) : list Z := flat_map codeUnits (dropBOM (decodeScalars bs)).

(** ** Round trip *)

Definition isByte (b : Z) : Prop := 0 <= b < 256.
Definition isScalar (c : Z) : Prop := 0 <= c < 0x110000 ∧ ¬ (0xD800 <= c <= 0xDFFF).

(** Every surrogate has its partner. *)
Fixpoint wellFormed (s : list Z) : bool :=
  match s with
  | [] => true
  | u :: rest =>
      (0 <=? u) && (u <? 0x10000) &&
      if isHigh u then match rest with v :: rest' => isLow v && wellFormed rest' | [] => false end
      else negb (isLow u) && wellFormed rest
  end.

Lemma between_true l u b : l <= b <= u → between l u b = true.
Proof. unfold between. lia. Qed.

Lemma between_false l u b : b < l ∨ u < b → between l u b = false.
Proof. unfold between. lia. Qed.

Lemma decode_encodeScalar c rest :
  isScalar c → decodeScalars (encodeScalar c ++ rest) = c :: decodeScalars rest.
Proof.
  intros [Hc Hs]. unfold encodeScalar.
  destruct (Z.ltb_spec c 0x80); [simpl; by rewrite (proj2 (Z.ltb_lt _ _))|].
  destruct (Z.ltb_spec c 0x800).
  { simpl. rewrite (proj2 (Z.ltb_ge _ _)) by div_lia. rewrite !between_true by div_lia. f_equal. div_lia. }
  destruct (Z.ltb_spec c 0x10000).
  { cbn [app decodeScalars]. rewrite (proj2 (Z.ltb_ge _ _)) by div_lia.
    rewrite (between_false 0xC2) by div_lia.
    rewrite (between_true 0xE0) by div_lia.
    rewrite (between_true (if _ =? 0xE0 then _ else _))
      by (destruct (Z.eqb_spec (0xE0 + c / 0x1000) 0xE0), (Z.eqb_spec (0xE0 + c / 0x1000) 0xED); div_lia).
    rewrite between_true by div_lia. f_equal. div_lia. }
  cbn [app decodeScalars]. rewrite (proj2 (Z.ltb_ge _ _)) by div_lia.
  rewrite (between_false 0xC2), (between_false 0xE0) by div_lia.
  rewrite (between_true 0xF0) by div_lia.
  rewrite (between_true (if _ =? 0xF0 then _ else _))
    by (destruct (Z.eqb_spec (0xF0 + c / 0x40000) 0xF0), (Z.eqb_spec (0xF0 + c / 0x40000) 0xF4); div_lia).
  rewrite !between_true by div_lia. f_equal. div_lia.
Qed.

Lemma decode_encodeScalars cs : Forall isScalar cs → decodeScalars (flat_map encodeScalar cs) = cs.
Proof. induction 1 as [|c cs Hc _ IH]; [done|]. simpl. by rewrite decode_encodeScalar, IH. Qed.

Lemma isHigh_spec u : reflect (0xD800 <= u <= 0xDBFF) (isHigh u).
Proof. apply iff_reflect. unfold isHigh. lia. Qed.

Lemma isLow_spec u : reflect (0xDC00 <= u <= 0xDFFF) (isLow u).
Proof. apply iff_reflect. unfold isLow. lia. Qed.

(** The induction that [toScalars] and [wellFormed] follow *)
Lemma units_ind (P : list Z → Prop) :
  P [] → (∀ u s, P s → (∀ v s', s = v :: s' → P s') → P (u :: s)) → ∀ s, P s.
Proof.
  intros H0 H1 s. enough (P s ∧ ∀ v s', s = v :: s' → P s') by naive_solver.
  induction s as [|u s [IH1 IH2]]; [done|]. split; [by apply H1|]. by intros v s' [= <- <-].
Qed.

Lemma codeUnits_pair u v :
  0xD800 <= u <= 0xDBFF → 0xDC00 <= v <= 0xDFFF →
  let c := 0x10000 + (u - 0xD800) * 0x400 + (v - 0xDC00) in
  codeUnits c = [u; v] ∧ isScalar c ∧ c ≠ BOM.
Proof.
  intros Hu Hv c. unfold codeUnits, isScalar, BOM, c. rewrite (proj2 (Z.ltb_ge _ _)) by lia.
  split; [|lia]. repeat f_equal; div_lia.
Qed.

Lemma toScalars_spec s :
  wellFormed s = true →
  Forall isScalar (toScalars s) ∧ flat_map codeUnits (toScalars s) = s ∧
  (head s ≠ Some BOM → head (toScalars s) ≠ Some BOM).
Proof.
  induction s as [|u s IH IH'] using units_ind; simpl; [done|]. intros Hw.
  apply andb_prop in Hw as [Hr Hw]. destruct (isHigh_spec u) as [Hu|Hu].
  - destruct s as [|v s]; [done|]. destruct (isLow_spec v) as [Hv|Hv]; [|done].
    destruct (codeUnits_pair u v Hu Hv) as (Hc & Hs & Hb). destruct (IH' v s eq_refl Hw) as (Hall & Heq & _).
    split_and!; [by constructor|simpl; by rewrite Hc, Heq|simpl; congruence].
  - destruct (isLow_spec u) as [Hv|Hv]; [done|]. destruct (IH Hw) as (Hall & Heq & _).
    split_and!; [constructor; [|done]; split; lia| |done].
    simpl. rewrite Heq. unfold codeUnits. by rewrite (proj2 (Z.ltb_lt _ _)) by lia.
Qed.

Lemma dropBOM_id cs : head cs ≠ Some BOM → dropBOM cs = cs.
Proof. destruct cs as [|c cs]; [done|]. simpl. destruct (Z.eqb_spec c BOM); congruence. Qed.

(** A string whose surrogates have partners and that does not begin with a byte order mark is read
    back as it was written. *)
Lemma textDecode_encode s : wellFormed s = true → head s ≠ Some BOM → textDecode (textEncode s) = s.
Proof.
  intros Hw Hb. destruct (toScalars_spec s Hw) as (Hall & Heq & Hb'). unfold textDecode, textEncode.
  by rewrite decode_encodeScalars, dropBOM_id by auto.
Qed.

Lemma toScalars_scalars s : Forall (λ u, 0 <= u < 0x10000) s → Forall isScalar (toScalars s).
Proof.
  induction s as [|u s IH IH'] using units_ind; [done|]. intros Hall. inversion Hall as [|?? Hu Hs]; subst. simpl.
  assert (isScalar REPLACEMENT) as Hrep by (split; [done|unfold REPLACEMENT; lia]).
  destruct (isHigh_spec u) as [Hh|Hh].
  - destruct s as [|v s]; [by constructor|]. destruct (isLow_spec v) as [Hv|Hv].
    + constructor; [by apply codeUnits_pair|]. inversion Hs; subst. by eapply IH'.
    + constructor; [done|by apply IH].
  - destruct (isLow_spec u) as [Hl|Hl]; (constructor; [|by apply IH]); [done|]. split; lia.
Qed.

Lemma encodeScalar_bytes c : isScalar c → Forall isByte (encodeScalar c).
Proof.
  intros [Hc _]. unfold encodeScalar.
  destruct (Z.ltb_spec c 0x80); [|destruct (Z.ltb_spec c 0x800); [|destruct (Z.ltb_spec c 0x10000)]];
    repeat constructor; div_lia.
Qed.

(** The encoder produces bytes. *)
Lemma textEncode_bytes s : Forall (λ u, 0 <= u < 0x10000) s → Forall isByte (textEncode s).
Proof.
  intros Hs. apply toScalars_scalars in Hs. unfold textEncode.
  induction Hs as [|c cs Hc _ IH]; simpl; [done|]. apply Forall_app. split; [by apply encodeScalar_bytes|done].
Qed.

Lemma wellFormed_units s : wellFormed s = true → Forall (λ u, 0 <= u < 0x10000) s.
Proof.
  induction s as [|u s IH IH'] using units_ind; [done|]. simpl. intros Hw.
  apply andb_prop in Hw as [Hr Hw]. constructor; [lia|]. destruct (isHigh_spec u).
  - destruct s as [|v s]; [done|]. destruct (isLow_spec v); [|done]. constructor; [lia|by eapply IH'].
  - destruct (isLow_spec u); [done|by apply IH].
Qed.
