(* ===== verification/Protocol.v ===== *)
(** * Messages between the editor, its worker and the server

    Model of [packages/@n8n/crdt/src/protocol.ts].  A message begins with a byte for its type; on
    the way between the editor and its worker the id of the document follows, with its length in
    two bytes.  Byte arrays are lists of bytes, numbers are integers, shifts work on 32 bits. *)

From stdpp Require Import numbers list strings.
From S2P Require Import Prelude TextCodec.

#[local] Open Scope Z_scope.

(** ** Byte arrays *)

Definition u8_new (n : nat) : list Z := replicate n 0.

(** [a[i] = v]: the value is reduced to a byte, and nothing happens out of range. *)
Definition u8_put (i : nat) (v : Z) (a : list Z) : list Z := <[i := v mod 256]> a.

(** [a.set(src, offset)] *)
Definition u8_set (src : list Z) (offset : nat) (a : list Z) : res (list Z) :=
  if bool_decide (length a < offset + length src)%nat then Throw RangeError
  else Ok (take offset a ++ src ++ drop (offset + length src) a).

(** [a.subarray(from, to)] and [a.subarray(from)] *)
Definition subarray (from to : nat) (a : list Z) : list Z := take (to - from) (drop from a).

Definition toInt32 (z : Z) : Z := let m := z mod 2 ^ 32 in if m <? 2 ^ 31 then m else m - 2 ^ 32.

(** ** The server protocol *)

Definition MESSAGE_SYNC : Z := 0.
Definition MESSAGE_AWARENESS : Z := 1.
Definition MESSAGE_SUBSCRIBE : Z := 2.
Definition MESSAGE_UNSUBSCRIBE : Z := 3.
Definition MESSAGE_CONNECTED : Z := 4.
Definition MESSAGE_DISCONNECTED : Z := 5.
Definition MESSAGE_INITIAL_SYNC : Z := 6.

Definition encodeMessage (messageType : Z) (payload : list Z) : res (list Z) :=
  let result := u8_new (1 + length payload) in
  let result := u8_put 0 messageType result in
  u8_set payload 1 result.

Definition decodeMessage (data : list Z) : res (Z * list Z) :=
  match data with
  | [] => Throw (PlainError "Empty message")
  | messageType :: payload => Ok (messageType, payload)
  end.

(** ** The worker protocol *)

Definition encodeWithDocId (messageType : Z) (docId : list Z) (payload : list Z) : res (list Z) :=
  let docIdBytes := textEncode docId in
  let docIdLen := length docIdBytes in
  let result := u8_new (1 + 2 + docIdLen + length payload) in
  let result := u8_put 0 messageType result in
  let result := u8_put 1 (Z.land (Z.shiftr (toInt32 (Z.of_nat docIdLen)) 8) 0xff) result in
  let result := u8_put 2 (Z.land (toInt32 (Z.of_nat docIdLen)) 0xff) result in
  result ← u8_set docIdBytes 3 result;
  u8_set payload (3 + docIdLen) result.

(** [data[i]] of an index that is known to be in range *)
Definition byteAt (data : list Z) (i : nat) : Z := nth i data 0.

Definition decodeWithDocId (data : list Z) : res (Z * list Z * list Z) :=
  if bool_decide (length data < 3)%nat then Throw (PlainError "Message too short to contain docId")
  else
    let messageType := byteAt data 0 in
    let docIdLen := Z.to_nat (Z.lor (Z.shiftl (byteAt data 1) 8) (byteAt data 2)) in
    if bool_decide (length data < 3 + docIdLen)%nat then
      Throw (PlainError "Message too short for declared docId length")
    else
      let docId := textDecode (subarray 3 (3 + docIdLen) data) in
      let payload := drop (3 + docIdLen) data in
      Ok (messageType, docId, payload).

Definition stripDocId (data : list Z) : res (list Z) :=
  '(messageType, _, payload) ← decodeWithDocId data;
  encodeMessage messageType payload.

Definition addDocId (docId : list Z) (data : list Z) : res (list Z) :=
  '(messageType, payload) ← decodeMessage data;
  encodeWithDocId messageType docId payload.

(** Strings as payloads *)
Definition encodeString (str : list Z) : list Z := textEncode str.

Definition decodeString (data : list Z) : list Z := textDecode data.

(** ** What is written *)

Lemma u8_set_exact (hd src : list Z) (k : nat) :
  u8_set src (length hd) (hd ++ replicate (length src + k) 0) = Ok (hd ++ src ++ replicate k 0).
Proof.
  unfold u8_set. rewrite bool_decide_false by (rewrite length_app, length_replicate; lia).
  by rewrite take_app_length, drop_app_add, drop_replicate, Nat.add_sub_swap, Nat.sub_diag by lia.
Qed.

Lemma encodeMessage_eq messageType payload :
  encodeMessage messageType payload = Ok ((messageType mod 256) :: payload).
Proof.
  unfold encodeMessage. pose proof (u8_set_exact [messageType mod 256] payload 0) as H.
  rewrite Nat.add_0_r, app_nil_r in H. exact H.
Qed.

(** The length of the id, as two bytes *)
Definition lengthBytes (n : Z) : list Z := [n / 256 mod 256; n mod 256].

Lemma land_ff z : Z.land z 0xff = z mod 256.
Proof. exact (Z.land_ones z 8 ltac:(lia)). Qed.

Lemma toInt32_low z : toInt32 z mod 65536 = z mod 65536.
Proof. unfold toInt32. destruct (z mod 2 ^ 32 <? 2 ^ 31); div_lia. Qed.

Lemma high_byte z : Z.land (Z.shiftr (toInt32 z) 8) 0xff mod 256 = z / 256 mod 256.
Proof.
  rewrite land_ff, Z.shiftr_div_pow2, Z.mod_mod by lia. pose proof (toInt32_low z). change (2 ^ 8) with 256. div_lia.
Qed.

Lemma low_byte z : Z.land (toInt32 z) 0xff mod 256 = z mod 256.
Proof. rewrite land_ff, Z.mod_mod by lia. pose proof (toInt32_low z). div_lia. Qed.

Lemma encodeWithDocId_eq messageType docId payload :
  let bytes := textEncode docId in
  encodeWithDocId messageType docId payload =
    Ok ((messageType mod 256) :: lengthBytes (Z.of_nat (length bytes)) ++ bytes ++ payload).
Proof.
  cbv zeta. unfold encodeWithDocId. set (bytes := textEncode docId).
  unfold u8_put at 1 2. rewrite high_byte, low_byte.
  set (hd := (messageType mod 256) :: lengthBytes (Z.of_nat (length bytes))).
  pose proof (u8_set_exact hd bytes (length payload)) as H1.
  pose proof (u8_set_exact (hd ++ bytes) payload 0) as H2.
  rewrite Nat.add_0_r, app_nil_r, length_app, <- !(assoc_L (++)) in H2.
  unfold u8_put at 1. simpl u8_new. simpl insert.
  change (u8_set bytes 3 (hd ++ replicate (length bytes + length payload) 0) ≫=
    (λ result, u8_set payload (3 + length bytes) result) = Ok (hd ++ bytes ++ payload)).
  change (length hd) with 3%nat in H1, H2. rewrite H1. exact H2.
Qed.

(** ** What is read *)

Lemma read_length b c : isByte b → isByte c → Z.lor (Z.shiftl b 8) c = b * 256 + c.
Proof.
  unfold isByte. intros Hb Hc. pose proof (Z.add_lor_land (Z.shiftl b 8) c) as Hadd.
  enough (Z.land (Z.shiftl b 8) c = 0) as Hzero.
  { rewrite Hzero, Z.shiftl_mul_pow2 in Hadd by lia. change (2 ^ 8) with 256 in *.
    rewrite Z.shiftl_mul_pow2 by lia. change (2 ^ 8) with 256. lia. }
  apply Z.bits_inj'. intros k Hk. rewrite Z.land_spec, Z.bits_0, Z.shiftl_spec by done.
  destruct (Z.ltb_spec k 8); [by rewrite Z.testbit_neg_r by lia|].
  replace c with (c mod 2 ^ 8) by (apply Z.mod_small; lia). by rewrite Z.mod_pow2_bits_high, andb_false_r by lia.
Qed.

Lemma decodeWithDocId_eq messageType b c rest :
  isByte b → isByte c →
  decodeWithDocId (messageType :: b :: c :: rest) =
    let n := Z.to_nat (b * 256 + c) in
    if bool_decide (length rest < n)%nat then Throw (PlainError "Message too short for declared docId length")
    else Ok (messageType, textDecode (take n rest), drop n rest).
Proof.
  intros Hb Hc. unfold decodeWithDocId, byteAt, subarray. simpl nth.
  rewrite bool_decide_false by (simpl; lia). rewrite read_length by done. cbv zeta.
  set (n := Z.to_nat (b * 256 + c)). rewrite (bool_decide_ext _ (length rest < n)%nat) by (simpl; lia).
  destruct (bool_decide (length rest < n)%nat); [done|]. by replace (3 + n - 3)%nat with n by lia.
Qed.

(** What arrives when a message with a document id is decoded: the id has been cut to its length
    modulo 65536, and the rest of it is in front of the payload. *)
Lemma decode_encoded messageType docId payload :
  let bytes := textEncode docId in
  let n := Z.to_nat (Z.of_nat (length bytes) mod 65536) in
  (encodeWithDocId messageType docId payload ≫= decodeWithDocId) =
    Ok (messageType mod 256, textDecode (take n bytes), drop n bytes ++ payload).
Proof.
  cbv zeta. rewrite encodeWithDocId_eq. set (bytes := textEncode docId). simpl mbind.
  unfold lengthBytes. rewrite decodeWithDocId_eq by (split; div_lia). cbv zeta.
  replace (Z.of_nat (length bytes) / 256 mod 256 * 256 + Z.of_nat (length bytes) mod 256)
    with (Z.of_nat (length bytes) mod 65536) by div_lia.
  set (n := Z.to_nat (Z.of_nat (length bytes) mod 65536)).
  assert (n <= length bytes)%nat as Hn by (subst n; div_lia).
  rewrite bool_decide_false by (rewrite length_app; lia).
  by rewrite take_app_le, drop_app_le by done.
Qed.

(** C39: a message whose document id has less than 65536 bytes, no lone surrogates and no byte order mark at its
    start is read back as it was written; so is a message without an id.  Taking the id out of a message and
    putting it in are inverse to each other: an id that was added can be taken out, and one that was
    taken out of a message that was written with it can be added again. *)
Theorem protocol_roundtrip messageType docId payload :
  isByte messageType → wellFormed docId = true → head docId ≠ Some BOM → Z.of_nat (length (textEncode docId)) < 65536 →
  (encodeWithDocId messageType docId payload ≫= decodeWithDocId) = Ok (messageType, docId, payload) ∧
  (encodeMessage messageType payload ≫= decodeMessage) = Ok (messageType, payload) ∧
  (addDocId docId (messageType :: payload) ≫= stripDocId) = Ok (messageType :: payload) ∧
  (encodeWithDocId messageType docId payload ≫= stripDocId) = encodeMessage messageType payload ∧
  ((encodeWithDocId messageType docId payload ≫= stripDocId) ≫= addDocId docId) =
    encodeWithDocId messageType docId payload.
Proof.
  intros Hm Hw Hb Hl. assert (messageType mod 256 = messageType) as Hmod by (unfold isByte in Hm; div_lia).
  pose proof (decode_encoded messageType docId payload) as Hde. cbv zeta in Hde.
  rewrite Hmod, Z.mod_small, Nat2Z.id, firstn_all, drop_all, textDecode_encode in Hde by (done || lia).
  assert ((encodeWithDocId messageType docId payload ≫= stripDocId) = encodeMessage messageType payload) as Hstrip.
  { unfold stripDocId. destruct (encodeWithDocId messageType docId payload) as [d| |]; try done. simpl in *.
    by rewrite Hde. }
  split_and!; [done|by rewrite encodeMessage_eq, Hmod| |done|].
  - unfold addDocId. simpl. by rewrite Hstrip, encodeMessage_eq, Hmod.
  - by rewrite Hstrip, encodeMessage_eq, Hmod.
Qed.

(** The letters "doc" *)
Lemma protocol_roundtrip_witness :
  encodeWithDocId MESSAGE_AWARENESS [100; 111; 99] [7; 8] = Ok [1; 0; 3; 100; 111; 99; 7; 8] ∧
  (encodeWithDocId MESSAGE_AWARENESS [100; 111; 99] [7; 8] ≫= decodeWithDocId) = Ok (1, [100; 111; 99], [7; 8]).
Proof.
  split; [reflexivity|]. apply (protocol_roundtrip 1 [100; 111; 99] [7; 8]);
    [split; lia|reflexivity|discriminate|reflexivity].
Defined.

(** decoding a message throws exactly if it is shorter than its header or than the id it declares,
    and else divides it: type, length, the bytes of the id and the payload are the whole message. *)
Theorem decodeWithDocId_accepts data :
  Forall isByte data →
  match decodeWithDocId data with
  | Ok (messageType, docId, payload) =>
      ∃ bytes, docId = textDecode bytes ∧ Z.of_nat (length bytes) < 65536 ∧
        data = messageType :: lengthBytes (Z.of_nat (length bytes)) ++ bytes ++ payload
  | Throw _ =>
      (length data < 3)%nat ∨
      ∃ messageType n rest, data = messageType :: lengthBytes n ++ rest ∧ 0 <= n < 65536 ∧ Z.of_nat (length rest) < n
  | OutOfFuel => False
  end.
Proof.
  intros Hall. destruct data as [|a [|b [|c rest]]]; [simpl; left; simpl; lia..|].
  assert (isByte b ∧ isByte c) as [Hb Hc] by (by inversion_clear Hall as [|?? _ H]; inversion_clear H as [|??? H']; inversion_clear H').
  rewrite decodeWithDocId_eq by done. cbv zeta. unfold isByte in *.
  assert (lengthBytes (b * 256 + c) = [b; c]) as Hbytes by (unfold lengthBytes; repeat f_equal; div_lia).
  destruct (bool_decide_reflect (length rest < Z.to_nat (b * 256 + c))%nat) as [Hlt|Hge].
  - right. exists a, (b * 256 + c), rest. split_and!; [by rewrite Hbytes|lia..].
  - set (n := Z.to_nat (b * 256 + c)) in *. exists (take n rest).
    assert (length (take n rest) = n) as Hlen by (rewrite length_take; lia).
    split_and!; [done|rewrite Hlen; lia|]. rewrite Hlen.
    replace (Z.of_nat n) with (b * 256 + c) by lia. by rewrite Hbytes, take_drop.
Qed.

Lemma decodeWithDocId_accepts_witness : ∃ bytes, [65] = textDecode bytes ∧ Z.of_nat (length bytes) < 65536 ∧
  [0; 0; 1; 65; 9] = 0 :: lengthBytes (Z.of_nat (length bytes)) ++ bytes ++ [9].
Proof. apply (decodeWithDocId_accepts [0; 0; 1; 65; 9]). repeat constructor; lia. Defined.

(** An id of 65536 bytes or more is cut, without an error, and its end becomes part of the payload. *)
Lemma long_docId_corrupts messageType docId payload :
  65536 <= Z.of_nat (length (textEncode docId)) →
  ∃ id p, (encodeWithDocId messageType docId payload ≫= decodeWithDocId) = Ok (messageType mod 256, id, p) ∧
    (length payload < length p)%nat.
Proof.
  intros Hl. eexists _, _. split; [apply decode_encoded|]. rewrite length_app, length_drop. div_lia.
Qed.
