(* ===== verification/NodeProperties.v ===== *)
(** * The properties of a node and when they are displayed

    Model of [packages/workflow/src/node-helpers.ts]: the description of parameters
    ([INodeProperties]), the rules that decide which of them are displayed ([checkConditions],
    [displayParameter], [displayParameterPath]), the features of a node version and the context
    data of an execution.

    [get] and [isEqual] of lodash, regular expressions, and the conversions of the language between
    strings and numbers are parameters, collected in a record.  [undefined] is [None]. *)

From stdpp Require Import strings list.
From S2P Require Import Prelude JsCollections NodeTypes FromAi.

(** ** What the code uses of the platform *)

Record libraries := {
  (** [get(object, path)] and [isEqual(a, b)] of lodash *)
  lodash_get : json → string → option json;
  lodash_isEqual : option json → option json → bool;
  (** [new RegExp(pattern).test(s)]; [None] if the pattern is malformed *)
  regExp_test : string → string → option bool;
  (** [Number(s)] of a string, [String(v)] of a value *)
  number_of : string → spec_float;
  string_of : json → string;
}.

(** ** Properties *)

(** [show], [hide] and [hideOnCloud]; the rules are conditions by the name of the parameter they
    look at. *)
Abbreviation IDisplayOptions := (jsobj (jsobj (list json))) (only parsing).

(** The validation of a mode of a resource locator: a regular expression with its message, or a
    function *)
Inductive INodePropertyModeValidation := RegexValidation (regex errorMessage : string) | FunctionValidation.

Record INodePropertyMode := {
  mode_name : string;
  mode_validation : list INodePropertyModeValidation;
}.

(** What the checks for issues read: the label, whether a value is required, the modes of a resource
    locator, of the options of the type the mode of a resource mapper (with its word for a field) and
    the numbers of fields of a collection, the type for validation, and the value of an option *)
Record PropertyChecks := {
  ck_displayName : string;
  ck_required : bool;
  ck_modes : list INodePropertyMode;
  ck_resourceMapper : option (string * option string);
  ck_minRequiredFields : option nat;
  ck_maxAllowedFields : option nat;
  ck_validateType : option string;
  ck_value : option json;
}.

Definition noChecks : PropertyChecks :=
  {| ck_displayName := EmptyString; ck_required := false; ck_modes := []; ck_resourceMapper := None;
     ck_minRequiredFields := None; ck_maxAllowedFields := None; ck_validateType := None; ck_value := None |}.

(** A property, or an option of one: an [INodePropertyCollection] has a name and values.  Every
    property has a default. *)
Inductive INodeProperties := Property {
  prop_name : string;
  prop_type : string;
  prop_default : json;
  prop_displayOptions : option IDisplayOptions;
  prop_multipleValues : option bool;
  prop_noDataExpression : bool;
  prop_options : option (list INodeProperties);
  prop_values : option (list INodeProperties);
  prop_checks : PropertyChecks;
}.

(** The part of the type description that is read: the name and the features *)
Record INodeTypeDescription := {
  desc_name : string;
  desc_features : option (jsobj (list json));
}.

(** ** Values *)

(** [typeof v === 'object'] *)
Definition typeofObject (v : option json) : bool :=
  match v with Some (JNull | JArr _ | JObj _) => true | _ => false end.

(** [a === b]; two objects that were built apart are different. *)
Definition strictEquals (a b : option json) : bool :=
  match a, b with
  | None, None => true
  | Some JNull, Some JNull => true
  | Some (JBool a), Some (JBool b) => bool_decide (a = b)
  | Some (JNum a), Some (JNum b) => SFeqb a b
  | Some (JStr a), Some (JStr b) => bool_decide (a = b)
  | _, _ => false
  end.

(** The comparison of [includes]: also [NaN] equals itself. *)
Definition sameValueZero (a b : option json) : bool :=
  match a, b with
  | Some (JNum S754_nan), Some (JNum S754_nan) => true
  | _, _ => strictEquals a b
  end.

Definition charAt0 (c : Ascii.ascii) (s : string) : bool :=
  match s with String c' _ => bool_decide (c' = c) | EmptyString => false end.

(** [s.slice(1)] *)
Definition slice1 (s : string) : string := match s with String _ s => s | EmptyString => EmptyString end.

Definition startsWith (target s : string) : bool := String.prefix target s.

Fixpoint includes (target s : string) : bool :=
  String.prefix target s || match s with String _ s => includes target s | EmptyString => false end.

Fixpoint endsWith (target s : string) : bool :=
  bool_decide (s = target) || match s with String _ s => endsWith target s | EmptyString => false end.

(** [conditions.some(p)] and [values.every(p)], which stop at the first answer *)
Fixpoint someM {A} (p : A → res bool) (l : list A) : res bool :=
  match l with
  | [] => Ok false
  | x :: l => b ← p x; if (b : bool) then Ok true else someM p l
  end.

Fixpoint everyM {A} (p : A → res bool) (l : list A) : res bool :=
  match l with
  | [] => Ok true
  | x :: l => b ← p x; if (b : bool) then everyM p l else Ok false
  end.

(** A boolean; absent is [undefined]. *)
Definition truthyOpt (v : option json) : bool := from_option truthy false v.

Section display.
Context (L : libraries).

(** ** Comparisons *)

(** The operand of a comparison: a string, or a number *)
Definition toPrimitive (v : option json) : string + spec_float :=
  match v with
  | None => inr S754_nan
  | Some JNull => inr (S754_zero false)
  | Some (JBool b) => inr (if b then binary_normalize 53 1024 1 0 false else S754_zero false)
  | Some (JNum x) => inr x
  | Some (JStr s) => inl s
  | Some v => inl (string_of L v)
  end.

Definition toNumber (p : string + spec_float) : spec_float :=
  match p with inl s => number_of L s | inr x => x end.

(** [a < b]; [None] if one of them is not a number *)
Definition lessThan (a b : option json) : option bool :=
  match toPrimitive a, toPrimitive b with
  | inl s, inl s' => Some (bool_decide (String.compare s s' = Lt))
  | p, p' =>
      match SFcompare (toNumber p) (toNumber p') with
      | Some Lt => Some true
      | Some _ => Some false
      | None => None
      end
  end.

Definition greater (a b : option json) : bool := bool_decide (lessThan b a = Some true).
Definition less (a b : option json) : bool := bool_decide (lessThan a b = Some true).
Definition greaterEq (a b : option json) : bool := bool_decide (lessThan a b = Some false).
Definition lessEq (a b : option json) : bool := bool_decide (lessThan b a = Some false).

Definition toStr (v : json) : string := match v with JStr s => s | _ => string_of L v end.

(** [const { from, to } = targetValue]: the properties of a value *)
Definition propOf (k : string) (v : json) : option json :=
  match v with JObj o => obj_get k o | _ => None end.

(** ** [checkConditions] *)

Definition isString (v : option json) : bool := match v with Some (JStr _) => true | _ => false end.

(** A test on strings; other values do not pass. *)
Definition onString (p : string → res bool) (v : option json) : res bool :=
  match v with Some (JStr s) => p s | _ => Ok false end.

Definition testPattern (pattern s : string) : res bool :=
  match regExp_test L pattern s with Some b => Ok b | None => Throw (PlainError "Invalid regular expression") end.

Definition checkOperator (key : string) (targetValue : json) (propertyValue : option json) : res bool :=
  if bool_decide (key = "eq") then Ok (lodash_isEqual L propertyValue (Some targetValue))
  else if bool_decide (key = "not") then Ok (negb (lodash_isEqual L propertyValue (Some targetValue)))
  else if bool_decide (key = "gte") then Ok (greaterEq propertyValue (Some targetValue))
  else if bool_decide (key = "lte") then Ok (lessEq propertyValue (Some targetValue))
  else if bool_decide (key = "gt") then Ok (greater propertyValue (Some targetValue))
  else if bool_decide (key = "lt") then Ok (less propertyValue (Some targetValue))
  else if bool_decide (key = "between") then
    match targetValue with
    | JNull => Throw TypeError
    | _ => Ok (greaterEq propertyValue (propOf "from" targetValue) && lessEq propertyValue (propOf "to" targetValue))
    end
  else if bool_decide (key = "includes") then onString (λ s, Ok (includes (toStr targetValue) s)) propertyValue
  else if bool_decide (key = "startsWith") then onString (λ s, Ok (startsWith (toStr targetValue) s)) propertyValue
  else if bool_decide (key = "endsWith") then onString (λ s, Ok (endsWith (toStr targetValue) s)) propertyValue
  else if bool_decide (key = "regex") then onString (testPattern (toStr targetValue)) propertyValue
  else if bool_decide (key = "exists") then
    Ok (bool_decide (propertyValue ≠ Some JNull ∧ propertyValue ≠ None ∧ propertyValue ≠ Some (JStr "")))
  else Ok false.

(** [Object.entries(v)[0]] *)
Definition firstEntry (v : json) : option (string * json) :=
  match v with
  | JObj (entry :: _) => Some entry
  | JArr (x :: _) => Some ("0", x)
  | JStr (String c _) => Some ("0", JStr (String c EmptyString))
  | _ => None
  end.

Definition checkCondition (actualValues : list (option json)) (condition : json) : res bool :=
  match condition with
  | JObj [(k, cnd)] =>
      if bool_decide (k = "_cnd") && truthy cnd then
        '(key, targetValue) ← deref (firstEntry cnd);
        match actualValues with
        | [] => Ok (bool_decide (key = "not"))
        | _ => everyM (checkOperator key targetValue) actualValues
        end
      else Ok (existsb (sameValueZero (Some condition)) actualValues)
  | _ => Ok (existsb (sameValueZero (Some condition)) actualValues)
  end.

Definition checkConditions (conditions : list json) (actualValues : list (option json)) : res bool :=
  someM (checkCondition actualValues) conditions.

(** ** Features *)

Definition evaluateFeature (featureDef : list json) (nodeVersion : spec_float) : res bool :=
  checkConditions featureDef [Some (JNum nodeVersion)].

Definition getNodeFeatures (featuresDef : option (jsobj (list json))) (nodeVersion : spec_float)
    : res (jsobj bool) :=
  match featuresDef with
  | None => Ok []
  | Some featuresDef =>
      foldM (λ features entry,
        enabled ← evaluateFeature entry.2 nodeVersion; Ok (obj_set entry.1 enabled features)) [] featuresDef
  end.

(** ** [getPropertyValues] *)

Definition zero : json := JNum (S754_zero false).

(** A resource locator stands for its value. *)
Definition locatorValue (value : option json) : option json :=
  match value with
  | Some (JObj o) => if truthyOpt (obj_get "__rl" o) then obj_get "value" o else value
  | _ => value
  end.

Definition toValues (value : option json) : list (option json) :=
  match value with Some (JArr l) => Some <$> l | _ => [value] end.

Definition getPropertyValues (nodeValues : json) (propertyName : string) (node : option spec_float)
    (nodeTypeDescription : option INodeTypeDescription) (nodeValuesRoot : json) : res (list (option json)) :=
  if charAt0 "/" propertyName then
    Ok (toValues (locatorValue (lodash_get L nodeValuesRoot (slice1 propertyName))))
  else if bool_decide (propertyName = "@version") then
    let value := from_option JNum zero node in
    Ok [Some (if truthy value then value else zero)]
  else if bool_decide (propertyName = "@tool") then
    Ok [Some (JBool (from_option (λ d, endsWith "Tool" (desc_name d)) false nodeTypeDescription))]
  else if bool_decide (propertyName = "@feature") then
    match nodeTypeDescription ≫= desc_features, node with
    | Some features, Some version =>
        if truthy (JNum version) then
          features ← getNodeFeatures (Some features) version;
          Ok ((λ entry : string * bool, Some (JStr entry.1)) <$>
              filter (λ entry : string * bool, entry.2 = true) (features : jsobj bool))
        else Ok []
    | _, _ => Ok []
    end
  else Ok (toValues (locatorValue (lodash_get L nodeValues propertyName))).

(** ** [displayParameter]

    The functions get the options of the parameter under the display key. *)

Definition isExpressionValue (v : option json) : bool :=
  match v with Some v => isExpression v | None => false end.

(** The loop over the show rules: [Some] is what the function returns at once. *)
Fixpoint showRules (values : string → res (list (option json))) (show : jsobj (list json)) : res (option bool) :=
  match show with
  | [] => Ok None
  | (propertyName, conditions) :: show =>
      vs ← values propertyName;
      if existsb isExpressionValue vs then Ok (Some true)
      else
        shown ← checkConditions conditions vs;
        if (shown : bool) then showRules values show else Ok (Some false)
  end.

Fixpoint hideRules (values : string → res (list (option json))) (hide : jsobj (list json)) : res bool :=
  match hide with
  | [] => Ok true
  | (propertyName, conditions) :: hide =>
      vs ← values propertyName;
      hidden ← (if bool_decide (length vs = 0) then Ok false else checkConditions conditions vs);
      if (hidden : bool) then Ok false else hideRules values hide
  end.

Definition displayParameter (nodeValues : json) (displayOptions : option IDisplayOptions) (node : option spec_float)
    (nodeTypeDescription : option INodeTypeDescription) (nodeValuesRoot : option json) : res bool :=
  match displayOptions with
  | None => Ok true
  | Some rules =>
      let root := default nodeValues nodeValuesRoot in
      let values := λ propertyName, getPropertyValues nodeValues propertyName node nodeTypeDescription root in
      shown ← showRules values (default [] (obj_get "show" rules));
      match shown with
      | Some b => Ok b
      | None => hideRules values (default [] (obj_get "hide" rules))
      end
  end.

(** [path.split('.').indexOf('parameters') === 0] *)
Definition startsAtParameters (path : string) : bool :=
  bool_decide (path = "parameters") || String.prefix "parameters." path.

Definition displayParameterPath (nodeValues : json) (displayOptions : option IDisplayOptions) (path : string)
    (node : option spec_float) (nodeTypeDescription : option INodeTypeDescription) : res bool :=
  let resolvedNodeValues := if bool_decide (path ≠ EmptyString) then lodash_get L nodeValues path else Some nodeValues in
  let nodeValuesRoot := if startsAtParameters path then lodash_get L nodeValues "parameters" else Some nodeValues in
  displayParameter (default JNull resolvedNodeValues) displayOptions node nodeTypeDescription
    (if truthyOpt nodeValuesRoot then nodeValuesRoot else None).
End display.

(** ** [getContext] *)

(** [contextData] is absent if the execution data is not initialized; a key without an entry gets an
    empty one. *)
Definition getContext (contextData : option (jsobj json)) (type : string) (node : option INode)
    : res (json * jsobj json) :=
  match contextData with
  | None => Throw (ApplicationError "`executionData` is not initialized")
  | Some contextData =>
      key ← (if bool_decide (type = "flow") then Ok "flow"
             else if bool_decide (type = "node") then
               match node with
               | None => Throw (ApplicationError "The request data of context type 'node' the node parameter has to be set!")
               | Some node => Ok ("node:" +:+ node_name node)
               end
             else Throw (ApplicationError "Unknown context type. Only `flow` and `node` are supported."));
      match obj_get key contextData with
      | Some context => Ok (context, contextData)
      | None => Ok (JObj [], obj_set key (JObj []) contextData)
      end
  end.
