(* ===== verification/ParameterOrder.v ===== *)
(** * The order in which parameters are resolved

    Model of [getParameterDependencies] and [getParameterResolveOrder] of
    [packages/workflow/src/node-helpers.ts]: the parameters that the display rules of a parameter
    look at, and an order in which they come before it.

    The loop of [getParameterResolveOrder] gets fuel; [resolveFuel] is always enough. *)

From S2P Require Import Prelude JsCollections NodeTypes NodeProperties.

Abbreviation IParameterDependencies := (jsobj (list string)) (only parsing).

(** ** [getParameterDependencies] *)

(** The body of the inner loop, for one name in a rule *)
Definition addDependency (dependencies : list string) (parameterName : string) : list string :=
  if bool_decide (parameterName ∈ dependencies) then dependencies
  else if charAt0 "@" parameterName then dependencies
  else dependencies ++ [parameterName].

(** The names in the rules of a property, in order *)
Definition ruleNames (p : INodeProperties) : list string :=
  match prop_displayOptions p with
  | None => []
  | Some rules => concat ((λ rule : string * jsobj (list json), rule.2.*1) <$> rules)
  end.

Definition propertyDependencies (dependencies : IParameterDependencies) (p : INodeProperties)
    : IParameterDependencies :=
  let dependencies :=
    if obj_has (prop_name p) dependencies then dependencies else obj_set (prop_name p) [] dependencies in
  obj_set (prop_name p) (foldl addDependency (default [] (obj_get (prop_name p) dependencies)) (ruleNames p)) dependencies.

Definition getParameterDependencies (nodePropertiesArray : list INodeProperties) : IParameterDependencies :=
  foldl propertyDependencies [] nodePropertiesArray.

(** ** [getParameterResolveOrder] *)

(** The inner loop: the index is queued again for every dependency that is missing. *)
Definition requeue (resolvedParameters : list string) (index : nat) (indexToResolve : list nat)
    (dependencies : list string) : list nat :=
  foldl (λ indexToResolve dependency,
    if bool_decide (dependency ∈ resolvedParameters) then indexToResolve
    else if charAt0 "/" dependency then indexToResolve
    else indexToResolve ++ [index]) indexToResolve dependencies.

Record resolving := {
  executionOrder : list nat;
  indexToResolve : list nat;
  resolvedParameters : list string;
  lastIndexLength : nat;
  lastIndexReduction : Z;
  iterations : Z;
}.

Definition maxIterations : jserror :=
  ApplicationError "Could not resolve parameter dependencies. Max iterations reached! Hint: If `displayOptions` are specified in any child parameter of a parent `collection` or `fixedCollection`, remove the `displayOptions` from the child parameter.".

Section resolve.
Context (nodePropertiesArray : list INodeProperties) (parameterDependencies : IParameterDependencies).

(** One iteration, with the queue behind the index that was taken from it *)
Definition resolveStep (index : nat) (queue : list nat) (s : resolving) : res resolving :=
  let i := (iterations s + 1)%Z in
  property ← deref (nodePropertiesArray !! index);
  dependencies ← deref (obj_get (prop_name property) parameterDependencies);
  let order := executionOrder s ++ [index] in
  let resolved := resolvedParameters s ++ [prop_name property] in
  if bool_decide (dependencies = []) then
    Ok {| executionOrder := order; indexToResolve := queue; resolvedParameters := resolved;
          lastIndexLength := lastIndexLength s; lastIndexReduction := lastIndexReduction s; iterations := i |}
  else
    let queue := requeue (resolvedParameters s) index queue dependencies in
    let reduction := if bool_decide (length queue < lastIndexLength s) then i else lastIndexReduction s in
    if bool_decide (reduction + Z.of_nat (length nodePropertiesArray) < i)%Z then Throw maxIterations
    else Ok {| executionOrder := order; indexToResolve := queue; resolvedParameters := resolved;
               lastIndexLength := length queue; lastIndexReduction := reduction; iterations := i |}.

Fixpoint resolveLoop (fuel : nat) (s : resolving) : res (list nat) :=
  match indexToResolve s with
  | [] => Ok (executionOrder s)
  | index :: queue =>
      match fuel with
      | O => OutOfFuel
      | S fuel => s ← resolveStep index queue s; resolveLoop fuel s
      end
  end.

Definition resolveStart : resolving :=
  {| executionOrder := []; indexToResolve := seq 0 (length nodePropertiesArray); resolvedParameters := [];
     lastIndexLength := length nodePropertiesArray; lastIndexReduction := -1; iterations := 0 |}.

Definition dependenciesOf (p : INodeProperties) : list string :=
  default [] (obj_get (prop_name p) parameterDependencies).

Definition resolveFuel : nat :=
  let n := length nodePropertiesArray in
  let d := sum_list (length ∘ dependenciesOf <$> nodePropertiesArray) in
  n + ((d + 1) * (n + 1) + n + 1).

Definition getParameterResolveOrder : res (list nat) := resolveLoop resolveFuel resolveStart.
End resolve.

(** ** The dependencies *)

Lemma elem_of_addDependency deps name d :
  d ∈ addDependency deps name ↔ d ∈ deps ∨ (d = name ∧ charAt0 "@" name = false).
Proof.
  unfold addDependency. case_bools; [naive_solver|].
  destruct (charAt0 "@" name) eqn:Hc; [naive_solver|]. rewrite elem_of_snoc. naive_solver.
Qed.

Lemma elem_of_foldl_addDependency names deps d :
  d ∈ foldl addDependency deps names ↔ d ∈ deps ∨ (d ∈ names ∧ charAt0 "@" d = false).
Proof.
  revert deps. induction names as [|name names IH]; intros deps; simpl; [set_solver|].
  rewrite IH, elem_of_addDependency, elem_of_cons. naive_solver.
Qed.

(** Parameter [name] has a rule that looks at [d]. *)
Definition looksAt (props : list INodeProperties) (name d : string) : Prop :=
  ∃ p, p ∈ props ∧ prop_name p = name ∧ d ∈ ruleNames p ∧ charAt0 "@" d = false.

Lemma looksAt_snoc props p name d :
  looksAt (props ++ [p]) name d ↔
  looksAt props name d ∨ (prop_name p = name ∧ d ∈ ruleNames p ∧ charAt0 "@" d = false).
Proof.
  unfold looksAt. split.
  - intros (q & Hq & Hrest). apply elem_of_snoc in Hq as [Hq| ->]; [left; by exists q|by right].
  - intros [(q & Hq & Hrest)|Hrest]; [exists q|exists p]; (split; [apply elem_of_snoc; auto|done]).
Qed.

Lemma propertyDependencies_get deps p k :
  obj_get k (propertyDependencies deps p) =
    if bool_decide (k = prop_name p)
    then Some (foldl addDependency (default [] (obj_get (prop_name p) deps)) (ruleNames p))
    else obj_get k deps.
Proof.
  unfold propertyDependencies. destruct (obj_has (prop_name p) deps) eqn:Hh; rewrite obj_get_set; case_bools; try done.
  - rewrite obj_get_set_eq. simpl. unfold obj_has in Hh.
    destruct (obj_get (prop_name p) deps) eqn:E; [|done].
    assert (map_has (prop_name p) deps = true) by (apply map_has_get; eauto). congruence.
  - by rewrite obj_get_set_ne.
Qed.

(** Every property has an entry, which holds what its rules look at. *)
Lemma getParameterDependencies_get props k :
  (k ∈ prop_name <$> props → is_Some (obj_get k (getParameterDependencies props))) ∧
  ∀ d, d ∈ default [] (obj_get k (getParameterDependencies props)) ↔ looksAt props k d.
Proof.
  unfold getParameterDependencies. induction props as [|p props [IH1 IH2]] using rev_ind.
  { split; [set_solver|]. intros d. simpl. split; [set_solver|]. intros (p & Hp & _). set_solver. }
  rewrite foldl_app. simpl. rewrite propertyDependencies_get. split.
  - rewrite fmap_app, elem_of_app. simpl. case_bools; [by eauto|]. intros [?|?%list_elem_of_singleton]; [auto|done].
  - intros d. rewrite looksAt_snoc, <- IH2. case_bools; subst; simpl; [rewrite elem_of_foldl_addDependency|]; naive_solver.
Qed.

(** ** The loop *)

Section loop.
Context (props : list INodeProperties) (deps : IParameterDependencies).
Context (Hdeps : ∀ p, p ∈ props → is_Some (obj_get (prop_name p) deps)).
Implicit Types s : resolving.
#[local] Abbreviation n := (length props).

Definition nameAt (i : nat) : string := from_option prop_name EmptyString (props !! i).
Definition depsAt (i : nat) : list string := from_option (dependenciesOf deps) [] (props !! i).

(** A dependency that is not resolved, and that is not looked up at the root *)
Definition unresolved (resolved : list string) (d : string) : Prop := (d ∉ resolved) ∧ charAt0 "/" d = false.

#[global] Instance unresolved_dec resolved d : Decision (unresolved resolved d).
Proof. unfold unresolved. apply _. Defined.

Definition missing (resolved : list string) (i : nat) : nat := length (filter (unresolved resolved) (depsAt i)).

Lemma requeue_eq resolved index queue ds :
  requeue resolved index queue ds = queue ++ replicate (length (filter (unresolved resolved) ds)) index.
Proof.
  unfold requeue. revert queue. induction ds as [|d ds IH]; intros queue; simpl; [by rewrite app_nil_r|].
  rewrite IH. rewrite filter_cons. destruct (decide (unresolved resolved d)) as [[H1 H2]|Hn].
  - rewrite bool_decide_false, H2 by done. simpl. by rewrite <- (assoc_L (++)).
  - case_bools; [done|]. destruct (charAt0 "/" d) eqn:Hc; [done|]. destruct Hn. by split.
Qed.

(** The state after an iteration that does not throw *)
Definition afterStep (index : nat) (queue : list nat) s : resolving :=
  let queue := queue ++ replicate (missing (resolvedParameters s) index) index in
  let reduced := bool_decide (depsAt index ≠ [] ∧ length queue < lastIndexLength s) in
  {| executionOrder := executionOrder s ++ [index]; indexToResolve := queue;
     resolvedParameters := resolvedParameters s ++ [nameAt index];
     lastIndexLength := if bool_decide (depsAt index = []) then lastIndexLength s else length queue;
     lastIndexReduction := if reduced then iterations s + 1 else lastIndexReduction s;
     iterations := iterations s + 1 |}.

(** It throws if there was no reduction for too long. *)
Definition stalled (index : nat) (s' : resolving) : bool :=
  bool_decide (depsAt index ≠ [] ∧ (lastIndexReduction s' + Z.of_nat n < iterations s')%Z).

Lemma resolveStep_eq index queue s :
  index < n →
  resolveStep props deps index queue s =
    let s' := afterStep index queue s in if stalled index s' then Throw maxIterations else Ok s'.
Proof.
  intros [p Hp]%lookup_lt_is_Some_2. unfold resolveStep, afterStep, stalled, missing, nameAt, depsAt, dependenciesOf.
  rewrite Hp. simpl. destruct (Hdeps p) as [ds Hds]; [by eapply list_elem_of_lookup_2|]. rewrite Hds. simpl.
  destruct (decide (ds = [])) as [->|Hne]; [by rewrite app_nil_r|].
  rewrite requeue_eq, (bool_decide_false (ds = [])) by done. set (queue' := queue ++ _). cbv zeta.
  rewrite (bool_decide_ext (ds ≠ [] ∧ length queue' < _) (length queue' < lastIndexLength s)) by naive_solver.
  set (reduction := if bool_decide (length queue' < _) then _ else _).
  by rewrite (bool_decide_ext (ds ≠ [] ∧ _) (reduction + Z.of_nat n < iterations s + 1)%Z) by (split; [by intros [_ ?]|by split]).
Qed.

(** ** What a result means *)

Record orderInv s : Prop := {
  oi_resolved : resolvedParameters s = nameAt <$> executionOrder s;
  oi_queue : ∀ i, i ∈ executionOrder s ∨ i ∈ indexToResolve s ↔ i < n;
  oi_last : ∀ pre i post, executionOrder s = pre ++ i :: post →
    i ∈ post ∨ i ∈ indexToResolve s ∨ ∀ d, d ∈ depsAt i → charAt0 "/" d = false → d ∈ nameAt <$> pre;
}.

Lemma orderInv_start : orderInv (resolveStart props).
Proof.
  split; simpl; [done|..].
  - intros i. rewrite elem_of_seq. set_solver by lia.
  - intros [|??]; done.
Qed.

Lemma missing_zero resolved i :
  missing resolved i = 0 → ∀ d, d ∈ depsAt i → charAt0 "/" d = false → d ∈ resolved.
Proof.
  unfold missing. intros H%nil_length_inv d Hd Hc. destruct (decide (d ∈ resolved)) as [|Hn]; [done|exfalso].
  apply (filter_nil_not_elem_of _ _ d H); [by split|done].
Qed.

Lemma orderInv_step index queue s :
  orderInv s → indexToResolve s = index :: queue → orderInv (afterStep index queue s).
Proof.
  intros [Hr Hq Hl] Hs. unfold afterStep. split; simpl.
  - by rewrite Hr, fmap_app.
  - intros i. rewrite <- Hq, Hs, elem_of_snoc, elem_of_app, elem_of_cons. split; [|tauto].
    intros [[?|?]|[?|[? _]%elem_of_replicate]]; tauto.
  - intros pre i post Heq. destruct post as [|x post _] using rev_ind.
    + apply app_inj_tail in Heq as [<- <-]. right. destruct (missing (resolvedParameters s) index) eqn:Hm.
      * right. intros d Hd Hc. rewrite <- Hr. by eapply missing_zero.
      * left. apply elem_of_app. right. by left.
    + rewrite app_comm_cons, (assoc_L (++)) in Heq. apply app_inj_tail in Heq as [Heq <-].
      destruct (Hl _ _ _ Heq) as [Hp|[Hp|Hp]]; [left; apply elem_of_app; by left| |by right; right].
      rewrite Hs in Hp. apply elem_of_cons in Hp as [->|Hp]; [left; apply elem_of_app; right; by left|].
      right. left. apply elem_of_app. by left.
Qed.

Lemma resolveLoop_sound fuel s order :
  orderInv s → resolveLoop props deps fuel s = Ok order →
  (∀ i, i ∈ order ↔ i < n) ∧
  ∀ pre i post, order = pre ++ i :: post → i ∉ post →
    ∀ d, d ∈ depsAt i → charAt0 "/" d = false → d ∈ nameAt <$> pre.
Proof.
  revert s. induction fuel as [|fuel IH]; intros s Hs; simpl; destruct (indexToResolve s) as [|index queue] eqn:Hq; try done.
  1, 2: intros [= <-]; destruct Hs as [_ Ha Hl]; rewrite Hq in *; split; [intros i; rewrite <- Ha; set_solver|];
    intros pre i post Heq Hi; destruct (Hl pre i post Heq) as [?|[?%elem_of_nil|?]]; done.
  rewrite resolveStep_eq by (apply (oi_queue s Hs); rewrite Hq; right; by left).
  cbv zeta. destruct (stalled index (afterStep index queue s)); [done|]. apply IH. by apply orderInv_step.
Qed.

(** ** Termination

    In the first [n] iterations every parameter is taken once, and its name is resolved.  What was
    queued again is taken afterwards: it disappears if its dependencies are parameters, and comes back
    otherwise. *)

Definition names : list string := prop_name <$> props.

(** The dependencies are parameters or are looked up at the root, and the last parameter does not
    depend on itself. *)
Definition benign : Prop :=
  (∀ i d, i < n → d ∈ depsAt i → charAt0 "/" d = false → d ∈ names) ∧
  (nameAt (n - 1) ∈ depsAt (n - 1) → charAt0 "/" (nameAt (n - 1)) = true).

Definition outcome (r : res (list nat)) : Prop := returns r ∧ (benign → is_ok r).

Lemma missing_le resolved i : missing resolved i ≤ length (depsAt i).
Proof. apply length_filter. Qed.

Lemma missing_ext resolved resolved' i :
  (∀ d, d ∈ depsAt i → d ∈ resolved ↔ d ∈ resolved') → missing resolved i = missing resolved' i.
Proof.
  intros Heq. unfold missing. f_equal. induction (depsAt i) as [|d ds IH]; [done|].
  rewrite !filter_cons, IH by (intros; apply Heq; by right). assert (d ∈ resolved ↔ d ∈ resolved') by (apply Heq; by left).
  destruct (decide (unresolved resolved d)) as [[H1 H2]|H1], (decide (unresolved resolved' d)) as [[H3 H4]|H3];
    unfold unresolved in *; tauto.
Qed.

Lemma missing_none resolved i :
  (∀ d, d ∈ depsAt i → charAt0 "/" d = false → d ∈ resolved) → missing resolved i = 0.
Proof.
  intros Hall. unfold missing. destruct (filter (unresolved resolved) (depsAt i)) as [|d ds] eqn:E; [done|exfalso].
  assert (d ∈ filter (unresolved resolved) (depsAt i)) as Hd by (rewrite E; by left).
  apply list_elem_of_filter in Hd as [[Hn Hc] Hd]. auto.
Qed.

Lemma elem_of_names d : d ∈ names ↔ ∃ j, j < n ∧ nameAt j = d.
Proof.
  unfold names, nameAt. rewrite list_elem_of_fmap. split.
  - intros (p & -> & [j Hj]%list_elem_of_lookup_1). exists j. split; [by eapply lookup_lt_Some|by rewrite Hj].
  - intros (j & [p Hp]%lookup_lt_is_Some_2 & <-). exists p. rewrite Hp. split; [done|by eapply list_elem_of_lookup_2].
Qed.

(** An index that was queued again *)
Definition requeued (i : nat) : Prop := i < n ∧ depsAt i ≠ [].

Record settled s : Prop := {
  st_names : ∀ d, d ∈ resolvedParameters s ↔ d ∈ names;
  st_queue : Forall requeued (indexToResolve s);
  st_len : length (indexToResolve s) ≤ lastIndexLength s;
  st_red : (lastIndexReduction s ≤ iterations s)%Z;
}.

(** The entries that will disappear, and whether the next iteration may count as a reduction whatever
    it does *)
Definition vanishing (queue : list nat) : nat := length (filter (λ i, missing names i = 0) queue).
Definition slack s : nat := if bool_decide (length (indexToResolve s) < lastIndexLength s) then 1 else 0.

Definition remaining s : nat :=
  (vanishing (indexToResolve s) + slack s) * (n + 1) + Z.to_nat (lastIndexReduction s + Z.of_nat n - iterations s).

Lemma vanishing_app q q' : vanishing (q ++ q') = vanishing q + vanishing q'.
Proof. unfold vanishing. by rewrite filter_app, length_app. Qed.

Lemma vanishing_cons i q : vanishing (i :: q) = (if bool_decide (missing names i = 0) then 1 else 0) + vanishing q.
Proof. unfold vanishing. rewrite filter_cons. case_decide as H; case_bools; done. Qed.

Lemma vanishing_replicate m i : missing names i ≠ 0 → vanishing (replicate m i) = 0.
Proof. intros Hi. induction m as [|m IH]; [done|]. simpl. by rewrite vanishing_cons, bool_decide_false, IH. Qed.

Lemma settled_step index queue s :
  settled s → indexToResolve s = index :: queue → stalled index (afterStep index queue s) = false →
  settled (afterStep index queue s) ∧ remaining (afterStep index queue s) < remaining s.
Proof.
  intros [Hn Hq Hl Hr] Hs Hst. rewrite Hs in *. inversion_clear Hq as [|?? [Hi Hd] Hq'].
  assert (missing (resolvedParameters s) index = missing names index) as Hm by (apply missing_ext; intros; apply Hn).
  unfold stalled in Hst. apply bool_decide_eq_false in Hst. unfold remaining, slack. rewrite Hs, vanishing_cons.
  unfold afterStep in *. simpl in *. rewrite Hm in *.
  rewrite (bool_decide_false (depsAt index = [])) in * by done. split.
  { split; simpl; [..|lia|case_bools; lia].
    - intros d. rewrite elem_of_snoc, Hn. split; [|tauto]. intros [?| ->]; [done|]. apply elem_of_names. eauto.
    - apply Forall_app. split; [done|]. apply Forall_replicate. by split. }
  rewrite (bool_decide_false (length (queue ++ replicate _ _) < length (queue ++ replicate _ _))) by lia.
  rewrite vanishing_app, length_app, length_replicate in *.
  destruct (bool_decide_reflect (missing names index = 0)) as [Hz|Hz].
  - rewrite Hz in *. simpl in *. rewrite bool_decide_true by (split; [done|lia]).
    change (vanishing []) with 0. destruct (bool_decide _); nia.
  - rewrite vanishing_replicate by done. destruct (bool_decide_reflect (S (length queue) < lastIndexLength s)) as [Hsl|Hsl].
    + case_bools; nia.
    + rewrite bool_decide_false in * by lia. assert (iterations s + 1 ≤ lastIndexReduction s + Z.of_nat n)%Z
        by (destruct (Z.le_gt_cases (iterations s + 1) (lastIndexReduction s + Z.of_nat n)); [done|by destruct Hst]).
      nia.
Qed.

Lemma settled_benign index queue s :
  settled s → indexToResolve s = index :: queue → benign → stalled index (afterStep index queue s) = false.
Proof.
  intros [Hn Hq Hl Hr] Hs [Hb _]. rewrite Hs in *. inversion_clear Hq as [|?? [Hi Hd] Hq'].
  assert (missing (resolvedParameters s) index = 0) as Hm by (apply missing_none; intros d Hd' Hc; apply Hn; by eapply Hb).
  unfold stalled. apply bool_decide_eq_false. unfold afterStep. simpl in *. rewrite Hm. simpl. rewrite app_nil_r.
  rewrite bool_decide_true by (split; [done|lia]). lia.
Qed.

Lemma settled_outcome fuel s : settled s → remaining s < fuel → outcome (resolveLoop props deps fuel s).
Proof.
  revert s. induction fuel as [|fuel IH]; intros s Hs Hf; [lia|]. simpl.
  destruct (indexToResolve s) as [|index queue] eqn:Hq; [split; [done|by eexists]|].
  pose proof (st_queue s Hs) as Hall. rewrite Hq in Hall. inversion_clear Hall as [|?? [Hi _] _].
  rewrite resolveStep_eq by done. cbv zeta. destruct (stalled index (afterStep index queue s)) eqn:Hst; simpl.
  - split; [done|]. intros Hb. by rewrite (settled_benign index queue s) in Hst.
  - destruct (settled_step index queue s Hs Hq Hst). apply IH; [done|lia].
Qed.

(** After [k] iterations, one for each of the first [k] parameters *)
Definition depCount (k : nat) : nat := sum_list (length ∘ dependenciesOf deps <$> take k props).

Record firstPass (k : nat) s : Prop := {
  fp_le : k ≤ n;
  fp_queue : ∃ extra, indexToResolve s = seq k (n - k) ++ extra ∧ Forall requeued extra ∧ length extra ≤ depCount k;
  fp_names : ∀ d, d ∈ resolvedParameters s ↔ ∃ j, j < k ∧ nameAt j = d;
  fp_len : length (indexToResolve s) ≤ lastIndexLength s;
  fp_red : (-1 ≤ lastIndexReduction s ≤ iterations s)%Z;
  fp_iter : iterations s = Z.of_nat k;
}.

Lemma depCount_S k : k < n → depCount (S k) = depCount k + length (depsAt k).
Proof.
  intros [p Hp]%lookup_lt_is_Some_2. unfold depCount, depsAt. rewrite Hp, (take_S_r _ _ _ Hp), fmap_app, sum_list_with_app.
  simpl. unfold compose. lia.
Qed.

Lemma firstPass_start : firstPass 0 (resolveStart props).
Proof.
  split; simpl; [lia|exists []|..]; rewrite ?length_seq; try lia.
  - split_and!; [by rewrite Nat.sub_0_r, app_nil_r|done|simpl; lia].
  - intros d. split; [set_solver|]. intros (j & ? & _). lia.
Qed.

Lemma firstPass_step k s :
  firstPass k s → k < n → ∃ queue, indexToResolve s = k :: queue ∧ firstPass (S k) (afterStep k queue s).
Proof.
  intros [_ (extra & Hq & Hextra & Hcount) Hn Hl Hr Hi] Hk.
  replace (n - k) with (S (n - S k)) in Hq by lia. simpl in Hq. eexists. split; [exact Hq|].
  rewrite Hq in Hl. simpl in Hl. pose proof (missing_le (resolvedParameters s) k) as Hm.
  unfold afterStep. split; simpl; [lia| | | | |lia].
  - exists (extra ++ replicate (missing (resolvedParameters s) k) k). split_and!; [by rewrite (assoc_L (++))|..].
    + apply Forall_app. split; [done|]. destruct (missing (resolvedParameters s) k); [by constructor|].
      apply Forall_replicate. split; [done|]. intros Hd. rewrite Hd in Hm. simpl in Hm. lia.
    + rewrite length_app, length_replicate, depCount_S by done. lia.
  - intros d. rewrite elem_of_snoc, Hn. split.
    + intros [(j & ? & <-)| ->]; eauto with lia.
    + intros (j & Hj & <-). destruct (decide (j = k)) as [->|]; [by right|left]. exists j. split; [lia|done].
  - case_bools; [|done]. unfold missing. rewrite H. simpl. rewrite app_nil_r. lia.
  - case_bools; lia.
Qed.

(** In the first pass it can only throw at the last parameter. *)
Lemma firstPass_benign k queue s :
  firstPass k s → k < n → indexToResolve s = k :: queue → benign → stalled k (afterStep k queue s) = false.
Proof.
  intros [_ _ Hn Hl Hr Hi] Hk Hq [Hb Hlast]. rewrite Hq in Hl. simpl in Hl.
  unfold stalled. apply bool_decide_eq_false. unfold afterStep. simpl.
  destruct (decide (S k = n)) as [Heq|]; [|case_bools; lia].
  assert (missing (resolvedParameters s) k = 0) as ->.
  { apply missing_none. intros d Hd Hc. apply Hn. destruct (elem_of_names d) as [Hnames _].
    destruct Hnames as (j & Hj & Hname); [by eapply Hb|]. exists j. split; [|done].
    destruct (decide (j = k)) as [->|]; [|lia]. exfalso.
    replace (n - 1) with k in Hlast by lia. rewrite Hname in Hlast. by rewrite Hlast in Hc. }
  simpl. rewrite app_nil_r. intros [Hd Hlt]. rewrite bool_decide_true in Hlt by (split; [done|lia]). lia.
Qed.

Lemma firstPass_settled s : firstPass n s → settled s.
Proof.
  intros [_ (extra & Hq & Hextra & _) Hn Hl Hr _]. rewrite Nat.sub_diag in Hq. simpl in Hq.
  split; [|by rewrite Hq|done|lia]. intros d. by rewrite Hn, elem_of_names.
Qed.

Lemma firstPass_outcome k s fuel :
  firstPass k s → (n - k) + ((depCount n + 1) * (n + 1) + n + 1) ≤ fuel → outcome (resolveLoop props deps fuel s).
Proof.
  remember (n - k) as m eqn:Hm. revert k s fuel Hm. induction m as [|m IH]; intros k s fuel Hm Hs Hf.
  - assert (k = n) as -> by (pose proof (fp_le k s Hs); lia). apply settled_outcome; [by apply firstPass_settled|].
    destruct Hs as [_ (extra & Hq & _ & Hcount) _ _ Hr Hi]. rewrite Nat.sub_diag in Hq. simpl in Hq. unfold remaining.
    assert (vanishing (indexToResolve s) ≤ depCount n) as Hv.
    { rewrite Hq. etrans; [apply length_filter|done]. }
    assert (slack s ≤ 1) by (unfold slack; case_bools; lia).
    assert (Z.to_nat (lastIndexReduction s + Z.of_nat n - iterations s) ≤ n) by lia. nia.
  - destruct fuel as [|fuel]; [lia|]. destruct (firstPass_step k s Hs) as (queue & Hq & Hs'); [lia|]. simpl. rewrite Hq.
    rewrite resolveStep_eq by lia. cbv zeta. destruct (stalled k (afterStep k queue s)) eqn:Hst; simpl.
    + split; [done|]. intros Hb. rewrite (firstPass_benign k queue s) in Hst; [done|done|lia|done|done].
    + apply (IH (S k)); [lia|done|lia].
Qed.

Lemma getParameterResolveOrder_outcome : outcome (getParameterResolveOrder props deps).
Proof.
  apply (firstPass_outcome 0); [apply firstPass_start|]. unfold resolveFuel, depCount. rewrite firstn_all. lia.
Qed.
End loop.

(** Parameter [i] looks at parameter [d] of the same level. *)
Definition looksBeside (props : list INodeProperties) (i : nat) (d : string) : Prop :=
  looksAt props (nameAt props i) d ∧ charAt0 "/" d = false.

Lemma elem_of_depsAt props i d : i < length props → d ∈ depsAt props (getParameterDependencies props) i ↔ looksAt props (nameAt props i) d.
Proof.
  intros [p Hp]%lookup_lt_is_Some_2. unfold depsAt, nameAt, dependenciesOf. rewrite Hp. simpl.
  apply getParameterDependencies_get.
Qed.

(** C35: the search for an order always ends; it succeeds if the parameters that rules look at exist and
    the last parameter does not look at itself; an order that is found holds every parameter, and the
    last time a parameter occurs in it comes after all the parameters that its rules look at. *)
Theorem resolve_order_respects_dependencies props :
  match getParameterResolveOrder props (getParameterDependencies props) with
  | Ok order =>
      (∀ i, i ∈ order ↔ i < length props) ∧
      ∀ pre i post, order = pre ++ i :: post → i ∉ post → ∀ d, looksBeside props i d → d ∈ nameAt props <$> pre
  | Throw e =>
      ¬ ((∀ i d, i < length props → looksBeside props i d → d ∈ prop_name <$> props) ∧
         ¬ looksBeside props (length props - 1) (nameAt props (length props - 1)))
  | OutOfFuel => False
  end.
Proof.
  set (deps := getParameterDependencies props).
  assert (∀ p, p ∈ props → is_Some (obj_get (prop_name p) deps)) as Hdeps.
  { intros p Hp. apply getParameterDependencies_get. by apply list_elem_of_fmap_2. }
  destruct (getParameterResolveOrder_outcome props deps Hdeps) as [Hret Hok].
  destruct (getParameterResolveOrder props deps) as [order|e|] eqn:E; [| |done].
  - destruct (resolveLoop_sound props deps Hdeps _ _ _ (orderInv_start props deps Hdeps) E) as [Hall Hlast].
    split; [done|]. intros pre i post Heq Hi d [Hd Hc]. eapply Hlast; [done|done| |done].
    apply elem_of_depsAt; [|done]. apply Hall. rewrite Heq. set_solver.
  - intros [Hexist Hself]. destruct Hok as [order ?]; [|done]. split.
    + intros i d Hi Hd Hc. apply (Hexist i); [done|]. split; [|done]. by apply elem_of_depsAt.
    + intros Hd. destruct (charAt0 "/" (nameAt props (length props - 1))) eqn:Hc; [done|]. destruct Hself.
      split; [|done]. apply elem_of_depsAt; [|done]. destruct props; [by apply elem_of_nil in Hd|simpl; lia].
Qed.

(** ** Examples *)

Definition stringProperty (name : string) (rules : list string) : INodeProperties :=
  {| prop_name := name; prop_type := "string"; prop_default := JStr "";
     prop_displayOptions := match rules with [] => None | _ => Some [("show", (λ r, (r, [JStr "x"])) <$> rules)] end;
     prop_multipleValues := None; prop_noDataExpression := false; prop_options := None; prop_values := None; prop_checks := noChecks |}.

(** A parameter in front of one that its rules look at is not put off: it is resolved at once, and a
    second time after the other one. *)
Lemma early_parameter_resolved_twice :
  let props := [stringProperty "a" ["b"]; stringProperty "b" []] in
  getParameterResolveOrder props (getParameterDependencies props) = Ok [0; 1; 0].
Proof. reflexivity. Qed.

(** A parameter that looks at itself can be resolved, but not if it is the last one. *)
Lemma self_dependency_position :
  let a := stringProperty "a" ["a"] in
  let b := stringProperty "b" [] in
  getParameterResolveOrder [a; b] (getParameterDependencies [a; b]) = Ok [0; 1; 0] ∧
  getParameterResolveOrder [a] (getParameterDependencies [a]) = Throw maxIterations.
Proof. split; reflexivity. Qed.
