(* ===== verification/NodeParameters.v ===== *)
(** * Node parameters with and without their defaults

    Model of [getNodeParameters] of [packages/workflow/src/node-helpers.ts]: the parameters of a
    node, either with the default of every property that has no value, or without the values that
    equal their default; parameters that the display rules hide can be left out.

    A value is a JSON value, [undefined] is [None].  While the function runs, the values that the
    display rules look at can be the very object that is being filled ([nodeParametersFull]); this is
    written as [None], and the current object is looked up.  The recursion gets fuel, which has to
    exceed the depth of the properties. *)

From stdpp Require Import strings list pretty.
From S2P Require Import Prelude JsCollections NodeTypes FromAi NodeProperties ParameterOrder.

(** ** Values *)

(** [deepCopy] of [utils.ts], for JSON values *)
Fixpoint deepCopy (source : json) : json :=
  match source with
  | JArr l => JArr (deepCopy <$> l)
  | JObj o =>
      JObj ((fix entries (o : list (string * json)) :=
               match o with [] => [] | (k, v) :: o => (k, deepCopy v) :: entries o end) o)
  | _ => source
  end.

Fixpoint charsOf (s : string) : list json :=
  match s with EmptyString => [] | String c s => JStr (String c EmptyString) :: charsOf s end.

Definition lengthOf {A} (l : list A) : json := JNum (binary_normalize 53 1024 (Z.of_nat (length l)) 0 false).

(** [l[k]] of an array or a string *)
Definition indexed (l : list json) (k : string) : option json :=
  match key_index k with
  | Some i => l !! N.to_nat i
  | None => if bool_decide (k = "length") then Some (lengthOf l) else None
  end.

(** [v[k]] *)
Definition getProp (v : json) (k : string) : option json :=
  match v with
  | JObj o => obj_get k o
  | JArr l => indexed l k
  | JStr s => indexed (charsOf s) k
  | _ => None
  end.

(** [Object.entries(v)] *)
Definition entriesOf (v : json) : list (string * json) :=
  let numbered (l : list json) := imap (λ i x, (pretty i, x)) l in
  match v with
  | JObj o => o
  | JArr l => numbered l
  | JStr s => numbered (charsOf s)
  | _ => []
  end.

(** [Object.keys(v)] *)
Definition keysOf (v : json) : list string := (entriesOf v).*1.

(** [{...o, ...v}] and [Object.assign(o, v)] *)
Definition spread (o : list (string * json)) (v : option json) : list (string * json) :=
  foldl (λ o kv, obj_set kv.1 kv.2 o) o (from_option entriesOf [] v).

(** What a [for ... of] loop goes through *)
Definition iterate (v : option json) : res (list json) :=
  match v with
  | Some (JArr l) => Ok l
  | Some (JStr s) => Ok (charsOf s)
  | _ => Throw TypeError
  end.

(** ** Single properties *)

(** The names that occur several times *)
Definition duplicateParameterNames (props : list INodeProperties) : list string :=
  (foldl (λ st p,
    let '(duplicates, names) := st in
    if bool_decide (prop_name p ∈ (names : list string)) then
      (if bool_decide (prop_name p ∈ (duplicates : list string)) then duplicates else duplicates ++ [prop_name p], names)
    else (duplicates, names ++ [prop_name p])) ([], []) props).1.

Definition isComplex (p : INodeProperties) : bool := bool_decide (prop_type p ∈ ["collection"; "fixedCollection"]).

Definition defaultOptions : list (string * json) :=
  [("caseSensitive", JBool true); ("leftValue", JStr ""); ("typeValidation", JStr "strict");
   ("version", JNum (binary_normalize 53 1024 1 0 false))].

(** A filter gets what it lacks; properties of an array that are no elements are outside of the model. *)
Definition completeFilter (filter : json) : json :=
  match filter with
  | JObj o =>
      let o := match obj_get "combinator" o with None | Some JNull => obj_set "combinator" (JStr "and") o | _ => o end in
      JObj (obj_set "options" (JObj (spread defaultOptions (obj_get "options" o))) o)
  | _ => filter
  end.

(** The value of a simple property with its default *)
Definition fillValue (p : INodeProperties) (value : option json) : json :=
  if bool_decide (prop_type p ∈ ["boolean"; "number"; "options"]) then
    from_option deepCopy (prop_default p) value
  else if bool_decide (prop_type p = "resourceLocator") && typeofObject (Some (prop_default p)) then
    from_option deepCopy (JObj (spread [("__rl", JBool true)] (Some (prop_default p)))) value
  else if bool_decide (prop_type p = "filter") && typeofObject value && bool_decide (value ≠ Some JNull) then
    from_option (completeFilter ∘ deepCopy) JNull value
  else
    match value with
    | None | Some JNull => prop_default p
    | Some v => deepCopy v
    end.

(** [GetNodeParametersOptions] *)
Record GetNodeParametersOptions := {
  onlySimpleTypes : bool;
  dataIsResolved : bool;
  nodeValuesRoot : option json;
  parentType : option string;
  parameterDependencies : option IParameterDependencies;
}.

(** The loop goes on with what was collected, or the function has returned. *)
Inductive progress :=
  | Going (nodeParameters nodeParametersFull : list (string * json))
  | Returned (v : json).

Section parameters.
Context (L : libraries) (node : option spec_float) (nodeTypeDescription : option INodeTypeDescription).

(** Whether a value is kept when defaults are left out *)
Definition keepValue (p : INodeProperties) (parent : option string) (value : option json) : bool :=
  (negb (strictEquals value (Some (prop_default p))) && negb (typeofObject value)) ||
  (typeofObject value && negb (lodash_isEqual L value (Some (prop_default p)))) ||
  (bool_decide (value ≠ None) && bool_decide (parent = Some "collection")).

(** [nodeParameters[name] = v; nodeParametersFull[name] = nodeParameters[name]] *)
Definition setBoth (name : string) (v : json) (params full : list (string * json)) : progress :=
  Going (obj_set name v params) (obj_set name v full).

(** The prefix of an expression is removed if the property does not allow expressions. *)
Definition dropExpression (p : INodeProperties) (params full : list (string * json)) : progress :=
  match obj_get (prop_name p) params with
  | Some (JStr s) =>
      if prop_noDataExpression p && isExpression (JStr s) then setBoth (prop_name p) (JStr (slice1 s)) params full
      else Going params full
  | _ => Going params full
  end.

(** The arguments of a call that all properties share *)
Context (props : list INodeProperties) (nodeValues : json) (returnDefaults returnNoneDisplayed : bool).
Context (opts : GetNodeParametersOptions) (displayCheck : option json).
(** The recursive calls *)
Context (rec : list INodeProperties → option json → GetNodeParametersOptions → res json).

Definition checkValues (full : list (string * json)) : json := default (JObj full) displayCheck.
Definition rootValues (full : list (string * json)) : json := default (checkValues full) (nodeValuesRoot opts).

Definition isDisplayed (p : INodeProperties) (full : list (string * json)) : res bool :=
  displayParameter L (checkValues full) (prop_displayOptions p) node nodeTypeDescription (Some (rootValues full)).

Definition nestedOptions (p : INodeProperties) (full : list (string * json)) : GetNodeParametersOptions :=
  {| onlySimpleTypes := false; dataIsResolved := false; nodeValuesRoot := Some (rootValues full);
     parentType := Some (prop_type p); parameterDependencies := None |}.

Definition simpleProperty (p : INodeProperties) (value : option json) (params full : list (string * json)) : res progress :=
  shown ← (if bool_decide (prop_name p ∈ duplicateParameterNames props) then isDisplayed p full else Ok true);
  if negb shown then Ok (Going params full)
  else if returnDefaults then
    let v := fillValue p value in
    Ok (dropExpression p (obj_set (prop_name p) v params) (obj_set (prop_name p) v full))
  else if keepValue p (parentType opts) value then
    v ← deref value; Ok (setBoth (prop_name p) (deepCopy v) params full)
  else Ok (dropExpression p params full).

Definition collectionProperty (p : INodeProperties) (value : option json) (params full : list (string * json))
    : res progress :=
  if bool_decide (prop_multipleValues p = Some true) then
    match value with
    | Some v => Ok (setBoth (prop_name p) (deepCopy v) params full)
    | None =>
        if returnDefaults then
          Ok (setBoth (prop_name p) (match prop_default p with JArr l => deepCopy (JArr l) | _ => JArr [] end) params full)
        else Ok (Going params full)
    end
  else
    match value with
    | Some v =>
        options ← deref (prop_options p);
        temp ← rec options (Some v) (nestedOptions p full);
        Ok (if bool_decide (temp ≠ JNull) then setBoth (prop_name p) temp params full else Going params full)
    | None => if returnDefaults then Ok (setBoth (prop_name p) (deepCopy (prop_default p)) params full) else Ok (Going params full)
    end.

Definition findOption (p : INodeProperties) (itemName : string) : res (option INodeProperties) :=
  options ← deref (prop_options p);
  Ok (find (λ option, bool_decide (prop_name option = itemName)) options).

(** An item of a collection with several values: the list of its values *)
Definition multipleItem (p : INodeProperties) (propertyValues : json) (itemName : string) (full : list (string * json))
    : res (list json) :=
  items ← iterate (getProp propertyValues itemName);
  foldM (λ tempArrayValue nodeValue,
    found ← findOption p itemName;
    match found with
    | None => Throw (ApplicationError "Could not find property option")
    | Some option =>
        values ← deref (prop_values option);
        tempValue ← rec values (Some nodeValue) (nestedOptions p full);
        Ok (if bool_decide (tempValue ≠ JNull) then tempArrayValue ++ [tempValue] else tempArrayValue)
    end) [] items.

(** Whether an item has a value that is not the default of its field *)
Definition hasNonDefaultValues (values : list INodeProperties) (itemNodeValues : option json) : bool :=
  match itemNodeValues with
  | Some item =>
      truthy item &&
      existsb (λ key,
        match find (λ f, bool_decide (prop_name f = key)) values with
        | Some field => negb (lodash_isEqual L (getProp item key) (Some (prop_default field)))
        | None => false
        end) (keysOf item)
  | None => false
  end.

(** An item of a collection with one value: what it holds, and whether it has visible fields *)
Definition singleItem (p : INodeProperties) (value : option json) (itemName : string) (full : list (string * json))
    : res (list (string * json) * bool) :=
  found ← findOption p itemName;
  match found with
  | None => Ok ([], false)
  | Some option =>
      item ← deref value;
      values ← deref (prop_values option);
      tempValue ← rec values (getProp item itemName) (nestedOptions p full);
      Ok (if bool_decide (tempValue = JNull) then ([], false)
          else (spread [] (Some tempValue),
                bool_decide (0 < length (keysOf tempValue)) || negb (hasNonDefaultValues values (getProp item itemName))))
  end.

(** An iteration over the items: the collected values, and whether any item had visible fields *)
Definition visitItem (p : INodeProperties) (value propertyValues : option json) (full : list (string * json))
    (st : list (string * json) * bool) (itemName : string) : res (list (string * json) * bool) :=
  let '(collectionValues, hadAnyVisibleFields) := st in
  if bool_decide (prop_multipleValues p = Some true) then
    match propertyValues with
    | Some (JObj _ as pv) =>
        items ← multipleItem p pv itemName full;
        Ok (obj_set itemName (JArr items) collectionValues, hadAnyVisibleFields)
    | _ => Ok st
    end
  else
    '(temp, hadVisibleFields) ← singleItem p value itemName full;
    let preserve := negb returnDefaults && hadVisibleFields && truthyOpt propertyValues &&
      bool_decide ((propertyValues ≫= λ pv, getProp pv itemName) ≠ None) in
    Ok (if bool_decide (length temp ≠ 0) || preserve then obj_set itemName (JObj temp) collectionValues else collectionValues,
        hadAnyVisibleFields || hadVisibleFields).

Definition fixedCollectionProperty (p : INodeProperties) (value : option json) (params full : list (string * json))
    : res progress :=
  let propertyValues := match value with Some v => Some (deepCopy v) | None => if returnDefaults then Some (deepCopy (prop_default p)) else None end in
  let keys := if truthyOpt propertyValues then from_option keysOf [] propertyValues else [] in
  if negb returnDefaults && bool_decide (prop_multipleValues p = Some false) && truthyOpt propertyValues &&
     bool_decide (length keys = 0)
  then Ok (Returned (deepCopy nodeValues))
  else
    '(collectionValues, hadAnyVisibleFields) ← foldM (visitItem p value propertyValues full) ([], false) keys;
    let params :=
      if negb returnDefaults && hadAnyVisibleFields && bool_decide (prop_multipleValues p = Some false) &&
         bool_decide (length collectionValues = 0) && truthyOpt propertyValues &&
         match propertyValues with Some (JObj _) => true | _ => false end && bool_decide (length keys ≠ 0)
      then obj_set (prop_name p) (JObj (foldl (λ o k, obj_set k (JObj []) o) [] keys)) params
      else params in
    Ok (if bool_decide (length collectionValues ≠ 0) || returnDefaults
        then setBoth (prop_name p) (JObj collectionValues) params full
        else Going params full).

(** The body of the loop *)
Definition visitProperty (st : progress) (index : nat) : res progress :=
  match st with
  | Returned v => Ok (Returned v)
  | Going params full =>
      p ← deref (props !! index);
      let value := getProp nodeValues (prop_name p) in
      if negb (truthy nodeValues) ||
         (bool_decide (value = None) && (negb returnDefaults || bool_decide (parentType opts = Some "collection")))
      then Ok (Going params full)
      else
        shown ← (if returnNoneDisplayed then Ok true else isDisplayed p full);
        if negb shown then Ok (Going params full)
        else if negb (isComplex p) then simpleProperty p value params full
        else if onlySimpleTypes opts then Ok (Going params full)
        else if bool_decide (prop_type p = "collection") then collectionProperty p value params full
        else fixedCollectionProperty p value params full
  end.

Definition finish (st : progress) : json :=
  match st with Going params _ => JObj params | Returned v => v end.
End parameters.

(** ** [getNodeParameters] *)

Fixpoint getNodeParameters (fuel : nat) (L : libraries) (node : option spec_float)
    (nodeTypeDescription : option INodeTypeDescription) (returnDefaults returnNoneDisplayed : bool)
    (props : list INodeProperties) (nodeValues : option json) (opts : GetNodeParametersOptions) : res json :=
  match fuel with
  | O => OutOfFuel
  | S fuel =>
      let deps := default (getParameterDependencies props) (parameterDependencies opts) in
      displayCheck ←
        (if negb (dataIsResolved opts) && negb returnNoneDisplayed then
           Some <$> getNodeParameters fuel L node nodeTypeDescription true true props nodeValues
             {| onlySimpleTypes := true; dataIsResolved := true; nodeValuesRoot := nodeValuesRoot opts;
                parentType := parentType opts; parameterDependencies := Some deps |}
         else Ok None);
      parameterIterationOrderIndex ← getParameterResolveOrder props deps;
      st ← foldM
        (visitProperty L node nodeTypeDescription props (default JNull nodeValues) returnDefaults returnNoneDisplayed
           opts displayCheck (getNodeParameters fuel L node nodeTypeDescription returnDefaults returnNoneDisplayed))
        (Going [] []) parameterIterationOrderIndex;
      Ok (finish st)
  end.

(** The call without options *)
Definition noOptions : GetNodeParametersOptions :=
  {| onlySimpleTypes := false; dataIsResolved := false; nodeValuesRoot := None; parentType := None;
     parameterDependencies := None |}.
