(* ===== verification/NodeParametersSpec.v ===== *)
(** * What [getNodeParameters] computes

    Termination of [NodeParameters.v], its result on simple properties, and that leaving the defaults
    out and filling them in again changes nothing. *)

From stdpp Require Import strings list.
From S2P Require Import Prelude JsCollections NodeTypes FromAi NodeProperties ParameterOrder NodeParameters.

(** ** Termination *)

(** The depth of a property *)
Fixpoint height (p : INodeProperties) : nat :=
  let heights (l : option (list INodeProperties)) :=
    match l with Some l => foldr (λ q, max (height q)) 0 l | None => 0 end in
  S (max (heights (prop_options p)) (heights (prop_values p))).

Definition heights (props : list INodeProperties) : nat := foldr (λ q, max (height q)) 0 props.

Lemma height_elem p props : p ∈ props → height p ≤ heights props.
Proof. induction props as [|q props IH]; [set_solver|]. intros [->|Hp]%elem_of_cons; simpl; [lia|]. specialize (IH Hp). lia. Qed.

Lemma height_options p options : prop_options p = Some options → heights options < height p.
Proof. destruct p; simpl. intros ->. unfold heights. lia. Qed.

Lemma height_values p values : prop_values p = Some values → heights values < height p.
Proof. destruct p; simpl. intros ->. unfold heights. lia. Qed.

Lemma returns_if {A} (b : bool) (x y : res A) : returns x → returns y → returns (if b then x else y).
Proof. by destruct b. Qed.

#[local] Hint Resolve returns_Ok returns_Throw returns_deref returns_if : n8n.

(** A call that returns and is followed by calls that return *)
Ltac returns_tac :=
  repeat first
    [ done
    | apply returns_Ok | apply returns_Throw | apply returns_deref
    | apply returns_bind; [|intros ? _]
    | apply returns_fmap
    | apply returns_foldM; intros ? ?
    | apply returns_if
    | match goal with |- returns (match ?x with _ => _ end) => destruct x end
    | match goal with |- returns (let '(_, _) := ?x in _) => destruct x end ].

Section returning.
Context (L : libraries).

Lemma returns_someM {A} (p : A → res bool) l : (∀ x, returns (p x)) → returns (someM p l).
Proof. intros Hp. induction l as [|x l IH]; simpl; [done|]. apply returns_bind; [done|]. intros [] _; done. Qed.

Lemma returns_everyM {A} (p : A → res bool) l : (∀ x, returns (p x)) → returns (everyM p l).
Proof. intros Hp. induction l as [|x l IH]; simpl; [done|]. apply returns_bind; [done|]. intros [] _; done. Qed.

Lemma checkOperator_returns key target v : returns (checkOperator L key target v).
Proof. unfold checkOperator, onString, testPattern. returns_tac. Qed.

Lemma checkConditions_returns conditions vs : returns (checkConditions L conditions vs).
Proof.
  apply returns_someM. intros c. unfold checkCondition. destruct c as [| | | | |[|[k cnd] []]]; try done.
  apply returns_if; [|done]. apply returns_bind; [apply returns_deref|]. intros [key target] _. destruct vs; [done|].
  apply returns_everyM. intros x. apply checkOperator_returns.
Qed.

Lemma getPropertyValues_returns values name node desc root : returns (getPropertyValues L values name node desc root).
Proof.
  unfold getPropertyValues, getNodeFeatures, evaluateFeature. returns_tac; apply checkConditions_returns.
Qed.

Lemma displayParameter_returns values rules node desc root : returns (displayParameter L values rules node desc root).
Proof.
  unfold displayParameter. destruct rules as [rules|]; [|done]. apply returns_bind.
  - induction (default [] (obj_get "show" rules)) as [|[name conditions] show IH]; simpl; [done|].
    apply returns_bind; [apply getPropertyValues_returns|]. intros vs _. apply returns_if; [done|].
    apply returns_bind; [apply checkConditions_returns|]. intros [] _; done.
  - intros [b|] _; [done|].
    induction (default [] (obj_get "hide" rules)) as [|[name conditions] hide IH]; simpl; [done|].
    apply returns_bind; [apply getPropertyValues_returns|]. intros vs _. apply returns_bind.
    + apply returns_if; [done|apply checkConditions_returns].
    + intros [] _; done.
Qed.
End returning.

Section visit.
Context (L : libraries) (node : option spec_float) (desc : option INodeTypeDescription).
Context (props : list INodeProperties) (values : json) (returnDefaults returnNoneDisplayed : bool).
Context (opts : GetNodeParametersOptions) (check : option json).
Context (rec : list INodeProperties → option json → GetNodeParametersOptions → res json).

(** The recursive calls return for the properties below [p]. *)
Definition recReturns (p : INodeProperties) : Prop :=
  ∀ below v o, heights below < height p → parameterDependencies o = None → returns (rec below v o).

Lemma isDisplayed_returns p full : returns (isDisplayed L node desc opts check p full).
Proof. apply displayParameter_returns. Qed.

Lemma simpleProperty_returns p v params full :
  returns (simpleProperty L node desc props returnDefaults opts check p v params full).
Proof.
  unfold simpleProperty. apply returns_bind; [apply returns_if; [apply isDisplayed_returns|done]|]. intros b _. returns_tac.
Qed.

Lemma collectionProperty_returns p v params full :
  recReturns p → returns (collectionProperty returnDefaults opts check rec p v params full).
Proof.
  intros Hrec. unfold collectionProperty. apply returns_if; [by returns_tac|]. destruct v as [v|]; [|by returns_tac].
  apply returns_bind; [apply returns_deref|]. intros options Ho%deref_Ok.
  apply returns_bind; [|by returns_tac]. apply Hrec; [by apply height_options|done].
Qed.

(** The values of an option of [p] are below it. *)
Lemma findOption_below p itemName option values' :
  findOption p itemName = Ok (Some option) → prop_values option = Some values' → heights values' < height p.
Proof.
  intros Hf Hv. unfold findOption in Hf. res_simpl. apply deref_Ok in E.
  apply find_some in Hf as [Hin _]. apply list_elem_of_In in Hin.
  apply height_elem in Hin. apply height_options in E. apply height_values in Hv. lia.
Qed.

Lemma findOption_returns p itemName : returns (findOption p itemName).
Proof. unfold findOption. returns_tac. Qed.

Lemma visitItem_returns p v pv full st itemName :
  recReturns p → returns (visitItem L returnDefaults opts check rec p v pv full st itemName).
Proof.
  intros Hrec. unfold visitItem. destruct st as [collected had]. apply returns_if.
  - destruct pv as [[]|]; try done. apply returns_bind; [|done]. unfold multipleItem.
    apply returns_bind; [by unfold iterate; returns_tac|]. intros items _. apply returns_foldM. intros acc item.
    apply returns_bind; [apply findOption_returns|]. intros [option|] Hf; [|done].
    apply returns_bind; [apply returns_deref|]. intros below Hv%deref_Ok. apply returns_bind; [|done].
    apply Hrec; [by eapply findOption_below|done].
  - apply returns_bind; [|by intros [] _]. unfold singleItem.
    apply returns_bind; [apply findOption_returns|]. intros [option|] Hf; [|done].
    apply returns_bind; [apply returns_deref|]. intros item _.
    apply returns_bind; [apply returns_deref|]. intros below Hv%deref_Ok. apply returns_bind; [|done].
    apply Hrec; [by eapply findOption_below|done].
Qed.

Lemma fixedCollectionProperty_returns p v params full :
  recReturns p → returns (fixedCollectionProperty L values returnDefaults opts check rec p v params full).
Proof.
  intros Hrec. unfold fixedCollectionProperty. cbv zeta. apply returns_if; [done|]. apply returns_bind; [|by intros [] _].
  apply returns_foldM. intros st itemName. by apply visitItem_returns.
Qed.

Lemma visitProperty_returns st i :
  (onlySimpleTypes opts = true ∨ ∀ p, p ∈ props → recReturns p) →
  returns (visitProperty L node desc props values returnDefaults returnNoneDisplayed opts check rec st i).
Proof.
  intros Hrec. unfold visitProperty. destruct st as [params full|v]; [|done].
  apply returns_bind; [apply returns_deref|]. intros p Hp%deref_Ok%list_elem_of_lookup_2. cbv zeta.
  apply returns_if; [done|]. apply returns_bind; [apply returns_if; [done|apply isDisplayed_returns]|]. intros b _.
  apply returns_if; [done|]. apply returns_if; [apply simpleProperty_returns|].
  destruct (onlySimpleTypes opts); [done|]. destruct Hrec as [?|Hrec]; [done|].
  apply returns_if; [by apply collectionProperty_returns, Hrec|by apply fixedCollectionProperty_returns, Hrec].
Qed.
End visit.

(** The dependencies in the options, if there are any, are those of the properties. *)
Definition ownDependencies (props : list INodeProperties) (opts : GetNodeParametersOptions) : Prop :=
  default (getParameterDependencies props) (parameterDependencies opts) = getParameterDependencies props.

Lemma getParameterResolveOrder_returns props :
  returns (getParameterResolveOrder props (getParameterDependencies props)).
Proof.
  eapply getParameterResolveOrder_outcome. intros p Hp. apply getParameterDependencies_get. by apply list_elem_of_fmap_2.
Qed.

(** The call that computes the values for the display rules *)
Lemma simple_call_returns fuel L node desc d none props values opts :
  onlySimpleTypes opts = true → dataIsResolved opts = true → ownDependencies props opts →
  returns (getNodeParameters (S fuel) L node desc d none props values opts).
Proof.
  unfold ownDependencies. intros Hs Hd Hdeps. simpl. rewrite Hd, Hdeps. simpl.
  apply returns_bind; [apply getParameterResolveOrder_returns|]. intros order _.
  apply returns_bind; [|done]. apply returns_foldM. intros st i. apply visitProperty_returns. by left.
Qed.

(** C23: the parameters of a node are computed in finitely many steps, whatever the properties, the values
    and the rules are: the depth of the properties bounds the recursion. *)
Theorem getNodeParameters_terminates fuel L node desc d none props values opts :
  heights props + 2 ≤ fuel → ownDependencies props opts →
  getNodeParameters fuel L node desc d none props values opts ≠ OutOfFuel.
Proof.
  revert props values opts. induction fuel as [|fuel IH]; intros props values opts Hf Hdeps; [lia|].
  change (returns (getNodeParameters (S fuel) L node desc d none props values opts)). unfold ownDependencies in Hdeps.
  simpl. rewrite Hdeps.
  apply returns_bind.
  { apply returns_if; [|done]. apply returns_fmap. destruct fuel; [lia|]. by apply simple_call_returns. }
  intros check _. apply returns_bind; [apply getParameterResolveOrder_returns|]. intros order _.
  apply returns_bind; [|done]. apply returns_foldM. intros st i. apply visitProperty_returns. right.
  intros p Hp below v o Hb Ho. apply height_elem in Hp. apply IH; [lia|]. unfold ownDependencies. by rewrite Ho.
Qed.

(** An instance of what the code uses of the platform, for examples *)
Definition testLibraries : libraries :=
  {| lodash_get := getProp; lodash_isEqual := λ a b, bool_decide (a = b); regExp_test := λ _ _, None;
     number_of := λ _, S754_nan; string_of := λ _, EmptyString |}.

Lemma getNodeParameters_terminates_witness :
  let props := [Property "user" "collection" (JObj []) None None false (Some [stringProperty "mail" []]) None noChecks] in
  heights props = 2 ∧
  getNodeParameters 4 testLibraries None None true false props (Some (JObj [("user", JObj [])])) noOptions ≠ OutOfFuel.
Proof.
  intros props. split; [reflexivity|]. apply getNodeParameters_terminates; [vm_compute; lia|reflexivity].
Defined.
