(* ===== verification/ParameterDefaults.v ===== *)
(** * Defaults of simple parameters

    What [getNodeParameters] returns for properties that are neither collections nor share a name:
    the displayed properties with their values or defaults; and that filling in the defaults undoes
    leaving them out. *)

From stdpp Require Import strings list.
From S2P Require Import Prelude JsCollections NodeTypes FromAi NodeProperties ParameterOrder NodeParameters NodeParametersSpec.

Lemma deepCopy_id v : deepCopy v = v.
Proof.
  induction v as [| | | |l IH|o IH] using json_induction; simpl; try done; f_equal.
  - induction l as [|x l IHl]; simpl; [done|]. rewrite IH by (by left). f_equal. apply IHl. intros y Hy. apply IH. by right.
  - induction o as [|[k x] o IHo]; [done|]. rewrite (IH k x) by (by left). f_equal. apply IHo. intros k' y Hy.
    apply (IH k'). by right.
Qed.

(** The value of a property with its default, without the prefix of an expression if the property does
    not allow expressions *)
Definition filled (p : INodeProperties) (value : option json) : json :=
  match fillValue p value with
  | JStr s => if prop_noDataExpression p && isExpression (JStr s) then JStr (slice1 s) else JStr s
  | v => v
  end.

Lemma dropExpression_filled p value params full :
  dropExpression p (obj_set (prop_name p) (fillValue p value) params) (obj_set (prop_name p) (fillValue p value) full) =
  Going (obj_set (prop_name p) (filled p value) params) (obj_set (prop_name p) (filled p value) full).
Proof.
  unfold dropExpression, filled, setBoth. rewrite obj_get_set_eq. destruct (fillValue p value) as [| | |s| |]; try done.
  destruct (prop_noDataExpression p && isExpression (JStr s)); [by rewrite !obj_set_set|done].
Qed.

Lemma duplicateParameterNames_nil props : NoDup (prop_name <$> props) → duplicateParameterNames props = [].
Proof.
  intros Hnd. unfold duplicateParameterNames.
  enough (∀ ns, NoDup (ns ++ (prop_name <$> props)) →
    (foldl (λ st p, let '(duplicates, names) := st in
      if bool_decide (prop_name p ∈ (names : list string)) then
        (if bool_decide (prop_name p ∈ (duplicates : list string)) then duplicates else duplicates ++ [prop_name p], names)
      else (duplicates, names ++ [prop_name p])) ([], ns) props).1 = []) as H by by apply H.
  clear Hnd. induction props as [|p props IH]; intros ns Hnd; [done|]. simpl.
  rewrite bool_decide_false; [apply IH; by rewrite <- (assoc_L (++))|].
  simpl in Hnd. apply NoDup_app in Hnd as (_ & Hn & _). intros Hin. apply (Hn _ Hin). by left.
Qed.

Section simple.
Context (L : libraries) (node : option spec_float) (desc : option INodeTypeDescription) (props : list INodeProperties).
Context (Hsimple : ∀ p, p ∈ props → isComplex p = false) (Hnd : NoDup (prop_name <$> props)).
Context (order : list nat) (Horder : getParameterResolveOrder props (getParameterDependencies props) = Ok order).

Lemma order_lookup i : i ∈ order ↔ is_Some (props !! i).
Proof.
  rewrite lookup_lt_is_Some.
  assert (∀ p, p ∈ props → is_Some (obj_get (prop_name p) (getParameterDependencies props))) as Hdeps.
  { intros p Hp. apply getParameterDependencies_get. by apply list_elem_of_fmap_2. }
  by apply (resolveLoop_sound props _ Hdeps _ _ _ (orderInv_start props _ Hdeps) Horder).
Qed.

Lemma same_name i j p q : props !! i = Some p → props !! j = Some q → prop_name p = prop_name q → i = j.
Proof.
  intros Hp Hq Hn. eapply NoDup_lookup; [exact Hnd|..]; rewrite list_lookup_fmap; [by rewrite Hp|by rewrite Hq; simpl; f_equal].
Qed.

(** ** Objects built along the order *)

(** The properties that satisfy [cond], with the values [val] *)
Definition collectStep (cond : INodeProperties → bool) (val : INodeProperties → json) (acc : list (string * json)) (i : nat)
    : list (string * json) :=
  match props !! i with
  | Some p => if cond p then obj_set (prop_name p) (val p) acc else acc
  | None => acc
  end.

Definition collect (cond : INodeProperties → bool) (val : INodeProperties → json) : list (string * json) :=
  foldl (collectStep cond val) [] order.

Lemma collectStep_get cond val idxs acc i p :
  props !! i = Some p →
  obj_get (prop_name p) (foldl (collectStep cond val) acc idxs) =
    if cond p && bool_decide (i ∈ idxs) then Some (val p) else obj_get (prop_name p) acc.
Proof.
  intros Hp. revert acc. induction idxs as [|j idxs IH]; intros acc; simpl; [by rewrite andb_false_r|].
  rewrite IH. unfold collectStep at 1. destruct (decide (j = i)) as [->|Hne].
  - rewrite Hp, (bool_decide_true (i ∈ i :: idxs)) by by left. rewrite andb_true_r.
    destruct (cond p); simpl; [|done]. rewrite obj_get_set_eq. by case_bools.
  - rewrite (bool_decide_ext (i ∈ j :: idxs) (i ∈ idxs)) by (rewrite elem_of_cons; naive_solver).
    destruct (cond p && bool_decide (i ∈ idxs)); [done|]. destruct (props !! j) as [q|] eqn:Hq; [|done].
    destruct (cond q); [|done]. rewrite obj_get_set_ne; [done|]. intros Hn. by apply Hne, (same_name j i q p).
Qed.

Lemma collect_get cond val p :
  p ∈ props → obj_get (prop_name p) (collect cond val) = if cond p then Some (val p) else None.
Proof.
  intros [i Hi]%list_elem_of_lookup_1. unfold collect. rewrite (collectStep_get _ _ _ _ i) by done.
  rewrite bool_decide_true by (apply order_lookup; eauto). by rewrite andb_true_r.
Qed.

Lemma collectStep_keys cond val idxs acc k :
  k ∈ (foldl (collectStep cond val) acc idxs).*1 → k ∈ acc.*1 ∨ ∃ p, p ∈ props ∧ cond p = true ∧ prop_name p = k.
Proof.
  revert acc. induction idxs as [|i idxs IH]; intros acc; simpl; [by left|].
  intros [Hk|Hk]%IH; [|by right]. unfold collectStep in Hk. destruct (props !! i) as [p|] eqn:Hp; [|by left].
  destruct (cond p) eqn:Hc; [|by left]. apply elem_of_obj_set_keys in Hk as [->|Hk]; [|by left].
  right. exists p. split_and!; [by eapply list_elem_of_lookup_2|done..].
Qed.

Lemma collect_keys cond val k :
  k ∈ (collect cond val).*1 → ∃ p, p ∈ props ∧ cond p = true ∧ prop_name p = k.
Proof. intros [?%elem_of_nil|?]%collectStep_keys; done. Qed.

Lemma collect_ext cond cond' val val' :
  (∀ p, p ∈ props → cond p = cond' p) → (∀ p, p ∈ props → cond p = true → val p = val' p) →
  collect cond val = collect cond' val'.
Proof.
  intros Hc Hv. apply foldl_ext'. intros acc i. unfold collectStep. destruct (props !! i) as [p|] eqn:Hp; [|done].
  apply list_elem_of_lookup_2 in Hp. rewrite <- (Hc p Hp). destruct (cond p) eqn:E; [by rewrite Hv|done].
Qed.

(** ** Filling in *)

(** The values with their defaults of the properties that are shown *)
Definition fillWith (o : list (string * json)) (shown : INodeProperties → bool) : list (string * json) :=
  collect shown (λ p, filled p (obj_get (prop_name p) o)).

Section visits.
Context (o : list (string * json)) (opts : GetNodeParametersOptions) (check : option json) (none : bool).
Context (rec : list INodeProperties → option json → GetNodeParametersOptions → res json).
Context (Hparent : parentType opts = None).
Context (shown : INodeProperties → bool).
(** Whether a property is shown does not depend on what was collected. *)
Context (Hshown : ∀ p full, p ∈ props →
  (if none then Ok true else isDisplayed L node desc opts check p full) = Ok (shown p)).

Lemma fill_visit params full i p :
  props !! i = Some p →
  visitProperty L node desc props (JObj o) true none opts check rec (Going params full) i =
    Ok (if shown p
        then Going (obj_set (prop_name p) (filled p (obj_get (prop_name p) o)) params)
                   (obj_set (prop_name p) (filled p (obj_get (prop_name p) o)) full)
        else Going params full).
Proof.
  intros Hp. unfold visitProperty. rewrite Hp. simpl. rewrite Hparent, andb_false_r. simpl.
  pose proof (list_elem_of_lookup_2 _ _ _ Hp) as Hin. rewrite Hshown by done. simpl. destruct (shown p); [|done]. simpl.
  rewrite Hsimple by done. simpl. unfold simpleProperty.
  rewrite duplicateParameterNames_nil, bool_decide_false by (done || apply not_elem_of_nil). simpl.
  by rewrite dropExpression_filled.
Qed.

Lemma fill_loop_from idxs acc :
  let step := collectStep shown (λ p, filled p (obj_get (prop_name p) o)) in
  (∀ i, i ∈ idxs → is_Some (props !! i)) →
  foldM (visitProperty L node desc props (JObj o) true none opts check rec) (Going acc acc) idxs =
    Ok (Going (foldl step acc idxs) (foldl step acc idxs)).
Proof.
  intros step. revert acc. induction idxs as [|i idxs IH]; intros acc Hall; [done|]. destruct (Hall i) as [p Hp]; [by left|].
  cbn [foldM foldl]. rewrite (fill_visit _ _ _ _ Hp). unfold step at 2 4, collectStep. rewrite Hp.
  destruct (shown p); apply IH; intros; apply Hall; by right.
Qed.

Lemma fill_loop :
  foldM (visitProperty L node desc props (JObj o) true none opts check rec) (Going [] []) order =
    Ok (Going (fillWith o shown) (fillWith o shown)).
Proof. apply fill_loop_from. intros i. by apply order_lookup. Qed.

(** ** Leaving out *)

(** The properties that are shown and whose value is not the default *)
Definition kept (p : INodeProperties) : bool :=
  shown p && match obj_get (prop_name p) o with Some v => keepValue L p None (Some v) | None => false end.

Definition given (p : INodeProperties) : json := default JNull (obj_get (prop_name p) o).

Lemma strip_visit params full i p :
  props !! i = Some p → (kept p = false → obj_get (prop_name p) params = None) →
  visitProperty L node desc props (JObj o) false none opts check rec (Going params full) i =
    Ok (if kept p then Going (obj_set (prop_name p) (given p) params) (obj_set (prop_name p) (given p) full)
        else Going params full).
Proof.
  intros Hp Hparams. unfold kept, given in *. unfold visitProperty. rewrite Hp. simpl. rewrite andb_true_r.
  destruct (obj_get (prop_name p) o) as [v|] eqn:Hv; simpl; [|by rewrite andb_false_r].
  pose proof (list_elem_of_lookup_2 _ _ _ Hp) as Hin. rewrite Hshown by done. simpl.
  destruct (shown p); simpl in *; [|done]. rewrite Hsimple by done. simpl. unfold simpleProperty.
  rewrite duplicateParameterNames_nil, bool_decide_false by (done || apply not_elem_of_nil). simpl. rewrite Hparent.
  destruct (keepValue L p None (Some v)); simpl; [by rewrite deepCopy_id|]. unfold dropExpression. by rewrite Hparams.
Qed.

Lemma strip_loop_from idxs params full :
  (∀ i, i ∈ idxs → is_Some (props !! i)) → (∀ p, p ∈ props → kept p = false → obj_get (prop_name p) params = None) →
  ∃ full', foldM (visitProperty L node desc props (JObj o) false none opts check rec) (Going params full) idxs =
    Ok (Going (foldl (collectStep kept given) params idxs) full').
Proof.
  revert params full. induction idxs as [|i idxs IH]; intros params full Hall Hparams; [by exists full|].
  destruct (Hall i) as [p Hp]; [by left|]. pose proof (list_elem_of_lookup_2 _ _ _ Hp) as Hin.
  cbn [foldM foldl]. rewrite (strip_visit _ _ _ _ Hp) by auto.
  unfold collectStep at 2. rewrite Hp. destruct (kept p) eqn:Hk; cbn [mbind res_bind].
  - apply IH; [intros; apply Hall; by right|]. intros q Hq Hkq. rewrite obj_get_set_ne; [by apply Hparams|].
    intros Hn. apply list_elem_of_lookup_1 in Hq as [j Hj]. assert (j = i) as -> by by eapply same_name. congruence.
  - apply IH; [intros; apply Hall; by right|done].
Qed.

Lemma strip_loop :
  ∃ full, foldM (visitProperty L node desc props (JObj o) false none opts check rec) (Going [] []) order =
    Ok (Going (collect kept given) full).
Proof. apply strip_loop_from; [intros i; by apply order_lookup|done]. Qed.
End visits.

(** ** The results *)

(** All properties with their values or defaults, which the display rules look at *)
Definition fullValues (o : list (string * json)) : list (string * json) := fillWith o (λ _, true).

Definition display (o : list (string * json)) (p : INodeProperties) : res bool :=
  displayParameter L (JObj (fullValues o)) (prop_displayOptions p) node desc (Some (JObj (fullValues o))).

(** [shown] tells which properties are displayed; with [none], all of them. *)
Definition shows (none : bool) (o : list (string * json)) (shown : INodeProperties → bool) : Prop :=
  ∀ p, p ∈ props → (if none then Ok true else display o p) = Ok (shown p).

Lemma check_result fuel o deps :
  deps = getParameterDependencies props →
  getNodeParameters (S fuel) L node desc true true props (Some (JObj o))
    {| onlySimpleTypes := true; dataIsResolved := true; nodeValuesRoot := None; parentType := None;
       parameterDependencies := Some deps |} = Ok (JObj (fullValues o)).
Proof.
  intros ->. cbn -[getParameterResolveOrder]. rewrite Horder. cbn [mbind res_bind].
  by rewrite (fill_loop o _ _ true _) with (shown := λ _, true).
Qed.

(** The values that the display rules look at, as the function computes them *)
Definition checkOf (none : bool) (o : list (string * json)) : option json :=
  if none then None else Some (JObj (fullValues o)).

Lemma call_eq fuel d none o :
  getNodeParameters (S (S fuel)) L node desc d none props (Some (JObj o)) noOptions =
    (st ← foldM (visitProperty L node desc props (JObj o) d none noOptions (checkOf none o)
                   (getNodeParameters (S fuel) L node desc d none)) (Going [] []) order;
     Ok (finish st)).
Proof.
  remember (S fuel) as fuel'. cbn -[getParameterResolveOrder foldM visitProperty]. subst fuel'. unfold checkOf.
  destruct none; cbn [negb]; [|rewrite check_result by done]; cbn [mbind res_bind fmap res_fmap]; by rewrite Horder.
Qed.

Lemma shows_displayed none o shown p full :
  shows none o shown → p ∈ props →
  (if none then Ok true else isDisplayed L node desc noOptions (checkOf none o) p full) = Ok (shown p).
Proof. intros Hs Hp. specialize (Hs p Hp). by destruct none. Qed.

Lemma fill_result fuel none o shown :
  shows none o shown →
  getNodeParameters (S (S fuel)) L node desc true none props (Some (JObj o)) noOptions = Ok (JObj (fillWith o shown)).
Proof.
  intros Hs. rewrite call_eq. erewrite fill_loop; [done|done|]. intros p full Hp. by apply shows_displayed.
Qed.

Lemma strip_result fuel none o shown :
  shows none o shown →
  getNodeParameters (S (S fuel)) L node desc false none props (Some (JObj o)) noOptions =
    Ok (JObj (collect (kept o shown) (given o))).
Proof.
  intros Hs. rewrite call_eq. edestruct strip_loop as [full ->]; [done| |done].
  intros p full Hp. by apply shows_displayed.
Qed.
End simple.

(** ** Theorems *)

(** The default of a locator or a filter is complete, so that it is not changed when it is a value. *)
Definition completeDefault (p : INodeProperties) : Prop :=
  (prop_type p = "resourceLocator" → typeofObject (Some (prop_default p)) = true →
     prop_default p = JObj (spread [("__rl", JBool true)] (Some (prop_default p)))) ∧
  (prop_type p = "filter" → completeFilter (prop_default p) = prop_default p).

Lemma filled_default p : completeDefault p → filled p (Some (prop_default p)) = filled p None.
Proof.
  intros [Hrl Hf]. unfold filled. enough (fillValue p (Some (prop_default p)) = fillValue p None) as -> by done.
  unfold fillValue. destruct (bool_decide (prop_type p ∈ _)); cbn [from_option]; [by rewrite deepCopy_id|].
  destruct (bool_decide_reflect (prop_type p = "resourceLocator" ∧ typeofObject (Some (prop_default p)) = true)) as [[Ht Ho]|Hno].
  { rewrite bool_decide_true, Ho by done. cbn. rewrite deepCopy_id. auto. }
  assert (bool_decide (prop_type p = "resourceLocator") && typeofObject (Some (prop_default p)) = false) as ->.
  { apply not_true_is_false. rewrite andb_true_iff, bool_decide_eq_true. done. }
  change (typeofObject None) with false. rewrite andb_false_r. cbn [andb].
  destruct (bool_decide_reflect (prop_type p = "filter")) as [Ht|_]; cbn [andb].
  2: { rewrite deepCopy_id. by destruct (prop_default p). }
  destruct (typeofObject (Some (prop_default p)) && bool_decide (Some (prop_default p) ≠ Some JNull)) eqn:Ho;
    cbn; rewrite deepCopy_id; [by apply Hf|by destruct (prop_default p)].
Qed.

Section theorems.
Context (L : libraries) (node : option spec_float) (desc : option INodeTypeDescription).

(** with their defaults, simple properties with different names have the values that were given or
    else their defaults; the values that the display rules look at are those of all properties, and the
    result has exactly the properties that the rules show (all of them, if hidden ones are asked for). *)
Theorem fill_simple_spec fuel none props o order shown :
  2 ≤ fuel → (∀ p, p ∈ props → isComplex p = false) → NoDup (prop_name <$> props) →
  getParameterResolveOrder props (getParameterDependencies props) = Ok order →
  shows L node desc props order none o shown →
  (∀ p, p ∈ props → obj_get (prop_name p) (fullValues props order o) = Some (filled p (obj_get (prop_name p) o))) ∧
  ∃ r, getNodeParameters fuel L node desc true none props (Some (JObj o)) noOptions = Ok (JObj r) ∧
    (∀ p, p ∈ props →
       obj_get (prop_name p) r = if shown p then Some (filled p (obj_get (prop_name p) o)) else None) ∧
    (∀ k, k ∈ r.*1 → k ∈ prop_name <$> props).
Proof.
  intros Hf Hsimple Hnd Horder Hs. destruct fuel as [|[|fuel]]; [lia..|].
  split; [intros p Hp; by apply (collect_get props Hnd order Horder)|].
  eexists. split; [by eapply fill_result|]. split.
  - intros p Hp. by apply (collect_get props Hnd order Horder).
  - intros k (p & Hp & _ & <-)%collect_keys. by apply list_elem_of_fmap_2.
Qed.

(** The comparisons that a value can pass to count as the default *)
Definition sameAsDefault (p : INodeProperties) (v : json) : bool :=
  strictEquals (Some v) (Some (prop_default p)) || lodash_isEqual L (Some v) (Some (prop_default p)).

Lemma dropped_sameAsDefault p v : keepValue L p None (Some v) = false → sameAsDefault p v = true.
Proof.
  unfold keepValue, sameAsDefault. rewrite (bool_decide_false (None = Some "collection")), andb_false_r, orb_false_r by done.
  destruct (strictEquals _ _), (typeofObject (Some v)), (lodash_isEqual L _ _); done.
Qed.

(** C26: leaving out the defaults of simple properties with different names and filling them in again gives
    the same parameters as filling them in at once, if the order of the properties can be resolved and their display
    conditions can be evaluated, if the defaults of resource locators and filters are complete, if a value that
    counts as the default is written as the default, and if the values of hidden parameters are their
    defaults or hidden ones are kept. *)
Theorem strip_fill_roundtrip fuel none props o order shown :
  2 ≤ fuel → (∀ p, p ∈ props → isComplex p = false) → NoDup (prop_name <$> props) →
  getParameterResolveOrder props (getParameterDependencies props) = Ok order →
  shows L node desc props order none o shown →
  (∀ p, p ∈ props → completeDefault p) →
  (∀ p v, p ∈ props → obj_get (prop_name p) o = Some v →
     sameAsDefault p v = true ∨ shown p = false → v = prop_default p) →
  ∃ s r, getNodeParameters fuel L node desc false none props (Some (JObj o)) noOptions = Ok (JObj s) ∧
    getNodeParameters fuel L node desc true none props (Some (JObj s)) noOptions = Ok r ∧
    getNodeParameters fuel L node desc true none props (Some (JObj o)) noOptions = Ok r.
Proof.
  intros Hf Hsimple Hnd Horder Hs Hcomplete Hcanon. destruct fuel as [|[|fuel]]; [lia..|].
  set (s := collect props order (kept L o shown) (given o)). exists s, (JObj (fillWith props order o shown)).
  split; [by apply strip_result|]. split; [|by apply fill_result].
  assert (∀ p, p ∈ props → filled p (obj_get (prop_name p) s) = filled p (obj_get (prop_name p) o)) as Hfilled.
  { intros p Hp. unfold s. rewrite (collect_get props Hnd order Horder) by done. unfold kept, given.
    destruct (obj_get (prop_name p) o) as [v|] eqn:Hv; simpl; [|by rewrite andb_false_r].
    destruct (shown p && keepValue L p None (Some v)) eqn:Hk; [done|].
    assert (v = prop_default p) as -> by (eapply Hcanon; [done..|]; destruct (shown p); auto using dropped_sameAsDefault).
    symmetry. by apply filled_default, Hcomplete. }
  assert (fullValues props order s = fullValues props order o) as Hfull by (apply collect_ext; auto).
  assert (fillWith props order o shown = fillWith props order s shown) as -> by (apply collect_ext; auto using eq_sym).
  apply fill_result; [done..|]. intros p Hp. specialize (Hs p Hp). unfold display in *. by rewrite Hfull.
Qed.
End theorems.

(** ** Examples *)

(** Resource "user" is the default; the mail address is shown for users only. *)
Definition resourceProperty : INodeProperties :=
  {| prop_name := "resource"; prop_type := "options"; prop_default := JStr "user"; prop_displayOptions := None;
     prop_multipleValues := None; prop_noDataExpression := true; prop_options := None; prop_values := None; prop_checks := noChecks |}.

Definition mailProperty : INodeProperties :=
  {| prop_name := "mail"; prop_type := "string"; prop_default := JStr "";
     prop_displayOptions := Some [("show", [("resource", [JStr "user"])])];
     prop_multipleValues := None; prop_noDataExpression := false; prop_options := None; prop_values := None; prop_checks := noChecks |}.

Definition exampleProperties : list INodeProperties := [mailProperty; resourceProperty].

Lemma exampleProperties_simple p : p ∈ exampleProperties → isComplex p = false.
Proof. unfold exampleProperties. rewrite !elem_of_cons. intros [->|[->|[]%elem_of_nil]]; reflexivity. Qed.

Lemma exampleProperties_names : NoDup (prop_name <$> exampleProperties).
Proof. by apply (bool_decide_unpack _). Qed.

Lemma fill_simple_spec_witness :
  ∃ r, getNodeParameters 2 testLibraries None None true false exampleProperties (Some (JObj [])) noOptions = Ok (JObj r) ∧
    obj_get "mail" r = Some (JStr "").
Proof.
  destruct (fill_simple_spec testLibraries None None 2 false exampleProperties [] [0; 1; 0] (λ _, true)) as [_ (r & Hr & Hp & _)];
    [lia|apply exampleProperties_simple|apply exampleProperties_names|reflexivity|..].
  - intros p. unfold exampleProperties. rewrite !elem_of_cons. intros [->|[->|[]%elem_of_nil]]; reflexivity.
  - exists r. split; [exact Hr|]. apply (Hp mailProperty). by left.
Defined.

Lemma strip_fill_roundtrip_witness :
  let o := [("mail", JStr "a@b"); ("resource", JStr "user")] in
  ∃ s r, getNodeParameters 2 testLibraries None None false false exampleProperties (Some (JObj o)) noOptions = Ok (JObj s) ∧
    getNodeParameters 2 testLibraries None None true false exampleProperties (Some (JObj s)) noOptions = Ok r ∧
    getNodeParameters 2 testLibraries None None true false exampleProperties (Some (JObj o)) noOptions = Ok r.
Proof.
  intros o. apply (strip_fill_roundtrip testLibraries None None 2 false exampleProperties o [0; 1; 0] (λ _, true));
    [lia|apply exampleProperties_simple|apply exampleProperties_names|reflexivity|..].
  - intros p. unfold exampleProperties. rewrite !elem_of_cons. intros [->|[->|[]%elem_of_nil]]; reflexivity.
  - intros p. unfold exampleProperties. rewrite !elem_of_cons. intros [->|[->|[]%elem_of_nil]]; by split.
  - intros p v. unfold exampleProperties. rewrite !elem_of_cons.
    intros [->|[->|[]%elem_of_nil]] [= <-] [Hk|?]; done.
Defined.

(** A hidden parameter still counts for the rules of others until its value is left out: the mode is
    hidden for groups, the mail address is shown in the advanced mode. *)
Definition modeProperty : INodeProperties :=
  {| prop_name := "mode"; prop_type := "options"; prop_default := JStr "simple";
     prop_displayOptions := Some [("show", [("resource", [JStr "user"])])];
     prop_multipleValues := None; prop_noDataExpression := true; prop_options := None; prop_values := None; prop_checks := noChecks |}.

Definition advancedMail : INodeProperties :=
  {| prop_name := "mail"; prop_type := "string"; prop_default := JStr "";
     prop_displayOptions := Some [("show", [("mode", [JStr "advanced"])])];
     prop_multipleValues := None; prop_noDataExpression := false; prop_options := None; prop_values := None; prop_checks := noChecks |}.

Lemma hidden_value_lost :
  let props := [resourceProperty; modeProperty; advancedMail] in
  let o := JObj [("resource", JStr "group"); ("mode", JStr "advanced"); ("mail", JStr "a@b")] in
  let fill v := getNodeParameters 2 testLibraries None None true false props (Some v) noOptions in
  let strip v := getNodeParameters 2 testLibraries None None false false props (Some v) noOptions in
  fill o = Ok (JObj [("resource", JStr "group"); ("mail", JStr "a@b")]) ∧
  (s ← strip o; fill s) = Ok (JObj [("resource", JStr "group")]).
Proof. split; vm_compute; reflexivity. Qed.

Definition collectionOf (name : string) (multiple : option bool) (def : json) (options : list INodeProperties) : INodeProperties :=
  {| prop_name := name; prop_type := "fixedCollection"; prop_default := def; prop_displayOptions := None;
     prop_multipleValues := multiple; prop_noDataExpression := false; prop_options := Some options; prop_values := None; prop_checks := noChecks |}.

Definition optionOf (name : string) (values : list INodeProperties) : INodeProperties :=
  {| prop_name := name; prop_type := ""; prop_default := JNull; prop_displayOptions := None;
     prop_multipleValues := None; prop_noDataExpression := false; prop_options := None; prop_values := Some values; prop_checks := noChecks |}.

(** An empty collection makes the call return all values of the node, defaults and hidden ones too. *)
Lemma empty_collection_returns_everything :
  let props := [collectionOf "extra" (Some false) (JObj []) []; resourceProperty; modeProperty] in
  let o := JObj [("extra", JObj []); ("resource", JStr "user"); ("mode", JStr "simple"); ("unknown", JStr "x")] in
  getNodeParameters 3 testLibraries None None false false props (Some o) noOptions = Ok o.
Proof. vm_compute. reflexivity. Qed.

(** A collection with one value and a default that is not empty cannot be filled in. *)
Lemma collection_default_throws :
  let props := [collectionOf "extra" (Some false) (JObj [("user", JObj [])]) [optionOf "user" [mailProperty]]] in
  getNodeParameters 4 testLibraries None None true true props (Some (JObj [])) noOptions = Throw TypeError.
Proof. vm_compute. reflexivity. Qed.

(** A filter that equals its incomplete default loses its completion when the default is left out. *)
Definition filterProperty : INodeProperties :=
  {| prop_name := "filter"; prop_type := "filter"; prop_default := JObj []; prop_displayOptions := None;
     prop_multipleValues := None; prop_noDataExpression := false; prop_options := None; prop_values := None; prop_checks := noChecks |}.

Lemma filter_completion_lost :
  let fill v := getNodeParameters 2 testLibraries None None true true [filterProperty] (Some v) noOptions in
  let strip v := getNodeParameters 2 testLibraries None None false true [filterProperty] (Some v) noOptions in
  fill (JObj [("filter", JObj [])]) =
    Ok (JObj [("filter", JObj [("combinator", JStr "and"); ("options", JObj defaultOptions)])]) ∧
  (s ← strip (JObj [("filter", JObj [])]); fill s) = Ok (JObj [("filter", JObj [])]).
Proof. split; vm_compute; reflexivity. Qed.

(** An expression shows a parameter at once, so the order of the rules decides: rules that were looked
    at before can hide it, later ones cannot. *)
Lemma expression_skips_rules :
  let values := JObj [("a", JStr "=expression"); ("b", JStr "no")] in
  let a := ("a", [JStr "yes"]) in
  let b := ("b", [JStr "yes"]) in
  displayParameter testLibraries values (Some [("show", [a; b])]) None None None = Ok true ∧
  displayParameter testLibraries values (Some [("show", [b; a])]) None None None = Ok false ∧
  displayParameter testLibraries values (Some [("show", [a]); ("hide", [("b", [JStr "no"])])]) None None None = Ok true.
Proof. split_and!; vm_compute; reflexivity. Qed.
