(* ===== verification/TaskRunner.v ===== *)
(** * The task runner

    Model of [packages/@n8n/task-runner/src/task-runner.ts] and [task-state.ts]: the process that
    executes the tasks that the broker of [TaskBroker.v] hands out.  It offers to execute as many
    tasks as it has room for, accepts tasks, executes them and answers.

    Messages are those of the broker.  [nanoid] gives a new number, written as a string.  Task
    states are objects that the running task and the callbacks of its execution share: they live in
    a list and are named by their index.  [executeTask] is code of the subclass: an execution is in
    progress until it resolves or rejects, and it can ask for data, node types and remote calls in
    the meantime.  Promises of such requests are settled before the code behind them removes the
    entry.  Times are nanoseconds, [randomInt(500)] is a parameter. *)

From S2P Require Import Prelude JsCollections TaskBroker.

(** ** [TaskState] *)

Inductive TaskStatus := WaitingForSettings | Running | AbortingCancelled | AbortingTimeout.

#[global] Instance TaskStatus_eq_dec : EqDecision TaskStatus.
Proof. solve_decision. Defined.

(** [ts_timer]: the timeout timer is pending; [ts_aborted]: the reason of the abort signal *)
Record TaskState := {
  ts_taskId : nat;
  ts_status : TaskStatus;
  ts_timer : bool;
  ts_aborted : option string;
}.

Definition newTaskState (taskId : nat) : TaskState :=
  {| ts_taskId := taskId; ts_status := WaitingForSettings; ts_timer := true; ts_aborted := None |}.

Definition withStatus (status : TaskStatus) (t : TaskState) : TaskState :=
  {| ts_taskId := ts_taskId t; ts_status := status; ts_timer := ts_timer t; ts_aborted := ts_aborted t |}.

Definition cleanup (t : TaskState) : TaskState :=
  {| ts_taskId := ts_taskId t; ts_status := ts_status t; ts_timer := false; ts_aborted := ts_aborted t |}.

(** [taskState.status = ...; taskState.abortController.abort(reason)] *)
Definition abort (status : TaskStatus) (reason : string) (t : TaskState) : TaskState :=
  {| ts_taskId := ts_taskId t; ts_status := status; ts_timer := ts_timer t; ts_aborted := Some reason |}.

(** ** The state of the runner *)

(** How a promise was settled *)
Inductive settlement := Pending | Resolved (data : string) | Rejected (reason : string).

(** A request of a task; [rc_taskId] is absent for remote calls. *)
Record RunnerCall := {
  rc_taskId : option nat;
  rc_settled : settlement;
}.

Definition settle (s : settlement) (c : RunnerCall) : RunnerCall :=
  match rc_settled c with
  | Pending => {| rc_taskId := rc_taskId c; rc_settled := s |}
  | _ => c
  end.

(** [executions]: the task states whose execution is in progress; [idleTimeouts] counts the events
    [runner:reached-idle-timeout]; [failed] tells that a task had an unexpected status. *)
Record Runner := {
  canSendOffers : bool;
  offerInterval : bool;
  openOffers : jsmap string Z;
  runningTasks : jsmap nat nat;
  states : list TaskState;
  executions : list nat;
  dataRequests : jsmap string RunnerCall;
  nodeTypesRequests : jsmap string RunnerCall;
  rpcCalls : jsmap string RunnerCall;
  isShuttingDown : bool;
  idleTimer : bool;
  idleTimeouts : nat;
  now : Z;
  nextId : nat;
  sent : list FromRunner;
  failed : bool;
}.

Definition setOffering (can interval : bool) (r : Runner) : Runner :=
  {| canSendOffers := can; offerInterval := interval; openOffers := openOffers r; runningTasks := runningTasks r;
     states := states r; executions := executions r; dataRequests := dataRequests r;
     nodeTypesRequests := nodeTypesRequests r; rpcCalls := rpcCalls r; isShuttingDown := isShuttingDown r;
     idleTimer := idleTimer r; idleTimeouts := idleTimeouts r; now := now r; nextId := nextId r; sent := sent r;
     failed := failed r |}.

Definition setOpenOffers (x : jsmap string Z) (r : Runner) : Runner :=
  {| canSendOffers := canSendOffers r; offerInterval := offerInterval r; openOffers := x; runningTasks := runningTasks r;
     states := states r; executions := executions r; dataRequests := dataRequests r;
     nodeTypesRequests := nodeTypesRequests r; rpcCalls := rpcCalls r; isShuttingDown := isShuttingDown r;
     idleTimer := idleTimer r; idleTimeouts := idleTimeouts r; now := now r; nextId := nextId r; sent := sent r;
     failed := failed r |}.

(** The tasks: which are running, their states, and the executions *)
Definition setTasks (running : jsmap nat nat) (ts : list TaskState) (exs : list nat) (r : Runner) : Runner :=
  {| canSendOffers := canSendOffers r; offerInterval := offerInterval r; openOffers := openOffers r;
     runningTasks := running; states := ts; executions := exs; dataRequests := dataRequests r;
     nodeTypesRequests := nodeTypesRequests r; rpcCalls := rpcCalls r; isShuttingDown := isShuttingDown r;
     idleTimer := idleTimer r; idleTimeouts := idleTimeouts r; now := now r; nextId := nextId r; sent := sent r;
     failed := failed r |}.

(** The requests that tasks make *)
Definition setCalls (data types rpc : jsmap string RunnerCall) (r : Runner) : Runner :=
  {| canSendOffers := canSendOffers r; offerInterval := offerInterval r; openOffers := openOffers r;
     runningTasks := runningTasks r; states := states r; executions := executions r; dataRequests := data;
     nodeTypesRequests := types; rpcCalls := rpc; isShuttingDown := isShuttingDown r;
     idleTimer := idleTimer r; idleTimeouts := idleTimeouts r; now := now r; nextId := nextId r; sent := sent r;
     failed := failed r |}.

Definition setIdle (timer : bool) (events : nat) (r : Runner) : Runner :=
  {| canSendOffers := canSendOffers r; offerInterval := offerInterval r; openOffers := openOffers r;
     runningTasks := runningTasks r; states := states r; executions := executions r; dataRequests := dataRequests r;
     nodeTypesRequests := nodeTypesRequests r; rpcCalls := rpcCalls r; isShuttingDown := isShuttingDown r;
     idleTimer := timer; idleTimeouts := events; now := now r; nextId := nextId r; sent := sent r; failed := failed r |}.

Definition setShuttingDown (r : Runner) : Runner :=
  {| canSendOffers := canSendOffers r; offerInterval := offerInterval r; openOffers := openOffers r;
     runningTasks := runningTasks r; states := states r; executions := executions r; dataRequests := dataRequests r;
     nodeTypesRequests := nodeTypesRequests r; rpcCalls := rpcCalls r; isShuttingDown := true;
     idleTimer := idleTimer r; idleTimeouts := idleTimeouts r; now := now r; nextId := nextId r; sent := sent r;
     failed := failed r |}.

(** The clock, the last id and whether an assertion failed *)
Definition setEnv (t : Z) (id : nat) (fail : bool) (r : Runner) : Runner :=
  {| canSendOffers := canSendOffers r; offerInterval := offerInterval r; openOffers := openOffers r;
     runningTasks := runningTasks r; states := states r; executions := executions r; dataRequests := dataRequests r;
     nodeTypesRequests := nodeTypesRequests r; rpcCalls := rpcCalls r; isShuttingDown := isShuttingDown r;
     idleTimer := idleTimer r; idleTimeouts := idleTimeouts r; now := t; nextId := id; sent := sent r; failed := fail |}.

Definition send (m : FromRunner) (r : Runner) : Runner :=
  {| canSendOffers := canSendOffers r; offerInterval := offerInterval r; openOffers := openOffers r;
     runningTasks := runningTasks r; states := states r; executions := executions r; dataRequests := dataRequests r;
     nodeTypesRequests := nodeTypesRequests r; rpcCalls := rpcCalls r; isShuttingDown := isShuttingDown r;
     idleTimer := idleTimer r; idleTimeouts := idleTimeouts r; now := now r; nextId := nextId r; sent := sent r ++ [m];
     failed := failed r |}.

(** [throwUnexpectedTaskStatus] *)
Definition throwUnexpectedTaskStatus (r : Runner) : Runner := setEnv (now r) (nextId r) true r.

Definition updateState (ref : nat) (f : TaskState → TaskState) (r : Runner) : Runner :=
  setTasks (runningTasks r) (alter f ref (states r)) (executions r) r.

Section runner.
Context (maxConcurrency : nat) (taskType : string) (idleTimeout : nat) (randomInt500 : nat → Z).

(** ** Offers *)

Definition OFFER_VALID_TIME_MS : Z := 5000.
Definition OFFER_VALID_EXTRA_MS : Z := 100.
Definition msToNs (ms : Z) : Z := (ms * 1000000)%Z.

Definition clearIdleTimer (r : Runner) : Runner := setIdle false (idleTimeouts r) r.

Definition resetIdleTimer (r : Runner) : Runner :=
  if bool_decide (idleTimeout = 0) then r else setIdle true (idleTimeouts r) r.

(** The callback of the idle timer *)
Definition idleTimerFires (r : Runner) : Runner :=
  if idleTimer r then
    setIdle false (if bool_decide (length (runningTasks r) = 0) then S (idleTimeouts r) else idleTimeouts r) r
  else r.

Definition stopTaskOffers (r : Runner) : Runner := setOffering false false r.
Definition startTaskOffers (r : Runner) : Runner := setOffering true true r.

Definition deleteStaleOffers (r : Runner) : Runner :=
  setOpenOffers (filter (λ offer, ¬ (offer.2 < now r)%Z) (openOffers r)) r.

Definition sendOffer (r : Runner) : Runner :=
  let validForInMs := (OFFER_VALID_TIME_MS + randomInt500 (nextId r))%Z in
  let validUntil := (now r + msToNs (validForInMs + OFFER_VALID_EXTRA_MS))%Z in
  let offerId := pretty (nextId r) in
  let r := setEnv (now r) (S (nextId r)) (failed r) r in
  send (RunnerTaskOffer offerId taskType validForInMs) (setOpenOffers (map_set offerId validUntil (openOffers r)) r).

Definition sendOffers (r : Runner) : Runner :=
  let r := deleteStaleOffers r in
  if negb (canSendOffers r) then r
  else Nat.iter (maxConcurrency - (length (openOffers r) + length (runningTasks r))) sendOffer r.

(** ** Tasks *)

Definition hasOpenTaskSlots (r : Runner) : bool := bool_decide (length (runningTasks r) < maxConcurrency).

Definition offerAccepted (offerId : string) (taskId : nat) (r : Runner) : Runner :=
  if isShuttingDown r then send (RunnerTaskRejected taskId "Runner is shutting down") r
  else if negb (hasOpenTaskSlots r) then
    send (RunnerTaskRejected taskId "No open task slots - runner already at capacity")
      (setOpenOffers (map_delete offerId (openOffers r)) r)
  else
    match map_get offerId (openOffers r) with
    | None => send (RunnerTaskRejected taskId "Offer expired - not accepted within validity window") r
    | Some _ =>
        let r := resetIdleTimer (setOpenOffers (map_delete offerId (openOffers r)) r) in
        let ref := length (states r) in
        let r := setTasks (map_set taskId ref (runningTasks r)) (states r ++ [newTaskState taskId]) (executions r) r in
        send (RunnerTaskAccepted taskId) r
    end.

Definition finishTask (ref : nat) (r : Runner) : Runner :=
  match states r !! ref with
  | None => r
  | Some t =>
      let r := updateState ref cleanup r in
      let r := setTasks (map_delete (ts_taskId t) (runningTasks r)) (states r) (executions r) r in
      resetIdleTimer (sendOffers r)
  end.

(** [cancelTaskRequests], for one kind of requests *)
Definition cancelCalls (taskId : nat) (calls : jsmap string RunnerCall) : jsmap string RunnerCall :=
  filter (λ c, rc_taskId c.2 ≠ Some taskId) calls.

Definition cancelTaskRequests (taskId : nat) (r : Runner) : Runner :=
  setCalls (cancelCalls taskId (dataRequests r)) (cancelCalls taskId (nodeTypesRequests r)) (rpcCalls r) r.

(** The state of a running task *)
Definition taskOf (taskId : nat) (r : Runner) : option (nat * TaskState) :=
  ref ← map_get taskId (runningTasks r); t ← states r !! ref; Some (ref, t).

Definition taskCancelled (taskId : nat) (reason : string) (r : Runner) : Runner :=
  match taskOf taskId r with
  | None => r
  | Some (ref, t) =>
      match ts_status t with
      | WaitingForSettings => finishTask ref r
      | AbortingTimeout | AbortingCancelled => r
      | Running => cancelTaskRequests taskId (updateState ref (abort AbortingCancelled "cancelled") r)
      end
  end.

Definition taskTimedOut (taskId : nat) (r : Runner) : Runner :=
  match taskOf taskId r with
  | None => r
  | Some (ref, t) =>
      match ts_status t with
      | WaitingForSettings => finishTask ref (send (RunnerTaskError taskId "timeout") r)
      | AbortingTimeout => throwUnexpectedTaskStatus r
      | Running => cancelTaskRequests taskId (updateState ref (abort AbortingTimeout "timeout") r)
      | AbortingCancelled => r
      end
  end.

(** The timer of a task state fires, once. *)
Definition taskTimerFires (ref : nat) (r : Runner) : Runner :=
  match states r !! ref with
  | Some t => if ts_timer t then taskTimedOut (ts_taskId t) (updateState ref cleanup r) else r
  | None => r
  end.

(** [receivedSettings], up to the await of the execution *)
Definition receivedSettings (taskId : nat) (settings : string) (r : Runner) : Runner :=
  match taskOf taskId r with
  | None => r
  | Some (ref, t) =>
      match ts_status t with
      | WaitingForSettings =>
          let r := updateState ref (withStatus Running) r in
          setTasks (runningTasks r) (states r) (executions r ++ [ref]) r
      | _ => throwUnexpectedTaskStatus r
      end
  end.

Definition taskExecutionFailed (ref : nat) (error : string) (r : Runner) : Runner :=
  match states r !! ref with
  | None => r
  | Some t =>
      let r :=
        match ts_status t with
        | WaitingForSettings => throwUnexpectedTaskStatus r
        | AbortingCancelled => r
        | AbortingTimeout | Running => send (RunnerTaskError (ts_taskId t) error) r
        end in
      finishTask ref r
  end.

(** Data that cannot be written as JSON makes [send] throw; the handler of the failure is then called,
    after the task was finished. *)
Definition taskExecutionSucceeded (ref : nat) (data : string) (serializable : bool) (r : Runner) : Runner :=
  match states r !! ref with
  | None => r
  | Some t =>
      match ts_status t with
      | WaitingForSettings => taskExecutionFailed ref "Unexpected task status" (finishTask ref (throwUnexpectedTaskStatus r))
      | AbortingCancelled => finishTask ref r
      | AbortingTimeout | Running =>
          if serializable then finishTask ref (send (RunnerTaskDone (ts_taskId t) data) r)
          else taskExecutionFailed ref "cannot be serialized" (finishTask ref r)
      end
  end.

(** The rest of [receivedSettings]: the [k]-th execution in progress ends. *)
Definition executionEnds (k : nat) (result : (string * bool) + string) (r : Runner) : Runner :=
  match executions r !! k with
  | None => r
  | Some ref =>
      let r := setTasks (runningTasks r) (states r) (delete k (executions r)) r in
      match result with
      | inl (data, serializable) => taskExecutionSucceeded ref data serializable r
      | inr error => taskExecutionFailed ref error r
      end
  end.

(** ** Requests of tasks *)

Definition requestNodeTypes (taskId : nat) (params : string) (r : Runner) : Runner :=
  let id := pretty (nextId r) in
  let r := setEnv (now r) (S (nextId r)) (failed r) r in
  let call := {| rc_taskId := Some taskId; rc_settled := Pending |} in
  send (RunnerNodeTypesRequest taskId id params)
    (setCalls (dataRequests r) (map_set id call (nodeTypesRequests r)) (rpcCalls r) r).

Definition requestData (taskId : nat) (params : string) (r : Runner) : Runner :=
  let id := pretty (nextId r) in
  let r := setEnv (now r) (S (nextId r)) (failed r) r in
  let call := {| rc_taskId := Some taskId; rc_settled := Pending |} in
  send (RunnerTaskDataRequest taskId id params)
    (setCalls (map_set id call (dataRequests r)) (nodeTypesRequests r) (rpcCalls r) r).

Definition makeRpcCall (taskId : nat) (name params : string) (r : Runner) : Runner :=
  let id := pretty (nextId r) in
  let r := setEnv (now r) (S (nextId r)) (failed r) r in
  let call := {| rc_taskId := None; rc_settled := Pending |} in
  send (RunnerRpc taskId id name params)
    (setCalls (dataRequests r) (nodeTypesRequests r) (map_set id call (rpcCalls r)) r).

Definition settleCall (id : string) (s : settlement) (calls : jsmap string RunnerCall) : jsmap string RunnerCall :=
  match map_get id calls with Some c => map_set id (settle s c) calls | None => calls end.

Definition processDataResponse (requestId data : string) (r : Runner) : Runner :=
  setCalls (settleCall requestId (Resolved data) (dataRequests r)) (nodeTypesRequests r) (rpcCalls r) r.

Definition processNodeTypesResponse (requestId nodeTypes : string) (r : Runner) : Runner :=
  setCalls (dataRequests r) (settleCall requestId (Resolved nodeTypes) (nodeTypesRequests r)) (rpcCalls r) r.

Definition handleRpcResponse (callId status data : string) (r : Runner) : Runner :=
  let s := if bool_decide (status = "success") then Resolved data else Rejected data in
  setCalls (dataRequests r) (nodeTypesRequests r) (settleCall callId s (rpcCalls r)) r.

(** The [finally] of the requests: an entry whose promise was settled is removed. *)
Definition dropSettled (id : string) (calls : jsmap string RunnerCall) : jsmap string RunnerCall :=
  match map_get id calls with
  | Some {| rc_settled := Pending |} | None => calls
  | Some _ => map_delete id calls
  end.

Definition callReturns (id : string) (r : Runner) : Runner :=
  setCalls (dropSettled id (dataRequests r)) (dropSettled id (nodeTypesRequests r)) (dropSettled id (rpcCalls r)) r.

(** ** Messages and shutdown *)

Definition onMessage (message : ToRunner) (r : Runner) : Runner :=
  match message with
  | InfoRequest => send RunnerInfo r
  | RunnerRegistered => startTaskOffers r
  | TaskOfferAccept offerId taskId => offerAccepted offerId taskId r
  | TaskCancel taskId reason => taskCancelled taskId reason r
  | TaskSettings taskId settings => receivedSettings taskId settings r
  | TaskDataResponse _ requestId data => processDataResponse requestId data r
  | RpcResponse _ callId status data => handleRpcResponse callId status data r
  | NodeTypes _ requestId nodeTypes => processNodeTypesResponse requestId nodeTypes r
  | Drain => stopTaskOffers r
  end.

(** [stop], up to the wait for the running tasks *)
Definition stop (r : Runner) : Runner := setOpenOffers [] (stopTaskOffers (clearIdleTimer (setShuttingDown r))).

Definition newRunner : Runner :=
  resetIdleTimer
    {| canSendOffers := false; offerInterval := false; openOffers := []; runningTasks := []; states := [];
       executions := []; dataRequests := []; nodeTypesRequests := []; rpcCalls := []; isShuttingDown := false;
       idleTimer := false; idleTimeouts := 0; now := 0; nextId := 0; sent := []; failed := false |}.

(** What can happen to a runner: messages, timers, the progress of executions, its requests, shutdown *)
Inductive runnerEvent :=
  | Receive (message : ToRunner)
  | OfferInterval
  | TaskTimer (ref : nat)
  | IdleTimer
  | ExecutionEnds (k : nat) (result : (string * bool) + string)
  | RequestData (taskId : nat) (params : string)
  | RequestNodeTypes (taskId : nat) (params : string)
  | MakeRpcCall (taskId : nat) (name params : string)
  | CallReturns (id : string)
  | TimePasses (ns : nat)
  | ConnectionClosed
  | Stop.

Definition runnerStep (r : Runner) (e : runnerEvent) : Runner :=
  match e with
  | Receive message => onMessage message r
  | OfferInterval => if offerInterval r then sendOffers r else r
  | TaskTimer ref => taskTimerFires ref r
  | IdleTimer => idleTimerFires r
  | ExecutionEnds k result => executionEnds k result r
  | RequestData taskId params => requestData taskId params r
  | RequestNodeTypes taskId params => requestNodeTypes taskId params r
  | MakeRpcCall taskId name params => makeRpcCall taskId name params r
  | CallReturns id => callReturns id r
  | TimePasses ns => setEnv (now r + Z.of_nat ns) (nextId r) (failed r) r
  | ConnectionClosed => stopTaskOffers r
  | Stop => stop r
  end.

Definition runRunner (es : list runnerEvent) : Runner := foldl runnerStep newRunner es.
End runner.
