(* ===== verification/TaskRunnerSafety.v ===== *)
(** * Capacity and answers of the task runner

    Invariants of [TaskRunner.v] over every sequence of messages, timers and executions: the runner
    never promises more than it has room for, and it answers every task once. *)

From S2P Require Import Prelude JsCollections TaskBroker TaskRunner.

(** ** Capacity *)

Section capacity.
Context (maxConcurrency : nat) (taskType : string) (idleTimeout : nat) (randomInt500 : nat → Z).

Definition promised (r : Runner) : nat := length (openOffers r) + length (runningTasks r).

Lemma map_set_length {K V} `{EqDecision K} (k : K) (v : V) m : length (map_set k v m) ≤ S (length m).
Proof.
  unfold map_set. destruct (map_has k m); [|rewrite length_app; simpl; lia].
  rewrite <- (length_fmap fst), map_replace_keys, length_fmap. lia.
Qed.

Lemma map_delete_length {K V} `{EqDecision K} (k : K) (m : jsmap K V) : length (map_delete k m) ≤ length m.
Proof. apply length_filter. Qed.

Lemma map_delete_length_lt {K V} `{EqDecision K} (k : K) (v : V) m :
  map_get k m = Some v → length (map_delete k m) < length m.
Proof.
  intros Hk%map_get_elem_of. unfold map_delete. apply length_filter_lt with (k, v); [done|]. simpl. auto.
Qed.

Lemma sendOffer_promised r : promised (sendOffer taskType randomInt500 r) ≤ S (promised r).
Proof.
  unfold promised. simpl. pose proof (map_set_length (pretty (nextId r))
    (now r + msToNs (OFFER_VALID_TIME_MS + randomInt500 (nextId r) + OFFER_VALID_EXTRA_MS))%Z (openOffers r)). lia.
Qed.

Lemma sendOffers_promised r :
  promised r ≤ maxConcurrency → promised (sendOffers maxConcurrency taskType randomInt500 r) ≤ maxConcurrency.
Proof.
  intros Hr. unfold sendOffers. set (r' := deleteStaleOffers r).
  assert (promised r' ≤ promised r) as Hstale.
  { unfold promised, r'. simpl. pose proof (length_filter (λ offer : string * Z, ¬ (offer.2 < now r)%Z) (openOffers r)). lia. }
  destruct (negb (canSendOffers r')); [lia|].
  assert (∀ k, promised (Nat.iter k (sendOffer taskType randomInt500) r') ≤ k + promised r') as Hiter.
  { induction k as [|k IH]; simpl; [lia|]. etrans; [apply sendOffer_promised|]. lia. }
  etrans; [apply Hiter|]. unfold promised in *. lia.
Qed.

Lemma finishTask_promised ref r :
  promised r ≤ maxConcurrency →
  promised (finishTask maxConcurrency taskType idleTimeout randomInt500 ref r) ≤ maxConcurrency.
Proof.
  intros Hr. unfold finishTask. destruct (states r !! ref) as [t|]; [|done].
  unfold resetIdleTimer. destruct (bool_decide _); [|change (promised (setIdle ?a ?b ?x)) with (promised x)];
    apply sendOffers_promised; unfold promised in *; simpl;
    pose proof (map_delete_length (ts_taskId t) (runningTasks r)); lia.
Qed.

Lemma offerAccepted_promised offerId taskId r :
  promised r ≤ maxConcurrency → promised (offerAccepted maxConcurrency idleTimeout offerId taskId r) ≤ maxConcurrency.
Proof.
  intros Hr. unfold offerAccepted, promised in *. destruct (isShuttingDown r); [done|].
  destruct (negb (hasOpenTaskSlots maxConcurrency r)); simpl.
  { pose proof (map_delete_length offerId (openOffers r)). lia. }
  destruct (map_get offerId (openOffers r)) as [v|] eqn:Ho; [|done].
  pose proof (map_delete_length_lt offerId v (openOffers r) Ho).
  unfold resetIdleTimer. destruct (bool_decide _); simpl;
    pose proof (map_set_length taskId (length (states r)) (runningTasks r)); lia.
Qed.

Lemma taskExecutionFailed_promised ref error r :
  promised r ≤ maxConcurrency →
  promised (taskExecutionFailed maxConcurrency taskType idleTimeout randomInt500 ref error r) ≤ maxConcurrency.
Proof.
  intros Hr. unfold taskExecutionFailed. destruct (states r !! ref) as [t|]; [|done]. apply finishTask_promised.
  by destruct (ts_status t).
Qed.

Lemma taskExecutionSucceeded_promised ref data ok r :
  promised r ≤ maxConcurrency →
  promised (taskExecutionSucceeded maxConcurrency taskType idleTimeout randomInt500 ref data ok r) ≤ maxConcurrency.
Proof.
  intros Hr. unfold taskExecutionSucceeded. destruct (states r !! ref) as [t|]; [|done].
  destruct (ts_status t); try destruct ok; auto using finishTask_promised, taskExecutionFailed_promised.
Qed.

Lemma taskTimedOut_promised taskId r :
  promised r ≤ maxConcurrency →
  promised (taskTimedOut maxConcurrency taskType idleTimeout randomInt500 taskId r) ≤ maxConcurrency.
Proof.
  intros Hr. unfold taskTimedOut. destruct (taskOf taskId r) as [[ref t]|]; [|done].
  destruct (ts_status t); auto using finishTask_promised.
Qed.

Lemma onMessage_promised m r :
  promised r ≤ maxConcurrency →
  promised (onMessage maxConcurrency taskType idleTimeout randomInt500 m r) ≤ maxConcurrency.
Proof.
  intros Hr. destruct m as [| |offerId taskId|taskId reason|taskId settings| | | |]; try done.
  - by apply offerAccepted_promised.
  - simpl. unfold taskCancelled. destruct (taskOf taskId r) as [[ref t]|]; [|done].
    destruct (ts_status t); auto using finishTask_promised.
  - simpl. unfold receivedSettings. destruct (taskOf taskId r) as [[ref t]|]; [|done]. by destruct (ts_status t).
Qed.

Lemma runnerStep_promised r e :
  promised r ≤ maxConcurrency →
  promised (runnerStep maxConcurrency taskType idleTimeout randomInt500 r e) ≤ maxConcurrency.
Proof.
  intros Hr. destruct e as [m| |ref| |k result| | | | | | |]; try done.
  - by apply onMessage_promised.
  - simpl. destruct (offerInterval r); [by apply sendOffers_promised|done].
  - simpl. unfold taskTimerFires. destruct (states r !! ref) as [t|]; [|done].
    destruct (ts_timer t); [by apply taskTimedOut_promised|done].
  - simpl. unfold idleTimerFires. by destruct (idleTimer r).
  - simpl. unfold executionEnds. destruct (executions r !! k) as [ref|]; [|done].
    destruct result as [[data ok]|error]; [by apply taskExecutionSucceeded_promised|by apply taskExecutionFailed_promised].
  - unfold promised in *. simpl. lia.
Qed.

(** C16: the open offers and the running tasks of a runner are never more than it may execute at once,
    whatever messages arrive and whatever timers and executions do. *)
Theorem runner_within_capacity es :
  promised (runRunner maxConcurrency taskType idleTimeout randomInt500 es) ≤ maxConcurrency.
Proof.
  unfold runRunner. assert (promised (newRunner idleTimeout) ≤ maxConcurrency) as H0.
  { unfold newRunner, resetIdleTimer. destruct (bool_decide _); unfold promised; simpl; lia. }
  revert H0. generalize (newRunner idleTimeout) as r. induction es as [|e es IH]; intros r Hr; [done|].
  simpl. apply IH. by apply runnerStep_promised.
Qed.
End capacity.

(** ** The life of a task *)

(** An answer to task [t] *)
Definition isAnswer (t : nat) (m : FromRunner) : Prop :=
  match m with RunnerTaskDone t' _ | RunnerTaskError t' _ => t' = t | _ => False end.

#[global] Instance isAnswer_dec t m : Decision (isAnswer t m).
Proof. destruct m; simpl; apply _. Defined.

Definition answers (t : nat) (ms : list FromRunner) : nat := length (filter (isAnswer t) ms).

(** The messages about the outcome of tasks *)
Definition isOutcome (m : FromRunner) : Prop :=
  match m with RunnerTaskAccepted _ | RunnerTaskDone _ _ | RunnerTaskError _ _ => True | _ => False end.

#[global] Instance isOutcome_dec m : Decision (isOutcome m).
Proof. destruct m; simpl; apply _. Defined.

(** What the life of tasks depends on *)
Record view := {
  v_running : jsmap nat nat;
  v_states : list TaskState;
  v_executions : list nat;
  v_outcomes : list FromRunner;
  v_failed : bool;
}.

Definition viewOf (r : Runner) : view :=
  {| v_running := runningTasks r; v_states := states r; v_executions := executions r;
     v_outcomes := filter isOutcome (sent r); v_failed := failed r |}.

Section views.
Context (maxConcurrency : nat) (taskType : string) (idleTimeout : nat) (randomInt500 : nat → Z).

Lemma view_send m r :
  viewOf (send m r) =
    {| v_running := runningTasks r; v_states := states r; v_executions := executions r;
       v_outcomes := filter isOutcome (sent r) ++ filter isOutcome [m]; v_failed := failed r |}.
Proof. unfold viewOf. simpl. by rewrite filter_app. Qed.

Lemma view_send_other m r : ¬ isOutcome m → viewOf (send m r) = viewOf r.
Proof. intros Hm. rewrite view_send, filter_cons_False, app_nil_r by done. done. Qed.

Lemma view_resetIdleTimer r : viewOf (resetIdleTimer idleTimeout r) = viewOf r.
Proof. unfold resetIdleTimer. by destruct (bool_decide _). Qed.

Lemma view_sendOffers r : viewOf (sendOffers maxConcurrency taskType randomInt500 r) = viewOf r.
Proof.
  unfold sendOffers. destruct (negb _); [done|].
  induction (maxConcurrency - _) as [|k IH]; [done|]. simpl. unfold sendOffer. rewrite view_send_other by by intros [].
  exact IH.
Qed.

Lemma view_finishTask ref t r :
  states r !! ref = Some t →
  viewOf (finishTask maxConcurrency taskType idleTimeout randomInt500 ref r) =
    {| v_running := map_delete (ts_taskId t) (runningTasks r); v_states := alter cleanup ref (states r);
       v_executions := executions r; v_outcomes := filter isOutcome (sent r); v_failed := failed r |}.
Proof. intros Ht. unfold finishTask. rewrite Ht, view_resetIdleTimer, view_sendOffers. done. Qed.
End views.

(** Where a task is in its life; [settings] and [cancels] are the tasks for which settings and
    cancellations have arrived, and [accepts] below those for which an offer was accepted. *)
Definition phaseOk (settings cancels : list nat) (v : view) (ref : nat) (st : TaskState) : Prop :=
  let t := ts_taskId st in
  match map_get t (v_running v) with
  | Some ref' =>
      ref' = ref ∧ answers t (v_outcomes v) = 0 ∧
      match ts_status st with
      | WaitingForSettings => ref ∉ v_executions v
      | Running => ref ∈ v_executions v ∧ t ∈ settings
      | AbortingCancelled => ref ∈ v_executions v ∧ t ∈ settings ∧ t ∈ cancels
      | AbortingTimeout => ref ∈ v_executions v ∧ t ∈ settings ∧ ts_timer st = false
      end
  | None =>
      (ref ∉ v_executions v) ∧
      (answers t (v_outcomes v) = 1 ∨ (answers t (v_outcomes v) = 0 ∧ t ∈ cancels))
  end.

Definition known (v : view) (t : nat) : Prop := ∃ ref st, v_states v !! ref = Some st ∧ ts_taskId st = t.

Lemma known_or_not v t : known v t ∨ ¬ known v t.
Proof.
  destruct (decide (t ∈ ts_taskId <$> v_states v)) as [Hin|Hn].
  - left. apply list_elem_of_fmap in Hin as (st & -> & [ref Hst]%list_elem_of_lookup_1). by exists ref, st.
  - right. intros (ref & st & Hst & <-). apply Hn, list_elem_of_fmap_2. by eapply list_elem_of_lookup_2.
Qed.

Record lifeInv (accepts settings cancels : list nat) (v : view) : Prop := {
  li_known : ∀ t, known v t → t ∈ accepts;
  li_failed : v_failed v = false;
  li_running : ∀ t, is_Some (map_get t (v_running v)) → known v t;
  li_unique : ∀ ref ref' st st', v_states v !! ref = Some st → v_states v !! ref' = Some st' →
    ts_taskId st = ts_taskId st' → ref = ref';
  li_executions : NoDup (v_executions v) ∧ ∀ ref, ref ∈ v_executions v → ref < length (v_states v);
  li_phase : ∀ ref st, v_states v !! ref = Some st → phaseOk settings cancels v ref st;
  li_unknown : ∀ t, ¬ known v t → answers t (v_outcomes v) = 0;
  li_accepted : ∀ t, RunnerTaskAccepted t ∈ v_outcomes v → known v t;
}.

(** A step that concerns one task leaves the others where they are. *)
Lemma phaseOk_frame settings settings' cancels cancels' v v' ref st :
  map_get (ts_taskId st) (v_running v') = map_get (ts_taskId st) (v_running v) →
  answers (ts_taskId st) (v_outcomes v') = answers (ts_taskId st) (v_outcomes v) →
  (ref ∈ v_executions v' ↔ ref ∈ v_executions v) → settings ⊆ settings' → cancels ⊆ cancels' →
  phaseOk settings cancels v ref st → phaseOk settings' cancels' v' ref st.
Proof.
  intros Hr Ha He Hs Hc. unfold phaseOk. rewrite Hr, Ha.
  destruct (map_get (ts_taskId st) (v_running v)); [destruct (ts_status st)|]; rewrite He; set_solver.
Qed.

(** A step that concerns the task of reference [ref] *)
Record localStep (v v' : view) (ref : nat) (st st' : TaskState) : Prop := {
  ls_state : v_states v !! ref = Some st;
  ls_states : v_states v' = <[ref := st']> (v_states v);
  ls_id : ts_taskId st' = ts_taskId st;
  ls_failed : v_failed v' = v_failed v;
  ls_running : ∀ t, map_get t (v_running v') = map_get t (v_running v) ∨
    (t = ts_taskId st ∧ map_get t (v_running v') = None);
  ls_nodup : NoDup (v_executions v');
  ls_executions : ∀ ref', ref' ≠ ref → ref' ∈ v_executions v' ↔ ref' ∈ v_executions v;
  ls_answers : ∀ t, t ≠ ts_taskId st → answers t (v_outcomes v') = answers t (v_outcomes v);
  ls_accepted : ∀ t, RunnerTaskAccepted t ∈ v_outcomes v' → RunnerTaskAccepted t ∈ v_outcomes v;
}.

Lemma localStep_known v v' ref st st' t : localStep v v' ref st st' → known v' t ↔ known v t.
Proof.
  intros Hl. unfold known. rewrite (ls_states _ _ _ _ _ Hl). split.
  - intros (ref' & s & Hs & <-). rewrite list_lookup_insert in Hs. case_decide as Hcase.
    + destruct Hcase as [<- _]. injection Hs as <-. exists ref, st. split; [apply (ls_state _ _ _ _ _ Hl)|].
      symmetry. apply (ls_id _ _ _ _ _ Hl).
    + eauto.
  - intros (ref' & s & Hs & <-). destruct (decide (ref' = ref)) as [->|Hne].
    + exists ref, st'. rewrite list_lookup_insert, decide_True by (split; [done|by eapply lookup_lt_Some]).
      split; [done|]. rewrite (ls_id _ _ _ _ _ Hl). pose proof (ls_state _ _ _ _ _ Hl). congruence.
    + exists ref', s. by rewrite list_lookup_insert_ne.
Qed.

Lemma lifeInv_local accepts settings settings' cancels cancels' v v' ref st st' :
  lifeInv accepts settings cancels v → localStep v v' ref st st' → settings ⊆ settings' → cancels ⊆ cancels' →
  phaseOk settings' cancels' v' ref st' → lifeInv accepts settings' cancels' v'.
Proof.
  intros Hv Hl Hs Hc Hphase. pose proof (ls_state _ _ _ _ _ Hl) as Hst. pose proof (ls_id _ _ _ _ _ Hl) as Hid.
  assert (∀ ref1 s1, v_states v' !! ref1 = Some s1 →
    (ref1 = ref ∧ s1 = st') ∨ (ref1 ≠ ref ∧ v_states v !! ref1 = Some s1)) as Hlook.
  { intros ref1 s1. rewrite (ls_states _ _ _ _ _ Hl), list_lookup_insert. case_decide as Hcase.
    - destruct Hcase as [<- _]. intros [= <-]. by left.
    - intros H1. right. split; [|done]. intros ->. apply Hcase. split; [done|by eapply lookup_lt_Some]. }
  split.
  - intros t. rewrite (localStep_known _ _ _ _ _ _ Hl). apply Hv.
  - rewrite (ls_failed _ _ _ _ _ Hl). apply Hv.
  - intros t Ht. rewrite (localStep_known _ _ _ _ _ _ Hl). apply Hv.
    destruct (ls_running _ _ _ _ _ Hl t) as [E|[_ E]]; rewrite E in Ht; [done|by destruct Ht].
  - intros ref1 ref2 s1 s2 H1 H2 Heq.
    destruct (Hlook _ _ H1) as [[-> ->]|[Hn1 H1']], (Hlook _ _ H2) as [[-> ->]|[Hn2 H2']]; [done|..];
      eapply (li_unique _ _ _ _ Hv); eauto; congruence.
  - split; [apply (ls_nodup _ _ _ _ _ Hl)|]. intros ref1 H1. rewrite (ls_states _ _ _ _ _ Hl), length_insert.
    destruct (decide (ref1 = ref)) as [->|Hne]; [by eapply lookup_lt_Some|].
    apply (li_executions _ _ _ _ Hv), (ls_executions _ _ _ _ _ Hl); done.
  - intros ref1 s1 H1. destruct (Hlook _ _ H1) as [[-> ->]|[Hn1 H1']]; [done|].
    assert (ts_taskId s1 ≠ ts_taskId st) as Hne by (intros Heq; by apply Hn1, (li_unique _ _ _ _ Hv _ _ _ _ H1' Hst)).
    eapply phaseOk_frame; [..|done|done|by apply (li_phase _ _ _ _ Hv)].
    + destruct (ls_running _ _ _ _ _ Hl (ts_taskId s1)) as [E|[E _]]; [done|congruence].
    + by apply (ls_answers _ _ _ _ _ Hl).
    + by apply (ls_executions _ _ _ _ _ Hl).
  - intros t Ht. rewrite (localStep_known _ _ _ _ _ _ Hl) in Ht. rewrite (ls_answers _ _ _ _ _ Hl).
    + by apply (li_unknown _ _ _ _ Hv).
    + intros ->. apply Ht. by exists ref, st.
  - intros t Ht. rewrite (localStep_known _ _ _ _ _ _ Hl). apply (li_accepted _ _ _ _ Hv). by apply (ls_accepted _ _ _ _ _ Hl).
Qed.

Lemma lifeInv_mono accepts accepts' settings settings' cancels cancels' v :
  lifeInv accepts settings cancels v → accepts ⊆ accepts' → settings ⊆ settings' → cancels ⊆ cancels' →
  lifeInv accepts' settings' cancels' v.
Proof.
  intros [H0 H1 H2 H3 H4 H5 H6 H7] Ha Hs Hc. split; try done; [by auto|]. intros ref st Hst.
  eapply phaseOk_frame; [done|done|done|exact Hs|exact Hc|by apply H5].
Qed.

(** *** The steps *)

Lemma answers_app t ms ms' : answers t (ms ++ ms') = answers t ms + answers t ms'.
Proof. unfold answers. by rewrite filter_app, length_app. Qed.

Lemma alter_insert {A} (f : A → A) (i : nat) (x : A) (l : list A) : l !! i = Some x → alter f i l = <[i := f x]> l.
Proof.
  intros Hx. apply list_eq. intros j. destruct (decide (j = i)) as [->|Hne].
  - rewrite list_lookup_insert, decide_True by (split; [done|by eapply lookup_lt_Some]). by rewrite list_lookup_alter, decide_True, Hx.
  - by rewrite list_lookup_alter_ne, list_lookup_insert_ne.
Qed.

(** A new task *)
Definition acceptView (t : nat) (v : view) : view :=
  {| v_running := map_set t (length (v_states v)) (v_running v); v_states := v_states v ++ [newTaskState t];
     v_executions := v_executions v; v_outcomes := v_outcomes v ++ [RunnerTaskAccepted t]; v_failed := v_failed v |}.

Lemma known_accept t t' v : known (acceptView t v) t' ↔ t' = t ∨ known v t'.
Proof.
  unfold known. simpl. split.
  - intros (ref & st & Hst & <-). apply lookup_snoc_Some in Hst as [[_ Hst]|[_ <-]]; [right; eauto|by left].
  - intros [->|(ref & st & Hst & <-)].
    + exists (length (v_states v)), (newTaskState t). by rewrite list_lookup_middle.
    + exists ref, st. by rewrite lookup_app_l by (by eapply lookup_lt_Some).
Qed.

Lemma lifeInv_accept accepts settings cancels t v :
  lifeInv accepts settings cancels v → ¬ known v t → lifeInv (accepts ++ [t]) settings cancels (acceptView t v).
Proof.
  intros Hv Hnew. assert (∀ t', answers t' (v_outcomes (acceptView t v)) = answers t' (v_outcomes v)) as Hans.
  { intros t'. simpl. rewrite answers_app. unfold answers at 2. simpl. lia. }
  assert (length (v_states v) ∉ v_executions v) as Hex.
  { intros Hin. apply (li_executions _ _ _ _ Hv) in Hin. lia. }
  split.
  - intros t' [->|Hk]%known_accept; apply elem_of_snoc; [by right|left]. by apply Hv.
  - apply Hv.
  - intros t'. rewrite known_accept. simpl. rewrite map_get_set. case_bools; [by left|]. intros Ht'. right. by apply Hv.
  - intros ref ref' st st' H1 H2 Heq. apply lookup_snoc_Some in H1 as [[Hl1 H1]|[-> <-]], H2 as [[Hl2 H2]|[-> <-]]; [|..|done].
    + by eapply (li_unique _ _ _ _ Hv).
    + destruct Hnew. by exists ref, st.
    + destruct Hnew. by exists ref', st'.
  - split; [apply Hv|]. intros ref Hin. simpl. rewrite length_app. apply (li_executions _ _ _ _ Hv) in Hin. lia.
  - intros ref st Hst. apply lookup_snoc_Some in Hst as [[Hlt Hst]|[-> <-]].
    + eapply phaseOk_frame; [|apply Hans|done|done|done|by apply (li_phase _ _ _ _ Hv)]. simpl. rewrite map_get_set_ne; [done|].
      intros Heq. destruct Hnew. by exists ref, st.
    + unfold phaseOk. rewrite Hans. simpl. rewrite map_get_set_eq. split_and!; [done|by apply (li_unknown _ _ _ _ Hv)|done].
  - intros t'. rewrite known_accept, Hans. intros Hk. apply (li_unknown _ _ _ _ Hv). tauto.
  - intros t'. rewrite known_accept. simpl. rewrite elem_of_app, list_elem_of_singleton. intros [Hin|[= ->]]; [right|by left].
    by apply (li_accepted _ _ _ _ Hv).
Qed.

(** The end of a task, with the executions that are left and the messages that were sent *)
Definition endView (ref : nat) (st : TaskState) (exs : list nat) (ms : list FromRunner) (v : view) : view :=
  {| v_running := map_delete (ts_taskId st) (v_running v); v_states := alter cleanup ref (v_states v);
     v_executions := exs; v_outcomes := v_outcomes v ++ ms; v_failed := v_failed v |}.

(** What was sent when a task ends: one answer, or none if it was cancelled *)
Definition endMessages (cancels : list nat) (t : nat) (ms : list FromRunner) : Prop :=
  (∃ m, ms = [m] ∧ isAnswer t m) ∨ (ms = [] ∧ t ∈ cancels).

Lemma endMessages_answers cancels t ms : endMessages cancels t ms →
  (answers t ms = 1 ∨ answers t ms = 0 ∧ t ∈ cancels) ∧ (∀ t', t' ≠ t → answers t' ms = 0) ∧
  ∀ t', RunnerTaskAccepted t' ∉ ms.
Proof.
  unfold answers. intros [(m & -> & Hm)|[-> Hc]].
  - rewrite filter_cons_True by done. split_and!; [by left|..].
    + intros t' Hne. rewrite filter_cons_False; [done|]. destruct m; simpl in *; congruence.
    + intros t' Hin%list_elem_of_singleton. by subst m.
  - split_and!; [by right|done|]. intros t'. apply not_elem_of_nil.
Qed.

Lemma lifeInv_end accepts settings cancels ref st exs ms v :
  lifeInv accepts settings cancels v → v_states v !! ref = Some st → map_get (ts_taskId st) (v_running v) = Some ref →
  NoDup exs → ref ∉ exs → (∀ ref', ref' ≠ ref → ref' ∈ exs ↔ ref' ∈ v_executions v) →
  endMessages cancels (ts_taskId st) ms → lifeInv accepts settings cancels (endView ref st exs ms v).
Proof.
  intros Hv Hst Hrun Hnd Hnot Hexs Hms. destruct (endMessages_answers _ _ _ Hms) as (Hone & Hother & Hacc).
  pose proof (li_phase _ _ _ _ Hv ref st Hst) as Hphase. unfold phaseOk in Hphase. rewrite Hrun in Hphase.
  destruct Hphase as (_ & Hzero & _).
  eapply (lifeInv_local accepts settings settings cancels cancels v _ ref st (cleanup st)); [done| |done|done|].
  - split; simpl; try done.
    + by apply alter_insert.
    + intros t. rewrite map_get_delete. case_bools; [by right|by left].
    + intros t Ht. rewrite answers_app, (Hother t Ht). lia.
    + intros t [Hin|Hin]%elem_of_app; [done|]. by destruct (Hacc t).
  - unfold phaseOk. simpl. rewrite map_get_delete, bool_decide_true, answers_app, Hzero by done. split; [done|naive_solver].
Qed.

(** A change of the state of a running task *)
Definition stateView (ref : nat) (st' : TaskState) (exs : list nat) (v : view) : view :=
  {| v_running := v_running v; v_states := <[ref := st']> (v_states v); v_executions := exs;
     v_outcomes := v_outcomes v; v_failed := v_failed v |}.

Lemma lifeInv_state accepts settings settings' cancels cancels' ref st st' exs v :
  lifeInv accepts settings cancels v → v_states v !! ref = Some st → ts_taskId st' = ts_taskId st →
  NoDup exs → (∀ ref', ref' ≠ ref → ref' ∈ exs ↔ ref' ∈ v_executions v) → settings ⊆ settings' → cancels ⊆ cancels' →
  phaseOk settings' cancels' (stateView ref st' exs v) ref st' → lifeInv accepts settings' cancels' (stateView ref st' exs v).
Proof.
  intros Hv Hst Hid Hnd Hexs Hs Hc Hphase. eapply lifeInv_local; [exact Hv| |done|done|exact Hphase].
  split; simpl; try done. intros t. by left.
Qed.

(** *** The operations *)

Lemma map_delete_twice {K V} `{EqDecision K} (k : K) (m : jsmap K V) : map_delete k (map_delete k m) = map_delete k m.
Proof.
  unfold map_delete. induction m as [|[k' v] m IH]; [done|]. rewrite !filter_cons. case_decide as Hk; [|done].
  rewrite filter_cons, decide_True by done. by rewrite IH.
Qed.

Lemma alter_cleanup_twice ref (ts : list TaskState) : alter cleanup ref (alter cleanup ref ts) = alter cleanup ref ts.
Proof.
  apply list_eq. intros j. rewrite !list_lookup_alter. case_decide; [|done]. rewrite decide_True by done. by destruct (ts !! ref).
Qed.

Section operations.
Context (maxConcurrency : nat) (taskType : string) (idleTimeout : nat) (randomInt500 : nat → Z).
Context (accepts settings cancels : list nat).
Implicit Types r : Runner.

Lemma taskOf_Some t r ref st :
  lifeInv accepts settings cancels (viewOf r) → taskOf t r = Some (ref, st) →
  v_states (viewOf r) !! ref = Some st ∧ ts_taskId st = t ∧ map_get t (v_running (viewOf r)) = Some ref.
Proof.
  intros Hr Ht. unfold taskOf in Ht.
  destruct (map_get t (runningTasks r)) as [ref'|] eqn:Hg; [|done]. simpl in Ht.
  destruct (states r !! ref') as [st'|] eqn:Hs; [|done]. simpl in Ht. injection Ht as <- <-.
  destruct (li_running _ _ _ _ Hr t) as (ref & st & Hst & Hid); [by eexists|].
  pose proof (li_phase _ _ _ _ Hr ref st Hst) as Hphase. unfold phaseOk in Hphase. simpl in *. rewrite Hid, Hg in Hphase.
  destruct Hphase as [-> _]. split_and!; [done| |done]. congruence.
Qed.

(** Taking the [k]-th execution out of the list *)
Lemma delete_execution k ref (exs : list nat) :
  NoDup exs → exs !! k = Some ref →
  NoDup (delete k exs) ∧ (ref ∉ delete k exs) ∧ ∀ ref', ref' ≠ ref → ref' ∈ delete k exs ↔ ref' ∈ exs.
Proof.
  intros Hnd Hk. assert (exs ≡ₚ ref :: delete k exs) as Hp by by apply delete_Permutation.
  rewrite Hp in Hnd. apply NoDup_cons in Hnd as [Hn Hnd]. split_and!; [done|done|].
  intros ref' Hne. rewrite Hp at 2. rewrite elem_of_cons. naive_solver.
Qed.

(** What a task that is not waiting for settings sends when it ends *)
Definition outcomeOf (st : TaskState) (ms : list FromRunner) : Prop :=
  if bool_decide (ts_status st = AbortingCancelled) then ms = []
  else ∃ m, ms = [m] ∧ isAnswer (ts_taskId st) m.

Lemma finish_view ref st ms r :
  states r !! ref = Some st → Forall isOutcome ms →
  viewOf (finishTask maxConcurrency taskType idleTimeout randomInt500 ref (foldl (λ r m, send m r) r ms)) =
    endView ref st (executions r) ms (viewOf r).
Proof.
  intros Hst Hms. assert (∀ r, let r' := foldl (λ r m, send m r) r ms in
    runningTasks r' = runningTasks r ∧ states r' = states r ∧ executions r' = executions r ∧ failed r' = failed r ∧
    sent r' = sent r ++ ms) as Hsend.
  { clear r Hst. induction ms as [|m ms IH]; intros r; simpl; [by rewrite app_nil_r|].
    inversion_clear Hms. destruct (IH H0 (send m r)) as (-> & -> & -> & -> & ->). simpl.
    by rewrite <- (assoc_L (++)). }
  destruct (Hsend r) as (E1 & E2 & E3 & E4 & E5). cbv zeta in *. erewrite view_finishTask by (rewrite E2; exact Hst).
  rewrite E1, E2, E3, E4, E5, filter_app. unfold endView. f_equal. simpl. f_equal.
  clear -Hms. induction Hms as [|m ms Hm _ IH]; [done|]. by rewrite filter_cons_True, IH.
Qed.

Lemma failed_view ref st error r :
  states r !! ref = Some st → ts_status st ≠ WaitingForSettings →
  ∃ ms, viewOf (taskExecutionFailed maxConcurrency taskType idleTimeout randomInt500 ref error r) =
    endView ref st (executions r) ms (viewOf r) ∧ outcomeOf st ms.
Proof.
  intros Hst Hw. unfold taskExecutionFailed, outcomeOf. rewrite Hst. destruct (ts_status st); [done|..].
  - exists [RunnerTaskError (ts_taskId st) error]. split; [|by eexists]. by apply (finish_view ref st [_]); [|repeat constructor].
  - exists []. split; [|done]. by apply (finish_view ref st []).
  - exists [RunnerTaskError (ts_taskId st) error]. split; [|by eexists]. by apply (finish_view ref st [_]); [|repeat constructor].
Qed.

Lemma endView_twice ref st exs ms v :
  endView ref (cleanup st) exs ms (endView ref st exs [] v) = endView ref st exs ms v.
Proof. unfold endView. simpl. by rewrite map_delete_twice, alter_cleanup_twice, app_nil_r. Qed.

Lemma succeeded_view ref st data ok r :
  states r !! ref = Some st → ts_status st ≠ WaitingForSettings →
  ∃ ms, viewOf (taskExecutionSucceeded maxConcurrency taskType idleTimeout randomInt500 ref data ok r) =
    endView ref st (executions r) ms (viewOf r) ∧ outcomeOf st ms.
Proof.
  intros Hst Hw. unfold taskExecutionSucceeded. rewrite Hst.
  assert (∀ error, ts_status st ≠ AbortingCancelled → ∃ ms,
    viewOf (taskExecutionFailed maxConcurrency taskType idleTimeout randomInt500 ref error
      (finishTask maxConcurrency taskType idleTimeout randomInt500 ref r)) = endView ref st (executions r) ms (viewOf r) ∧
    outcomeOf st ms) as Hunserializable.
  { intros error Hc. pose proof (finish_view ref st [] r Hst (Forall_nil_2 _)) as Hv. simpl in Hv.
    set (r' := finishTask _ _ _ _ ref r) in *.
    assert (states r' !! ref = Some (cleanup st)) as Hst'.
    { change (states r') with (v_states (viewOf r')). rewrite Hv. simpl.
      by rewrite list_lookup_alter, decide_True, Hst. }
    assert (executions r' = executions r) as Hex by (change (executions r') with (v_executions (viewOf r')); by rewrite Hv).
    destruct (failed_view ref (cleanup st) error r' Hst' Hw) as (ms & Heq & Hms).
    exists ms. rewrite Heq, Hv, Hex, endView_twice. done. }
  destruct (ts_status st) eqn:Hs; [done|..].
  - destruct ok; [|by apply Hunserializable]. exists [RunnerTaskDone (ts_taskId st) data].
    split; [by apply (finish_view ref st [_]); [|repeat constructor]|]. unfold outcomeOf. rewrite Hs. by eexists.
  - exists []. split; [by apply (finish_view ref st [])|]. unfold outcomeOf. by rewrite Hs.
  - destruct ok; [|by apply Hunserializable]. exists [RunnerTaskDone (ts_taskId st) data].
    split; [by apply (finish_view ref st [_]); [|repeat constructor]|]. unfold outcomeOf. rewrite Hs. by eexists.
Qed.

(** The end of an execution *)
Lemma executionEnds_inv k result r :
  lifeInv accepts settings cancels (viewOf r) →
  lifeInv accepts settings cancels (viewOf (executionEnds maxConcurrency taskType idleTimeout randomInt500 k result r)).
Proof.
  intros Hr. unfold executionEnds. destruct (executions r !! k) as [ref|] eqn:Hk; [|done].
  pose proof (list_elem_of_lookup_2 _ _ _ Hk) as Hin. destruct (li_executions _ _ _ _ Hr) as [Hnd Hlt].
  destruct (lookup_lt_is_Some_2 (states r) ref) as [st Hst]; [by apply Hlt|].
  pose proof (li_phase _ _ _ _ Hr ref st Hst) as Hphase. unfold phaseOk in Hphase.
  destruct (map_get (ts_taskId st) (v_running (viewOf r))) as [ref'|] eqn:Hrun; [|by destruct Hphase].
  destruct Hphase as (-> & _ & Hstatus). destruct (delete_execution k ref (executions r) Hnd Hk) as (Hnd' & Hnot & Hother).
  set (r1 := setTasks (runningTasks r) (states r) (delete k (executions r)) r).
  assert (ts_status st ≠ WaitingForSettings) as Hw by (intros Hs; by rewrite Hs in Hstatus).
  assert (∃ ms, viewOf (match result with
    | inl (data, ok) => taskExecutionSucceeded maxConcurrency taskType idleTimeout randomInt500 ref data ok r1
    | inr error => taskExecutionFailed maxConcurrency taskType idleTimeout randomInt500 ref error r1 end) =
    endView ref st (delete k (executions r)) ms (viewOf r1) ∧ outcomeOf st ms) as (ms & -> & Hms)
    by (destruct result as [[data ok]|error]; [by apply (succeeded_view ref st)|by apply (failed_view ref st)]).
  change (endView ref st (delete k (executions r)) ms (viewOf r1)) with (endView ref st (delete k (executions r)) ms (viewOf r)).
  apply lifeInv_end; try done. unfold outcomeOf in Hms. destruct (bool_decide_reflect (ts_status st = AbortingCancelled)) as [Hc|_].
  - right. split; [done|]. rewrite Hc in Hstatus. tauto.
  - by left.
Qed.

(** A task that waits for its settings ends. *)
Lemma waiting_ends ref st ms r :
  lifeInv accepts settings cancels (viewOf r) → states r !! ref = Some st →
  map_get (ts_taskId st) (runningTasks r) = Some ref → ts_status st = WaitingForSettings →
  Forall isOutcome ms → endMessages cancels (ts_taskId st) ms →
  lifeInv accepts settings cancels
    (viewOf (finishTask maxConcurrency taskType idleTimeout randomInt500 ref (foldl (λ r m, send m r) r ms))).
Proof.
  intros Hr Hst Hrun Hs Ho Hms. rewrite (finish_view ref st ms r Hst Ho).
  pose proof (li_phase _ _ _ _ Hr ref st Hst) as Hphase. unfold phaseOk in Hphase. simpl in *. rewrite Hrun, Hs in Hphase.
  destruct Hphase as (_ & _ & Hnot). apply lifeInv_end; try done. apply Hr.
Qed.

(** The state of a running task changes, but not whether it is executed. *)
Lemma updateState_inv cancels' ref st f r :
  lifeInv accepts settings cancels (viewOf r) → states r !! ref = Some st → ts_taskId (f st) = ts_taskId st →
  cancels ⊆ cancels' → phaseOk settings cancels' (viewOf r) ref (f st) →
  lifeInv accepts settings cancels' (viewOf (updateState ref f r)).
Proof.
  intros Hr Hst Hid Hc Hphase. unfold updateState, viewOf. simpl. rewrite (alter_insert f ref st) by done.
  apply (lifeInv_state accepts settings settings cancels cancels' ref st (f st) (executions r) (viewOf r)); try done.
  apply Hr.
Qed.

(** The timer of a task is used up, or the task is not running any more. *)
Lemma timer_used ref st r :
  lifeInv accepts settings cancels (viewOf r) → states r !! ref = Some st →
  lifeInv accepts settings cancels (viewOf (updateState ref cleanup r)).
Proof.
  intros Hr Hst. eapply updateState_inv; [done|done|done|done|].
  pose proof (li_phase _ _ _ _ Hr ref st Hst) as Hphase. unfold phaseOk in *. simpl in *.
  destruct (map_get (ts_taskId st) (runningTasks r)); [|done]. destruct (ts_status st); naive_solver.
Qed.

Lemma taskTimerFires_inv ref r :
  lifeInv accepts settings cancels (viewOf r) →
  lifeInv accepts settings cancels (viewOf (taskTimerFires maxConcurrency taskType idleTimeout randomInt500 ref r)).
Proof.
  intros Hr. unfold taskTimerFires. destruct (states r !! ref) as [st0|] eqn:Hst0; [|done].
  destruct (ts_timer st0) eqn:Htimer; [|done]. pose proof (timer_used ref st0 r Hr Hst0) as Hr1.
  set (r1 := updateState ref cleanup r) in *. unfold taskTimedOut.
  destruct (taskOf (ts_taskId st0) r1) as [[ref' st]|] eqn:Ht; [|done].
  destruct (taskOf_Some _ _ _ _ Hr1 Ht) as (Hst & Hid & Hrun).
  assert (states r1 !! ref = Some (cleanup st0)) as Hst1 by (simpl; by rewrite list_lookup_alter, decide_True, Hst0).
  assert (ref' = ref) as -> by (eapply (li_unique _ _ _ _ Hr1); [exact Hst|exact Hst1|done]).
  assert (st = cleanup st0) as -> by (simpl in *; congruence). cbn [ts_status cleanup] in *.
  pose proof (li_phase _ _ _ _ Hr ref st0 Hst0) as Hphase. unfold phaseOk in Hphase.
  change (v_running (viewOf r1)) with (runningTasks r) in Hrun. cbn [viewOf v_running] in Hphase. rewrite Hrun in Hphase.
  destruct Hphase as (_ & Hzero & Hstatus). destruct (ts_status st0) eqn:Hs.
  - apply (waiting_ends ref (cleanup st0) [RunnerTaskError (ts_taskId st0) "timeout"]); try done; [repeat constructor|].
    left. by eexists.
  - change (viewOf (cancelTaskRequests ?t ?x)) with (viewOf x). eapply updateState_inv; [done|exact Hst1|done|done|].
    unfold phaseOk. simpl. rewrite Hrun. simpl in *. naive_solver.
  - done.
  - destruct Hstatus as (_ & _ & Hf). congruence.
Qed.
End operations.

Section steps.
Context (maxConcurrency : nat) (taskType : string) (idleTimeout : nat) (randomInt500 : nat → Z).
Implicit Types r : Runner.

Lemma taskCancelled_inv accepts settings cancels t reason r :
  lifeInv accepts settings cancels (viewOf r) →
  lifeInv accepts settings (cancels ++ [t])
    (viewOf (taskCancelled maxConcurrency taskType idleTimeout randomInt500 t reason r)).
Proof.
  intros Hr. unfold taskCancelled.
  assert (lifeInv accepts settings (cancels ++ [t]) (viewOf r)) as Hr' by (eapply lifeInv_mono; [exact Hr|set_solver..]).
  destruct (taskOf t r) as [[ref st]|] eqn:Ht; [|done].
  destruct (taskOf_Some _ _ _ _ _ _ _ Hr Ht) as (Hst & Hid & Hrun). subst t.
  destruct (ts_status st) eqn:Hs; [| |done|done].
  - apply (waiting_ends _ _ _ _ _ _ _ ref st []); try done. right. split; [done|]. set_solver.
  - change (viewOf (cancelTaskRequests ?t ?x)) with (viewOf x). eapply updateState_inv; [exact Hr|exact Hst|done|set_solver|].
    pose proof (li_phase _ _ _ _ Hr ref st Hst) as Hphase. unfold phaseOk in *. simpl in *. rewrite Hrun, Hs in *.
    set_solver.
Qed.

Lemma receivedSettings_inv accepts settings cancels t data r :
  lifeInv accepts settings cancels (viewOf r) → t ∉ settings →
  lifeInv accepts (settings ++ [t]) cancels (viewOf (receivedSettings t data r)).
Proof.
  intros Hr Hnew. unfold receivedSettings.
  assert (lifeInv accepts (settings ++ [t]) cancels (viewOf r)) as Hr' by (eapply lifeInv_mono; [exact Hr|set_solver..]).
  destruct (taskOf t r) as [[ref st]|] eqn:Ht; [|done].
  destruct (taskOf_Some _ _ _ _ _ _ _ Hr Ht) as (Hst & Hid & Hrun). subst t.
  pose proof (li_phase _ _ _ _ Hr ref st Hst) as Hphase. unfold phaseOk in Hphase. rewrite Hrun in Hphase.
  destruct Hphase as (_ & Hzero & Hstatus).
  destruct (ts_status st) eqn:Hs; [|exfalso; tauto..]. unfold updateState, viewOf. simpl.
  rewrite (alter_insert (withStatus Running) ref st) by done.
  apply (lifeInv_state accepts settings _ cancels cancels ref st (withStatus Running st) (executions r ++ [ref]) (viewOf r)); try done.
  - apply NoDup_snoc; [apply Hr|done].
  - intros ref' Hne. rewrite elem_of_snoc. naive_solver.
  - set_solver.
  - unfold phaseOk. simpl. simpl in Hrun. rewrite Hrun. split_and!; [done|done| |]; apply elem_of_snoc; by right.
Qed.

Lemma offerAccepted_inv accepts settings cancels offerId t r :
  lifeInv accepts settings cancels (viewOf r) → t ∉ accepts →
  lifeInv (accepts ++ [t]) settings cancels (viewOf (offerAccepted maxConcurrency idleTimeout offerId t r)).
Proof.
  intros Hr Hnew.
  assert (lifeInv (accepts ++ [t]) settings cancels (viewOf r)) as Hr' by (eapply lifeInv_mono; [exact Hr|set_solver..]).
  unfold offerAccepted. destruct (isShuttingDown r); [by rewrite view_send_other by by intros []|].
  destruct (negb (hasOpenTaskSlots maxConcurrency r)); [by rewrite view_send_other by by intros []|].
  destruct (map_get offerId (openOffers r)); [|by rewrite view_send_other by by intros []].
  set (r1 := resetIdleTimer _ _).
  assert (viewOf r1 = viewOf r) as Hv by (unfold r1; by rewrite view_resetIdleTimer).
  assert (¬ known (viewOf r1) t) as Hk by (rewrite Hv; intros Hk; by apply Hnew, (li_known _ _ _ _ Hr)).
  rewrite <- Hv in Hr. pose proof (lifeInv_accept _ _ _ t _ Hr Hk) as Hacc.
  rewrite view_send. exact Hacc.
Qed.

(** *** All events *)

Definition acceptsBy (e : runnerEvent) : list nat := match e with Receive (TaskOfferAccept _ t) => [t] | _ => [] end.
Definition settingsBy (e : runnerEvent) : list nat := match e with Receive (TaskSettings t _) => [t] | _ => [] end.
Definition cancelsBy (e : runnerEvent) : list nat := match e with Receive (TaskCancel t _) => [t] | _ => [] end.

Lemma runnerStep_inv accepts settings cancels r e :
  lifeInv accepts settings cancels (viewOf r) →
  (∀ t, t ∈ acceptsBy e → t ∉ accepts) → (∀ t, t ∈ settingsBy e → t ∉ settings) →
  lifeInv (accepts ++ acceptsBy e) (settings ++ settingsBy e) (cancels ++ cancelsBy e)
    (viewOf (runnerStep maxConcurrency taskType idleTimeout randomInt500 r e)).
Proof.
  intros Hr Ha Hs. destruct e as [m| |ref| |k result| | | | | | |]; simpl; rewrite ?app_nil_r.
  - destruct m as [| |offerId t|t reason|t data| | | |]; simpl in *; rewrite ?app_nil_r; try done.
    + by rewrite view_send_other by by intros [].
    + apply offerAccepted_inv; [done|]. apply Ha. by left.
    + by apply taskCancelled_inv.
    + apply receivedSettings_inv; [done|]. apply Hs. by left.
  - destruct (offerInterval r); [by rewrite view_sendOffers|done].
  - by apply taskTimerFires_inv.
  - unfold idleTimerFires. by destruct (idleTimer r).
  - by apply executionEnds_inv.
  - unfold requestData. by rewrite view_send_other by by intros [].
  - unfold requestNodeTypes. by rewrite view_send_other by by intros [].
  - unfold makeRpcCall. by rewrite view_send_other by by intros [].
  - done.
  - done.
  - done.
  - done.
Qed.

Definition acceptsOf (es : list runnerEvent) : list nat := es ≫= acceptsBy.
Definition settingsOf (es : list runnerEvent) : list nat := es ≫= settingsBy.
Definition cancelsOf (es : list runnerEvent) : list nat := es ≫= cancelsBy.

Lemma runRunner_inv es :
  NoDup (acceptsOf es) → NoDup (settingsOf es) →
  lifeInv (acceptsOf es) (settingsOf es) (cancelsOf es)
    (viewOf (runRunner maxConcurrency taskType idleTimeout randomInt500 es)).
Proof.
  unfold acceptsOf, settingsOf, cancelsOf, runRunner.
  induction es as [|e es IH] using rev_ind; intros Ha Hs.
  - simpl. unfold newRunner. rewrite view_resetIdleTimer. split; simpl; try done.
    + by intros t (ref & st & ? & _).
    + split; [constructor|]. by intros ref ?%elem_of_nil.
    + by intros t ?%elem_of_nil.
  - rewrite foldl_snoc. rewrite !bind_app in *. simpl in *. rewrite !app_nil_r in *.
    apply NoDup_app in Ha as (Ha & Hda & _), Hs as (Hs & Hds & _). apply runnerStep_inv; [by apply IH|..].
    + intros t Ht Hin. by apply (Hda t).
    + intros t Ht Hin. by apply (Hds t).
Qed.
End steps.

Lemma answers_outcomes t ms : answers t (filter isOutcome ms) = answers t ms.
Proof.
  unfold answers. induction ms as [|m ms IH]; [done|]. rewrite filter_cons. case_decide as Ho; rewrite !filter_cons.
  - case_decide; simpl; by rewrite IH.
  - rewrite decide_False; [done|]. by destruct m.
Qed.

(** As long as the broker gives every task a new id and sends its settings once, no task of the runner
    has an unexpected status; a task is answered at most once, and not while it is running; and a task
    that was accepted is running, or has been answered, or was cancelled. *)
Lemma runRunner_answers maxConcurrency taskType idleTimeout randomInt500 es :
  NoDup (acceptsOf es) → NoDup (settingsOf es) →
  let r := runRunner maxConcurrency taskType idleTimeout randomInt500 es in
  failed r = false ∧
  ∀ t, answers t (sent r) ≤ 1 ∧
    (is_Some (map_get t (runningTasks r)) → answers t (sent r) = 0) ∧
    (RunnerTaskAccepted t ∈ sent r →
       is_Some (map_get t (runningTasks r)) ∨ answers t (sent r) = 1 ∨ t ∈ cancelsOf es).
Proof.
  intros Ha Hs r. pose proof (runRunner_inv maxConcurrency taskType idleTimeout randomInt500 es Ha Hs) as Hr.
  fold r in Hr. split; [apply Hr|]. intros t. rewrite <- answers_outcomes.
  change (filter isOutcome (sent r)) with (v_outcomes (viewOf r)). change (runningTasks r) with (v_running (viewOf r)).
  assert (known (viewOf r) t → answers t (v_outcomes (viewOf r)) ≤ 1 ∧
    (is_Some (map_get t (v_running (viewOf r))) → answers t (v_outcomes (viewOf r)) = 0) ∧
    (is_Some (map_get t (v_running (viewOf r))) ∨ answers t (v_outcomes (viewOf r)) = 1 ∨ t ∈ cancelsOf es)) as Hknown.
  { intros (ref & st & Hst & <-). pose proof (li_phase _ _ _ _ Hr ref st Hst) as Hphase. unfold phaseOk in Hphase.
    destruct (map_get (ts_taskId st) (v_running (viewOf r))) as [ref'|]; [|naive_solver lia].
    destruct Hphase as (_ & -> & _). split_and!; [lia|done|left; by eexists]. }
  split_and!.
  - destruct (known_or_not (viewOf r) t) as [Hk|Hk]; [by apply Hknown|]. rewrite (li_unknown _ _ _ _ Hr); [lia|done].
  - intros Hrun. destruct Hknown as (_ & H0 & _); [by apply (li_running _ _ _ _ Hr)|]. by apply H0.
  - intros Hacc. destruct Hknown as (_ & _ & H1); [|done]. apply (li_accepted _ _ _ _ Hr), list_elem_of_filter. by split.
Qed.

(** A task that ends after [stop] starts the idle timer that [stop] cleared. *)
Lemma idle_timer_restarts_after_stop :
  let r := runRunner 1 "javascript" 30 (λ _, 0%Z)
    [ Receive RunnerRegistered; OfferInterval; Receive (TaskOfferAccept "0" 7); Receive (TaskSettings 7 "settings");
      Stop; ExecutionEnds 0 (inl ("data", true)); IdleTimer ] in
  isShuttingDown r = true ∧ idleTimeouts r = 1.
Proof. vm_compute. done. Qed.
