(* ===== verification/TaskProtocol.v ===== *)
(** * The protocol between the broker and its runners

    Over every run of the broker, a task id is offered to a runner at most once, its settings are
    sent at most once, and its requester gets at most one answer, unless the task is disturbed while the
    answer is being delivered.  With that, what
    [TaskRunnerSafety.v] assumes of the messages that a runner receives holds for every runner that
    talks to the broker, even if messages are lost or overtake each other. *)

From S2P Require Import Prelude JsCollections TaskRunner TaskRunnerSafety TaskBroker TaskBrokerSafety.

(** ** The messages of a run *)

Fixpoint brokerTrace (b : Broker) (ops : list brokerOp) : list Message :=
  match ops with
  | [] => []
  | op :: ops => (brokerStep op b).2 ++ brokerTrace (brokerStep op b).1 ops
  end.

Definition acceptId (m : Message) : list nat :=
  match m with RunnerMessage _ (TaskOfferAccept _ t) => [t] | _ => [] end.
Definition settingsId (m : Message) : list nat :=
  match m with RunnerMessage _ (TaskSettings t _) => [t] | _ => [] end.
Definition answerId (m : Message) : list nat :=
  match m with RequesterMessage _ (TaskDone t _ | TaskError t _) => [t] | _ => [] end.

(** ** Ids that are used up *)

Definition spentAccept (b : Broker) (t : nat) : Prop := t < next b.
Definition spentSettings (b : Broker) (t : nat) : Prop :=
  t < next b ∧ ∀ j, map_get t (jobs b) = Some j → jb_phase j = Returned.
(** The runner has accepted the task, and it is not there any more. *)
Definition gone (b : Broker) (t : nat) : Prop :=
  t < next b ∧ (∀ j, map_get t (jobs b) = Some j → accepted j = true) ∧ map_get t (tasks b) = None.

(** The task is gone, or the handler that answered it is waiting. *)
Definition spentAnswer (b : Broker) (t : nat) : Prop :=
  t < next b ∧ (∀ j, map_get t (jobs b) = Some j → accepted j = true) ∧
  (map_get t (tasks b) = None ∨ DeleteTask t ∈ handlers b).

Definition answerOf (t : nat) (m : Message) : list nat := filter (.= t) (answerId m).

(** A step after which used ids are still used, and the same handlers wait to delete a task *)
Record quiet (b b' : Broker) : Prop := {
  q_handlers : ∀ t, DeleteTask t ∈ handlers b' ↔ DeleteTask t ∈ handlers b;
  q_next : next b ≤ next b';
  q_jobs : ∀ t j', map_get t (jobs b') = Some j' → t < next b → ∃ j, map_get t (jobs b) = Some j ∧
    (jb_phase j = Returned → jb_phase j' = Returned) ∧ (accepted j = true → accepted j' = true);
  q_tasks : ∀ t, t < next b → map_get t (tasks b) = None →
    map_get t (tasks b') = None ∨ ∃ j, map_get t (jobs b) = Some j ∧ accepted j = false;
}.

Lemma quiet_refl b : quiet b b.
Proof. split; [done|lia|eauto|auto]. Qed.

Lemma quiet_trans b1 b2 b3 : quiet b1 b2 → quiet b2 b3 → quiet b1 b3.
Proof.
  intros [H1 N1 J1 T1] [H2 N2 J2 T2]. split; [intros; by rewrite H2, H1|lia|..].
  - intros t j3 H3 Ht. destruct (J2 t j3 H3) as (j2 & ? & ? & ?); [lia|].
    destruct (J1 t j2) as (j1 & ? & ? & ?); eauto 10.
  - intros t Ht Hn. destruct (T1 t Ht Hn) as [?|?]; [|by right].
    destruct (T2 t) as [?|(j2 & Hj2 & Ha2)]; [lia|done|by left|]. right.
    destruct (J1 t j2 Hj2 Ht) as (j1 & ? & _ & Ha1). exists j1. split; [done|].
    destruct (accepted j1); [|done]. rewrite Ha1 in Ha2; done.
Qed.

#[global] Instance quiet_preorder : PreOrder quiet.
Proof. split; [exact quiet_refl|exact quiet_trans]. Qed.

(** The messages of a kind carry ids that were not used before and are used afterwards. *)
Record once (ids : Message → list nat) (spent : Broker → nat → Prop) (b b' : Broker) (ms : list Message) : Prop := {
  on_mono : ∀ t, spent b t → spent b' t;
  on_nodup : NoDup (ms ≫= ids);
  on_new : ∀ t, t ∈ ms ≫= ids → ¬ spent b t ∧ spent b' t;
}.

Lemma once_trans ids spent b1 b2 b3 ms1 ms2 :
  once ids spent b1 b2 ms1 → once ids spent b2 b3 ms2 → once ids spent b1 b3 (ms1 ++ ms2).
Proof.
  intros [M1 D1 N1] [M2 D2 N2]. split; [auto|..].
  - rewrite bind_app. apply NoDup_app. split_and!; [done| |done]. intros t [_ H1]%N1 [H2 _]%N2. done.
  - intros t. rewrite bind_app, elem_of_app. intros [[? ?]%N1|[? ?]%N2]; split; auto.
Qed.

Lemma once_none ids spent b b' ms : (∀ t, spent b t → spent b' t) → ms ≫= ids = [] → once ids spent b b' ms.
Proof. intros Hm Hn. split; [done|rewrite Hn; constructor|]. rewrite Hn. by intros t ?%elem_of_nil. Qed.

(** What the messages of a step are about.  A task is answered once if no handler that
    answered it is waiting. *)
Record messagesOk (b b' : Broker) (ms : list Message) : Prop := {
  mo_accept : once acceptId spentAccept b b' ms;
  mo_settings : once settingsId spentSettings b b' ms;
  mo_spent : ∀ t, spentAnswer b t → spentAnswer b' t;
  mo_answer : ∀ t, DeleteTask t ∉ handlers b → once (answerOf t) spentAnswer b b' ms;
  mo_gone : ∀ t, gone b t → gone b' t ∧ t ∉ ms ≫= answerId;
}.

(** A step that leaves the handlers as they are *)
Record stepOk (b b' : Broker) (ms : list Message) : Prop := {
  so_quiet : quiet b b';
  so_messages : messagesOk b b' ms;
}.

Lemma stepOk_trans b1 b2 b3 ms1 ms2 : stepOk b1 b2 ms1 → stepOk b2 b3 ms2 → stepOk b1 b3 (ms1 ++ ms2).
Proof.
  intros [Q1 [A1 S1 P1 W1 G1]] [Q2 [A2 S2 P2 W2 G2]].
  split; [by etrans|]. split; [by eapply once_trans..|auto| |].
  - intros t Ht. eapply once_trans; [by apply W1|]. apply W2. by rewrite (q_handlers _ _ Q1 t).
  - intros t Ht. destruct (G1 t Ht) as [Ht' N1]. destruct (G2 t Ht') as [Ht'' N2]. split; [done|].
    rewrite bind_app, elem_of_app. tauto.
Qed.

Lemma quiet_accept b b' t : quiet b b' → spentAccept b t → spentAccept b' t.
Proof. intros [_ N _ _]. unfold spentAccept. lia. Qed.

Lemma quiet_settings b b' t : quiet b b' → spentSettings b t → spentSettings b' t.
Proof.
  intros [_ N J _] [Ht Hj]. split; [lia|]. intros j' Hj'. destruct (J t j' Hj' Ht) as (j & Hj0 & Hr & _). auto.
Qed.

Lemma quiet_gone b b' t : quiet b b' → gone b t → gone b' t.
Proof.
  intros [_ N J T] (Ht & Hj & Hn). split; [lia|]. split.
  - intros j' Hj'. destruct (J t j' Hj' Ht) as (j & Hj0 & _ & Ha). auto.
  - destruct (T t Ht Hn) as [?|(j & Hj0 & Ha)]; [done|]. rewrite (Hj j Hj0) in Ha. done.
Qed.

Lemma quiet_answer b b' t : quiet b b' → spentAnswer b t → spentAnswer b' t.
Proof.
  intros Hq (Ht & Hj & Hs). destruct (decide (map_get t (tasks b) = None)) as [Hn|Hn].
  - destruct (quiet_gone b b' t Hq) as (? & ? & ?); [done|]. split_and!; auto.
  - destruct Hs as [?|Hs]; [done|]. destruct Hq as [H1 N J _]. split; [lia|]. split; [|right; by apply H1].
    intros j' Hj'. destruct (J t j' Hj' Ht) as (j & Hj0 & _ & Ha). auto.
Qed.

#[export] Hint Resolve quiet_accept quiet_settings quiet_answer quiet_gone quiet_refl : n8n.

Lemma answerOf_none t ms : ms ≫= answerId = [] → ms ≫= answerOf t = [].
Proof.
  induction ms as [|m ms IH]; [done|]. csimpl. intros [H1 H2]%app_nil.
  rewrite IH by done. unfold answerOf. by rewrite H1.
Qed.

(** No answer is among the messages. *)
Lemma messages_unanswered b b' ms :
  quiet b b' → once acceptId spentAccept b b' ms → once settingsId spentSettings b b' ms → ms ≫= answerId = [] →
  messagesOk b b' ms.
Proof.
  intros Hq ?? Ha. split; [done|done|eauto with n8n| |].
  - intros t _. apply once_none; [eauto with n8n|by apply answerOf_none].
  - intros t Ht. split; [eauto with n8n|]. rewrite Ha. apply not_elem_of_nil.
Qed.

(** A step whose messages are of none of the three kinds *)
Lemma stepOk_plain b b' ms :
  quiet b b' → ms ≫= acceptId = [] → ms ≫= settingsId = [] → ms ≫= answerId = [] → stepOk b b' ms.
Proof.
  intros Hq ???. split; [done|]. apply messages_unanswered; [done|apply once_none; eauto with n8n..|done].
Qed.

Lemma stepOk_silent b b' : quiet b b' → stepOk b b' [].
Proof. intros Hq. by apply stepOk_plain. Qed.

Lemma stepOk_quiet_l b b1 b2 ms : quiet b b1 → stepOk b1 b2 ms → stepOk b b2 ms.
Proof. intros Hq Hs. change ms with ([] ++ ms). eapply stepOk_trans; [by apply stepOk_silent|done]. Qed.

Lemma stepOk_quiet_r b b1 b2 ms : stepOk b b1 ms → quiet b1 b2 → stepOk b b2 ms.
Proof. intros Hs Hq. rewrite <- (app_nil_r ms). eapply stepOk_trans; [done|by apply stepOk_silent]. Qed.

(** A message of another kind *)
Definition other (m : Message) : Prop := acceptId m = [] ∧ settingsId m = [] ∧ answerId m = [].

Lemma stepOk_runner b b' runnerId m b0 :
  quiet b b' → other (RunnerMessage runnerId m) → stepOk b b' (messageRunner runnerId m b0).
Proof.
  intros Hq (H1 & H2 & H3). unfold messageRunner. destruct (map_has _ _); [|by apply stepOk_silent].
  apply stepOk_plain; simpl in *; by rewrite ?H1, ?H2, ?H3.
Qed.

Lemma stepOk_requester b b' requesterId m b0 :
  quiet b b' → other (RequesterMessage requesterId m) → stepOk b b' (messageRequester requesterId m b0).
Proof.
  intros Hq (H1 & H2 & H3). unfold messageRequester. destruct (set_has _ _); [|by apply stepOk_silent].
  apply stepOk_plain; simpl in *; by rewrite ?H1, ?H2, ?H3.
Qed.

(** ** Parts of the handlers *)

Lemma quiet_ext b b' :
  jobs b' = jobs b ∧ handlers b' = handlers b → next b ≤ next b' →
  (∀ t, map_get t (tasks b) = None → map_get t (tasks b') = None) → quiet b b'.
Proof. intros [Hj Hh] Hn Ht. split; [by rewrite Hh|done| |auto]. rewrite Hj. eauto. Qed.

Lemma quiet_deleteTask t b : quiet b (setTasks (map_delete t (tasks b)) b).
Proof. apply quiet_ext; [done..|]. simpl. intros t' Ht'. rewrite map_get_delete. by case_bools. Qed.

Lemma quiet_clearTimer timer b : quiet b (clearTimer timer b).
Proof. destruct timer; [|done]. by apply quiet_ext. Qed.

Lemma quiet_updateRequest ref f b : quiet b (updateRequest ref f b).
Proof. unfold updateRequest. destruct (map_get ref (requests b)); [by apply quiet_ext|done]. Qed.

Lemma quiet_updateJob t f b :
  (∀ j, (jb_phase j = Returned → jb_phase (f j) = Returned) ∧ (accepted j = true → accepted (f j) = true)) →
  quiet b (updateJob t f b).
Proof.
  intros Hf. unfold updateJob. destruct (map_get t (jobs b)) as [j|] eqn:Hj; [|done].
  split; simpl; [done|lia| |auto]. intros t' j'. rewrite map_get_set. case_bools; [|eauto].
  intros [= <-] _. subst. exists j. split; [done|apply Hf].
Qed.

Lemma quiet_dropJob t b : quiet b (dropJob t b).
Proof. split; simpl; [done|lia| |auto]. intros t' j'. rewrite map_get_delete. case_bools; [done|eauto]. Qed.

Lemma quiet_finishJob t b : quiet b (finishJob t b).
Proof. by apply quiet_updateJob. Qed.

Lemma quiet_answerRunner t answer b : quiet b (answerRunner t answer b).
Proof. apply quiet_updateJob. intros j. unfold accepted. by destruct (jb_phase j) as [[]| |] eqn:Hp; rewrite ?Hp. Qed.

Lemma quiet_settleRunner t answer b : quiet b (settleRunner t answer b).
Proof.
  unfold settleRunner. destruct (set_has _ _); [|done].
  etrans; [apply (quiet_answerRunner t answer)|]. by apply quiet_ext.
Qed.

Lemma quiet_answerRequester t answer b : quiet b (answerRequester t answer b).
Proof. apply quiet_updateJob. intros j. unfold accepted. by destruct (jb_phase j) as [|[]|] eqn:Hp; rewrite ?Hp. Qed.

Lemma quiet_settleRequester t answer b : quiet b (settleRequester t answer b).
Proof.
  unfold settleRequester. destruct (set_has _ _); [|done].
  etrans; [apply (quiet_answerRequester t answer)|]. by apply quiet_ext.
Qed.

#[export] Hint Resolve quiet_deleteTask quiet_clearTimer quiet_updateRequest quiet_dropJob quiet_finishJob
  quiet_settleRunner quiet_settleRequester quiet_answerRunner quiet_answerRequester : n8n.

Lemma task_accepted b t task : brokerInv b → map_get t (tasks b) = Some task →
  tk_id task = t ∧ t < next b ∧ ∀ j, map_get t (jobs b) = Some j → accepted j = true.
Proof.
  intros Hb Ht. destruct (bi_tasks b Hb t task (map_get_elem_of _ _ _ Ht)) as (j & r & Hj & _ & Hacc & Hid & _).
  split; [done|]. split; [exact (bi_jobs_fresh b Hb t j Hj)|]. intros j' Hj'. congruence.
Qed.

(** A task is answered: it is gone afterwards, or the handler waits. *)
Lemma answer_messages t task m b b' b0 requesterId :
  brokerInv b → map_get t (tasks b) = Some task → next b' = next b → jobs b' = jobs b →
  (∀ t', gone b t' → gone b' t') → (∀ t', spentAnswer b t' → spentAnswer b' t') →
  map_get t (tasks b') = None ∨ DeleteTask t ∈ handlers b' →
  acceptId (RequesterMessage requesterId m) = [] → settingsId (RequesterMessage requesterId m) = [] →
  answerId (RequesterMessage requesterId m) = [t] → messagesOk b b' (messageRequester requesterId m b0).
Proof.
  intros Hb Ht En Ej Hg Hs Hended H1 H2 H3. destruct (task_accepted b t task Hb Ht) as (_ & Hlt & Hacc).
  assert (∀ t', spentAccept b t' → spentAccept b' t') by (unfold spentAccept; by rewrite En).
  assert (∀ t', spentSettings b t' → spentSettings b' t') by (unfold spentSettings; by rewrite En, Ej).
  unfold messageRequester. destruct (set_has _ _).
  - split; [apply once_none; simpl in *; rewrite ?H1; done|apply once_none; simpl in *; rewrite ?H2; done|done| |].
    + intros t' Hn. split; [apply Hs|..]; simpl; unfold answerOf; simpl in *; rewrite H3, app_nil_r.
      * apply NoDup_filter, NoDup_singleton.
      * intros t'' [-> ->%list_elem_of_singleton]%list_elem_of_filter. split; [|by split_and!; rewrite ?En, ?Ej].
        intros (_ & _ & [Hnone|Hin]); [congruence|done].
    + intros t' Hgone. split; [auto|]. simpl in *. rewrite H3. simpl. intros ->%list_elem_of_singleton.
      destruct Hgone as (_ & _ & ?). congruence.
  - split; [by apply once_none..|done|intros; by apply once_none|]. intros t' Ht'. split; [auto|apply not_elem_of_nil].
Qed.

Lemma failTask_ok t error b : brokerInv b → stepOk b (failTask t error b).1 (failTask t error b).2.
Proof.
  intros Hb. unfold failTask. destruct (map_get t (tasks b)) as [task|] eqn:Ht; [|by apply stepOk_silent].
  split; [eauto with n8n|]. eapply (answer_messages t task); try done; [eauto with n8n..|].
  left. simpl. by rewrite map_get_delete, bool_decide_true.
Qed.

Lemma stepOk_messages b b' ms : stepOk b b' ms → messagesOk b b' ms.
Proof. by intros []. Qed.

Lemma endTask_ok t m b :
  brokerInv b → (∀ requesterId, acceptId (RequesterMessage requesterId m) = [] ∧
    settingsId (RequesterMessage requesterId m) = [] ∧ answerId (RequesterMessage requesterId m) = [t]) →
  messagesOk b (endTask t m b).1 (endTask t m b).2.
Proof.
  intros Hb Hm. unfold endTask. destruct (map_get t (tasks b)) as [task|] eqn:Ht;
    [|by apply stepOk_messages, stepOk_silent].
  destruct (task_accepted b t task Hb Ht) as [Hid _]. destruct (Hm (tk_requesterId task)) as (? & ? & ?).
  eapply (answer_messages t task); try done; simpl.
  - by destruct (tk_timeout task).
  - by destruct (tk_timeout task).
  - intros t'. unfold gone. by destruct (tk_timeout task).
  - intros t'. unfold spentAnswer. simpl. rewrite elem_of_app. destruct (tk_timeout task); simpl; tauto.
  - right. rewrite elem_of_app, list_elem_of_singleton. right. by rewrite Hid.
Qed.

Lemma cancelTask_ok t reason b : stepOk b (cancelTask t reason b).1 (cancelTask t reason b).2.
Proof.
  unfold cancelTask. destruct (map_get t (tasks b)); [|by apply stepOk_silent].
  apply stepOk_runner; [eauto with n8n|done].
Qed.

Lemma getRunnerOrFailTask_ok t b :
  brokerInv b → stepOk b (getRunnerOrFailTask t b).1.1 (getRunnerOrFailTask t b).1.2.
Proof.
  intros Hb. unfold getRunnerOrFailTask. destruct (map_get t (tasks b)) as [task|]; [|by apply stepOk_silent].
  destruct (map_get (tk_runnerId task) (knownRunners b)); [by apply stepOk_silent|].
  pose proof (failTask_ok t ("Cannot find runner, failed to find runner (" +:+ tk_runnerId task +:+ ")") b Hb) as Hf.
  by destruct (failTask _ _ _).
Qed.

Lemma forwardToRunner_ok t m b :
  brokerInv b → (∀ runnerId, other (RunnerMessage runnerId m)) →
  stepOk b (forwardToRunner t m b).1 (forwardToRunner t m b).2.
Proof.
  intros Hb Hm. unfold forwardToRunner. destruct (map_has t (tasks b)); [|by apply stepOk_silent].
  pose proof (getRunnerOrFailTask_ok t b Hb) as Hg. destruct (getRunnerOrFailTask t b) as [[b' sent] [runner|]]; [|done].
  eapply stepOk_trans; [done|]. by apply stepOk_runner.
Qed.

Lemma forwardToRequester_ok t m b :
  (∀ requesterId, other (RequesterMessage requesterId m)) → stepOk b b (forwardToRequester t m b).
Proof.
  intros Hm. unfold forwardToRequester. destruct (map_get t (tasks b)); [by apply stepOk_requester|by apply stepOk_silent].
Qed.

(** *** The steps that use an id *)

Lemma acceptOffer_ok offer ref b : stepOk b (acceptOffer offer ref b).1 (acceptOffer offer ref b).2.
Proof.
  unfold acceptOffer. simpl.
  match goal with |- stepOk _ ?x _ => assert (quiet b x) as Hq end.
  { split; simpl; [done|lia| |auto]. intros t j'. rewrite map_get_set. case_bools; [lia|eauto]. }
  unfold messageRunner. destruct (map_has _ _); [|by apply stepOk_silent].
  split; [done|]. apply messages_unanswered; [done| |apply once_none; eauto with n8n|done].
  split; [intros t; by apply quiet_accept|repeat constructor; set_solver|].
  intros t ->%list_elem_of_singleton. unfold spentAccept. simpl. lia.
Qed.

Lemma settleRequest_ok b0 acc ref :
  stepOk b0 acc.1 acc.2 → stepOk b0 (settleRequest acc ref).1 (settleRequest acc ref).2.
Proof.
  destruct acc as [b messages]. cbn [fst snd]. intros Hs. unfold settleRequest. destruct (map_get ref (requests b)) as [r|]; [|done].
  destruct (rq_acceptInProgress r); [done|]. destruct (spliceOffer _ _) as [[offer rest]|].
  - match goal with |- context [acceptOffer offer ref ?x] => pose proof (acceptOffer_ok offer ref x) as Ha end.
    destruct (acceptOffer _ _ _) as [b1 sent]. simpl in *. eapply stepOk_trans; [done|].
    eapply stepOk_quiet_l; [|exact Ha]. etrans; [apply (quiet_updateRequest ref (withProgress true))|]. by apply quiet_ext.
  - simpl. eapply stepOk_quiet_r; [done|]. unfold warnOnTaskTypeMismatch. case_bools; [done|].
    destruct (set_has _ _); [done|]. by apply quiet_ext.
Qed.

Lemma settleTasks_ok now b : stepOk b (settleTasks now b).1 (settleTasks now b).2.
Proof.
  unfold settleTasks. generalize (pendingTaskRequests (expireTasks now b)). intros l.
  assert (stepOk b (expireTasks now b, @nil Message).1 (expireTasks now b, @nil Message).2) as H0
    by (apply stepOk_silent; by apply quiet_ext).
  revert H0. generalize (expireTasks now b, @nil Message) as acc.
  induction l as [|ref l IH]; intros acc Hacc; simpl; [done|]. by apply IH, settleRequest_ok.
Qed.

Lemma taskRequested_ok request now b :
  stepOk b (taskRequested request now b).1 (taskRequested request now b).2.
Proof.
  unfold taskRequested. destruct (isDraining b).
  - apply stepOk_requester; [eauto with n8n|done].
  - simpl. eapply stepOk_quiet_l; [|apply settleTasks_ok]. apply quiet_ext; simpl; [done|lia|done].
Qed.

Lemma quiet_replaceTask t task task' b :
  map_get t (tasks b) = Some task → quiet b (setTasks (map_set t task' (tasks b)) b).
Proof.
  intros Ht. apply quiet_ext; [done..|]. simpl. intros t' Hn. rewrite map_get_set. case_bools; [congruence|done].
Qed.

(** The settings are sent to the runner of the task. *)
Lemma sendSettings_ok t runnerId settings task' b b0 :
  brokerInv b → (∃ j answer, map_get t (jobs b) = Some j ∧ jb_phase j = AwaitRequester answer) →
  (∃ task, map_get t (tasks b) = Some task) →
  stepOk b (setTasks (map_set t task' (tasks b)) (setTimer (TaskTimeout t) (finishJob t b)).2)
    (messageRunner runnerId (TaskSettings t settings) b0).
Proof.
  intros Hb (j & answer & Hj & Hp) (task & Ht).
  match goal with |- stepOk _ ?x _ => assert (quiet b x) as Hq end.
  { etrans; [apply (quiet_finishJob t)|]. unfold finishJob, updateJob. rewrite Hj. simpl.
    apply quiet_ext; simpl; [done|lia|]. intros t' Hn. rewrite map_get_set. case_bools; [congruence|done]. }
  unfold messageRunner. destruct (map_has _ _); [|by apply stepOk_silent].
  split; [done|]. apply messages_unanswered; [done|apply once_none; eauto with n8n| |done].
  split; [intros t'; by apply quiet_settings|repeat constructor; set_solver|].
  intros t' ->%list_elem_of_singleton. split.
  - intros [_ Hr]. specialize (Hr j Hj). congruence.
  - pose proof (bi_jobs_fresh b Hb t j Hj) as Hlt. unfold finishJob, updateJob. rewrite Hj. split; simpl; [lia|].
    intros j'. rewrite map_get_set, bool_decide_true by done. by intros [= <-].
Qed.

Lemma finishJob_tasks t b : tasks (finishJob t b) = tasks b ∧ knownRunners (finishJob t b) = knownRunners b.
Proof. unfold finishJob, updateJob. by destruct (map_get t (jobs b)). Qed.

Lemma sendTaskSettings_ok t settings b :
  brokerInv b → brokerInv (finishJob t b) →
  (∃ j answer, map_get t (jobs b) = Some j ∧ jb_phase j = AwaitRequester answer) →
  stepOk b (sendTaskSettings t settings (finishJob t b)).1.1 (sendTaskSettings t settings (finishJob t b)).1.2.
Proof.
  intros Hb Hf Hj. unfold sendTaskSettings. destruct (map_has t (tasks (finishJob t b))); [|apply stepOk_silent, quiet_finishJob].
  pose proof (getRunnerOrFailTask_ok t _ Hf) as Hg. unfold getRunnerOrFailTask in *.
  destruct (finishJob_tasks t b) as [Et Ek]. rewrite Et, Ek in *.
  destruct (map_get t (tasks b)) as [task|] eqn:Ht; [|apply stepOk_silent, quiet_finishJob].
  destruct (map_get (tk_runnerId task) (knownRunners b)) as [runner|].
  - rewrite Et, Ht. cbn [fst snd app]. pose proof (λ task', sendSettings_ok t (tr_id runner) settings task' b) as Hs.
    simpl in Hs. simpl. rewrite Et. apply Hs; [done|done|by exists task].
  - destruct (failTask _ _ _) as [b1 sent]. eapply stepOk_quiet_l; [apply (quiet_finishJob t)|done].
Qed.

Lemma resumeRequester_ok t b : brokerInv b → stepOk b (resumeRequester t b).1 (resumeRequester t b).2.
Proof.
  intros Hb. unfold resumeRequester. destruct (map_get t (jobs b)) as [j|] eqn:Hj; simpl; [|by apply stepOk_silent].
  destruct (jb_phase j) as [|answer|] eqn:Hp; [by apply stepOk_silent| |by apply stepOk_silent].
  assert (brokerInv (finishJob t b)) as Hf.
  { apply finishJob_inv; [done|]. intros j' Hj'. simplify_eq. unfold accepted. by rewrite Hp. }
  destruct answer as [|settings|reason|]; [by apply stepOk_silent| |
    (eapply stepOk_quiet_l; [apply (quiet_finishJob t)|apply cancelTask_ok])..].
  pose proof (sendTaskSettings_ok t settings b Hb Hf) as Hs.
  destruct (sendTaskSettings _ _ _) as [[b1 sent] []]; simpl in *; [eauto|].
  pose proof (cancelTask_ok t "Unknown reason" b1) as Hc. destruct (cancelTask _ _ _) as [b2 cancelled].
  eapply stepOk_trans; [by eauto|done].
Qed.

(** The runner has accepted the task, or has given it up. *)
Lemma resumeRunner_ok t b : stepOk b (resumeRunner t b).1 (resumeRunner t b).2.
Proof.
  unfold resumeRunner. destruct (map_get t (jobs b)) as [j|] eqn:Hj; [|by apply stepOk_silent].
  destruct (map_get (jb_request j) (requests b)) as [r|]; [|by apply stepOk_silent].
  destruct (jb_phase j) as [answer| |] eqn:Hp; [|by apply stepOk_silent..].
  assert (∀ phase b', accepted (withPhase phase j) = true → jobs b' = map_set t (withPhase phase j) (jobs b) →
    handlers b' = handlers b → next b' = next b → (∀ t', t' ≠ t → map_get t' (tasks b') = map_get t' (tasks b)) → quiet b b') as Haccept.
  { intros phase b' Ha Ej Eh En Et. split; [by rewrite Eh|lia|..].
    - intros t' j'. rewrite Ej, map_get_set. case_bools; [|eauto]. subst. intros [= <-] _. exists j.
      unfold accepted in *. rewrite Hp. split_and!; [done|done|auto].
    - intros t' _ Hn. destruct (decide (t' = t)) as [->|Hne]; [|left; by rewrite Et].
      right. exists j. unfold accepted. by rewrite Hp. }
  assert (∀ f, quiet b (dropJob t (updateRequest (jb_request j) f b))) as Hdrop
    by (intros f; etrans; [apply quiet_updateRequest|apply quiet_dropJob]).
  destruct answer; simpl; [by apply stepOk_silent| |by apply stepOk_silent| |by apply stepOk_silent].
  - destruct (rq_timeout r) as [n|]; simpl;
      (destruct (spliceRequest _ _ _) as [[ref rest]|]; simpl; unfold finishJob, updateJob; simpl; rewrite Hj;
       [apply stepOk_requester; [|done]|apply stepOk_silent];
       (eapply Haccept; [|reflexivity|reflexivity|reflexivity|intros t' Hne; simpl; by rewrite map_get_set_ne]; done)).
  - apply stepOk_silent. etrans; [|apply quiet_dropJob]. etrans; [|apply quiet_updateRequest].
    apply quiet_trans with (updateRequest (jb_request j) (withProgress false) b); [eauto with n8n|].
    etrans; [apply (quiet_clearTimer (rq_timeout r))|]. apply quiet_ext; simpl; [done|lia|done].
Qed.

Lemma handleRequestTimeout_ok requestId b :
  stepOk b (handleRequestTimeout requestId b).1 (handleRequestTimeout requestId b).2.
Proof.
  unfold handleRequestTimeout. destruct (spliceRequest _ _ _) as [[ref rest]|]; [|by apply stepOk_silent].
  destruct (map_get ref (requests b)) as [r|]; [|by apply stepOk_silent].
  apply stepOk_requester; [|done]. etrans; [|apply quiet_clearTimer]. by apply quiet_ext.
Qed.

Lemma messages_quiet_l b b1 b2 ms : quiet b b1 → messagesOk b1 b2 ms → messagesOk b b2 ms.
Proof.
  intros Hq [[A1 A2 A3] [S1 S2 S3] P W G]. split.
  - split; [eauto with n8n|done|]. intros t [Hn ?]%A3. split; [|done]. intros Hs. eauto with n8n.
  - split; [eauto with n8n|done|]. intros t [Hn ?]%S3. split; [|done]. intros Hs. eauto with n8n.
  - eauto with n8n.
  - intros t Ht. rewrite <- (q_handlers _ _ Hq t) in Ht. destruct (W t Ht) as [W1 W2 W3].
    split; [eauto with n8n|done|]. intros t' [Hn ?]%W3. split; [|done]. intros Hs. eauto with n8n.
  - intros t Ht. apply G. eauto with n8n.
Qed.

Lemma handlers_quiet b x : (∀ t, DeleteTask t ∈ x ↔ DeleteTask t ∈ handlers b) → quiet b (setHandlers x b).
Proof. intros Hx. split; [done|simpl; lia|eauto|auto]. Qed.

Lemma failTimedOut_ok t b : brokerInv b → messagesOk b (failTimedOut t b).1 (failTimedOut t b).2.
Proof. intros Hb. by apply endTask_ok. Qed.

Lemma handleTaskTimeout_ok mode t b :
  brokerInv b → messagesOk b (handleTaskTimeout mode t b).1 (handleTaskTimeout mode t b).2.
Proof.
  intros Hb. unfold handleTaskTimeout. destruct (map_get t (tasks b)) as [task|];
    [|by apply stepOk_messages, stepOk_silent].
  case_bools; [|by apply failTimedOut_ok]. apply stepOk_messages, stepOk_runner; [|done].
  apply handlers_quiet. set_solver.
Qed.

Lemma resumeHandler_ok n b : brokerInv b → messagesOk b (resumeHandler n b).1 (resumeHandler n b).2.
Proof.
  intros Hb. unfold resumeHandler. destruct (handlers b !! n) as [handler|] eqn:Hn;
    [|by apply stepOk_messages, stepOk_silent].
  assert (∀ x, x ∈ handlers b ↔ x = handler ∨ x ∈ take n (handlers b) ++ drop (S n) (handlers b)) as Hsplit.
  { intros x. rewrite <- (take_drop_middle _ _ _ Hn) at 1. rewrite !elem_of_app, elem_of_cons. tauto. }
  destruct handler as [t|t]; simpl.
  - assert (∀ t', gone b t' → gone (setTasks (map_delete t (tasks b)) (setHandlers
      (take n (handlers b) ++ drop (S n) (handlers b)) b)) t') as Hgone.
    { intros t' (? & ? & Ht'). split_and!; [done..|]. simpl. rewrite map_get_delete. by case_bools. }
    assert (∀ t', spentAnswer b t' → spentAnswer (setTasks (map_delete t (tasks b)) (setHandlers
      (take n (handlers b) ++ drop (S n) (handlers b)) b)) t') as Hspent.
    { intros t' (? & ? & Ht'). split_and!; [done..|]. simpl. rewrite map_get_delete. case_bools; [by left|].
      destruct Ht' as [|Ht']; [by left|right]. apply Hsplit in Ht' as [[=]|]; done. }
    split; [by apply once_none..|done|intros; by apply once_none|]. intros t' Ht'. split; [auto|apply not_elem_of_nil].
  - eapply messages_quiet_l; [|by apply failTimedOut_ok, setHandlers_inv].
    apply handlers_quiet. intros t'. rewrite Hsplit. naive_solver.
Qed.

Lemma deregisterRunner_ok runnerId error b :
  brokerInv b → stepOk b (deregisterRunner runnerId error b).1 (deregisterRunner runnerId error b).2.
Proof.
  intros Hb. unfold deregisterRunner. set (b1 := setPendingTaskOffers _ _).
  assert (brokerInv (b1, @nil Message).1) as H0 by (revert Hb; by apply brokerInv_ext).
  assert (stepOk b (b1, @nil Message).1 (b1, @nil Message).2) as H1 by (apply stepOk_silent; by apply quiet_ext).
  revert H0 H1. generalize (b1, @nil Message) as acc. generalize (tasks b1).*2.
  intros l. induction l as [|task l IH]; intros acc Hacc Hok; simpl; [done|].
  destruct acc as [b2 messages]. simpl in *. case_bools; [|by apply IH].
  pose proof (failTask_inv (tk_id task) error b2 Hacc) as Hf. pose proof (failTask_ok (tk_id task) error b2 Hacc) as Hs.
  destruct (failTask _ _ _) as [b3 sent]. apply IH; [by apply settleRunner_inv|].
  eapply stepOk_quiet_r; [by eapply stepOk_trans|]. apply quiet_settleRunner.
Qed.

Lemma onRunnerMessage_ok runnerId m now b :
  brokerInv b → messagesOk b (onRunnerMessage runnerId m now b).1 (onRunnerMessage runnerId m now b).2.
Proof.
  intros Hb. unfold onRunnerMessage. destruct (map_has runnerId (knownRunners b)); [|by apply stepOk_messages, stepOk_silent].
  destruct m; try (by apply endTask_ok); apply stepOk_messages.
  1-3: apply stepOk_silent, quiet_settleRunner.
  - eapply stepOk_quiet_l; [|apply settleTasks_ok]. by apply quiet_ext.
  - by apply forwardToRequester_ok.
  - by apply forwardToRequester_ok.
  - by apply forwardToRequester_ok.
  - by apply stepOk_silent.
Qed.

Lemma onRequesterMessage_ok requesterId m now b :
  brokerInv b → stepOk b (onRequesterMessage requesterId m now b).1 (onRequesterMessage requesterId m now b).2.
Proof.
  intros Hb. destruct m; cbn [onRequesterMessage].
  - apply stepOk_silent, quiet_settleRequester.
  - apply cancelTask_ok.
  - simpl. eapply stepOk_quiet_l; [|apply taskRequested_ok]. apply quiet_ext; simpl; [done|lia|done].
  - by apply forwardToRunner_ok.
  - by apply forwardToRunner_ok.
  - by apply forwardToRunner_ok.
Qed.

Lemma fireTimer_ok mode timer b : brokerInv b → messagesOk b (fireTimer mode timer b).1 (fireTimer mode timer b).2.
Proof.
  intros Hb. unfold fireTimer. destruct (map_get timer (timers b)) as [[]|]; [| |by apply stepOk_messages, stepOk_silent];
    (eapply messages_quiet_l; [apply (quiet_clearTimer (Some timer))|]).
  - apply stepOk_messages, handleRequestTimeout_ok.
  - by apply handleTaskTimeout_ok, (clearTimer_inv (Some timer)).
Qed.

Lemma brokerStep_ok op b : brokerInv b → messagesOk b (brokerStep op b).1 (brokerStep op b).2.
Proof.
  intros Hb. destruct op; cbn [brokerStep];
    try (by apply onRunnerMessage_ok); try (by apply resumeHandler_ok); try (by apply fireTimer_ok);
    apply stepOk_messages.
  - by apply onRequesterMessage_ok.
  - apply stepOk_runner; [by apply quiet_ext|done].
  - by apply deregisterRunner_ok.
  - apply stepOk_silent. by apply quiet_ext.
  - apply stepOk_silent. by apply quiet_ext.
  - apply stepOk_silent, quiet_settleRequester.
  - apply stepOk_silent, quiet_answerRunner.
  - apply stepOk_silent, quiet_answerRequester.
  - apply resumeRunner_ok.
  - by apply resumeRequester_ok.
  - apply stepOk_silent. destruct draining; by apply quiet_ext.
Qed.

(** ** Events that may answer a task *)

(** The tasks that an event may answer: what a runner sends at their end, what a requester
    sends to their runner, the loss of the runner, and the timer *)
Definition concerns (op : brokerOp) (b : Broker) : list nat :=
  match op with
  | FromRunnerOp _ (RunnerTaskDone t _ | RunnerTaskError t _) _ => [t]
  | FromRequesterOp _ (RequesterTaskDataResponse t _ _ | RequesterNodeTypesResponse t _ _ |
      RequesterRpcResponse t _ _ _) _ => [t]
  | DeregisterRunner runnerId _ => tk_id <$> filter (λ task, tk_runnerId task = runnerId) (tasks b).*2
  | FireTimer _ timer => match map_get timer (timers b) with Some (TaskTimeout t) => [t] | _ => [] end
  | ResumeRequester t => [t]
  | ResumeHandler n => match handlers b !! n with Some (FailTimedOut t) => [t] | _ => [] end
  | _ => []
  end.

Definition answersOnly (ids : list nat) (ms : list Message) : Prop := ∀ t, t ∈ ms ≫= answerId → t ∈ ids.

Lemma answersOnly_nil ids : answersOnly ids [].
Proof. by intros t ?%elem_of_nil. Qed.

Lemma answersOnly_app ids ms1 ms2 : answersOnly ids ms1 → answersOnly ids ms2 → answersOnly ids (ms1 ++ ms2).
Proof. intros H1 H2 t. rewrite bind_app, elem_of_app. intros [?|?]; auto. Qed.

Lemma answersOnly_runner ids runnerId m b : answersOnly ids (messageRunner runnerId m b).
Proof. unfold messageRunner. destruct (map_has _ _); [|apply answersOnly_nil]. intros t. simpl. by rewrite elem_of_nil. Qed.

Lemma answersOnly_requester ids requesterId m b :
  (∀ t, t ∈ answerId (RequesterMessage requesterId m) → t ∈ ids) → answersOnly ids (messageRequester requesterId m b).
Proof.
  intros Hm. unfold messageRequester. destruct (set_has _ _); [|apply answersOnly_nil]. intros t. csimpl.
  rewrite app_nil_r. apply Hm.
Qed.

#[export] Hint Resolve answersOnly_nil answersOnly_app answersOnly_runner : n8n.

Lemma failTask_answers t error b : answersOnly [t] (failTask t error b).2.
Proof. unfold failTask. destruct (map_get t (tasks b)); [by apply answersOnly_requester|apply answersOnly_nil]. Qed.

Lemma endTask_answers t m b :
  (∀ requesterId, answerId (RequesterMessage requesterId m) = [t]) → answersOnly [t] (endTask t m b).2.
Proof.
  intros Hm. unfold endTask. destruct (map_get t (tasks b)); [|apply answersOnly_nil].
  apply answersOnly_requester. intros t'. by rewrite Hm.
Qed.

Lemma cancelTask_answers ids t reason b : answersOnly ids (cancelTask t reason b).2.
Proof. unfold cancelTask. destruct (map_get t (tasks b)); eauto with n8n. Qed.

Lemma getRunnerOrFailTask_answers t b : answersOnly [t] (getRunnerOrFailTask t b).1.2.
Proof.
  unfold getRunnerOrFailTask. destruct (map_get t (tasks b)) as [task|]; [|apply answersOnly_nil].
  destruct (map_get _ _); [apply answersOnly_nil|].
  pose proof (failTask_answers t ("Cannot find runner, failed to find runner (" +:+ tk_runnerId task +:+ ")") b) as Hf.
  by destruct (failTask _ _ _).
Qed.

Lemma forwardToRunner_answers t m b : answersOnly [t] (forwardToRunner t m b).2.
Proof.
  unfold forwardToRunner. destruct (map_has t (tasks b)); [|apply answersOnly_nil].
  pose proof (getRunnerOrFailTask_answers t b) as Hg. destruct (getRunnerOrFailTask t b) as [[b' sent] [runner|]]; [|done].
  simpl in *. eauto with n8n.
Qed.

Lemma forwardToRequester_answers t m b :
  (∀ requesterId, answerId (RequesterMessage requesterId m) = []) → answersOnly [] (forwardToRequester t m b).
Proof.
  intros Hm. unfold forwardToRequester. destruct (map_get t (tasks b)); [|apply answersOnly_nil].
  apply answersOnly_requester. intros t'. by rewrite Hm.
Qed.

Lemma resumeRequester_answers t b : answersOnly [t] (resumeRequester t b).2.
Proof.
  unfold resumeRequester. destruct (_ <$> _) as [[|[|settings|reason|]|]|];
    try apply answersOnly_nil; try apply cancelTask_answers.
  pose proof (getRunnerOrFailTask_answers t (finishJob t b)) as Hg. unfold sendTaskSettings.
  destruct (map_has t _); [|apply answersOnly_nil].
  destruct (getRunnerOrFailTask t _) as [[b' sent] [runner|]]; simpl in Hg.
  - destruct (map_get t (tasks b')); [|done]. simpl. eauto with n8n.
  - pose proof (cancelTask_answers [t] t "Unknown reason" b') as Hc. destruct (cancelTask _ _ _).
    by apply answersOnly_app.
Qed.

Lemma settleTasks_answers now b : answersOnly [] (settleTasks now b).2.
Proof.
  unfold settleTasks. generalize (pendingTaskRequests (expireTasks now b)). intros l.
  assert (answersOnly [] (expireTasks now b, @nil Message).2) as H0 by apply answersOnly_nil.
  revert H0. generalize (expireTasks now b, @nil Message) as acc.
  induction l as [|ref l IH]; intros acc Hacc; [done|]. simpl. apply IH. clear IH.
  destruct acc as [b1 messages]. simpl in *. destruct (map_get ref (requests b1)) as [r|]; [|done].
  destruct (rq_acceptInProgress r); [done|]. destruct (spliceOffer _ _) as [[offer rest]|]; [|done].
  simpl. eauto with n8n.
Qed.

Lemma deregisterRunner_answers runnerId error b :
  answersOnly (concerns (DeregisterRunner runnerId error) b) (deregisterRunner runnerId error b).2.
Proof.
  unfold deregisterRunner. cbn [concerns]. set (b1 := setPendingTaskOffers _ _). change (tasks b1) with (tasks b).
  assert (∀ l acc ids, answersOnly ids acc.2 →
    (∀ task, task ∈ l → tk_runnerId task = runnerId → tk_id task ∈ ids) →
    answersOnly ids (foldl (failRunnerTask runnerId error) acc l).2) as Hfold.
  { induction l as [|task l IH]; intros acc ids Hacc Hl; [done|]. simpl. apply IH; [|set_solver].
    destruct acc as [b2 messages]. simpl in *. case_bools; [|done].
    pose proof (failTask_answers (tk_id task) error b2) as Hf. destruct (failTask _ _ _) as [b3 sent].
    apply answersOnly_app; [done|]. intros t Ht. apply Hf, list_elem_of_singleton in Ht as ->. apply Hl; [by left|done]. }
  apply Hfold; [apply answersOnly_nil|]. intros task Hin Hr. apply list_elem_of_fmap. exists task.
  by rewrite list_elem_of_filter.
Qed.

Lemma resumeRunner_answers t b : answersOnly [] (resumeRunner t b).2.
Proof.
  unfold resumeRunner. destruct (map_get t (jobs b)) as [j|]; [|apply answersOnly_nil].
  destruct (map_get _ _) as [r|]; [|apply answersOnly_nil].
  destruct (jb_phase j) as [[]| |]; simpl; try apply answersOnly_nil.
  destruct (spliceRequest _ _ _) as [[ref rest]|]; [|apply answersOnly_nil].
  apply answersOnly_requester. simpl. by intros ? ?%elem_of_nil.
Qed.

Lemma onRunnerMessage_answers runnerId m now b :
  answersOnly (concerns (FromRunnerOp runnerId m now) b) (onRunnerMessage runnerId m now b).2.
Proof.
  unfold onRunnerMessage. destruct (map_has _ _); [|apply answersOnly_nil].
  destruct m; simpl; try apply answersOnly_nil; try (by apply endTask_answers);
    try (by apply forwardToRequester_answers). apply settleTasks_answers.
Qed.

Lemma onRequesterMessage_answers requesterId m now b :
  answersOnly (concerns (FromRequesterOp requesterId m now) b) (onRequesterMessage requesterId m now b).2.
Proof.
  destruct m; simpl; try apply answersOnly_nil; try apply forwardToRunner_answers; try apply cancelTask_answers.
  unfold taskRequested. destruct (isDraining _); [|apply settleTasks_answers].
  apply answersOnly_requester. simpl. by intros ? ?%elem_of_nil.
Qed.

(** Only these events answer a task. *)
Lemma brokerStep_answers op b : answersOnly (concerns op b) (brokerStep op b).2.
Proof.
  destruct op; cbn [brokerStep]; try apply answersOnly_nil.
  - apply onRunnerMessage_answers.
  - apply onRequesterMessage_answers.
  - apply answersOnly_runner.
  - apply deregisterRunner_answers.
  - simpl. unfold fireTimer. destruct (map_get timer (timers b)) as [[requestId|t]|]; [| |apply answersOnly_nil].
    + unfold handleRequestTimeout. destruct (spliceRequest _ _ _) as [[ref rest]|]; [|apply answersOnly_nil].
      destruct (map_get _ _); [|apply answersOnly_nil]. apply answersOnly_requester. simpl. by intros ? ?%elem_of_nil.
    + unfold handleTaskTimeout. destruct (map_get t _); [|apply answersOnly_nil].
      case_bools; [apply answersOnly_runner|by apply endTask_answers].
  - apply resumeRunner_answers.
  - apply resumeRequester_answers.
  - simpl. unfold resumeHandler. destruct (handlers b !! n) as [[t|t]|]; [apply answersOnly_nil| |apply answersOnly_nil].
    by apply endTask_answers.
Qed.

(** ** The messages of every run *)

Definition stepsFrom (b : Broker) (ops : list brokerOp) : Broker := foldl (λ b op, (brokerStep op b).1) b ops.

Lemma brokerTrace_ok ops b :
  brokerInv b → once acceptId spentAccept b (stepsFrom b ops) (brokerTrace b ops) ∧
    once settingsId spentSettings b (stepsFrom b ops) (brokerTrace b ops).
Proof.
  revert b. induction ops as [|op ops IH]; intros b Hb; [split; by apply once_none|]. cbn [brokerTrace].
  destruct (brokerStep_ok op b Hb) as [Ha Hs _ _ _]. destruct (IH (brokerStep op b).1) as [IHa IHs];
    [by apply brokerStep_inv|]. split; by eapply once_trans.
Qed.

Lemma brokerTrace_gone ops b t : brokerInv b → gone b t → t ∉ brokerTrace b ops ≫= answerId.
Proof.
  revert b. induction ops as [|op ops IH]; intros b Hb Hg; [apply not_elem_of_nil|]. cbn [brokerTrace].
  destruct (mo_gone _ _ _ (brokerStep_ok op b Hb) t Hg) as [Hg' Hn]. rewrite bind_app, elem_of_app.
  intros [?|Hin]; [done|]. revert Hin. by apply IH; [apply brokerStep_inv|].
Qed.

(** While a handler that has answered the task waits for the requester, no event happens
    that may answer the task. *)
Fixpoint undisturbed (t : nat) (b : Broker) (ops : list brokerOp) : Prop :=
  match ops with
  | [] => True
  | op :: ops => (DeleteTask t ∈ handlers b → t ∉ concerns op b) ∧ undisturbed t (brokerStep op b).1 ops
  end.

Lemma elem_of_answerOf t t' ms : t' ∈ ms ≫= answerOf t ↔ t' = t ∧ t ∈ ms ≫= answerId.
Proof.
  rewrite !list_elem_of_bind. unfold answerOf. setoid_rewrite list_elem_of_filter. naive_solver.
Qed.

Lemma answerOf_filter t ms : ms ≫= answerOf t = filter (.= t) (ms ≫= answerId).
Proof. induction ms as [|m ms IH]; [done|]. csimpl. by rewrite filter_app, IH. Qed.

(** A list without duplicates of one element *)
Lemma NoDup_length_le1 (t : nat) l : NoDup l → (∀ t', t' ∈ l → t' = t) → length l ≤ 1.
Proof.
  intros Hd Ht. destruct l as [|x [|y l]]; simpl; [lia..|]. apply NoDup_cons in Hd as [Hx _]. destruct Hx.
  rewrite (Ht x), (Ht y) by set_solver. left.
Qed.

Lemma brokerTrace_answers t ops b :
  brokerInv b → undisturbed t b ops →
  NoDup (brokerTrace b ops ≫= answerOf t) ∧ (spentAnswer b t → brokerTrace b ops ≫= answerOf t = []).
Proof.
  revert b. induction ops as [|op ops IH]; intros b Hb Hu; [split; [constructor|done]|]. cbn [brokerTrace].
  destruct Hu as [Hop Hu]. destruct (IH _ (brokerStep_inv op b Hb) Hu) as [IHd IHs]. rewrite bind_app.
  destruct (brokerStep_ok op b Hb) as [_ _ Hmono Honce _].
  destruct (decide (DeleteTask t ∈ handlers b)) as [Hin|Hin].
  - assert ((brokerStep op b).2 ≫= answerOf t = []) as ->; [|by auto].
    apply elem_of_nil_inv. intros t' [-> Ht]%elem_of_answerOf. by apply brokerStep_answers, Hop in Ht.
  - destruct (Honce t Hin) as [_ Hd Hnew]. destruct ((brokerStep op b).2 ≫= answerOf t) as [|t' l] eqn:E.
    + by auto.
    + assert (t' = t) as ->.
      { assert (t' ∈ (brokerStep op b).2 ≫= answerOf t) as Ht' by (rewrite E; by left).
        by apply elem_of_answerOf in Ht' as [-> _]. }
      destruct (Hnew t) as [Hns Hs]; [by left|]. rewrite (IHs Hs), app_nil_r. done.
Qed.

(** C14: over every run, the broker offers a task id to a runner at most once and sends the settings of a
    task at most once.  Its requester gets at most one answer, be it the result, the error of the runner,
    a timeout or the loss of the runner, unless, while the handler of an answer waits for the requester's
    callback to return before it deletes the task, a further event happens that may answer the task:
    its runner reports its end again or disconnects, its time is up, or a message to its runner is passed on.
    A task that was accepted and is deleted is not answered any more, whatever happens. *)
Theorem broker_messages_once ops :
  let ms := brokerTrace init ops in
  NoDup (ms ≫= acceptId) ∧ NoDup (ms ≫= settingsId) ∧
  (∀ t, undisturbed t init ops → length (filter (.= t) (ms ≫= answerId)) ≤ 1) ∧
  (∀ ops1 ops2 t, ops = ops1 ++ ops2 → gone (brokerSteps ops1) t →
     t ∉ brokerTrace (brokerSteps ops1) ops2 ≫= answerId).
Proof.
  destruct (brokerTrace_ok ops init init_inv) as [[_ Ha _] [_ Hs _]]. split_and!; [done|done|..].
  - intros t Hu. destruct (brokerTrace_answers t ops init init_inv Hu) as [Hd _].
    apply (NoDup_length_le1 t); [by rewrite <- answerOf_filter|]. intros t'. by rewrite list_elem_of_filter; intros [-> _].
  - intros ops1 ops2 t _ Hg. apply brokerTrace_gone; [apply brokerSteps_inv|done].
Qed.

(** A runner that reports the end of a task twice, before the requester's callback has
    returned, gets the requester two answers. *)
Definition reportedTwice : list brokerOp :=
  servedOps ++ [FromRunnerOp "r" (RunnerTaskDone 2 "data") 0; FromRunnerOp "r" (RunnerTaskError 2 "late") 0;
                ResumeHandler 0; ResumeHandler 0].

Theorem task_answered_twice :
  brokerTrace init reportedTwice ≫= answerId = [2; 2] ∧ map_get 2 (tasks (brokerSteps reportedTwice)) = None.
Proof. by vm_compute. Qed.

(** ** A runner of the broker *)

(** What the broker sends to a runner *)
Definition toRunner (runnerId : string) (m : Message) : list ToRunner :=
  match m with
  | RunnerMessage runnerId' m => if bool_decide (runnerId' = runnerId) then [m] else []
  | RequesterMessage _ _ => []
  end.

(** What a runner receives *)
Definition received (e : runnerEvent) : list ToRunner := match e with Receive m => [m] | _ => [] end.

Lemma NoDup_submseteq (l k : list nat) : l ⊆+ k → NoDup k → NoDup l.
Proof. intros [k' ->]%submseteq_Permutation. by intros (? & _ & _)%NoDup_app. Qed.

(** The ids in what a runner receives are among those in what the broker sends. *)
Lemma received_ids (by_event : runnerEvent → list nat) (f : ToRunner → list nat) (g : Message → list nat) runnerId es ms :
  (∀ e, by_event e = (received e ≫= f)) → (∀ m, g (RunnerMessage runnerId m) = f m) →
  es ≫= received ⊆+ ms ≫= toRunner runnerId → es ≫= by_event ⊆+ ms ≫= g.
Proof.
  intros He Hg Hsub. transitivity ((ms ≫= toRunner runnerId) ≫= f).
  - replace (es ≫= by_event) with ((es ≫= received) ≫= f).
    + destruct (submseteq_Permutation _ _ Hsub) as [k Hk]. rewrite Hk, bind_app. by apply submseteq_inserts_r.
    + clear Hsub. induction es as [|e es IH]; [done|]. simpl. rewrite bind_app, He. f_equal. exact IH.
  - clear Hsub. induction ms as [|m ms IH]; [done|]. simpl. rewrite bind_app. apply submseteq_app; [|done].
    destruct m as [runnerId' m|]; simpl; [|apply submseteq_nil_l]. case_bool_decide as Heq; [subst|apply submseteq_nil_l].
    simpl. by rewrite app_nil_r, Hg.
Qed.

(** C15: whatever happens to the broker, and whatever part of the messages to a runner arrives there in
    whatever order: no task of the runner has an unexpected status, every task is answered at most once
    and not while it is running, and every accepted task is running, or answered, or was cancelled. *)
Theorem runner_of_broker maxConcurrency taskType idleTimeout randomInt500 ops runnerId es :
  es ≫= received ⊆+ brokerTrace init ops ≫= toRunner runnerId →
  let r := runRunner maxConcurrency taskType idleTimeout randomInt500 es in
  failed r = false ∧
  ∀ t, answers t (sent r) ≤ 1 ∧
    (is_Some (map_get t (runningTasks r)) → answers t (sent r) = 0) ∧
    (RunnerTaskAccepted t ∈ sent r →
       is_Some (map_get t (runningTasks r)) ∨ answers t (sent r) = 1 ∨ t ∈ cancelsOf es).
Proof.
  intros Hsub. destruct (brokerTrace_ok ops init init_inv) as [Ha Hs]. apply runRunner_answers.
  - eapply NoDup_submseteq, (on_nodup _ _ _ _ _ Ha).
    apply (received_ids acceptsBy (λ m, acceptId (RunnerMessage runnerId m)) acceptId runnerId); [|done..].
    by intros [[]| | | | | | | | | | |].
  - eapply NoDup_submseteq, (on_nodup _ _ _ _ _ Hs).
    apply (received_ids settingsBy (λ m, settingsId (RunnerMessage runnerId m)) settingsId runnerId); [|done..].
    by intros [[]| | | | | | | | | | |].
Qed.

(** The broker and the runner of one task: the request timer has number 0, the request object 1 and
    the task 2; the runner's offer has id 0. *)
Definition exchange : list brokerOp :=
  [ RegisterRunner aRunner; RegisterRequester "q"; FromRequesterOp "q" (RequesterTaskRequest "req" "javascript") 0;
    FromRunnerOp "r" (RunnerTaskOffer "0" "javascript" 5000) 0; FromRunnerOp "r" (RunnerTaskAccepted 2) 0;
    ResumeRunner 2; FromRequesterOp "q" (RequesterTaskSettings 2 "code") 0; ResumeRequester 2;
    FromRunnerOp "r" (RunnerTaskDone 2 "data") 0; ResumeHandler 0 ].

Definition runnerSide : list runnerEvent :=
  [ Receive RunnerRegistered; OfferInterval; Receive (TaskOfferAccept "0" 2); Receive (TaskSettings 2 "code");
    ExecutionEnds 0 (inl ("data", true)) ].

Lemma runner_of_broker_witness :
  brokerTrace init exchange ≫= toRunner "r" = runnerSide ≫= received ∧
  brokerTrace init exchange ≫= answerId = [2] ∧
  RunnerTaskDone 2 "data" ∈ sent (runRunner 1 "javascript" 0 (λ _, 0%Z) runnerSide) ∧
  answers 2 (sent (runRunner 1 "javascript" 0 (λ _, 0%Z) runnerSide)) ≤ 1.
Proof.
  split_and!; [vm_compute; reflexivity..|vm_compute; set_solver|].
  apply (runner_of_broker 1 "javascript" 0 (λ _, 0%Z) exchange "r" runnerSide). vm_compute. reflexivity.
Defined.
