(* ===== verification/TypeValidation.v ===== *)
(** * Validation and conversion of field values

    Model of [packages/workflow/src/type-validation.ts], with [isBinaryValue] of [type-guards.ts] and
    [jsonParse] of [utils.ts]: a value is checked against a field type and converted to it.

    Values are JSON values, or absent; objects of classes (dates and times that an expression
    produced) do not occur as input.  A time that was parsed is the number of its milliseconds.
    Parsers of the packages luxon and esprima and of the platform are parameters.  Strings have
    characters with codes below 256, as in [FromAi.v]. *)

From stdpp Require Import strings list pretty.
From S2P Require Import Prelude JsCollections NodeTypes FromAi NodeProperties.

(** ** What the code uses of the platform *)

Record platform := {
  pf_libraries : libraries;
  (** [JSON.stringify] of objects, [JSON.parse]; [None] is an exception *)
  jsonStringify : json → string;
  jsonParseText : string → option json;
  (** [parseJSObject], which the package esprima does; [Some None] is [undefined] *)
  parseJSObject : string → option (option json);
  (** [fromISO], [fromHTTP], [fromRFC2822] and [fromSQL] of luxon and [Date.parse]; [None] is an invalid
      date *)
  dateParsers : list (string → option spec_float);
  (** [new URL(s).protocol] *)
  urlProtocol : string → option string;
}.

(** ** Strings *)

Definition lowerCase (s : string) : string := String.string_of_list_ascii (toLowerCase (ofString s)).
Definition trimString (s : string) : string := String.string_of_list_ascii (trim (ofString s)).

(** A regular expression gives the rests that can remain behind what it matches. *)
Abbreviation pattern := (chars → list chars) (only parsing).

Definition one (p : ascii → bool) : pattern := λ s, match s with c :: s => if p c then [s] else [] | [] => [] end.
Definition seqP (p q : pattern) : pattern := λ s, p s ≫= q.
Definition optP (p : pattern) : pattern := λ s, p s ++ [s].
Definition altP (p q : pattern) : pattern := λ s, p s ++ q s.

(** [[...]*] *)
Fixpoint star (p : ascii → bool) (s : chars) : list chars :=
  match s with c :: t => (if p c then star p t else []) ++ [s] | [] => [[]] end.

(** [^...$] *)
Definition matches (p : pattern) (s : string) : bool := bool_decide ([] ∈ p (ofString s)).

Definition char (c : ascii) : pattern := one (λ c', bool_decide (c' = c)).
Definition digit : pattern := one isDigit.

Definition isWord (c : ascii) : bool := isUpper c || isLower c || isDigit c || bool_decide (c = "_"%char).

Definition alphanumericPattern : pattern :=
  seqP (one (λ c, isUpper c || isLower c || bool_decide (c = "_"%char))) (star isWord).

Definition sign : pattern := altP (char "-") (char "+").
Definition colonDigits : pattern := seqP (char ":") (seqP digit digit).

Definition timePattern : pattern :=
  seqP digit (seqP digit (seqP colonDigits (seqP (optP colonDigits)
    (seqP (optP (seqP sign (seqP digit (seqP digit (seqP digit digit)))))
       (optP (seqP sign (seqP digit (seqP (optP digit) (optP colonDigits))))))))).

Definition isTokenChar (c : ascii) : bool := isWord c || bool_decide (c = "-"%char).
Definition isSignatureChar (c : ascii) : bool := isTokenChar c || bool_decide (c ∈ ["."; "+"; "/"; "="]%char).

Definition jwtPattern : pattern :=
  seqP (one isTokenChar) (seqP (star isTokenChar) (seqP (char ".")
    (seqP (one isTokenChar) (seqP (star isTokenChar) (seqP (char ".") (star isSignatureChar)))))).

(** [s.replace(/c/g, r)] *)
Fixpoint replaceChar (c : ascii) (r : string) (s : string) : string :=
  match s with
  | EmptyString => EmptyString
  | String c' s => if bool_decide (c' = c) then r +:+ replaceChar c r s else String c' (replaceChar c r s)
  end.

Definition doubleQuote : string := String (ascii_of_N 34) EmptyString.

(** ** Results *)

(** A value, or a time in milliseconds *)
Inductive parsed := PValue (v : option json) | PDateTime (millis : spec_float).

Inductive ValidationResult := Valid (newValue : parsed) | Invalid (errorMessage : string).

#[global] Instance parsed_eq_dec : EqDecision parsed.
Proof. solve_decision. Defined.
#[global] Instance ValidationResult_eq_dec : EqDecision ValidationResult.
Proof. solve_decision. Defined.

Definition hasKey (k : string) (o : list (string * json)) : bool := bool_decide (k ∈ o.*1).

(** [isBinaryValue] *)
Definition isBinaryValue (value : option json) : bool :=
  match value with
  | Some (JObj o) => hasKey "mimeType" o && (hasKey "data" o || hasKey "id" o)
  | _ => false
  end.

Section validation.
Context (P : platform).
Let L := pf_libraries P.

(** [String(v)] and [Number(v)] *)
Definition stringOf (v : option json) : string := match v with Some v => toStr L v | None => "undefined" end.
Definition numberOf (v : option json) : spec_float := toNumber L (toPrimitive L v).

Definition isNaN (x : spec_float) : bool := match x with S754_nan => true | _ => false end.

(** ** Conversions *)

Definition tryToParseNumber (value : option json) : res spec_float :=
  if isNaN (numberOf value) then Throw (ApplicationError "Failed to parse value to number") else Ok (numberOf value).

Definition tryToParseString (value : option json) : string :=
  match value with
  | Some ((JNull | JArr _ | JObj _) as v) => jsonStringify P v
  | None => EmptyString
  | Some v => toStr L v
  end.

Definition tryToParseAlphanumericString (value : option json) : res string :=
  let parsed := tryToParseString value in
  if matches alphanumericPattern parsed then Ok parsed
  else Throw (ApplicationError "Value is not a valid alphanumeric string").

Definition isBlank (value : option json) : bool :=
  match value with Some (JStr s) => bool_decide (trimString s = EmptyString) | _ => false end.

Definition oneFloat : spec_float := binary_normalize 53 1024 1 0 false.

Definition parseBooleanNumber (value : option json) : res bool :=
  let fail := Throw (ApplicationError "Failed to parse value as boolean") in
  if isBlank value then fail
  else if SFeqb (numberOf value) (S754_zero false) then Ok false
  else if SFeqb (numberOf value) oneFloat then Ok true
  else fail.

Definition tryToParseBoolean (value : option json) : res bool :=
  match value with
  | Some (JBool b) => Ok b
  | Some (JStr s) =>
      if bool_decide (lowerCase s ∈ ["true"; "false"]) then Ok (bool_decide (lowerCase s = "true"))
      else parseBooleanNumber value
  | _ => parseBooleanNumber value
  end.

Fixpoint firstDate (parsers : list (string → option spec_float)) (s : string) : res spec_float :=
  match parsers with
  | [] => Throw (ApplicationError "Value is not a valid date")
  | parse :: parsers => match parse s with Some millis => Ok millis | None => firstDate parsers s end
  end.

Definition tryToParseDateTime (value : option json) : res spec_float :=
  firstDate (dateParsers P) (trimString (stringOf value)).

Definition tryToParseTime (value : option json) : res string :=
  if matches timePattern (stringOf value) then Ok (stringOf value)
  else Throw (ApplicationError "Value is not a valid time").

Definition tryToParseArray (value : option json) : res (list json) :=
  match value with
  | Some (JArr l) => Ok l
  | _ =>
      let parsed := match jsonParseText P (stringOf value) with
                    | Some v => Some v
                    | None => jsonParseText P (replaceChar "'" doubleQuote (stringOf value))
                    end in
      match parsed with
      | Some (JArr l) => Ok l
      | _ => Throw (ApplicationError "Value is not a valid array")
      end
  end.

(** [jsonParse] with [acceptJSObject] *)
Definition jsonParse (s : string) : option (option json) :=
  match jsonParseText P s with Some v => Some (Some v) | None => parseJSObject P s end.

Definition tryToParseObject (value : option json) : res json :=
  match value with
  | Some (JObj o) => Ok (JObj o)
  | _ =>
      match jsonParse (stringOf value) with
      | Some (Some (JObj o)) => Ok (JObj o)
      | Some (Some JNull) => Ok JNull
      | _ => Throw (ApplicationError "Value is not a valid object")
      end
  end.

Definition tryToParseBinary (value : option json) : res json :=
  match value with
  | Some (JObj o) =>
      if isBinaryValue value then Ok (JObj o) else Throw (ApplicationError "Value is not a valid binary data object")
  | _ => Throw (ApplicationError "Value is not a valid binary data object")
  end.

Definition ALLOWED_URL_PROTOCOLS : list string := ["http:"; "https:"; "ftp:"; "file:"].

Definition withProtocol (value : option json) : option json :=
  match value with
  | Some (JStr s) => if includes "://" s then value else Some (JStr ("https://" +:+ s))
  | _ => value
  end.

Definition tryToParseUrl (value : option json) : res string :=
  let s := stringOf (withProtocol value) in
  match urlProtocol P s with
  | Some protocol =>
      if bool_decide (protocol ∈ ALLOWED_URL_PROTOCOLS) then Ok s
      else Throw (ApplicationError ("The value " +:+ doubleQuote +:+ s +:+ doubleQuote +:+ " is not a valid url."))
  | None => Throw (ApplicationError ("The value " +:+ doubleQuote +:+ s +:+ doubleQuote +:+ " is not a valid url."))
  end.

Definition tryToParseJwt (value : option json) : res string :=
  let error := ApplicationError ("The value " +:+ doubleQuote +:+ stringOf value +:+ doubleQuote +:+ " is not a valid JWT token.") in
  if negb (truthyOpt value) then Throw error
  else if matches jwtPattern (stringOf value) then Ok (stringOf value)
  else Throw error.

(** ** Form fields *)

Definition ALLOWED_FORM_FIELDS_KEYS : list string :=
  ["fieldLabel"; "fieldType"; "placeholder"; "defaultValue"; "fieldOptions"; "multiselect"; "multipleFiles";
   "acceptFileTypes"; "formatDate"; "requiredField"; "fieldValue"; "elementName"; "html"; "fieldName";
   "limitSelection"; "numberOfSelections"; "minSelections"; "maxSelections"].

Definition ALLOWED_FIELD_TYPES : list string :=
  ["date"; "dropdown"; "email"; "file"; "number"; "password"; "text"; "textarea"; "checkbox"; "radio"; "html";
   "hiddenField"].

(** [Object.keys(v)] *)
Definition keysOf (v : json) : res (list string) :=
  match v with
  | JNull => Throw TypeError
  | JObj o => Ok o.*1
  | JArr l => Ok (pretty <$> seq 0 (length l))
  | JStr s => Ok (pretty <$> seq 0 (String.length s))
  | JBool _ | JNum _ => Ok []
  end.

Definition escapeAngles (s : string) : string := replaceChar ">" "&gt;" (replaceChar "<" "&lt;" s).

(** The value of a property, made safe *)
Definition sanitizeField (key : string) (value : json) : json :=
  let primitive := match value with JStr _ | JNum _ | JBool _ => true | _ => false end in
  if bool_decide (key ≠ "fieldOptions") && negb primitive then JStr (stringOf (Some value))
  else match value with
       | JStr s => if bool_decide (key ≠ "html") then JStr (escapeAngles s) else value
       | _ => value
       end.

(** The options of a dropdown: every one has a string, and nothing else. *)
Definition checkOption (index optionIndex : nat) (v : json) : res nat :=
  keys ← keysOf v;
  let named := match v with JObj o => isString (obj_get "option" o) | _ => false end in
  if bool_decide (length keys ≠ 1) || negb named
  then Throw (ApplicationError
    ("Field dropdown in field " +:+ pretty index +:+ " has an invalid option " +:+ pretty optionIndex))
  else Ok (S optionIndex).

(** The property [fieldOptions] *)
Definition checkFieldOptions (index : nat) (value : json) : res json :=
  let value := match value with JArr l => JObj [("values", JArr l)] | _ => value end in
  let fail := Throw (ApplicationError
    ("Field dropdown in field " +:+ pretty index +:+ " does has no 'values' property that contain an array of options")) in
  match value with
  | JNull => Throw TypeError
  | JObj o =>
      match obj_get "values" o with
      | Some (JArr l) => foldM (checkOption index) 0 l;; Ok value
      | Some v => if truthy v then Throw TypeError else fail
      | None => fail
      end
  | _ => fail
  end.

(** One property of a field *)
Definition checkFieldKey (index : nat) (field : list (string * json)) (key : string) : res (list (string * json)) :=
  if negb (bool_decide (key ∈ ALLOWED_FORM_FIELDS_KEYS)) then
    Throw (ApplicationError ("Key '" +:+ key +:+ "' in field " +:+ pretty index +:+ " is not valid for form fields"))
  else
    value ← deref (obj_get key field);
    let value := sanitizeField key value in
    let known := match value with JStr s => bool_decide (s ∈ ALLOWED_FIELD_TYPES) | _ => false end in
    if bool_decide (key = "fieldType") && negb known then
      Throw (ApplicationError
        ("Field type '" +:+ stringOf (Some value) +:+ "' in field " +:+ pretty index +:+ " is not valid for form fields"))
    else
      value ← (if bool_decide (key = "fieldOptions") then checkFieldOptions index value else Ok value);
      Ok (obj_set key value field).

(** A field; of values that are not objects only those without keys pass. *)
Definition checkField (fields : list json) (field : json) : res (list json) :=
  let index := length fields in
  keys ← keysOf field;
  match field with
  | JObj o => o ← foldM (checkFieldKey index) o keys; Ok (fields ++ [JObj o])
  | _ =>
      match keys with
      | [] => Ok (fields ++ [field])
      | key :: _ =>
          Throw (ApplicationError ("Key '" +:+ key +:+ "' in field " +:+ pretty index +:+ " is not valid for form fields"))
      end
  end.

Definition tryToParseJsonToFormFields (value : option json) : res (list json) :=
  let fields := match jsonParse (stringOf value) with
                | Some (Some (JArr rawFields)) => foldM checkField [] rawFields
                | _ => Throw TypeError
                end in
  match fields with
  | Throw (ApplicationError message) => Throw (ApplicationError message)
  | Throw _ => Throw (ApplicationError "Value is not valid JSON")
  | _ => fields
  end.

(** ** [validateFieldType] *)

Definition getValueDescription (value : json) : string :=
  match value with
  | JNull => "'null'"
  | JArr _ => "array"
  | JObj _ => "object"
  | _ => "'" +:+ stringOf (Some value) +:+ "'"
  end.

Record ValidateFieldTypeOptions := {
  valueOptions : list json;
  strict : bool;
  parseStrings : bool;
}.

Definition noValidateOptions : ValidateFieldTypeOptions := {| valueOptions := []; strict := false; parseStrings := false |}.

Definition luxonDocsURL : string := "https://moment.github.io/luxon/api-docs/index.html#datetimefromformat".

(** [try { return { valid: true, newValue: ... } } catch { return { valid: false, errorMessage } }] *)
Definition validIf {A} (newValue : A → json) (errorMessage : string) (r : res A) : ValidationResult :=
  match r with Ok x => Valid (PValue (Some (newValue x))) | _ => Invalid errorMessage end.

(** [if (strict && !test) return { valid: false, errorMessage }] *)
Definition whenStrict (options : ValidateFieldTypeOptions) (message : string) (test : bool) (result : ValidationResult)
    : ValidationResult := if strict options && negb test then Invalid message else result.

(** The value is neither null nor absent. *)
Definition validateValue (fieldName : string) (v : json) (type : string) (options : ValidateFieldTypeOptions)
    : ValidationResult :=
  let value := Some v in
  let description := getValueDescription v in
  let message := "'" +:+ fieldName +:+ "' expects a " +:+ type +:+ " but we got " +:+ description in
  let requires := whenStrict options message in
  let kind := lowerCase type in
  if bool_decide (kind = "string") then
    if parseStrings options
    then requires (isString value) (Valid (PValue (Some (JStr (tryToParseString value)))))
    else Valid (PValue value)
  else if bool_decide (kind = "string-alphanumeric") then
    validIf JStr "Value is not a valid alphanumeric string, only letters, numbers and underscore allowed"
      (tryToParseAlphanumericString value)
  else if bool_decide (kind = "number") then
    requires (match v with JNum _ => true | _ => false end) (validIf JNum message (tryToParseNumber value))
  else if bool_decide (kind = "boolean") then
    requires (match v with JBool _ => true | _ => false end) (validIf JBool message (tryToParseBoolean value))
  else if bool_decide (kind = "datetime") then
    match tryToParseDateTime value with
    | Ok millis => Valid (PDateTime millis)
    | _ => Invalid (message +:+ " <br/><br/> Consider using <a href=" +:+ doubleQuote +:+ luxonDocsURL +:+ doubleQuote +:+
             " target=" +:+ doubleQuote +:+ "_blank" +:+ doubleQuote +:+
             "><code>DateTime.fromFormat</code></a> to work with custom date formats.")
    end
  else if bool_decide (kind = "time") then
    validIf JStr ("'" +:+ fieldName +:+ "' expects time (hh:mm:(:ss)) but we got " +:+ description +:+ ".")
      (tryToParseTime value)
  else if bool_decide (kind = "binary") then
    validIf id (message +:+ ". Make sure the value is a valid binary data object with 'mimeType' and 'data' or 'id' property.")
      (tryToParseBinary value)
  else if bool_decide (kind = "object") then
    requires (match v with JArr _ | JObj _ => true | _ => false end) (validIf id message (tryToParseObject value))
  else if bool_decide (kind = "array") then
    requires (match v with JArr _ => true | _ => false end) (validIf JArr message (tryToParseArray value))
  else if bool_decide (kind = "options") then
    let validOptions := String.concat ", " ((λ option, stringOf (Some option)) <$> valueOptions options) in
    if existsb (λ option, strictEquals (Some option) value) (valueOptions options) then Valid (PValue value)
    else Invalid ("'" +:+ fieldName +:+ "' expects one of the following values: [" +:+ validOptions +:+
                  "] but we got " +:+ description)
  else if bool_decide (kind = "url") then validIf JStr message (tryToParseUrl value)
  else if bool_decide (kind = "jwt") then validIf JStr "Value is not a valid JWT token" (tryToParseJwt value)
  else if bool_decide (kind = "form-fields") then
    match tryToParseJsonToFormFields value with
    | Ok fields => Valid (PValue (Some (JArr fields)))
    | Throw (ApplicationError message) => Invalid message
    | _ => Invalid EmptyString
    end
  else Valid (PValue value).

Definition validateFieldType (fieldName : string) (value : option json) (type : string)
    (options : ValidateFieldTypeOptions) : ValidationResult :=
  match value with
  | None | Some JNull => Valid (PValue None)
  | Some v => validateValue fieldName v type options
  end.
End validation.

(** ** What validation gives *)

Lemma star_all p s : [] ∈ star p s ↔ forallb p s = true.
Proof.
  induction s as [|c s IH]; simpl; [set_solver|]. rewrite elem_of_app. destruct (p c); simpl; [|set_solver].
  rewrite <- IH. set_solver.
Qed.

(** An alphanumeric string is a name: a letter or an underscore, then letters, digits and underscores. *)
Lemma alphanumeric_name s :
  matches alphanumericPattern s = true ↔
  ∃ c s', s = String c s' ∧ (isUpper c || isLower c || bool_decide (c = "_"%char)) = true ∧
    forallb isWord (ofString s') = true.
Proof.
  unfold matches. rewrite bool_decide_eq_true. unfold alphanumericPattern, seqP, one. destruct s as [|c s]; simpl.
  - split; [set_solver|by intros (? & ? & ? & _)].
  - destruct (isUpper c || isLower c || bool_decide (c = "_"%char)) eqn:Hc; simpl.
    + rewrite app_nil_r, star_all. naive_solver.
    + split; [set_solver|]. intros (c' & s' & [= <- <-] & H & _). congruence.
Qed.

Section accepted.
Context (P : platform) (fieldName : string).

Lemma validIf_Valid {A} (f : A → json) message r w :
  validIf f message r = Valid (PValue (Some w)) → ∃ x, r = Ok x ∧ w = f x.
Proof. destruct r; simpl; [|done..]. intros [= <-]. eauto. Qed.

Lemma whenStrict_Valid options message test result x :
  whenStrict options message test result = Valid x → result = Valid x.
Proof. unfold whenStrict. by destruct (_ && _). Qed.

(** The same options, but strict *)
Definition strictly (options : ValidateFieldTypeOptions) : ValidateFieldTypeOptions :=
  {| valueOptions := valueOptions options; strict := true; parseStrings := parseStrings options |}.

Lemma tryToParseNumber_again v x : tryToParseNumber P v = Ok x → tryToParseNumber P (Some (JNum x)) = Ok x.
Proof.
  unfold tryToParseNumber. change (numberOf P (Some (JNum x))) with x.
  destruct (isNaN _) eqn:H; [done|]. intros [= <-]. by rewrite H.
Qed.

Lemma tryToParseAlphanumericString_again v x :
  tryToParseAlphanumericString P v = Ok x → tryToParseAlphanumericString P (Some (JStr x)) = Ok x.
Proof. unfold tryToParseAlphanumericString. destruct (matches _ _) eqn:H; [|done]. intros [= <-]. simpl. by rewrite H. Qed.

Lemma tryToParseTime_again v x : tryToParseTime P v = Ok x → tryToParseTime P (Some (JStr x)) = Ok x.
Proof. unfold tryToParseTime. destruct (matches _ _) eqn:H; [|done]. intros [= <-]. simpl. by rewrite H. Qed.

Lemma tryToParseJwt_again v x : tryToParseJwt P v = Ok x → tryToParseJwt P (Some (JStr x)) = Ok x.
Proof.
  unfold tryToParseJwt. destruct (negb _); [done|]. destruct (matches jwtPattern (stringOf P v)) eqn:H; [|done].
  intros [= <-]. simpl. case_bool_decide as He; simpl; [|by rewrite H]. rewrite He in H. discriminate.
Qed.

Lemma tryToParseArray_again v l : tryToParseArray P v = Ok l → tryToParseArray P (Some (JArr l)) = Ok l.
Proof. done. Qed.

Lemma tryToParseObject_again v w : tryToParseObject P v = Ok w → w ≠ JNull → ∃ o, w = JObj o.
Proof.
  unfold tryToParseObject. intros H Hw.
  destruct v as [[]|]; try (destruct (jsonParse _ _) as [[[]|]|]; naive_solver). naive_solver.
Qed.

Lemma tryToParseBinary_again v w : tryToParseBinary v = Ok w → v = Some w.
Proof. unfold tryToParseBinary. destruct v as [[]|]; try done. destruct (isBinaryValue _); naive_solver. Qed.

Lemma withProtocol_again s : withProtocol (withProtocol (Some (JStr s))) = withProtocol (Some (JStr s)).
Proof.
  unfold withProtocol at 2 3. destruct (includes "://" s) eqn:H; unfold withProtocol; [by rewrite H|].
  by replace (includes "://" ("https://" +:+ s)) with true by by destruct s.
Qed.

Lemma tryToParseUrl_again s x :
  tryToParseUrl P (Some (JStr s)) = Ok x → tryToParseUrl P (Some (JStr x)) = Ok x.
Proof.
  intros H. assert (withProtocol (Some (JStr s)) = Some (JStr x)) as Hx.
  { unfold tryToParseUrl in H. destruct (urlProtocol _ _); [|done]. case_bool_decide; [|done]. injection H as <-.
    simpl. by destruct (includes "://" s). }
  unfold tryToParseUrl in *. by rewrite <- Hx, withProtocol_again, Hx in *.
Qed.

(** C30: a value that was converted to a type has this type: it is accepted as it is, even if conversions
    are not allowed.  This concerns every type but form fields and dateTime, whose results are no JSON; for the type url the value
    that was converted has to be a string, and results that are null are left out. *)
Theorem validated_value_accepted value type options w :
  lowerCase type ≠ "form-fields" → (lowerCase type = "url" → isString value = true) → w ≠ JNull →
  validateFieldType P fieldName value type options = Valid (PValue (Some w)) →
  validateFieldType P fieldName (Some w) type (strictly options) = Valid (PValue (Some w)).
Proof.
  intros Hform Hurl Hw H.
  assert (∃ v, value = Some v ∧ validateValue P fieldName v type options = Valid (PValue (Some w))) as (v & -> & Hv)
    by (destruct value as [[]|]; naive_solver). clear H.
  replace (validateFieldType P fieldName (Some w) type (strictly options))
    with (validateValue P fieldName w type (strictly options)) by by destruct w.
  unfold validateValue in *.
  destruct (bool_decide_reflect (lowerCase type = "string")).
  { simpl. destruct (parseStrings options); [|done]. apply whenStrict_Valid in Hv. by injection Hv as <-. }
  destruct (bool_decide_reflect (lowerCase type = "string-alphanumeric")).
  { apply validIf_Valid in Hv as (x & Hx & ->). by rewrite (tryToParseAlphanumericString_again _ _ Hx). }
  destruct (bool_decide_reflect (lowerCase type = "number")).
  { apply whenStrict_Valid, validIf_Valid in Hv as (x & Hx & ->). by rewrite (tryToParseNumber_again _ _ Hx). }
  destruct (bool_decide_reflect (lowerCase type = "boolean")).
  { by apply whenStrict_Valid, validIf_Valid in Hv as (x & Hx & ->). }
  destruct (bool_decide_reflect (lowerCase type = "datetime")); [by destruct (tryToParseDateTime _ (Some v))|].
  destruct (bool_decide_reflect (lowerCase type = "time")).
  { apply validIf_Valid in Hv as (x & Hx & ->). by rewrite (tryToParseTime_again _ _ Hx). }
  destruct (bool_decide_reflect (lowerCase type = "binary")).
  { apply validIf_Valid in Hv as (x & Hx & ->). pose proof (tryToParseBinary_again _ _ Hx) as [= ->]. change (id x) with x. by rewrite Hx. }
  destruct (bool_decide_reflect (lowerCase type = "object")).
  { apply whenStrict_Valid, validIf_Valid in Hv as (x & Hx & ->). by destruct (tryToParseObject_again _ _ Hx Hw) as [o ->]. }
  destruct (bool_decide_reflect (lowerCase type = "array")).
  { by apply whenStrict_Valid, validIf_Valid in Hv as (x & Hx & ->). }
  destruct (bool_decide_reflect (lowerCase type = "options")).
  { destruct (existsb _ (valueOptions options)) eqn:He; [|done]. injection Hv as <-. change (valueOptions (strictly options)) with (valueOptions options). by rewrite He. }
  destruct (bool_decide_reflect (lowerCase type = "url")) as [Hk|].
  { apply validIf_Valid in Hv as (x & Hx & ->). specialize (Hurl Hk). destruct v; try done.
    by rewrite (tryToParseUrl_again _ _ Hx). }
  destruct (bool_decide_reflect (lowerCase type = "jwt")).
  { apply validIf_Valid in Hv as (x & Hx & ->). by rewrite (tryToParseJwt_again _ _ Hx). }
  rewrite bool_decide_false in * by done. by injection Hv as <-.
Qed.
End accepted.

(** An instance of what the code uses of the platform, for examples *)
Definition examplePlatform : platform :=
  {| pf_libraries := {| lodash_get := λ _ _, None; lodash_isEqual := λ a b, bool_decide (a = b);
       regExp_test := λ pattern s, Some (bool_decide (pattern = s));
       number_of := λ s, if bool_decide (s = "1") then oneFloat else S754_nan; string_of := λ _, "value" |};
     jsonStringify := λ _, "{}"; jsonParseText := λ s, if bool_decide (s = "null") then Some JNull else None;
     parseJSObject := λ _, None; dateParsers := [λ s, if bool_decide (s = "2024-01-01") then Some oneFloat else None];
     urlProtocol := λ s, if startsWith "https://" s then Some "https:" else None |}.

Lemma validated_value_accepted_witness :
  validateFieldType examplePlatform "active" (Some (JStr "TRUE")) "Boolean" noValidateOptions = Valid (PValue (Some (JBool true))) ∧
  validateFieldType examplePlatform "active" (Some (JBool true)) "Boolean" (strictly noValidateOptions) =
    Valid (PValue (Some (JBool true))).
Proof.
  assert (validateFieldType examplePlatform "active" (Some (JStr "TRUE")) "Boolean" noValidateOptions =
    Valid (PValue (Some (JBool true)))) as H by (vm_compute; reflexivity).
  split; [exact H|]. refine (validated_value_accepted _ _ _ _ _ _ _ _ _ H); vm_compute; discriminate.
Defined.

(** The string [null] is accepted as an object, and gives null. *)
Lemma null_is_an_object :
  validateFieldType examplePlatform "data" (Some (JStr "null")) "object" noValidateOptions = Valid (PValue (Some JNull)).
Proof. vm_compute. reflexivity. Qed.

(** Examples of the patterns *)
Lemma pattern_examples :
  matches timePattern "12:30" = true ∧ matches timePattern "12:30:15+0100" = true ∧ matches timePattern "1:30" = false ∧
  matches timePattern "12:30-5:30" = true ∧ matches jwtPattern "aa.bb.cc" = true ∧ matches jwtPattern "aa.bb" = false.
Proof. vm_compute. done. Qed.
