(* ===== verification/FilterParameter.v ===== *)
(** * Filters

    Model of [packages/workflow/src/node-parameters/filter-parameter.ts]: the conditions of the nodes
    If, Filter and Switch.  The values of a condition are converted to the type of its operator
    ([TypeValidation.v]) and compared.

    A filter error is an application error with its message.  Lower case is that of the root locale.
    Regular expressions with flags and the text of a time are parameters; values that are returned
    where a boolean is expected count as their truth value. *)

From stdpp Require Import strings list pretty.
From S2P Require Import Prelude JsCollections NodeTypes FromAi NodeProperties TypeValidation.

(** ** Data *)

Inductive FilterOperatorType := TString | TNumber | TBoolean | TArray | TObject | TDateTime | TAny.

#[global] Instance FilterOperatorType_eq_dec : EqDecision FilterOperatorType.
Proof. solve_decision. Defined.

Definition typeName (type : FilterOperatorType) : string :=
  match type with
  | TString => "string" | TNumber => "number" | TBoolean => "boolean" | TArray => "array"
  | TObject => "object" | TDateTime => "dateTime" | TAny => "any"
  end.

Record FilterOperatorValue := {
  op_type : FilterOperatorType;
  op_operation : string;
  op_rightType : option FilterOperatorType;
  op_singleValue : bool;
}.

Record FilterConditionValue := {
  fc_leftValue : option json;
  fc_operator : FilterOperatorValue;
  fc_rightValue : option json;
}.

(** An absent version is 1. *)
Record FilterOptionsValue := {
  fo_caseSensitive : bool;
  fo_strict : bool;
  fo_version : nat;
}.

Record FilterValue := {
  fv_options : FilterOptionsValue;
  fv_conditions : list FilterConditionValue;
  fv_combinator : string;
}.

Record FilterConditionMetadata := {
  md_index : option nat;
  md_unresolvedExpressions : bool;
  md_itemIndex : option nat;
  md_inline : bool;
}.

Record FilterError := {
  err_message : string;
  err_description : string;
}.

(** ** Values *)

(** [typeof v] *)
Definition typeofName (v : option json) : string :=
  match v with
  | None => "undefined"
  | Some (JBool _) => "boolean"
  | Some (JNum _) => "number"
  | Some (JStr _) => "string"
  | Some (JNull | JArr _ | JObj _) => "object"
  end.

Definition nullish (v : option json) : bool := match v with None | Some JNull => true | _ => false end.

(** [v ?? d] *)
Definition orElse (d : json) (p : parsed) : parsed :=
  match p with PValue v => if nullish v then PValue (Some d) else p | PDateTime _ => p end.

Definition parsedTruthy (p : parsed) : bool := match p with PValue v => truthyOpt v | PDateTime _ => true end.

(** [a === b] of two values that were parsed apart *)
Definition parsedEquals (a b : parsed) : bool :=
  match a, b with PValue a, PValue b => strictEquals a b | _, _ => false end.

(** The operand of a comparison: a time counts as its milliseconds. *)
Definition operand (p : parsed) : option json := match p with PValue v => v | PDateTime millis => Some (JNum millis) end.

Definition lengthValue (l : list json) : option json :=
  Some (JNum (binary_normalize 53 1024 (Z.of_nat (length l)) 0 false)).

Definition withIndefiniteArticle (noun : string) : string :=
  let vowel := match noun with EmptyString => true | String c _ => bool_decide (c ∈ ["a"; "e"; "i"; "o"; "u"]%char) end in
  (if vowel then "an" else "a") +:+ " " +:+ noun.

Definition newline : string := String (ascii_of_N 10) EmptyString.
Definition tab : string := String (ascii_of_N 9) EmptyString.

Section filter.
Context (P : platform) (regExpFlags : string → string → string → option bool) (dateTimeText : spec_float → string).

(** ** Conversion of the values *)

Definition parseSingleFilterValue (value : option json) (type : FilterOperatorType) (isStrict : bool) (version : nat)
    : ValidationResult :=
  let convert := validateFieldType P "filter" value (typeName type)
    {| valueOptions := []; strict := isStrict; parseStrings := true |} in
  if bool_decide (type = TAny) || nullish value then Valid (PValue value)
  else if bool_decide (type = TBoolean) && negb isStrict then
    let fallback := Valid (PValue (Some (JBool (truthyOpt value)))) in
    if bool_decide (2 ≤ version) then
      match validateFieldType P "filter" value (typeName type) noValidateOptions with
      | Valid v => Valid v
      | Invalid _ => fallback
      end
    else fallback
  else if bool_decide (type = TNumber) then
    match value with
    | Some (JNum S754_nan) => Valid (PValue value)
    | _ =>
        let isEmptyArray := match value with Some (JArr []) => true | _ => false end in
        if (isBlank value || isEmptyArray) && bool_decide (3 ≤ version) then Valid (PValue (Some JNull)) else convert
    end
  else convert.

(** The value is an expression that was not resolved. *)
Definition unresolved (metadata : FilterConditionMetadata) (value : option json) : bool :=
  md_unresolvedExpressions metadata && match value with Some (JStr s) => startsWith "=" s | _ => false end.

Definition isValid (r : ValidationResult) : bool := match r with Valid _ => true | Invalid _ => false end.
Definition newValueOf (r : ValidationResult) : parsed := match r with Valid v => v | Invalid _ => PValue None end.

Definition errorSuffix (metadata : FilterConditionMetadata) : string :=
  let item := pretty (default 0 (md_itemIndex metadata)) in
  if md_inline metadata then "[item " +:+ item +:+ "]"
  else "[condition " +:+ pretty (default 0 (md_index metadata)) +:+ ", item " +:+ item +:+ "]".

Definition composeInvalidTypeMessage (isStrict : bool) (suffix type fromType value : string) : string :=
  let fromType := lowerCase fromType in
  if isStrict then
    "Wrong type: '" +:+ value +:+ "' is " +:+ withIndefiniteArticle fromType +:+ " but was expecting " +:+
    withIndefiniteArticle type +:+ " " +:+ suffix
  else
    "Conversion error: the " +:+ fromType +:+ " '" +:+ value +:+ "' can't be converted to " +:+
    withIndefiniteArticle type +:+ " " +:+ suffix.

Definition getTypeDescription (isStrict : bool) : string :=
  if isStrict then
    "Try changing the type of comparison. Alternatively you can enable 'Convert types where required'."
  else "Try changing the type of the comparison.".

Definition composeInvalidTypeDescription (isStrict : bool) (type valuePosition : string) : string :=
  let convertionFunction :=
    if bool_decide (type = "string") then ".toString()"
    else if bool_decide (type = "number") then ".toNumber()"
    else if bool_decide (type = "boolean") then ".toBoolean()"
    else EmptyString in
  if isStrict && bool_decide (convertionFunction ≠ EmptyString) then
    newline +:+ "<p>Try either:</p>" +:+ newline +:+ "<ol>" +:+ newline +:+
    "  <li>Enabling 'Convert types where required'</li>" +:+ newline +:+
    "  <li>Converting the " +:+ valuePosition +:+ " field to " +:+ withIndefiniteArticle type +:+
    " by adding <code>" +:+ convertionFunction +:+ "</code></li>" +:+ newline +:+ "</ol>" +:+ newline +:+
    tab +:+ tab +:+ tab
  else getTypeDescription isStrict.

(** The two values, or the error *)
Definition parseFilterConditionValues (condition : FilterConditionValue) (options : FilterOptionsValue)
    (metadata : FilterConditionMetadata) : (parsed * parsed) + FilterError :=
  let operator := fc_operator condition in
  let leftValue := fc_leftValue condition in
  let rightValue := fc_rightValue condition in
  let isStrict := fo_strict options in
  let rightType := default (op_type operator) (op_rightType operator) in
  let parsedLeftValue := parseSingleFilterValue leftValue (op_type operator) isStrict (fo_version options) in
  let parsedRightValue := parseSingleFilterValue rightValue rightType isStrict (fo_version options) in
  let leftValid := isValid parsedLeftValue || unresolved metadata leftValue in
  let rightValid := isValid parsedRightValue || op_singleValue operator || unresolved metadata rightValue in
  let invalid (type : FilterOperatorType) (value : option json) (position : string) :=
    inr {| err_message := composeInvalidTypeMessage isStrict (errorSuffix metadata) (typeName type) (typeofName value)
                            (stringOf P value);
           err_description := composeInvalidTypeDescription isStrict (typeName type) position |} in
  if negb leftValid && negb rightValid && bool_decide (typeofName leftValue = typeofName rightValue) then
    inr {| err_message := "Comparison type expects " +:+ withIndefiniteArticle (typeName (op_type operator)) +:+
                          " but both fields are " +:+ withIndefiniteArticle (typeofName leftValue);
           err_description := getTypeDescription isStrict |}
  else if negb leftValid then invalid (op_type operator) leftValue "first"
  else if negb rightValid then invalid rightType rightValue "second"
  else inl (newValueOf parsedLeftValue, newValueOf parsedRightValue).

(** ** Evaluation *)

(** The pattern between slashes, with flags behind it: no flag is a slash, so the flags are behind the
    last one. *)
Fixpoint splitLastSlash (s : chars) : option (chars * chars) :=
  match s with
  | [] => None
  | c :: s =>
      match splitLastSlash s with
      | Some (body, flags) => Some (c :: body, flags)
      | None => if bool_decide (c = "/"%char) then Some ([], s) else None
      end
  end.

Definition isLineEnd (c : ascii) : bool := (code c =? 10)%N || (code c =? 13)%N.

Definition regexLiteral (pattern : string) : option (string * string) :=
  match ofString pattern with
  | "/"%char :: s =>
      match splitLastSlash s with
      | Some (body, flags) =>
          if forallb (λ c, bool_decide (c ∈ ["g"; "i"; "m"; "u"; "s"; "y"]%char)) flags && negb (existsb isLineEnd body)
          then Some (String.string_of_list_ascii body, String.string_of_list_ascii flags) else None
      | None => None
      end
  | _ => None
  end.

(** [parseRegexPattern(pattern).test(s)] *)
Definition testRegexPattern (pattern s : string) : res bool :=
  let result := match regexLiteral pattern with
                | Some (body, flags) => regExpFlags body flags s
                | None => regExp_test (pf_libraries P) pattern s
                end in
  match result with Some b => Ok b | None => Throw (PlainError "Invalid regular expression") end.

(** A pattern that is not a string has no [match], unless it is falsy. *)
Definition regexOperand (p : parsed) : res string :=
  match p with
  | PValue (Some (JStr s)) => Ok s
  | _ => if parsedTruthy p then Throw TypeError else Ok EmptyString
  end.

Definition arrayContainsValue (array : list json) (value : parsed) (ignoreCase : bool) : bool :=
  match value with
  | PValue (Some (JStr s)) =>
      if ignoreCase
      then existsb (λ item, match item with JStr s' => bool_decide (lowerCase s' = lowerCase s) | _ => false end) array
      else existsb (λ item, sameValueZero (Some item) (Some (JStr s))) array
  | PValue v => existsb (λ item, sameValueZero (Some item) v) array
  | PDateTime _ => false
  end.

(** The argument of a method of strings *)
Definition textOf (p : parsed) : string :=
  match p with PValue v => stringOf P v | PDateTime millis => dateTimeText millis end.

(** The operator is unknown: the code warns, and the condition does not hold. *)
Definition unknownOperator : res bool := Ok false.

Definition lowerIf (ignoreCase : bool) (p : parsed) : parsed :=
  match p with PValue (Some (JStr s)) => if ignoreCase then PValue (Some (JStr (lowerCase s))) else p | _ => p end.

Definition stringCondition (operation : string) (ignoreCase : bool) (leftValue rightValue : parsed) : res bool :=
  let isRegex := bool_decide (operation = "regex" ∨ operation = "notRegex") in
  match orElse (JStr EmptyString) (lowerIf ignoreCase leftValue) with
  | PValue (Some (JStr text)) =>
      let right := orElse (JStr EmptyString) (lowerIf (ignoreCase && negb isRegex) rightValue) in
      let equal := parsedEquals (PValue (Some (JStr text))) right in
      let regex := pattern ← regexOperand right; testRegexPattern pattern text in
      if bool_decide (operation = "empty") then Ok (bool_decide (text = EmptyString))
      else if bool_decide (operation = "notEmpty") then Ok (negb (bool_decide (text = EmptyString)))
      else if bool_decide (operation = "equals") then Ok equal
      else if bool_decide (operation = "notEquals") then Ok (negb equal)
      else if bool_decide (operation = "contains") then Ok (includes (textOf right) text)
      else if bool_decide (operation = "notContains") then Ok (negb (includes (textOf right) text))
      else if bool_decide (operation = "startsWith") then Ok (startsWith (textOf right) text)
      else if bool_decide (operation = "notStartsWith") then Ok (negb (startsWith (textOf right) text))
      else if bool_decide (operation = "endsWith") then Ok (endsWith (textOf right) text)
      else if bool_decide (operation = "notEndsWith") then Ok (negb (endsWith (textOf right) text))
      else if bool_decide (operation = "regex") then regex
      else if bool_decide (operation = "notRegex") then b ← regex; Ok (negb b)
      else unknownOperator
  | _ => Throw TypeError
  end.

Definition numberCondition (operation : string) (exists_ : bool) (left right : parsed) : res bool :=
  let L := pf_libraries P in
  if bool_decide (operation = "empty") then Ok (negb exists_)
  else if bool_decide (operation = "notEmpty") then Ok exists_
  else if bool_decide (operation = "equals") then Ok (parsedEquals left right)
  else if bool_decide (operation = "notEquals") then Ok (negb (parsedEquals left right))
  else if bool_decide (operation = "gt") then Ok (greater L (operand left) (operand right))
  else if bool_decide (operation = "lt") then Ok (less L (operand left) (operand right))
  else if bool_decide (operation = "gte") then Ok (greaterEq L (operand left) (operand right))
  else if bool_decide (operation = "lte") then Ok (lessEq L (operand left) (operand right))
  else unknownOperator.

(** [toMillis] of a value that is not a time throws. *)
Definition toMillis (p : parsed) : res spec_float := match p with PDateTime millis => Ok millis | PValue _ => Throw TypeError end.

Definition compareDates (compare : spec_float → spec_float → bool) (left right : parsed) : res bool :=
  l ← toMillis left; r ← toMillis right; Ok (compare l r).

Definition dateTimeCondition (operation : string) (exists_ : bool) (left right : parsed) : res bool :=
  if bool_decide (operation = "empty") then Ok (negb exists_)
  else if bool_decide (operation = "notEmpty") then Ok exists_
  else if negb (parsedTruthy left) || negb (parsedTruthy right) then Ok false
  else if bool_decide (operation = "equals") then compareDates SFeqb left right
  else if bool_decide (operation = "notEquals") then compareDates (λ l r, negb (SFeqb l r)) left right
  else if bool_decide (operation = "after") then compareDates (λ l r, SFltb r l) left right
  else if bool_decide (operation = "before") then compareDates SFltb left right
  else if bool_decide (operation = "afterOrEquals") then compareDates (λ l r, SFleb r l) left right
  else if bool_decide (operation = "beforeOrEquals") then compareDates SFleb left right
  else unknownOperator.

Definition booleanCondition (operation : string) (exists_ : bool) (left right : parsed) : res bool :=
  if bool_decide (operation = "empty") then Ok (negb exists_)
  else if bool_decide (operation = "notEmpty") then Ok exists_
  else if bool_decide (operation = "true") then Ok (parsedTruthy left)
  else if bool_decide (operation = "false") then Ok (negb (parsedTruthy left))
  else if bool_decide (operation = "equals") then Ok (parsedEquals left right)
  else if bool_decide (operation = "notEquals") then Ok (negb (parsedEquals left right))
  else unknownOperator.

Definition arrayCondition (operation : string) (ignoreCase : bool) (leftValue right : parsed) : res bool :=
  let L := pf_libraries P in
  match orElse (JArr []) leftValue with
  | PValue (Some (JArr items)) =>
      let len := lengthValue items in
      let sameLength := parsedEquals (PValue len) right in
      if bool_decide (operation = "contains") then Ok (arrayContainsValue items right ignoreCase)
      else if bool_decide (operation = "notContains") then Ok (negb (arrayContainsValue items right ignoreCase))
      else if bool_decide (operation = "lengthEquals") then Ok sameLength
      else if bool_decide (operation = "lengthNotEquals") then Ok (negb sameLength)
      else if bool_decide (operation = "lengthGt") then Ok (greater L len (operand right))
      else if bool_decide (operation = "lengthLt") then Ok (less L len (operand right))
      else if bool_decide (operation = "lengthGte") then Ok (greaterEq L len (operand right))
      else if bool_decide (operation = "lengthLte") then Ok (lessEq L len (operand right))
      else if bool_decide (operation = "empty") then Ok (bool_decide (items = []))
      else if bool_decide (operation = "notEmpty") then Ok (negb (bool_decide (items = [])))
      else unknownOperator
  | _ => Throw TypeError
  end.

(** [Object.keys(left).length === 0] *)
Definition noKeys (left : parsed) : bool := match left with PValue (Some (JObj o)) => bool_decide (o = []) | _ => true end.

Definition objectCondition (operation : string) (left : parsed) : res bool :=
  if bool_decide (operation = "empty") then Ok (negb (parsedTruthy left) || noKeys left)
  else if bool_decide (operation = "notEmpty") then Ok (parsedTruthy left && negb (noKeys left))
  else unknownOperator.

(** [leftValue !== undefined && leftValue !== null && !Number.isNaN(leftValue)] *)
Definition valueExists (left : parsed) : bool :=
  match left with PValue (None | Some JNull | Some (JNum S754_nan)) => false | _ => true end.

Definition evaluateCondition (operator : FilterOperatorValue) (ignoreCase : bool) (left right : parsed) : res bool :=
  let operation := op_operation operator in
  let exists_ := valueExists left in
  if bool_decide (operation = "exists") then Ok exists_
  else if bool_decide (operation = "notExists") then Ok (negb exists_)
  else
    match op_type operator with
    | TString => stringCondition operation ignoreCase left right
    | TNumber => numberCondition operation exists_ left right
    | TDateTime => dateTimeCondition operation exists_ left right
    | TBoolean => booleanCondition operation exists_ left right
    | TArray => arrayCondition operation ignoreCase left right
    | TObject => objectCondition operation left
    | TAny => unknownOperator
    end.

Definition executeFilterCondition (condition : FilterConditionValue) (filterOptions : FilterOptionsValue)
    (metadata : FilterConditionMetadata) : res bool :=
  match parseFilterConditionValues condition filterOptions metadata with
  | inr error => Throw (ApplicationError (err_message error))
  | inl (l, r) => evaluateCondition (fc_operator condition) (negb (fo_caseSensitive filterOptions)) l r
  end.

(** [conditionPass], applied to the conditions with their indexes *)
Definition conditionPass (value : FilterValue) (itemIndex : option nat) (indexed : nat * FilterConditionValue) : res bool :=
  executeFilterCondition indexed.2 (fv_options value)
    {| md_index := Some indexed.1; md_unresolvedExpressions := false; md_itemIndex := itemIndex; md_inline := false |}.

Definition withIndex {A} (l : list A) : list (nat * A) := zip (seq 0 (length l)) l.

Definition executeFilter (value : FilterValue) (itemIndex : option nat) : res bool :=
  let conditions := withIndex (fv_conditions value) in
  if bool_decide (fv_combinator value = "and") then everyM (conditionPass value itemIndex) conditions
  else if bool_decide (fv_combinator value = "or") then someM (conditionPass value itemIndex) conditions
  else Ok false.

(** The [try] of [validateFilterParameter]: an exception is an issue under a key that has no list yet. *)
Definition filterIssue (key : string) (r : res ((parsed * parsed) + FilterError)) (issues : jsobj (list string))
    : res (jsobj (list string)) :=
  match r with
  | Throw (ApplicationError message) =>
      found ← deref (obj_get key issues); Ok (obj_set key (found ++ [message]) issues)
  | _ => Ok issues
  end.

Definition validateFilterParameter (name : string) (value : FilterValue) : res (jsobj (list string)) :=
  foldM (λ issues indexed,
    filterIssue (name +:+ "." +:+ pretty indexed.1)
      (Ok (parseFilterConditionValues indexed.2 (fv_options value)
         {| md_index := Some indexed.1; md_unresolvedExpressions := true; md_itemIndex := None; md_inline := true |}))
      issues) [] (withIndex (fv_conditions value)).
End filter.
