(* ===== verification/FilterLaws.v ===== *)
(** * Laws of filters

    Opposite operators give opposite answers, so that a filter that asks for one of several conditions
    is the negation of one that asks for all of the opposite conditions; what a strict filter decides
    is decided in the same way without strictness; and what the validation of filters reports. *)

From stdpp Require Import strings list pretty.
From S2P Require Import Prelude JsCollections NodeTypes FromAi NodeProperties TypeValidation FilterParameter.

(** ** Opposite operators *)

(** The operators with their opposites; times have none for their comparisons. *)
Definition opposites (type : FilterOperatorType) : list (string * string) :=
  ("exists", "notExists") ::
  match type with
  | TString => [("empty", "notEmpty"); ("equals", "notEquals"); ("contains", "notContains");
                ("startsWith", "notStartsWith"); ("endsWith", "notEndsWith"); ("regex", "notRegex")]
  | TNumber => [("empty", "notEmpty"); ("equals", "notEquals")]
  | TBoolean => [("empty", "notEmpty"); ("equals", "notEquals"); ("true", "false")]
  | TArray => [("contains", "notContains"); ("lengthEquals", "lengthNotEquals"); ("empty", "notEmpty")]
  | TObject | TDateTime => [("empty", "notEmpty")]
  | TAny => []
  end.

(** A condition and the one with the opposite operator *)
Definition opposite (c c' : FilterConditionValue) : Prop :=
  fc_leftValue c' = fc_leftValue c ∧ fc_rightValue c' = fc_rightValue c ∧
  op_type (fc_operator c') = op_type (fc_operator c) ∧ op_rightType (fc_operator c') = op_rightType (fc_operator c) ∧
  op_singleValue (fc_operator c') = op_singleValue (fc_operator c) ∧
  ((op_operation (fc_operator c), op_operation (fc_operator c')) ∈ opposites (op_type (fc_operator c)) ∨
   (op_operation (fc_operator c'), op_operation (fc_operator c)) ∈ opposites (op_type (fc_operator c))).

Section laws.
Context (P : platform) (regExpFlags : string → string → string → option bool) (dateTimeText : spec_float → string).

Abbreviation evaluate := (evaluateCondition P regExpFlags dateTimeText) (only parsing).

Lemma fmap_negb_twice (r : res bool) : negb <$> (negb <$> r) = r.
Proof. destruct r as [b| |]; simpl; [by rewrite negb_involutive|done..]. Qed.

(** The answer for an operator and its opposite *)
Lemma evaluate_opposite o o' ignoreCase l r :
  op_type o' = op_type o → (op_operation o, op_operation o') ∈ opposites (op_type o) →
  evaluate o' ignoreCase l r = negb <$> evaluate o ignoreCase l r.
Proof.
  destruct o as [type op rt sv], o' as [type' op' rt' sv']. simpl. intros ->. unfold opposites.
  destruct type; rewrite ?list_elem_of_In; simpl; intros H;
    repeat (destruct H as [H|H]; [injection H as <- <-; unfold evaluateCondition; simpl|]); try done.
  all: unfold stringCondition, numberCondition, booleanCondition, arrayCondition, objectCondition, dateTimeCondition; simpl.
  all: rewrite ?negb_orb, ?negb_involutive; try done.
  all: destruct (orElse _ _) as [[[]|]|]; try done; simpl; try by rewrite negb_involutive.
Qed.

(** The conversion of the values does not look at the operation. *)
Lemma parse_opposite c c' options metadata :
  opposite c c' → parseFilterConditionValues P c' options metadata = parseFilterConditionValues P c options metadata.
Proof. intros (Hl & Hr & Ht & Hrt & Hs & _). unfold parseFilterConditionValues. by rewrite Hl, Hr, Ht, Hrt, Hs. Qed.

Lemma condition_opposite c c' options metadata :
  opposite c c' →
  executeFilterCondition P regExpFlags dateTimeText c' options metadata =
  negb <$> executeFilterCondition P regExpFlags dateTimeText c options metadata.
Proof.
  intros Ho. unfold executeFilterCondition. rewrite (parse_opposite c c' options metadata Ho).
  destruct (parseFilterConditionValues _ c options metadata) as [[l r]|]; [|done].
  destruct Ho as (_ & _ & Ht & _ & _ & [Hp|Hp]); [by apply evaluate_opposite|].
  rewrite (evaluate_opposite (fc_operator c') (fc_operator c)), fmap_negb_twice; [done|done|by rewrite Ht].
Qed.

Lemma someM_opposite {A} (p p' : A → res bool) l l' :
  Forall2 (λ x x', p' x' = negb <$> p x) l l' → someM p' l' = negb <$> everyM p l.
Proof.
  induction 1 as [|x x' l l' Hx _ IH]; simpl; [done|]. rewrite Hx. destruct (p x) as [[]| |]; simpl; done.
Qed.

Lemma everyM_opposite {A} (p p' : A → res bool) l l' :
  Forall2 (λ x x', p' x' = negb <$> p x) l l' → everyM p' l' = negb <$> someM p l.
Proof.
  induction 1 as [|x x' l l' Hx _ IH]; simpl; [done|]. rewrite Hx. destruct (p x) as [[]| |]; simpl; done.
Qed.

Lemma Forall2_withIndex {A} (R : nat * A → nat * A → Prop) (S : A → A → Prop) l l' :
  (∀ i x x', S x x' → R (i, x) (i, x')) → Forall2 S l l' → Forall2 R (withIndex l) (withIndex l').
Proof.
  intros HR Hl. unfold withIndex. generalize 0. induction Hl as [|x x' l l' Hx _ IH]; intros k; simpl; constructor; auto.
Qed.

(** C28: the laws of De Morgan for filters: if every condition is replaced by the one with the opposite
    operator and the combinator by the other one, the filter gives the opposite answer, or fails with
    the same error.  Opposite are: existence and absence for every type; empty and not empty for all
    types but any; equality and inequality of strings, numbers and booleans; the positive and the negated tests of
    strings for parts and patterns; true and false; for arrays containment and the number of elements.  The
    comparisons of dates are not among them, since they are both false if a date is missing, and
    neither are the orders of numbers and of lengths. *)
Theorem filter_de_morgan value value' itemIndex :
  fv_options value' = fv_options value → Forall2 opposite (fv_conditions value) (fv_conditions value') →
  (fv_combinator value, fv_combinator value') ∈ [("and", "or"); ("or", "and")] →
  executeFilter P regExpFlags dateTimeText value' itemIndex =
  negb <$> executeFilter P regExpFlags dateTimeText value itemIndex.
Proof.
  intros Ho Hc Hcomb.
  assert (Forall2 (λ x x', conditionPass P regExpFlags dateTimeText value' itemIndex x' =
    negb <$> conditionPass P regExpFlags dateTimeText value itemIndex x)
    (withIndex (fv_conditions value)) (withIndex (fv_conditions value'))) as Hall.
  { eapply Forall2_withIndex; [|exact Hc]. intros i x x' Hx. unfold conditionPass. simpl. rewrite Ho.
    by apply condition_opposite. }
  unfold executeFilter. rewrite list_elem_of_In in Hcomb. simpl in Hcomb.
  destruct Hcomb as [[= <- <-]|[[= <- <-]|[]]]; simpl; [by apply someM_opposite|by apply everyM_opposite].
Qed.

(** ** Strictness *)

Definition loosely (options : FilterOptionsValue) : FilterOptionsValue :=
  {| fo_caseSensitive := fo_caseSensitive options; fo_strict := false; fo_version := fo_version options |}.

(** What the strict check accepts is accepted without it, with the same value. *)
Lemma validateFieldType_loose fieldName value type options parse v :
  validateFieldType P fieldName value type {| valueOptions := options; strict := true; parseStrings := parse |} = Valid v →
  validateFieldType P fieldName value type {| valueOptions := options; strict := false; parseStrings := parse |} = Valid v.
Proof.
  destruct value as [w|]; [|done]. destruct (decide (w = JNull)) as [->|Hw]; [done|].
  replace (validateFieldType P fieldName (Some w)) with (validateValue P fieldName w) by by destruct w.
  unfold validateValue. cbn [strict parseStrings valueOptions].
  repeat (case_bool_decide; [try done; try (intros Hv%whenStrict_Valid; exact Hv)|]); try done.
  destruct parse; [|done]. intros Hv%whenStrict_Valid. exact Hv.
Qed.

Lemma parseSingle_loose value type version v :
  parseSingleFilterValue P value type true version = Valid v → parseSingleFilterValue P value type false version = Valid v.
Proof.
  unfold parseSingleFilterValue. destruct (bool_decide (type = TAny) || nullish value) eqn:Hn; [done|].
  destruct (bool_decide_reflect (type = TBoolean)) as [->|Ht].
  - destruct value as [[]|]; try done. intros [= <-]. by destruct (bool_decide (2 ≤ version)).
  - cbn [andb]. destruct (bool_decide_reflect (type = TNumber)) as [->|_]; [|by apply validateFieldType_loose].
    destruct value as [[| |[]| | |]|]; try done; try (by apply validateFieldType_loose);
      destruct (_ && _); try done; by apply validateFieldType_loose.
Qed.

(** Without unresolved expressions and with two values, both were converted. *)
Lemma parse_inl c options metadata l r :
  op_singleValue (fc_operator c) = false → md_unresolvedExpressions metadata = false →
  parseFilterConditionValues P c options metadata = inl (l, r) ↔
  parseSingleFilterValue P (fc_leftValue c) (op_type (fc_operator c)) (fo_strict options) (fo_version options) = Valid l ∧
  parseSingleFilterValue P (fc_rightValue c) (default (op_type (fc_operator c)) (op_rightType (fc_operator c)))
    (fo_strict options) (fo_version options) = Valid r.
Proof.
  intros Hs Hu. unfold parseFilterConditionValues, unresolved. rewrite Hs, Hu. simpl.
  destruct (parseSingleFilterValue _ (fc_leftValue c) _ _ _), (parseSingleFilterValue _ (fc_rightValue c) _ _ _); simpl.
  - naive_solver.
  - naive_solver.
  - naive_solver.
  - case_bool_decide; naive_solver.
Qed.

Lemma condition_loose c options metadata b :
  op_singleValue (fc_operator c) = false → md_unresolvedExpressions metadata = false → fo_strict options = true →
  executeFilterCondition P regExpFlags dateTimeText c options metadata = Ok b →
  executeFilterCondition P regExpFlags dateTimeText c (loosely options) metadata = Ok b.
Proof.
  intros Hs Hu Hstrict. unfold executeFilterCondition.
  destruct (parseFilterConditionValues P c options metadata) as [[l r]|e] eqn:Hp; [|done].
  apply parse_inl in Hp as [Hl Hr]; [|done..]. rewrite Hstrict in *.
  assert (parseFilterConditionValues P c (loosely options) metadata = inl (l, r)) as ->; [|done].
  apply parse_inl; [done..|]. split; by apply parseSingle_loose.
Qed.

Lemma everyM_mono {A} (p q : A → res bool) l b :
  (∀ x, x ∈ l → ∀ b, p x = Ok b → q x = Ok b) → everyM p l = Ok b → everyM q l = Ok b.
Proof.
  induction l as [|x l IH]; intros H; simpl; [done|]. destruct (p x) as [c| |] eqn:Hx; simpl; [|done..].
  rewrite (H x (list_elem_of_here _ _) c Hx). simpl. destruct c; [|done]. apply IH. intros y Hy. apply H. by right.
Qed.

Lemma someM_mono {A} (p q : A → res bool) l b :
  (∀ x, x ∈ l → ∀ b, p x = Ok b → q x = Ok b) → someM p l = Ok b → someM q l = Ok b.
Proof.
  induction l as [|x l IH]; intros H; simpl; [done|]. destruct (p x) as [c| |] eqn:Hx; simpl; [|done..].
  rewrite (H x (list_elem_of_here _ _) c Hx). simpl. destruct c; [done|]. apply IH. intros y Hy. apply H. by right.
Qed.

Lemma elem_of_withIndex {A} (l : list A) i x : (i, x) ∈ withIndex l → x ∈ l.
Proof. unfold withIndex. by intros ?%elem_of_zip_r. Qed.

(** What a strict filter decides is decided in the same way if values may be converted: loose filters
    only answer where strict ones fail. *)
Theorem strict_filter_kept value itemIndex b :
  fo_strict (fv_options value) = true →
  (∀ c, c ∈ fv_conditions value → op_singleValue (fc_operator c) = false) →
  executeFilter P regExpFlags dateTimeText value itemIndex = Ok b →
  executeFilter P regExpFlags dateTimeText
    {| fv_options := loosely (fv_options value); fv_conditions := fv_conditions value;
       fv_combinator := fv_combinator value |} itemIndex = Ok b.
Proof.
  intros Hstrict Hs. unfold executeFilter. cbn [fv_conditions fv_combinator].
  repeat case_bool_decide; [apply everyM_mono|apply someM_mono|done];
    (intros [i c] Hc%elem_of_withIndex b'; unfold conditionPass; simpl; apply condition_loose; auto).
Qed.

(** A value that was converted to a string is one, or there is none; likewise for arrays.  So the
    conditions on them have the operand they expect. *)
Lemma parsed_string value isStrict version v :
  parseSingleFilterValue P value TString isStrict version = Valid v →
  ∃ s, orElse (JStr EmptyString) v = PValue (Some (JStr s)).
Proof.
  unfold parseSingleFilterValue. cbn [bool_decide orb andb]. destruct (nullish value) eqn:Hn.
  - intros [= <-]. exists EmptyString. simpl. by rewrite Hn.
  - destruct value as [[]|]; try done; intros [= <-]%whenStrict_Valid; by eexists.
Qed.

Lemma parsed_array value isStrict version v :
  parseSingleFilterValue P value TArray isStrict version = Valid v →
  ∃ l, orElse (JArr []) v = PValue (Some (JArr l)).
Proof.
  unfold parseSingleFilterValue. cbn [bool_decide orb andb]. destruct (nullish value) eqn:Hn.
  - intros [= <-]. exists []. simpl. by rewrite Hn.
  - destruct value as [[]|]; try done; intros H%whenStrict_Valid;
      (destruct (tryToParseArray P _); [injection H as <-; by eexists|done..]).
Qed.

(** ** Validation of the parameter *)

(** The conversion returns its errors, and the code waits for them to be thrown: no filter has issues. *)
Lemma filter_validation_silent name value : validateFilterParameter P name value = Ok [].
Proof.
  unfold validateFilterParameter. generalize (withIndex (fv_conditions value)). intros l.
  induction l as [|x l IH]; [done|]. exact IH.
Qed.
End laws.

(** *** Examples *)

Definition exampleOptions (caseSensitive isStrict : bool) : FilterOptionsValue :=
  {| fo_caseSensitive := caseSensitive; fo_strict := isStrict; fo_version := 2 |}.

Definition exampleCondition (type : FilterOperatorType) (operation : string) (l r : option json) : FilterConditionValue :=
  {| fc_leftValue := l; fc_rightValue := r;
     fc_operator := {| op_type := type; op_operation := operation; op_rightType := None; op_singleValue := false |} |}.

Abbreviation run_example := (executeFilter examplePlatform (λ _ _ _, None) (λ _, EmptyString)) (only parsing).

Definition exampleFilter : FilterValue :=
  {| fv_options := exampleOptions false true; fv_combinator := "and";
     fv_conditions := [exampleCondition TString "contains" (Some (JStr "Hello")) (Some (JStr "ELL"));
                       exampleCondition TArray "empty" (Some (JArr [])) None] |}.

Definition exampleOpposite : FilterValue :=
  {| fv_options := exampleOptions false true; fv_combinator := "or";
     fv_conditions := [exampleCondition TString "notContains" (Some (JStr "Hello")) (Some (JStr "ELL"));
                       exampleCondition TArray "notEmpty" (Some (JArr [])) None] |}.

Lemma filter_de_morgan_witness :
  run_example exampleFilter None = Ok true ∧ run_example exampleOpposite None = negb <$> run_example exampleFilter None.
Proof.
  split; [vm_compute; reflexivity|]. apply filter_de_morgan; [reflexivity| |left].
  repeat constructor; (split_and!; [reflexivity..|left]; vm_compute; set_solver).
Defined.

Lemma strict_filter_kept_witness :
  run_example exampleFilter None = Ok true ∧
  run_example {| fv_options := loosely (fv_options exampleFilter); fv_conditions := fv_conditions exampleFilter;
                 fv_combinator := "and" |} None = Ok true.
Proof.
  assert (run_example exampleFilter None = Ok true) as H by (vm_compute; reflexivity). split; [exact H|].
  apply (strict_filter_kept examplePlatform (λ _ _ _, None) (λ _, EmptyString) exampleFilter None true); [reflexivity| |exact H].
  intros c Hc. apply list_elem_of_In in Hc. simpl in Hc. destruct Hc as [<-|[<-|[]]]; reflexivity.
Defined.

(** If a date is missing, the dates are neither equal nor different. *)
Lemma missing_date_compares_false :
  ∀ operation, operation ∈ ["equals"; "notEquals"] →
  run_example {| fv_options := exampleOptions true false; fv_combinator := "and";
    fv_conditions := [exampleCondition TDateTime operation None (Some (JStr "2024-01-01"))] |} None = Ok false.
Proof. intros operation H. apply list_elem_of_In in H. by destruct H as [<-|[<-|[]]]; vm_compute. Qed.

(** A filter that ignores case writes the value in lower case, but not the regular expression: an
    expression with capital letters does not match the value it would match otherwise. *)
Lemma regex_ignoring_case_fails caseSensitive :
  run_example {| fv_options := exampleOptions caseSensitive false; fv_combinator := "and";
    fv_conditions := [exampleCondition TString "regex" (Some (JStr "ABC")) (Some (JStr "ABC"))] |} None = Ok caseSensitive.
Proof. by destruct caseSensitive; vm_compute. Qed.
