(* ===== verification/ParameterIssues.v ===== *)
(** * Issues of node parameters

    Model of the checks of [packages/workflow/src/node-helpers.ts]: [getNodeParametersIssues] with
    [getParameterIssues], the validation of resource locators and mappers, and [mergeIssues].

    The filter that a value describes is read into the records of [FilterParameter.v]; an operator type
    that does not exist behaves like the type any.  The recursion gets fuel, which has to exceed the depth of the properties.  The first letter of the
    word for a field is put in upper case for letters that have a capital below 256. *)

From stdpp Require Import strings list pretty.
From S2P Require Import Prelude JsCollections NodeTypes FromAi NodeProperties NodeParameters NodeParametersSpec TypeValidation FilterParameter.

(** ** Issues *)

Abbreviation INodeIssueObjectProperty := (jsobj (list string)) (only parsing).

Record INodeIssues := {
  iss_execution : bool;
  iss_parameters : option INodeIssueObjectProperty;
  iss_credentials : option INodeIssueObjectProperty;
  iss_typeUnknown : bool;
}.

Definition noIssues : INodeIssues :=
  {| iss_execution := false; iss_parameters := None; iss_credentials := None; iss_typeUnknown := false |}.

Definition withParameters (ps : INodeIssueObjectProperty) (i : INodeIssues) : INodeIssues :=
  {| iss_execution := iss_execution i; iss_parameters := Some ps; iss_credentials := iss_credentials i;
     iss_typeUnknown := iss_typeUnknown i |}.

(** [issues.parameters[name].push(error)], after both were created if they are missing *)
Definition pushIssue (name error : string) (i : INodeIssues) : INodeIssues :=
  let ps := default [] (iss_parameters i) in
  withParameters (obj_set name (default [] (obj_get name ps) ++ [error]) ps) i.

(** One of the two kinds of issues that are merged: the messages of the source are appended. *)
Definition mergeObject (destination source : option INodeIssueObjectProperty) : option INodeIssueObjectProperty :=
  match source with
  | None => destination
  | Some source =>
      Some (foldl (λ d entry, obj_set entry.1 (default [] (obj_get entry.1 d) ++ entry.2) d) (default [] destination) source)
  end.

Definition mergeIssues (destination : INodeIssues) (source : option INodeIssues) : INodeIssues :=
  match source with
  | None => destination
  | Some source =>
      {| iss_execution := iss_execution source || iss_execution destination;
         iss_parameters := mergeObject (iss_parameters destination) (iss_parameters source);
         iss_credentials := mergeObject (iss_credentials destination) (iss_credentials source);
         iss_typeUnknown := iss_typeUnknown source || iss_typeUnknown destination |}
  end.

(** [Object.keys(issues).length === 0] *)
Definition hasNoIssues (i : INodeIssues) : bool :=
  negb (iss_execution i) && negb (iss_typeUnknown i) && bool_decide (iss_parameters i = None) &&
  bool_decide (iss_credentials i = None).

(** [{ ...a, ...b }] *)
Definition spread {V} (a b : jsobj V) : jsobj V := foldl (λ o entry, obj_set entry.1 entry.2 o) a b.

Definition upperFirst (s : string) : string :=
  match s with
  | EmptyString => EmptyString
  | String c s =>
      String (if isLower c || ((224 <=? code c)%N && (code c <=? 254)%N && negb (code c =? 247)%N)
              then ascii_of_N (code c - 32) else c) s
  end.

Section issues.
Context (P : platform) (node : option spec_float) (nodeTypeDescription : option INodeTypeDescription).
Let L := pf_libraries P.

(** ** Values *)

Definition startsWithEquals (v : option json) : bool :=
  match v with None | Some JNull => false | Some v => startsWith "=" (toStr L v) end.

Definition getParameterValueByPath (nodeValues : json) (parameterName path : string) : option json :=
  lodash_get L nodeValues (if bool_decide (path = EmptyString) then parameterName else path +:+ "." +:+ parameterName).

Definition isINodeParameterResourceLocator (value : option json) : bool :=
  match value with Some (JObj o) => hasKey "value" o && hasKey "mode" o | _ => false end.

(** [isResourceMapperValue] and [isFilterValue] of [type-guards.ts] *)
Definition isResourceMapperValue (value : option json) : bool :=
  match value with Some (JObj o) => hasKey "mappingMode" o && hasKey "schema" o && hasKey "value" o | _ => false end.

Definition isFilterValue (value : option json) : bool :=
  match value with Some (JObj o) => hasKey "conditions" o && hasKey "combinator" o | _ => false end.

(** [isValidResourceLocatorParameterValue] of [type-guards.ts]; reading a property of null throws. *)
Definition isValidResourceLocatorParameterValue (value : option json) : res bool :=
  match value with
  | Some JNull => Throw TypeError
  | Some ((JArr _ | JObj _) as v) =>
      match propOf "value" v with
      | Some (JNum _) => Ok true
      | inner => Ok (truthyOpt inner)
      end
  | _ => Ok (truthyOpt value)
  end.

(** *** The filter that a value describes *)

Definition readOperatorType (v : option json) : FilterOperatorType :=
  match v with
  | Some (JStr s) =>
      match list_find (λ type, typeName type = s) [TString; TNumber; TBoolean; TArray; TObject; TDateTime] with
      | Some (_, type) => type
      | None => TAny
      end
  | _ => TAny
  end.

(** [v.k], which throws if there is no [v] *)
Definition member (v : option json) (k : string) : res (option json) :=
  match v with None | Some JNull => Throw TypeError | Some v => Ok (propOf k v) end.

Definition readCondition (condition : json) : res FilterConditionValue :=
  operator ← member (Some condition) "operator";
  type ← member operator "type"; operation ← member operator "operation";
  rightType ← member operator "rightType"; singleValue ← member operator "singleValue";
  Ok {| fc_leftValue := propOf "leftValue" condition; fc_rightValue := propOf "rightValue" condition;
        fc_operator := {| op_type := readOperatorType type; op_operation := stringOf P operation;
          op_rightType := if nullish rightType then None else Some (readOperatorType rightType);
          op_singleValue := truthyOpt singleValue |} |}.

Definition readVersion (v : option json) : nat :=
  let three := binary_normalize 53 1024 3 0 false in
  let two := binary_normalize 53 1024 2 0 false in
  if nullish v then 1 else if greaterEq L v (Some (JNum three)) then 3 else if greaterEq L v (Some (JNum two)) then 2 else 1.

Definition readFilter (value : json) : res FilterValue :=
  match propOf "conditions" value with
  | Some (JArr conditions) =>
      conditions ← foldM (λ acc c, c ← readCondition c; Ok (acc ++ [c])) [] conditions;
      let options := propOf "options" value in
      options ← match conditions, options with
                | _ :: _, (None | Some JNull) => Throw TypeError
                | _, _ => Ok (default (JObj []) options)
                end;
      Ok {| fv_options := {| fo_caseSensitive := truthyOpt (propOf "caseSensitive" options);
              fo_strict := bool_decide (propOf "typeValidation" options = Some (JStr "strict"));
              fo_version := readVersion (propOf "version" options) |};
            fv_conditions := conditions; fv_combinator := stringOf P (propOf "combinator" value) |}
  | _ => Throw TypeError
  end.

(** ** Validation of one value *)

Definition modeErrors (valueToValidate : string) (errors : list string) (validation : INodePropertyModeValidation)
    : res (list string) :=
  match validation with
  | FunctionValidation => Ok errors
  | RegexValidation regex errorMessage =>
      matched ← testPattern L ("^" +:+ regex +:+ "$") valueToValidate;
      Ok (if (matched : bool) then errors else errors ++ [errorMessage])
  end.

Definition validateResourceLocatorParameter (value : json) (parameterMode : INodePropertyMode) : res (list string) :=
  let valueToValidate :=
    match propOf "value" value with None | Some JNull => EmptyString | Some v => toStr L v end in
  if startsWith "=" valueToValidate then Ok []
  else foldM (modeErrors valueToValidate) [] (mode_validation parameterMode).

(** The errors of one field of a resource mapper *)
Definition fieldErrors (word : string) (skipRequiredCheck : bool) (mapped : option json) (field : json) : list string :=
  let id := stringOf P (propOf "id" field) in
  let fieldValue := match mapped with
                    | Some v => if truthy v then getProp v id else Some JNull
                    | None => Some JNull
                    end in
  let missing :=
    if truthyOpt (propOf "required" field) && negb skipRequiredCheck &&
       (bool_decide (mapped = Some JNull) || bool_decide (fieldValue = None))
    then [word +:+ " " +:+ doubleQuote +:+ id +:+ doubleQuote +:+ " is required"] else [] in
  let options := match propOf "options" field with Some (JArr l) => default JNull ∘ propOf "value" <$> l | _ => [] end in
  let wrong :=
    match propOf "type" field with
    | Some (JStr type) =>
        if startsWithEquals fieldValue || bool_decide (type = EmptyString) then []
        else match validateFieldType P id fieldValue type
                     {| valueOptions := options; strict := false; parseStrings := false |} with
             | Invalid message => if bool_decide (message = EmptyString) then [] else [message]
             | Valid _ => []
             end
    | _ => []
    end in
  missing ++ wrong.

Definition mapperField (name word : string) (skipRequiredCheck : bool) (mapped : option json)
    (issues : INodeIssueObjectProperty) (field : json) : res INodeIssueObjectProperty :=
  match field with
  | JNull => Throw TypeError
  | _ =>
      match fieldErrors word skipRequiredCheck mapped field with
      | [] => Ok issues
      | errors => Ok (obj_set (name +:+ "." +:+ stringOf P (propOf "id" field)) errors issues)
      end
  end.

Definition validateResourceMapperParameter (p : INodeProperties) (value : json) (skipRequiredCheck : bool)
    : res INodeIssueObjectProperty :=
  if bool_decide (propOf "mappingMode" value = Some (JStr "autoMapInputData")) then Ok []
  else
    let singular := match ck_resourceMapper (prop_checks p) with Some (_, Some word) => word | _ => EmptyString end in
    let word := upperFirst (if bool_decide (singular = EmptyString) then "Field" else singular) in
    match propOf "schema" value with
    | Some (JArr schema) => foldM (mapperField (prop_name p) word skipRequiredCheck (propOf "value" value)) [] schema
    | _ => Throw TypeError
    end.

Definition validateParameter (p : INodeProperties) (value : option json) (type : string) : option string :=
  let options :=
    if bool_decide (type = "options")
    then default JNull ∘ ck_value ∘ prop_checks <$> default [] (prop_options p) else [] in
  if startsWithEquals value then None
  else match validateFieldType P (prop_name p) value type
               {| valueOptions := options; strict := false; parseStrings := false |} with
       | Invalid message => if bool_decide (message = EmptyString) then None else Some message
       | Valid _ => None
       end.

(** The value of a required parameter is missing. *)
Definition isMissing (p : INodeProperties) (value : option json) : res bool :=
  let empty := bool_decide (value = None ∨ value = Some (JStr EmptyString)) in
  if bool_decide (prop_type p ∈ ["string"; "dateTime"; "options"]) then Ok empty
  else if bool_decide (prop_type p = "multiOptions") then Ok (bool_decide (value = Some (JArr [])))
  else if bool_decide (prop_type p ∈ ["resourceLocator"; "workflowSelector"]) then
    valid ← isValidResourceLocatorParameterValue value; Ok (negb valid)
  else Ok false.

Definition addToIssuesIfMissing (p : INodeProperties) (foundIssues : INodeIssues) (value : option json) : res INodeIssues :=
  missing ← isMissing p value;
  Ok (if (missing : bool)
      then pushIssue (prop_name p)
             ("Parameter " +:+ doubleQuote +:+ ck_displayName (prop_checks p) +:+ doubleQuote +:+ " is required.") foundIssues
      else foundIssues).

(** ** [getParameterIssues] *)

(** A required parameter that is displayed *)
Definition requiredIssues (p : INodeProperties) (nodeValues : json) (path : string) (isDisplayed : bool) : res INodeIssues :=
  if ck_required (prop_checks p) && isDisplayed then
    let value := getParameterValueByPath nodeValues (prop_name p) path in
    match prop_multipleValues p with
    | Some _ =>
        match value with
        | Some (JArr l) => foldM (λ issues v, addToIssuesIfMissing p issues (Some v)) noIssues l
        | _ => Ok noIssues
        end
    | None => addToIssuesIfMissing p noIssues value
    end
  else Ok noIssues.

Definition locatorIssues (p : INodeProperties) (value : option json) (issues : INodeIssues) : res INodeIssues :=
  match value with
  | Some v =>
      if isINodeParameterResourceLocator value then
        let sameMode m := strictEquals (Some (JStr (mode_name m))) (propOf "mode" v) in
        match list_find (λ m, sameMode m = true) (ck_modes (prop_checks p)) with
        | Some (_, mode) =>
            errors ← validateResourceLocatorParameter v mode;
            Ok (foldl (λ issues error, pushIssue (prop_name p) error issues) issues errors)
        | None => Ok issues
        end
      else Ok issues
  | None => Ok issues
  end.

(** The entry of the mapper itself is created, too. *)
Definition mapperIssues (p : INodeProperties) (value : option json) (issues : INodeIssues) : res INodeIssues :=
  match value with
  | Some v =>
      if isResourceMapperValue value then
        let mode := fst <$> ck_resourceMapper (prop_checks p) in
        found ← validateResourceMapperParameter p v (bool_decide (mode ≠ Some "add"));
        if bool_decide (found = []) then Ok issues
        else
          let ps := default [] (iss_parameters issues) in
          let ps := obj_set (prop_name p) (default [] (obj_get (prop_name p) ps)) ps in
          Ok (withParameters (spread ps found) issues)
      else Ok issues
  | None => Ok issues
  end.

Definition filterIssues (p : INodeProperties) (value : option json) (issues : INodeIssues) : res INodeIssues :=
  match value with
  | Some v =>
      if isFilterValue value then
        filter ← readFilter v;
        found ← validateFilterParameter P (prop_name p) filter;
        if bool_decide (found = []) then Ok issues
        else Ok (withParameters (spread (default [] (iss_parameters issues)) found) issues)
      else Ok issues
  | None => Ok issues
  end.

(** The checks that depend on the type of the parameter *)
Definition typeIssues (p : INodeProperties) (nodeValues : json) (path : string) (isDisplayed : bool) (issues : INodeIssues)
    : res INodeIssues :=
  let value := getParameterValueByPath nodeValues (prop_name p) path in
  if bool_decide (prop_type p ∈ ["resourceLocator"; "workflowSelector"]) && isDisplayed then locatorIssues p value issues
  else if bool_decide (prop_type p = "resourceMapper") && isDisplayed then mapperIssues p value issues
  else if bool_decide (prop_type p = "filter") && isDisplayed then filterIssues p value issues
  else
    match ck_validateType (prop_checks p) with
    | Some type =>
        if bool_decide (type = EmptyString) then Ok issues
        else match validateParameter p value type with
             | Some error => Ok (pushIssue (prop_name p) error issues)
             | None => Ok issues
             end
    | None => Ok issues
    end.

(** The number of fields of a collection *)
Definition countError (p : INodeProperties) (value : option json) : option string :=
  let n := match value with Some (JArr l) => length l | _ => 0 end in
  let fields (k : nat) (one many : string) := if bool_decide (k = 1) then one else many in
  let tooFew := match ck_minRequiredFields (prop_checks p) with
                | Some k => if bool_decide (n < k)
                            then Some ("At least " +:+ pretty k +:+ " " +:+ fields k "field is" "fields are" +:+ " required.")
                            else None
                | None => None
                end in
  match ck_maxAllowedFields (prop_checks p) with
  | Some (S _ as k) =>
      if bool_decide (k < n)
      then Some ("At most " +:+ pretty k +:+ " " +:+ fields k "field is" "fields are" +:+ " allowed.") else tooFew
  | _ => tooFew
  end.

(** The children to check of one option of a collection: their path and their properties *)
Definition optionChildren (p : INodeProperties) (nodeValues : json) (basePath : string) (opt : INodeProperties)
    : option string * list (string * INodeProperties) :=
  let path := String.substring 0 (String.length basePath - 1) basePath in
  let value := getParameterValueByPath nodeValues (prop_name opt) path in
  let values := default [] (prop_values opt) in
  let children :=
    match value with
    | None => []
    | Some v =>
        match prop_multipleValues p with
        | Some _ =>
            match v with
            | JArr l =>
                seq 0 (length l) ≫= λ i, pair (basePath +:+ prop_name opt +:+ "[" +:+ pretty i +:+ "]") <$> values
            | _ => []
            end
        | None => pair (basePath +:+ prop_name opt) <$> values
        end
    end in
  (countError p value, children).

(** The issues of the collection itself, and the children to check *)
Definition childProperties (p : INodeProperties) (nodeValues : json) (path : string) (isDisplayed : bool)
    (issues : INodeIssues) : INodeIssues * list (string * INodeProperties) :=
  let basePath := if bool_decide (path = EmptyString) then EmptyString else path +:+ "." in
  match prop_options p with
  | None => (issues, [])
  | Some options =>
      if bool_decide (prop_type p = "collection") then (issues, pair basePath <$> options)
      else if bool_decide (prop_type p = "fixedCollection") && isDisplayed then
        let basePath := if bool_decide (basePath = EmptyString) then prop_name p +:+ "." else basePath +:+ "." in
        foldl (λ acc opt,
          let '(error, children) := optionChildren p nodeValues basePath opt in
          (match error with Some error => pushIssue (prop_name p) error acc.1 | None => acc.1 end, acc.2 ++ children))
          (issues, []) options
      else (issues, [])
  end.

Fixpoint getParameterIssues (fuel : nat) (p : INodeProperties) (nodeValues : json) (path : string) : res INodeIssues :=
  match fuel with
  | 0 => OutOfFuel
  | S fuel =>
      isDisplayed ← displayParameterPath L nodeValues (prop_displayOptions p) path node nodeTypeDescription;
      issues ← requiredIssues p nodeValues path isDisplayed;
      issues ← typeIssues p nodeValues path isDisplayed issues;
      let '(issues, children) := childProperties p nodeValues path isDisplayed issues in
      foldM (λ issues child,
        found ← getParameterIssues fuel child.2 nodeValues child.1; Ok (mergeIssues issues (Some found))) issues children
  end.

Definition getNodeParametersIssues (fuel : nat) (nodePropertiesArray : list INodeProperties) (theNode : INode)
    (pinDataNodeNames : option (list string)) : res (option INodeIssues) :=
  if bool_decide (node_disabled theNode = Some true) ||
     from_option (λ names, bool_decide (node_name theNode ∈ names)) false pinDataNodeNames
  then Ok None
  else
    foundIssues ← foldM (λ issues p,
      found ← getParameterIssues fuel p (JObj (node_parameters theNode)) EmptyString;
      Ok (mergeIssues issues (Some found))) noIssues nodePropertiesArray;
    Ok (if hasNoIssues foundIssues then None else Some foundIssues).
End issues.
