(* ===== verification/IssuesSpec.v ===== *)
(** * What the checks of node parameters report

    The checks end for every node, and for parameters that are neither collections nor resource
    locators, mappers or filters the report names exactly the required parameters that are displayed
    and have no value. *)

From stdpp Require Import strings list pretty.
From S2P Require Import Prelude JsCollections NodeTypes FromAi NodeProperties ParameterOrder NodeParameters NodeParametersSpec ParameterDefaults TypeValidation FilterParameter ParameterIssues Fixtures.

(** ** Termination *)

Section returning.
Context (P : platform) (node : option spec_float) (desc : option INodeTypeDescription).

Lemma validateFilterParameter_returns name value : returns (validateFilterParameter P name value).
Proof. unfold validateFilterParameter, filterIssue. returns_tac. Qed.

Lemma addToIssuesIfMissing_returns p issues v : returns (addToIssuesIfMissing p issues v).
Proof. unfold addToIssuesIfMissing, isMissing, isValidResourceLocatorParameterValue. returns_tac. Qed.

Lemma requiredIssues_returns p values path shown : returns (requiredIssues P p values path shown).
Proof.
  unfold requiredIssues. destruct (_ && _); [|done]. destruct (prop_multipleValues p); [|apply addToIssuesIfMissing_returns].
  destruct (getParameterValueByPath _ _ _ _) as [[]|]; try done. apply returns_foldM. intros issues v.
  apply addToIssuesIfMissing_returns.
Qed.

Lemma locatorIssues_returns p v issues : returns (locatorIssues P p v issues).
Proof. unfold locatorIssues, validateResourceLocatorParameter, modeErrors, testPattern. returns_tac. Qed.

Lemma mapperIssues_returns p v issues : returns (mapperIssues P p v issues).
Proof. unfold mapperIssues, validateResourceMapperParameter, mapperField. returns_tac. Qed.

Lemma filterIssues_returns p v issues : returns (filterIssues P p v issues).
Proof. unfold filterIssues, readFilter, readCondition, member. returns_tac; apply validateFilterParameter_returns. Qed.

Lemma typeIssues_returns p values path shown issues : returns (typeIssues P p values path shown issues).
Proof.
  unfold typeIssues. returns_tac; auto using locatorIssues_returns, mapperIssues_returns, filterIssues_returns.
Qed.

(** The children that are checked are below the property. *)
Lemma optionChildren_below p options values basePath opt child :
  prop_options p = Some options → opt ∈ options → child ∈ (optionChildren P p values basePath opt).2 →
  height child.2 < height p.
Proof.
  intros Ho Hopt Hc. apply height_options in Ho. apply height_elem in Hopt.
  assert (child.2 ∈ default [] (prop_values opt)) as Hin.
  { revert Hc. unfold optionChildren. simpl. destruct (getParameterValueByPath _ _ _ _) as [v|]; [|by intros ?%elem_of_nil].
    destruct (prop_multipleValues p).
    - destruct v; try (by intros ?%elem_of_nil). rewrite list_elem_of_bind. intros (i & Hi & _).
      apply list_elem_of_fmap in Hi as (q & -> & Hq). exact Hq.
    - intros (q & -> & Hq)%list_elem_of_fmap. exact Hq. }
  destruct (prop_values opt) as [vs|] eqn:Hv; [|by apply elem_of_nil in Hin].
  apply height_values in Hv. apply height_elem in Hin. simpl in Hin. lia.
Qed.

Lemma childProperties_below p values path shown issues child :
  child ∈ (childProperties P p values path shown issues).2 → height child.2 < height p.
Proof.
  unfold childProperties. destruct (prop_options p) as [options|] eqn:Ho; [|by intros ?%elem_of_nil].
  case_bool_decide.
  { intros (q & -> & Hq)%list_elem_of_fmap. apply height_options in Ho. apply height_elem in Hq. simpl. lia. }
  destruct (_ && _); [|by intros ?%elem_of_nil].
  match goal with |- context [optionChildren P p values ?x] => generalize x end. intros basePath.
  assert (∀ l (acc : INodeIssues * list (string * INodeProperties)), l ⊆ options →
    (∀ c, c ∈ acc.2 → height c.2 < height p) → ∀ c, c ∈ (foldl (λ acc opt,
      let '(error, children) := optionChildren P p values basePath opt in
      (match error with Some error => pushIssue (prop_name p) error acc.1 | None => acc.1 end, acc.2 ++ children))
      acc l).2 → height c.2 < height p) as Hfold; [|by apply Hfold; [|by intros ? ?%elem_of_nil]].
  induction l as [|opt l IH]; intros acc Hl Hacc; cbn [foldl]; [done|]. apply IH; [set_solver|].
  intros c. destruct (optionChildren P p values basePath opt) as [error children] eqn:Hc. cbn [snd]. rewrite elem_of_app.
  intros [Hin|Hin]; [by apply Hacc|]. apply (optionChildren_below p options values basePath opt c Ho); [set_solver|].
  by rewrite Hc.
Qed.

Lemma returns_foldM_in {S A} (f : S → A → res S) s l :
  (∀ s x, x ∈ l → returns (f s x)) → returns (foldM f s l).
Proof.
  revert s. induction l as [|x l IH]; intros s Hf; simpl; [done|]. apply returns_bind; [apply Hf; by left|].
  intros s' _. apply IH. intros s'' y Hy. apply Hf. by right.
Qed.

(** The checks of a property end if the fuel exceeds its depth. *)
Lemma getParameterIssues_returns fuel p values path :
  height p ≤ fuel → returns (getParameterIssues P node desc fuel p values path).
Proof.
  revert p path. induction fuel as [|fuel IH]; intros p path Hp.
  { destruct p. simpl in Hp. lia. }
  simpl. apply returns_bind; [apply displayParameter_returns|]. intros shown _.
  apply returns_bind; [apply requiredIssues_returns|]. intros issues1 _.
  apply returns_bind; [apply typeIssues_returns|]. intros issues2 _.
  pose proof (childProperties_below p values path shown issues2) as Hb.
  destruct (childProperties P p values path shown issues2) as [issues3 children].
  apply returns_foldM_in. intros i child Hc%Hb. apply returns_bind; [|done]. apply IH. lia.
Qed.

Lemma getNodeParametersIssues_returns fuel props theNode pins :
  heights props ≤ fuel → returns (getNodeParametersIssues P node desc fuel props theNode pins).
Proof.
  intros Hf. unfold getNodeParametersIssues. apply returns_if; [done|]. apply returns_bind; [|done].
  apply returns_foldM_in. intros issues p Hp. apply returns_bind; [|done]. apply getParameterIssues_returns.
  apply height_elem in Hp. lia.
Qed.
End returning.

(** ** Required parameters *)

Section required.
Context (P : platform) (node : option spec_float) (desc : option INodeTypeDescription) (theNode : INode).

Abbreviation values := (JObj (node_parameters theNode)) (only parsing).

(** Parameters whose only check is that they have a value *)
Definition plain (p : INodeProperties) : Prop :=
  (prop_type p ∉ ["resourceLocator"; "workflowSelector"; "resourceMapper"; "filter"; "collection"; "fixedCollection"]) ∧
  prop_multipleValues p = None ∧ ck_validateType (prop_checks p) = None.

(** The parameter is displayed. *)
Definition shown (p : INodeProperties) : res bool :=
  displayParameterPath (pf_libraries P) values (prop_displayOptions p) EmptyString node desc.

Definition valueOf (p : INodeProperties) : option json := lodash_get (pf_libraries P) values (prop_name p).

(** It is required, displayed and empty: strings, dates and options may not be the empty string or
    absent, several options may not be an empty list. *)
Definition lacking (p : INodeProperties) : Prop :=
  ck_required (prop_checks p) = true ∧ shown p = Ok true ∧
  (prop_type p ∈ ["string"; "dateTime"; "options"] ∧ (valueOf p = None ∨ valueOf p = Some (JStr EmptyString)) ∨
   prop_type p = "multiOptions" ∧ valueOf p = Some (JArr [])).

#[global] Instance shown_dec p : Decision (shown p = Ok true).
Proof. destruct (shown p) as [[]| |]; [by left|by right..]. Defined.

#[global] Instance lacking_dec p : Decision (lacking p).
Proof. unfold lacking. apply _. Defined.

Definition requiredMessage (p : INodeProperties) : string :=
  "Parameter " +:+ doubleQuote +:+ ck_displayName (prop_checks p) +:+ doubleQuote +:+ " is required.".

Lemma isMissing_plain p v :
  plain p → isMissing p v = Ok (bool_decide (
    prop_type p ∈ ["string"; "dateTime"; "options"] ∧ (v = None ∨ v = Some (JStr EmptyString)) ∨
    prop_type p = "multiOptions" ∧ v = Some (JArr []))).
Proof.
  intros (Ht & _). unfold isMissing. destruct (bool_decide_reflect (prop_type p ∈ ["string"; "dateTime"; "options"])) as [Hs|Hs].
  - f_equal. apply bool_decide_ext. split; [by left|]. intros [[_ H]|[H _]]; [done|]. rewrite H in Hs. set_solver.
  - destruct (bool_decide_reflect (prop_type p = "multiOptions")) as [Hm|Hm].
    + f_equal. apply bool_decide_ext. naive_solver.
    + rewrite bool_decide_false by set_solver. f_equal. symmetry. apply bool_decide_eq_false. naive_solver.
Qed.

Lemma requiredIssues_plain p b :
  plain p → shown p = Ok b →
  requiredIssues P p values EmptyString b =
    Ok (if bool_decide (lacking p) then pushIssue (prop_name p) (requiredMessage p) noIssues else noIssues).
Proof.
  intros Hp Hb. pose proof Hp as (_ & Hm & _). unfold requiredIssues. rewrite Hm.
  destruct (ck_required (prop_checks p)) eqn:Hr; [destruct b|]; cbn [andb].
  - unfold addToIssuesIfMissing. rewrite isMissing_plain by done. cbn [mbind res_bind].
    change (getParameterValueByPath P values (prop_name p) EmptyString) with (valueOf p).
    rewrite (bool_decide_ext _ (lacking p)); [done|]. unfold lacking. tauto.
  - rewrite bool_decide_false; [done|]. unfold lacking. rewrite Hb. naive_solver.
  - rewrite bool_decide_false; [done|]. unfold lacking. rewrite Hr. naive_solver.
Qed.

(** The report of one plain parameter *)
Lemma plain_issues fuel p b :
  plain p → shown p = Ok b →
  getParameterIssues P node desc (S fuel) p values EmptyString =
    Ok (if bool_decide (lacking p) then pushIssue (prop_name p) (requiredMessage p) noIssues else noIssues).
Proof.
  intros Hp Hb. pose proof (requiredIssues_plain p b Hp Hb) as Hreq. destruct Hp as (Ht & Hm & Hv). unfold shown in Hb.
  cbn [getParameterIssues]. rewrite Hb. cbn [mbind res_bind]. rewrite Hreq. cbn [mbind res_bind].
  generalize (if bool_decide (lacking p) then pushIssue (prop_name p) (requiredMessage p) noIssues else noIssues). intros issues.
  assert (typeIssues P p values EmptyString b issues = Ok issues) as ->.
  { unfold typeIssues. rewrite !bool_decide_false by set_solver. simpl. by rewrite Hv. }
  assert (childProperties P p values EmptyString b issues = (issues, [])) as Hchild.
  { unfold childProperties. destruct (prop_options p); [|done]. by rewrite !bool_decide_false by set_solver. }
  cbn [mbind res_bind]. by rewrite Hchild.
Qed.

Lemma merge_push issues name message :
  mergeIssues issues (Some (pushIssue name message noIssues)) = pushIssue name message issues.
Proof.
  unfold mergeIssues, pushIssue, withParameters. simpl. f_equal. f_equal. unfold obj_set at 2, obj_insert. simpl.
  by destruct (key_index name).
Qed.

Lemma merge_none issues : mergeIssues issues (Some noIssues) = issues.
Proof. by destruct issues. Qed.

(** The report of a list of plain parameters *)
Definition report (props : list INodeProperties) (issues : INodeIssues) : INodeIssues :=
  foldl (λ i p, if bool_decide (lacking p) then pushIssue (prop_name p) (requiredMessage p) i else i) issues props.

Lemma report_loop fuel props issues :
  (∀ p, p ∈ props → plain p ∧ is_ok (shown p)) →
  foldM (λ issues p, found ← getParameterIssues P node desc (S fuel) p values EmptyString;
           Ok (mergeIssues issues (Some found))) issues props = Ok (report props issues).
Proof.
  revert issues. induction props as [|p props IH]; intros issues H; [done|]. cbn [foldM].
  destruct (H p) as [Hp [b Hb]]; [by left|]. rewrite (plain_issues fuel p b Hp Hb). cbn [mbind res_bind].
  rewrite IH by (intros q Hq; apply H; by right). unfold report. simpl. do 2 f_equal.
  case_bool_decide; [apply merge_push|apply merge_none].
Qed.

(** What the report says under a name *)
Definition messages (name : string) (issues : INodeIssues) : option (list string) :=
  iss_parameters issues ≫= obj_get name.

Lemma messages_push name name' message issues :
  messages name' (pushIssue name message issues) =
    if bool_decide (name' = name) then Some (default [] (messages name issues) ++ [message]) else messages name' issues.
Proof.
  unfold messages, pushIssue, withParameters. simpl. rewrite obj_get_set. case_bool_decide as Hn; [|by destruct (iss_parameters issues)].
  by destruct (iss_parameters issues).
Qed.

Lemma report_cons p props issues :
  report (p :: props) issues =
  report props (if bool_decide (lacking p) then pushIssue (prop_name p) (requiredMessage p) issues else issues).
Proof. done. Qed.

Lemma report_other name props issues :
  (∀ p, p ∈ props → prop_name p ≠ name) → messages name (report props issues) = messages name issues.
Proof.
  revert issues. induction props as [|p props IH]; intros issues Hn; [done|]. rewrite report_cons, IH.
  - case_bool_decide; [|done]. rewrite messages_push, bool_decide_false; [done|]. apply not_eq_sym, Hn. by left.
  - intros q Hq. apply Hn. by right.
Qed.

Lemma report_messages props issues p :
  NoDup (prop_name <$> props) → (∀ q, q ∈ props → messages (prop_name q) issues = None) → p ∈ props →
  messages (prop_name p) (report props issues) = if bool_decide (lacking p) then Some [requiredMessage p] else None.
Proof.
  revert issues. induction props as [|q props IH]; intros issues Hnd Hfree Hp; [by apply elem_of_nil in Hp|].
  rewrite report_cons. rewrite fmap_cons in Hnd. apply NoDup_cons in Hnd as [Hq Hnd].
  assert (∀ q', q' ∈ props → prop_name q' ≠ prop_name q) as Hne.
  { intros q' Hq' Heq. apply Hq. rewrite <- Heq. by apply list_elem_of_fmap_2. }
  apply elem_of_cons in Hp as [->|Hp].
  - rewrite report_other by done. destruct (bool_decide (lacking q)); [|apply Hfree; by left].
    rewrite messages_push, bool_decide_true by done. by rewrite Hfree by by left.
  - apply IH; [done| |done]. intros q' Hq'. destruct (bool_decide (lacking q)); [|apply Hfree; by right].
    rewrite messages_push, bool_decide_false by by apply Hne. apply Hfree. by right.
Qed.

Lemma report_keeps props issues : hasNoIssues issues = false → hasNoIssues (report props issues) = false.
Proof.
  revert issues. induction props as [|p props IH]; intros issues Hi; [done|]. rewrite report_cons. apply IH.
  destruct (bool_decide (lacking p)); [|done]. unfold hasNoIssues. simpl. by rewrite !andb_false_r.
Qed.

Lemma report_noIssues props : hasNoIssues (report props noIssues) = true ↔ ∀ p, p ∈ props → ¬ lacking p.
Proof.
  induction props as [|p props IH]; [split; [by intros _ p ?%elem_of_nil|done]|].
  rewrite report_cons. destruct (bool_decide_reflect (lacking p)) as [Hl|Hl].
  - rewrite report_keeps by done. split; [done|]. intros H. exfalso. by apply (H p); [left|].
  - rewrite IH. setoid_rewrite elem_of_cons. naive_solver.
Qed.

Lemma getNodeParametersIssues_required fuel props pins :
  node_disabled theNode ≠ Some true → (∀ names, pins = Some names → node_name theNode ∉ names) →
  NoDup (prop_name <$> props) → (∀ p, p ∈ props → plain p ∧ is_ok (shown p)) → 0 < fuel →
  ∃ r, getNodeParametersIssues P node desc fuel props theNode pins = Ok r ∧
    (r = None ↔ ∀ p, p ∈ props → ¬ lacking p) ∧
    (∀ p, p ∈ props → (r ≫= messages (prop_name p)) = if bool_decide (lacking p) then Some [requiredMessage p] else None) ∧
    (∀ name, name ∉ prop_name <$> props → (r ≫= messages name) = None).
Proof.
  intros Hd Hpins Hnd Hprops Hfuel. destruct fuel as [|fuel]; [lia|]. unfold getNodeParametersIssues.
  assert (from_option (λ names, bool_decide (node_name theNode ∈ names)) false pins = false) as ->.
  { destruct pins as [names|]; simpl; [|done]. apply bool_decide_eq_false. by apply Hpins. }
  rewrite bool_decide_false by done. cbn [orb]. rewrite report_loop by done. cbn [mbind res_bind].
  pose proof (report_noIssues props) as Hnone. eexists. split; [done|].
  destruct (hasNoIssues (report props noIssues)).
  - split; [tauto|]. split; [|done]. intros p Hp. rewrite bool_decide_false; [done|]. by apply Hnone.
  - split; [naive_solver|]. split; [intros p Hp; by apply report_messages|].
    intros name Hn. cbn [mbind option_bind]. rewrite report_other; [done|].
    intros p Hp <-. by apply Hn, list_elem_of_fmap_2.
Qed.

(** C27: for a node that is neither disabled nor pinned, and whose parameters have distinct names, are no
    collections, resource locators, workflow selectors, resource mappers or filters, have no multiple values and no
    type to validate, and can be checked for display: the report names exactly the parameters that are
    required, displayed and empty, each with one message.  A string, a date and an option
    are empty if they are missing or the empty string, a list of options if it is the empty list; parameters of other
    types are never reported.  A node without such parameters has no issues. *)
Theorem required_parameters_reported fuel props pins :
  node_disabled theNode ≠ Some true → (∀ names, pins = Some names → node_name theNode ∉ names) →
  NoDup (prop_name <$> props) → (∀ p, p ∈ props → plain p ∧ is_ok (shown p)) → 0 < fuel →
  ∃ r, getNodeParametersIssues P node desc fuel props theNode pins = Ok r ∧
    (r = None ↔ ∀ p, p ∈ props → ¬ lacking p) ∧
    (∀ p, p ∈ props → (r ≫= messages (prop_name p)) = if bool_decide (lacking p) then Some [requiredMessage p] else None) ∧
    (∀ name, name ∉ prop_name <$> props → (r ≫= messages name) = None).
Proof. apply getNodeParametersIssues_required. Qed.
End required.

(** ** Examples *)

(** The properties along a path with dots *)
Fixpoint followPath (v : json) (key path : string) : option json :=
  match path with
  | EmptyString => getProp v key
  | String c path =>
      if bool_decide (c = "."%char) then v ← getProp v key; followPath v EmptyString path
      else followPath v (key +:+ String c EmptyString) path
  end.

Definition pathPlatform : platform :=
  let L := pf_libraries examplePlatform in
  {| pf_libraries := {| lodash_get := λ v path, followPath v EmptyString path; lodash_isEqual := lodash_isEqual L;
       regExp_test := regExp_test L; number_of := number_of L; string_of := string_of L |};
     jsonStringify := jsonStringify examplePlatform; jsonParseText := jsonParseText examplePlatform;
     parseJSObject := parseJSObject examplePlatform; dateParsers := dateParsers examplePlatform;
     urlProtocol := urlProtocol examplePlatform |}.

Definition parametersNode (parameters : list (string * json)) : INode :=
  let n := nodeA in
  {| node_ref := node_ref n; node_id := node_id n; node_name := node_name n; node_typeVersion := node_typeVersion n;
     node_type := node_type n; node_position := node_position n; node_disabled := node_disabled n;
     node_retryOnFail := node_retryOnFail n; node_maxTries := node_maxTries n;
     node_waitBetweenTries := node_waitBetweenTries n; node_alwaysOutputData := node_alwaysOutputData n;
     node_executeOnce := node_executeOnce n; node_onError := node_onError n; node_continueOnFail := node_continueOnFail n;
     node_parameters := parameters; node_rewireOutputLogTo := node_rewireOutputLogTo n; node_rest := node_rest n |}.

Definition requiredChecks (displayName : string) : PropertyChecks :=
  {| ck_displayName := displayName; ck_required := true; ck_modes := []; ck_resourceMapper := None;
     ck_minRequiredFields := None; ck_maxAllowedFields := None; ck_validateType := None; ck_value := None |}.

Definition requiredProperty (name type : string) : INodeProperties :=
  {| prop_name := name; prop_type := type; prop_default := JStr ""; prop_displayOptions := None;
     prop_multipleValues := None; prop_noDataExpression := false; prop_options := None; prop_values := None;
     prop_checks := requiredChecks name |}.

Definition containerProperty (name type : string) (options : list INodeProperties) : INodeProperties :=
  {| prop_name := name; prop_type := type; prop_default := JObj []; prop_displayOptions := None;
     prop_multipleValues := None; prop_noDataExpression := false; prop_options := Some options; prop_values := None;
     prop_checks := noChecks |}.

Abbreviation issuesOf props parameters :=
  (getNodeParametersIssues pathPlatform None None 9 props (parametersNode parameters) None) (only parsing).

Lemma required_parameters_reported_witness :
  let props := [requiredProperty "mail" "string"; requiredProperty "user" "string"] in
  ∃ r, issuesOf props [("user", JStr "x")] = Ok (Some r) ∧
    messages "mail" r = Some [requiredMessage (requiredProperty "mail" "string")] ∧ messages "user" r = None.
Proof.
  intros props.
  destruct (required_parameters_reported pathPlatform None None (parametersNode [("user", JStr "x")]) 9 props None)
    as (r & Hr & _ & Hm & _); [discriminate|discriminate| | |lia|].
  - vm_compute. repeat constructor; set_solver.
  - intros p Hp. apply list_elem_of_In in Hp. simpl in Hp. destruct Hp as [<-|[<-|[]]];
      (split; [split_and!; [vm_compute; set_solver|reflexivity|reflexivity]|by eexists]).
  - destruct r as [r|]; [|exfalso; revert Hr; vm_compute; discriminate]. exists r. split; [exact Hr|].
    split; [apply (Hm (requiredProperty "mail" "string")); by left|].
    apply (Hm (requiredProperty "user" "string")). right. by left.
Defined.

(** A parameter in a collection is looked up beside the collection: it is reported although it has a
    value, and not reported if there is a parameter of the same name outside. *)
Lemma collection_children_looked_up_outside :
  let props := [containerProperty "user" "collection" [requiredProperty "mail" "string"]] in
  (∃ r, issuesOf props [("user", JObj [("mail", JStr "a")])] = Ok (Some r)) ∧
  issuesOf props [("user", JObj [("mail", JStr "")]); ("mail", JStr "a")] = Ok None.
Proof. split; [eexists|]; vm_compute; reflexivity. Qed.

(** A collection with fixed options is checked at the top, but not inside of another one: its path
    gets a second dot in place of its name. *)
Lemma nested_collection_not_checked :
  let inner := containerProperty "inner" "fixedCollection" [optionOf "item" [requiredProperty "mail" "string"]] in
  let outer := containerProperty "outer" "fixedCollection" [optionOf "group" [inner]] in
  let value := JObj [("item", JObj [("mail", JStr "")])] in
  (∃ r, issuesOf [inner] [("inner", value)] = Ok (Some r)) ∧
  issuesOf [outer] [("outer", JObj [("group", JObj [("inner", value)])])] = Ok None.
Proof. split; [eexists|]; vm_compute; reflexivity. Qed.

(** A required resource locator that is null makes the check throw. *)
Lemma null_locator_throws :
  issuesOf [requiredProperty "channel" "resourceLocator"] [("channel", JNull)] = Throw TypeError.
Proof. vm_compute. reflexivity. Qed.
