(* ===== verification/DataProxy.v ===== *)
(** * Data access of expressions

    [WorkflowDataProxy] of [packages/workflow/src/workflow-data-proxy.ts]: what an
    expression of a node can read of the other nodes.  [$('Node').item] follows the
    pairs of the items back through the runs ([getPairedItem]); [first], [last] and
    [all] read a run of the node; [$input] reads the items the node was given.

    [getPairedItem] compares items with [===].  An item that it finds is the object at
    a place of the run data or of the pinned data, an [itemLocation]; [objectAt] says
    which object is there, so that two places can hold the same object.

    [getPairedItem] calls itself inside a [try]: a call that exceeds the call stack
    throws a [RangeError] that its caller catches.  [depth] is the number of calls that
    the stack has room for. *)

From S2P Require Import Prelude JsCollections NodeTypes Connections Workflow Items.

(** ** Errors *)

Definition noOptions : ExpressionErrorOptions :=
  {| opt_causeDetailed := None; opt_description := None; opt_descriptionKey := None; opt_functionality := None;
     opt_messageTemplate := None; opt_nodeCause := None; opt_type := None |}.

Definition SCRIPTING_NODE_TYPES : list string :=
  ["n8n-nodes-base.function"; "n8n-nodes-base.functionItem"; "n8n-nodes-base.code"; "n8n-nodes-base.aiTransform"].

Definition isScriptingNode (nodeName : string) (w : Workflow) : bool :=
  match getNode w nodeName with
  | Some node => bool_decide (node_type node ∈ SCRIPTING_NODE_TYPES)
  | None => false
  end.

Definition getPinDataIfManualExecution (w : Workflow) (nodeName mode : string) : option (list INodeExecutionData) :=
  if bool_decide (mode = "manual") then getPinDataOfNode w nodeName else None.

(** ** State *)

Record WorkflowDataProxy := {
  dp_workflow : Workflow;
  dp_runData : option IRunData;
  dp_itemIndex : nat;
  dp_activeNodeName : string;
  dp_connectionInputData : list INodeExecutionData;
  dp_mode : string;
  dp_executeData : option IExecuteData;
  dp_defaultReturnRunIndex : Z;
  dp_contextNodeName : string;
}.

(** Where an item is *)
Inductive itemLocation :=
  | InRun (node : string) (run output index : nat)
  | InPinData (node : string) (index : nat).

#[global] Instance itemLocation_eq_dec : EqDecision itemLocation.
Proof. solve_decision. Defined.

(** What an expression gets *)
Inductive dataValue :=
  | DUndefined
  | DNull
  | DItem (item : INodeExecutionData)
  | DItems (items : list INodeExecutionData)
  | DJson (json : IDataObject)
  | DJsons (jsons : list IDataObject)
  | DBool (b : bool)
  | DIndex (i : Z)
  | DName (name : string).

#[global] Instance dataValue_eq_dec : EqDecision dataValue.
Proof. solve_decision. Defined.

(** [functionOverrides] of the options of [createExpressionError] *)
Record functionOverrides := {
  over_message : option string;
  over_description : option string;
}.

(** [a || b] on strings *)
Definition orString (a : option string) (b : option string) : option string :=
  match a with Some s => if bool_decide (s = "") then b else a | None => b end.

Definition moreInfoLinkText : string :=
  " <a target=" +:+ String "034" ("_blank" +:+ String "034" (" href=" +:+ String "034"
    ("https://docs.n8n.io/data/data-mapping/data-item-linking/item-linking-errors/" +:+ String "034" ">More info</a>"))).

Section proxy.
Context (that : WorkflowDataProxy).

Definition pinnedData (nodeName : string) : option (list INodeExecutionData) :=
  getPinDataIfManualExecution (dp_workflow that) nodeName (dp_mode that).

(** The part for a node with code *)
Definition overrideForCode (overrides : option functionOverrides) (message : string) (context : ExpressionErrorOptions)
    : string * ExpressionErrorOptions :=
  match overrides with
  | Some overrides =>
      if isScriptingNode (dp_activeNodeName that) (dp_workflow that) then
        (default message (orString (over_message overrides) (Some message)),
         {| opt_causeDetailed := opt_causeDetailed context;
            opt_description := orString (over_description overrides) (opt_description context);
            opt_descriptionKey := opt_descriptionKey context; opt_functionality := opt_functionality context;
            opt_messageTemplate := None; opt_nodeCause := opt_nodeCause context; opt_type := opt_type context |})
      else (message, context)
  | None => (message, context)
  end.

(** The part for the node that caused it; adding to an [undefined] description makes
    it start with this word. *)
Definition explainCause (moreInfoLink : bool) (message : string) (context : ExpressionErrorOptions)
    : string * ExpressionErrorOptions :=
  match orString (opt_nodeCause context) None with
  | None => (message, context)
  | Some nodeName =>
      let pinned := bool_decide (is_Some (pinnedData nodeName)) in
      let description :=
        if moreInfoLink && (pinned || isScriptingNode nodeName (dp_workflow that))
        then Some (default "undefined" (opt_description context) +:+ moreInfoLinkText)
        else opt_description context in
      (if pinned then "Unpin '" +:+ nodeName +:+ "' to execute" else message,
       {| opt_causeDetailed := opt_causeDetailed context; opt_description := description;
          opt_descriptionKey := if pinned then Some "pairedItemPinned" else opt_descriptionKey context;
          opt_functionality := opt_functionality context;
          opt_messageTemplate := if pinned then None else opt_messageTemplate context;
          opt_nodeCause := opt_nodeCause context; opt_type := opt_type context |})
  end.

Definition createExpressionError (message : string) (context : ExpressionErrorOptions)
    (overrides : option functionOverrides) (moreInfoLink : bool) : jserror :=
  let '(message, context) := overrideForCode overrides message context in
  let '(message, context) := explainCause moreInfoLink message context in
  ExpressionError message context.

Definition forCode (nodeName key : string) : option string :=
  Some (if isScriptingNode nodeName (dp_workflow that) then key +:+ "CodeNode" else key).

Definition createMissingPairedItemError (nodeCause usedMethodName : string) : jserror :=
  ExpressionError
    (if bool_decide (is_Some (pinnedData nodeCause))
     then "Using the " +:+ usedMethodName +:+ " method doesn't work with pinned data in this scenario. Please unpin '" +:+
          nodeCause +:+ "' and try again."
     else "Paired item data for " +:+ usedMethodName +:+ " from node '" +:+ nodeCause +:+
          "' is unavailable. Ensure '" +:+ nodeCause +:+ "' is providing the required output.")
    {| opt_causeDetailed := Some ("Missing pairedItem data (node '" +:+ nodeCause +:+ "' probably didn't supply it)");
       opt_description := None; opt_descriptionKey := forCode nodeCause "pairedItemNoInfo";
       opt_functionality := Some "pairedItem"; opt_messageTemplate := None; opt_nodeCause := Some nodeCause;
       opt_type := Some "paired_item_no_info" |}.

Definition createNoConnectionError (nodeCause : string) : jserror :=
  createExpressionError "Invalid expression"
    {| opt_causeDetailed := None; opt_description := None; opt_descriptionKey := forCode nodeCause "pairedItemNoConnection";
       opt_functionality := Some "pairedItem"; opt_messageTemplate := Some "No path back to referenced node";
       opt_nodeCause := Some nodeCause; opt_type := Some "paired_item_no_connection" |} None true.

Definition createBranchNotFoundError (node : string) (item : nat) (cause : option string) : jserror :=
  createExpressionError "Branch not found"
    {| opt_causeDetailed := None;
       opt_description := Some ("Item " +:+ pretty item +:+ " in node " +:+ node +:+
         " references a branch that doesn't exist.");
       opt_descriptionKey := None; opt_functionality := Some "pairedItem";
       opt_messageTemplate := Some "Paired item references non-existent branch"; opt_nodeCause := cause;
       opt_type := Some "paired_item_invalid_info" |}
    (Some {| over_message := Some "Invalid branch reference"; over_description := None |}) false.

Definition createPairedItemNotFound (destNode : string) (cause : option string) : jserror :=
  createExpressionError "Paired item resolution failed"
    {| opt_causeDetailed := None; opt_description := Some ("Could not trace back to node '" +:+ destNode +:+ "'");
       opt_descriptionKey := None; opt_functionality := Some "pairedItem";
       opt_messageTemplate := Some "Unable to find paired item source"; opt_nodeCause := cause;
       opt_type := Some "paired_item_no_info" |}
    (Some {| over_message := Some "Data not found"; over_description := None |}) true.

Definition createPairedItemMultipleItemsFound (destNode : string) (itemIndex : nat) : jserror :=
  createExpressionError "Multiple matches found"
    {| opt_causeDetailed := None; opt_description := None; opt_descriptionKey := forCode destNode "pairedItemMultipleMatches";
       opt_functionality := Some "pairedItem";
       opt_messageTemplate := Some ("Multiple matching items for item [" +:+ pretty itemIndex +:+ "]");
       opt_nodeCause := Some destNode; opt_type := Some "paired_item_multiple_matches" |}
    (Some {| over_message := Some "Multiple matches"; over_description := None |}) false.

(** ** The item another item descends from *)

Definition normalizeInputs (pairedItem : IPairedItemData) (sourceData : option ISourceData) : option ISourceData :=
  match paired_sourceOverwrite pairedItem with Some source => Some source | None => sourceData end.

(** The run that a source names, or the pinned data of the node as a run with one
    output and no sources; with the place of the items of an output *)
Definition getTaskData (source : ISourceData) : option (ITaskData + list INodeExecutionData) :=
  match (runData ← dp_runData that; tasks ← obj_get (previousNode source) runData;
         (tasks : list ITaskData) !! default 0 (previousNodeRun source)) with
  | Some task => Some (inl task)
  | None => inr <$> pinnedData (previousNode source)
  end.

Definition taskOutput (taskData : ITaskData + list INodeExecutionData) (outputIndex : nat)
    : slot (list INodeExecutionData) :=
  match taskData with
  | inl task =>
      match task_data task ≫= obj_get NodeConnectionTypes.Main with
      | Some outputs => arr_get outputIndex outputs
      | None => Undefined
      end
  | inr pinData => arr_get outputIndex [Val pinData]
  end.

Definition taskSources (taskData : ITaskData + list INodeExecutionData) : list (slot ISourceData) :=
  match taskData with inl task => task_source task | inr _ => [] end.

Definition locationIn (taskData : ITaskData + list INodeExecutionData) (source : ISourceData) (index : nat)
    : itemLocation :=
  match taskData with
  | inl _ => InRun (previousNode source) (default 0 (previousNodeRun source))
               (default 0 (previousNodeOutput source)) index
  | inr _ => InPinData (previousNode source) index
  end.

Definition getNodeOutput (taskData : option (ITaskData + list INodeExecutionData)) (source : ISourceData)
    (nodeCause : option string) : res (list INodeExecutionData) :=
  let outputIndex := default 0 (previousNodeOutput source) in
  match taskData ≫= (λ task, match taskOutput task outputIndex with Val items => Some items | _ => None end) with
  | Some outputs => Ok outputs
  | None =>
      Throw (createExpressionError "Can’t get data for expression"
        {| opt_causeDetailed := None;
           opt_description := Some ("Expected output #" +:+ pretty outputIndex +:+ " from node " +:+ previousNode source);
           opt_descriptionKey := None; opt_functionality := None; opt_messageTemplate := Some "Missing output data";
           opt_nodeCause := nodeCause; opt_type := Some "internal" |}
        (Some {| over_message := Some "Missing output"; over_description := None |}) false)
  end.

Definition pairedNumber (n : nat) : IPairedItemData :=
  {| paired_item := n; paired_input := None; paired_sourceOverwrite := None |}.

Definition normalizePairedItem (paired : option pairedItem) : list IPairedItemData :=
  match paired with
  | None => []
  | Some (PairedOne p) => [p]
  | Some (PairedMany l) => l
  | Some (PairedNumber n) => [pairedNumber n]
  end.

(** The source that a pair leads to, if the run has an input for it *)
Definition nextSource (sourceArray : list (slot ISourceData)) (next : IPairedItemData) : option (option ISourceData) :=
  let inputIndex := default 0 (paired_input next) in
  if bool_decide (length sourceArray ≤ inputIndex) then None
  else Some (match paired_sourceOverwrite next with
             | Some source => Some source
             | None => match arr_get inputIndex sourceArray with Val source => Some source | _ => None end
             end).

(** [throw results[0].error] reads a property of [undefined] when there is no result. *)
Definition firstError {A} (results : list (A + jserror)) : jserror :=
  match results with inr e :: _ => e | _ => TypeError end.

Definition okResults {A} (results : list (A + jserror)) : list A :=
  omap (λ r, match r with inl a => Some a | inr _ => None end) results.

Section paired.
Context (objectAt : itemLocation → nat).

Definition sameObject (a b : itemLocation * INodeExecutionData) : bool :=
  bool_decide (objectAt a.1 = objectAt b.1).

Fixpoint getPairedItem (depth : nat) (destinationNodeName : string) (incomingSourceData : option ISourceData)
    (pairedItem : IPairedItemData) (usedMethodName : string) (nodeBeforeLast : option string)
    : (itemLocation * INodeExecutionData) + jserror :=
  match depth with
  | 0 => inr RangeError
  | S depth =>
      match normalizeInputs pairedItem incomingSourceData with
      | None => inr (createPairedItemNotFound destinationNodeName nodeBeforeLast)
      | Some sourceData =>
          let taskData := getTaskData sourceData in
          match getNodeOutput taskData sourceData nodeBeforeLast, taskData with
          | Ok outputData, Some taskData =>
              let item := outputData !! paired_item pairedItem in
              let sourceArray := taskSources taskData in
              if bool_decide (previousNode sourceData = destinationNodeName) then
                match item with
                | None => inr (createMissingPairedItemError (previousNode sourceData) usedMethodName)
                | Some item => inl (locationIn taskData sourceData (paired_item pairedItem), item)
                end
              else
                match item with
                | None => inr TypeError
                | Some item =>
                    let nextPairedItems := normalizePairedItem (item_pairedItem item) in
                    if bool_decide (nextPairedItems = [])
                    then inr (createMissingPairedItemError (previousNode sourceData) usedMethodName) else
                    let results := omap (λ nextPairedItem,
                      source ← nextSource sourceArray nextPairedItem;
                      Some (getPairedItem depth destinationNodeName source
                        {| paired_item := paired_item nextPairedItem;
                           paired_input := Some (default 0 (paired_input nextPairedItem));
                           paired_sourceOverwrite := paired_sourceOverwrite nextPairedItem |}
                        usedMethodName (Some (previousNode sourceData)))) nextPairedItems in
                    if forallb (λ r, match r with inl _ => false | inr _ => true end) results
                    then inr (firstError results) else
                    match okResults results with
                    | [] => if bool_decide (length sourceArray = 0)
                            then inr (createNoConnectionError destinationNodeName)
                            else inr (createBranchNotFoundError (previousNode sourceData) (paired_item pairedItem)
                                   nodeBeforeLast)
                    | first :: rest =>
                        if existsb (λ r, negb (sameObject r first)) rest
                        then inr (createPairedItemMultipleItemsFound destinationNodeName (paired_item pairedItem))
                        else inl first
                    end
                end
          | Throw e, _ => inr e
          | _, _ => inr TypeError
          end
      end
  end.

(** A pair that is an array has no [item] and no [sourceOverwrite]: the access of the
    property [undefined] finds nothing, and [undefined] is not beyond the end. *)
Definition getPairedItemOfArray (destinationNodeName : string) (incomingSourceData : option ISourceData)
    : (option (itemLocation * INodeExecutionData)) + jserror :=
  match incomingSourceData with
  | None => inr (createPairedItemNotFound destinationNodeName None)
  | Some sourceData =>
      match getNodeOutput (getTaskData sourceData) sourceData None with
      | Ok _ => if bool_decide (previousNode sourceData = destinationNodeName) then inl None else inr TypeError
      | Throw e => inr e
      | OutOfFuel => inr TypeError
      end
  end.

Definition resolvePairedItem (depth : nat) (destinationNodeName : string) (incomingSourceData : option ISourceData)
    (paired : pairedItem) (usedMethodName : string) : res (option INodeExecutionData) :=
  match
    match paired with
    | PairedMany _ => getPairedItemOfArray destinationNodeName incomingSourceData
    | PairedOne p =>
        match getPairedItem depth destinationNodeName incomingSourceData p usedMethodName None with
        | inl found => inl (Some found) | inr e => inr e
        end
    | PairedNumber n =>
        match getPairedItem depth destinationNodeName incomingSourceData (pairedNumber n) usedMethodName None with
        | inl found => inl (Some found) | inr e => inr e
        end
    end
  with
  | inl found => Ok (snd <$> found)
  | inr e => Throw e
  end.
End paired.

(** ** The items of a node *)

(** [returnExecutionData] of an item; in the combined binary mode only its data *)
Definition combinedMode : bool :=
  bool_decide (obj_get "binaryMode" (workflow_settings (dp_workflow that)) = Some (JStr "combined")).

Definition returnItem (item : option INodeExecutionData) (fullItem : bool) : res dataValue :=
  if fullItem || negb combinedMode then Ok (match item with Some item => DItem item | None => DUndefined end)
  else item ← deref item; Ok (DJson (item_json item)).

Definition returnItems (items : slot (list INodeExecutionData)) (fullItem : bool) : res dataValue :=
  if fullItem || negb combinedMode
  then Ok (match items with Val items => DItems items | Null => DNull | Undefined => DUndefined end)
  else match items with Val items => Ok (DJsons (item_json <$> items)) | _ => Throw TypeError end.

(** The node has run, or has pinned data that counts. *)
Definition hasRun (nodeName : string) : bool := from_option (obj_has nodeName) false (dp_runData that).

Definition notExecutedError (nodeName : string) (create : string → ExpressionErrorOptions → jserror) : jserror :=
  create ("Node '" +:+ nodeName +:+ "' hasn't been executed")
    {| opt_causeDetailed := None; opt_description := None;
       opt_descriptionKey := forCode nodeName "pairedItemNoConnection"; opt_functionality := Some "pairedItem";
       opt_messageTemplate := Some ("An expression references this node, but the node is unexecuted. Consider re-wiring your nodes or checking for execution first, i.e. {{ $if( $(" +:+ String "034" ("{{nodeName}}" +:+ String "034" (").isExecuted, <action_if_executed>, " +:+ String "034" (String "034" ") }}"))));
       opt_nodeCause := Some nodeName; opt_type := Some "no_execution_data" |}.

Definition nodeNotFoundOptions (nodeName : string) : ExpressionErrorOptions :=
  {| opt_causeDetailed := None; opt_description := None; opt_descriptionKey := Some "nodeNotFound";
     opt_functionality := None; opt_messageTemplate := None; opt_nodeCause := Some nodeName; opt_type := None |}.

(** The run to read: the given one, the default of the proxy, the last one for [-1] *)
Definition chosenRun (runs : list ITaskData) (runIndex : option Z) : Z :=
  let runIndex := default (dp_defaultReturnRunIndex that) runIndex in
  if bool_decide (runIndex = (-1)%Z) then (Z.of_nat (length runs) - 1)%Z else runIndex.

(** The output to read: the given one, or the one the node is connected to *)
Definition chosenOutput (nodeName : string) (outputIndex : option nat) : res nat :=
  match outputIndex with
  | Some outputIndex => Ok outputIndex
  | None =>
      connection ← getNodeConnectionIndexes (dp_workflow that) (dp_contextNodeName that) nodeName NodeConnectionTypes.Main;
      match connection with
      | None => Throw (ExpressionError ("connect " +:+ String "034" (dp_contextNodeName that +:+ String "034"
                  (" to " +:+ String "034" (nodeName +:+ String "034" "")))) noOptions)
      | Some connection => Ok (nc_sourceIndex connection)
      end
  end.

Definition getNodeExecutionData (nodeName : string) (shortSyntax : bool) (outputIndex : option nat)
    (runIndex : option Z) : res (slot (list INodeExecutionData)) :=
  if shortSyntax then Ok (Val (dp_connectionInputData that)) else
  match dp_runData that with
  | None => Throw (ExpressionError "The workflow hasn't been executed yet, so you can't reference any output data" noOptions)
  | Some runData =>
      match getNode (dp_workflow that) nodeName with
      | None => Throw (ExpressionError "Referenced node doesn't exist" (nodeNotFoundOptions nodeName))
      | Some _ =>
          if negb (obj_has nodeName runData) && bool_decide (pinnedData nodeName = None)
          then Throw (notExecutedError nodeName ExpressionError) else
          runs ← deref (obj_get nodeName runData);
          let run := chosenRun runs runIndex in
          if bool_decide (Z.of_nat (length runs) ≤ run)%Z
          then Throw (ExpressionError ("Run " +:+ pretty run +:+ " of node " +:+ String "034" (nodeName +:+ String "034"
                 " not found")) noOptions) else
          task ← deref (if bool_decide (run < 0)%Z then None else (runs : list ITaskData) !! Z.to_nat run);
          taskData ← deref (task_data task);
          let main := default [] (obj_get NodeConnectionTypes.Main taskData) in
          if bool_decide (main = []) || bool_decide (arr_get 0 main = Null)
          then Throw (ExpressionError "No data found from `main` input" noOptions) else
          output ← chosenOutput nodeName outputIndex;
          if bool_decide (length main ≤ output)
          then Throw (ExpressionError ("Node " +:+ String "034" (nodeName +:+ String "034" (" has no branch with index " +:+
                 pretty output +:+ "."))) noOptions)
          else Ok (arr_get output main)
      end
  end.

(** An error gives way to the pinned data. *)
Definition getNodeExecutionOrPinnedData (nodeName : string) (branchIndex : option nat) (runIndex : option Z)
    (shortSyntax : bool) : res (slot (list INodeExecutionData)) :=
  match getNodeExecutionData nodeName shortSyntax branchIndex runIndex with
  | Throw e => match pinnedData nodeName with Some items => Ok (Val items) | None => Throw e end
  | r => r
  end.

(** Reading an index or the length of a value that may be [null] or [undefined] *)
Definition itemsOfSlot (items : slot (list INodeExecutionData)) : res (list INodeExecutionData) :=
  match items with Val items => Ok items | _ => Throw TypeError end.
End proxy.

(** ** The node whose main input a sub-node serves *)

Section parentMainInput.
Context `{INodeTypes} (evaluateOutputs : INode → res (list NodeOutput)).

(** The nodes connected to the outputs of these types, in this order *)
Fixpoint nonMainChildren (w : Workflow) (name : string) (types : list NodeConnectionType) : res (list string) :=
  match types with
  | [] => Ok []
  | type :: types =>
      children ← (if bool_decide (is_Some (obj_get name (connectionsBySourceNode w) ≫= obj_get type))
                  then workflowChildNodes w name (OfType type) (-1) else Ok []);
      rest ← nonMainChildren w name types;
      Ok (children ++ rest)
  end.

Fixpoint getParentMainInputNodeRec (fuel : nat) (w : Workflow) (node : INode) : res INode :=
  match fuel with
  | 0 => OutOfFuel
  | S fuel =>
      match nodeTypeOf node with
      | None => Ok node
      | Some nodeType =>
          let types := filter (λ type, type ≠ NodeConnectionTypes.Main)
            (getConnectionTypes (getNodeOutputs evaluateOutputs node nodeType)) in
          connected ← nonMainChildren w (node_name node) (array_sort compareStrings types);
          match array_sort compareStrings connected with
          | [] => Ok node
          | name :: _ =>
              match getNode w name with
              | None => Throw (ApplicationError ("Node " +:+ String "034" (name +:+ String "034" " not found")))
              | Some returnNode => getParentMainInputNodeRec fuel w returnNode
              end
          end
      end
  end.

(** The next node is determined by the node: a search that is longer than the number
    of nodes never ends. *)
Definition getParentMainInputNode (w : Workflow) (node : INode) : res INode :=
  getParentMainInputNodeRec (S (length (workflow_nodes w))) w node.
End parentMainInput.

(** ** [$prevNode] *)

Section prevNode.
Context (that : WorkflowDataProxy).

(** The first source of the node; [None] if there are no sources *)
Definition prevSource : res (option ISourceData) :=
  match dp_executeData that ≫= exec_source with
  | None => Ok None
  | Some source =>
      main ← deref (obj_get NodeConnectionTypes.Main source);
      match arr_get 0 main with Val sourceData => Ok (Some sourceData) | _ => Throw TypeError end
  end.

Definition prevNodeName : res (option string) :=
  source ← prevSource; Ok (option_map previousNode source).

Definition prevNodeOutputIndex : res (option nat) :=
  source ← prevSource; Ok (option_map (λ s, default 0 (previousNodeOutput s)) source).

Definition prevNodeRunIndex : res (option nat) :=
  source ← prevSource; Ok (option_map (λ s, default 0 (previousNodeRun s)) source).
End prevNode.

(** ** [$('Node')] *)

(** The property that is read, with the arguments of the call *)
Inductive nodeProperty :=
  | IsExecuted
  | PairedItem (itemIndex : option nat)
  | ItemMatching (itemIndex : option nat)
  | Item
  | First (branchIndex : option nat) (runIndex : option Z)
  | Last (branchIndex : option nat) (runIndex : option Z)
  | All (branchIndex : option nat) (runIndex : option Z).

Section node.
Context `{INodeTypes} (evaluateOutputs : INode → res (list NodeOutput)).
Context (objectAt : itemLocation → nat) (depth : nat).
Context (that : WorkflowDataProxy) (resolveFullItem : bool).

(** The node that the pairs are looked up for: the one a sub-node serves *)
Definition contextNode : res string :=
  match getNode (dp_workflow that) (dp_activeNodeName that) with
  | None => Ok (dp_contextNodeName that)
  | Some activeNode => node ← getParentMainInputNode evaluateOutputs (dp_workflow that) activeNode; Ok (node_name node)
  end.

Fixpoint parentsOfAll (w : Workflow) (children : list string) : res (list string) :=
  match children with
  | [] => Ok []
  | child :: children =>
      parents ← workflowParentNodes w child ALL (-1); rest ← parentsOfAll w children; Ok (parents ++ rest)
  end.

(** The referenced node comes before the current one. *)
Definition ensureConnected (nodeName : string) : res unit :=
  context ← contextNode;
  children ← workflowChildNodes (dp_workflow that) (dp_activeNodeName that) ALL_NON_MAIN (-1);
  parents ← (if bool_decide (length children = 0)
             then workflowParentNodes (dp_workflow that) context (OfType NodeConnectionTypes.Main) (-1)
             else parentsOfAll (dp_workflow that) children);
  if bool_decide (nodeName ∈ parents) then Ok tt else Throw (createNoConnectionError that nodeName).

Definition ensureNodeExecutionData (nodeName : string) : res unit :=
  if negb (hasRun that nodeName) && bool_decide (pinnedData that nodeName = None)
  then Throw (notExecutedError that nodeName (λ message context, createExpressionError that message context None false))
  else Ok tt.

Definition intermediateNodesError (nodeName : string) : jserror :=
  let between := "‘<strong>" +:+ nodeName +:+ "</strong>‘ and  ‘<strong>" +:+ dp_activeNodeName that +:+ "</strong>" in
  let description := "Some intermediate nodes between " +:+ between +:+ "‘ have not executed yet." in
  createExpressionError that "Can’t get data for expression"
    {| opt_causeDetailed := Some ("pairedItem can't be found when intermediate nodes between " +:+ between +:+
         " have not executed yet.");
       opt_description := Some description; opt_descriptionKey := None; opt_functionality := Some "pairedItem";
       opt_messageTemplate := Some "Can’t get data for expression under ‘%%PARAMETER%%’ field";
       opt_nodeCause := None; opt_type := Some "paired_item_intermediate_nodes" |}
    (Some {| over_message := Some "Can’t get data"; over_description := Some description |}) false.

Definition missingSourceError (functionality : option string) : jserror :=
  createExpressionError that "Can’t get data for expression"
    {| opt_causeDetailed := Some "Missing sourceData (probably an internal error)";
       opt_description := Some "Apologies, this is an internal error. See details for more information";
       opt_descriptionKey := None; opt_functionality := functionality;
       opt_messageTemplate := Some "Can’t get data for expression under ‘%%PARAMETER%%’ field";
       opt_nodeCause := None; opt_type := None |}
    (Some {| over_message := Some "Can’t get data"; over_description := None |}) false.

(** [source.main[pairedItem.input || 0] ?? source.main[0]] *)
Definition sourceOfPair (main : list (slot ISourceData)) (paired : pairedItem) : option ISourceData :=
  let input := match paired with PairedOne p => default 0 (paired_input p) | _ => 0 end in
  match arr_get input main with
  | Val source => Some source
  | _ => match arr_get 0 main with Val source => Some source | _ => None end
  end.

(** The item of the node for an item of the input, traced through the pairs *)
Definition tracedItem (nodeName property : string) (itemIndex : nat) : res dataValue :=
  match dp_connectionInputData that !! itemIndex with
  | None => Throw (intermediateNodesError nodeName)
  | Some input =>
      match item_pairedItem input with
      | None => Throw (createMissingPairedItemError that (dp_activeNodeName that) property)
      | Some paired =>
          match dp_executeData that ≫= exec_source with
          | None => Throw (missingSourceError (Some "pairedItem"))
          | Some source =>
              main ← deref (obj_get NodeConnectionTypes.Main source);
              found ← resolvePairedItem that objectAt depth nodeName (sourceOfPair main paired) paired property;
              returnItem that found resolveFullItem
          end
      end
  end.

(** Without input there is nothing to trace: the item of the node itself *)
Definition pairedItemMethod (nodeName property : string) (requested : option nat) : res dataValue :=
  match requested, bool_decide (property = "itemMatching") with
  | None, true => Throw (createExpressionError that "Missing item index for .itemMatching()" noOptions None false)
  | _, _ =>
      let itemIndex := default (dp_itemIndex that) requested in
      if bool_decide (dp_connectionInputData that = []) then
        match pinnedData that nodeName with
        | Some pinned => returnItem that ((pinned : list INodeExecutionData) !! itemIndex) resolveFullItem
        | None =>
            data ← getNodeExecutionOrPinnedData that nodeName None None false;
            nodeRunData ← itemsOfSlot data;
            if bool_decide (nodeRunData = []) then tracedItem nodeName property itemIndex
            else match nodeRunData !! itemIndex with
                 | None => Throw (createExpressionError that (String "034" (nodeName +:+ String "034" (" node has " +:+
                     pretty (length nodeRunData) +:+ " item(s) but expression references item " +:+ pretty itemIndex)))
                     noOptions None false)
                 | Some item => returnItem that (Some item) resolveFullItem
                 end
        end
      else tracedItem nodeName property itemIndex
  end.

Definition itemProperty (nodeName property : string) (requested : option nat) : res dataValue :=
  _ ← ensureConnected nodeName;
  _ ← ensureNodeExecutionData nodeName;
  pairedItemMethod nodeName property requested.

(** The items that [first], [last] and [all] read: of the output the node is connected to by default *)
Definition itemsFor (nodeName : string) (branchIndex : option nat) (runIndex : option Z)
    : res (slot (list INodeExecutionData)) :=
  _ ← ensureNodeExecutionData nodeName;
  branchIndex ← match branchIndex with
    | Some branchIndex => Ok branchIndex
    | None =>
        connection ← getNodeConnectionIndexes (dp_workflow that) (dp_activeNodeName that) nodeName NodeConnectionTypes.Main;
        Ok (from_option nc_sourceIndex 0 connection)
    end;
  getNodeExecutionOrPinnedData that nodeName (Some branchIndex) runIndex false.

Definition returnOneOf (item : option INodeExecutionData) : res dataValue :=
  match item with Some item => returnItem that (Some item) resolveFullItem | None => Ok DUndefined end.

Definition readProperty (nodeName : string) (property : nodeProperty) : res dataValue :=
  match property with
  | IsExecuted => Ok (DBool (hasRun that nodeName))
  | PairedItem itemIndex => itemProperty nodeName "pairedItem" itemIndex
  | ItemMatching itemIndex => itemProperty nodeName "itemMatching" itemIndex
  | Item => itemProperty nodeName "item" None
  | First branchIndex runIndex =>
      data ← itemsFor nodeName branchIndex runIndex; items ← itemsOfSlot data; returnOneOf (head items)
  | Last branchIndex runIndex =>
      data ← itemsFor nodeName branchIndex runIndex; items ← itemsOfSlot data; returnOneOf (last items)
  | All branchIndex runIndex =>
      data ← itemsFor nodeName branchIndex runIndex; returnItems that data resolveFullItem
  end.

(** The node that [$()] names: by default the previous one *)
Definition referencedName (nodeName : option string) : res string :=
  match orString nodeName None with
  | Some nodeName => Ok nodeName
  | None =>
      name ← prevNodeName that;
      match orString name None with
      | Some name => Ok name
      | None => Throw (createExpressionError that "When calling $(), please specify a node" noOptions None false)
      end
  end.

Definition dollar (nodeName : option string) (property : nodeProperty) : res dataValue :=
  nodeName ← referencedName nodeName;
  match getNode (dp_workflow that) nodeName with
  | None => Throw (createExpressionError that "Referenced node doesn't exist" (nodeNotFoundOptions nodeName) None false)
  | Some _ => readProperty nodeName property
  end.
End node.

(** ** [$input], [$json], [$node] and [$items] *)

(** The property of [$input] that is read; [first] and [last] with the number of
    arguments they are called with *)
Inductive inputProperty :=
  | InputItem
  | InputFirst (arguments : nat)
  | InputLast (arguments : nat)
  | InputAll.

Section input.
Context (that : WorkflowDataProxy).

Definition noArguments (arguments : nat) (name : string) : res unit :=
  if bool_decide (arguments = 0) then Ok tt
  else Throw (createExpressionError that ("$input." +:+ name +:+ "() should have no arguments") noOptions None false).

Definition dollarInput (property : inputProperty) : res dataValue :=
  let items := dp_connectionInputData that in
  if bool_decide (items = []) then
    Throw (createExpressionError that "No execution data available"
      {| opt_causeDetailed := None; opt_description := None; opt_descriptionKey := None; opt_functionality := None;
         opt_messageTemplate := None; opt_nodeCause := None; opt_type := Some "no_execution_data" |} None false)
  else
  match property with
  | InputItem => returnItem that (items !! dp_itemIndex that) false
  | InputFirst arguments => _ ← noArguments arguments "first"; returnOneOf that false (head items)
  | InputLast arguments => _ ← noArguments arguments "last"; returnOneOf that false (last items)
  | InputAll => returnItems that (Val items) false
  end.

Definition invalidIndexError (nodeName : string) (items : nat) : jserror :=
  ExpressionError (String "034" (nodeName +:+ String "034" (" node has " +:+ pretty items +:+
      " item(s) but you're trying to access item " +:+ pretty (dp_itemIndex that))))
    {| opt_causeDetailed := None; opt_description := None; opt_descriptionKey := Some "pairedItemInvalidIndex";
       opt_functionality := Some "pairedItem";
       opt_messageTemplate := Some "Adjust your expression to access an existing item index (0-{{maxIndex}})";
       opt_nodeCause := Some nodeName; opt_type := Some "no_execution_data" |}.

Definition unknownNodeError (nodeName : string) : jserror :=
  ExpressionError "Referenced node does not exist"
    {| opt_causeDetailed := None; opt_description := None;
       opt_descriptionKey := forCode that nodeName "pairedItemNoConnection"; opt_functionality := Some "pairedItem";
       opt_messageTemplate := Some "Make sure to double-check the node name for typos";
       opt_nodeCause := Some nodeName; opt_type := Some "paired_item_no_connection" |}.

(** [nodeDataGetter(...).json]: the data of the item with the current index *)
Definition nodeDataJson (nodeName : string) (shortSyntax throwOnMissingExecutionData : bool) : res dataValue :=
  match getNode (dp_workflow that) nodeName with
  | None => Throw (unknownNodeError nodeName)
  | Some _ =>
      data ← getNodeExecutionOrPinnedData that nodeName None None shortSyntax;
      executionData ← itemsOfSlot data;
      if bool_decide (executionData = []) then
        if throwOnMissingExecutionData then Throw (notExecutedError that nodeName ExpressionError) else Ok DUndefined
      else match executionData !! dp_itemIndex that with
           | None => Throw (invalidIndexError nodeName (length executionData))
           | Some item => Ok (DJson (item_json item))
           end
  end.

(** [nodeDataGetter(...).runIndex] *)
Definition nodeRunIndex (nodeName : string) : res dataValue :=
  match getNode (dp_workflow that) nodeName with
  | None => Throw (unknownNodeError nodeName)
  | Some _ =>
      Ok (DIndex (match dp_runData that ≫= obj_get nodeName with
                  | Some runs => Z.of_nat (length (runs : list ITaskData)) - 1
                  | None => -1
                  end)%Z)
  end.

Definition dollarJson (throwOnMissingExecutionData : bool) : res dataValue :=
  nodeDataJson (dp_contextNodeName that) true throwOnMissingExecutionData.

Definition dollarNodeJson (nodeName : string) : res dataValue :=
  match getNode (dp_workflow that) nodeName with
  | None => Throw (ExpressionError "Referenced node doesn't exist" (nodeNotFoundOptions nodeName))
  | Some _ => nodeDataJson nodeName false true
  end.

Definition dollarItems (nodeName : option string) (outputIndex : option nat) (runIndex : option Z)
    : res (slot (list INodeExecutionData)) :=
  match nodeName with
  | None =>
      name ← prevNodeName that;
      node ← deref (name ≫= getNode (dp_workflow that));
      let items := dp_connectionInputData that in
      Ok (Val (if bool_decide (node_executeOnce node = Some true) then take 1 items else items))
  | Some nodeName =>
      getNodeExecutionData that nodeName false (Some (default 0 outputIndex)) (Some (default (-1)%Z runIndex))
  end.
End input.
