(* ===== verification/PairedItems.v ===== *)
(** * Paired items

    What [getPairedItem] finds.  [descends] says which items of a node an item comes
    from, along the pairs that the nodes gave to their items and the sources of their
    runs.  The search answers only with such an item, finds it if there is one only,
    and needs no more stack than the longest way back. *)

From S2P Require Import Prelude JsCollections NodeTypes DirectedGraph Fixtures Connections Workflow Waiting Items DataProxy.

Section paired.
Context (that : WorkflowDataProxy).

(** The item at an index of the output that a source names, with its run *)
Definition readItem (source : ISourceData) (index : nat)
    : option ((ITaskData + list INodeExecutionData) * INodeExecutionData) :=
  taskData ← getTaskData that source;
  match taskOutput taskData (default 0 (previousNodeOutput source)) with
  | Val items => item ← items !! index; Some (taskData, item)
  | _ => None
  end.

(** One step back: from an item of [source] to an item of another one *)
Definition leadsTo (source : ISourceData) (index : nat) (next : IPairedItemData) (from : option ISourceData) : Prop :=
  ∃ taskData item, readItem source index = Some (taskData, item) ∧
    next ∈ normalizePairedItem (item_pairedItem item) ∧ nextSource (taskSources taskData) next = Some from.

Inductive descends (dest : string) : option ISourceData → IPairedItemData → itemLocation → INodeExecutionData → Prop :=
  | descends_here incoming p source taskData item :
      normalizeInputs p incoming = Some source → previousNode source = dest →
      readItem source (paired_item p) = Some (taskData, item) →
      descends dest incoming p (locationIn taskData source (paired_item p)) item
  | descends_back incoming p source next from loc item :
      normalizeInputs p incoming = Some source → previousNode source ≠ dest →
      leadsTo source (paired_item p) next from → descends dest from next loc item →
      descends dest incoming p loc item.

Context (objectAt : itemLocation → nat) (dest usedMethodName : string).

Definition lookupFrom (depth : nat) (nodeName : string) (sources : list (slot ISourceData)) (next : IPairedItemData)
    : option ((itemLocation * INodeExecutionData) + jserror) :=
  source ← nextSource sources next;
  Some (getPairedItem that objectAt depth dest source next usedMethodName (Some nodeName)).

Definition failedResult {A} (r : A + jserror) : bool := match r with inl _ => false | inr _ => true end.

(** The part behind the recursive calls *)
Definition combineResults (nodeName : string) (index : nat) (before : option string) (sources : list (slot ISourceData))
    (results : list ((itemLocation * INodeExecutionData) + jserror)) : (itemLocation * INodeExecutionData) + jserror :=
  if forallb failedResult results then inr (firstError results) else
  match okResults results with
  | [] => if bool_decide (length sources = 0) then inr (createNoConnectionError that dest)
          else inr (createBranchNotFoundError that nodeName index before)
  | first :: rest =>
      if existsb (λ r, negb (sameObject objectAt r first)) rest
      then inr (createPairedItemMultipleItemsFound that dest index) else inl first
  end.

(** [input] of the pair is not read by the call itself. *)
Lemma getPairedItem_input depth source next input before :
  getPairedItem that objectAt depth dest source
    {| paired_item := paired_item next; paired_input := input; paired_sourceOverwrite := paired_sourceOverwrite next |}
    usedMethodName before = getPairedItem that objectAt depth dest source next usedMethodName before.
Proof. by destruct depth. Qed.

Lemma getNodeOutput_read source before :
  match getNodeOutput that (getTaskData that source) source before with
  | Ok items => ∃ taskData, getTaskData that source = Some taskData ∧
      ∀ index, readItem source index = (item ← items !! index; Some (taskData, item))
  | Throw _ => ∀ index, readItem source index = None
  | OutOfFuel => False
  end.
Proof.
  unfold getNodeOutput, readItem. destruct (getTaskData that source) as [taskData|]; simpl; [|done].
  destruct (taskOutput taskData _); simpl; try done. by exists taskData.
Qed.

(** One call, case by case *)
Lemma getPairedItem_unfold depth incoming p source before :
  normalizeInputs p incoming = Some source →
  match readItem source (paired_item p) with
  | None => ∃ e, getPairedItem that objectAt (S depth) dest incoming p usedMethodName before = inr e ∧
      ∀ depth', getPairedItem that objectAt (S depth') dest incoming p usedMethodName before = inr e
  | Some (taskData, item) =>
      getPairedItem that objectAt (S depth) dest incoming p usedMethodName before =
      if bool_decide (previousNode source = dest) then inl (locationIn taskData source (paired_item p), item) else
      let pairs := normalizePairedItem (item_pairedItem item) in
      if bool_decide (pairs = []) then inr (createMissingPairedItemError that (previousNode source) usedMethodName)
      else combineResults (previousNode source) (paired_item p) before (taskSources taskData)
             (omap (lookupFrom depth (previousNode source) (taskSources taskData)) pairs)
  end.
Proof.
  intros Hsource. pose proof (getNodeOutput_read source before) as Hread. cbn [getPairedItem]. rewrite Hsource.
  destruct (getNodeOutput that (getTaskData that source) source before) as [items|e|]; [|..|done].
  - destruct Hread as (taskData & Htask & Hread). rewrite Htask, Hread.
    destruct (items !! paired_item p) as [item|]; simpl; [|case_bools; by eexists].
    match goal with |- context [omap ?f _] =>
      assert (∀ l, omap f l = omap (lookupFrom depth (previousNode source) (taskSources taskData)) l) as ->; [|done] end.
    intros l. induction l as [|next l IH]; [done|]. csimpl. rewrite IH. unfold lookupFrom.
    destruct (nextSource _ next) as [from|]; simpl; [|done]. by rewrite getPairedItem_input.
  - rewrite Hread. exists e. by destruct (getTaskData that source).
Qed.

Lemma getPairedItem_noSource depth incoming p before :
  normalizeInputs p incoming = None →
  getPairedItem that objectAt (S depth) dest incoming p usedMethodName before =
    inr (createPairedItemNotFound that dest before).
Proof. intros Hs. cbn [getPairedItem]. by rewrite Hs. Qed.

Lemma elem_of_okResults {A} (results : list (A + jserror)) a : a ∈ okResults results ↔ inl a ∈ results.
Proof.
  unfold okResults. rewrite list_elem_of_omap. split.
  - intros ([b|e] & Hin & Heq); by simplify_eq.
  - intros Hin. by exists (inl a).
Qed.

Lemma combineResults_ok nodeName index before sources results found :
  combineResults nodeName index before sources results = inl found → inl found ∈ results.
Proof.
  unfold combineResults. destruct (forallb _ _); [done|].
  destruct (okResults results) as [|first rest] eqn:E; [by case_match|]. case_match; [done|]. intros [= <-].
  apply elem_of_okResults. rewrite E. by left.
Qed.

Lemma combineResults_unique nodeName index before sources results found :
  inl found ∈ results → (∀ a b, inl a ∈ results → inl b ∈ results → objectAt a.1 = objectAt b.1) →
  ∃ first, combineResults nodeName index before sources results = inl first.
Proof.
  intros Hin Huniq. unfold combineResults.
  assert (forallb failedResult results = false) as ->.
  { apply not_true_is_false. rewrite forallb_forall. intros Hall.
    apply list_elem_of_In in Hin. by apply Hall in Hin. }
  destruct (okResults results) as [|first rest] eqn:E.
  { apply elem_of_okResults in Hin. rewrite E in Hin. by apply elem_of_nil in Hin. }
  assert (∀ a, a ∈ first :: rest → inl a ∈ results) as Hok by (intros a; rewrite <- E; apply elem_of_okResults).
  assert (existsb (λ r, negb (sameObject objectAt r first)) rest = false) as ->; [|by eexists].
  apply not_true_is_false. rewrite existsb_exists. intros (r & Hr & Hne). apply list_elem_of_In in Hr.
  unfold sameObject in Hne. rewrite bool_decide_true in Hne; [done|]. apply Huniq; apply Hok; [by right|by left].
Qed.

(** The results that count come from steps back. *)
Lemma elem_of_lookups depth source index taskData item r :
  readItem source index = Some (taskData, item) →
  r ∈ omap (lookupFrom depth (previousNode source) (taskSources taskData)) (normalizePairedItem (item_pairedItem item)) ↔
  ∃ next from, leadsTo source index next from ∧
    r = getPairedItem that objectAt depth dest from next usedMethodName (Some (previousNode source)).
Proof.
  intros Hread. rewrite list_elem_of_omap. unfold lookupFrom, leadsTo. split.
  - intros (next & Hin & Heq). destruct (nextSource _ next) as [from|] eqn:E; simplify_eq/=. naive_solver.
  - intros (next & from & (taskData' & item' & Hread' & Hin & Hnext) & ->).
    rewrite Hread in Hread'. simplify_eq. exists next. by rewrite Hnext.
Qed.

Lemma getPairedItem_sound depth incoming p before loc item :
  getPairedItem that objectAt depth dest incoming p usedMethodName before = inl (loc, item) →
  descends dest incoming p loc item.
Proof.
  revert incoming p before. induction depth as [|depth IH]; intros incoming p before; [done|].
  destruct (normalizeInputs p incoming) as [source|] eqn:Hsource; [|by rewrite getPairedItem_noSource].
  pose proof (getPairedItem_unfold depth incoming p source before Hsource) as Hunfold.
  destruct (readItem source (paired_item p)) as [[taskData item']|] eqn:Hread.
  - rewrite Hunfold. case_bools; [intros [= <- <-]; by eapply descends_here|]. cbv zeta.
    case_bools; [done|]. intros Hin%combineResults_ok.
    eapply elem_of_lookups in Hin as (next & from & Hleads & Heq); [|done].
    eapply descends_back; [done..|]. by eapply IH.
  - destruct Hunfold as (e & -> & _). done.
Qed.

(** The runs that a source leads back to are earlier ones. *)
Definition goesBack (rank : ISourceData → nat) : Prop :=
  ∀ source index next from, leadsTo source index next (Some from) → rank from < rank source.

Lemma leadsTo_source rank source index next from source' :
  goesBack rank → leadsTo source index next from → normalizeInputs next from = Some source' → rank source' < rank source.
Proof.
  intros Hback Hleads Hs. assert (from = Some source') as ->; [|by eapply Hback].
  destruct Hleads as (taskData & item & _ & _ & Hnext). unfold nextSource in Hnext. unfold normalizeInputs in Hs.
  case_bools; [done|]. by destruct (paired_sourceOverwrite next); simplify_eq.
Qed.

Lemma getPairedItem_complete rank depth incoming p before source loc item :
  goesBack rank → normalizeInputs p incoming = Some source → rank source < depth →
  descends dest incoming p loc item →
  (∀ loc1 item1 loc2 item2, descends dest incoming p loc1 item1 → descends dest incoming p loc2 item2 →
     objectAt loc1 = objectAt loc2) →
  ∃ found, getPairedItem that objectAt depth dest incoming p usedMethodName before = inl found.
Proof.
  intros Hback. revert incoming p before source loc item.
  induction depth as [|depth IH]; intros incoming p before source loc item Hs Hdepth Hdesc Huniq; [lia|].
  pose proof (getPairedItem_unfold depth incoming p source before Hs) as Hunfold.
  inversion Hdesc as [? ? source' taskData item' Hs' Hdest Hread|? ? source' next from ? ? Hs' Hdest Hleads Hrest];
    subst; rewrite Hs' in Hs; injection Hs as ->.
  { rewrite Hread, bool_decide_true in Hunfold by done. by eexists. }
  pose proof Hleads as (taskData & item' & Hread & Hin & _). rewrite Hread, bool_decide_false in Hunfold by done.
  cbv zeta in Hunfold. rewrite bool_decide_false in Hunfold by (intros Hnil; rewrite Hnil in Hin; by apply elem_of_nil in Hin).
  destruct (normalizeInputs next from) as [source'|] eqn:Hnext; [|inversion Hrest; congruence].
  destruct (IH from next (Some (previousNode source)) source' loc item) as [found Hfound]; try done.
  { eapply Nat.lt_le_trans; [by eapply leadsTo_source|lia]. }
  { intros. eapply Huniq; by eapply descends_back. }
  edestruct combineResults_unique as [first Hfirst]; [| |exists first; rewrite Hunfold; exact Hfirst].
  - eapply elem_of_lookups; [done|]. exists next, from. by rewrite Hfound.
  - intros [loca itema] [locb itemb] Ha Hb.
    eapply elem_of_lookups in Ha as (nexta & froma & Hla & Hra), Hb as (nextb & fromb & Hlb & Hrb); [|done..].
    apply (Huniq loca itema locb itemb);
      [apply (descends_back _ _ _ source nexta froma)|apply (descends_back _ _ _ source nextb fromb)]; try done;
      by eapply getPairedItem_sound.
Qed.

(** More stack changes nothing. *)
Lemma getPairedItem_stable rank depth depth' incoming p before source :
  goesBack rank → normalizeInputs p incoming = Some source → S (rank source) < depth → S (rank source) < depth' →
  getPairedItem that objectAt depth dest incoming p usedMethodName before =
  getPairedItem that objectAt depth' dest incoming p usedMethodName before.
Proof.
  intros Hback. revert depth' incoming p before source.
  induction depth as [|depth IH]; intros [|depth'] incoming p before source Hs Hd Hd'; try lia.
  pose proof (getPairedItem_unfold depth incoming p source before Hs) as H1.
  pose proof (getPairedItem_unfold depth' incoming p source before Hs) as H2.
  destruct (readItem source (paired_item p)) as [[taskData item]|] eqn:Hread.
  2:{ destruct H1 as (e & -> & He). by rewrite He. }
  rewrite H1, H2. case_bools; [done|]. cbv zeta. case_bools; [done|]. f_equal.
  assert (∀ l : list IPairedItemData, (∀ next, next ∈ l → next ∈ normalizePairedItem (item_pairedItem item)) →
    omap (lookupFrom depth (previousNode source) (taskSources taskData)) l =
    omap (lookupFrom depth' (previousNode source) (taskSources taskData)) l) as Hext; [|by apply Hext].
  intros l. induction l as [|next l IHl]; intros Hl; [done|]. csimpl. rewrite IHl by set_solver.
  assert (lookupFrom depth (previousNode source) (taskSources taskData) next =
    lookupFrom depth' (previousNode source) (taskSources taskData) next) as ->; [|done].
  unfold lookupFrom. destruct (nextSource (taskSources taskData) next) as [from|] eqn:Hnext; simpl; [|done].
  f_equal. destruct (normalizeInputs next from) as [source'|] eqn:Hs'.
  - assert (rank source' < rank source).
    { eapply leadsTo_source; [done| |done]. exists taskData, item. split_and!; [done|apply Hl; by left|done]. }
    eapply IH; [done|lia..].
  - destruct depth as [|depth], depth' as [|depth']; try lia. by rewrite !getPairedItem_noSource.
Qed.
End paired.

(** ** Runs in the order of their execution *)

Section order.
Context (that : WorkflowDataProxy).

Definition taskAt (source : ISourceData) : option ITaskData :=
  runData ← dp_runData that; tasks ← obj_get (previousNode source) runData;
  (tasks : list ITaskData) !! default 0 (previousNodeRun source).

(** The place of a run in the order; a source without a run comes before all *)
Definition rankOfTask (task : ITaskData) : nat := S (Z.to_nat (default 0%Z (task_executionIndex task))).

Definition rankIn (source : ISourceData) : nat := from_option rankOfTask 0 (taskAt source).

(** The sources that a run names, and those that its items name instead *)
Definition itemsOfTask (task : ITaskData) : list INodeExecutionData :=
  mjoin (slotItems <$> default [] (task_data task ≫= obj_get NodeConnectionTypes.Main)).

Definition sourcesRead (task : ITaskData) : list ISourceData :=
  omap (λ s, match s with Val source => Some source | _ => None end) (task_source task) ++
  omap paired_sourceOverwrite (mjoin ((λ item, normalizePairedItem (item_pairedItem item)) <$> itemsOfTask task)).

(** Every run comes after the ones it names. *)
Definition sourcesEarlier : bool :=
  forallb (λ kv : string * list ITaskData, forallb (λ task,
    forallb (λ from, bool_decide (rankIn from < rankOfTask task)) (sourcesRead task)) kv.2) (default [] (dp_runData that)).

Lemma sourcesEarlier_rank source task from :
  sourcesEarlier = true → taskAt source = Some task → from ∈ sourcesRead task → rankIn from < rankIn source.
Proof.
  intros Hall Ht Hfrom. unfold rankIn at 2. rewrite Ht. simpl. unfold taskAt in Ht. unfold sourcesEarlier in Hall.
  destruct (dp_runData that) as [runData|]; [|done]. cbn [mbind option_bind] in Ht.
  destruct (obj_get (previousNode source) runData) as [tasks|] eqn:Hget; [|done]. cbn [mbind option_bind] in Ht.
  rewrite forallb_forall in Hall. specialize (Hall (previousNode source, tasks)). rewrite forallb_forall in Hall.
  apply map_get_elem_of, list_elem_of_In in Hget. specialize (Hall Hget task).
  rewrite forallb_forall in Hall. apply list_elem_of_lookup_2, list_elem_of_In in Ht. specialize (Hall Ht from).
  apply list_elem_of_In in Hfrom. by apply Hall, bool_decide_eq_true in Hfrom.
Qed.

Lemma sourcesEarlier_goesBack : sourcesEarlier = true → goesBack that rankIn.
Proof.
  intros Hearlier source index next from (taskData & item & Hread & Hin & Hnext). unfold readItem in Hread.
  unfold getTaskData in Hread. fold (taskAt source) in Hread.
  destruct (taskAt source) as [task|] eqn:Ht.
  - cbn [mbind option_bind] in Hread. apply (sourcesEarlier_rank source task from Hearlier Ht). unfold sourcesRead.
    destruct (taskOutput (inl task) _) as [| |items] eqn:Ho; try done.
    destruct (items !! index) as [item'|] eqn:Hi; [|done]. injection Hread as <- <-.
    unfold nextSource in Hnext. cbn [taskSources] in Hnext. case_bools; [done|].
    apply elem_of_app. destruct (paired_sourceOverwrite next) as [o|] eqn:Hover.
    + injection Hnext as ->. right. apply list_elem_of_omap. exists next. split; [|done].
      apply list_elem_of_join. eexists. split; [exact Hin|]. apply list_elem_of_fmap. exists item'. split; [done|].
      unfold itemsOfTask. apply list_elem_of_join. exists items. split; [by eapply list_elem_of_lookup_2|].
      apply list_elem_of_fmap. exists (Val items). split; [done|]. unfold taskOutput in Ho.
      destruct (task_data task ≫= _) as [outputs|]; [|done]. simpl. unfold arr_get in Ho.
      destruct (outputs !! _) eqn:Eo; [|done]. simpl in Ho. subst. by eapply list_elem_of_lookup_2.
    + left. apply list_elem_of_omap. unfold arr_get in Hnext.
      destruct (task_source task !! _) as [[| |s]|] eqn:Eo; simplify_eq/=. exists (Val from).
      split; [by eapply list_elem_of_lookup_2|done].
  - destruct (pinnedData that (previousNode source)) as [items|]; [|done]. simpl in Hread.
    destruct (arr_get _ _) as [| |l]; try done. destruct (l !! index) as [item'|]; [|done].
    injection Hread as <- <-. by unfold nextSource in Hnext.
Qed.
End order.

(** C8: if the runs were executed after the ones their items come from, [getPairedItem]
    does not exceed a call stack with room for three calls more than there are runs before
    the first one: more room gives the same result.  The item that it returns is one of the referenced
    node that the item descends from; and if the items of that node that the item
    descends from are all the same object, it returns one. *)
Theorem getPairedItem_traces (that : WorkflowDataProxy) (objectAt : itemLocation → nat) (dest usedMethodName : string)
    (incoming : option ISourceData) (p : IPairedItemData) (source : ISourceData)
    (before : option string) (depth : nat) :
  sourcesEarlier that = true → normalizeInputs p incoming = Some source → S (rankIn that source) < depth →
  let search depth := getPairedItem that objectAt depth dest incoming p usedMethodName before in
  (∀ depth', depth ≤ depth' → search depth' = search depth) ∧
  (∀ loc item, search depth = inl (loc, item) → descends that dest incoming p loc item) ∧
  ((∃ loc item, descends that dest incoming p loc item) →
   (∀ loc1 item1 loc2 item2, descends that dest incoming p loc1 item1 → descends that dest incoming p loc2 item2 →
      objectAt loc1 = objectAt loc2) →
   ∃ loc item, search depth = inl (loc, item)).
Proof.
  intros Hback%sourcesEarlier_goesBack Hs Hdepth search. split_and!.
  - intros depth' Hle. eapply getPairedItem_stable; [done..|lia|done].
  - intros loc item. apply getPairedItem_sound.
  - intros (loc & item & Hdesc) Huniq.
    destruct (getPairedItem_complete that objectAt dest usedMethodName (rankIn that) depth incoming p before source
      loc item) as [[loc' item'] Hfound]; [done..|lia|done|done|]. by exists loc', item'.
Qed.

(** ** A merge of two branches *)

Definition fromNode (name : string) : ISourceData :=
  {| previousNode := name; previousNodeOutput := None; previousNodeRun := None |}.

Definition pairTo (input item : nat) : IPairedItemData :=
  {| paired_item := item; paired_input := Some input; paired_sourceOverwrite := None |}.

Definition pairedTo (pairs : list IPairedItemData) (item : INodeExecutionData) : INodeExecutionData :=
  set_pairedItem (PairedMany pairs) item.

Definition runFrom (index : Z) (sources : list string) (items : list INodeExecutionData) : ITaskData :=
  {| task_startTime := 0; task_executionIndex := Some index; task_source := (λ s, Val (fromNode s)) <$> sources;
     task_executionTime := 0; task_executionStatus := Some "success";
     task_data := Some [("main", [Val items])]; task_inputOverride := None; task_error := None;
     task_metadata := None; task_rest := [] |}.

(** [Start] feeds [Left] and [Right]; [Merge] joins them. *)
Definition mergeRun (merged : list IPairedItemData) : IRunData :=
  [("Start", [runFrom 0 [] [itemOf "s0"; itemOf "s1"]]);
   ("Left", [runFrom 1 ["Start"] [pairedTo [pairTo 0 1] (itemOf "l")]]);
   ("Right", [runFrom 2 ["Start"] [pairedTo [pairTo 0 1] (itemOf "r"); pairedTo [pairTo 0 0; pairTo 0 1] (itemOf "q")]]);
   ("Merge", [runFrom 3 ["Left"; "Right"] [pairedTo merged (itemOf "m")]])].

Definition readerOf (runData : IRunData) : WorkflowDataProxy :=
  {| dp_workflow := emptyWorkflow "w"; dp_runData := Some runData; dp_itemIndex := 0; dp_activeNodeName := "Set";
     dp_connectionInputData := []; dp_mode := "trigger"; dp_executeData := None;
     dp_defaultReturnRunIndex := -1; dp_contextNodeName := "Set" |}.

(** Objects are told apart by their index. *)
Definition objectByIndex (loc : itemLocation) : nat :=
  match loc with InRun _ _ _ index | InPinData _ index => index end.

Definition traceMerged (merged : list IPairedItemData) : (itemLocation * INodeExecutionData) + jserror :=
  getPairedItem (readerOf (mergeRun merged)) objectByIndex 5 "Start" (Some (fromNode "Merge")) (pairTo 0 0) "item" None.

(** Both branches lead to the same item. *)
Example trace_merged : traceMerged [pairTo 0 0; pairTo 1 0] = inl (InRun "Start" 0 0 1, itemOf "s1").
Proof. reflexivity. Qed.

Example merged_in_order : sourcesEarlier (readerOf (mergeRun [pairTo 0 0; pairTo 1 0])) = true.
Proof. reflexivity. Qed.

Lemma getPairedItem_traces_witness :
  sourcesEarlier (readerOf (mergeRun [pairTo 0 0; pairTo 1 0])) = true ∧
  descends (readerOf (mergeRun [pairTo 0 0; pairTo 1 0])) "Start" (Some (fromNode "Merge")) (pairTo 0 0)
    (InRun "Start" 0 0 1) (itemOf "s1").
Proof.
  destruct (getPairedItem_traces (readerOf (mergeRun [pairTo 0 0; pairTo 1 0])) objectByIndex "Start" "item"
    (Some (fromNode "Merge")) (pairTo 0 0) (fromNode "Merge") None 7 eq_refl eq_refl) as (_ & H & _).
  - vm_compute. lia.
  - split; [reflexivity|]. apply H. reflexivity.
Defined.

(** ** What the search answers when a branch fails *)

(** A pair that names an input the run does not have is dropped; when no pair is left,
    the error of the first result is read although there is none. *)
Theorem missing_branch_type_error :
  traceMerged [pairTo 7 0] = inr TypeError.
Proof. reflexivity. Qed.

(** An item that is out of range on the way back is a [TypeError] too. *)
Theorem missing_item_type_error :
  traceMerged [pairTo 0 3] = inr TypeError.
Proof. reflexivity. Qed.

(** An ambiguous item is an error, *)
Example ambiguous_branch :
  traceMerged [pairTo 1 1] =
    inr (createPairedItemMultipleItemsFound (readerOf (mergeRun [pairTo 1 1])) "Start" 1).
Proof. reflexivity. Qed.

(** but not if another pair leads to a single item: the item descends from two items of
    [Start], and one of them is the answer. *)
Theorem ambiguous_branch_ignored :
  let that := readerOf (mergeRun [pairTo 0 0; pairTo 1 1]) in
  traceMerged [pairTo 0 0; pairTo 1 1] = inl (InRun "Start" 0 0 1, itemOf "s1") ∧
  descends that "Start" (Some (fromNode "Merge")) (pairTo 0 0) (InRun "Start" 0 0 0) (itemOf "s0").
Proof.
  intros that. split; [reflexivity|].
  eapply (descends_back that "Start" _ _ (fromNode "Merge") (pairTo 1 1) (Some (fromNode "Right"))); [done|done|..].
  { eexists _, _. split; [reflexivity|]. split; [right; left|reflexivity]. }
  eapply (descends_back that "Start" _ _ (fromNode "Right") (pairTo 0 0) (Some (fromNode "Start"))); [done|done|..].
  { eexists _, _. split; [reflexivity|]. split; [left|reflexivity]. }
  change (InRun "Start" 0 0 0) with
    (locationIn (inl (runFrom 0 [] [itemOf "s0"; itemOf "s1"])) (fromNode "Start") (paired_item (pairTo 0 0))).
  by eapply descends_here.
Qed.

(** The two errors for a missing branch are never thrown: if no result is ok, then every
    result has failed. *)
Theorem branch_errors_unreachable (that : WorkflowDataProxy) (objectAt : itemLocation → nat)
    (dest nodeName : string) (index : nat) (before : option string) (sources : list (slot ISourceData))
    (results : list ((itemLocation * INodeExecutionData) + jserror)) :
  combineResults that objectAt dest nodeName index before sources results =
  if forallb failedResult results then inr (firstError results)
  else match okResults results with
       | [] => inr TypeError
       | first :: rest =>
           if existsb (λ r, negb (sameObject objectAt r first)) rest
           then inr (createPairedItemMultipleItemsFound that dest index) else inl first
       end.
Proof.
  unfold combineResults. destruct (forallb failedResult results) eqn:Hall; [done|].
  destruct (okResults results) as [|first rest] eqn:E; [|done]. exfalso. apply not_true_iff_false in Hall.
  apply Hall, forallb_forall. intros [a|e] Hin; [|done]. apply list_elem_of_In, elem_of_okResults in Hin.
  rewrite E in Hin. by apply elem_of_nil in Hin.
Qed.

(** ** The lookup of the engine *)

(** [dataProxy.$getPairedItem] in [handleNodeErrorOutput] *)
Definition pairedItemLookup (objectAt : itemLocation → nat) (depth : nat) (proxyFor : IRunData → WorkflowDataProxy)
    (runData : IRunData) (destinationNodeName : string) (source : ISourceData) (paired : IPairedItemData)
    : res (option INodeExecutionData) :=
  resolvePairedItem (proxyFor runData) objectAt depth destinationNodeName (Some source) (PairedOne paired)
    "$getPairedItem".

(** It always returns or throws, as the theorems on the engine assume. *)
Lemma returns_pairedItemLookup objectAt depth proxyFor runData name source paired :
  returns (pairedItemLookup objectAt depth proxyFor runData name source paired).
Proof. unfold pairedItemLookup, resolvePairedItem. by case_match. Qed.
#[export] Hint Resolve returns_pairedItemLookup : n8n.

(** A failed item gets the data of the item of its source that it is paired with. *)
Lemma errorItemFor_source objectAt depth proxyFor runData executionData item paired sources source taskData origin :
  exec_source executionData = Some sources → pairedItemData item = Some paired → paired_sourceOverwrite paired = None →
  obj_get NodeConnectionTypes.Main sources = Some source →
  arr_get (default 0 (paired_input paired)) source = Val taskData →
  (∃ task, readItem (proxyFor runData) taskData (paired_item paired) = Some (task, origin)) →
  errorItemFor (pairedItemLookup objectAt (S depth) proxyFor runData) executionData item =
    Ok (set_json (mergeObjects (item_json origin) (item_json item)) item).
Proof.
  intros Hs Hp Ho Hm Ha (task & Hread). unfold errorItemFor. rewrite Hs, Hp, Hm. cbn [deref mbind res_bind]. rewrite Ha.
  unfold pairedItemLookup, resolvePairedItem.
  assert (normalizeInputs paired (Some taskData) = Some taskData) as Hn by (unfold normalizeInputs; by rewrite Ho).
  pose proof (getPairedItem_unfold (proxyFor runData) objectAt (previousNode taskData) "$getPairedItem" depth
    (Some taskData) paired taskData None Hn) as Hunfold. rewrite Hread, bool_decide_true in Hunfold by done.
  by rewrite Hunfold.
Qed.

(** ** Errors of the other accesses *)

(** A workflow with a node with code that does not come before the active node *)
Definition codeReader (pinData : option IPinData) : WorkflowDataProxy :=
  {| dp_workflow := setPinData pinData (setNodes [mkNode 0 "Code" "n8n-nodes-base.code" None] (emptyWorkflow "w"));
     dp_runData := Some []; dp_itemIndex := 0; dp_activeNodeName := "Set"; dp_connectionInputData := [];
     dp_mode := "manual"; dp_executeData := None; dp_defaultReturnRunIndex := -1; dp_contextNodeName := "Set" |}.

(** The link is added to a description that the error does not have. *)
Theorem no_connection_description_undefined :
  match createNoConnectionError (codeReader None) "Code" with
  | ExpressionError _ options => opt_description options = Some ("undefined" +:+ moreInfoLinkText)
  | _ => False
  end.
Proof. reflexivity. Qed.

(** [$items('Code')] of a node that has pinned data but no run is a [TypeError]; [$node]
    falls back to the pinned data. *)
Theorem items_of_pinned_node_fail :
  let that := codeReader (Some [("Code", [itemOf "pinned"])]) in
  dollarItems that (Some "Code") None None = Throw TypeError ∧
  dollarNodeJson that "Code" = Ok (DJson (item_json (itemOf "pinned"))).
Proof. split; reflexivity. Qed.
