(* ===== verification/PairedRun.v ===== *)
(** * Paired items of an executed workflow

    The engine and the data access together: after a linear workflow has run, an
    expression of a later node that refers to an earlier one finds the item that its
    own item was made from. *)

From S2P Require Import Prelude JsCollections NodeTypes DirectedGraph Fixtures RunData.
From S2P Require Import ExecutionStack Connections Workflow WorkflowSearch Trigger Waiting Items Requests.
From S2P Require Import EngineState Lifecycle Engine EngineFixtures Termination EngineInvariants LinearRun.
From S2P Require Import DataProxy PairedItems.

(** The items that the only run of a node recorded *)
Definition outputOf (r : IRunData) (name : string) : list INodeExecutionData :=
  match runsOf r name with task :: _ => slotItems (taskOutput (inl task) 0) | [] => [] end.

(** The items that a node returns have no pairs yet, and the engine can pair them. *)
Definition pairableAnswers (answer : nat → NodeCall → list INodeExecutionData) : Prop :=
  ∀ n call, Forall (λ item, item_pairedItem item = None) (answer n call) ∧
    (call_connectionInputData call ≠ [] → pairable (call_connectionInputData call) [Val (answer n call)]).

(** The run of [node] took its items from [prev]. *)
Record tookFrom (r : IRunData) (prev node : string) (task : ITaskData) : Prop := {
  tf_run : runsOf r node = [task];
  tf_data : task_data task = Some [(NodeConnectionTypes.Main, [Val (outputOf r node)])];
  tf_source : task_source task = [Val (sourceData prev 0 0)];
  tf_pairs : ∀ k item, outputOf r node !! k = Some item →
    let j := if bool_decide (length (outputOf r prev) = 1) then 0 else k in
    j < length (outputOf r prev) ∧ item_pairedItem item = Some (pairWith j);
}.

Section chain.
Context (answer : nat → NodeCall → list INodeExecutionData) (Hpairs : pairableAnswers answer).

Lemma pairedAt_pairs n input items k item :
  Forall (λ item, item_pairedItem item = None) items → pairable input [Val items] → length input = n → 0 < n →
  imap (pairedAt n) items !! k = Some item →
  let j := if bool_decide (n = 1) then 0 else k in j < n ∧ item_pairedItem item = Some (pairWith j).
Proof using.
  intros Hnone Hp <- Hn. rewrite list_lookup_imap, fmap_Some. intros (x & Hx & ->).
  rewrite Forall_lookup in Hnone. unfold pairedAt. rewrite (Hnone k x Hx). split; [|done].
  apply lookup_lt_Some in Hx. destruct Hp as [Hp|(o & [= <-] & Hp)]; case_bools; lia.
Qed.

Lemma ranOn_output r i node sources input output :
  ranOn answer r i node sources input output → item_json <$> outputOf r (node_name node) = output.
Proof using.
  intros (task & call & out & Hrun & _ & _ & _ & Hdata & <- & _). unfold outputOf. rewrite Hrun. simpl. by rewrite Hdata.
Qed.

Lemma ranOn_tookFrom r i node prev input output :
  ranOn answer r i node [Val (sourceData prev 0 0)] input output →
  length input = length (outputOf r prev) → input ≠ [] → ∃ task, tookFrom r prev (node_name node) task.
Proof using Hpairs.
  intros (task & call & out & Hrun & Hsrc & _ & _ & Hdata & Hout & _ & Hin & Hc & Hp) Hlen Hne.
  assert (outputOf r (node_name node) = out) as Ho by (unfold outputOf; rewrite Hrun; simpl; by rewrite Hdata).
  exists task. split; [done|by rewrite Ho|done|]. rewrite Ho, <- Hlen, <- Hin, length_fmap.
  destruct (Hpairs i call) as [Hnone Hpair].
  assert (call_connectionInputData call ≠ []) as Hcall by (intros Hnil; apply Hne; by rewrite <- Hin, Hnil).
  destruct (Hp (Hpair Hcall)) as [_ ->]. intros k item. apply pairedAt_pairs with (call_connectionInputData call); auto.
  by destruct (call_connectionInputData call); simpl; [|lia].
Qed.

(** Every node but the first took its items from the one before it. *)
Lemma ranThrough_tookFrom r ns i sources input b prev node :
  (∀ n call, answer n call ≠ []) → ranThrough answer r i ns sources input →
  ns !! b = Some prev → ns !! S b = Some node → ∃ task, tookFrom r (node_name prev) (node_name node) task.
Proof using Hpairs.
  intros Hans. revert i sources input b. induction ns as [|n1 ns IH]; intros i sources input b Hran Hb Hsb; [done|].
  destruct Hran as (output & Hon & Hran). destruct b as [|b]; [|by eapply IH].
  simplify_eq/=. destruct ns as [|n2 ns]; simplify_eq/=. destruct Hran as (output' & Hon' & _).
  pose proof (ranOn_output _ _ _ _ _ _ Hon) as Hout. eapply ranOn_tookFrom; [done|by rewrite <- Hout, length_fmap|].
  destruct Hon as (task & call & out & _ & _ & _ & _ & _ & <- & _ & _ & Hc & _). intros Hnil%fmap_nil_inv. subst out.
  apply Forall2_nil_inv_r in Hc. by apply Hans in Hc.
Qed.

Lemma ranThrough_ran r ns i sources input node :
  ranThrough answer r i ns sources input → node ∈ ns →
  ∃ task, runsOf r (node_name node) = [task] ∧
    task_data task = Some [(NodeConnectionTypes.Main, [Val (outputOf r (node_name node))])].
Proof using.
  revert i sources input. induction ns as [|n1 ns IH]; intros i sources input Hran Hin; [by apply elem_of_nil in Hin|].
  destruct Hran as (output & Hon & Hran). apply elem_of_cons in Hin as [->|Hin]; [|by eapply IH].
  destruct Hon as (task & call & out & Hrun & _ & _ & _ & Hdata & _).
  exists task. split; [done|]. unfold outputOf. rewrite Hrun. simpl. by rewrite Hdata.
Qed.
End chain.

(** ** Tracing through the row *)

Section trace.
Context (that : WorkflowDataProxy) (objectAt : itemLocation → nat) (r : IRunData).
Hypothesis Hrun : dp_runData that = Some r.

Lemma readItem_run node task index item :
  runsOf r node = [task] → task_data task = Some [(NodeConnectionTypes.Main, [Val (outputOf r node)])] →
  outputOf r node !! index = Some item →
  readItem that (sourceData node 0 0) index = Some (inl task, item).
Proof using Hrun.
  intros Hr Hd Hi. unfold readItem, getTaskData. rewrite Hrun. simpl. unfold runsOf in Hr.
  destruct (obj_get node r) as [tasks|]; simpl in *; [subst|done]. simpl. rewrite Hd. simpl. by rewrite Hi.
Qed.

(** Some of these nodes recorded a single item. *)
Definition someSingle (ns : list INode) : bool :=
  existsb (λ n, bool_decide (length (outputOf r (node_name n)) = 1)) ns.

(** From the [b]-th node back to the [a]-th one *)
Lemma getPairedItem_row (ns : list INode) a d k depth dest node item method before :
  NoDup (node_name <$> ns) →
  (∀ b prev node, ns !! b = Some prev → ns !! S b = Some node → ∃ task, tookFrom r (node_name prev) (node_name node) task) →
  (∀ node, node ∈ ns → ∃ task, runsOf r (node_name node) = [task] ∧
    task_data task = Some [(NodeConnectionTypes.Main, [Val (outputOf r (node_name node))])]) →
  ns !! a = Some dest → ns !! (a + d) = Some node → outputOf r (node_name node) !! k = Some item → d < depth →
  let j := if someSingle (take d (drop a ns)) then 0 else k in
  ∃ origin, outputOf r (node_name dest) !! j = Some origin ∧
    ∀ paired, paired_item paired = k → paired_sourceOverwrite paired = None →
      getPairedItem that objectAt depth (node_name dest) (Some (sourceData (node_name node) 0 0)) paired method before =
      inl (InRun (node_name dest) 0 0 j, origin).
Proof using Hrun.
  intros Hnd Htook Hran Ha. revert k depth node item before.
  induction d as [|d IH]; intros k depth node item before Hb Hitem Hd; destruct depth as [|depth]; try lia.
  - rewrite Nat.add_0_r in Hb. assert (dest = node) as -> by congruence. exists item. split; [done|]. intros paired Hk Ho.
    pose proof (getPairedItem_unfold that objectAt (node_name node) method depth
      (Some (sourceData (node_name node) 0 0)) paired (sourceData (node_name node) 0 0) before) as Hunfold.
    destruct (Hran node) as (task & Hr & Hdata); [by eapply list_elem_of_lookup_2|].
    rewrite Hk, (readItem_run _ task _ item), bool_decide_true in Hunfold by done.
    apply Hunfold. unfold normalizeInputs. by rewrite Ho.
  - rewrite Nat.add_succ_r in Hb.
    destruct (lookup_lt_is_Some_2 ns (a + d)) as [prev Hprev]; [apply lookup_lt_Some in Hb; lia|].
    destruct (Htook _ _ _ Hprev Hb) as (task & [Hr Hdata Hsrc Hpairs]).
    destruct (Hpairs k item Hitem) as (Hj & Hpair). set (j := if bool_decide _ then 0 else k) in *.
    destruct (lookup_lt_is_Some_2 _ _ Hj) as [item' Hitem'].
    destruct (IH j depth prev item' (Some (node_name node)) Hprev Hitem') as (origin & Horigin & Hfound); [lia|].
    assert ((if someSingle (take (S d) (drop a ns)) then 0 else k) =
      if someSingle (take d (drop a ns)) then 0 else j) as ->.
    { rewrite (take_S_r _ _ prev) by (by rewrite lookup_drop). unfold someSingle. rewrite existsb_app. simpl.
      rewrite orb_false_r. unfold j. by destruct (existsb _ _), (bool_decide _). }
    set (j' := if someSingle _ then 0 else j) in *.
    exists origin. split; [done|]. intros paired Hk Ho.
    pose proof (getPairedItem_unfold that objectAt (node_name dest) method depth
      (Some (sourceData (node_name node) 0 0)) paired (sourceData (node_name node) 0 0) before) as Hunfold.
    rewrite Hk, (readItem_run _ task _ item), bool_decide_false in Hunfold; [|..].
    + rewrite Hunfold by (unfold normalizeInputs; by rewrite Ho). rewrite Hpair.
      assert (lookupFrom that objectAt (node_name dest) method depth (node_name node) (task_source task)
        (pairedNumber j) = Some (inl (InRun (node_name dest) 0 0 j', origin))) as Hlookup.
      { unfold lookupFrom. rewrite Hsrc. change (nextSource _ _) with (Some (Some (sourceData (node_name prev) 0 0))).
        cbn [mbind option_bind]. by rewrite Hfound. }
      change (normalizePairedItem (Some (pairWith j))) with [pairedNumber j]. cbv zeta.
      rewrite bool_decide_false by done. cbn [omap list_omap previousNode sourceData taskSources].
      by rewrite Hlookup.
    + intros Heq. cbn [previousNode sourceData] in Heq.
      assert (S (a + d) = a); [|lia]. apply (NoDup_lookup _ _ _ (node_name dest) Hnd); rewrite list_lookup_fmap.
      * by rewrite Hb, <- Heq.
      * by rewrite Ha.
    + done.
    + done.
    + done.
Qed.
End trace.

(** The expressions of a node of the workflow [w] that was given the items of [prev] *)
Record readsFrom (w : Workflow) (r : IRunData) (prev : string) (that : WorkflowDataProxy) : Prop := {
  rf_workflow : dp_workflow that = w;
  rf_runData : dp_runData that = Some r;
  rf_input : dp_connectionInputData that = imap (updatePairedItem None 0) (outputOf r prev);
  rf_source : (dp_executeData that ≫= exec_source) = Some [(NodeConnectionTypes.Main, [Val (sourceData prev 0 0)])];
}.

(** The item of the input that a property asks for: [.item], [.pairedItem] and
    [.itemMatching] trace it *)
Definition asksFor (that : WorkflowDataProxy) (property : nodeProperty) : option nat :=
  match property with
  | Item => Some (dp_itemIndex that)
  | PairedItem itemIndex => Some (default (dp_itemIndex that) itemIndex)
  | ItemMatching itemIndex => itemIndex
  | _ => None
  end.

Lemma pairedItemMethod_reads w r prev that objectAt depth full dest k requested method item loc origin :
  readsFrom w r prev that → outputOf r prev !! k = Some item →
  default (dp_itemIndex that) requested = k → (method = "itemMatching" → requested ≠ None) →
  (∀ paired, paired_item paired = k → paired_sourceOverwrite paired = None →
     getPairedItem that objectAt depth dest (Some (sourceData prev 0 0)) paired method None = inl (loc, origin)) →
  pairedItemMethod objectAt depth that full dest method requested = returnItem that (Some origin) full.
Proof.
  intros [Hw Hr Hin Hsrc] Hk <- Hreq Hfound. set (k := default _ _) in *.
  assert (pairedItemMethod objectAt depth that full dest method requested = tracedItem objectAt depth that full dest method k)
    as ->.
  { unfold pairedItemMethod. rewrite bool_decide_false with (P := dp_connectionInputData that = []).
    - destruct requested; [done|]. case_bools; [by destruct Hreq|done].
    - rewrite Hin. intros Hnil. apply (f_equal length) in Hnil. rewrite length_imap in Hnil.
      apply lookup_lt_Some in Hk. simpl in Hnil. lia. }
  unfold tracedItem. rewrite Hin. rewrite list_lookup_imap. setoid_rewrite Hk.
  cbn [fmap option_fmap option_map updatePairedItem set_pairedItem item_pairedItem]. rewrite Hsrc.
  unfold obj_get. cbn [map_get]. rewrite bool_decide_true by done. cbn [deref mbind res_bind].
  unfold resolvePairedItem. rewrite Hfound by done. done.
Qed.

(** The checks around the lookup: the node exists, comes before and has run. *)
Lemma dollar_reads `{INodeTypes} evaluateOutputs w r prev that objectAt depth full dest n k property item task loc origin :
  readsFrom w r prev that → getNode w dest = Some n → dest ≠ "" →
  ensureConnected evaluateOutputs that dest = Ok tt → runsOf r dest = [task] →
  outputOf r prev !! k = Some item → asksFor that property = Some k →
  (∀ method paired, paired_item paired = k → paired_sourceOverwrite paired = None →
     getPairedItem that objectAt depth dest (Some (sourceData prev 0 0)) paired method None = inl (loc, origin)) →
  dollar evaluateOutputs objectAt depth that full (Some dest) property = returnItem that (Some origin) full.
Proof.
  intros Hreads Hn Hne Hconn Hrun Hk Hasks Hfound. unfold dollar, referencedName.
  assert (orString (Some dest) None = Some dest) as -> by (destruct dest; done).
  cbn [mbind res_bind]. rewrite (rf_workflow _ _ _ _ Hreads), Hn.
  assert (ensureNodeExecutionData that dest = Ok tt) as Hex.
  { unfold ensureNodeExecutionData, hasRun. rewrite (rf_runData _ _ _ _ Hreads). simpl.
    unfold runsOf in Hrun. destruct (obj_get dest r) eqn:E; [|done]. assert (obj_has dest r = true) as -> by (apply map_has_get; eauto). done. }
  destruct property; simpl in Hasks; simplify_eq; unfold readProperty, itemProperty; rewrite Hconn; cbn [mbind res_bind];
    rewrite Hex; cbn [mbind res_bind]; eapply pairedItemMethod_reads; eauto; done.
Qed.

Lemma linear_names `{INodeTypes} w ns : linear w ns → NoDup (node_name <$> ns).
Proof.
  induction ns as [|n ns IH]; [constructor|]. intros (_ & Hno & _ & Hlin). csimpl. apply NoDup_cons. auto.
Qed.

Lemma linear_ordinary `{INodeTypes} w ns n : linear w ns → n ∈ ns → ordinary w n.
Proof.
  induction ns as [|m ns IH]; [by intros _ ?%elem_of_nil|]. intros (Hm & _ & _ & Hlin) [->|Hn]%elem_of_cons; auto.
Qed.

(** C7: a workflow of nodes in a row has run, in the execution order [v1] and without a
    destination node or a filter, and its nodes returned items without pairs, as many as
    their input had, or one, or any number for a single item.  Then an expression of a
    node that was given the items of the node [prev] finds, with [$('dest').item],
    [.pairedItem()] or [.itemMatching()], for the [k]-th item of its input exactly one item of
    [dest], which is [prev] itself or comes before it: the [k]-th, unless some node from [dest]
    on up to the one before [prev] returned a single item; then the first.  The referenced node has a name, and the
    reader passes the check that it is connected behind it. *)
Theorem linear_items_traced `{INodeTypes} `{NodeRunner} (startData : IStartData) (manualMode : bool)
    (now : nat → Z) (evaluateOutputs : INode → res (list NodeOutput))
    (evaluateRequiredInputs : INode → string → option RequiredInputs)
    (convertBinaryData : slot NodeOutputData → slot NodeOutputData)
    (getPairedItem : IRunData → string → ISourceData → IPairedItemData → res (option INodeExecutionData))
    (w : Workflow) (answer : nat → NodeCall → list INodeExecutionData)
    (ns : list INode) (node : INode) (items : list INodeExecutionData) :
  answering convertBinaryData answer → pairableAnswers answer → settings_executionOrder w = Some "v1" →
  sd_destinationNode startData = None → sd_runNodeFilter startData = None →
  linear w (node :: ns) → items ≠ [] →
  ∃ r, executionLoop startData manualMode None now evaluateOutputs evaluateRequiredInputs convertBinaryData
      getPairedItem (S (S (length ns))) (startWith w (entryFor node items)) = Some r ∧
    let runData := es_runData (run_state r) in
    ∀ a b dest prev k item that objectAt depth full property,
      (node :: ns) !! a = Some dest → (node :: ns) !! b = Some prev → a ≤ b ≤ a + depth →
      outputOf runData (node_name prev) !! k = Some item → readsFrom w runData (node_name prev) that →
      node_name dest ≠ "" → ensureConnected evaluateOutputs that (node_name dest) = Ok tt →
      asksFor that property = Some k →
      let j := if someSingle runData (take (b - a) (drop a (node :: ns))) then 0 else k in
      ∃ origin, outputOf runData (node_name dest) !! j = Some origin ∧
        dollar evaluateOutputs objectAt (S depth) that full (Some (node_name dest)) property =
          returnItem that (Some origin) full.
Proof.
  intros Ha Hp Hv1 Hd Hf Hlin Hne.
  destruct (executionLoop_linear startData manualMode now evaluateOutputs evaluateRequiredInputs convertBinaryData
    getPairedItem w answer Ha Hv1 Hd Hf ns (entryFor node items) node [] (item_json <$> items)
    (startWith w (entryFor node items))) as (r & Hr & _ & _ & _ & _ & Hran); try done.
  { split_and!; try done; [by destruct items|by exists items]. }
  exists r. split; [done|].
  intros runData a b dest prev k item that objectAt depth full property Hdest Hprev Hab Hk Hreads Hname Hconn Hasks j.
  replace b with (a + (b - a)) in Hprev by lia.
  destruct (ranThrough_ran answer runData (node :: ns) 0 [] (item_json <$> items) dest Hran) as (task & Hrun & _);
    [by eapply list_elem_of_lookup_2|].
  assert (∀ method, ∃ origin, outputOf runData (node_name dest) !! j = Some origin ∧
    ∀ paired, paired_item paired = k → paired_sourceOverwrite paired = None →
      DataProxy.getPairedItem that objectAt (S depth) (node_name dest) (Some (sourceData (node_name prev) 0 0)) paired
        method None = inl (InRun (node_name dest) 0 0 j, origin)) as Hrow.
  { intros method. eapply (getPairedItem_row that objectAt runData (rf_runData _ _ _ _ Hreads) (node :: ns));
      [by eapply linear_names|..|done|done|done|lia].
    - intros. eapply ranThrough_tookFrom; [done|apply Ha|done..].
    - intros. by eapply ranThrough_ran. }
  destruct (Hrow "item") as (origin & Hj & _). exists origin. split; [done|].
  eapply dollar_reads; [done|apply (linear_ordinary w (node :: ns)); [done|by eapply list_elem_of_lookup_2]|done..|].
  intros method paired Hpi Hpo. destruct (Hrow method) as (origin' & Hj' & Hfound).
  assert (origin' = origin) as -> by congruence. by apply Hfound.
Qed.

(** A node that returns a new item for every item of its input *)
Definition eachAnswer (n : nat) (call : NodeCall) : list INodeExecutionData :=
  match call_connectionInputData call with
  | [] => [itemOf "new"]
  | input => (λ _, itemOf "new") <$> input
  end.

Definition eachRunner : NodeRunner := λ n call,
  {| out_result := NodeData (Val [Val (eachAnswer n call)]); out_waitTill := None; out_metadata := None |}.

Lemma eachAnswer_all (P : INodeExecutionData → Prop) n call : P (itemOf "new") → Forall P (eachAnswer n call).
Proof.
  intros HP. unfold eachAnswer. destruct (call_connectionInputData call) as [|x l]; [by repeat constructor|].
  by apply Forall_fmap, Forall_true.
Qed.

Lemma eachAnswer_answering : @answering eachRunner (λ data, data) eachAnswer.
Proof.
  split; [done| | |done]; intros n call.
  - unfold eachAnswer. by case_match.
  - by apply eachAnswer_all.
Qed.

Lemma eachAnswer_pairable : pairableAnswers eachAnswer.
Proof.
  intros n call. split; [by apply eachAnswer_all|]. intros Hne. right. exists (eachAnswer n call). split; [done|left].
  unfold eachAnswer. destruct (call_connectionInputData call); [done|]. apply length_fmap.
Qed.

Definition chainABC : list INode := [plainNode 11 "A"; plainNode 12 "B"; plainNode 13 "C"].

Lemma chainABC_linear : @linear executeTypes (chainWorkflow chainABC) chainABC.
Proof.
  assert (∀ n, n ∈ chainABC → @ordinary executeTypes (chainWorkflow chainABC) n) as Hord.
  { intros n [->|[->|[->|[]%elem_of_nil]%elem_of_cons]%elem_of_cons]%elem_of_cons;
      (split; [reflexivity|discriminate|discriminate|reflexivity|reflexivity|]; by eexists). }
  unfold chainABC at 2. cbn [linear head].
  split_and!; try (apply Hord; unfold chainABC; set_solver); try exact I; try by_eval; (split; [reflexivity|]);
    intros m [=]; subst; (split; [vm_compute; lia|reflexivity]).
Qed.

(** The expressions of [C], which reads the items of [B] *)
Definition readerC (runData : IRunData) : WorkflowDataProxy :=
  {| dp_workflow := chainWorkflow chainABC; dp_runData := Some runData; dp_itemIndex := 1; dp_activeNodeName := "C";
     dp_connectionInputData := imap (updatePairedItem None 0) (outputOf runData "B"); dp_mode := "trigger";
     dp_executeData := Some {| exec_data := []; exec_metadata := None; exec_node := plainNode 13 "C";
       exec_source := Some [("main", [Val (sourceData "B" 0 0)])]; exec_runIndex := None |};
     dp_defaultReturnRunIndex := -1; dp_contextNodeName := "C" |}.

Lemma linear_items_traced_witness :
  ∃ r origin, @executionLoop executeTypes eachRunner emptyStartData false None (λ _, 0%Z) noOutputs noRequiredInputs
      (λ data, data) noPairedItem 4
      (startWith (chainWorkflow chainABC) (entryFor (plainNode 11 "A") [itemOf "a"; itemOf "b"])) = Some r ∧
    outputOf (es_runData (run_state r)) "A" !! 1 = Some origin ∧
    @dollar executeTypes noOutputs objectByIndex 2 (readerC (es_runData (run_state r))) false (Some "A") Item =
      Ok (DItem origin).
Proof.
  destruct (@linear_items_traced executeTypes eachRunner emptyStartData false (λ _, 0%Z) noOutputs
    noRequiredInputs (λ data, data) noPairedItem (chainWorkflow chainABC) eachAnswer
    [plainNode 12 "B"; plainNode 13 "C"] (plainNode 11 "A") [itemOf "a"; itemOf "b"] eachAnswer_answering
    eachAnswer_pairable eq_refl eq_refl eq_refl chainABC_linear) as (r & H1 & H2); [done|].
  pose proof H1 as Hr. vm_compute in Hr. injection Hr as Hr.
  destruct (H2 0 1 (plainNode 11 "A") (plainNode 12 "B") 1 (set_pairedItem (pairWith 1) (itemOf "new"))
    (readerC (es_runData (run_state r))) objectByIndex 1 false Item) as (origin & H3 & H4);
    [reflexivity|reflexivity|lia|by rewrite <- Hr|by split|discriminate|by rewrite <- Hr; vm_compute|reflexivity|].
  exists r, origin. split; [exact H1|]. split; [rewrite <- Hr in *; exact H3|exact H4].
Defined.
