(* ===== verification/Readiness.v ===== *)
(** * Executions of workflows with issues

    The check of the engine before an execution starts ([checkReadyForExecution]) with
    the checks of node parameters that it calls ([getNodeParametersIssues]): an
    execution is refused exactly if one of the nodes it can reach is not ready. *)

From S2P Require Import Prelude JsCollections NodeTypes DirectedGraph Fixtures RunData.
From S2P Require Import ExecutionStack Connections Workflow WorkflowSearch Trigger Waiting Items Requests.
From S2P Require Import EngineState Lifecycle Engine EngineFixtures EngineInvariants.
From S2P Require Import FromAi NodeProperties NodeParameters TypeValidation ParameterIssues IssuesSpec.

(** ** The nodes that are checked *)

(** The nodes behind the start node, or the ones that lead to the destination *)
Definition isChecked (w : Workflow) (startNode : option string) (destinationNode : option IDestinationNode)
    (name : string) : Prop :=
  match destinationNode, startNode with
  | Some destination, _ =>
      rtc (linked (connectionsByDestinationNode w) (OfType NodeConnectionTypes.Main)) (dest_nodeName destination) name ∧
      (dest_mode destination = Inclusive ∨ name ≠ dest_nodeName destination)
  | None, Some start =>
      start ≠ "" ∧ rtc (linked (connectionsBySourceNode w) (OfType NodeConnectionTypes.Main)) start name
  | None, None => False
  end.

Lemma connected_rtc cs sel n :
  ∃ r, getConnectedNodes cs n sel (-1) = Ok r ∧ ∀ x, x ∈ r ↔ x ≠ n ∧ rtc (linked cs sel) n x.
Proof.
  destruct (getConnectedNodes_spec cs sel n (-1)) as (r & Hr & Hin); [lia|]. exists r. split; [done|].
  intros x. rewrite Hin. split.
  - intros (Hne & k & _ & Hsteps). split; [done|]. apply rtc_nsteps. by eexists.
  - intros [Hne Hrtc]. split; [done|]. apply rtc_nsteps in Hrtc as [[|k] Hk]; [by inversion Hk|].
    exists k. split; [by left|done].
Qed.

Lemma nodesToCheck_spec w startNode destinationNode :
  ∃ names, nodesToCheck w startNode destinationNode = Ok names ∧
    ∀ name, name ∈ names ↔ isChecked w startNode destinationNode name.
Proof.
  unfold nodesToCheck. unfold isChecked. destruct (destinationNode) as [destination|]; [|destruct startNode as [start|]].
  - destruct (connected_rtc (connectionsByDestinationNode w) (OfType NodeConnectionTypes.Main) (dest_nodeName destination))
      as (r & Hr & Hin). unfold workflowParentNodes, getParentNodes. rewrite Hr. cbn [mbind res_bind].
    eexists. split; [reflexivity|]. intros name.
    destruct (bool_decide_reflect (dest_mode destination = Inclusive)); rewrite ?elem_of_app, Hin; [|naive_solver].
    destruct (decide (name = dest_nodeName destination)) as [->|]; set_solver by eauto using rtc_refl.
  - destruct (bool_decide_reflect (start = "")); [exists []; set_solver|].
    destruct (connected_rtc (connectionsBySourceNode w) (OfType NodeConnectionTypes.Main) start) as (r & Hr & Hin).
    unfold workflowChildNodes, getChildNodes. rewrite Hr. cbn [mbind res_bind].
    eexists. split; [reflexivity|]. intros name. rewrite elem_of_app, Hin.
    destruct (decide (name = start)) as [->|]; set_solver by eauto using rtc_refl.
  - exists []. set_solver.
Qed.

Section ready.
Context `{INodeTypes} (P : platform) (fuel : nat).
(** [nodeType.description], of which a node type has the part that the engine reads *)
Context (properties : INodeType → list INodeProperties) (description : INodeType → INodeTypeDescription).

Definition typeUnknownIssues : INodeIssues :=
  {| iss_execution := false; iss_parameters := None; iss_credentials := None; iss_typeUnknown := true |}.

Definition parametersIssues (nodeType : INodeType) (node : INode) (pinDataNodeNames : list string)
    : res (option INodeIssues) :=
  getNodeParametersIssues P (Some (node_typeVersion node)) (Some (description nodeType)) fuel (properties nodeType) node
    (Some pinDataNodeNames).

(** The node is disabled or pinned, or has a type and a value for each required parameter. *)
Definition isReady (pinDataNodeNames : list string) (node : INode) : Prop :=
  node_disabled node = Some true ∨
  ∃ nodeType, nodeTypeOf node = Some nodeType ∧
    (node_name node ∈ pinDataNodeNames ∨
     ∀ p, p ∈ properties nodeType → ¬ lacking P (Some (node_typeVersion node)) (Some (description nodeType)) node p).

(** The parameters of the nodes are plain ones, whose conditions can be evaluated. *)
Definition checkable (w : Workflow) : Prop :=
  ∀ name node nodeType, getNode w name = Some node → nodeTypeOf node = Some nodeType →
    NoDup (prop_name <$> properties nodeType) ∧
    ∀ p, p ∈ properties nodeType →
      plain p ∧ is_ok (shown P (Some (node_typeVersion node)) (Some (description nodeType)) node p).

Context (w : Workflow) (Hcheckable : checkable w) (Hfuel : 0 < fuel).

Abbreviation issuesAt := (nodeIssues typeUnknownIssues parametersIssues w) (only parsing).

Lemma nodeIssues_ready pins name :
  ∃ found, issuesAt pins name = Ok found ∧ (found = None ↔ ∀ node, getNode w name = Some node → isReady pins node).
Proof using Hcheckable Hfuel.
  unfold nodeIssues. destruct (getNode w name) as [node|] eqn:Hnode; [|by exists None].
  unfold isReady. destruct (bool_decide_reflect (node_disabled node = Some true)) as [Hd|Hd];
    [exists None; split; [done|]; naive_solver|].
  destruct (nodeTypeOf node) as [nodeType|] eqn:Htype.
  2:{ eexists. split; [reflexivity|]. split; [done|]. intros Hr. destruct (Hr node eq_refl) as [?|(t & ? & _)]; congruence. }
  destruct (Hcheckable name node nodeType Hnode Htype) as [Hnd Hplain]. unfold parametersIssues.
  destruct (decide (node_name node ∈ pins)) as [Hpin|Hpin].
  - exists None. unfold getNodeParametersIssues. cbn [from_option]. rewrite (bool_decide_true (node_name node ∈ pins)) by done.
    rewrite orb_true_r. split; [done|]. split; [|done]. intros _ ? [= <-]. right. exists nodeType. auto.
  - destruct (getNodeParametersIssues_required P (Some (node_typeVersion node)) (Some (description nodeType)) node fuel
      (properties nodeType) (Some pins)) as (r & -> & Hnone & _); [done|by intros ? [= <-]|done..|].
    eexists. split; [reflexivity|]. destruct r as [issues|]; cbn [option_map]; (split; [|done || intros Hr]).
    + done.
    + destruct (Hr node eq_refl) as [?|(t & Ht & [?|Hl])]; [done..|]. rewrite Htype in Ht. injection Ht as <-.
      by apply Hnone in Hl.
    + intros _ ? [= <-]. right. exists nodeType. split; [done|]. right. by apply Hnone.
Qed.

Lemma obj_set_not_empty {V} k (v : V) (o : jsobj V) : length (obj_set k v o) ≠ 0.
Proof.
  intros Hlen. pose proof (obj_get_set_eq k v o) as Hget. by rewrite (nil_length_inv _ Hlen) in Hget.
Qed.

(** The issues that are collected *)
Lemma collected_ready pins names acc :
  ∃ r, foldM (λ issues nodeName,
      found ← issuesAt pins nodeName;
      Ok (match found with Some (name, i) => obj_set name i issues | None => issues end)) acc names = Ok r ∧
    (length r = 0 ↔ length acc = 0 ∧
      ∀ name node, name ∈ names → getNode w name = Some node → isReady pins node).
Proof using Hcheckable Hfuel.
  revert acc. induction names as [|name names IH]; intros acc; cbn [foldM].
  { exists acc. split; [done|]. split; [|tauto]. intros Hl. split; [done|]. by intros ? ? ?%elem_of_nil. }
  destruct (nodeIssues_ready pins name) as (found & -> & Hfound). cbn [mbind res_bind].
  destruct (IH (match found with Some (name, i) => obj_set name i acc | None => acc end)) as (r & Hr & Hiff).
  exists r. split; [exact Hr|]. rewrite Hiff. clear IH Hr Hiff. setoid_rewrite elem_of_cons. destruct found as [[n i]|].
  - split; [by intros [?%obj_set_not_empty _]|]. intros [_ Hall]. exfalso.
    assert (@None (string * INodeIssues) = Some (n, i)) as Habs; [|done]. symmetry. apply Hfound. naive_solver.
  - naive_solver.
Qed.
End ready.

(** ** The check of an execution *)

Section checked.
Context `{INodeTypes} (P : platform) (fuel : nat).
Context (properties : INodeType → list INodeProperties) (description : INodeType → INodeTypeDescription).

(** Every node that is checked is ready. *)
Definition allReady (startData : IStartData) (s : EngineState) : Prop :=
  let startNode := (λ e, node_name (exec_node e)) <$> head (nodeExecutionStack (es_stack s)) in
  ∀ name node, isChecked (es_workflow s) startNode (sd_destinationNode startData) name →
    getNode (es_workflow s) name = Some node →
    isReady P properties description (from_option (λ pinData, pinData.*1) [] (es_pinData s)) node.

Lemma checkForWorkflowIssues_ready startData s :
  checkable P properties description (es_workflow s) → 0 < fuel →
  ∃ r, checkForWorkflowIssues typeUnknownIssues (parametersIssues P fuel properties description) startData s = r ∧
    (r = Ok tt ∧ allReady startData s ∨ r = Throw WorkflowHasIssuesError ∧ ¬ allReady startData s).
Proof.
  intros Hcheck Hfuel. eexists. split; [reflexivity|]. unfold checkForWorkflowIssues, checkReadyForExecution, allReady.
  set (w := es_workflow s) in *. set (pins := from_option _ _ (es_pinData s)).
  set (startNode := _ <$> head _).
  destruct (nodesToCheck_spec w startNode (sd_destinationNode startData)) as (names & -> & Hnames).
  cbn [mbind res_bind].
  destruct (collected_ready P fuel properties description w Hcheck Hfuel pins names []) as (r & -> & Hr).
  cbn [mbind res_bind]. setoid_rewrite <- Hnames.
  destruct (bool_decide_reflect (length r = 0)) as [H0|H0]; cbn [mbind res_bind]; [left|right]; (split; [done|]).
  - apply Hr in H0 as [_ H0]. done.
  - intros Hall. apply H0, Hr. by split.
Qed.
End checked.

(** C9: an execution is refused, with [WorkflowHasIssuesError] and before anything is
    executed, exactly if one of the nodes that it can reach from its start node, or that
    lead to its destination, is enabled and of an unknown type, or has no pinned data and a
    required parameter that is displayed and empty; otherwise the loop is entered.  The
    parameters of the nodes have distinct names, and their only check is that they have a value: they are
    no collections, resource locators, workflow selectors, resource mappers or filters, have no multiple
    values and no type to validate, and their display conditions can be evaluated. *)
Theorem unready_execution_refused `{INodeTypes} `{NodeRunner} (startData : IStartData) (manualMode : bool)
    (timeout : option Z) (now : nat → Z) (evaluateOutputs : INode → res (list NodeOutput))
    (evaluateRequiredInputs : INode → string → option RequiredInputs)
    (convertBinaryData : slot NodeOutputData → slot NodeOutputData)
    (getPairedItem : IRunData → string → ISourceData → IPairedItemData → res (option INodeExecutionData))
    (P : platform) (properties : INodeType → list INodeProperties) (description : INodeType → INodeTypeDescription)
    (depth fuel : nat) (s : EngineState) :
  checkable P properties description (es_workflow s) → 0 < depth →
  let r := processRunExecutionData startData manualMode timeout now evaluateOutputs evaluateRequiredInputs
    convertBinaryData getPairedItem typeUnknownIssues (parametersIssues P depth properties description) fuel s in
  (allReady P properties description startData s →
     r = (s' ← handleWaitingState (setupExecution s);
          Ok (executionLoop startData manualMode timeout now evaluateOutputs evaluateRequiredInputs convertBinaryData
                getPairedItem fuel (set_lastExecutionTry "" (set_executionError None s'))))) ∧
  (¬ allReady P properties description startData s → r = Throw WorkflowHasIssuesError).
Proof.
  intros Hcheck Hdepth r. unfold r, processRunExecutionData.
  destruct (checkForWorkflowIssues_ready P depth properties description startData (setupExecution s) Hcheck Hdepth)
    as (c & -> & [[-> Hready]|[-> Hready]]); (split; intros Hs); try done; by destruct Hready || destruct Hs.
Qed.

(** ** A node that lacks its mail address *)

Definition mailProperties (nodeType : INodeType) : list INodeProperties := [requiredProperty "mail" "string"].

Definition mailDescription (nodeType : INodeType) : INodeTypeDescription :=
  {| desc_name := nt_name nodeType; desc_features := None |}.

Lemma chainAB_checkable : @checkable executeTypes pathPlatform mailProperties mailDescription (chainWorkflow chainAB).
Proof.
  intros name node nodeType _ _. split; [repeat constructor; set_solver|].
  intros p Hp. apply list_elem_of_singleton in Hp as ->.
  split; [split_and!; [vm_compute; set_solver|reflexivity|reflexivity]|by eexists].
Qed.

Lemma unready_execution_refused_witness :
  @processRunExecutionData executeTypes (scripted []) emptyStartData false None (λ _, 0%Z) noOutputs noRequiredInputs
    (λ data, data) noPairedItem _ typeUnknownIssues (@parametersIssues pathPlatform 1 mailProperties mailDescription) 9
    (startWith (chainWorkflow chainAB) (entryFor (plainNode 11 "A") [itemOf "a"])) = Throw WorkflowHasIssuesError.
Proof.
  apply (@unready_execution_refused executeTypes (scripted []) emptyStartData false None (λ _, 0%Z) noOutputs
    noRequiredInputs (λ data, data) noPairedItem pathPlatform mailProperties mailDescription 1 9
    (startWith (chainWorkflow chainAB) (entryFor (plainNode 11 "A") [itemOf "a"])) chainAB_checkable); [lia|].
  intros Hready. specialize (Hready "A" (plainNode 11 "A")).
  destruct Hready as [Hd|(t & _ & [Hp|Hl])].
  - split; [discriminate|apply rtc_refl].
  - reflexivity.
  - discriminate.
  - by apply elem_of_nil in Hp.
  - apply (Hl (requiredProperty "mail" "string")); [by left|]. split; [reflexivity|]. split; [reflexivity|].
    left. split; [set_solver|]. left. reflexivity.
Defined.
