(* ===== verification/ExecutionRecovery.v ===== *)
(** * Recovery of executions

    [packages/cli/src/executions/execution-recovery.service.ts]: after a crash, the
    executions that were under way are completed from the event log.  A node that the
    log says was started and that has no run data gets a run: a successful one if the
    log says that it finished, a crashed one otherwise.  A workflow whose last executions
    have all crashed is deactivated.

    Times are in milliseconds.  The tables of the database are lists of rows; the hooks
    that run, the mails and the messages to the editor are recorded. *)

From S2P Require Import Prelude JsCollections NodeTypes Fixtures RunData Waiting Items.

(** ** Data *)

Record EventMessage := {
  ev_eventName : string;
  ev_ts : Z;
  ev_nodeName : string;
}.

(** The part of [data.resultData] that is read and written *)
Record ResultData := {
  rd_runData : option IRunData;
  rd_lastNodeExecuted : option string;
  rd_error : option ExecutionError;
}.

Record IExecutionResponse := {
  xr_id : string;
  xr_workflowId : string;
  xr_status : string;
  xr_startedAt : Z;
  xr_stoppedAt : option Z;
  xr_waitTill : option Z;
  xr_nodes : list INode;
  xr_data : option ResultData;
}.

Definition set_recovered (status : string) (stoppedAt : option Z) (data : ResultData) (x : IExecutionResponse)
    : IExecutionResponse :=
  {| xr_id := xr_id x; xr_workflowId := xr_workflowId x; xr_status := status; xr_startedAt := xr_startedAt x;
     xr_stoppedAt := stoppedAt; xr_waitTill := xr_waitTill x; xr_nodes := xr_nodes x; xr_data := Some data |}.

Definition emptyResultData : ResultData :=
  {| rd_runData := Some []; rd_lastNodeExecuted := None; rd_error := None |}.

(** ** The messages *)

Definition isNodeEventMessage (message : EventMessage) : bool := String.prefix "n8n.node." (ev_eventName message).

Definition addMessage (acc : jsobj (list EventMessage) * list EventMessage) (cur : EventMessage)
    : jsobj (list EventMessage) * list EventMessage :=
  let '(nodeMessagesByName, workflowMessages) := acc in
  if isNodeEventMessage cur then
    (obj_set (ev_nodeName cur) (default [] (obj_get (ev_nodeName cur) nodeMessagesByName) ++ [cur]) nodeMessagesByName,
     workflowMessages)
  else if String.prefix "n8n.workflow." (ev_eventName cur) then (nodeMessagesByName, workflowMessages ++ [cur])
  else acc.

Definition toRelevantMessages (messages : list EventMessage) : jsobj (list EventMessage) * list EventMessage :=
  foldl addMessage ([], []) messages.

(** [messages.find(...)] *)
Definition findMessage (p : EventMessage → bool) (messages : list EventMessage) : option EventMessage :=
  head (filter (λ m, p m = true) messages).

Definition WORKFLOW_END_EVENTS : list string :=
  ["n8n.workflow.success"; "n8n.workflow.crashed"; "n8n.workflow.failed"].

Definition toStoppedAt (timestamp : option Z) (messages : list EventMessage) : option Z :=
  match timestamp with
  | Some timestamp => Some timestamp
  | None =>
      ev_ts <$> match findMessage (λ m, bool_decide (ev_eventName m ∈ WORKFLOW_END_EVENTS)) messages with
                | Some m => Some m
                | None => findMessage (λ m, bool_decide (ev_eventName m = "n8n.workflow.started")) messages
                end
  end.

(** ** The runs *)

Definition NodeCrashedError (node : INode) : ExecutionError :=
  {| err_name := "NodeCrashedError"; err_message := "Execution stopped at this node";
     err_description := Some "n8n may have run out of memory while running this execution. More context and tips on how to avoid this <a href='https://docs.n8n.io/hosting/scaling/memory-errors/' target='_blank'>in the docs</a>";
     err_rest := [("node", JStr (node_name node))] |}.

Definition WorkflowCrashedError : ExecutionError :=
  {| err_name := "WorkflowCrashedError"; err_message := "Workflow did not finish, possible out-of-memory issue";
     err_description := None; err_rest := [] |}.

Definition artificialItem : INodeExecutionData :=
  {| item_json := [("isArtificialRecoveredEventItem", JBool true)]; item_error := None; item_pairedItem := None;
     item_rest := [] |}.

Definition ARTIFICIAL_TASK_DATA : ITaskDataConnections := [("main", [Val [artificialItem]])].

(** The run of a node that was started; [startTime] is in seconds *)
Definition recoveredTask (node : INode) (started : EventMessage) (finished : option EventMessage) : ITaskData :=
  {| task_startTime := ev_ts started / 1000; task_executionIndex := Some 0%Z; task_source := [Null];
     task_executionTime := from_option (λ m, ev_ts m - ev_ts started)%Z 0%Z finished;
     task_executionStatus := Some (match finished with Some _ => "success" | None => "crashed" end);
     task_data := match finished with Some _ => Some ARTIFICIAL_TASK_DATA | None => None end;
     task_inputOverride := None;
     task_error := match finished with Some _ => None | None => Some (NodeCrashedError node) end;
     task_metadata := None; task_rest := [] |}.

Definition messageOf (messages : jsobj (list EventMessage)) (node : INode) (eventName : string) : option EventMessage :=
  findMessage (λ m, bool_decide (ev_nodeName m = node_name node) && bool_decide (ev_eventName m = eventName))
    (default [] (obj_get (node_name node) messages)).

(** One node of the loop, on the run data, the rest of the result and the time of the last run *)
Definition recoverNode (messages : jsobj (list EventMessage)) (acc : IRunData * ResultData * option Z) (node : INode)
    : IRunData * ResultData * option Z :=
  let '(runData, result, lastNodeRunTimestamp) := acc in
  match messageOf messages node "n8n.node.started" with
  | None => acc
  | Some started =>
      if bool_decide (is_Some (obj_get (node_name node) runData)) then acc else
      let finished := messageOf messages node "n8n.node.finished" in
      (obj_set (node_name node) [recoveredTask node started finished] runData,
       {| rd_runData := rd_runData result; rd_lastNodeExecuted := Some (node_name node);
          rd_error := match finished with Some _ => rd_error result | None => Some WorkflowCrashedError end |},
       Some (from_option ev_ts (ev_ts started) finished))
  end.

(** ** Database *)

Record RecoveryState := {
  rs_executions : jsmap string IExecutionResponse;
  rs_workflows : jsmap string bool;
  rs_hooks : list IExecutionResponse;
  rs_broadcasts : list (string * string);
  rs_mails : list string;
}.

Definition set_executions (executions : jsmap string IExecutionResponse) (s : RecoveryState) : RecoveryState :=
  {| rs_executions := executions; rs_workflows := rs_workflows s; rs_hooks := rs_hooks s;
     rs_broadcasts := rs_broadcasts s; rs_mails := rs_mails s |}.

Definition markedCrashed (now : Z) (x : IExecutionResponse) : IExecutionResponse :=
  {| xr_id := xr_id x; xr_workflowId := xr_workflowId x; xr_status := "crashed"; xr_startedAt := xr_startedAt x;
     xr_stoppedAt := Some now; xr_waitTill := None; xr_nodes := xr_nodes x; xr_data := xr_data x |}.

(** An update ignores properties that are [undefined]; the identity, the workflow and the
    start of an execution are never changed. *)
Definition updatedRow (x row : IExecutionResponse) : IExecutionResponse :=
  {| xr_id := xr_id row; xr_workflowId := xr_workflowId row; xr_status := xr_status x; xr_startedAt := xr_startedAt row;
     xr_stoppedAt := match xr_stoppedAt x with Some t => Some t | None => xr_stoppedAt row end;
     xr_waitTill := xr_waitTill x; xr_nodes := xr_nodes x;
     xr_data := match xr_data x with Some d => Some d | None => xr_data row end |}.

Definition updateRow (id : string) (f : IExecutionResponse → IExecutionResponse) (s : RecoveryState) : RecoveryState :=
  match map_get id (rs_executions s) with
  | Some row => set_executions (map_set id (f row) (rs_executions s)) s
  | None => s
  end.

Definition amendWithoutLogs (now : Z) (executionId : string) (s : RecoveryState)
    : RecoveryState * option IExecutionResponse :=
  if map_has executionId (rs_executions s) then
    let s := updateRow executionId (markedCrashed now) s in (s, map_get executionId (rs_executions s))
  else (s, None).

Definition isFinished (x : IExecutionResponse) : bool :=
  bool_decide (xr_status x ∈ ["success"; "error"; "canceled"]) && bool_decide (is_Some (xr_data x)).

(** The execution with the runs that the log tells about *)
Definition amendedWith (messages : list EventMessage) (execution : IExecutionResponse) : IExecutionResponse :=
  let '(nodeMessagesByName, workflowMessages) := toRelevantMessages messages in
  let data := default emptyResultData (xr_data execution) in
  let '(runData, result, lastNodeRunTimestamp) :=
    foldl (recoverNode nodeMessagesByName) (default [] (rd_runData data), data, None) (xr_nodes execution) in
  set_recovered (if bool_decide (xr_status execution = "error") then "error" else "crashed")
    (toStoppedAt lastNodeRunTimestamp workflowMessages)
    {| rd_runData := Some runData; rd_lastNodeExecuted := rd_lastNodeExecuted result; rd_error := rd_error result |}
    execution.

Definition amend (now : Z) (executionId : string) (messages : list EventMessage) (s : RecoveryState)
    : RecoveryState * option IExecutionResponse :=
  if bool_decide (messages = []) then amendWithoutLogs now executionId s else
  if bool_decide (length (toRelevantMessages messages).1 = 0) then (s, None) else
  match map_get executionId (rs_executions s) with
  | None => (s, None)
  | Some execution => if isFinished execution then (s, None) else (s, Some (amendedWith messages execution))
  end.

(** [execution.data ??= createEmptyRunExecutionData()], on the object that is returned too *)
Definition withData (execution : IExecutionResponse) : IExecutionResponse :=
  {| xr_id := xr_id execution; xr_workflowId := xr_workflowId execution; xr_status := xr_status execution;
     xr_startedAt := xr_startedAt execution; xr_stoppedAt := xr_stoppedAt execution;
     xr_waitTill := xr_waitTill execution; xr_nodes := xr_nodes execution;
     xr_data := Some (default emptyResultData (xr_data execution)) |}.

Definition runHooks (execution : IExecutionResponse) (s : RecoveryState) : RecoveryState * IExecutionResponse :=
  ({| rs_executions := rs_executions s; rs_workflows := rs_workflows s; rs_hooks := rs_hooks s ++ [withData execution];
      rs_broadcasts := rs_broadcasts s; rs_mails := rs_mails s |}, withData execution).

Definition broadcastOnce (type id : string) (s : RecoveryState) : RecoveryState :=
  {| rs_executions := rs_executions s; rs_workflows := rs_workflows s; rs_hooks := rs_hooks s;
     rs_broadcasts := rs_broadcasts s ++ [(type, id)]; rs_mails := rs_mails s |}.

(** A follower does nothing. *)
Definition recoverFromLogs (isFollower : bool) (now : Z) (executionId : string) (messages : list EventMessage)
    (s : RecoveryState) : RecoveryState * option IExecutionResponse :=
  if isFollower then (s, None) else
  match amend now executionId messages s with
  | (s, None) => (s, None)
  | (s, Some amended) =>
      let '(s, amended) := runHooks amended (updateRow executionId (updatedRow amended) s) in
      (broadcastOnce "executionRecovered" executionId s, Some amended)
  end.

(** ** Deactivation of workflows that crash *)

Definition lastExecutions (maxLastExecutions : nat) (workflowId : string) (s : RecoveryState) : list IExecutionResponse :=
  take maxLastExecutions
    (array_sort (λ a b, xr_startedAt b - xr_startedAt a)%Z
      (filter (λ x, xr_workflowId x = workflowId) (rs_executions s).*2)).

(** The mail goes to the owner of the workflow. *)
Definition deactivate (workflowId : string) (s : RecoveryState) : RecoveryState :=
  broadcastOnce "workflowAutoDeactivated" workflowId
    {| rs_executions := rs_executions s; rs_workflows := map_set workflowId false (rs_workflows s);
       rs_hooks := rs_hooks s; rs_broadcasts := rs_broadcasts s; rs_mails := rs_mails s ++ [workflowId] |}.

Definition crashUnfinished (now : Z) (workflowId : string) (s : RecoveryState) : RecoveryState :=
  set_executions (map (λ kv, (kv.1,
    let x := kv.2 in
    if bool_decide (xr_workflowId x = workflowId ∧ xr_status x ∈ ["running"; "new"])
    then {| xr_id := xr_id x; xr_workflowId := xr_workflowId x; xr_status := "crashed"; xr_startedAt := xr_startedAt x;
            xr_stoppedAt := Some now; xr_waitTill := xr_waitTill x; xr_nodes := xr_nodes x; xr_data := xr_data x |}
    else x)) (rs_executions s)) s.

Definition autoDeactivateWorkflow (maxLastExecutions : nat) (now : Z) (s : RecoveryState) (workflowId : string)
    : RecoveryState :=
  let lastExecutions := lastExecutions maxLastExecutions workflowId s in
  let numberOfCrashedExecutions := length (filter (λ x, xr_status x = "crashed") lastExecutions) in
  if bool_decide (maxLastExecutions ≤ length lastExecutions ∧ length lastExecutions = numberOfCrashedExecutions) then
    match map_get workflowId (rs_workflows s) with
    | None => s
    | Some active => crashUnfinished now workflowId (if active : bool then deactivate workflowId s else s)
    end
  else s.

Definition autoDeactivateWorkflowsIfNeeded (maxLastExecutions : nat) (now : Z) (workflowIds : jsset string)
    (s : RecoveryState) : RecoveryState :=
  foldl (autoDeactivateWorkflow maxLastExecutions now) s workflowIds.

(** ** What the log says *)

(** The first message of this kind about a node *)
Definition logged (messages : list EventMessage) (name eventName : string) : option EventMessage :=
  findMessage (λ m, bool_decide (ev_nodeName m = name) && bool_decide (ev_eventName m = eventName)) messages.

Lemma messages_by_name messages acc name :
  default [] (obj_get name (foldl addMessage acc messages).1) =
  default [] (obj_get name acc.1) ++ filter (λ m, isNodeEventMessage m = true ∧ ev_nodeName m = name) messages.
Proof.
  revert acc. induction messages as [|m messages IH]; intros [byName workflow]; simpl; [by rewrite app_nil_r|].
  rewrite IH. unfold addMessage. destruct (isNodeEventMessage m) eqn:E; simpl.
  - rewrite obj_get_set. destruct (bool_decide_reflect (name = ev_nodeName m)) as [->|Hne]; simpl.
    + by rewrite filter_cons_True, <- app_assoc.
    + rewrite filter_cons_False; [done|]. by intros [_ ?].
  - rewrite filter_cons_False by (by intros [? _]; congruence). by case_match.
Qed.

Lemma messageOf_logged messages node eventName :
  String.prefix "n8n.node." eventName = true →
  messageOf (toRelevantMessages messages).1 node eventName = logged messages (node_name node) eventName.
Proof.
  intros Hp. unfold messageOf, logged, toRelevantMessages, findMessage. rewrite messages_by_name. simpl. f_equal.
  rewrite list_filter_filter. apply list_filter_iff. intros m. rewrite andb_true_iff, !bool_decide_eq_true.
  unfold isNodeEventMessage. naive_solver.
Qed.

(** The run that a node gets from the log *)
Definition loggedRun (messages : list EventMessage) (node : INode) : option (list ITaskData) :=
  started ← logged messages (node_name node) "n8n.node.started";
  Some [recoveredTask node started (logged messages (node_name node) "n8n.node.finished")].

Definition runFromLog (messages : list EventMessage) (nodes : list INode) (name : string) : option (list ITaskData) :=
  head (filter (λ n, node_name n = name) nodes) ≫= loggedRun messages.

Abbreviation recoverAll messages := (foldl (recoverNode (toRelevantMessages messages).1)) (only parsing).

Lemma recoverNode_runs messages runData result t node name :
  obj_get name (recoverNode (toRelevantMessages messages).1 (runData, result, t) node).1.1 =
  match obj_get name runData with
  | Some runs => Some runs
  | None => if bool_decide (node_name node = name) then loggedRun messages node else None
  end.
Proof.
  unfold recoverNode, loggedRun. rewrite !messageOf_logged by done.
  destruct (logged messages (node_name node) "n8n.node.started") as [started|]; simpl.
  2:{ by destruct (obj_get name runData), (bool_decide (node_name node = name)). }
  destruct (bool_decide_reflect (is_Some (obj_get (node_name node) runData))) as [[runs Hr]|Hr]; simpl.
  - destruct (obj_get name runData) as [runs'|] eqn:E; [done|]. rewrite bool_decide_false; [done|]. congruence.
  - rewrite obj_get_set. destruct (bool_decide_reflect (name = node_name node)) as [->|Hne].
    + apply eq_None_not_Some in Hr. by rewrite Hr, bool_decide_true.
    + rewrite (bool_decide_false (node_name node = name)) by congruence. by destruct (obj_get name runData).
Qed.

(** The runs after the loop: those that were there, and one from the log for the others *)
Lemma recoverAll_runs messages nodes runData result t name :
  obj_get name (recoverAll messages (runData, result, t) nodes).1.1 =
  match obj_get name runData with Some runs => Some runs | None => runFromLog messages nodes name end.
Proof.
  revert runData result t. induction nodes as [|node nodes IH]; intros runData result t; cbn [foldl].
  { simpl. by destruct (obj_get name runData). }
  destruct (recoverNode (toRelevantMessages messages).1 (runData, result, t) node) as [[runData' result'] t'] eqn:E.
  rewrite IH. pose proof (recoverNode_runs messages runData result t node name) as Hr. rewrite E in Hr. simpl in Hr.
  rewrite Hr. destruct (obj_get name runData) as [runs|]; [done|]. unfold runFromLog. rewrite filter_cons.
  destruct (decide (node_name node = name)) as [Hn|Hn]; [rewrite bool_decide_true by done|by rewrite bool_decide_false].
  simpl. destruct (loggedRun messages node) as [runs|] eqn:El; [done|].
  destruct (head (filter _ nodes)) as [node'|] eqn:Eh; [|done]. simpl.
  apply head_Some_elem_of, list_elem_of_filter in Eh as [Hn' _]. unfold loggedRun in *. rewrite Hn', <- Hn.
  by destruct (logged messages (node_name node) "n8n.node.started").
Qed.

(** ** Recovery *)

(** The runs that an execution has of a node *)
Definition runsFor (x : IExecutionResponse) (name : string) : option (list ITaskData) :=
  data ← xr_data x; runData ← rd_runData data; obj_get name runData.

Lemma amendedWith_runs messages x name :
  runsFor (amendedWith messages x) name =
  match runsFor x name with Some runs => Some runs | None => runFromLog messages (xr_nodes x) name end.
Proof.
  unfold amendedWith. destruct (toRelevantMessages messages) as [byName workflow] eqn:E.
  set (data := default emptyResultData (xr_data x)).
  pose proof (recoverAll_runs messages (xr_nodes x) (default [] (rd_runData data)) data None name) as Hruns.
  rewrite E in Hruns. simpl in Hruns.
  destruct (foldl (recoverNode byName) _ (xr_nodes x)) as [[runData result] t]. simpl in *.
  unfold runsFor at 1. simpl. rewrite Hruns. unfold runsFor, data. destruct (xr_data x) as [d|]; [|done]. simpl.
  by destruct (rd_runData d).
Qed.

Lemma amendedWith_status messages x :
  xr_status (amendedWith messages x) = if bool_decide (xr_status x = "error") then "error" else "crashed".
Proof.
  unfold amendedWith. destruct (toRelevantMessages messages) as [byName workflow].
  by destruct (foldl (recoverNode byName) _ (xr_nodes x)) as [[runData result] t].
Qed.

Lemma amendedWith_data messages x : is_Some (xr_data (amendedWith messages x)).
Proof.
  unfold amendedWith. destruct (toRelevantMessages messages) as [byName workflow].
  destruct (foldl (recoverNode byName) _ (xr_nodes x)) as [[runData result] t]. by eexists.
Qed.

(** The log tells about a node. *)
Lemma relevant_not_empty messages :
  (∃ m, m ∈ messages ∧ isNodeEventMessage m = true) → messages ≠ [] ∧ length (toRelevantMessages messages).1 ≠ 0.
Proof.
  intros (m & Hin & Hnode). split; [intros ->; by apply elem_of_nil in Hin|]. intros Hlen.
  pose proof (messages_by_name messages ([], []) (ev_nodeName m)) as Hm. unfold toRelevantMessages in Hlen.
  rewrite (nil_length_inv _ Hlen) in Hm. simpl in Hm. symmetry in Hm.
  assert (m ∈ filter (λ m', isNodeEventMessage m' = true ∧ ev_nodeName m' = ev_nodeName m) messages) as Hf.
  { apply list_elem_of_filter. auto. }
  rewrite Hm in Hf. by apply elem_of_nil in Hf.
Qed.

(** What the run of a node should be by the log: successful, without an error, with an
    artificial item and with the time between the first messages about its start and its end, if the
    log says that it finished; else crashed, with the error of a crash and without data *)
Definition recoveredRun (messages : list EventMessage) (name : string) (task : ITaskData) : Prop :=
  ∃ started, logged messages name "n8n.node.started" = Some started ∧
  task_startTime task = (ev_ts started / 1000)%Z ∧
  match logged messages name "n8n.node.finished" with
  | Some finished =>
      task_executionStatus task = Some "success" ∧ task_error task = None ∧
      task_executionTime task = (ev_ts finished - ev_ts started)%Z ∧
      ∃ item, task_data task = Some [("main", [Val [item]])] ∧
        item_json item = [("isArtificialRecoveredEventItem", JBool true)]
  | None =>
      task_executionStatus task = Some "crashed" ∧ (err_name <$> task_error task) = Some "NodeCrashedError" ∧
      task_executionTime task = 0%Z ∧ task_data task = None
  end.

(** The node is one of the workflow, and the log says that it was started. *)
Definition wasStarted (messages : list EventMessage) (nodes : list INode) (name : string) : Prop :=
  name ∈ node_name <$> nodes ∧
  ∃ m, m ∈ messages ∧ ev_nodeName m = name ∧ ev_eventName m = "n8n.node.started".

Lemma logged_Some messages name eventName :
  (∃ m, m ∈ messages ∧ ev_nodeName m = name ∧ ev_eventName m = eventName) ↔ is_Some (logged messages name eventName).
Proof.
  unfold logged, findMessage. split.
  - intros (m & Hm & Hn & He). apply head_is_Some. intros Hnil.
    assert (m ∈ ([] : list EventMessage)) as []%elem_of_nil. rewrite <- Hnil. apply list_elem_of_filter.
    by rewrite !bool_decide_true.
  - intros [m Hm%head_Some_elem_of]. apply list_elem_of_filter in Hm as [Hp Hin]. exists m.
    apply andb_true_iff in Hp as [?%bool_decide_eq_true ?%bool_decide_eq_true]. done.
Qed.

Lemma runFromLog_started messages nodes name :
  wasStarted messages nodes name → ∃ task, runFromLog messages nodes name = Some [task] ∧ recoveredRun messages name task.
Proof.
  intros [Hin [started Hs]%logged_Some]. unfold runFromLog.
  destruct (head (filter _ nodes)) as [node|] eqn:E.
  - apply head_Some_elem_of, list_elem_of_filter in E as [Hn _]. unfold loggedRun. cbn [mbind option_bind].
    rewrite Hn, Hs. eexists. split; [reflexivity|]. exists started. split; [done|]. split; [done|].
    destruct (logged messages name "n8n.node.finished") as [finished|]; split_and!; try done. by eexists.
  - exfalso. apply list_elem_of_fmap in Hin as (node & -> & Hin).
    assert (node ∈ ([] : list INode)) as []%elem_of_nil.
    rewrite <- (proj1 (head_None _) E). by apply list_elem_of_filter.
Qed.

Lemma runFromLog_not_started messages nodes name :
  ¬ wasStarted messages nodes name → runFromLog messages nodes name = None.
Proof.
  intros Hno. unfold runFromLog. destruct (head (filter _ nodes)) as [node|] eqn:E; [|done].
  apply head_Some_elem_of, list_elem_of_filter in E as [Hn Hin]. unfold loggedRun. simpl. rewrite Hn.
  destruct (logged messages name "n8n.node.started") as [m|] eqn:Hl; [|done]. destruct Hno. split.
  - apply list_elem_of_fmap. by exists node.
  - apply logged_Some. by rewrite Hl.
Qed.

(** C25: if the log tells about a node of an execution that is not finished, the leader
    ends the execution as crashed, or as failed if it had failed before.  Runs that were saved are kept as they
    are.  A node of the workflow without runs gets one if the log says that it was started: a
    successful one, without an error, with an artificial item and the time that it took, if the log says that it finished,
    and otherwise a crashed one, with the error of a crashed node and without data.  No other node gets a run.  Other
    executions are not changed, and the hooks run once, on the recovered execution.  An execution that is
    finished, and any execution on a follower, is left alone. *)
Theorem recovery_completes (isFollower : bool) (now : Z) (executionId : string) (messages : list EventMessage)
    (s : RecoveryState) (x : IExecutionResponse) :
  map_get executionId (rs_executions s) = Some x → (∃ m, m ∈ messages ∧ isNodeEventMessage m = true) →
  let '(s', r) := recoverFromLogs isFollower now executionId messages s in
  if isFollower || isFinished x then s' = s ∧ r = None
  else ∃ row amended, r = Some amended ∧ rs_hooks s' = rs_hooks s ++ [amended] ∧
    map_get executionId (rs_executions s') = Some row ∧
    (∀ id, id ≠ executionId → map_get id (rs_executions s') = map_get id (rs_executions s)) ∧
    xr_status row = (if bool_decide (xr_status x = "error") then "error" else "crashed") ∧
    ∀ name,
      (∀ runs, runsFor x name = Some runs → runsFor row name = Some runs) ∧
      (runsFor x name = None → wasStarted messages (xr_nodes x) name →
         ∃ task, runsFor row name = Some [task] ∧ recoveredRun messages name task) ∧
      (runsFor x name = None → ¬ wasStarted messages (xr_nodes x) name → runsFor row name = None).
Proof.
  intros Hx [Hne Hlen]%relevant_not_empty. unfold recoverFromLogs. destruct isFollower; [done|]. cbn [orb].
  unfold amend. rewrite !bool_decide_false by done. rewrite Hx. destruct (isFinished x); [done|].
  set (amended := amendedWith messages x). exists (updatedRow amended x), (withData amended). split; [done|].
  destruct (amendedWith_data messages x) as [data Hdata]. fold amended in Hdata. unfold updateRow. rewrite Hx.
  simpl. split; [done|]. split; [apply map_get_set_eq|]. split; [intros id Hid; by apply map_get_set_ne|].
  split; [apply amendedWith_status|]. intros name.
  assert (runsFor (updatedRow amended x) name = runsFor amended name) as -> by (unfold runsFor; simpl; by rewrite Hdata).
  unfold amended. rewrite amendedWith_runs.
  split_and!; [by intros runs ->|intros ->; apply runFromLog_started|intros ->; apply runFromLog_not_started].
Qed.

(** ** Example: two nodes, of which the second did not finish *)

Definition event (eventName : string) (ts : Z) (nodeName : string) : EventMessage :=
  {| ev_eventName := eventName; ev_ts := ts; ev_nodeName := nodeName |}.

Definition runningExecution (nodes : list INode) : IExecutionResponse :=
  {| xr_id := "1"; xr_workflowId := "w"; xr_status := "running"; xr_startedAt := 0; xr_stoppedAt := None;
     xr_waitTill := None; xr_nodes := nodes; xr_data := None |}.

Definition databaseWith (x : IExecutionResponse) : RecoveryState :=
  {| rs_executions := [("1", x)]; rs_workflows := [("w", true)]; rs_hooks := []; rs_broadcasts := []; rs_mails := [] |}.

Definition crashLog : list EventMessage :=
  [event "n8n.workflow.started" 1000 ""; event "n8n.node.started" 2000 "A"; event "n8n.node.finished" 3000 "A";
   event "n8n.node.started" 4000 "B"].

Lemma recovery_completes_witness :
  let '(s', r) := recoverFromLogs false 9000 "1" crashLog (databaseWith (runningExecution [nodeA; nodeB])) in
  ∃ row taskA taskB, map_get "1" (rs_executions s') = Some row ∧ xr_status row = "crashed" ∧
    runsFor row "A" = Some [taskA] ∧ task_executionStatus taskA = Some "success" ∧ task_executionTime taskA = 1000%Z ∧
    runsFor row "B" = Some [taskB] ∧ task_executionStatus taskB = Some "crashed" ∧
    (err_name <$> task_error taskB) = Some "NodeCrashedError".
Proof.
  pose proof (recovery_completes false 9000 "1" crashLog (databaseWith (runningExecution [nodeA; nodeB]))
    (runningExecution [nodeA; nodeB]) eq_refl) as H.
  destruct (recoverFromLogs _ _ _ _ _) as [s' r].
  destruct H as (row & amended & _ & _ & Hrow & _ & Hstatus & Hruns).
  { exists (event "n8n.node.started" 2000 "A"). split; [right; left|reflexivity]. }
  destruct (proj1 (proj2 (Hruns "A"))) as (taskA & HA & startedA & HsA & _ & HA1 & _ & HA2 & _); [reflexivity|..].
  { split; [left|exists (event "n8n.node.started" 2000 "A"); split; [right; left|done]]. }
  destruct (proj1 (proj2 (Hruns "B"))) as (taskB & HB & startedB & _ & _ & HB1 & HB2 & _); [reflexivity|..].
  { split; [right; left|exists (event "n8n.node.started" 4000 "B"); split; [do 3 right; left|done]]. }
  vm_compute in HsA. injection HsA as <-. exists row, taskA, taskB.
  split_and!; [exact Hrow|exact Hstatus|exact HA|exact HA1|exact HA2|exact HB|exact HB1|exact HB2].
Defined.

(** The nodes are visited in the order of the workflow: when the second one comes first
    there, the last node and the end of the execution are those of the first one. *)
Theorem last_node_by_position :
  let messages := [event "n8n.node.started" 2000 "A"; event "n8n.node.finished" 3000 "A";
                   event "n8n.node.started" 4000 "B"; event "n8n.node.finished" 5000 "B"] in
  let r := amendedWith messages (runningExecution [nodeB; nodeA]) in
  (xr_data r ≫= rd_lastNodeExecuted) = Some "A" ∧ xr_stoppedAt r = Some 3000%Z.
Proof. split; reflexivity. Qed.

(** A node that crashed in its second run is recovered as successful: only its first
    messages count. *)
Theorem second_run_not_recovered :
  let messages := [event "n8n.node.started" 2000 "A"; event "n8n.node.finished" 3000 "A";
                   event "n8n.node.started" 4000 "A"] in
  let r := amendedWith messages (runningExecution [nodeA]) in
  (task_executionStatus <$> default [] (runsFor r "A")) = [Some "success"] ∧ (xr_data r ≫= rd_error) = None.
Proof. split; reflexivity. Qed.

(** The start of a recovered run is in seconds, its duration in milliseconds. *)
Theorem recovered_start_in_seconds node started :
  task_startTime (recoveredTask node started None) = (ev_ts started / 1000)%Z ∧
  ∀ finished, task_executionTime (recoveredTask node started (Some finished)) = (ev_ts finished - ev_ts started)%Z.
Proof. done. Qed.

(** ** Deactivation *)

(** The last executions have all crashed. *)
Definition crashedOut (maxLastExecutions : nat) (s : RecoveryState) (workflowId : string) : Prop :=
  maxLastExecutions ≤ length (lastExecutions maxLastExecutions workflowId s) ∧
  Forall (λ x, xr_status x = "crashed") (lastExecutions maxLastExecutions workflowId s).

#[global] Instance crashedOut_dec maxLastExecutions s workflowId : Decision (crashedOut maxLastExecutions s workflowId).
Proof. unfold crashedOut. apply _. Defined.

Lemma filter_all_length {A} (P : A → Prop) `{∀ x, Decision (P x)} (l : list A) :
  length l = length (filter P l) ↔ Forall P l.
Proof.
  induction l as [|x l IH]; [done|]. rewrite Forall_cons. destruct (decide (P x)).
  - rewrite filter_cons_True by done. simpl. rewrite <- IH. naive_solver lia.
  - rewrite filter_cons_False by done. pose proof (length_filter P l). simpl. split; [lia|naive_solver].
Qed.

(** What happens to one workflow does not change the executions of another one. *)
Lemma lastExecutions_other max now s workflowId other :
  other ≠ workflowId →
  lastExecutions max other (autoDeactivateWorkflow max now s workflowId) = lastExecutions max other s.
Proof.
  intros Hne. unfold autoDeactivateWorkflow. case_bools; [|done].
  destruct (map_get workflowId (rs_workflows s)) as [active|]; [|done]. unfold lastExecutions. f_equal. f_equal.
  assert (rs_executions (crashUnfinished now workflowId (if active then deactivate workflowId s else s)) =
    rs_executions (crashUnfinished now workflowId s)) as -> by by destruct active.
  simpl. induction (rs_executions s) as [|[k x] rows IH]; [done|]. csimpl.
  case_bools; rewrite !filter_cons; simpl; case_decide; rewrite ?IH; try done. naive_solver.
Qed.

Lemma deactivated_one max now s workflowId id :
  map_get id (rs_workflows (autoDeactivateWorkflow max now s workflowId)) =
  if bool_decide (id = workflowId ∧ crashedOut max s workflowId)
  then (λ _, false) <$> map_get id (rs_workflows s) else map_get id (rs_workflows s).
Proof.
  unfold autoDeactivateWorkflow. cbv zeta.
  match goal with |- context [bool_decide (max ≤ ?n ∧ ?P)] =>
    rewrite (bool_decide_ext (max ≤ n ∧ P) (crashedOut max s workflowId)) end.
  2:{ unfold crashedOut. by rewrite filter_all_length. }
  destruct (bool_decide_reflect (crashedOut max s workflowId)) as [Hc|Hc].
  2:{ by rewrite bool_decide_false by tauto. }
  destruct (map_get workflowId (rs_workflows s)) as [active|] eqn:E.
  - destruct active; simpl; destruct (decide (id = workflowId)) as [->|];
      rewrite ?map_get_set_eq, ?map_get_set_ne, ?bool_decide_true, ?(bool_decide_false (_ ∧ _)) by tauto; by rewrite ?E.
  - case_bools; [|done]. destruct_and?. subst. by rewrite E.
Qed.

(** A workflow is deactivated exactly if it is one of those to look at and its last
    executions have all crashed, and as many as are looked at. *)
Theorem autoDeactivate_workflows (max : nat) (now : Z) (workflowIds : jsset string) (s : RecoveryState) (id : string) :
  NoDup workflowIds →
  map_get id (rs_workflows (autoDeactivateWorkflowsIfNeeded max now workflowIds s)) =
  if bool_decide (id ∈ workflowIds ∧ crashedOut max s id)
  then (λ _, false) <$> map_get id (rs_workflows s) else map_get id (rs_workflows s).
Proof.
  unfold autoDeactivateWorkflowsIfNeeded. intros Hnd. revert s.
  induction Hnd as [|w ids Hw _ IH]; intros s; cbn [foldl].
  { rewrite bool_decide_false; [done|]. by intros [?%elem_of_nil _]. }
  rewrite IH, deactivated_one. destruct (decide (id = w)) as [->|Hne].
  - rewrite (bool_decide_false (w ∈ ids ∧ _)) by tauto.
    destruct (decide (crashedOut max s w)); [rewrite !bool_decide_true by set_solver|rewrite !bool_decide_false by tauto]; done.
  - rewrite (bool_decide_false (id = w ∧ _)) by tauto.
    assert (crashedOut max (autoDeactivateWorkflow max now s w) id ↔ crashedOut max s id) as Hc.
    { unfold crashedOut. by rewrite lastExecutions_other. }
    destruct (decide (id ∈ ids ∧ crashedOut max s id)).
    + rewrite !bool_decide_true; [done|set_solver|tauto].
    + rewrite !bool_decide_false; [done|set_solver|tauto].
Qed.
