(* ===== verification/Webhooks.v ===== *)
(** * Webhooks of active workflows

    [packages/cli/src/webhooks/webhook.service.ts] keeps the webhooks of the workflows
    that are active in a table, with a cache in front of it, and finds the webhook for a
    request; [live-webhooks.ts] takes the values of the dynamic segments (the ones that
    begin with a colon) from the path of the request; [active-workflow-manager.ts] makes the rows.

    The table is the list of its rows, in the order in which the database returns them.
    The flags of an operation say whether its accesses to the cache succeed.  The
    evaluation of the properties of a webhook description is a parameter. *)

From S2P Require Import Prelude JsCollections NodeTypes Fixtures Connections Workflow Trigger ScheduledTasks EngineState.

(** ** Paths *)

(** [s.split(sep)] for a separator of one character *)
Fixpoint splitOn (sep : Ascii.ascii) (s : string) : list string :=
  match s with
  | EmptyString => [""]
  | String c s =>
      if bool_decide (c = sep) then "" :: splitOn sep s
      else match splitOn sep s with
           | part :: parts => String c part :: parts
           | [] => [String c ""]
           end
  end.

Definition segments (path : string) : list string := splitOn "/" path.

(** [list.join('/')] *)
Definition joinPath (parts : list string) : string := String.concat "/" parts.

Definition isParameter (segment : string) : bool := String.prefix ":" segment.

Definition withoutLeadingSlash (path : string) : string :=
  match path with String "/" path => path | path => path end.

Definition withoutTrailingSlash (path : string) : string :=
  if endsWith "/" path then String.substring 0 (String.length path - 1) path else path.

(** ** Rows *)

Record WebhookEntity := {
  wh_workflowId : string;
  wh_webhookPath : string;
  wh_method : string;
  wh_node : string;
  wh_webhookId : option string;
  wh_pathLength : option nat;
}.

#[global] Instance WebhookEntity_eq_dec : EqDecision WebhookEntity.
Proof. solve_decision. Defined.

Definition uniquePath (w : WebhookEntity) : string :=
  if includes ":" (wh_webhookPath w) then default "" (wh_webhookId w) +:+ "/" +:+ wh_webhookPath w
  else wh_webhookPath w.

(** The key of a method and a path *)
Definition keyOf (method path : string) : string := "webhook:" +:+ method +:+ "-" +:+ path.

Definition cacheKey (w : WebhookEntity) : string := keyOf (wh_method w) (uniquePath w).

Definition staticSegments (w : WebhookEntity) : list string :=
  filter (λ s, isParameter s = false) (segments (wh_webhookPath w)).

Definition isDynamic (w : WebhookEntity) : bool := existsb isParameter (segments (wh_webhookPath w)).

(** ** State *)

Record WebhookService := {
  ws_rows : list WebhookEntity;
  ws_cache : jsmap string WebhookEntity;
}.

Definition set_cache (cache : jsmap string WebhookEntity) (s : WebhookService) : WebhookService :=
  {| ws_rows := ws_rows s; ws_cache := cache |}.

Definition set_rows (rows : list WebhookEntity) (s : WebhookService) : WebhookService :=
  {| ws_rows := rows; ws_cache := ws_cache s |}.

Definition cacheMany (ws : list WebhookEntity) (cache : jsmap string WebhookEntity) : jsmap string WebhookEntity :=
  foldl (λ cache w, map_set (cacheKey w) w cache) cache ws.

Definition populateCache (setOk : bool) (s : WebhookService) : WebhookService :=
  let staticWebhooks := filter (λ w, wh_webhookId w = None) (ws_rows s) in
  if bool_decide (length staticWebhooks = 0) || negb setOk then s
  else set_cache (cacheMany staticWebhooks (ws_cache s)) s.

(** ** Lookup *)

Definition findStaticWebhook (method path : string) (s : WebhookService) : option WebhookEntity :=
  head (filter (λ w, wh_webhookPath w = path ∧ wh_method w = method) (ws_rows s)).

(** The step of the search for the webhook with the most static segments *)
Definition betterMatch (requestSegments : list string) (acc : option WebhookEntity * nat) (dw : WebhookEntity)
    : option WebhookEntity * nat :=
  let '(webhook, maxMatches) := acc in
  if forallb (λ s, bool_decide (s ∈ requestSegments)) (staticSegments dw) &&
     bool_decide (maxMatches < length (staticSegments dw))
  then (Some dw, length (staticSegments dw))
  else if bool_decide (length (staticSegments dw) = 0) && bool_decide (webhook = None)
  then (Some dw, maxMatches)
  else acc.

Definition findDynamicWebhook (path : string) (method : option string) (s : WebhookService) : option WebhookEntity :=
  match segments path with
  | [] => None
  | uuidSegment :: otherSegments =>
      let dynamicWebhooks :=
        filter (λ w, wh_webhookId w = Some uuidSegment ∧ wh_pathLength w = Some (length otherSegments) ∧
                     wh_method w = default (wh_method w) method) (ws_rows s) in
      (foldl (betterMatch otherSegments) (None, 0) dynamicWebhooks).1
  end.

Definition findCached (getOk setOk : bool) (method path : string) (s : WebhookService)
    : WebhookService * option WebhookEntity :=
  let key := keyOf method path in
  match (if getOk then map_get key (ws_cache s) else None) with
  | Some cached => (s, Some cached)
  | None =>
      match findStaticWebhook method path s with
      | Some w => (if setOk then set_cache (map_set key w (ws_cache s)) s else s, Some w)
      | None => (s, findDynamicWebhook path (Some method) s)
      end
  end.

Definition findWebhook (getOk setOk : bool) (method path : string) (s : WebhookService)
    : WebhookService * option WebhookEntity := findCached getOk setOk method path s.

(** ** Changes *)

(** [upsert(webhook, ['method', 'webhookPath'])] *)
Definition upsert (w : WebhookEntity) (rows : list WebhookEntity) : list WebhookEntity :=
  if bool_decide ((wh_method w, wh_webhookPath w) ∈ ((λ r, (wh_method r, wh_webhookPath r)) <$> rows))
  then map (λ r, if bool_decide (wh_method r = wh_method w ∧ wh_webhookPath r = wh_webhookPath w) then w else r) rows
  else rows ++ [w].

Definition storeWebhook (setOk : bool) (w : WebhookEntity) (s : WebhookService) : WebhookService :=
  let s := if setOk then set_cache (map_set (cacheKey w) w (ws_cache s)) s else s in
  set_rows (upsert w (ws_rows s)) s.

(** [remove] deletes the rows with the primary keys of the webhooks; the deletion from the cache is not
    awaited and may fail. *)
Definition deleteWebhooks (cacheOk : bool) (webhooks : list WebhookEntity) (s : WebhookService) : WebhookService :=
  {| ws_rows := filter (λ r, (wh_method r, wh_webhookPath r) ∉ ((λ w, (wh_method w, wh_webhookPath w)) <$> webhooks))
                  (ws_rows s);
     ws_cache := if cacheOk then foldl (λ cache w, map_delete (cacheKey w) cache) (ws_cache s) webhooks
                 else ws_cache s |}.

Definition deleteWorkflowWebhooks (cacheOk : bool) (workflowId : string) (s : WebhookService) : WebhookService :=
  deleteWebhooks cacheOk (filter (λ w, wh_workflowId w = workflowId) (ws_rows s)) s.

Definition getWebhookMethods (rawPath : string) (s : WebhookService) : list string :=
  let staticMethods := wh_method <$> filter (λ w, wh_webhookPath w = rawPath) (ws_rows s) in
  if bool_decide (0 < length staticMethods) then staticMethods
  else match findDynamicWebhook rawPath None s with Some w => [wh_method w] | None => [] end.

(** ** The webhooks of a node *)

(** The path behind the first slash, which follows the id of the webhook *)
Definition behindFirstSlash (rawPath : string) : string :=
  match segments rawPath with _ :: (_ :: _) as rest => joinPath rest | _ => rawPath end.

Definition isDynamicPath (rawPath : string) : bool :=
  let path := behindFirstSlash rawPath in
  if bool_decide (path ∈ [""; ":"; "/:"]) then false else String.prefix ":" path || includes "/:" path.

(** What [getSimpleParameterValue] gives for the properties of a webhook description;
    [wdesc_restart] is that of [restartWebhook]. *)
Record IWebhookDescription := {
  wdesc_restartWebhook : option bool;
  wdesc_path : option string;
  wdesc_isFullPath : option bool;
  wdesc_restart : option bool;
  wdesc_httpMethod : option string;
  wdesc_nodeType : option string;
}.

Record IWebhookData := {
  wd_httpMethod : string;
  wd_node : string;
  wd_path : string;
  wd_webhookDescription : IWebhookDescription;
  wd_workflowId : string;
  wd_webhookId : option string;
  wd_isTest : option bool;
  wd_userId : option string;
  wd_staticData : option IDataObject;
}.

Definition getWebhookPath (webhook : IWebhookData) : string :=
  joinPath (filter (λ part, part ≠ "")
    [if includes ":" (wd_path webhook) then default "" (wd_webhookId webhook) else ""; wd_path webhook]).

Definition webhookIdOf (node : INode) : option string :=
  match obj_get "webhookId" (node_rest node) with Some (JStr id) => Some id | _ => None end.

(** [undefined] for the empty string *)
Definition orNonEmpty (s : option string) : option string :=
  match s with Some s => if bool_decide (s = "") then None else Some s | None => None end.

Section node.
(** [encodeURIComponent] of the name in lower case *)
Context (encodedName : string → string).

Definition getNodeWebhookPath (workflowId : string) (node : INode) (path : string) (isFullPath restartWebhook : option bool)
    : string :=
  if bool_decide (restartWebhook = Some true) then path else
  match webhookIdOf node with
  | None => workflowId +:+ "/" +:+ encodedName (node_name node) +:+ "/" +:+ path
  | Some webhookId =>
      if bool_decide (isFullPath = Some true) then (if bool_decide (path = "") then webhookId else path)
      else webhookId +:+ "/" +:+ path
  end.

Definition getNodeWebhookUrl (baseUrl workflowId : string) (node : INode) (path : string) (isFullPath : option bool)
    : string :=
  let isFullPath :=
    if (String.prefix ":" path || includes "/:" path) && from_option (λ id, negb (bool_decide (id = ""))) false (webhookIdOf node)
    then Some false else isFullPath in
  baseUrl +:+ "/" +:+ getNodeWebhookPath workflowId node (withoutLeadingSlash path) isFullPath None.

Definition descriptionWebhooks (workflowId : string) (node : INode) (d : IWebhookDescription) : list IWebhookData :=
  match wdesc_path d, wdesc_httpMethod d with
  | Some nodeWebhookPath, Some webhookMethods =>
      let nodeWebhookPath := withoutTrailingSlash (withoutLeadingSlash nodeWebhookPath) in
      let path := getNodeWebhookPath workflowId node nodeWebhookPath (wdesc_isFullPath d) (wdesc_restart d) in
      let webhookId := if isDynamicPath path then orNonEmpty (webhookIdOf node) else None in
      (λ httpMethod, {| wd_httpMethod := trim httpMethod; wd_node := node_name node; wd_path := path;
                        wd_webhookDescription := d; wd_workflowId := workflowId; wd_webhookId := webhookId;
                        wd_isTest := None; wd_userId := None; wd_staticData := None |}) <$>
        filter (λ m, m ≠ "") (splitOn "," webhookMethods)
  | _, _ => []
  end.

(** [descriptions]: the webhooks of the node type, [None] if it has none *)
Definition getNodeWebhooks (w : Workflow) (node : INode) (descriptions : option (list IWebhookDescription))
    (ignoreRestartWebhooks : bool) : list IWebhookData :=
  if bool_decide (node_disabled node = Some true) then [] else
  match descriptions with
  | None => []
  | Some descriptions =>
      let workflowId := if bool_decide (workflow_id w = "") then "__UNSAVED__" else workflow_id w in
      mjoin (descriptionWebhooks workflowId node <$>
        filter (λ d, ¬ (ignoreRestartWebhooks = true ∧ wdesc_restartWebhook d = Some true)) descriptions)
  end.
End node.

(** The webhooks of the nodes of a workflow, or of those that lead to the destination *)
Definition getWorkflowWebhooks (encodedName : string → string) (descriptionsOf : INode → option (list IWebhookDescription))
    (w : Workflow) (destinationNode : option IDestinationNode) (ignoreRestartWebhooks : bool) : res (list IWebhookData) :=
  parentNodes ← match destinationNode with
    | None => Ok None
    | Some destination =>
        parents ← workflowParentNodes w (dest_nodeName destination) (OfType NodeConnectionTypes.Main) (-1);
        Ok (Some (if bool_decide (dest_mode destination = Inclusive)
                  then parents ++ [dest_nodeName destination] else parents))
    end;
  Ok (mjoin ((λ node, getNodeWebhooks encodedName w node (descriptionsOf node) ignoreRestartWebhooks) <$>
        filter (λ node, node_name node ∈ default [node_name node] parentNodes) (workflow_nodes w).*2)).

(** ** Activation *)

(** The row that [addWebhooks] stores for a webhook of a node *)
Definition webhookRow (node : INode) (data : IWebhookData) : WebhookEntity :=
  let path := wd_path data in
  let webhookPath := withoutTrailingSlash (withoutLeadingSlash path) in
  let dynamic := String.prefix ":" path || includes "/:" path in
  {| wh_workflowId := wd_workflowId data; wh_webhookPath := webhookPath; wh_method := wd_httpMethod data;
     wh_node := wd_node data;
     wh_webhookId := if dynamic then orNonEmpty (webhookIdOf node) else None;
     wh_pathLength := if dynamic && bool_decide (is_Some (orNonEmpty (webhookIdOf node)))
                      then Some (length (segments webhookPath)) else None |}.

(** ** Conflicts *)

Record WebhookConflict := {
  cf_trigger : string;
  cf_workflowId : string;
  cf_webhookPath : string;
  cf_method : string;
  cf_node : string;
  cf_webhookId : option string;
}.

Definition webhookToKey (webhook : IWebhookData) : string := wd_httpMethod webhook +:+ " " +:+ getWebhookPath webhook.

(** One webhook of the loop, on the service, the webhooks seen so far and the conflicts *)
Definition checkWebhook (workflowId : string) (node : INode)
    (acc : WebhookService * jsmap string IWebhookData * list WebhookConflict) (webhook : IWebhookData)
    : WebhookService * jsmap string IWebhookData * list WebhookConflict :=
  let '(s, processedWebhooks, conflicts) := acc in
  match map_get (webhookToKey webhook) processedWebhooks with
  | Some conflict =>
      (s, processedWebhooks, conflicts ++
        [{| cf_trigger := node_name node; cf_workflowId := workflowId; cf_webhookPath := wd_path conflict;
            cf_method := wd_httpMethod conflict; cf_node := wd_node conflict; cf_webhookId := wd_webhookId conflict |}])
  | None =>
      match findWebhook true true (wd_httpMethod webhook) (getWebhookPath webhook) s with
      | (s, Some found) =>
          if bool_decide (wh_workflowId found ≠ workflowId)
          then (s, processedWebhooks, conflicts ++
                 [{| cf_trigger := node_name node; cf_workflowId := wh_workflowId found;
                     cf_webhookPath := wh_webhookPath found; cf_method := wh_method found; cf_node := wh_node found;
                     cf_webhookId := wh_webhookId found |}])
          else (s, map_set (webhookToKey webhook) webhook processedWebhooks, conflicts)
      | (s, None) => (s, map_set (webhookToKey webhook) webhook processedWebhooks, conflicts)
      end
  end.

Definition findWebhookConflicts (workflowId : string) (checkEntries : list (INode * list IWebhookData))
    (s : WebhookService) : WebhookService * list WebhookConflict :=
  let '(s, _, conflicts) :=
    foldl (λ acc entry, foldl (checkWebhook workflowId entry.1) acc entry.2) (s, [], []) checkEntries in
  (s, conflicts).

(** All nodes of a workflow that have webhooks are checked. *)
Definition workflowConflicts (encodedName : string → string) (descriptionsOf : INode → option (list IWebhookDescription))
    (w : Workflow) (s : WebhookService) : WebhookService * list WebhookConflict :=
  findWebhookConflicts (workflow_id w)
    (filter (λ entry, entry.2 ≠ [])
      ((λ node, (node, getNodeWebhooks encodedName w node (descriptionsOf node) true)) <$> (workflow_nodes w).*2)) s.

(** ** Requests *)

(** The values of the dynamic segments; a segment that is missing has no value. *)
Fixpoint assignParams (template pathElements : list string) (params : jsobj (option string)) : jsobj (option string) :=
  match template with
  | [] => params
  | ele :: template =>
      let params := match ele with
                    | String ":" name => obj_set name (head pathElements) params
                    | _ => params
                    end in
      assignParams template (tail pathElements) params
  end.

Definition requestParams (w : WebhookEntity) (path : string) : jsobj (option string) :=
  if isDynamic w then assignParams (segments (wh_webhookPath w)) (tail (segments path)) [] else [].

(** [findWebhook] of [LiveWebhooks]: without the slash at the end *)
Definition findLiveWebhook (path httpMethod : string) (s : WebhookService) : WebhookService * option WebhookEntity :=
  findWebhook true true httpMethod (withoutTrailingSlash path) s.

(** The webhook that a request is for, with its parameters *)
Definition routeRequest (path httpMethod : string) (s : WebhookService)
    : WebhookService * option (WebhookEntity * jsobj (option string)) :=
  let '(s, webhook) := findLiveWebhook path httpMethod s in
  (s, (λ w, (w, requestParams w path)) <$> webhook).
