(* ===== verification/WebhookLookup.v ===== *)
(** * Finding webhooks

    The cache of the webhook service does not change what is found, and a request to the
    path of a dynamic webhook, with values in place of its parameters, is given to this
    webhook with these values. *)

From S2P Require Import Prelude JsCollections NodeTypes Fixtures Workflow Trigger ScheduledTasks Webhooks.

(** ** Strings *)

Lemma includes_app_r part a b : includes part b = true → includes part (a +:+ b) = true.
Proof. intros Hb. induction a as [|c a IH]; [done|]. simpl. rewrite IH. apply orb_true_r. Qed.

(** A character does not occur in a string. *)
Definition free (c : Ascii.ascii) (s : string) : Prop := includes (String c "") s = false.

Lemma free_cons c x s : free c (String x s) ↔ x ≠ c ∧ free c s.
Proof.
  unfold free. cbn [includes]. rewrite orb_false_iff. cbn [String.prefix].
  destruct (ascii_dec c x) as [->|Hne]; [|naive_solver]. destruct s; naive_solver.
Qed.

Lemma free_app c a b : free c (a +:+ b) ↔ free c a ∧ free c b.
Proof.
  induction a as [|x a IH]; [by split; [|intros []]|]. change (String x a +:+ b) with (String x (a +:+ b)).
  rewrite !free_cons, IH. tauto.
Qed.

Lemma append_sep_inj c m m' p p' :
  free c m → free c m' → m +:+ String c p = m' +:+ String c p' → m = m' ∧ p = p'.
Proof.
  revert m'. induction m as [|x m IH]; intros [|x' m']; simpl; rewrite ?free_cons.
  - intros _ _ Heq. injection Heq as Heq. by split.
  - intros _ [? _] Heq. injection Heq as <- _. done.
  - intros [? _] _ Heq. injection Heq as -> _. done.
  - intros [_ Hm] [_ Hm'] [= -> Heq]. by destruct (IH m' Hm Hm' Heq) as [-> ->].
Qed.

Lemma keyOf_inj m m' p p' : free "-" m → free "-" m' → keyOf m p = keyOf m' p' → m = m' ∧ p = p'.
Proof. intros Hm Hm' Heq. unfold keyOf in Heq. simpl in Heq. simplify_eq. by apply (append_sep_inj "-"). Qed.

(** A row is cached under its own path, unless this has a colon. *)
Lemma cacheKey_path m p w :
  free "-" m → free "-" (wh_method w) → free ":" p → keyOf m p = cacheKey w →
  wh_method w = m ∧ wh_webhookPath w = p.
Proof.
  intros Hm Hw Hp Heq. apply keyOf_inj in Heq as [-> ->]; [|done..]. split; [done|]. unfold uniquePath in Hp |- *.
  destruct (includes ":" (wh_webhookPath w)) eqn:E; [|done]. exfalso. rewrite !free_app in Hp. destruct Hp as (_ & _ & Hp).
  unfold free in Hp. congruence.
Qed.

Lemma cacheKey_static w : free ":" (wh_webhookPath w) → cacheKey w = keyOf (wh_method w) (wh_webhookPath w).
Proof. intros Hp. unfold cacheKey, uniquePath. unfold free in Hp. by rewrite Hp. Qed.

(** ** The cache and the table *)

Definition rowKey (w : WebhookEntity) : string * string := (wh_method w, wh_webhookPath w).

(** The cache agrees with the table, except for the keys [bad]. *)
Record webhooksInv (bad : list (string * string)) (s : WebhookService) : Prop := {
  wi_keys : NoDup (rowKey <$> ws_rows s);
  wi_methods : Forall (λ w, free "-" (wh_method w)) (ws_rows s);
  wi_cache : ∀ m p w, free "-" m → free ":" p → (m, p) ∉ bad → map_get (keyOf m p) (ws_cache s) = Some w →
    w ∈ ws_rows s ∧ rowKey w = (m, p);
}.

Lemma webhooksInv_mono bad bad' s : bad ⊆ bad' → webhooksInv bad s → webhooksInv bad' s.
Proof. intros Hsub [Hkeys Hmethods Hcache]. split; [done..|]. intros m p w Hm Hp Hbad. apply Hcache; [done..|]. set_solver. Qed.

(** The operations of the service, each from its start to its end; the flags tell whether its accesses to the
    cache succeed. *)
Inductive webhookOp :=
  | Populate (setOk : bool)
  | Find (getOk setOk : bool) (method path : string)
  | Store (setOk : bool) (w : WebhookEntity)
  | Delete (cacheOk : bool) (workflowId : string).

Definition performOp (s : WebhookService) (op : webhookOp) : WebhookService :=
  match op with
  | Populate setOk => populateCache setOk s
  | Find getOk setOk method path => (findWebhook getOk setOk method path s).1
  | Store setOk w => storeWebhook setOk w s
  | Delete cacheOk workflowId => deleteWorkflowWebhooks cacheOk workflowId s
  end.

(** The methods and paths of the rows that an operation changes without changing the cache *)
Definition failedWrites (s : WebhookService) (op : webhookOp) : list (string * string) :=
  match op with
  | Store false w => [rowKey w]
  | Delete false workflowId => rowKey <$> filter (λ w, wh_workflowId w = workflowId) (ws_rows s)
  | _ => []
  end.

(** A method has no dash. *)
Definition validOp (op : webhookOp) : Prop := match op with Store _ w => free "-" (wh_method w) | _ => True end.

Lemma elem_of_rowKey w (rows : list WebhookEntity) : w ∈ rows → rowKey w ∈ rowKey <$> rows.
Proof. intros Hw. apply list_elem_of_fmap. by exists w. Qed.

(** Setting an entry for a row of the table *)
Lemma inv_cache_row bad rows cache w k :
  free "-" (wh_method w) → w ∈ rows → (k = cacheKey w ∨ k = keyOf (wh_method w) (wh_webhookPath w)) →
  webhooksInv bad {| ws_rows := rows; ws_cache := cache |} →
  webhooksInv bad {| ws_rows := rows; ws_cache := map_set k w cache |}.
Proof.
  intros Hw Hin Hk [Hkeys Hmethods Hcache]. split; [done..|]. simpl. intros m p w' Hm Hp Hbad.
  rewrite map_get_set. destruct (bool_decide_reflect (keyOf m p = k)) as [Heq|]; [|by apply Hcache].
  intros [= <-]. split; [done|]. unfold rowKey. destruct Hk as [->| ->].
  - by destruct (cacheKey_path m p w Hm Hw Hp Heq) as [-> ->].
  - by apply keyOf_inj in Heq as [-> ->].
Qed.

Lemma inv_cacheMany bad rows ws cache :
  (∀ w, w ∈ ws → w ∈ rows ∧ free "-" (wh_method w)) →
  webhooksInv bad {| ws_rows := rows; ws_cache := cache |} →
  webhooksInv bad {| ws_rows := rows; ws_cache := cacheMany ws cache |}.
Proof.
  revert cache. induction ws as [|w ws IH]; intros cache Hws Hinv; [done|]. cbn [cacheMany foldl].
  apply IH; [set_solver|]. destruct (Hws w) as [Hin Hm]; [by left|]. apply inv_cache_row; [done..|by left|done].
Qed.

Lemma upsert_keys w rows :
  rowKey <$> upsert w rows = if bool_decide (rowKey w ∈ rowKey <$> rows) then rowKey <$> rows else (rowKey <$> rows) ++ [rowKey w].
Proof.
  unfold upsert. change (λ r, (wh_method r, wh_webhookPath r)) with rowKey.
  change (wh_method w, wh_webhookPath w) with (rowKey w). case_bools; [|by rewrite fmap_app].
  clear. induction rows as [|r rows IH]; [done|]. csimpl. rewrite IH. f_equal.
  destruct (bool_decide_reflect (wh_method r = wh_method w ∧ wh_webhookPath r = wh_webhookPath w)) as [[H1 H2]|]; [|done].
  unfold rowKey. by rewrite H1, H2.
Qed.

Lemma elem_of_upsert w rows r :
  r ∈ upsert w rows ↔ r = w ∨ (r ∈ rows ∧ rowKey r ≠ rowKey w).
Proof.
  unfold upsert. change (λ r, (wh_method r, wh_webhookPath r)) with rowKey.
  change (wh_method w, wh_webhookPath w) with (rowKey w).
  assert (∀ r', (wh_method r' = wh_method w ∧ wh_webhookPath r' = wh_webhookPath w) ↔ rowKey r' = rowKey w) as Hiff.
  { intros r'. unfold rowKey. split; [intros [H1 H2]; by rewrite H1, H2|by intros [= H1 H2]]. }
  destruct (bool_decide_reflect (rowKey w ∈ rowKey <$> rows)) as [Hin|Hin].
  - rewrite list_elem_of_In, in_map_iff. setoid_rewrite <- list_elem_of_In. split.
    + intros (r' & <- & Hr').
      destruct (bool_decide_reflect (wh_method r' = wh_method w ∧ wh_webhookPath r' = wh_webhookPath w)) as [|Hk]; [by left|].
      right. rewrite <- Hiff. done.
    + intros [->|[Hr Hne]].
      * apply list_elem_of_fmap in Hin as (r' & Hk & Hr'). exists r'. split; [|done].
        rewrite bool_decide_true; [done|]. by apply Hiff.
      * exists r. split; [|done]. rewrite bool_decide_false; [done|]. by rewrite Hiff.
  - rewrite elem_of_app, list_elem_of_singleton. split; [|naive_solver]. intros [Hr| ->]; [|by left]. right.
    split; [done|]. intros Heq. apply Hin. rewrite <- Heq. by apply elem_of_rowKey.
Qed.

Lemma inv_store bad setOk w s :
  free "-" (wh_method w) → webhooksInv bad s →
  webhooksInv (failedWrites s (Store setOk w) ++ bad) (storeWebhook setOk w s).
Proof.
  intros Hw [Hkeys Hmethods Hcache].
  assert (ws_rows (storeWebhook setOk w s) = upsert w (ws_rows s)) as Hrows by (by destruct setOk).
  split; rewrite ?Hrows.
  - rewrite upsert_keys. case_bools; [done|]. by apply NoDup_snoc.
  - apply Forall_forall. intros r [->|[Hr _]]%elem_of_upsert; [done|]. by eapply Forall_forall in Hmethods.
  - intros m p w' Hm Hp Hbad. rewrite elem_of_upsert.
    assert (map_get (keyOf m p) (ws_cache s) = Some w' → rowKey w ≠ (m, p) →
      (w' = w ∨ w' ∈ ws_rows s ∧ rowKey w' ≠ rowKey w) ∧ rowKey w' = (m, p)) as Hkept.
    { intros Hget Hne. destruct (Hcache m p w' Hm Hp) as [Hin Hk]; [set_solver|done|]. split; [|done]. right.
      split; [done|]. congruence. }
    destruct setOk; simpl in *; [|intros Hget; apply Hkept; [done|set_solver]]. rewrite map_get_set.
    destruct (bool_decide_reflect (keyOf m p = cacheKey w)) as [Heq|Hne].
    + intros [= <-]. destruct (cacheKey_path m p w Hm Hw Hp Heq) as [<- <-]. auto.
    + intros Hget. apply Hkept; [done|]. intros [= <- <-]. apply Hne. by rewrite cacheKey_static.
Qed.

Lemma map_get_delete_many (ws : list WebhookEntity) (cache : jsmap string WebhookEntity) k :
  map_get k (foldl (λ cache w, map_delete (cacheKey w) cache) cache ws) =
  if bool_decide (k ∈ cacheKey <$> ws) then None else map_get k cache.
Proof.
  revert cache. induction ws as [|w ws IH]; intros cache; [by rewrite bool_decide_false by apply not_elem_of_nil|].
  cbn [foldl fmap list_fmap]. rewrite IH, map_get_delete.
  destruct (decide (k ∈ cacheKey <$> ws)); [rewrite !bool_decide_true by set_solver; done|].
  rewrite (bool_decide_false (k ∈ cacheKey <$> ws)) by done.
  destruct (decide (k = cacheKey w)); [rewrite !bool_decide_true by set_solver|rewrite !bool_decide_false by set_solver]; done.
Qed.

Lemma NoDup_fmap_filter {A B} (f : A → B) (P : A → Prop) `{∀ x, Decision (P x)} (l : list A) :
  NoDup (f <$> l) → NoDup (f <$> filter P l).
Proof.
  induction l as [|x l IH]; [done|]. csimpl. rewrite NoDup_cons. intros [Hx Hl]. rewrite filter_cons.
  case_decide; [|auto]. csimpl. apply NoDup_cons. split; [|auto]. intros Hin. apply Hx.
  apply list_elem_of_fmap in Hin as (y & -> & [_ Hy]%list_elem_of_filter). by apply list_elem_of_fmap_2.
Qed.

(** Elements with the same image are equal. *)
Lemma NoDup_fmap_inj {A B} (f : A → B) (l : list A) x y : NoDup (f <$> l) → x ∈ l → y ∈ l → f x = f y → x = y.
Proof.
  induction l as [|z l IH]; [by intros _ ?%elem_of_nil|]. csimpl. rewrite NoDup_cons, !elem_of_cons.
  intros [Hz Hl] [->|Hx] [->|Hy] Heq; try done; [destruct Hz..|auto].
  - rewrite Heq. by apply list_elem_of_fmap_2.
  - rewrite <- Heq. by apply list_elem_of_fmap_2.
Qed.

Lemma inv_delete bad cacheOk workflowId s :
  webhooksInv bad s →
  webhooksInv (failedWrites s (Delete cacheOk workflowId) ++ bad) (deleteWorkflowWebhooks cacheOk workflowId s).
Proof.
  intros [Hkeys Hmethods Hcache]. unfold deleteWorkflowWebhooks.
  set (ws := filter (λ w, wh_workflowId w = workflowId) (ws_rows s)). split; simpl.
  - by apply NoDup_fmap_filter.
  - apply Forall_forall. intros w [_ Hw]%list_elem_of_filter. by eapply Forall_forall in Hmethods.
  - intros m p w Hm Hp Hbad.
    assert (map_get (keyOf m p) (ws_cache s) = Some w → (m, p) ∉ rowKey <$> ws →
      w ∈ filter (λ r, (wh_method r, wh_webhookPath r) ∉ ((λ w, (wh_method w, wh_webhookPath w)) <$> ws)) (ws_rows s) ∧
      rowKey w = (m, p)) as Hkept.
    { intros Hget Hno. destruct (Hcache m p w Hm Hp) as [Hin Hk]; [set_solver|done|]. split; [|done].
      apply list_elem_of_filter. split; [|done]. by change (rowKey w ∉ rowKey <$> ws); rewrite Hk. }
    destruct cacheOk; simpl in *; [|intros Hget; apply Hkept; [done|set_solver]].
    rewrite map_get_delete_many. destruct (bool_decide_reflect (keyOf m p ∈ cacheKey <$> ws)) as [|Hno]; [done|]. intros Hget.
    apply Hkept; [done|]. intros (w' & [= -> ->] & Hin')%list_elem_of_fmap. apply Hno. apply list_elem_of_fmap.
    exists w'. split; [|done]. by rewrite cacheKey_static.
Qed.

Lemma findStaticWebhook_elem m p s w :
  findStaticWebhook m p s = Some w → w ∈ ws_rows s ∧ rowKey w = (m, p).
Proof.
  intros Hh. apply head_Some_elem_of, list_elem_of_filter in Hh as [[<- <-] Hin]. done.
Qed.

Lemma inv_performOp bad op s : validOp op → webhooksInv bad s → webhooksInv (failedWrites s op ++ bad) (performOp s op).
Proof.
  intros Hop Hinv. pose proof Hinv as [_ Hmethods _]. destruct op as [setOk|getOk setOk m p|setOk w|cacheOk id].
  - simpl. unfold populateCache. destruct (_ || _); [done|]. destruct s as [rows cache]. apply inv_cacheMany; [|done].
    intros w [_ Hw]%list_elem_of_filter. split; [done|]. by eapply Forall_forall in Hmethods.
  - simpl. unfold findWebhook, findCached. destruct (if getOk then _ else None); [done|].
    destruct (findStaticWebhook m p s) as [w|] eqn:Hs; [|done]. destruct setOk; [|done]. simpl.
    destruct (findStaticWebhook_elem _ _ _ _ Hs) as [Hin Hk]. injection Hk as <- <-. destruct s as [rows cache].
    apply inv_cache_row; [|done|by right|done]. by eapply Forall_forall in Hmethods.
  - by apply inv_store.
  - by apply inv_delete.
Qed.

Definition noWebhooks : WebhookService := {| ws_rows := []; ws_cache := [] |}.

(** The service after some operations *)
Definition serviceAfter (ops : list webhookOp) : WebhookService := foldl performOp noWebhooks ops.

(** The methods and paths for which a change of the cache failed *)
Fixpoint failuresFrom (s : WebhookService) (ops : list webhookOp) : list (string * string) :=
  match ops with
  | [] => []
  | op :: ops => failedWrites s op ++ failuresFrom (performOp s op) ops
  end.

Definition cacheFailures (ops : list webhookOp) : list (string * string) := failuresFrom noWebhooks ops.

Lemma serviceAfter_inv ops : Forall validOp ops → webhooksInv (cacheFailures ops) (serviceAfter ops).
Proof.
  intros Hops. unfold serviceAfter, cacheFailures.
  assert (∀ s bad, webhooksInv bad s → webhooksInv (bad ++ failuresFrom s ops) (foldl performOp s ops)) as Hgen.
  { induction Hops as [|op ops Hop _ IH]; intros s bad Hinv; simpl; [by rewrite app_nil_r|].
    eapply webhooksInv_mono; [|apply IH; by apply inv_performOp]. set_solver. }
  apply (Hgen noWebhooks []). split; [constructor|constructor|done].
Qed.

(** The row of the table for a method and a path is unique. *)
Lemma findStaticWebhook_unique bad s w :
  webhooksInv bad s → w ∈ ws_rows s → findStaticWebhook (wh_method w) (wh_webhookPath w) s = Some w.
Proof.
  intros [Hkeys _ _] Hin. unfold findStaticWebhook.
  destruct (head (filter _ (ws_rows s))) as [w'|] eqn:Hh.
  - apply head_Some_elem_of, list_elem_of_filter in Hh as [[Hp Hm] Hin']. f_equal.
    assert (rowKey w' = rowKey w) as Hk by (unfold rowKey; by rewrite Hp, Hm).
    by eapply NoDup_fmap_inj.
  - apply head_None in Hh. exfalso. eapply (filter_nil_not_elem_of _ _ w); [done| |done]. done.
Qed.

Lemma findWebhook_uncached bad s m p getOk setOk :
  webhooksInv bad s → free "-" m → free ":" p → (m, p) ∉ bad →
  (findWebhook getOk setOk m p s).2 = (findWebhook false false m p s).2.
Proof.
  intros Hinv Hm Hp Hbad. unfold findWebhook, findCached.
  destruct (if getOk then map_get (keyOf m p) (ws_cache s) else None) as [w|] eqn:Hc; [|by destruct (findStaticWebhook m p s)].
  destruct getOk; [|done]. destruct (wi_cache bad s Hinv m p w Hm Hp Hbad Hc) as [Hin Hk]. injection Hk as <- <-.
  by rewrite (findStaticWebhook_unique bad).
Qed.

(** C32: operations that do not overlap keep the cache of webhooks in line with the table, but for the methods and paths
    for which a change of the cache failed while the table was changed: for any other method and path without a colon
    (methods have no dash), the webhook that is found is the one that a lookup without the cache finds, whatever
    was stored, deleted and looked up before, and whether or not the lookups could reach the cache. *)
Theorem webhook_cache_transparent (ops : list webhookOp) (getOk setOk : bool) (method path : string) :
  Forall validOp ops → free "-" method → free ":" path → (method, path) ∉ cacheFailures ops →
  (findWebhook getOk setOk method path (serviceAfter ops)).2 =
  (findWebhook false false method path (serviceAfter ops)).2.
Proof. intros Hops Hm Hp Hbad. eapply findWebhook_uncached; [by apply serviceAfter_inv|done..]. Qed.

Definition staticRow (workflowId method path : string) : WebhookEntity :=
  {| wh_workflowId := workflowId; wh_webhookPath := path; wh_method := method; wh_node := "Webhook";
     wh_webhookId := None; wh_pathLength := None |}.

Definition dynamicRow (workflowId id method path : string) : WebhookEntity :=
  {| wh_workflowId := workflowId; wh_webhookPath := path; wh_method := method; wh_node := "Webhook";
     wh_webhookId := Some id; wh_pathLength := Some (length (segments path)) |}.

Lemma webhook_cache_transparent_witness :
  let ops := [Store true (staticRow "w1" "GET" "user"); Find true true "GET" "user"; Delete true "w1";
              Store false (staticRow "w3" "GET" "other"); Store true (staticRow "w2" "GET" "user"); Populate true] in
  (findWebhook true true "GET" "user" (serviceAfter ops)).2 = Some (staticRow "w2" "GET" "user").
Proof.
  intros ops. rewrite (webhook_cache_transparent ops true true "GET" "user"); [reflexivity| |reflexivity|reflexivity|].
  - repeat constructor.
  - by_eval.
Defined.

(** If the cache could not be changed, the webhook of a workflow that was replaced or deleted is found. *)
Theorem failed_cache_write_stale :
  let w1 := staticRow "w1" "GET" "user" in
  (findWebhook true true "GET" "user" (serviceAfter [Store true w1; Store false (staticRow "w2" "GET" "user")])).2 = Some w1 ∧
  (findWebhook true true "GET" "user" (serviceAfter [Store true w1; Delete false "w1"])).2 = Some w1.
Proof. split; reflexivity. Qed.

(** ** Requests to dynamic webhooks *)

Lemma splitOn_free sep s : free sep s → splitOn sep s = [s].
Proof.
  induction s as [|c s IH]; [done|]. rewrite free_cons. intros [Hc Hs]. simpl. rewrite bool_decide_false by done.
  by rewrite IH.
Qed.

Lemma splitOn_app sep a b : free sep a → splitOn sep (a +:+ String sep b) = a :: splitOn sep b.
Proof.
  induction a as [|c a IH]; intros Ha; simpl; [by rewrite bool_decide_true|].
  apply free_cons in Ha as [Hc Ha]. rewrite bool_decide_false by done. by rewrite (IH Ha).
Qed.

Lemma segments_joinPath parts : parts ≠ [] → Forall (free "/") parts → segments (joinPath parts) = parts.
Proof.
  unfold segments, joinPath. induction parts as [|x parts IH]; [done|]. intros _ [Hx Hparts]%Forall_cons.
  destruct parts as [|y parts]; [by apply splitOn_free|].
  change (String.concat "/" (x :: y :: parts)) with (x +:+ String "/" (String.concat "/" (y :: parts))).
  rewrite splitOn_app by done. f_equal. by apply IH.
Qed.

(** The last character decides whether there is a slash at the end. *)
Lemma endsWith_last a c : endsWith "/" (a +:+ String c "") = bool_decide (c = "/"%char).
Proof.
  assert (∀ a, String.length (a +:+ String c "") = S (String.length a)) as Hlen.
  { intros a'. induction a' as [|x a' IH]; [done|]. simpl. by rewrite IH. }
  assert (∀ a, String.substring (String.length a) 1 (a +:+ String c "") = String c "") as Hsub.
  { intros a'. induction a' as [|x a' IH]; done. }
  unfold endsWith. rewrite Hlen. simpl. rewrite Nat.sub_0_r, Hsub. apply bool_decide_ext.
  split; [by intros [_ [= ->]]|intros ->; split; [lia|done]].
Qed.

Lemma string_last s : s ≠ "" → ∃ a c, s = a +:+ String c "".
Proof.
  induction s as [|x s IH]; [done|]. intros _. destruct s as [|y s]; [by exists "", x|].
  destruct IH as (a & c & ->); [done|]. by exists (String x a), c.
Qed.

Lemma string_app_assoc (a b c : string) : (a +:+ b) +:+ c = a +:+ (b +:+ c).
Proof.
  induction a as [|x a IH]; [done|]. change (String x ((a +:+ b) +:+ c) = String x (a +:+ (b +:+ c))). by rewrite IH.
Qed.

Lemma joinPath_last parts x : ∃ a, joinPath (parts ++ [x]) = a +:+ x.
Proof.
  induction parts as [|y parts [a IH]]; [by exists ""|]. exists (y +:+ String "/" a).
  simpl. unfold joinPath in *. destruct (parts ++ [x]) as [|z l] eqn:E; [by destruct parts|].
  change (String.concat "/" (y :: z :: l)) with (y +:+ String "/" (String.concat "/" (z :: l))). rewrite IH.
  by rewrite string_app_assoc.
Qed.

(** A segment of a request *)
Definition plainSegment (s : string) : Prop := s ≠ "" ∧ free "/" s ∧ free ":" s.

Lemma withoutTrailingSlash_path parts : Forall plainSegment parts → withoutTrailingSlash (joinPath parts) = joinPath parts.
Proof.
  intros Hparts. destruct parts as [|x parts _] using rev_ind; [done|].
  apply Forall_app in Hparts as [_ [(Hx & Hslash & _) _]%Forall_cons].
  destruct (joinPath_last parts x) as [a ->]. destruct (string_last x Hx) as (b & c & ->).
  unfold withoutTrailingSlash. rewrite <- string_app_assoc, endsWith_last.
  apply free_app in Hslash as [_ [Hc _]%free_cons]. by rewrite bool_decide_false.
Qed.

Lemma joinPath_free c parts : c ≠ "/"%char → Forall (free c) parts → free c (joinPath parts).
Proof.
  intros Hc. unfold joinPath. induction parts as [|x parts IH]; [done|]. intros [Hx Hparts]%Forall_cons.
  destruct parts as [|y parts]; [done|].
  change (String.concat "/" (x :: y :: parts)) with (x +:+ String "/" (String.concat "/" (y :: parts))).
  apply free_app. split; [done|]. apply free_cons. auto.
Qed.

(** The template with values in place of its parameters *)
Definition instantiate (template values : list string) : list string :=
  zip_with (λ segment value, if isParameter segment then value else segment) template values.

Lemma elem_of_instantiate template values segment :
  length values = length template → segment ∈ template → isParameter segment = false →
  segment ∈ instantiate template values.
Proof.
  intros Hlen Hin Hp. apply list_elem_of_lookup in Hin as [i Hi].
  destruct (lookup_lt_is_Some_2 values i) as [v Hv]; [rewrite Hlen; by eapply lookup_lt_Some|].
  apply list_elem_of_lookup. exists i. unfold instantiate. by rewrite lookup_zip_with, Hi, Hv; simpl; rewrite Hp.
Qed.

Lemma assignParams_other template pathElements params name :
  (String ":" name) ∉ template → obj_get name (assignParams template pathElements params) = obj_get name params.
Proof.
  revert pathElements params. induction template as [|ele template IH]; intros pathElements params; [done|].
  rewrite not_elem_of_cons. intros [Hne Hin]. simpl. rewrite IH by done.
  destruct ele as [|c rest]; [done|]. destruct (decide (c = ":"%char)) as [->|].
  - apply obj_get_set_ne. congruence.
  - destruct c as [[] [] [] [] [] [] [] []]; done.
Qed.

Lemma isParameter_colon name : isParameter (String ":" name) = true.
Proof. unfold isParameter. simpl. by destruct name. Qed.

Lemma assignParams_values template values params i name v :
  length values = length template → NoDup (filter (λ s, isParameter s = true) template) →
  template !! i = Some (String ":" name) → values !! i = Some v →
  obj_get name (assignParams template (instantiate template values) params) = Some (Some v).
Proof.
  revert values params i. induction template as [|ele template IH]; intros [|value values] params [|i] Hlen Hnd Ht Hv;
    simplify_eq/=.
  - rewrite filter_cons_True in Hnd by apply isParameter_colon. apply NoDup_cons in Hnd as [Hno _].
    rewrite assignParams_other, isParameter_colon.
    + apply obj_get_set_eq.
    + intros Hin. apply Hno. apply list_elem_of_filter. split; [apply isParameter_colon|done].
  - destruct (isParameter ele) eqn:Hp; simpl.
    + rewrite filter_cons_True in Hnd by done. apply NoDup_cons in Hnd as [_ Hnd]. by apply (IH values _ i); [lia|..].
    + rewrite filter_cons_False in Hnd by congruence. by apply (IH values _ i); [lia|..].
Qed.

Lemma NoDup_only {A} (l : list A) w : NoDup l → w ∈ l → (∀ x, x ∈ l → x = w) → l = [w].
Proof.
  intros Hnd Hw Hall. destruct l as [|x l]; [by apply elem_of_nil in Hw|]. rewrite (Hall x) in * by left.
  destruct l as [|y l]; [done|]. apply NoDup_cons in Hnd as [Hno _]. destruct Hno. rewrite (Hall y); [by left|].
  right. by left.
Qed.

(** The only webhook with its id, method and number of segments is found. *)
Lemma findDynamicWebhook_only bad s w id values :
  let template := segments (wh_webhookPath w) in
  webhooksInv bad s → w ∈ ws_rows s → wh_webhookId w = Some id → wh_pathLength w = Some (length template) →
  (∀ w', w' ∈ ws_rows s → wh_webhookId w' = Some id → wh_method w' = wh_method w →
     wh_pathLength w' = wh_pathLength w → w' = w) →
  length values = length template → Forall (free "/") (id :: instantiate template values) →
  findDynamicWebhook (joinPath (id :: instantiate template values)) (Some (wh_method w)) s = Some w.
Proof.
  intros template Hinv Hin Hid Hlen Honly Hvalues Hfree. unfold findDynamicWebhook.
  rewrite segments_joinPath by done.
  match goal with |- context [filter ?P (ws_rows s)] => assert (filter P (ws_rows s) = [w]) as -> end.
  { apply NoDup_only.
    - apply NoDup_filter. eapply NoDup_fmap_1. apply Hinv.
    - apply list_elem_of_filter. split; [|done]. split; [done|]. split; [|done]. rewrite Hlen. f_equal.
      unfold instantiate. rewrite length_zip_with. lia.
    - intros w' [(H1 & H2 & H3) Hw']%list_elem_of_filter. apply Honly; [done..|]. rewrite H2, Hlen. f_equal.
      unfold instantiate. rewrite length_zip_with. lia. }
  simpl. unfold betterMatch.
  assert (forallb (λ s, bool_decide (s ∈ instantiate template values)) (staticSegments w) = true) as ->.
  { apply forallb_forall. intros segment Hs%list_elem_of_In. apply bool_decide_eq_true.
    apply list_elem_of_filter in Hs as [Hp Hs]. by apply elem_of_instantiate. }
  destruct (staticSegments w) as [|x l]; done.
Qed.

(** C34: a request to a dynamic webhook, with values in place of its parameters, is given to this webhook, and every
    parameter gets its value.  The webhook is the only one with its id, its method and its number of segments, and is stored with this number; its
    parameters have distinct names, the id and the segments of the request are not empty and have no slash and no colon,
    and methods have no dash.  The operations before did not overlap.  No other
    webhook has exactly the path of the request, and no change of the cache failed for this path. *)
Theorem dynamic_request_routed (ops : list webhookOp) (w : WebhookEntity) (id : string) (values : list string) :
  let s := serviceAfter ops in
  let template := segments (wh_webhookPath w) in
  let url := id :: instantiate template values in
  Forall validOp ops → w ∈ ws_rows s → wh_webhookId w = Some id → wh_pathLength w = Some (length template) →
  (∀ w', w' ∈ ws_rows s → wh_webhookId w' = Some id → wh_method w' = wh_method w →
     wh_pathLength w' = wh_pathLength w → w' = w) →
  (∀ w', w' ∈ ws_rows s → rowKey w' ≠ (wh_method w, joinPath url)) →
  (wh_method w, joinPath url) ∉ cacheFailures ops →
  NoDup (filter (λ segment, isParameter segment = true) template) →
  length values = length template → Forall plainSegment url →
  ∃ params, (routeRequest (joinPath url) (wh_method w) s).2 = Some (w, params) ∧
    ∀ i name v, template !! i = Some (String ":" name) → values !! i = Some v → obj_get name params = Some (Some v).
Proof.
  intros s template url Hops Hin Hid Hlen Honly Hstatic Hbad Hnd Hvalues Hplain.
  pose proof (serviceAfter_inv ops Hops) as Hinv. fold s in Hinv.
  exists (requestParams w (joinPath url)). split.
  - unfold routeRequest, findLiveWebhook. rewrite withoutTrailingSlash_path by done.
    pose proof (findWebhook_uncached _ s (wh_method w) (joinPath url) true true Hinv) as Hfind.
    destruct (findWebhook true true (wh_method w) (joinPath url) s) as [s' r]. simpl in *. rewrite Hfind.
    + unfold findWebhook, findCached. destruct (findStaticWebhook (wh_method w) (joinPath url) s) as [w'|] eqn:Hs.
      { destruct (findStaticWebhook_elem _ _ _ _ Hs) as [Hw' Hk]. by destruct (Hstatic w' Hw'). }
      simpl. unfold url, template. erewrite findDynamicWebhook_only; [done|done..|]. eapply Forall_impl; [done|]. by intros x (_ & ? & _).
    + pose proof (wi_methods _ s Hinv) as Hm. by eapply Forall_forall in Hm.
    + apply joinPath_free; [done|]. eapply Forall_impl; [done|]. by intros x (_ & _ & ?).
    + done.
  - intros i name v Ht Hv. unfold requestParams. assert (isDynamic w = true) as ->.
    { unfold isDynamic. apply existsb_exists. exists (String ":" name). split; [|apply isParameter_colon].
      apply list_elem_of_In. by eapply list_elem_of_lookup_2. }
    rewrite segments_joinPath; [|done|eapply Forall_impl; [done|]; by intros x (_ & ? & _)].
    by eapply assignParams_values.
Qed.

Lemma dynamic_request_routed_witness :
  let w := dynamicRow "w1" "u1" "GET" "user/:id/posts" in
  ∃ params, (routeRequest "u1/user/7/posts" "GET" (serviceAfter [Store true w])).2 = Some (w, params) ∧
    obj_get "id" params = Some (Some "7").
Proof.
  intros w.
  destruct (dynamic_request_routed [Store true w] w "u1" ["-"; "7"; "-"]) as (params & Hroute & Hparams).
  - repeat constructor.
  - by left.
  - reflexivity.
  - reflexivity.
  - intros w' Hw' _ _ _. by apply list_elem_of_singleton in Hw'.
  - intros w' Hw'. apply list_elem_of_singleton in Hw' as ->. vm_compute. congruence.
  - by_eval.
  - vm_compute. repeat constructor. set_solver.
  - reflexivity.
  - vm_compute. repeat constructor; discriminate.
  - exists params. split; [exact Hroute|]. by apply (Hparams 1).
Defined.

(** ** What goes wrong *)

(** The static segments may stand anywhere in the request. *)
Theorem segments_matched_anywhere :
  let w := dynamicRow "w1" "u1" "GET" "user/:id/posts" in
  (routeRequest "u1/posts/7/user" "GET" (serviceAfter [Store true w])).2 = Some (w, [("id", Some "7")]) ∧
  (routeRequest "u1/anything/posts/user" "GET" (serviceAfter [Store true w])).2 = Some (w, [("id", Some "posts")]).
Proof. split; reflexivity. Qed.

Definition webhookNode (name id : string) : INode :=
  let n := nodeA in
  {| node_ref := node_ref n; node_id := node_id n; node_name := name; node_typeVersion := node_typeVersion n;
     node_type := node_type n; node_position := node_position n; node_disabled := node_disabled n;
     node_retryOnFail := node_retryOnFail n; node_maxTries := node_maxTries n;
     node_waitBetweenTries := node_waitBetweenTries n; node_alwaysOutputData := node_alwaysOutputData n;
     node_executeOnce := node_executeOnce n; node_onError := node_onError n; node_continueOnFail := node_continueOnFail n;
     node_parameters := []; node_rewireOutputLogTo := node_rewireOutputLogTo n; node_rest := [("webhookId", JStr id)] |}.

(** A webhook with this path and method, as the webhook node describes it *)
Definition fullPathDescription (path method : string) : IWebhookDescription :=
  {| wdesc_restartWebhook := None; wdesc_path := Some path; wdesc_isFullPath := Some true; wdesc_restart := Some false;
     wdesc_httpMethod := Some method; wdesc_nodeType := None |}.

(** The rows of a workflow with one webhook node, stored when it is activated *)
Definition activate (workflowId id path : string) (s : WebhookService) : WebhookService :=
  let node := webhookNode "Webhook" id in
  foldl (λ s data, storeWebhook true (webhookRow node data) s) s
    (descriptionWebhooks (λ name, name) workflowId node (fullPathDescription path "GET")).

Definition conflictsOf (workflowId id path : string) (s : WebhookService) : list WebhookConflict :=
  let node := webhookNode "Webhook" id in
  (findWebhookConflicts workflowId
    [(node, descriptionWebhooks (λ name, name) workflowId node (fullPathDescription path "GET"))] s).2.

(** Two workflows with the same dynamic path have different addresses, and no conflict is
    found, but the second one replaces the row of the first. *)
Theorem dynamic_webhook_replaced :
  let s1 := activate "w1" "u1" "user/:id" (serviceAfter []) in
  let s2 := activate "w2" "u2" "user/:id" s1 in
  (wh_workflowId ∘ fst) <$> (routeRequest "u1/user/7" "GET" s1).2 = Some "w1" ∧
  conflictsOf "w2" "u2" "user/:id" s1 = [] ∧
  (routeRequest "u1/user/7" "GET" s2).2 = None.
Proof. split_and!; reflexivity. Qed.

(** Two workflows with the same static path are reported. *)
Example static_conflict_found :
  let s1 := activate "w1" "u1" "user" (serviceAfter []) in
  cf_workflowId <$> conflictsOf "w2" "u2" "user" s1 = ["w1"].
Proof. reflexivity. Qed.

(** A path with a colon inside of a segment is static, but is cached by a lookup under
    another key than the one that is removed: it is found after it was deleted. *)
Theorem colon_path_stays_cached :
  let w := staticRow "w1" "GET" "a:b" in
  let s := serviceAfter [Store true w; Find true true "GET" "a:b"; Delete true "w1"] in
  ws_rows s = [] ∧ (findWebhook true true "GET" "a:b" s).2 = Some w.
Proof. split; reflexivity. Qed.

(** A lookup that reads the row before a deletion and caches it behind it makes the
    webhook reachable again. *)
Theorem lookup_during_deletion :
  let w := staticRow "w1" "GET" "user" in
  let s := serviceAfter [Store true w; Delete true "w1"] in
  findStaticWebhook "GET" "user" (serviceAfter [Store true w]) = Some w ∧ ws_rows s = [] ∧
  (findWebhook true true "GET" "user" (set_cache (map_set (keyOf "GET" "user") w (ws_cache s)) s)).2 = Some w.
Proof. split_and!; reflexivity. Qed.

(** Of a dynamic path only one method is listed. *)
Theorem dynamic_methods_incomplete :
  let s := serviceAfter [Store true (dynamicRow "w1" "u1" "GET" "user/:id"); Store true (dynamicRow "w1" "u1" "POST" "user/:id")] in
  getWebhookMethods "u1/user/7" s = ["GET"] ∧
  is_Some (routeRequest "u1/user/7" "POST" s).2.
Proof. split; [reflexivity|]. by eexists. Qed.
