(* ===== verification/TestWebhooks.v ===== *)
(** * Webhooks of manual executions

    Before a workflow with a webhook is executed by hand, the server listens for test
    requests ([packages/cli/src/webhooks/test-webhooks.ts]): the webhooks of the workflow are
    registered in a hash of the cache ([test-webhook-registrations.service.ts]), created at
    external services, and removed when a request arrives, when the user cancels, or when a
    timer fires.

    This is the state of one server.  Parameters are the code of the nodes that creates and
    deletes webhooks, whether the cache has room for a hash (it drops one that is too big), what
    the handling of a request gives, and which editors are connected to the server.  An
    operation runs from its start to its end; the deactivation that [cancelWebhook] starts
    without waiting for it is put behind its loop. *)

From S2P Require Import Prelude JsCollections NodeTypes Fixtures Connections Workflow Trigger ScheduledTasks EngineState Webhooks.

(** ** Data *)

Record IWorkflowBase := {
  we_id : string;
  we_nodes : list INode;
  we_connections : IConnections;
  we_settings : IDataObject;
}.

Record TestWebhookRegistration := {
  reg_version : nat;
  reg_pushRef : option string;
  reg_workflowEntity : IWorkflowBase;
  reg_destinationNode : option IDestinationNode;
  reg_webhook : IWebhookData;
}.

Definition TEST_WEBHOOK_REGISTRATION_VERSION : nat := 1.

Definition isTestWebhookRegistration (registration : TestWebhookRegistration) : bool :=
  bool_decide (reg_version registration = TEST_WEBHOOK_REGISTRATION_VERSION).

Inductive PushMessage :=
  | TestWebhookReceived (workflowId executionId pushRef : string)
  | TestWebhookDeleted (workflowId pushRef : string).

(** The hash in the cache, [timeouts], the timers that have not fired with the workflow that
    each cancels, the number of the next timer, the messages to editors and the commands
    [clear-test-webhooks] to other servers *)
Record TestWebhooks := {
  tw_hash : jsobj TestWebhookRegistration;
  tw_timeouts : jsobj nat;
  tw_timers : jsmap nat string;
  tw_nextTimer : nat;
  tw_sent : list PushMessage;
  tw_published : list (string * IWorkflowBase * string);
}.

Definition setHash (hash : jsobj TestWebhookRegistration) (s : TestWebhooks) : TestWebhooks :=
  {| tw_hash := hash; tw_timeouts := tw_timeouts s; tw_timers := tw_timers s; tw_nextTimer := tw_nextTimer s;
     tw_sent := tw_sent s; tw_published := tw_published s |}.

Definition setTimeouts (timeouts : jsobj nat) (s : TestWebhooks) : TestWebhooks :=
  {| tw_hash := tw_hash s; tw_timeouts := timeouts; tw_timers := tw_timers s; tw_nextTimer := tw_nextTimer s;
     tw_sent := tw_sent s; tw_published := tw_published s |}.

Definition setTimers (timers : jsmap nat string) (s : TestWebhooks) : TestWebhooks :=
  {| tw_hash := tw_hash s; tw_timeouts := tw_timeouts s; tw_timers := timers; tw_nextTimer := tw_nextTimer s;
     tw_sent := tw_sent s; tw_published := tw_published s |}.

Definition pushSend (message : PushMessage) (s : TestWebhooks) : TestWebhooks :=
  {| tw_hash := tw_hash s; tw_timeouts := tw_timeouts s; tw_timers := tw_timers s; tw_nextTimer := tw_nextTimer s;
     tw_sent := tw_sent s ++ [message]; tw_published := tw_published s |}.

Definition publishCommand (command : string * IWorkflowBase * string) (s : TestWebhooks) : TestWebhooks :=
  {| tw_hash := tw_hash s; tw_timeouts := tw_timeouts s; tw_timers := tw_timers s; tw_nextTimer := tw_nextTimer s;
     tw_sent := tw_sent s; tw_published := tw_published s ++ [command] |}.

(** [setTimeout]: a new timer that cancels the webhooks of a workflow *)
Definition startTimer (workflowId : string) (s : TestWebhooks) : TestWebhooks :=
  {| tw_hash := tw_hash s; tw_timeouts := tw_timeouts s;
     tw_timers := map_set (tw_nextTimer s) workflowId (tw_timers s); tw_nextTimer := S (tw_nextTimer s);
     tw_sent := tw_sent s; tw_published := tw_published s |}.

(** ** Registrations *)

Definition toKey (httpMethod webhookPath : string) (webhookId : option string) : string :=
  match orNonEmpty webhookId with
  | None => httpMethod +:+ "|" +:+ webhookPath
  | Some webhookId =>
      let path := if String.prefix webhookId webhookPath then behindFirstSlash webhookPath else webhookPath in
      httpMethod +:+ "|" +:+ webhookId +:+ "|" +:+ pretty (length (segments path))
  end.

Definition webhookKey (webhook : IWebhookData) : string :=
  toKey (wd_httpMethod webhook) (wd_path webhook) (wd_webhookId webhook).

Definition getRegistration (key : string) (s : TestWebhooks) : option TestWebhookRegistration :=
  registration ← obj_get key (tw_hash s);
  if isTestWebhookRegistration registration then Some registration else None.

Definition getAllKeys (s : TestWebhooks) : list string := (tw_hash s).*1.

Definition getAllRegistrations (s : TestWebhooks) : list TestWebhookRegistration :=
  filter (λ registration, isTestWebhookRegistration registration = true) (tw_hash s).*2.

Definition getRegistrationsHash (s : TestWebhooks) : jsobj TestWebhookRegistration :=
  filter (λ entry, isTestWebhookRegistration entry.2 = true) (tw_hash s).

Definition deregister (webhook : IWebhookData) (s : TestWebhooks) : TestWebhooks :=
  setHash (obj_delete (webhookKey webhook) (tw_hash s)) s.

Definition clearTimer (key : string) (s : TestWebhooks) : TestWebhooks :=
  match obj_get key (tw_timeouts s) with
  | Some timeout => setTimers (map_delete timeout (tw_timers s)) s
  | None => s
  end.

(** ** Lookup *)

Definition getActiveWebhookFromRegistration (path : string) (registration : TestWebhookRegistration)
    : option IWebhookData :=
  let dynamicWebhook := reg_webhook registration in
  let staticElements := filter (λ ele, isParameter ele = false) (segments (wd_path dynamicWebhook)) in
  let allStaticExist := forallb (λ staticEle, bool_decide (staticEle ∈ segments path)) staticElements in
  if (allStaticExist && bool_decide (0 < length staticElements)) || bool_decide (length staticElements = 0)
  then Some dynamicWebhook else None.

Definition getActiveWebhook (httpMethod path : string) (webhookId : option string) (s : TestWebhooks)
    : option IWebhookData :=
  registration ← getRegistration (toKey httpMethod path webhookId) s;
  getActiveWebhookFromRegistration path registration.

(** The webhook of a path and a method, static or dynamic, for [getWebhooksFromPath] *)
Definition webhookFromPath (path : string) (registrations : jsobj TestWebhookRegistration) (httpMethod : string)
    : option IWebhookData :=
  match obj_get (toKey httpMethod path None) registrations with
  | Some registration => Some (reg_webhook registration)
  | None =>
      match segments path with
      | [] => None
      | webhookId :: rest =>
          registration ← obj_get (toKey httpMethod path (Some webhookId)) registrations;
          getActiveWebhookFromRegistration (joinPath rest) registration
      end
  end.

Definition getWebhooksFromPath (rawPath : string) (s : TestWebhooks) : list IWebhookData :=
  omap (webhookFromPath (withoutTrailingSlash rawPath) (getRegistrationsHash s)) ["GET"; "POST"; "PUT"; "DELETE"; "PATCH"].

(** [join] with [or] before the last one *)
Definition joinMethods (methods : list string) : string :=
  match methods with
  | [method] => method
  | methods => String.concat ", " (take (length methods - 1) methods) +:+ " or " +:+ default "" (last methods)
  end.

Definition webhookNotFoundErrorMessage (path : string) (httpMethod : option string) (webhookMethods : list string) : string :=
  match httpMethod, webhookMethods with
  | Some httpMethod, _ :: _ =>
      "This webhook is not registered for " +:+ httpMethod +:+ " requests. Did you mean to make a " +:+
      joinMethods webhookMethods +:+ " request?"
  | _, _ =>
      let webhookPath := match httpMethod with Some m => m +:+ " " +:+ path | None => path end in
      "The requested webhook " +:+ quotedName webhookPath +:+ " is not registered."
  end.

Definition WebhookNotFoundError (path : string) (httpMethod : option string) (webhookMethods : list string) : jserror :=
  PlainError (webhookNotFoundErrorMessage path httpMethod webhookMethods).

Definition getWebhookMethods (rawPath : string) (s : TestWebhooks) : res (list string) :=
  let path := withoutTrailingSlash rawPath in
  match wd_httpMethod <$> getWebhooksFromPath path s with
  | [] => Throw (WebhookNotFoundError path None [])
  | webhookMethods => Ok webhookMethods
  end.

(** [throw new WebhookNotFoundError(...)] with the methods of the path, whose lookup throws if there are none *)
Definition throwNotFound {A} (path httpMethod : string) (s : TestWebhooks) : res A :=
  webhookMethods ← getWebhookMethods path s;
  Throw (WebhookNotFoundError path (Some httpMethod) webhookMethods).

Definition matchesExpectedNodeType (expected : string) (declared : option string) : bool :=
  bool_decide (expected = default "webhook" declared).

(** The webhook for a request with its parameters *)
Definition routeTestRequest (httpMethod requestPath : string) (s : TestWebhooks)
    : res (IWebhookData * string * jsobj (option string)) :=
  let path := withoutTrailingSlash requestPath in
  match getActiveWebhook httpMethod path None s with
  | Some webhook => Ok (webhook, path, [])
  | None =>
      match segments path with
      | [] => throwNotFound path httpMethod s
      | webhookId :: rest =>
          match getActiveWebhook httpMethod (joinPath rest) (Some webhookId) s with
          | None => throwNotFound path httpMethod s
          | Some webhook => Ok (webhook, wd_path webhook, assignParams (segments (wd_path webhook)) rest [])
          end
      end
  end.

(** ** Creation and deletion at external services *)

Inductive WebhookSetupMethod := CheckExists | Create | DeleteMethod.

Definition SINGLE_WEBHOOK_TRIGGERS : list string :=
  ["n8n-nodes-base.telegramTrigger"; "n8n-nodes-base.slackTrigger"; "n8n-nodes-base.facebookLeadAdsTrigger"].

Definition SingleWebhookTriggerError (triggerName : string) : jserror :=
  UserError ("Because of limitations in " +:+ triggerName +:+ ", n8n can't listen for test executions at the same time as listening for production ones. Unpublish the workflow to execute.").

Definition WebhookPathTakenError (nodeName : string) : jserror :=
  ApplicationError ("The URL path that the " +:+ quotedName nodeName +:+ " node uses is already taken. Please change it to something else.").

(** What happens to a request: the node only answers (to a ping, for example), an
    execution is started, or an error occurs *)
Inductive RequestOutcome := NotExecuted | Executed (executionId : string) | RequestFailed.

Record NeedsWebhookOptions := {
  nw_userId : string;
  nw_workflowEntity : IWorkflowBase;
  nw_runData : option IRunData;
  nw_pushRef : option string;
  nw_destinationNode : option IDestinationNode;
  nw_triggerToStartFrom : option (string * option ITaskData);
  nw_chatSessionId : option string;
  nw_workflowIsActive : bool;
}.

Section operations.
Context `{INodeTypes} (getNodeParameters : INodeType → INode → option IDataObject).
Context (encodedName : string → string) (descriptionsOf : INode → option (list IWebhookDescription)).
(** The method of the node type, on the webhook and the static data *)
Context (webhookFn : INode → IWebhookDescription → WebhookSetupMethod →
           option (IWebhookData → IDataObject → IDataObject * (jserror + option bool))).
(** Whether the cache has room for the hash *)
Context (fits : jsobj TestWebhookRegistration → bool).
Context (isMultiMain : bool) (hasPushRef : string → bool).

Definition toWorkflow (workflowEntity : IWorkflowBase) : Workflow :=
  newWorkflow getNodeParameters
    {| workflow_id := we_id workflowEntity; workflow_nodes := []; connectionsBySourceNode := [];
       connectionsByDestinationNode := []; workflow_pinData := None;
       settings_executionOrder := match obj_get "executionOrder" (we_settings workflowEntity) with
                                  | Some (JStr order) => Some order | _ => None end;
       workflow_settings := we_settings workflowEntity |}
    (we_nodes workflowEntity) (we_connections workflowEntity).

Definition runWebhookMethod (method : WebhookSetupMethod) (workflow : Workflow) (webhook : IWebhookData)
    (staticData : IDataObject) : IDataObject * (jserror + option bool) :=
  match getNode workflow (wd_node webhook) with
  | None => (staticData, inr None)
  | Some node =>
      match webhookFn node (wd_webhookDescription webhook) method with
      | None => (staticData, inr None)
      | Some webhookFn => webhookFn webhook staticData
      end
  end.

Definition createWebhookIfNotExists (workflow : Workflow) (webhook : IWebhookData) (staticData : IDataObject)
    : IDataObject * (jserror + unit) :=
  match runWebhookMethod CheckExists workflow webhook staticData with
  | (staticData, inr webhookExists) =>
      if bool_decide (webhookExists = Some true) then (staticData, inr ())
      else match runWebhookMethod Create workflow webhook staticData with
           | (staticData, inr _) => (staticData, inr ())
           | (staticData, inl e) => (staticData, inl e)
           end
  | (staticData, inl e) => (staticData, inl e)
  end.

Definition deleteWebhook (workflow : Workflow) (webhook : IWebhookData) (staticData : IDataObject)
    : IDataObject * (jserror + unit) :=
  match runWebhookMethod DeleteMethod workflow webhook staticData with
  | (staticData, inr _) => (staticData, inr ())
  | (staticData, inl e) => (staticData, inl e)
  end.

(** ** Operations *)

Definition register (registration : TestWebhookRegistration) (s : TestWebhooks) : TestWebhooks * (jserror + unit) :=
  let hash := obj_set (webhookKey (reg_webhook registration)) registration (tw_hash s) in
  if fits hash then (setHash hash s, inr ())
  else (setHash [] s, inl (UserError "Test webhook registration failed: workflow is too big. Remove pinned data")).

Fixpoint deactivateEach (workflow : Workflow) (webhooks : list IWebhookData) (staticData : IDataObject) (s : TestWebhooks)
    : TestWebhooks * (jserror + unit) :=
  match webhooks with
  | [] => (s, inr ())
  | webhook :: webhooks =>
      match deleteWebhook workflow webhook (default staticData (wd_staticData webhook)) with
      | (staticData, inr _) => deactivateEach workflow webhooks staticData (deregister webhook s)
      | (_, inl e) => (s, inl e)
      end
  end.

(** [staticData]: that of the workflow before *)
Definition deactivateWebhooks (workflow : Workflow) (staticData : IDataObject) (s : TestWebhooks)
    : TestWebhooks * (jserror + unit) :=
  deactivateEach workflow
    (filter (λ webhook, wd_workflowId webhook = workflow_id workflow) (reg_webhook <$> getAllRegistrations s)) staticData s.

Definition executeWebhook (httpMethod requestPath : string) (expectedNodeType : option string)
    (outcome : IWebhookData → RequestOutcome) (s : TestWebhooks)
    : TestWebhooks * res (IWebhookData * jsobj (option string)) :=
  match routeTestRequest httpMethod requestPath s with
  | Throw e => (s, Throw e)
  | OutOfFuel => (s, OutOfFuel)
  | Ok (webhook, path, params) =>
      if negb (from_option (λ expected, matchesExpectedNodeType expected (wdesc_nodeType (wd_webhookDescription webhook)))
                 true expectedNodeType)
      then (s, throwNotFound path httpMethod s) else
      let key := webhookKey webhook in
      match getRegistration key s with
      | None => (s, throwNotFound path httpMethod s)
      | Some registration =>
          let workflow := toWorkflow (reg_workflowEntity registration) in
          match getNode workflow (wd_node webhook) with
          | None => (s, Throw (PlainError "Could not find node to process webhook."))
          | Some _ =>
              let received := Ok (webhook, params) in
              match outcome webhook with
              | NotExecuted => (s, received)
              | outcome =>
                  let s := match outcome, reg_pushRef registration with
                           | Executed executionId, Some pushRef =>
                               pushSend (TestWebhookReceived (wd_workflowId webhook) executionId pushRef) s
                           | _, _ => s
                           end in
                  match orNonEmpty (reg_pushRef registration) with
                  | Some pushRef =>
                      if isMultiMain && negb (hasPushRef pushRef)
                      then (publishCommand (key, reg_workflowEntity registration, pushRef) s, received)
                      else ((deactivateWebhooks workflow [] (clearTimer key s)).1, received)
                  | None => ((deactivateWebhooks workflow [] (clearTimer key s)).1, received)
                  end
              end
          end
      end
  end.

Definition handleClearTestWebhooks (key : string) (workflowEntity : IWorkflowBase) (pushRef : string) (s : TestWebhooks)
    : TestWebhooks :=
  if hasPushRef pushRef then (deactivateWebhooks (toWorkflow workflowEntity) [] (clearTimer key s)).1 else s.

(** The loop of [cancelWebhook], with the first workflow that was found *)
Fixpoint cancelKeys (workflowId : string) (keys : list string) (found : option IWorkflowBase) (s : TestWebhooks)
    : TestWebhooks * option IWorkflowBase :=
  match keys with
  | [] => (s, found)
  | key :: keys =>
      match getRegistration key s with
      | None => cancelKeys workflowId keys found s
      | Some registration =>
          if bool_decide (we_id (reg_workflowEntity registration) ≠ workflowId) then cancelKeys workflowId keys found s
          else
            let s := clearTimer key s in
            let s := match reg_pushRef registration with
                     | Some pushRef => pushSend (TestWebhookDeleted workflowId pushRef) s
                     | None => s
                     end in
            cancelKeys workflowId keys (Some (default (reg_workflowEntity registration) found)) s
      end
  end.

Definition cancelWebhook (workflowId : string) (s : TestWebhooks) : TestWebhooks * bool :=
  let '(s, found) := cancelKeys workflowId (getAllKeys s) None s in
  match found with
  | Some workflowEntity => ((deactivateWebhooks (toWorkflow workflowEntity) [] s).1, true)
  | None => (s, false)
  end.

(** The timer fires, if it was not cleared. *)
Definition timerFires (timer : nat) (s : TestWebhooks) : TestWebhooks :=
  match map_get timer (tw_timers s) with
  | Some workflowId => (cancelWebhook workflowId (setTimers (map_delete timer (tw_timers s)) s)).1
  | None => s
  end.

(** ** Listening *)

(** The path of a webhook that is registered: that of a chat has the session. *)
Definition withTestPath (workflow : Workflow) (chatSessionId : option string) (webhook : IWebhookData) : IWebhookData :=
  let isChat := bool_decide (node_type <$> getNode workflow (wd_node webhook) =
                             Some "@n8n/n8n-nodes-langchain.chatTrigger") in
  let path := match orNonEmpty chatSessionId with
              | Some sessionId =>
                  if bool_decide (wd_node webhook ≠ "") && isChat then workflow_id workflow +:+ "/" +:+ sessionId
                  else withoutTrailingSlash (wd_path webhook)
              | None => withoutTrailingSlash (wd_path webhook)
              end in
  {| wd_httpMethod := wd_httpMethod webhook; wd_node := wd_node webhook; wd_path := path;
     wd_webhookDescription := wd_webhookDescription webhook; wd_workflowId := wd_workflowId webhook;
     wd_webhookId := wd_webhookId webhook; wd_isTest := wd_isTest webhook; wd_userId := wd_userId webhook;
     wd_staticData := wd_staticData webhook |}.

(** [cacheableWebhook], at first without static data *)
Definition cacheableWebhook (userId : string) (staticData : option IDataObject) (webhook : IWebhookData) : IWebhookData :=
  {| wd_httpMethod := wd_httpMethod webhook; wd_node := wd_node webhook; wd_path := wd_path webhook;
     wd_webhookDescription := wd_webhookDescription webhook; wd_workflowId := wd_workflowId webhook;
     wd_webhookId := wd_webhookId webhook; wd_isTest := Some true; wd_userId := Some userId;
     wd_staticData := staticData |}.

Definition registrationFor (options : NeedsWebhookOptions) (staticData : option IDataObject) (webhook : IWebhookData)
    : TestWebhookRegistration :=
  {| reg_version := 1; reg_pushRef := nw_pushRef options; reg_workflowEntity := nw_workflowEntity options;
     reg_destinationNode := nw_destinationNode options;
     reg_webhook := cacheableWebhook (nw_userId options) staticData webhook |}.

(** The condition for [WebhookPathTakenError] *)
Definition pathTaken (userId workflowId : string) (webhook : IWebhookData) (registrationByKey : option TestWebhookRegistration)
    : bool :=
  match registrationByKey with
  | None => false
  | Some registration =>
      negb (bool_decide (is_Some (orNonEmpty (wd_webhookId webhook)))) &&
      negb (bool_decide (wd_isTest (reg_webhook registration) = Some true)) &&
      bool_decide (wd_userId (reg_webhook registration) ≠ Some userId) &&
      bool_decide (wd_workflowId (reg_webhook registration) ≠ workflowId)
  end.

(** The [try] for one webhook: registration, creation, registration with the static data *)
Definition registerWebhook (options : NeedsWebhookOptions) (workflow : Workflow) (webhook : IWebhookData)
    (staticData : IDataObject) (s : TestWebhooks) : TestWebhooks * IDataObject * (jserror + unit) :=
  match register (registrationFor options None webhook) s with
  | (s, inr _) =>
      match createWebhookIfNotExists workflow webhook staticData with
      | (staticData, inr _) =>
          let '(s, registered) := register (registrationFor options (Some staticData) webhook) s in
          (s, staticData, registered)
      | (staticData, failed) => (s, staticData, failed)
      end
  | (s, failed) => (s, staticData, failed)
  end.

Fixpoint listenForEach (options : NeedsWebhookOptions) (workflow : Workflow) (timeout : nat)
    (webhooks : list IWebhookData) (staticData : IDataObject) (s : TestWebhooks) : TestWebhooks * res bool :=
  match webhooks with
  | [] => (s, Ok true)
  | webhook :: webhooks =>
      let webhook := withTestPath workflow (nw_chatSessionId options) webhook in
      let key := webhookKey webhook in
      if from_option (obj_has (wd_node webhook)) false (nw_runData options) then (s, Ok false) else
      if pathTaken (nw_userId options) (workflow_id workflow) webhook (getRegistration key s)
      then (s, Throw (WebhookPathTakenError (wd_node webhook))) else
      match registerWebhook options workflow webhook staticData s with
      | (s, staticData, inr _) =>
          listenForEach options workflow timeout webhooks staticData
            (setTimeouts (obj_set key timeout (tw_timeouts s)) s)
      | (s, staticData, inl error) =>
          match deactivateWebhooks workflow staticData s with
          | (s, inr _) => (setTimeouts (obj_delete key (tw_timeouts s)) s, Throw error)
          | (s, inl e) => (s, Throw e)
          end
      end
  end.

Definition needsWebhook (options : NeedsWebhookOptions) (s : TestWebhooks) : TestWebhooks * res bool :=
  let workflowEntity := nw_workflowEntity options in
  if bool_decide (we_id workflowEntity = "") then (s, Throw (UnexpectedError "Detected ID-less worklfow")) else
  let workflow := toWorkflow workflowEntity in
  match getWorkflowWebhooks encodedName descriptionsOf workflow (nw_destinationNode options) true with
  | Throw e => (s, Throw e)
  | OutOfFuel => (s, OutOfFuel)
  | Ok webhooks =>
      match nw_triggerToStartFrom options with
      | Some (_, Some _) => (s, Ok false)
      | trigger =>
          let webhooks := match trigger with
                          | Some (name, _) => filter (λ webhook, wd_node webhook = name) webhooks
                          | None => webhooks
                          end in
          if negb (existsb (λ webhook, negb (bool_decide
               (wdesc_restartWebhook (wd_webhookDescription webhook) = Some true))) webhooks) then (s, Ok false) else
          let typeOf webhook := default "" (node_type <$> getNode workflow (wd_node webhook)) in
          let single := if nw_workflowIsActive options
                        then head (filter (λ webhook, typeOf webhook ∈ SINGLE_WEBHOOK_TRIGGERS) webhooks) else None in
          match single with
          | Some webhook => (s, Throw (SingleWebhookTriggerError (default "" (node_name <$> getNode workflow (wd_node webhook)))))
          | None =>
              let timeout := tw_nextTimer s in
              listenForEach options workflow timeout webhooks [] (startTimer (workflow_id workflow) s)
          end
      end
  end.

Definition findAccessControlOptions (path httpMethod : string) (s : TestWebhooks) : option json :=
  key ← head (filter (λ key, includes path key = true ∧ String.prefix httpMethod key = true) (getAllKeys s));
  registration ← getRegistration key s;
  webhookNode ← head (filter (λ node,
      obj_get "path" (node_parameters node) = Some (JStr path) ∧
      (match obj_get "httpMethod" (node_parameters node) with
       | None | Some JNull => JStr "GET" | Some method => method end) = JStr httpMethod ∧
      from_option nt_webhook false (nodeTypeOf node) = true)
    (workflow_nodes (toWorkflow (reg_workflowEntity registration))).*2);
  obj_get "options" (node_parameters webhookNode).
End operations.
