(* ===== verification/TestWebhookSafety.v ===== *)
(** * Test webhooks are removed

    Every test webhook that is registered has a timer that removes it with the other
    webhooks of its workflow, whatever was registered, requested and cancelled before. *)

From S2P Require Import Prelude JsCollections NodeTypes Fixtures Connections Workflow Trigger ScheduledTasks EngineState Webhooks WebhookLookup TestWebhooks.

(** A server that has just been started *)
Definition noTestWebhooks : TestWebhooks :=
  {| tw_hash := []; tw_timeouts := []; tw_timers := []; tw_nextTimer := 0; tw_sent := []; tw_published := [] |}.

(** ** The invariant *)

Definition entityId (registration : TestWebhookRegistration) : string := we_id (reg_workflowEntity registration).

(** A registration is stored under the key of its webhook. *)
Record regOk (key : string) (registration : TestWebhookRegistration) : Prop := {
  ro_key : key = webhookKey (reg_webhook registration);
  ro_version : isTestWebhookRegistration registration = true;
  ro_test : wd_isTest (reg_webhook registration) = Some true;
  ro_workflow : wd_workflowId (reg_webhook registration) = entityId registration;
}.

(** The timer that is stored for the key is pending and cancels the workflow. *)
Definition timed (s : TestWebhooks) (key : string) (registration : TestWebhookRegistration) : Prop :=
  ∃ timer, obj_get key (tw_timeouts s) = Some timer ∧ map_get timer (tw_timers s) = Some (entityId registration).

(** The invariant; the registrations of the workflow [id] need not have a timer. *)
Record invBut (id : string) (s : TestWebhooks) : Prop := {
  ib_keys : NoDup (tw_hash s).*1;
  ib_regs : ∀ key reg, (key, reg) ∈ tw_hash s → regOk key reg;
  ib_timed : ∀ key reg, (key, reg) ∈ tw_hash s → entityId reg ≠ id → timed s key reg;
  ib_fresh : ∀ timer, timer ∈ (tw_timers s).*1 → timer < tw_nextTimer s;
}.

Record testInv (s : TestWebhooks) : Prop := {
  ti_but : ∀ id, invBut id s;
  ti_timed : ∀ key reg, (key, reg) ∈ tw_hash s → timed s key reg;
}.

(** The timers of the webhooks of [id] cancel no other workflow. *)
Definition owned (id : string) (s : TestWebhooks) : Prop :=
  ∀ key reg timer id', (key, reg) ∈ tw_hash s → entityId reg = id →
    obj_get key (tw_timeouts s) = Some timer → map_get timer (tw_timers s) = Some id' → id' = id.

Lemma testInv_owned id s : testInv s → owned id s.
Proof.
  intros Hinv key reg timer id' Hin <- Ht Hid. destruct (ti_timed s Hinv key reg Hin) as (timer' & Ht' & Hid').
  congruence.
Qed.

(** No registration of [id] is left. *)
Lemma testInv_of_but id s : invBut id s → (∀ key reg, (key, reg) ∈ tw_hash s → entityId reg ≠ id) → testInv s.
Proof.
  intros [Hkeys Hregs Htimed Hfresh] Hnone. split; [intros id'; split; eauto|]. eauto.
Qed.

(** [getRegistration] finds every registration. *)
Lemma getRegistration_elem id s key reg : invBut id s → getRegistration key s = Some reg ↔ (key, reg) ∈ tw_hash s.
Proof.
  intros Hinv. unfold getRegistration, obj_get. split.
  - destruct (map_get key (tw_hash s)) as [reg'|] eqn:Hg; [|done]. simpl. destruct (isTestWebhookRegistration reg'); [|done].
    intros [= <-]. by apply map_get_elem_of.
  - intros Hin. rewrite (map_get_unique key reg) by (by try apply (ib_keys id)). simpl.
    by rewrite (ro_version key reg) by (by apply (ib_regs id s Hinv)).
Qed.

(** ** Deactivation *)

Section safety.
Context `{INodeTypes} (getNodeParameters : INodeType → INode → option IDataObject).
Context (encodedName : string → string) (descriptionsOf : INode → option (list IWebhookDescription)).
Context (webhookFn : INode → IWebhookDescription → WebhookSetupMethod →
           option (IWebhookData → IDataObject → IDataObject * (jserror + option bool))).
Context (fits : jsobj TestWebhookRegistration → bool) (isMultiMain : bool) (hasPushRef : string → bool).

(** The code of the nodes deletes a webhook without an error. *)
Context (delete_ok : ∀ node d f webhook staticData, webhookFn node d DeleteMethod = Some f →
           ∃ b, (f webhook staticData).2 = inr b).

Lemma deleteWebhook_ok w webhook staticData : (deleteWebhook webhookFn w webhook staticData).2 = inr ().
Proof.
  unfold deleteWebhook, runWebhookMethod. destruct (getNode w (wd_node webhook)) as [node|]; [|done].
  destruct (webhookFn node (wd_webhookDescription webhook) DeleteMethod) as [f|] eqn:Hf; [|done].
  destruct (delete_ok _ _ f webhook staticData Hf) as [b Hb]. destruct (f webhook staticData) as [sd r]. simpl in *.
  by subst r.
Qed.

Lemma deactivateEach_spec w webhooks staticData s :
  deactivateEach webhookFn w webhooks staticData s =
  (setHash (filter (λ e, e.1 ∉ webhookKey <$> webhooks) (tw_hash s)) s, inr ()).
Proof.
  revert staticData s. induction webhooks as [|webhook webhooks IH]; intros staticData s; simpl.
  - rewrite filter_all; [by destruct s|]. intros e _. apply not_elem_of_nil.
  - pose proof (deleteWebhook_ok w webhook (default staticData (wd_staticData webhook))) as Hok.
    destruct (deleteWebhook webhookFn w webhook _) as [sd r]. simpl in Hok. subst r. rewrite IH. f_equal.
    unfold deregister, setHash, obj_delete, map_delete. simpl. f_equal. rewrite list_filter_filter.
    apply list_filter_iff. intros e. rewrite not_elem_of_cons. tauto.
Qed.

Definition withoutWorkflow (id : string) (s : TestWebhooks) : TestWebhooks :=
  setHash (filter (λ e, entityId e.2 ≠ id) (tw_hash s)) s.

Lemma deactivateWebhooks_spec id w staticData s :
  invBut id s → workflow_id w = id →
  deactivateWebhooks webhookFn w staticData s = (withoutWorkflow id s, inr ()).
Proof.
  intros [Hkeys Hregs _ _] Hid. unfold deactivateWebhooks. rewrite deactivateEach_spec. f_equal.
  unfold withoutWorkflow. f_equal. apply filter_agree. intros [key reg] Hin. simpl.
  pose proof (Hregs key reg Hin) as [Hkey Hversion _ Hworkflow]. split.
  - intros Hno Heq. apply Hno. apply list_elem_of_fmap. exists (reg_webhook reg). split; [done|].
    apply list_elem_of_filter. split; [congruence|]. apply list_elem_of_fmap. exists reg. split; [done|].
    apply list_elem_of_filter. split; [done|]. apply list_elem_of_fmap. by exists (key, reg).
  - intros Hne Hdel. apply Hne. apply list_elem_of_fmap in Hdel as (webhook & Hk & Hw).
    apply list_elem_of_filter in Hw as [Hwid Hw]. apply list_elem_of_fmap in Hw as (reg' & -> & Hreg').
    apply list_elem_of_filter in Hreg' as [_ Hreg']. apply list_elem_of_fmap in Hreg' as ([key' reg''] & -> & Hin').
    pose proof (Hregs key' reg'' Hin') as [Hkey' _ _ Hworkflow']. simpl in *.
    assert (reg'' = reg) as ->; [|congruence]. subst key' key. rewrite <- Hk in Hin'.
    pose proof (map_get_unique _ _ _ Hkeys Hin) as H1. pose proof (map_get_unique _ _ _ Hkeys Hin') as H2. congruence.
Qed.

Lemma withoutWorkflow_inv id s : invBut id s → testInv (withoutWorkflow id s).
Proof.
  intros [Hkeys Hregs Htimed Hfresh]. apply (testInv_of_but id).
  - split; simpl; [by apply NoDup_fmap_filter| | |done].
    + intros key reg [_ Hin]%list_elem_of_filter. eauto.
    + intros key reg [_ Hin]%list_elem_of_filter Hne. by apply Htimed.
  - intros key reg [Hne _]%list_elem_of_filter. done.
Qed.

(** ** Requests and cancellation *)

Lemma pushSend_inv id message s : invBut id s → invBut id (pushSend message s).
Proof. by intros [? ? ? ?]. Qed.

(** A timer of the workflow is removed. *)
Lemma removeTimer_inv id timer s :
  invBut id s → (∀ id', map_get timer (tw_timers s) = Some id' → id' = id) →
  invBut id (setTimers (map_delete timer (tw_timers s)) s).
Proof.
  intros [Hkeys Hregs Htimed Hfresh] Htimer. split; simpl; [done|done| |].
  - intros key reg Hin Hne. destruct (Htimed key reg Hin Hne) as (timer' & Ht' & Hid'). exists timer'. split; [done|]. simpl.
    rewrite map_get_delete. rewrite bool_decide_false; [done|]. intros ->. apply Hne. by apply Htimer.
  - intros timer' Hin. apply Hfresh. apply list_elem_of_fmap in Hin as (e & -> & [He _]%elem_of_map_delete).
    by apply list_elem_of_fmap_2.
Qed.

Lemma clearTestTimer_inv id key reg s :
  invBut id s → owned id s → (key, reg) ∈ tw_hash s → entityId reg = id →
  invBut id (clearTimer key s) ∧ owned id (clearTimer key s) ∧ tw_hash (clearTimer key s) = tw_hash s.
Proof.
  intros Hinv Howned Hin Hid. unfold clearTimer. destruct (obj_get key (tw_timeouts s)) as [timer|] eqn:Ht; [|done].
  split_and!; [|..|done].
  - apply removeTimer_inv; [done|]. intros id'. by eapply Howned.
  - intros key' reg' timer' id' Hin' Hid' Ht'. simpl. rewrite map_get_delete. case_bools; [done|]. by eapply Howned.
Qed.

Lemma requested_inv id key reg w s :
  testInv s → (key, reg) ∈ tw_hash s → entityId reg = id → workflow_id w = id →
  testInv (deactivateWebhooks webhookFn w [] (clearTimer key s)).1.
Proof.
  intros Hinv Hin Hid Hw. destruct (clearTestTimer_inv id key reg s) as (Hbut & _ & _); [by apply Hinv|by apply testInv_owned|done..|].
  rewrite (deactivateWebhooks_spec id) by done. by apply withoutWorkflow_inv.
Qed.

Lemma cancelKeys_inv id keys found s :
  invBut id s → owned id s → from_option (λ entity, we_id entity = id) True found →
  let '(s', found') := cancelKeys id keys found s in
  invBut id s' ∧ tw_hash s' = tw_hash s ∧ from_option (λ entity, we_id entity = id) True found' ∧
  (found' = None → found = None ∧ ∀ key reg, key ∈ keys → (key, reg) ∈ tw_hash s → entityId reg ≠ id).
Proof.
  revert found s. induction keys as [|key keys IH]; intros found s Hinv Howned Hfound; simpl.
  { split_and!; [done..|]. intros ->. split; [done|]. intros key reg []%elem_of_nil. }
  destruct (getRegistration key s) as [reg|] eqn:Hg.
  - pose proof (proj1 (getRegistration_elem id s key reg Hinv) Hg) as Hin.
    destruct (bool_decide_reflect (we_id (reg_workflowEntity reg) ≠ id)) as [Hne|Hid].
    + specialize (IH found s Hinv Howned Hfound). destruct (cancelKeys id keys found s) as [s' found'].
      destruct IH as (? & ? & ? & Hnone). split_and!; [done..|]. intros Hf. destruct (Hnone Hf) as [-> Hno].
      split; [done|]. intros key' reg' [->|Hk]%elem_of_cons Hin'; [|by eapply Hno].
      apply (getRegistration_elem id s key reg' Hinv) in Hin'. unfold entityId. congruence.
    + apply dec_stable in Hid. destruct (clearTestTimer_inv id key reg s Hinv Howned Hin Hid) as (Hinv' & Howned' & Hhash).
      match goal with |- context [cancelKeys id keys ?f ?s1] => specialize (IH f s1) end.
      destruct (cancelKeys id keys _ _) as [s' found']. destruct IH as (? & Hh & ? & Hnone).
      * destruct (reg_pushRef reg); [by apply pushSend_inv|done].
      * by destruct (reg_pushRef reg).
      * by destruct found.
      * split_and!; [done| |done|intros Hf; by destruct (Hnone Hf)]. rewrite Hh, <- Hhash. by destruct (reg_pushRef reg).
  - specialize (IH found s Hinv Howned Hfound). destruct (cancelKeys id keys found s) as [s' found'].
    destruct IH as (? & ? & ? & Hnone). split_and!; [done..|]. intros Hf. destruct (Hnone Hf) as [-> Hno].
    split; [done|]. intros key' reg' [->|Hk]%elem_of_cons Hin'; [|by eapply Hno].
    apply (getRegistration_elem id s key reg' Hinv) in Hin'. congruence.
Qed.

Lemma cancelWebhook_spec id s :
  invBut id s → owned id s →
  let s' := (cancelWebhook getNodeParameters webhookFn id s).1 in
  testInv s' ∧ tw_hash s' = filter (λ e, entityId e.2 ≠ id) (tw_hash s).
Proof.
  intros Hinv Howned. unfold cancelWebhook. pose proof (cancelKeys_inv id (getAllKeys s) None s Hinv Howned I) as Hc.
  destruct (cancelKeys id (getAllKeys s) None s) as [s1 [entity|]]; destruct Hc as (Hinv1 & Hhash & Hid & Hnone).
  - rewrite (deactivateWebhooks_spec id) by done. simpl. split; [by apply withoutWorkflow_inv|]. by rewrite Hhash.
  - destruct (Hnone eq_refl) as [_ Hno]. assert (∀ key reg, (key, reg) ∈ tw_hash s → entityId reg ≠ id) as Hall.
    { intros key reg Hin. apply (Hno key); [|done]. unfold getAllKeys. apply list_elem_of_fmap. by exists (key, reg). }
    simpl. rewrite Hhash. split; [apply (testInv_of_but id); [done|by rewrite Hhash]|]. symmetry. apply filter_all.
    intros [key reg] Hin. by eapply Hall.
Qed.

(** Firing the timer of a workflow removes its webhooks. *)
Lemma timerFires_spec timer id s :
  testInv s → map_get timer (tw_timers s) = Some id →
  let s' := timerFires getNodeParameters webhookFn timer s in
  testInv s' ∧ tw_hash s' = filter (λ e, entityId e.2 ≠ id) (tw_hash s).
Proof.
  intros Hinv Ht. unfold timerFires. rewrite Ht. apply (cancelWebhook_spec id (setTimers _ s)).
  - apply removeTimer_inv; [by apply Hinv|]. congruence.
  - intros key reg timer' id' Hin Hid Ht'. simpl. rewrite map_get_delete. case_bools; [done|].
    by eapply (testInv_owned id s Hinv).
Qed.

Lemma executeWebhook_inv method path expected outcome s :
  testInv s → testInv (executeWebhook getNodeParameters webhookFn isMultiMain hasPushRef method path expected outcome s).1.
Proof.
  intros Hinv. unfold executeWebhook. destruct (routeTestRequest method path s) as [[[webhook path'] params]| |]; [|done..].
  destruct (negb _); [done|]. destruct (getRegistration (webhookKey webhook) s) as [reg|] eqn:Hg; [|done].
  destruct (getNode _ _); [|done].
  assert (∀ s1, testInv s1 → tw_hash s1 = tw_hash s →
    testInv (deactivateWebhooks webhookFn (toWorkflow getNodeParameters (reg_workflowEntity reg)) []
              (clearTimer (webhookKey webhook) s1)).1) as Hreq.
  { intros s1 Hinv1 Hhash. apply (requested_inv (entityId reg) _ reg); [done| |done..]. rewrite Hhash.
    by apply (getRegistration_elem "" s _ _ (ti_but s Hinv "")). }
  assert (∀ message, testInv (pushSend message s)) as Hsend.
  { intros message. split; [intros id; apply pushSend_inv; apply Hinv|apply Hinv]. }
  assert (∀ command s1, testInv s1 → testInv (publishCommand command s1)) as Hpub.
  { intros command s1 [Hbut Htimed]. split; [|done]. intros id. by destruct (Hbut id). }
  destruct (outcome webhook) as [|executionId|]; [done|..]; destruct (reg_pushRef reg); simpl;
    repeat match goal with |- context [match orNonEmpty ?o with _ => _ end] => destruct (orNonEmpty o) end;
    repeat case_match; simpl; auto.
Qed.

(** ** Listening *)

Lemma obj_set_entries {V} (o : jsobj V) k v k' v' :
  NoDup o.*1 → (k', v') ∈ obj_set k v o → (k' = k ∧ v' = v) ∨ (k' ≠ k ∧ (k', v') ∈ o).
Proof.
  intros Hnd Hin. pose proof (map_get_unique _ _ _ (obj_set_NoDup k v o Hnd) Hin) as Hg.
  change (obj_get k' (obj_set k v o) = Some v') in Hg. rewrite obj_get_set in Hg. case_bools; [left; by simplify_eq|].
  right. split; [done|]. by apply map_get_elem_of.
Qed.

(** The webhook under [key] belongs to [id]; all others have a timer. *)
Record registering (key id : string) (s : TestWebhooks) : Prop := {
  rg_keys : NoDup (tw_hash s).*1;
  rg_regs : ∀ key reg, (key, reg) ∈ tw_hash s → regOk key reg;
  rg_timed : ∀ key' reg, (key', reg) ∈ tw_hash s → key' = key ∧ entityId reg = id ∨ key' ≠ key ∧ timed s key' reg;
  rg_fresh : ∀ timer, timer ∈ (tw_timers s).*1 → timer < tw_nextTimer s;
}.

Lemma registering_but key id s : registering key id s → invBut id s.
Proof.
  intros [Hkeys Hregs Htimed Hfresh]. split; [done..| |done]. intros key' reg Hin Hne.
  by destruct (Htimed key' reg Hin) as [[_ ?]|[_ ?]].
Qed.

Lemma register_inv (options : NeedsWebhookOptions) staticData webhook s :
  let key := webhookKey webhook in
  let id := we_id (nw_workflowEntity options) in
  wd_workflowId webhook = id → (testInv s ∨ registering key id s) →
  registering key id (register fits (registrationFor options staticData webhook) s).1.
Proof.
  intros key id Hid Hs.
  assert (NoDup (tw_hash s).*1 ∧ (∀ key reg, (key, reg) ∈ tw_hash s → regOk key reg) ∧
    (∀ key' reg, (key', reg) ∈ tw_hash s → key' ≠ key → timed s key' reg) ∧
    ∀ timer, timer ∈ (tw_timers s).*1 → timer < tw_nextTimer s) as (Hkeys & Hregs & Htimed & Hfresh).
  { destruct Hs as [[Hbut Ht]|[Hk Hr Ht Hf]]; [destruct (Hbut id)|]; split_and!; eauto.
    intros key' reg Hin Hne. by destruct (Ht key' reg Hin) as [[? _]|[_ ?]]. }
  unfold register. destruct (fits _); simpl.
  - split; simpl; [by apply obj_set_NoDup| | |done].
    + intros key' reg [[-> ->]|[_ Hin]]%obj_set_entries; [by split|auto|done].
    + intros key' reg [[-> ->]|[Hne Hin]]%obj_set_entries; [by left| |done]. right. split; [done|].
      destruct (Htimed key' reg Hin Hne) as (timer & ? & ?). by exists timer.
  - split; simpl; [constructor|by intros ? ? []%elem_of_nil..|done].
Qed.

Lemma register_timeouts reg s :
  tw_timeouts (register fits reg s).1 = tw_timeouts s ∧ tw_timers (register fits reg s).1 = tw_timers s.
Proof. unfold register. by destruct (fits _). Qed.

Lemma registerWebhook_inv (options : NeedsWebhookOptions) w webhook staticData s :
  let key := webhookKey webhook in
  let id := we_id (nw_workflowEntity options) in
  wd_workflowId webhook = id → testInv s →
  let s' := (registerWebhook webhookFn fits options w webhook staticData s).1.1 in
  registering key id s' ∧ tw_timeouts s' = tw_timeouts s ∧ tw_timers s' = tw_timers s.
Proof.
  intros key id Hid Hinv. unfold registerWebhook.
  pose proof (register_inv options None webhook s Hid (or_introl Hinv)) as H1.
  pose proof (register_timeouts (registrationFor options None webhook) s) as [Ht1 Ht2].
  destruct (register fits (registrationFor options None webhook) s) as [s1 [e|[]]]; simpl in *; [done|].
  destruct (createWebhookIfNotExists webhookFn w webhook staticData) as [sd [e|[]]]; simpl; [done|].
  pose proof (register_inv options (Some sd) webhook s1 Hid (or_intror H1)) as H2.
  pose proof (register_timeouts (registrationFor options (Some sd) webhook) s1) as [Ht3 Ht4].
  destruct (register fits (registrationFor options (Some sd) webhook) s1) as [s2 r]. simpl in *.
  by rewrite Ht3, Ht4, Ht1, Ht2.
Qed.

(** After its registration a webhook gets the timer. *)
Lemma registered_inv key id timeout s :
  registering key id s → map_get timeout (tw_timers s) = Some id →
  testInv (setTimeouts (obj_set key timeout (tw_timeouts s)) s).
Proof.
  intros [Hkeys Hregs Htimed Hfresh] Htimer.
  assert (∀ key' reg, (key', reg) ∈ tw_hash s → timed (setTimeouts (obj_set key timeout (tw_timeouts s)) s) key' reg) as Hall.
  { intros key' reg Hin. destruct (Htimed key' reg Hin) as [[-> Hid]|[Hne (timer & H1 & H2)]]; unfold timed; simpl.
    - exists timeout. split; [apply obj_get_set_eq|congruence].
    - exists timer. by rewrite obj_get_set_ne. }
  split; [|done]. intros id'. split; [done..| |done]. eauto.
Qed.

(** After a failure the webhooks of the workflow are removed. *)
Lemma failed_inv key id s :
  registering key id s →
  let s' := withoutWorkflow id s in testInv (setTimeouts (obj_delete key (tw_timeouts s')) s').
Proof.
  intros [Hkeys Hregs Htimed Hfresh]. simpl. set (s' := setTimeouts _ _).
  assert (∀ key' reg, (key', reg) ∈ tw_hash s' → (key', reg) ∈ tw_hash s ∧ timed s' key' reg) as Hall.
  { intros key' reg [Hne Hin]%list_elem_of_filter. split; [done|].
    destruct (Htimed key' reg Hin) as [[_ ?]|[Hk (timer & H1 & H2)]]; [done|]. exists timer. split; [|done].
    unfold s'. simpl. rewrite obj_get_delete. by rewrite bool_decide_false. }
  split; [intros id'; split|]; [by apply NoDup_fmap_filter| | |done|].
  - intros key' reg Hin. apply Hregs. by apply Hall.
  - intros key' reg Hin _. by apply Hall.
  - intros key' reg Hin. by apply Hall.
Qed.

Lemma listenForEach_inv options w timeout webhooks staticData s :
  let id := we_id (nw_workflowEntity options) in
  workflow_id w = id → (∀ webhook, webhook ∈ webhooks → wd_workflowId webhook = id) →
  testInv s → map_get timeout (tw_timers s) = Some id →
  testInv (listenForEach webhookFn fits options w timeout webhooks staticData s).1.
Proof.
  intros id Hw. revert staticData s. induction webhooks as [|webhook webhooks IH]; intros staticData s Hids Hinv Htimer; [done|].
  cbn [listenForEach]. set (webhook' := withTestPath w (nw_chatSessionId options) webhook).
  destruct (from_option _ false (nw_runData options)); [done|]. destruct (pathTaken _ _ _ _); [done|].
  pose proof (registerWebhook_inv options w webhook' staticData s (Hids webhook ltac:(by left)) Hinv) as Hr.
  destruct (registerWebhook webhookFn fits options w webhook' staticData s) as [[s1 sd] r]. simpl in Hr.
  destruct Hr as (Hreg & Ht1 & Ht2). destruct r as [error|[]].
  - rewrite (deactivateWebhooks_spec id) by (by try eapply registering_but). by apply failed_inv.
  - apply IH; [intros x ?; apply Hids; by right| |by rewrite <- Ht2 in Htimer].
    apply (registered_inv _ id); [done|congruence].
Qed.

Lemma startTimer_inv id s : testInv s → testInv (startTimer id s).
Proof.
  intros Hinv. assert (∀ key reg, (key, reg) ∈ tw_hash s → timed (startTimer id s) key reg) as Hall.
  { intros key reg Hin. destruct (ti_timed s Hinv key reg Hin) as (timer & H1 & H2). exists timer. split; [done|]. simpl.
    rewrite map_get_set. rewrite bool_decide_false; [done|]. intros ->.
    assert (tw_nextTimer s < tw_nextTimer s); [|lia]. apply (ib_fresh id s (ti_but s Hinv id)).
    apply map_get_elem_of in H2. apply list_elem_of_fmap. by exists (tw_nextTimer s, entityId reg). }
  split; [|done]. intros id'. destruct (ti_but s Hinv id') as [? ? ? Hfresh]. split; [done..|eauto|]. simpl.
  intros timer [->|Hin]%elem_of_map_set_keys; [lia|]. specialize (Hfresh timer Hin). lia.
Qed.

Lemma getNodeWebhooks_workflow w node descriptions ignore webhook :
  workflow_id w ≠ "" → webhook ∈ getNodeWebhooks encodedName w node descriptions ignore → wd_workflowId webhook = workflow_id w.
Proof.
  intros Hid. unfold getNodeWebhooks. case_bools; try done; try (by intros ?%elem_of_nil).
  destruct descriptions as [ds|]; [|by intros ?%elem_of_nil].
  rewrite list_elem_of_join. intros (l & Hl & (d & -> & _)%list_elem_of_fmap). revert Hl. unfold descriptionWebhooks.
  destruct (wdesc_path d), (wdesc_httpMethod d); try (by intros ?%elem_of_nil).
  by intros (m & -> & _)%list_elem_of_fmap.
Qed.

Lemma getWorkflowWebhooks_workflow w destination ignore webhooks webhook :
  workflow_id w ≠ "" → getWorkflowWebhooks encodedName descriptionsOf w destination ignore = Ok webhooks →
  webhook ∈ webhooks → wd_workflowId webhook = workflow_id w.
Proof.
  intros Hid Hw. unfold getWorkflowWebhooks in Hw. res_simpl. rewrite list_elem_of_join.
  intros (l & Hl & (node & -> & _)%list_elem_of_fmap). by eapply getNodeWebhooks_workflow.
Qed.

Lemma needsWebhook_inv options s :
  testInv s → testInv (needsWebhook getNodeParameters encodedName descriptionsOf webhookFn fits options s).1.
Proof.
  intros Hinv. unfold needsWebhook. destruct (bool_decide_reflect (we_id (nw_workflowEntity options) = "")) as [|Hid]; [done|].
  set (w := toWorkflow getNodeParameters (nw_workflowEntity options)).
  destruct (getWorkflowWebhooks encodedName descriptionsOf w (nw_destinationNode options) true) as [webhooks| |] eqn:Hw;
    [|done..].
  assert (∀ webhooks', (∀ x, x ∈ webhooks' → x ∈ webhooks) →
    testInv (listenForEach webhookFn fits options w (tw_nextTimer s) webhooks' [] (startTimer (workflow_id w) s)).1) as Hlisten.
  { intros webhooks' Hsub. apply listenForEach_inv; [done| |by apply startTimer_inv|simpl; by rewrite map_get_set_eq].
    intros webhook Hin. eapply (getWorkflowWebhooks_workflow w); [done..|]. by apply Hsub. }
  destruct (nw_triggerToStartFrom options) as [[name [data|]]|]; [done|..];
    (destruct (negb _); [done|]; destruct (if nw_workflowIsActive options then _ else _); [done|]; apply Hlisten).
  - by intros x [_ ?]%list_elem_of_filter.
  - done.
Qed.

(** ** Every sequence of operations *)

Inductive testOp :=
  | Listen (options : NeedsWebhookOptions)
  | Request (httpMethod path : string) (expectedNodeType : option string) (outcome : IWebhookData → RequestOutcome)
  | Cancel (workflowId : string)
  | Fire (timer : nat)
  | Expire.

Definition performTestOp (s : TestWebhooks) (op : testOp) : TestWebhooks :=
  match op with
  | Listen options => (needsWebhook getNodeParameters encodedName descriptionsOf webhookFn fits options s).1
  | Request httpMethod path expectedNodeType outcome =>
      (executeWebhook getNodeParameters webhookFn isMultiMain hasPushRef httpMethod path expectedNodeType outcome s).1
  | Cancel workflowId => (cancelWebhook getNodeParameters webhookFn workflowId s).1
  | Fire timer => timerFires getNodeParameters webhookFn timer s
  | Expire => setHash [] s
  end.

Definition testAfter (ops : list testOp) : TestWebhooks := foldl performTestOp noTestWebhooks ops.

Lemma performTestOp_inv op s : testInv s → testInv (performTestOp s op).
Proof.
  intros Hinv. destruct op as [options|method path expected outcome|id|timer|]; simpl.
  - by apply needsWebhook_inv.
  - by apply executeWebhook_inv.
  - apply (cancelWebhook_spec id); [by apply Hinv|by apply testInv_owned].
  - destruct (map_get timer (tw_timers s)) as [id|] eqn:Ht; [by apply (timerFires_spec timer id)|].
    unfold timerFires. by rewrite Ht.
  - split; [|by intros ? ? ?%elem_of_nil]. intros id. destruct (ti_but s Hinv id) as [_ _ _ Hfresh].
    split; [constructor|by intros ? ? ?%elem_of_nil..|done].
Qed.

Lemma testAfter_inv ops : testInv (testAfter ops).
Proof.
  unfold testAfter. assert (testInv noTestWebhooks) as Hinv.
  { split; [|by intros ? ? ?%elem_of_nil]. intros id.
    split; [constructor|by intros ? ? ?%elem_of_nil..|by intros ? ?%elem_of_nil]. }
  revert Hinv. generalize noTestWebhooks.
  induction ops as [|op ops IH]; intros s Hinv; [done|]. apply IH. by apply performTestOp_inv.
Qed.

(** A request that starts an execution removes the webhooks of its workflow. *)
Lemma executeWebhook_removes method path expected outcome s s' webhook params :
  testInv s → isMultiMain = false → outcome webhook ≠ NotExecuted →
  executeWebhook getNodeParameters webhookFn isMultiMain hasPushRef method path expected outcome s = (s', Ok (webhook, params)) →
  ∃ reg, (webhookKey webhook, reg) ∈ tw_hash s ∧ tw_hash s' = filter (λ e, entityId e.2 ≠ entityId reg) (tw_hash s).
Proof.
  intros Hinv Hsingle Hout. unfold executeWebhook, throwNotFound. rewrite Hsingle.
  destruct (routeTestRequest method path s) as [[[webhook' path'] params']| |]; [|done..].
  destruct (negb _); [intros Heq; injection Heq; intros; res_simpl|].
  destruct (getRegistration (webhookKey webhook') s) as [reg|] eqn:Hg; [|intros Heq; injection Heq; intros; res_simpl].
  apply (getRegistration_elem "" s _ _ (ti_but s Hinv "")) in Hg.
  destruct (getNode _ _); [|done]. simpl.
  assert (∀ s1, testInv s1 → tw_hash s1 = tw_hash s →
    tw_hash (deactivateWebhooks webhookFn (toWorkflow getNodeParameters (reg_workflowEntity reg)) []
      (clearTimer (webhookKey webhook') s1)).1 = filter (λ e, entityId e.2 ≠ entityId reg) (tw_hash s)) as Hreq.
  { intros s1 Hinv1 Hhash. rewrite <- Hhash in Hg.
    destruct (clearTestTimer_inv (entityId reg) _ _ s1 (ti_but s1 Hinv1 _) (testInv_owned _ s1 Hinv1) Hg eq_refl) as (Hbut & _ & Hh).
    rewrite (deactivateWebhooks_spec (entityId reg)) by done. simpl. by rewrite Hh, Hhash. }
  assert (∀ message, testInv (pushSend message s)) as Hsend.
  { intros message. split; [intros id; apply pushSend_inv; apply Hinv|apply Hinv]. }
  destruct (outcome webhook') as [|executionId|] eqn:Ho; [intros [= <- <- <-]; by rewrite Ho in Hout|..];
    destruct (reg_pushRef reg); simpl; try (destruct (bool_decide _)); intros [= <- <- <-];
    exists reg; (split; [done|]); apply Hreq; auto.
Qed.

(** C22: test webhooks do not stay.  Whatever requests, cancellations, timers and calls to listen happened,
    every registered webhook has a pending timer, and when it fires exactly the webhooks of its workflow
    are removed.  So they are when a request to one of them starts an execution.  The server is the only one,
    the code of the nodes deletes webhooks without errors, and an operation is finished before the next one
    begins: they do not overlap where they wait. *)
Theorem test_webhooks_time_out (ops : list testOp) (key : string) (reg : TestWebhookRegistration) :
  let s := testAfter ops in
  let others := filter (λ e, entityId e.2 ≠ entityId reg) (tw_hash s) in
  isMultiMain = false → (key, reg) ∈ tw_hash s →
  (∃ timer, obj_get key (tw_timeouts s) = Some timer ∧ map_get timer (tw_timers s) = Some (entityId reg) ∧
     tw_hash (timerFires getNodeParameters webhookFn timer s) = others) ∧
  (∀ method path expected outcome s' webhook params,
     executeWebhook getNodeParameters webhookFn isMultiMain hasPushRef method path expected outcome s = (s', Ok (webhook, params)) →
     webhookKey webhook = key → outcome webhook ≠ NotExecuted → tw_hash s' = others).
Proof.
  intros s others Hsingle Hin. pose proof (testAfter_inv ops) as Hinv. fold s in Hinv. split.
  - destruct (ti_timed s Hinv key reg Hin) as (timer & Ht & Hid). exists timer. split_and!; [done..|].
    by apply timerFires_spec.
  - intros method path expected outcome s' webhook params Hexec <- Hout.
    destruct (executeWebhook_removes _ _ _ _ s s' webhook params Hinv Hsingle Hout Hexec) as (reg' & Hin' & ->).
    assert (reg' = reg) as ->; [|done]. apply (getRegistration_elem "" s _ _ (ti_but s Hinv "")) in Hin, Hin'. congruence.
Qed.

(** A path that is taken is never reported, because every registration is one for a test. *)
Theorem path_taken_never_reported (ops : list testOp) (userId workflowId : string) (webhook : IWebhookData) (key : string) :
  pathTaken userId workflowId webhook (getRegistration key (testAfter ops)) = false.
Proof.
  pose proof (testAfter_inv ops) as Hinv. unfold pathTaken.
  destruct (getRegistration key (testAfter ops)) as [reg|] eqn:Hg; [|done].
  apply (getRegistration_elem "" _ _ _ (ti_but _ Hinv "")) in Hg.
  rewrite (ro_test key reg) by (by eapply (ib_regs "" _ (ti_but _ Hinv ""))). simpl. by rewrite andb_false_r.
Qed.
End safety.

(** ** Examples *)

Module example.
#[local] Instance noTypes : INodeTypes := λ _ _, None.

(** Workflows of one webhook node, at one server with room in its cache; the node has
    nothing to create or delete. *)
Definition workflowWith (id webhookId : string) : IWorkflowBase :=
  {| we_id := id; we_nodes := [webhookNode "Webhook" webhookId]; we_connections := []; we_settings := [] |}.

Definition listenTo (userId id webhookId : string) (runData : option IRunData) : testOp :=
  Listen {| nw_userId := userId; nw_workflowEntity := workflowWith id webhookId; nw_runData := runData;
            nw_pushRef := None; nw_destinationNode := None; nw_triggerToStartFrom := None; nw_chatSessionId := None;
            nw_workflowIsActive := false |}.

Definition defaults (_ : INodeType) (_ : INode) : option IDataObject := None.

Definition noMethods (_ : INode) (_ : IWebhookDescription) (_ : WebhookSetupMethod)
    : option (IWebhookData → IDataObject → IDataObject * (jserror + option bool)) := None.

(** The state after operations, with webhooks as in the description *)
Definition after (description : IWebhookDescription) (ops : list testOp) : TestWebhooks :=
  testAfter defaults (λ name, name) (λ _, Some [description]) noMethods (λ _, true) false (λ _, true) ops.

Definition at_path (path : string) (ops : list testOp) : TestWebhooks := after (fullPathDescription path "GET") ops.

Definition registered (s : TestWebhooks) : list (string * string) := (λ e, (e.1, entityId e.2)) <$> tw_hash s.

Definition routed (path : string) (s : TestWebhooks) : option (jsobj (option string)) :=
  match routeTestRequest "GET" path s with Ok (_, _, params) => Some params | _ => None end.
End example.
Import example.

Lemma test_webhooks_time_out_witness :
  let s := at_path "user" [listenTo "u1" "w1" "a" None] in
  registered s = [("GET|user", "w1")] ∧ ∃ timer, tw_hash (timerFires (H := noTypes) defaults noMethods timer s) = [].
Proof.
  intros s. split; [vm_compute; reflexivity|]. destruct (tw_hash s) as [|[key reg] l] eqn:Hs; [discriminate Hs|].
  destruct (test_webhooks_time_out (H := noTypes) defaults (λ name, name) (λ _, Some [fullPathDescription "user" "GET"])
    noMethods (λ _, true) false (λ _, true) ltac:(intros; discriminate)
    [listenTo "u1" "w1" "a" None] key reg eq_refl) as [(timer & _ & _ & Hfire) _].
  - change (testAfter _ _ _ _ _ _ _ _) with s. rewrite Hs. by left.
  - exists timer. refine (eq_trans Hfire _). change (testAfter _ _ _ _ _ _ _ _) with s. rewrite Hs.
    vm_compute in Hs. injection Hs as <- <- <-. vm_compute. reflexivity.
Defined.

(** A workflow of another user takes over the path of a test webhook, which is lost. *)
Theorem test_webhook_replaced :
  registered (at_path "user" [listenTo "u1" "w1" "a" None; listenTo "u2" "w2" "b" None]) = [("GET|user", "w2")].
Proof. vm_compute. reflexivity. Qed.

(** A call that returns because there is data for the node leaves its timer running, and
    this removes the webhooks of a later call, which has a timer of its own. *)
Theorem stale_timer_cancels_later_call :
  let ops := [listenTo "u1" "w1" "a" (Some [("Webhook", [])]); listenTo "u1" "w1" "a" None] in
  registered (at_path "user" ops) = [("GET|user", "w1")] ∧
  obj_get "GET|user" (tw_timeouts (at_path "user" ops)) = Some 1 ∧
  registered (at_path "user" (ops ++ [Fire 0])) = [].
Proof. split_and!; vm_compute; reflexivity. Qed.

(** The command of another server to remove webhooks clears the timer of the workflow that has
    taken over the path meanwhile: its webhook stays. *)
Theorem late_command_clears_other_timer :
  let s := at_path "user" [listenTo "u1" "w1" "a" None; listenTo "u2" "w2" "b" None] in
  let s' := handleClearTestWebhooks (H := noTypes) defaults noMethods (λ _, true) "GET|user" (workflowWith "w1" "a") "p" s in
  registered s' = [("GET|user", "w2")] ∧ "w2" ∉ (tw_timers s').*2.
Proof. split; [vm_compute; reflexivity|by_eval]. Qed.

(** The id of a webhook alone reaches the test webhook of the path [:id], with a parameter that has no
    value; the production webhook is not reached. *)
Theorem id_alone_reaches_test_webhook :
  routed "a" (at_path ":id" [listenTo "u1" "w1" "a" None]) = Some [("id", None)] ∧
  (routeRequest "a" "GET" (activate "w1" "a" ":id" (serviceAfter []))).2 = None.
Proof. split; vm_compute; reflexivity. Qed.

(** A dynamic webhook whose path is not the full path has its id in the path twice: neither the
    test webhook nor the production webhook is reached at its address. *)
Theorem relative_dynamic_path_unreachable :
  let description :=
    {| wdesc_restartWebhook := None; wdesc_path := Some "user/:id"; wdesc_isFullPath := None; wdesc_restart := None;
       wdesc_httpMethod := Some "GET"; wdesc_nodeType := None |} in
  let s := after description [listenTo "u1" "w1" "a" None] in
  let node := webhookNode "Webhook" "a" in
  let service := foldl (λ s data, storeWebhook true (webhookRow node data) s) (serviceAfter [])
                   (descriptionWebhooks (λ name, name) "w1" node description) in
  getNodeWebhookUrl (λ name, name) "base" "w1" node "user/:id" None = "base/a/user/:id" ∧
  registered s = [("GET|a|2", "w1")] ∧ routed "a/user/7" s = None ∧ (routeRequest "a/user/7" "GET" service).2 = None.
Proof. split_and!; vm_compute; reflexivity. Qed.

(** The options of a webhook are looked up by the path of the request in the keys of the registrations; the
    key of a dynamic webhook does not contain it, so its options are not found. *)
Theorem access_options_of_dynamic_webhook (types : INodeTypes) (parameters : INodeType → INode → option IDataObject) :
  findAccessControlOptions (H := types) parameters "a/user/7" "GET" (at_path "user/:id" [listenTo "u1" "w1" "a" None]) = None ∧
  routed "a/user/7" (at_path "user/:id" [listenTo "u1" "w1" "a" None]) = Some [("id", Some "7")].
Proof. split; reflexivity. Qed.
