(* ===== verification/TestProduction.v ===== *)
(** * Test webhooks and production webhooks

    The server looks up test webhooks by keys of its own ([test-webhooks.ts]) and
    production webhooks in a table ([webhook.service.ts]).  For the webhooks of a workflow both
    lookups give a request to the same webhook, with the same parameters. *)

From S2P Require Import Prelude JsCollections NodeTypes Fixtures Connections Workflow Trigger ScheduledTasks EngineState Webhooks WebhookLookup TestWebhooks TestWebhookSafety.

(** ** Keys of test webhooks *)

Lemma toKey_static_inj m p m' p' :
  free "|" m → free "|" m' → toKey m p None = toKey m' p' None → m = m' ∧ p = p'.
Proof. intros Hm Hm' Heq. by apply (append_sep_inj "|"). Qed.

Lemma toKey_dynamic m p id :
  id ≠ "" → String.prefix id p = false → toKey m p (Some id) = m +:+ "|" +:+ id +:+ "|" +:+ pretty (length (segments p)).
Proof. intros Hid Hp. unfold toKey, orNonEmpty. rewrite bool_decide_false by done. by rewrite Hp. Qed.

Lemma toKey_dynamic_inj m p id m' p' id' :
  id ≠ "" → id' ≠ "" → String.prefix id p = false → String.prefix id' p' = false →
  free "|" m → free "|" m' → free "|" id → free "|" id' →
  toKey m p (Some id) = toKey m' p' (Some id') → m = m' ∧ id = id' ∧ length (segments p) = length (segments p').
Proof.
  intros Hid Hid' Hp Hp' Hm Hm' Hf Hf'. rewrite !toKey_dynamic by done. intros Heq.
  apply (append_sep_inj "|") in Heq as [-> Heq]; [|done..]. apply (append_sep_inj "|") in Heq as [-> Heq]; [|done..].
  split_and!; [done..|]. by apply (inj pretty).
Qed.

(** A path without a bar is not the key of a dynamic webhook. *)
Lemma toKey_static_dynamic m p m' p' id :
  id ≠ "" → String.prefix id p' = false → free "|" m → free "|" m' → free "|" p → toKey m p None ≠ toKey m' p' (Some id).
Proof.
  intros Hid Hp' Hm Hm' Hp. rewrite toKey_dynamic by done. intros Heq.
  apply (append_sep_inj "|") in Heq as [_ ->]; [|done..]. rewrite !free_app in Hp. by destruct Hp as (_ & Hp & _).
Qed.

(** ** The registrations of a call *)

Section registered.
Context `{INodeTypes} (getNodeParameters : INodeType → INode → option IDataObject).
Context (encodedName : string → string) (descriptionsOf : INode → option (list IWebhookDescription)).
Context (webhookFn : INode → IWebhookDescription → WebhookSetupMethod →
           option (IWebhookData → IDataObject → IDataObject * (jserror + option bool))).
Context (fits : jsobj TestWebhookRegistration → bool).

Lemma register_hash reg s s' :
  register fits reg s = (s', inr ()) → tw_hash s' = obj_set (webhookKey (reg_webhook reg)) reg (tw_hash s).
Proof. unfold register. destruct (fits _); [|done]. by intros [= <-]. Qed.

Lemma registerWebhook_hash options w webhook staticData s s' staticData' :
  registerWebhook webhookFn fits options w webhook staticData s = (s', staticData', inr ()) →
  tw_hash s' = obj_set (webhookKey webhook) (registrationFor options (Some staticData') webhook) (tw_hash s).
Proof.
  unfold registerWebhook. destruct (register fits _ s) as [s1 [e|[]]] eqn:H1; [done|].
  destruct (createWebhookIfNotExists webhookFn w webhook staticData) as [sd [e|[]]]; [done|].
  destruct (register fits _ s1) as [s2 r] eqn:H2. intros [= <- <- ->].
  rewrite (register_hash _ _ _ H2), (register_hash _ _ _ H1). apply obj_set_set.
Qed.

Lemma withTestPath_plain w webhook :
  withoutTrailingSlash (wd_path webhook) = wd_path webhook → withTestPath w None webhook = webhook.
Proof. intros Hp. unfold withTestPath. simpl. rewrite Hp. by destruct webhook. Qed.

(** Each webhook is registered under its key. *)
Lemma listenForEach_hash options w timeout webhooks staticData s s' :
  nw_chatSessionId options = None → NoDup (webhookKey <$> webhooks) →
  (∀ webhook, webhook ∈ webhooks → withoutTrailingSlash (wd_path webhook) = wd_path webhook) →
  listenForEach webhookFn fits options w timeout webhooks staticData s = (s', Ok true) →
  (∀ webhook, webhook ∈ webhooks → ∃ sd, obj_get (webhookKey webhook) (tw_hash s') = Some (registrationFor options sd webhook)) ∧
  (∀ key, key ∉ webhookKey <$> webhooks → obj_get key (tw_hash s') = obj_get key (tw_hash s)).
Proof.
  intros Hchat. revert staticData s. induction webhooks as [|webhook webhooks IH]; intros staticData s Hnd Hplain.
  { intros [= <-]. split; [by intros webhook ?%elem_of_nil|done]. }
  cbn [listenForEach]. rewrite Hchat, withTestPath_plain by (apply Hplain; by left).
  csimpl in Hnd. apply NoDup_cons in Hnd as [Hno Hnd].
  destruct (from_option _ false (nw_runData options)); [done|]. destruct (pathTaken _ _ _ _); [done|].
  destruct (registerWebhook webhookFn fits options w webhook staticData s) as [[s1 sd] [e|[]]] eqn:Hr.
  { destruct (deactivateWebhooks webhookFn w sd s1) as [s2 [e'|[]]]; done. }
  pose proof (registerWebhook_hash _ _ _ _ _ _ _ Hr) as Hhash. intros Hl.
  apply IH in Hl as [Hin Hother]; [|done|intros x ?; apply Hplain; by right]. simpl in Hother. split.
  - intros webhook' [->|Hw]%elem_of_cons; [|by apply Hin]. exists (Some sd). rewrite Hother, Hhash by done.
    apply obj_get_set_eq.
  - csimpl. intros key Hkey. apply not_elem_of_cons in Hkey as [Hne Hkey]. rewrite Hother, Hhash by done. by apply obj_get_set_ne.
Qed.
End registered.

(** ** Webhooks and their rows *)

(** The row that is stored for a webhook of the workflow when it is activated *)
Definition productionRow (w : Workflow) (webhook : IWebhookData) : option WebhookEntity :=
  (λ node, webhookRow node webhook) <$> getNode w (wd_node webhook).

(** A webhook with a full path: without parameters, or with the id of its node *)
Record plainWebhook (w : Workflow) (webhook : IWebhookData) : Prop := {
  pw_method : free "-" (wd_httpMethod webhook) ∧ free "|" (wd_httpMethod webhook);
  pw_path : free "|" (wd_path webhook) ∧ withoutLeadingSlash (wd_path webhook) = wd_path webhook ∧
            withoutTrailingSlash (wd_path webhook) = wd_path webhook;
  pw_node : is_Some (getNode w (wd_node webhook));
  pw_kind : (free ":" (wd_path webhook) ∧ wd_webhookId webhook = None) ∨
    ∃ id node, wd_webhookId webhook = Some id ∧ getNode w (wd_node webhook) = Some node ∧ webhookIdOf node = Some id ∧
      id ≠ "" ∧ free "|" id ∧ String.prefix id (wd_path webhook) = false ∧
      (String.prefix ":" (wd_path webhook) || includes "/:" (wd_path webhook)) = true;
}.

Lemma prefix_includes a s : String.prefix a s = true → includes a s = true.
Proof. destruct s; cbn [includes]; intros Hp; by rewrite Hp. Qed.

Lemma includes_slash_colon s : includes "/:" s = true → includes ":" s = true.
Proof.
  induction s as [|c s IH]; [done|]. cbn [includes]. intros [Hp|Hs]%orb_true_iff; apply orb_true_iff; [|auto].
  right. cbn [String.prefix] in Hp. destruct (ascii_dec "/" c); [|done]. by apply prefix_includes.
Qed.

Lemma dynamic_colon p : (String.prefix ":" p || includes "/:" p) = true → includes ":" p = true.
Proof. intros [?%prefix_includes|?%includes_slash_colon]%orb_true_iff; done. Qed.

Lemma row_static w webhook row :
  free ":" (wd_path webhook) → withoutLeadingSlash (wd_path webhook) = wd_path webhook →
  withoutTrailingSlash (wd_path webhook) = wd_path webhook → productionRow w webhook = Some row →
  rowKey row = (wd_httpMethod webhook, wd_path webhook) ∧ wh_webhookId row = None.
Proof.
  intros Hfree Hl Ht. unfold productionRow. destruct (getNode w (wd_node webhook)) as [node|]; [|done]. intros [= <-].
  unfold rowKey, webhookRow. simpl. rewrite Hl, Ht. split; [done|].
  destruct (String.prefix ":" (wd_path webhook) || includes "/:" (wd_path webhook)) eqn:Hd; [|done].
  apply dynamic_colon in Hd. unfold free in Hfree. congruence.
Qed.

Lemma row_dynamic w webhook row id node :
  getNode w (wd_node webhook) = Some node → webhookIdOf node = Some id → id ≠ "" →
  withoutLeadingSlash (wd_path webhook) = wd_path webhook → withoutTrailingSlash (wd_path webhook) = wd_path webhook →
  (String.prefix ":" (wd_path webhook) || includes "/:" (wd_path webhook)) = true → productionRow w webhook = Some row →
  rowKey row = (wd_httpMethod webhook, wd_path webhook) ∧ wh_webhookId row = Some id ∧
  wh_pathLength row = Some (length (segments (wd_path webhook))).
Proof.
  intros Hnode Hid Hne Hl Ht Hd. unfold productionRow. rewrite Hnode. intros [= <-]. unfold rowKey, webhookRow. simpl.
  rewrite Hl, Ht, Hd, Hid. unfold orNonEmpty. rewrite bool_decide_false by done. simpl. done.
Qed.

Lemma serviceAfter_rows rows : NoDup (rowKey <$> rows) → ws_rows (serviceAfter (Store true <$> rows)) = rows.
Proof.
  unfold serviceAfter.
  assert (∀ s, NoDup (rowKey <$> (ws_rows s ++ rows)) → ws_rows (foldl performOp s (Store true <$> rows)) = ws_rows s ++ rows) as Hgen.
  { induction rows as [|row rows IH]; intros s Hnd; [by rewrite app_nil_r|]. csimpl.
    assert (ws_rows (storeWebhook true row s) = ws_rows s ++ [row]) as Hs.
    { unfold storeWebhook, upsert. simpl. rewrite bool_decide_false; [done|].
      change (rowKey row ∉ rowKey <$> ws_rows s). rewrite fmap_app in Hnd. csimpl in Hnd.
      apply NoDup_app in Hnd as (_ & Hd & _). intros Hin. apply (Hd _ Hin). by left. }
    rewrite IH; rewrite Hs, <- app_assoc; done. }
  intros Hnd. by apply Hgen.
Qed.

Lemma stores_cached rows : cacheFailures (Store true <$> rows) = [].
Proof. unfold cacheFailures. generalize noWebhooks. by induction rows as [|row rows IH]; intros s; [|apply IH]. Qed.

(** A request without a colon, in a service that is consistent, does not depend on the cache. *)
Lemma routeRequest_lookup s m path :
  webhooksInv [] s → free "-" m → free ":" path → withoutTrailingSlash path = path →
  (routeRequest path m s).2 =
  (λ row, (row, requestParams row path)) <$>
    (match findStaticWebhook m path s with Some row => Some row | None => findDynamicWebhook path (Some m) s end).
Proof.
  intros Hinv Hm Hp Ht. unfold routeRequest, findLiveWebhook. rewrite Ht.
  pose proof (findWebhook_uncached [] s m path true true Hinv Hm Hp (not_elem_of_nil _)) as Hfind.
  destruct (findWebhook true true m path s) as [s' r]. simpl in *. rewrite Hfind. unfold findWebhook, findCached.
  by destruct (findStaticWebhook m path s).
Qed.

Lemma segments_free c p : free c p → Forall (free c) (segments p).
Proof.
  unfold segments. induction p as [|x p IH]; [by intros _; repeat constructor|]. rewrite free_cons. intros [Hx Hp].
  specialize (IH Hp). simpl. case_bools; [constructor; [done|exact IH]|]. destruct (splitOn "/" p) as [|part parts].
  - constructor; [by apply free_cons|constructor].
  - apply Forall_cons in IH as [Hpart Hparts]. constructor; [by apply free_cons|done].
Qed.

Lemma isParameter_free s : free ":" s → isParameter s = false.
Proof.
  intros Hs. destruct (isParameter s) eqn:Hp; [|done]. apply prefix_includes in Hp. unfold free in Hs. congruence.
Qed.

(** Without a colon all segments are static. *)
Lemma static_segments p : free ":" p → filter (λ s, isParameter s = false) (segments p) = segments p.
Proof.
  intros Hp. apply filter_all. intros s Hs. apply isParameter_free. apply segments_free in Hp.
  by eapply Forall_forall in Hp.
Qed.

Lemma segments_nonempty p : ∃ x l, segments p = x :: l.
Proof. unfold segments. induction p as [|c p (x & l & Hp)]; simpl; [eauto|]. case_bools; [eauto|]. rewrite Hp. eauto. Qed.

Lemma segments_noslash p : Forall (free "/") (segments p).
Proof.
  unfold segments. induction p as [|c p IH]; simpl; [by repeat constructor|]. case_bools; [constructor; [done|exact IH]|].
  destruct (splitOn "/" p) as [|part parts]; [constructor; [by apply free_cons|constructor]|].
  apply Forall_cons in IH as [Hpart Hparts]. constructor; [by apply free_cons|done].
Qed.

(** ** Both lookups *)

Section agreement.
Context (w : Workflow) (options : NeedsWebhookOptions) (ds : list IWebhookData) (s : TestWebhooks).
Context (plain : ∀ d, d ∈ ds → plainWebhook w d).
Context (registered_ds : ∀ d, d ∈ ds → ∃ sd, obj_get (webhookKey d) (tw_hash s) = Some (registrationFor options sd d)).
Context (registered_only : ∀ key, key ∉ webhookKey <$> ds → obj_get key (tw_hash s) = None).
Context (keys_distinct : NoDup (webhookKey <$> ds)).
Context (rows_distinct : NoDup ((λ d, (wd_httpMethod d, wd_path d)) <$> ds)).

Definition productionRows : list WebhookEntity := omap (productionRow w) ds.

Definition production : WebhookService := serviceAfter (Store true <$> productionRows).

(** The row of the webhook that gets a test request, with the parameters *)
Definition testRoute (m path : string) : option (WebhookEntity * jsobj (option string)) :=
  match routeTestRequest m path s with
  | Ok (webhook, _, params) => (λ row, (row, params)) <$> productionRow w webhook
  | _ => None
  end.

Lemma row_of d : d ∈ ds → ∃ row, productionRow w d = Some row ∧ rowKey row = (wd_httpMethod d, wd_path d).
Proof.
  intros Hd. destruct (plain d Hd) as [_ (_ & Hl & Ht) [node Hnode] Hkind]. unfold productionRow. rewrite Hnode. csimpl.
  eexists. split; [done|]. unfold rowKey, webhookRow. simpl. by rewrite Hl, Ht.
Qed.

Lemma productionRows_keys : rowKey <$> productionRows = (λ d, (wd_httpMethod d, wd_path d)) <$> ds.
Proof.
  unfold productionRows. assert (∀ l : list IWebhookData, (∀ d, d ∈ l → d ∈ ds) →
    rowKey <$> omap (productionRow w) l = (λ d, (wd_httpMethod d, wd_path d)) <$> l) as Hgen; [|by apply Hgen].
  induction l as [|d l IH]; intros Hl; [done|]. csimpl. destruct (row_of d) as (row & Hrow & Hk); [apply Hl; by left|].
  rewrite Hrow. csimpl. rewrite Hk, IH; [done|]. intros d' ?. apply Hl. by right.
Qed.

Lemma production_rows : ws_rows production = productionRows.
Proof. apply serviceAfter_rows. by rewrite productionRows_keys. Qed.

Lemma elem_of_production row : row ∈ ws_rows production ↔ ∃ d, d ∈ ds ∧ productionRow w d = Some row.
Proof. rewrite production_rows. apply list_elem_of_omap. Qed.

Lemma production_inv : webhooksInv [] production.
Proof.
  rewrite <- (stores_cached productionRows). apply serviceAfter_inv. apply Forall_forall. intros op (row & -> & Hrow)%list_elem_of_fmap.
  apply list_elem_of_omap in Hrow as (d & Hd & Hrow). simpl. destruct (row_of d Hd) as (row' & Hrow' & Hk).
  rewrite Hrow' in Hrow. injection Hrow as ->. injection Hk as -> _. apply (plain d Hd).
Qed.

Lemma registration_of key reg : getRegistration key s = Some reg →
  ∃ d sd, d ∈ ds ∧ webhookKey d = key ∧ reg = registrationFor options sd d.
Proof.
  unfold getRegistration. destruct (decide (key ∈ webhookKey <$> ds)) as [Hin|Hno]; [|by rewrite registered_only].
  apply list_elem_of_fmap in Hin as (d & -> & Hd). destruct (registered_ds d Hd) as [sd ->]. csimpl. intros [= <-]. eauto.
Qed.

Lemma registration_ex d : d ∈ ds → ∃ sd, getRegistration (webhookKey d) s = Some (registrationFor options sd d).
Proof. intros Hd. unfold getRegistration. destruct (registered_ds d Hd) as [sd ->]. by exists sd. Qed.

Context (m path : string).
Context (method_plain : free "-" m ∧ free "|" m) (path_plain : free ":" path ∧ free "|" path).
Context (no_slash : withoutTrailingSlash path = path).

(** A registration under a static key is that of the webhook with this path. *)
Lemma static_registration d :
  d ∈ ds → webhookKey d = toKey m path None → wd_httpMethod d = m ∧ wd_path d = path ∧ free ":" (wd_path d).
Proof.
  intros Hd Hkey. destruct (plain d Hd) as [[_ Hm] (Hp & _ & _) _ [[Hfree Hid]|(id & node & Hid & _ & _ & Hne & _ & Hpre & _)]];
    unfold webhookKey in Hkey; rewrite Hid in Hkey.
  - by apply toKey_static_inj in Hkey as [H1 H2]; [|done|apply method_plain].
  - symmetry in Hkey. apply toKey_static_dynamic in Hkey; [done..|apply method_plain|done|apply path_plain].
Qed.

Lemma static_agrees d :
  d ∈ ds → webhookKey d = toKey m path None → testRoute m path = (routeRequest path m production).2.
Proof.
  intros Hd Hkey. destruct (static_registration d Hd Hkey) as (Hm & Hp & Hfree).
  destruct (registration_ex d Hd) as [sd Hreg]. destruct (row_of d Hd) as (row & Hrow & Hk).
  rewrite routeRequest_lookup by (apply production_inv || apply method_plain || apply path_plain || done).
  assert (findStaticWebhook m path production = Some row) as ->.
  { injection Hk as Hrm Hrp. rewrite <- Hm, <- Hp, <- Hrm, <- Hrp. eapply findStaticWebhook_unique; [apply production_inv|].
    apply elem_of_production. by exists d. }
  unfold testRoute, routeTestRequest. rewrite no_slash. unfold getActiveWebhook. rewrite <- Hkey, Hreg. csimpl.
  unfold getActiveWebhookFromRegistration. simpl. rewrite static_segments, Hp by done.
  destruct (segments_nonempty path) as (x & l & Hseg).
  assert (forallb (λ e, bool_decide (e ∈ segments path)) (segments path) = true) as ->.
  { apply forallb_forall. intros e He. apply bool_decide_eq_true. by apply list_elem_of_In. }
  rewrite Hseg. simpl. unfold productionRow in *. simpl. destruct (getNode w (wd_node d)) as [node|]; [|done].
  injection Hrow as <-. csimpl. do 2 f_equal. unfold requestParams, isDynamic.
  destruct (existsb isParameter _) eqn:He; [|done]. apply existsb_exists in He as (e & He & Hpar).
  assert (wh_webhookPath (webhookRow node d) = wd_path d) as Hrp by (unfold rowKey in Hk; congruence).
  rewrite Hrp in He.
  apply segments_free in Hfree. apply list_elem_of_In in He. eapply Forall_forall in Hfree; [|done].
  apply isParameter_free in Hfree. congruence.
Qed.

Lemma no_static :
  (∀ d, d ∈ ds → webhookKey d ≠ toKey m path None) →
  getActiveWebhook m path None s = None ∧ findStaticWebhook m path production = None.
Proof.
  intros Hno. split.
  - unfold getActiveWebhook. destruct (getRegistration (toKey m path None) s) as [reg|] eqn:Hg; [|done].
    apply registration_of in Hg as (d & _ & Hd & Hkey & _). by destruct (Hno d Hd).
  - destruct (findStaticWebhook m path production) as [row|] eqn:Hs; [|done].
    apply findStaticWebhook_elem in Hs as [Hin Hk]. apply elem_of_production in Hin as (d & Hd & Hrow).
    destruct (row_of d Hd) as (row' & Hrow' & Hk'). assert (row' = row) as -> by congruence. rewrite Hk in Hk'.
    injection Hk' as Hm Hp. destruct (Hno d Hd). unfold webhookKey. rewrite <- Hm, <- Hp. f_equal.
    destruct (plain d Hd) as [_ _ _ [[_ ?]|(id & node & _ & _ & _ & _ & _ & _ & Hdyn)]]; [done|].
    apply dynamic_colon in Hdyn. rewrite <- Hp in Hdyn. destruct path_plain as [Hfree _]. unfold free in Hfree. congruence.
Qed.

Context (id : string) (rest : list string).
Context (path_segments : segments path = id :: rest) (id_nonempty : id ≠ "").
Context (id_once : String.prefix id (joinPath rest) = false).
Context (not_alone : rest = [] → ∀ d, d ∈ ds → wd_webhookId d ≠ Some id).

Lemma id_free : free "|" id.
Proof.
  destruct path_plain as [_ Hp]. apply segments_free in Hp. rewrite path_segments in Hp. by apply Forall_cons in Hp as [? _].
Qed.

Lemma segments_rest : rest ≠ [] → segments (joinPath rest) = rest.
Proof.
  intros Hne. apply segments_joinPath; [done|]. pose proof (segments_noslash path) as Hp. rewrite path_segments in Hp.
  by apply Forall_cons in Hp as [_ ?].
Qed.

(** The webhooks under the key of the request *)
Lemma dynamic_key d :
  d ∈ ds → webhookKey d = toKey m (joinPath rest) (Some id) ↔
    wd_webhookId d = Some id ∧ wd_httpMethod d = m ∧ length (segments (wd_path d)) = length rest.
Proof.
  intros Hd. destruct (plain d Hd) as [[_ Hm] (Hp & _ & _) _ [[_ Hid]|(id' & node & Hid & _ & _ & Hne & Hf & Hpre & _)]];
    unfold webhookKey; rewrite Hid.
  - split; [|by intros [? _]]. intros Hkey. exfalso. by apply toKey_static_dynamic in Hkey; [..|apply method_plain|].
  - split.
    + intros Hkey. apply toKey_dynamic_inj in Hkey as (H1 & -> & H3); [|done..|by apply method_plain|done|apply id_free].
      rewrite segments_rest in H3; [done|]. intros ->. by destruct (not_alone eq_refl d Hd).
    + intros ([= ->] & -> & H3). rewrite !toKey_dynamic by done. rewrite segments_rest, H3; [done|]. intros ->.
      by destruct (segments_nonempty (wd_path d)) as (x & l & Hl); rewrite Hl in H3.
Qed.

(** The rows that production considers are those of the webhooks under the key. *)
Lemma dynamic_rows row :
  row ∈ ws_rows production →
  (wh_webhookId row = Some id ∧ wh_pathLength row = Some (length rest) ∧ wh_method row = m) ↔
  ∃ d, d ∈ ds ∧ productionRow w d = Some row ∧ webhookKey d = toKey m (joinPath rest) (Some id).
Proof.
  intros (d & Hd & Hrow)%elem_of_production.
  destruct (plain d Hd) as [_ (_ & Hl & Ht) _ Hkind]. destruct (row_of d Hd) as (row' & Hrow' & Hk).
  assert (row' = row) as -> by congruence. injection Hk as Hkm Hkp. split.
  - intros (H1 & H2 & H3). exists d. split_and!; [done..|]. apply dynamic_key; [done|].
    destruct Hkind as [[Hfree Hid]|(id' & node & Hid & Hnode & Hnid & Hne & _ & _ & Hdyn)].
    + destruct (row_static w d row Hfree Hl Ht Hrow) as [_ Hnone]. congruence.
    + destruct (row_dynamic w d row id' node) as (_ & H4 & H5); [done..|]. split_and!; congruence.
  - intros (d' & Hd' & Hrow2 & Hkey). apply dynamic_key in Hkey as (H1 & H2 & H3); [|done].
    destruct (row_of d' Hd') as (row2 & Hrow3 & Hk2). assert (row2 = row) as -> by congruence.
    destruct (plain d' Hd') as [_ (_ & Hl' & Ht') _ [[_ Hid]|(id' & node & Hid & Hnode & Hnid & Hne & _ & _ & Hdyn)]]; [congruence|].
    destruct (row_dynamic w d' row id' node) as (H4 & H5 & H6); [done..|]. injection H4 as H4 _. split_and!; congruence.
Qed.

Lemma assignParams_static template pathElements params :
  existsb isParameter template = false → assignParams template pathElements params = params.
Proof.
  revert pathElements params. induction template as [|ele template IH]; intros pathElements params; [done|].
  cbn [existsb assignParams]. intros [He Ht]%orb_false_iff. rewrite IH by done. destruct ele as [|c ele]; [done|].
  destruct (decide (c = ":"%char)) as [->|Hne]; [by rewrite isParameter_colon in He|].
  by destruct c as [[] [] [] [] [] [] [] []].
Qed.

(** The best match among one webhook *)
Lemma betterMatch_one requestSegments row :
  (betterMatch requestSegments (None, 0) row).1 =
  if (forallb (λ e, bool_decide (e ∈ requestSegments)) (staticSegments row) && bool_decide (0 < length (staticSegments row)))
     || bool_decide (length (staticSegments row) = 0) then Some row else None.
Proof.
  unfold betterMatch. destruct (_ && bool_decide (0 < _)); [done|].
  by destruct (bool_decide (length (staticSegments row) = 0)).
Qed.

Lemma findDynamic_registered d row :
  d ∈ ds → webhookKey d = toKey m (joinPath rest) (Some id) → productionRow w d = Some row →
  findDynamicWebhook path (Some m) production = (betterMatch rest (None, 0) row).1.
Proof.
  intros Hd Hkey Hrow. unfold findDynamicWebhook. rewrite path_segments. simpl.
  assert (row ∈ ws_rows production) as Hin by (apply elem_of_production; by exists d).
  match goal with |- context [filter ?P (ws_rows production)] => assert (filter P (ws_rows production) = [row]) as -> end; [|done].
  apply NoDup_only.
  - apply NoDup_filter. eapply NoDup_fmap_1. apply production_inv.
  - apply list_elem_of_filter. split; [|done]. apply dynamic_rows; [done|]. by exists d.
  - intros row' [Hsel Hin']%list_elem_of_filter. apply dynamic_rows in Hsel as (d' & Hd' & Hrow' & Hkey'); [|done].
    assert (d' = d) as ->; [|congruence]. apply (NoDup_fmap_inj webhookKey ds); congruence.
Qed.

Lemma findDynamic_unregistered :
  (∀ d, d ∈ ds → webhookKey d ≠ toKey m (joinPath rest) (Some id)) → findDynamicWebhook path (Some m) production = None.
Proof.
  intros Hno. unfold findDynamicWebhook. rewrite path_segments. simpl.
  match goal with |- context [filter ?P (ws_rows production)] => destruct (filter P (ws_rows production)) as [|row l] eqn:Hf end; [done|].
  exfalso. assert (row ∈ row :: l) as Hin by (by left). rewrite <- Hf in Hin. apply list_elem_of_filter in Hin as [Hsel Hin].
  apply dynamic_rows in Hsel as (d & Hd & _ & Hkey); [|done]. by apply (Hno d Hd).
Qed.

Lemma dynamic_agrees :
  (∀ d, d ∈ ds → webhookKey d ≠ toKey m path None) → testRoute m path = (routeRequest path m production).2.
Proof.
  intros Hno. destruct (no_static Hno) as [Htest Hlive].
  rewrite routeRequest_lookup by (apply production_inv || apply method_plain || apply path_plain || done).
  unfold testRoute, routeTestRequest, throwNotFound. rewrite Hlive, no_slash, Htest, path_segments. unfold getActiveWebhook.
  destruct (getRegistration (toKey m (joinPath rest) (Some id)) s) as [reg|] eqn:Hg.
  - apply registration_of in Hg as (d & sd & Hd & Hkey & ->). destruct (row_of d Hd) as (row & Hrow & Hk).
    rewrite (findDynamic_registered d row) by done. rewrite betterMatch_one. csimpl.
    assert (wh_webhookPath row = wd_path d) as Hp by (unfold rowKey in Hk; congruence).
    assert (rest ≠ []) as Hne. { intros Heq. apply dynamic_key in Hkey as (? & _ & _); [|done]. by apply (not_alone Heq d Hd). }
    unfold getActiveWebhookFromRegistration, staticSegments. simpl. rewrite Hp, segments_rest by done.
    match goal with |- context [if ?b then _ else _] => destruct b end; csimpl.
    + unfold productionRow in *. simpl. destruct (getNode w (wd_node d)) as [node|]; [|done]. injection Hrow as <-.
      csimpl. do 2 f_equal. unfold requestParams, isDynamic.
      rewrite Hp, path_segments. destruct (existsb isParameter (segments (wd_path d))) eqn:He; [done|].
      by rewrite assignParams_static.
    + by destruct (getWebhookMethods path s).
  - rewrite findDynamic_unregistered; [csimpl; by destruct (getWebhookMethods path s)|]. intros d Hd Hkey.
    destruct (registration_ex d Hd) as [sd Hreg]. congruence.
Qed.

Lemma lookups_agree : testRoute m path = (routeRequest path m production).2.
Proof.
  destruct (decide (toKey m path None ∈ webhookKey <$> ds)) as [Hin|Hno].
  - apply list_elem_of_fmap in Hin as (d & Hkey & Hd). by apply (static_agrees d).
  - apply dynamic_agrees. intros d Hd Hkey. apply Hno. rewrite <- Hkey. by apply list_elem_of_fmap_2.
Qed.
End agreement.


(** ** Examples *)

Import example.

(** The call to listen for the webhook of a workflow *)
Definition exampleOptions : NeedsWebhookOptions :=
  {| nw_userId := "u1"; nw_workflowEntity := workflowWith "w1" "a"; nw_runData := None; nw_pushRef := None;
     nw_destinationNode := None; nw_triggerToStartFrom := None; nw_chatSessionId := None; nw_workflowIsActive := false |}.

Definition exampleWebhooks : list IWebhookData :=
  descriptionWebhooks (λ name, name) "w1" (webhookNode "Webhook" "a") (fullPathDescription "user/:id" "GET").


(** Both give the parameter. *)
Example example_routed :
  let w := toWorkflow (H := noTypes) defaults (workflowWith "w1" "a") in
  snd <$> testRoute w (at_path "user/:id" [listenTo "u1" "w1" "a" None]) "GET" "a/user/7" = Some [("id", Some "7")].
Proof. vm_compute. reflexivity. Qed.

(** A path that begins with a parameter is not regarded as dynamic when the webhooks of a node are listed, so its test
    webhook is registered without the id and is not reached; the production webhook is. *)
Theorem leading_parameter_not_tested :
  routed "a/7/user" (at_path ":id/user" [listenTo "u1" "w1" "a" None]) = None ∧
  snd <$> (routeRequest "a/7/user" "GET" (activate "w1" "a" ":id/user" (serviceAfter []))).2 = Some [("id", Some "7")].
Proof. split; vm_compute; reflexivity. Qed.
